(* ===== verification/_CoqProject ===== *)
-Q . S2P
Prelude.v
RustStr.v
BMap.v
RustPath.v
IpAddr.v
ContainerPath.v
Project.v
Limits.v
ConfigTypes.v
HostRules.v
Plan.v
Toml.v
Merge.v
Codec.v
CodexSecrets.v
ConfigPatch.v
Resolver.v
Callback.v
EnvSecrets.v
Environment.v
Allowlist.v
IpText.v
Streams.v
Auth.v
Http.v
Transfer.v
Egress.v
HostError.v
StateErr.v
Json.v
Crypto.v
Invitation.v
Store.v
Concrete.v
StoreJournal.v
StoreDevices.v
StoreAdmission.v
Gateway.v
GatewayFacts.v
Subscription.v
Onboarding.v
Client.v
Handshake.v
Relay.v
FileSystem.v
InitSpec.v
Accounts.v
Ownership.v
InitFiles.v
InitRun.v
HostPaths.v
HostCommand.v
Engines.v
HostServices.v
HostServicesFacts.v
EngineFacts.v
EngineRuns.v
LaunchPlan.v
LaunchFacts.v
HostSshArgs.v
HostSsh.v
HostSshFacts.v
Connect.v
ConnectFacts.v
