(* ===== verification/Prelude.v ===== *)
(** * codex-start: a verification library

    codex-start runs the Codex command line in a disposable container.  Its
    configuration crate (src/crates/codex-start-core) turns layered TOML documents,
    environment variables and command-line options into one effective configuration,
    picks a development environment and describes the container as a plan.  Inside
    the container the proxy crate (src/crates/codex-start-proxy) is init and the only
    way out: it prepares accounts, directories, secrets and services before it becomes
    the workload, parses the clients' HTTP, checks destinations against the allow-list
    that the configuration produced, and relays what it has checked.  The remote crate
    (src/crates/codex-start-remote) with the gateway of the host
    (src/crates/codex-start-host/src/remote) and the client
    (src/crates/codex-start-client) lets paired devices drive a host.  This library
    translates that logic into executable definitions and proves what makes it
    correct.  Everything is a shallow embedding: a Rust function is a Rocq function of
    the same name, [Result] is [result] with [?] as bind, a shared object that is
    changed is a state passed along ([ST]), and loops that are not structural carry
    fuel that a theorem shows to be enough.

    ** Files, from the bottom up

    The ground:
    - this file: results, their inversion lemmas and tactics ([ok_inv], [bool_split]),
      the hint databases [rs] and [result_inv], ordered deduplication;
    - RustStr.v: Rust strings and byte vectors as lists of bytes ([str]), with the
      searches, splits, trims, UTF-8 checks and integer conversions of the standard
      library; RustPath.v: [std::path] on Unix; IpAddr.v: [std::net] addresses and
      their parsers; BMap.v: [BTreeMap] as a strictly sorted association list;
    - Streams.v: byte streams of the proxies as event lists with write faults.

    The configuration, src/crates/codex-start-core/src/config.rs:
    - Limits.v: typed resource limits; ConfigTypes.v: enums, tables, homes, secret
      providers, errors; HostRules.v: the syntax of allow-rules;
    - Toml.v: TOML values; Merge.v: [merge_value] and the provenance of every leaf;
      Codec.v: serde's conversions as pairs with laws (the class [CodecLaws]);
      ConfigPatch.v: one layer, its codec, validation and [merged_with];
    - CodexSecrets.v: the search for plaintext secrets in native settings;
    - Resolver.v: documents, environment overrides, profile chains, [resolve];
    - Callback.v: native settings as command-line arguments, the OAuth callback.

    The rest of the core crate:
    - ContainerPath.v (container_path.rs), Project.v (project.rs), Plan.v (plan.rs),
      EnvSecrets.v and Environment.v (environment.rs).

    The proxy crate:
    - Allowlist.v (allowlist.rs): authorities, rules, address policy; IpText.v: printed
      addresses parse back;
    - Auth.v (auth.rs): tokens; Http.v (egress.rs, heads and framing); Transfer.v
      (egress.rs, bodies); Egress.v (egress.rs, the handler and the listener).
    - Handshake.v and Relay.v (relay.rs): the authenticated greeting, and the relays
      as state machines over the completions of their reads and writes and the clock.

    The start of a container, codex-start-proxy/src/container_init.rs:
    - FileSystem.v: a Unix file system with links, devices, modes and faults, and the
      calls of [std::fs] on it; StateErr.v: the monad of state, errors and divergence;
    - InitSpec.v: the specification and its validation; Accounts.v: account databases;
      Ownership.v: writable roots; InitFiles.v: bounded reading, secrets, the SSH
      configuration; InitRun.v: commands, services, preparation and the final exec.

    The remote crate, the gateway and the client:
    - Json.v: JSON values; HostError.v: the errors of the host; Crypto.v (crypto.rs):
      keys, proofs and approval codes; Invitation.v (invitation.rs,
      compact_invitation.rs); Store.v (store.rs): the database as tables, with its
      facts in StoreJournal.v, StoreDevices.v and StoreAdmission.v; Concrete.v:
      instances of the interfaces for witnesses;
    - Gateway.v and GatewayFacts.v (remote/server.rs, remote/state.rs): one connection
      and many; Subscription.v: events after a cursor; Onboarding.v: from an invitation
      to an authenticated device; Client.v (client.rs).

    The host, src/crates/codex-start-host/src:
    - HostPaths.v (paths.rs): private files and directories, container paths;
      HostCommand.v (command.rs): commands, exit codes, diagnostics;
    - Engines.v (runtime.rs): Docker and Podman, their requests and operations, as
      programs over the history of commands run so far; EngineFacts.v: command lines
      read back; EngineRuns.v: what the engine has said before the host acts;
    - HostServices.v (host_services.rs): what a run forwards, and what it tells the
      container; HostServicesFacts.v: who can reach what;
    - LaunchPlan.v (launch_plan.rs): what a launch asks of an engine; LaunchFacts.v:
      the plan says what the request says.

    ** How the parts interact

    Resolver.v merges layers through the codecs of ConfigPatch.v with the merge of
    Merge.v; Environment.v merges manifests with [merged_with]; both meet in
    [resolve_is_overlay] and [merged_with_is_overlay], which replace the detour
    through TOML by a field-wise overlay.  HostRules.v and Allowlist.v share the
    [Idna] interface, so that [config_rules_accepted] can say that a rule the
    configuration accepts is a rule the proxy understands.  Plan.v uses
    ContainerPath.v and ConfigTypes.v; Callback.v takes the effective settings.
    The start of a container is one program over the file system and the kernel:
    [run_and_exec] of InitRun.v calls Accounts.v, Ownership.v and InitFiles.v in the
    order of the source, with the tokens of Auth.v and the authorities of Allowlist.v.
    Relay.v runs on Handshake.v and Streams.v.  The gateway works on the store; the
    client reads what the gateway's subscriptions write, and [delivered_exactly_once]
    speaks of both ends.  Engines.v runs the commands of HostCommand.v; HostServices.v
    binds and writes through HostPaths.v, takes the engine's gateway from Engines.v,
    the callback from Callback.v and the authorities of Allowlist.v, and what it plans
    are the services of InitSpec.v that the start of the container runs.

    ** What the theorems show

    - Configuration: a layer survives serialisation ([patch_roundtrip]); merging
      gives each setting to the last layer that speaks and records exactly that
      layer ([last_layer_wins], [settings_from_last_layer]); profile chains end and
      fail only on a real cycle ([profile_layers_exact]); what is resolved is
      consistent ([reachable_resolver_ok]).
    - Secrets in settings: plaintext never passes ([secret_literals_refused]).
    - Environments and plans: [inheritance_exact], [validate_exact].
    - Egress: [config_rules_accepted], [address_policy_exact], [chunk_size_exact],
      [forwarded_head_reads_back], [request_forwarding_exact], and over all of them
      [egress_contacts_only_allowed].
    - Relays: the greeting and its answer ([relay_handshake]), bytes and idle times
      under every interleaving ([relay_faithful]).
    - The start of a container: what a valid specification promises
      ([validated_spec]); accounts ([account_remap_exact], [account_files_atomic]);
      writable roots ([ownership_exact]); secrets ([secrets_confined]); the order of everything and what is left after a failure
      ([container_start_order]); identities and environments of all processes
      ([workload_privileges]).
    - Remote: [invitation_roundtrip]; the store's invariant and its admission of
      devices ([store_invariant], [device_admission]); its journal ([append_exact]); requests
      run at most once and only for authenticated devices ([dispatched_at_most_once],
      [connection_authenticated]); an invitation lets a device in
      ([invitation_lets_in]); the client gets each event once, in order
      ([delivered_exactly_once]).
    - The host: a run request's command line says what the request says
      ([run_arguments_read_back]); the engine that is chosen has shown what it can do
      ([detect_healthy]); a probe removes only what it made
      ([probe_removes_only_its_own]); nothing listens beyond loopback without the
      run's token ([listeners_authenticated]), private addresses are exempted only for
      the run's own relays and services that ask ([private_reach_exact]), and the
      services of the container have listeners of their own
      ([planned_listeners_distinct]); planning keeps what a request says
      ([request_survives_planning]), keeps secrets out of the plan
      ([secrets_stay_out_of_plans]) and refuses arguments that would lift the limits
      ([limits_not_overridden]).
    Many lemmas beside these state further behaviour, for example
    [response_relay_exact], [resolved_environment_sound], [callback_coherent],
    [generated_overrides_complete], [resolved_config_sound], [request_head_exact],
    [rotation_closes], [relay_dials_after_handshake], [ssh_config_exact],
    [join_relative_stays_below], [command_environment], [osvalue_roundtrip],
    [ensure_volume_owned], [mount_read_back], [offline_reaches_nothing],
    [private_paths], [revocation_is_final], [resolve_is_overlay] and
    [merged_with_is_overlay].

    ** Interfaces

    Code outside the repository is a class argument: IDNA ([Idna]), [f64] printing
    and parsing ([F64] with the laws [F64Laws]), the TOML crate's rendering
    ([TomlCrate]) and the document and manifest parsers, JSON quoting ([JsonCrate]),
    URLs ([UrlCrate], [HttpUrlCrate] with [HttpUrlLaws]), SHA-256 ([Sha256]), BLAKE3,
    Unicode case, base64 and hex ([Encodings], [StandardBase64]), Ed25519
    ([Ed25519]), serde's readers of JSON ([SerdeJson], [ContentJson]), the operations
    behind the gateway ([Backends]), connecting ([RelayNetwork]), the order of a
    directory ([DirectoryOrder]), the kernel's answers about processes ([Kernel]),
    what an engine answers after the commands before ([Engine]), [Debug] texts
    ([DebugStr]), the environment of the host ([EnvironmentVariables]), temporary
    files ([TempFiles], [TempDirs]), the reader of container states ([StateJson]),
    listening sockets ([HostSockets]) and the ends of tasks ([HostTasks]).  A theorem
    that needs a law of one of them names the law class, and its witness gives a
    concrete instance.

    ** Bounds and fuel

    Machine integers are [Z] with the source's checks written out ([U16_MAX],
    [U64_MAX], [I64_MAX]).  [split_str] and the UTF-8 walk take one unit of fuel per
    byte; a loop over a stream takes the bytes and events left in it plus one, and
    every theorem about such a loop states that it returns; profile chains and manifest lineages take one per entry of the map plus
    one, because a name that repeats is a cycle ([profile_layers_exact],
    [inheritance_exact]); decimal printing takes the binary length.

    ** Not modelled

    Terminal interfaces, argument parsing by derive macros, sockets and TLS, the
    overlay network, the Android application, generated bindings, build tooling
    (xtask) and tests: they carry little logic of their own or consist of calls to the
    operating system.  The host's sessions, git, homes, updates and remote
    workspaces (app.rs, session.rs, git.rs, home.rs, update.rs), and the
    proxies over SSH and browser, are left out: they drive programs and files around
    the modelled parts.  Of the modelled parts: failures of the store's disk, parsing of
    socket addresses by [std::net] in relay.rs, changes of files by other processes
    during one operation of the start, hard links, the Windows branches, and the
    handles that a value keeps alive ([TempDir], sockets, children): a directory that
    goes with its handle when a start fails stays in the model. *)

From Stdlib Require Export Ascii String.
From stdpp Require Export base tactics option list strings gmap sorting relations.
From Stdlib Require Export ZArith Lia.

#[export] Set Default Goal Selector "!".

(** ** Results

    [Result<A, E>] of the source.  The [?] operator is stdpp's bind on the
    instances below, so a handler reads in the order of the code. *)

Inductive result (E A : Type) : Type :=
  | Ok (a : A)
  | Err (e : E).
Arguments Ok {E A} a.
Arguments Err {E A} e.

#[export] Instance result_ret {E} : MRet (result E) := fun A a => Ok a.
#[export] Instance result_bind {E} : MBind (result E) :=
  fun A B f m => match m with Ok a => f a | Err e => Err e end.
#[export] Instance result_fmap {E} : FMap (result E) :=
  fun A B f m => match m with Ok a => Ok (f a) | Err e => Err e end.

(** [Result::map_err]. *)
Definition map_err {E F A} (f : E -> F) (m : result E A) : result F A :=
  match m with Ok a => Ok a | Err e => Err (f e) end.

(** [Option::ok_or]. *)
Definition ok_or {E A} (o : option A) (e : E) : result E A :=
  match o with Some a => Ok a | None => Err e end.

(** [Result::ok]. *)
Definition ok {E A} (m : result E A) : option A :=
  match m with Ok a => Some a | Err _ => None end.

Definition is_ok {E A} (m : result E A) : bool :=
  match m with Ok _ => true | Err _ => false end.

(** [if b { return Err(e); }] as a statement. *)
Definition err_if {E} (b : bool) (e : E) : result E unit :=
  if b then Err e else Ok tt.

(** A [for] loop whose body can only fail. *)
Fixpoint for_each {E A} (f : A -> result E unit) (l : list A) : result E unit :=
  match l with
  | [] => Ok tt
  | x :: l' => f x ;; for_each f l'
  end.

(** [iter().map(f).collect::<Result<Vec<_>, _>>()]. *)
Fixpoint collect_results {E A B} (f : A -> result E B) (l : list A) : result E (list B) :=
  match l with
  | [] => Ok []
  | x :: l' => y ← f x; ys ← collect_results f l'; Ok (y :: ys)
  end.

(** [Option::is_some_and], [Option::is_none_or]. *)
Definition is_some_and {A} (o : option A) (p : A -> bool) : bool :=
  match o with Some a => p a | None => false end.
Definition is_none_or {A} (o : option A) (p : A -> bool) : bool :=
  match o with Some a => p a | None => true end.

Create HintDb rs discriminated.

Lemma bind_Ok {E A B} (m : result E A) (f : A -> result E B) b :
  m ≫= f = Ok b <-> exists a, m = Ok a /\ f a = Ok b.
Proof. destruct m; cbn; naive_solver. Qed.

Lemma bind_Err {E A B} (m : result E A) (f : A -> result E B) e :
  m ≫= f = Err e <-> m = Err e \/ exists a, m = Ok a /\ f a = Err e.
Proof. destruct m; cbn; naive_solver. Qed.

Lemma fmap_Ok {E A B} (m : result E A) (f : A -> B) b :
  f <$> m = Ok b <-> exists a, m = Ok a /\ b = f a.
Proof. destruct m; cbn; naive_solver. Qed.

Lemma map_err_Ok {E F A} (g : E -> F) (m : result E A) a :
  map_err g m = Ok a <-> m = Ok a.
Proof. destruct m; cbn; naive_solver. Qed.

Lemma err_if_Ok {E} (b : bool) (e : E) u : err_if b e = Ok u <-> b = false.
Proof. destruct b, u; cbn; naive_solver. Qed.

Lemma ok_or_Ok {E A} (o : option A) (e : E) a : ok_or o e = Ok a <-> o = Some a.
Proof. destruct o; cbn; naive_solver. Qed.

Lemma for_each_Ok {E A} (f : A -> result E unit) l u :
  for_each f l = Ok u <-> Forall (fun x => f x = Ok tt) l.
Proof.
  destruct u. induction l as [|x l IH]; cbn; [by split|].
  rewrite bind_Ok, Forall_cons, <- IH. split.
  - intros [[] [H1 H2]]. done.
  - intros [H1 H2]. by exists tt.
Qed.

Lemma collect_results_Ok {E A B} (f : A -> result E B) l ys :
  collect_results f l = Ok ys <-> Forall2 (fun x y => f x = Ok y) l ys.
Proof.
  revert ys. induction l as [|x l IH]; intros ys; cbn.
  { split; [by intros [= <-]; constructor | by inversion 1]. }
  rewrite bind_Ok. setoid_rewrite bind_Ok. split.
  - intros (y & Hy & ys' & Hys & [= <-]). constructor; [done|]. by apply IH.
  - inversion 1 as [|? y ? ys' Hy Hys]; subst. exists y. split; [done|].
    exists ys'. split; [by apply IH | done].
Qed.

Lemma err_if_bind_Ok {E A} (b : bool) (e : E) (k : result E A) a :
  (err_if b e ;; k) = Ok a <-> b = false /\ k = Ok a.
Proof. destruct b; cbn; naive_solver. Qed.

Lemma bind_unit_Ok {E A} (m : result E unit) (k : result E A) a :
  (m ;; k) = Ok a <-> m = Ok tt /\ k = Ok a.
Proof. destruct m as [[]|]; cbn; naive_solver. Qed.

#[export] Hint Rewrite @bind_Ok @fmap_Ok @map_err_Ok @err_if_Ok @ok_or_Ok
  @for_each_Ok @err_if_bind_Ok : result_inv.

(** Decompose a successful run: [H : (a ← m; k) = Ok r] becomes one equation
    per step of [m; k]. *)
Ltac ok_inv H :=
  first
    [ apply err_if_bind_Ok in H as [? H]; ok_inv H
    | let x := fresh "r" in let Hx := fresh "Hr" in
      apply bind_Ok in H as [x [Hx H]]; ok_inv H
    | injection H as H
    | idtac ].

(** Split a conjunction or disjunction of booleans in the context. *)
Ltac bool_split :=
  repeat match goal with
  | H : orb _ _ = false |- _ => apply orb_false_iff in H as [? ?]
  | H : andb _ _ = true |- _ => apply andb_true_iff in H as [? ?]
  | H : negb _ = false |- _ => apply negb_false_iff in H
  | H : negb _ = true |- _ => apply negb_true_iff in H
  | H : bool_decide _ = true |- _ => apply bool_decide_eq_true in H
  | H : bool_decide _ = false |- _ => apply bool_decide_eq_false in H
  | H : (_ =? _)%Z = true |- _ => apply Z.eqb_eq in H
  | H : (_ =? _)%Z = false |- _ => apply Z.eqb_neq in H
  | H : (_ <? _)%Z = true |- _ => apply Z.ltb_lt in H
  | H : (_ <? _)%Z = false |- _ => apply Z.ltb_ge in H
  | H : (_ <=? _)%Z = true |- _ => apply Z.leb_le in H
  | H : (_ <=? _)%Z = false |- _ => apply Z.leb_gt in H
  | H : (_ =? _)%nat = true |- _ => apply Nat.eqb_eq in H
  | H : (_ =? _)%nat = false |- _ => apply Nat.eqb_neq in H
  | H : (_ <? _)%nat = true |- _ => apply Nat.ltb_lt in H
  | H : (_ <? _)%nat = false |- _ => apply Nat.ltb_ge in H
  | H : (_ <=? _)%nat = true |- _ => apply Nat.leb_le in H
  | H : (_ <=? _)%nat = false |- _ => apply Nat.leb_gt in H
  end.

(** ** Ordered deduplication

    A [HashSet]/[BTreeSet] used only as a membership test while a list is
    walked ([seen.insert(x)] is true the first time): the list of values seen
    so far stands for it. *)

Section dedup.
Context {A : Type} `{EqDecision A}.

Definition memb (x : A) (l : list A) : bool := bool_decide (x ∈ l).

Fixpoint dedup_from (seen : list A) (l : list A) : list A :=
  match l with
  | [] => []
  | x :: l' => if memb x seen then dedup_from seen l' else x :: dedup_from (x :: seen) l'
  end.

Lemma elem_of_dedup_from seen l x :
  x ∈ dedup_from seen l <-> x ∈ l /\ x ∉ seen.
Proof.
  revert seen. induction l as [|y l IH]; intros seen; cbn; [set_solver|].
  unfold memb. case_bool_decide; [rewrite IH; set_solver|].
  rewrite elem_of_cons, IH. destruct (decide (x = y)); set_solver.
Qed.

Lemma NoDup_dedup_from seen l : NoDup (dedup_from seen l).
Proof.
  revert seen. induction l as [|y l IH]; intros seen; cbn; [constructor|].
  unfold memb. case_bool_decide; [done|]. constructor; [|done].
  rewrite elem_of_dedup_from. set_solver.
Qed.

Lemma dedup_from_sublist seen l : dedup_from seen l `sublist_of` l.
Proof.
  revert seen. induction l as [|y l IH]; intros seen; cbn; [constructor|].
  case_match; constructor; done.
Qed.

Lemma dedup_from_id seen l :
  NoDup l -> (forall x, x ∈ l -> x ∉ seen) -> dedup_from seen l = l.
Proof.
  intros Hl. revert seen. induction Hl as [|x l Hx Hl IH]; intros seen Hs; cbn; [done|].
  unfold memb. rewrite bool_decide_eq_false_2 by set_solver. f_equal.
  apply IH. set_solver.
Qed.
End dedup.

(** The keys of a list are new and pairwise distinct: what a loop that inserts
    each key in a set and fails on a repeated one establishes. *)
Definition fresh {A B} (f : A -> B) (seen : list B) (l : list A) : Prop :=
  NoDup (map f l) /\ Forall (fun x => f x ∉ seen) l.

Lemma fresh_nil {A B} (f : A -> B) seen : fresh f seen [].
Proof. split; constructor. Qed.

Lemma fresh_cons {A B} (f : A -> B) seen x l :
  fresh f seen (x :: l) <-> f x ∉ seen /\ fresh f (f x :: seen) l.
Proof.
  unfold fresh. cbn [map]. rewrite NoDup_cons, !Forall_forall, list_elem_of_fmap.
  setoid_rewrite elem_of_cons. split.
  - intros [[H1 H2] H3]. split; [auto|]. split; [done|]. intros y Hy [E|E].
    + apply H1. eauto.
    + eapply H3; eauto.
  - intros (H1 & H2 & H3). split; [split; [|done]|].
    + intros (y & E & Hy). by apply (H3 y Hy); left.
    + intros y [->|Hy]; [done|]. intros E. by apply (H3 y Hy); right.
Qed.

Lemma fresh_start {A B} (f : A -> B) l : fresh f [] l <-> NoDup (map f l).
Proof.
  unfold fresh. split; [by intros [? _]|]. intros H. split; [done|]. apply Forall_forall. intros x _ Hx. set_solver.
Qed.

Lemma memb_false {A} `{EqDecision A} (x : A) l : memb x l = false <-> x ∉ l.
Proof. apply bool_decide_eq_false. Qed.
Lemma memb_true {A} `{EqDecision A} (x : A) l : memb x l = true <-> x ∈ l.
Proof. apply bool_decide_eq_true. Qed.
