(* ===== verification/RustStr.v ===== *)
(** * Strings of the Rust standard library

    A [str], [String], [OsStr] or [PathBuf] of the source is its byte sequence,
    a [list ascii]; a Rust string is the UTF-8 encoding of its characters, so
    [str::len] is [length], [bytes()] is the list itself, and the comparison
    and search methods, which are bytewise in Rust, are list functions.  The
    methods that look at characters ([trim], [chars]) decode the encoding.
    Integer parsing and printing follow [FromStr] and [Display] of the integer
    types: an unsigned parse accepts a leading [+]. *)

From S2P Require Export Prelude.

Abbreviation str := (list ascii).
Coercion list_ascii_of_string : string >-> list.
Arguments list_ascii_of_string : simpl never.

#[export] Set Warnings "-uniform-inheritance,-register-all".
Open Scope string_scope.
Open Scope list_scope.

(** A literal list of strings. *)
Definition strs (l : list string) : list str := map list_ascii_of_string l.

Definition str_eqb (x y : str) : bool := bool_decide (x = y).
Infix "=s?" := str_eqb (at level 70).
Definition one_of (x : str) (l : list string) : bool := bool_decide (x ∈ strs l).

(** ** Bytes *)

Definition code (c : ascii) : Z := Z.of_N (N_of_ascii c).
Definition byte_at (n : Z) : ascii := ascii_of_N (Z.to_N n).
Definition in_range (lo hi : Z) (c : ascii) : bool :=
  (lo <=? code c)%Z && (code c <=? hi)%Z.
Definition is_byte (c d : ascii) : bool := bool_decide (c = d).

Definition is_digit : ascii -> bool := in_range 48 57.
Definition is_lower : ascii -> bool := in_range 97 122.
Definition is_upper : ascii -> bool := in_range 65 90.
Definition is_alphabetic (c : ascii) : bool := is_lower c || is_upper c.
Definition is_alphanumeric (c : ascii) : bool := is_alphabetic c || is_digit c.
Definition is_hexdigit (c : ascii) : bool :=
  is_digit c || in_range 97 102 c || in_range 65 70 c.
(** [u8::is_ascii_whitespace]: space, tab, line feed, form feed, carriage return. *)
Definition is_ascii_whitespace (c : ascii) : bool :=
  in_range 32 32 c || in_range 9 10 c || in_range 12 13 c.
Definition is_ascii_control (c : ascii) : bool := in_range 0 31 c || in_range 127 127 c.
Definition is_graphic : ascii -> bool := in_range 33 126.
Definition is_ascii (c : ascii) : bool := (code c <? 128)%Z.

Definition lower_byte (c : ascii) : ascii :=
  if is_upper c then byte_at (code c + 32) else c.
Definition upper_byte (c : ascii) : ascii :=
  if is_lower c then byte_at (code c - 32) else c.
Definition to_ascii_lowercase (s : str) : str := map lower_byte s.
Definition to_ascii_uppercase (s : str) : str := map upper_byte s.
Definition eq_ignore_ascii_case (x y : str) : bool :=
  to_ascii_lowercase x =s? to_ascii_lowercase y.

Definition contains_byte (c : ascii) (s : str) : bool := existsb (is_byte c) s.
Definition contains_any (cs : string) (s : str) : bool :=
  existsb (fun c => existsb (is_byte c) (cs : str)) s.

(** The bytes a string literal cannot show. *)
Definition NUL : ascii := "000".
Definition DQUOTE : ascii := "034".
Definition TAB : ascii := "009".
Definition LF : ascii := "010".
Definition CR : ascii := "013".
Definition CRLF : str := [CR; LF].

(** ** Prefixes, suffixes and searches *)

Fixpoint strip_prefix (p s : str) : option str :=
  match p, s with
  | [], _ => Some s
  | c :: p', d :: s' => if bool_decide (c = d) then strip_prefix p' s' else None
  | _ :: _, [] => None
  end.

Definition strip_suffix (p s : str) : option str :=
  reverse <$> strip_prefix (reverse p) (reverse s).

Definition starts_with (p s : str) : bool := bool_decide (is_Some (strip_prefix p s)).
Definition ends_with (p s : str) : bool := bool_decide (is_Some (strip_suffix p s)).

(** [s.split_once(pat)] for a string pattern: the first occurrence. *)
Fixpoint split_once_str (pat s : str) : option (str * str) :=
  match strip_prefix pat s with
  | Some rest => Some ([], rest)
  | None =>
      match s with
      | [] => None
      | c :: s' => '(a, b) ← split_once_str pat s'; Some (c :: a, b)
      end
  end.

Definition contains_str (pat s : str) : bool := bool_decide (is_Some (split_once_str pat s)).

(** [s.split_once(c)], [s.rsplit_once(c)] for a byte that matches [p]. *)
Fixpoint split_once_by (p : ascii -> bool) (s : str) : option (str * str) :=
  match s with
  | [] => None
  | c :: s' => if p c then Some ([], s') else '(a, b) ← split_once_by p s'; Some (c :: a, b)
  end.

Fixpoint rsplit_once_by (p : ascii -> bool) (s : str) : option (str * str) :=
  match s with
  | [] => None
  | c :: s' =>
      match rsplit_once_by p s' with
      | Some (a, b) => Some (c :: a, b)
      | None => if p c then Some ([], s') else None
      end
  end.

Definition split_once (c : ascii) : str -> option (str * str) := split_once_by (is_byte c).
Definition rsplit_once (c : ascii) : str -> option (str * str) := rsplit_once_by (is_byte c).

(** [s.split(p)]: never empty. *)
Fixpoint split_by (p : ascii -> bool) (s : str) : list str :=
  match s with
  | [] => [[]]
  | c :: s' =>
      if p c then [] :: split_by p s'
      else match split_by p s' with
           | w :: ws => (c :: w) :: ws
           | [] => [[c]]
           end
  end.
Definition split (c : ascii) : str -> list str := split_by (is_byte c).

(** [s.split(pat)] for a string pattern, with one unit of fuel per byte. *)
Fixpoint split_str_fuel (fuel : nat) (pat s : str) : list str :=
  match fuel with
  | O => [s]
  | S fuel' =>
      match split_once_str pat s with
      | Some (w, rest) => w :: split_str_fuel fuel' pat rest
      | None => [s]
      end
  end.
Definition split_str (pat s : str) : list str := split_str_fuel (length s) pat s.

(** [parts.join(sep)]. *)
Fixpoint join (sep : str) (parts : list str) : str :=
  match parts with
  | [] => []
  | [w] => w
  | w :: ws => w ++ sep ++ join sep ws
  end.

(** ** Trimming *)

Fixpoint trim_start_by (p : ascii -> bool) (s : str) : str :=
  match s with
  | [] => []
  | c :: s' => if p c then trim_start_by p s' else s
  end.
Definition trim_end_by (p : ascii -> bool) (s : str) : str :=
  reverse (trim_start_by p (reverse s)).
Definition trim_matches (p : ascii -> bool) (s : str) : str :=
  trim_end_by p (trim_start_by p s).

(** The encodings of the characters with the Unicode property White_Space. *)
Definition whitespace_chars : list str :=
  map (fun n => [byte_at n]) [9; 10; 11; 12; 13; 32]%Z
  ++ map (map byte_at)
    ([[194; 133]; [194; 160]; [225; 154; 128]]
     ++ map (fun n => [226; 128; n]) [128; 129; 130; 131; 132; 133; 134; 135; 136; 137; 138]
     ++ [[226; 128; 168]; [226; 128; 169]; [226; 128; 175]; [226; 129; 159]; [227; 128; 128]])%Z.

Definition strip_any (ps : list str) (s : str) : option str :=
  foldr (fun p acc => match strip_prefix p s with Some r => Some r | None => acc end) None ps.

Fixpoint strip_many (fuel : nat) (ps : list str) (s : str) : str :=
  match fuel with
  | O => s
  | S fuel' => match strip_any ps s with Some r => strip_many fuel' ps r | None => s end
  end.

Definition trim_start (s : str) : str := strip_many (length s) whitespace_chars s.
Definition trim_end (s : str) : str :=
  reverse (strip_many (length s) (map reverse whitespace_chars) (reverse s)).
Definition trim (s : str) : str := trim_end (trim_start s).
Definition is_blank (s : str) : bool := bool_decide (trim s = []).

(** ** Characters *)

Definition is_continuation : ascii -> bool := in_range 128 191.

(** [s.chars()] of a valid string: each character as its encoding. *)
Fixpoint chars (s : str) : list str :=
  match s with
  | [] => []
  | c :: s' =>
      match chars s' with
      | (d :: w) :: ws => if is_continuation d then (c :: d :: w) :: ws else [c] :: (d :: w) :: ws
      | ws => [c] :: ws
      end
  end.

(** The width of the sequence a non-ASCII lead byte announces, with the range
    of its second byte (the well-formed byte sequences of Unicode). *)
Definition utf8_lead (c : ascii) : option (nat * Z * Z) :=
  (if in_range 194 223 c then Some (2%nat, 128, 191)
   else if in_range 224 224 c then Some (3%nat, 160, 191)
   else if in_range 237 237 c then Some (3%nat, 128, 159)
   else if in_range 225 239 c then Some (3%nat, 128, 191)
   else if in_range 240 240 c then Some (4%nat, 144, 191)
   else if in_range 241 243 c then Some (4%nat, 128, 191)
   else if in_range 244 244 c then Some (4%nat, 128, 143)
   else None)%Z.

(** The longest prefix of [s], at most [n] bytes, made of continuations. *)
Fixpoint take_continuations (n : nat) (s : str) : str * str :=
  match n, s with
  | S n', c :: s' =>
      if is_continuation c then let '(a, b) := take_continuations n' s' in (c :: a, b) else ([], s)
  | _, _ => ([], s)
  end.

(** One character of a byte string, or one maximal ill-formed subpart. *)
Definition utf8_chunk (c : ascii) (s : str) : bool * str * str :=
  if is_ascii c then (true, [c], s)
  else match utf8_lead c, s with
       | Some (w, lo, hi), d :: s' =>
           if in_range lo hi d then
             let '(a, rest) := take_continuations (w - 2) s' in
             (bool_decide (length a = w - 2)%nat, c :: d :: a, rest)
           else (false, [c], s)
       | _, _ => (false, [c], s)
       end.

Fixpoint utf8_chunks_fuel (fuel : nat) (s : str) : list (bool * str) :=
  match fuel, s with
  | S fuel', c :: s' =>
      let '(good, chunk, rest) := utf8_chunk c s' in (good, chunk) :: utf8_chunks_fuel fuel' rest
  | _, _ => []
  end.
Definition utf8_chunks (s : str) : list (bool * str) := utf8_chunks_fuel (length s) s.

(** [str::from_utf8(s).is_ok()] and [String::from_utf8_lossy(s)]. *)
Definition utf8_valid (s : str) : bool := forallb fst (utf8_chunks s).
Definition replacement_char : str := map byte_at [239; 191; 189]%Z.
Definition from_utf8_lossy (s : str) : str :=
  concat (map (fun gc : bool * str => if gc.1 then gc.2 else replacement_char) (utf8_chunks s)).

(** ** Integers *)

Definition digit_value (c : ascii) : Z := code c - 48.
Definition dec_value (s : str) : Z := foldl (fun acc c => acc * 10 + digit_value c)%Z 0%Z s.

Definition nonempty {A} (s : list A) : bool := match s with [] => false | _ => true end.
Definition all_digits (s : str) : bool := nonempty s && forallb is_digit s.

Definition strip_plus (s : str) : str :=
  match strip_prefix "+" s with Some r => r | None => s end.

(** [s.parse::<uN>()] with [max] the largest value of the type. *)
Definition parse_uint (max : Z) (s : str) : option Z :=
  let digits := strip_plus s in
  if all_digits digits && (dec_value digits <=? max)%Z then Some (dec_value digits) else None.

Definition U16_MAX : Z := 2 ^ 16 - 1.
Definition U32_MAX : Z := 2 ^ 32 - 1.
Definition U64_MAX : Z := 2 ^ 64 - 1.
Definition I64_MAX : Z := 2 ^ 63 - 1.
Definition I64_MIN : Z := - 2 ^ 63.

Definition parse_u16 : str -> option Z := parse_uint U16_MAX.
Definition parse_u32 : str -> option Z := parse_uint U32_MAX.
Definition parse_u64 : str -> option Z := parse_uint U64_MAX.

(** [s.parse::<i64>()]. *)
Definition parse_i64 (s : str) : option Z :=
  match strip_prefix "-" s with
  | Some r => if all_digits r && (I64_MIN <=? - dec_value r)%Z then Some (- dec_value r)%Z else None
  | None => parse_uint I64_MAX s
  end.

Definition digit_byte (n : Z) : ascii := byte_at (48 + n).
Fixpoint dec_fuel (fuel : nat) (n : Z) : str :=
  match fuel with
  | O => []
  | S f => if (n <? 10)%Z then [digit_byte n] else dec_fuel f (n / 10) ++ [digit_byte (n mod 10)]
  end.

(** [n.to_string()]. *)
Definition dec_nonneg (n : Z) : str := dec_fuel (S (Z.to_nat (Z.log2 n))) n.
Definition dec (n : Z) : str :=
  if (n <? 0)%Z then ("-" : str) ++ dec_nonneg (- n) else dec_nonneg n.

(** ** Laws *)

Create HintDb ruststr discriminated.

Lemma strip_prefix_Some p s r : strip_prefix p s = Some r <-> s = p ++ r.
Proof.
  revert s. induction p as [|c p IH]; intros [|d s]; cbn; [naive_solver..|].
  case_bool_decide; [rewrite IH|]; naive_solver.
Qed.

Lemma strip_prefix_app p r : strip_prefix p (p ++ r) = Some r.
Proof. by apply strip_prefix_Some. Qed.

Lemma strip_suffix_Some p s r : strip_suffix p s = Some r <-> s = r ++ p.
Proof.
  unfold strip_suffix. rewrite fmap_Some. setoid_rewrite strip_prefix_Some. split.
  - intros (x & Hx & ->). by rewrite <- (reverse_involutive s), Hx, reverse_app, !reverse_involutive.
  - intros ->. exists (reverse r). by rewrite reverse_app, reverse_involutive.
Qed.

Lemma starts_with_spec p s : starts_with p s = true <-> exists r, s = p ++ r.
Proof.
  unfold starts_with. rewrite bool_decide_eq_true. unfold is_Some.
  by setoid_rewrite strip_prefix_Some.
Qed.

Lemma ends_with_spec p s : ends_with p s = true <-> exists r, s = r ++ p.
Proof.
  unfold ends_with. rewrite bool_decide_eq_true. unfold is_Some.
  by setoid_rewrite strip_suffix_Some.
Qed.

Lemma str_eqb_eq x y : (x =s? y) = true <-> x = y.
Proof. apply bool_decide_eq_true. Qed.

Lemma str_eqb_neq x y : (x =s? y) = false <-> x <> y.
Proof. apply bool_decide_eq_false. Qed.

Lemma forallb_Forall {A} (p : A -> bool) l : forallb p l = true <-> Forall (fun x => p x = true) l.
Proof.
  induction l as [|x l IH]; cbn; [done|]. by rewrite andb_true_iff, Forall_cons, IH.
Qed.

Lemma existsb_Exists {A} (p : A -> bool) l : existsb p l = true <-> Exists (fun x => p x = true) l.
Proof.
  induction l as [|x l IH]; cbn.
  { split; [done|]. by intros ?%Exists_nil. }
  by rewrite orb_true_iff, Exists_cons, IH.
Qed.

Lemma existsb_false {A} (p : A -> bool) l : existsb p l = false <-> Forall (fun x => p x = false) l.
Proof.
  induction l as [|x l IH]; cbn; [done|]. by rewrite orb_false_iff, Forall_cons, IH.
Qed.

Lemma is_byte_true c d : is_byte c d = true <-> c = d.
Proof. apply bool_decide_eq_true. Qed.

Lemma is_byte_false c d : is_byte c d = false <-> c <> d.
Proof. apply bool_decide_eq_false. Qed.

Lemma contains_byte_true c s : contains_byte c s = true <-> c ∈ s.
Proof.
  unfold contains_byte. rewrite existsb_Exists, Exists_exists. setoid_rewrite is_byte_true.
  naive_solver.
Qed.

Lemma contains_byte_false c s : contains_byte c s = false <-> c ∉ s.
Proof. rewrite <- contains_byte_true. by destruct contains_byte; split. Qed.

Lemma contains_any_false cs s :
  contains_any cs s = false <-> forall c, c ∈ (cs : str) -> c ∉ s.
Proof.
  unfold contains_any. rewrite existsb_false, Forall_forall.
  setoid_rewrite existsb_false. setoid_rewrite Forall_forall. setoid_rewrite is_byte_false.
  naive_solver.
Qed.

Lemma split_once_by_Some p s a b :
  split_once_by p s = Some (a, b) <->
  exists c, s = a ++ c :: b /\ p c = true /\ Forall (fun x => p x = false) a.
Proof.
  revert a b. induction s as [|d s IH]; intros a b; cbn.
  { split; [done|]. intros (c & H & _). by destruct a. }
  destruct (p d) eqn:Hd.
  - split.
    + intros [= <- <-]. by exists d.
    + intros (c & H & Hc & Ha). destruct a as [|x a]; [by injection H as -> ->|].
      injection H as -> H. apply Forall_cons in Ha as [? _]. congruence.
  - rewrite bind_Some. split.
    + intros ([a' b'] & H & [= <- <-]). apply IH in H as (c & -> & Hc & Ha).
      exists c. repeat split; [done|]. by constructor.
    + intros (c & H & Hc & Ha). destruct a as [|x a]; injection H as -> ->; [congruence|].
      apply Forall_cons in Ha as [_ Ha].
      exists (a, b). split; [|done]. apply IH. eauto.
Qed.

Lemma split_once_by_None p s : split_once_by p s = None <-> Forall (fun x => p x = false) s.
Proof.
  induction s as [|d s IH]; cbn; [done|]. rewrite Forall_cons.
  destruct (p d) eqn:Hd; [split; [done | by intros [? _]]|]. rewrite bind_None, IH.
  split; [intros [?|([] & _ & ?)]; done | intros [_ ?]; by left].
Qed.

Lemma rsplit_once_by_None p s : rsplit_once_by p s = None <-> Forall (fun x => p x = false) s.
Proof.
  induction s as [|d s IH]; cbn; [done|]. rewrite Forall_cons.
  destruct (rsplit_once_by p s) as [[a b]|].
  { split; [done|]. intros [_ ?%IH]. done. }
  destruct (p d); [by split; [|intros [? _]]|]. split; [|done]. intros _. split; [done|]. by apply IH.
Qed.

Lemma rsplit_once_by_Some p s a b :
  rsplit_once_by p s = Some (a, b) <->
  exists c, s = a ++ c :: b /\ p c = true /\ Forall (fun x => p x = false) b.
Proof.
  revert a b. induction s as [|d s IH]; intros a b; cbn.
  { split; [done|]. intros (c & H & _). by destruct a. }
  destruct (rsplit_once_by p s) as [[a' b']|] eqn:Hr.
  - destruct (proj1 (IH a' b') eq_refl) as (c' & -> & Hc' & Hb'). split.
    + intros [= <- <-]. by exists c'.
    + intros (c & H & Hc & Hb). destruct a as [|x a].
      * injection H as -> <-. apply Forall_app in Hb as [_ Hb].
        apply Forall_cons in Hb as [? _]. congruence.
      * injection H as -> H. assert (Some (a', b') = Some (a, b)) as [= -> ->]; [|done].
        apply IH. eauto.
  - apply rsplit_once_by_None in Hr. split.
    + destruct (p d) eqn:Hd; [|done]. intros [= <- <-]. by exists d.
    + intros (c & H & Hc & Hb). destruct a as [|x a].
      * injection H as -> ->. by rewrite Hc.
      * injection H as -> ->. apply Forall_app in Hr as [_ Hr].
        apply Forall_cons in Hr as [? _]. congruence.
Qed.

Lemma split_once_Some c s a b : split_once c s = Some (a, b) <-> s = a ++ c :: b /\ c ∉ a.
Proof.
  unfold split_once. rewrite split_once_by_Some. setoid_rewrite is_byte_true. split.
  - intros (d & -> & <- & Ha). split; [done|]. intros Hc.
    rewrite Forall_forall in Ha. by apply Ha, is_byte_false in Hc.
  - intros [-> Ha]. exists c. repeat split. apply Forall_forall.
    intros x Hx. apply is_byte_false. by intros ->.
Qed.

Lemma split_once_None c s : split_once c s = None <-> c ∉ s.
Proof.
  unfold split_once. rewrite split_once_by_None, Forall_forall.
  setoid_rewrite is_byte_false. naive_solver.
Qed.

Lemma rsplit_once_Some c s a b : rsplit_once c s = Some (a, b) <-> s = a ++ c :: b /\ c ∉ b.
Proof.
  unfold rsplit_once. rewrite rsplit_once_by_Some. setoid_rewrite is_byte_true. split.
  - intros (d & -> & <- & Ha). split; [done|]. intros Hc.
    rewrite Forall_forall in Ha. by apply Ha, is_byte_false in Hc.
  - intros [-> Ha]. exists c. repeat split. apply Forall_forall.
    intros x Hx. apply is_byte_false. by intros ->.
Qed.

Lemma rsplit_once_None c s : rsplit_once c s = None <-> c ∉ s.
Proof.
  unfold rsplit_once. rewrite rsplit_once_by_None, Forall_forall.
  setoid_rewrite is_byte_false. naive_solver.
Qed.

Lemma split_once_str_sound pat s a b : split_once_str pat s = Some (a, b) -> s = a ++ pat ++ b.
Proof.
  revert a b. induction s as [|c s IH]; intros a b; cbn.
  - destruct (strip_prefix pat []) eqn:H; [|done]. intros [= <- <-].
    by apply strip_prefix_Some in H.
  - destruct (strip_prefix pat (c :: s)) eqn:H.
    + intros [= <- <-]. by apply strip_prefix_Some in H.
    + intros ([a' b'] & Hs & [= <- <-])%bind_Some. by rewrite (IH _ _ Hs).
Qed.

Lemma split_once_str_complete pat a b : is_Some (split_once_str pat (a ++ pat ++ b)).
Proof.
  induction a as [|c a IH]; cbn [app].
  - destruct (pat ++ b) eqn:E; cbn; rewrite <- E, strip_prefix_app; eauto.
  - cbn [split_once_str]. destruct (strip_prefix pat _); [eauto|].
    destruct IH as [[x y] ->]. cbn. eauto.
Qed.

Lemma contains_str_true pat s : contains_str pat s = true <-> exists a b, s = a ++ pat ++ b.
Proof.
  unfold contains_str. rewrite bool_decide_eq_true. split.
  - intros [[a b] H]. exists a, b. by apply split_once_str_sound.
  - intros (a & b & ->). apply split_once_str_complete.
Qed.

Lemma split_by_nonempty p s : split_by p s <> [].
Proof. destruct s as [|c s]; cbn; [done|]. destruct (p c); [done|]. by destruct (split_by p s). Qed.

Lemma split_by_cons p c s :
  p c = false ->
  exists w ws, split_by p s = w :: ws /\ split_by p (c :: s) = (c :: w) :: ws.
Proof.
  intros Hc. cbn. rewrite Hc. destruct (split_by p s) as [|w ws] eqn:E; [|eauto].
  by apply split_by_nonempty in E.
Qed.

Lemma split_by_no_sep p s : Forall (fun w => Forall (fun c => p c = false) w) (split_by p s).
Proof.
  induction s as [|c s IH]; [repeat constructor|].
  destruct (p c) eqn:Hc; [cbn; rewrite Hc; by repeat constructor|].
  destruct (split_by_cons p c s Hc) as (w & ws & E & ->). rewrite E in IH.
  apply Forall_cons in IH as [H1 H2]. repeat constructor; done.
Qed.

Lemma split_by_word p w : Forall (fun c => p c = false) w -> split_by p w = [w].
Proof. induction 1 as [|c w Hc Hw IH]; [done|]. cbn. by rewrite Hc, IH. Qed.

Lemma split_by_app p a c b :
  Forall (fun x => p x = false) a -> p c = true ->
  split_by p (a ++ c :: b) = a :: split_by p b.
Proof.
  intros Ha Hc. induction Ha as [|x a Hx Ha IH]; cbn; [by rewrite Hc|]. by rewrite Hx, IH.
Qed.

Lemma join_cons_cons (sep w : str) ws : ws <> [] -> join sep (w :: ws) = w ++ sep ++ join sep ws.
Proof. by destruct ws. Qed.

Lemma join_split c s : join [c] (split c s) = s.
Proof.
  unfold split. induction s as [|d s IH]; [done|].
  destruct (is_byte c d) eqn:Hd.
  - cbn. rewrite Hd, join_cons_cons by apply split_by_nonempty. rewrite IH.
    by apply is_byte_true in Hd as <-.
  - destruct (split_by_cons (is_byte c) d s Hd) as (w & ws & E & ->). rewrite E in IH.
    destruct ws; cbn in *; by rewrite <- IH.
Qed.

Lemma split_join c ws :
  ws <> [] -> Forall (fun w => c ∉ w) ws -> split c (join [c] ws) = ws.
Proof.
  unfold split.
  assert (forall w, c ∉ w -> Forall (fun x => is_byte c x = false) w) as Hno.
  { intros w Hw. apply Forall_forall. intros x Hx. apply is_byte_false. by intros ->. }
  intros Hne Hws. induction Hws as [|w ws Hw Hws IH]; [done|].
  destruct ws as [|w' ws].
  - by apply split_by_word, Hno.
  - rewrite join_cons_cons by done. cbn [app].
    rewrite split_by_app; [|by apply Hno|by apply is_byte_true]. by rewrite IH.
Qed.

(** *** Bytes and integers *)

(** Decide a statement about one byte by evaluating it on all 256. *)
Ltac by_bytes c := destruct c as [[] [] [] [] [] [] [] []]; vm_compute; first [done | congruence | intuition congruence].

Lemma code_bounds c : (0 <= code c < 256)%Z.
Proof. unfold code. pose proof (N_ascii_bounded c). lia. Qed.

Lemma code_byte_at n : (0 <= n < 256)%Z -> code (byte_at n) = n.
Proof. intros Hn. unfold code, byte_at. rewrite N_ascii_embedding; lia. Qed.

Lemma byte_at_code c : byte_at (code c) = c.
Proof. unfold code, byte_at. by rewrite N2Z.id, ascii_N_embedding. Qed.

Lemma code_inj c d : code c = code d -> c = d.
Proof. intros H. by rewrite <- (byte_at_code c), H, byte_at_code. Qed.

Lemma in_range_spec lo hi c : in_range lo hi c = true <-> (lo <= code c <= hi)%Z.
Proof. unfold in_range. rewrite andb_true_iff, !Z.leb_le. done. Qed.

Lemma lower_byte_idem c : lower_byte (lower_byte c) = lower_byte c.
Proof. by_bytes c. Qed.

Lemma to_ascii_lowercase_idem s : to_ascii_lowercase (to_ascii_lowercase s) = to_ascii_lowercase s.
Proof.
  unfold to_ascii_lowercase. induction s as [|c s IH]; cbn; [done|].
  by rewrite lower_byte_idem, IH.
Qed.

Lemma to_ascii_lowercase_id s :
  Forall (fun c => is_upper c = false) s -> to_ascii_lowercase s = s.
Proof.
  unfold to_ascii_lowercase. induction 1 as [|c s Hc _ IH]; cbn; [done|].
  unfold lower_byte at 1. by rewrite Hc, IH.
Qed.

Lemma all_digits_spec s : all_digits s = true <-> s <> [] /\ Forall (fun c => is_digit c = true) s.
Proof.
  unfold all_digits. rewrite andb_true_iff, forallb_Forall.
  destruct s as [|c s]; cbn; split; intros [? ?]; (split; [done|done]).
Qed.

Lemma digit_value_bounds c : is_digit c = true -> (0 <= digit_value c <= 9)%Z.
Proof. unfold digit_value. intros ?%in_range_spec. lia. Qed.

Lemma dec_value_snoc s c : dec_value (s ++ [c]) = (dec_value s * 10 + digit_value c)%Z.
Proof. unfold dec_value. by rewrite foldl_snoc. Qed.

Lemma dec_value_nonneg s : Forall (fun c => is_digit c = true) s -> (0 <= dec_value s)%Z.
Proof.
  induction s as [|c s IH] using rev_ind; intros H; [done|].
  apply Forall_app in H as [Hs Hc]. apply Forall_cons in Hc as [Hc _].
  rewrite dec_value_snoc. pose proof (digit_value_bounds c Hc). specialize (IH Hs). lia.
Qed.

Lemma parse_uint_bounds max s v : parse_uint max s = Some v -> (0 <= v <= max)%Z.
Proof.
  unfold parse_uint. cbv zeta. case_match eqn:H; [|done]. intros [= <-].
  apply andb_true_iff in H as [H1 H2]. apply all_digits_spec in H1 as [_ H1].
  apply dec_value_nonneg in H1. apply Z.leb_le in H2. lia.
Qed.

Lemma parse_u16_bounds s v : parse_u16 s = Some v -> (0 <= v <= U16_MAX)%Z.
Proof. apply parse_uint_bounds. Qed.

Lemma digit_byte_spec n :
  (0 <= n < 10)%Z -> is_digit (digit_byte n) = true /\ digit_value (digit_byte n) = n.
Proof.
  intros Hn. unfold digit_byte, digit_value, is_digit. rewrite in_range_spec, code_byte_at by lia.
  lia.
Qed.

Lemma dec_fuel_spec fuel n :
  (0 <= n)%Z -> (n < 2 ^ Z.of_nat fuel)%Z ->
  Forall (fun c => is_digit c = true) (dec_fuel fuel n) /\ dec_value (dec_fuel fuel n) = n /\
  (fuel <> 0%nat -> dec_fuel fuel n <> []).
Proof.
  revert n. induction fuel as [|f IH]; intros n H0 Hn.
  { cbn in *. repeat split; [constructor | lia | done]. }
  cbn [dec_fuel]. case_match eqn:Hlt.
  - apply Z.ltb_lt in Hlt. destruct (digit_byte_spec n) as [Hd Hv]; [lia|].
    repeat split; [by repeat constructor | | done]. unfold dec_value. cbn [foldl]. lia.
  - apply Z.ltb_ge in Hlt.
    assert (n / 10 < 2 ^ Z.of_nat f)%Z as Hf.
    { rewrite Nat2Z.inj_succ, Z.pow_succ_r in Hn by lia.
      apply Z.div_lt_upper_bound; lia. }
    destruct (IH (n / 10)%Z) as (HF & HV & _); [by apply Z.div_pos|done|].
    destruct (digit_byte_spec (n mod 10)) as [Hd Hv]; [by apply Z.mod_pos_bound|].
    repeat split.
    + apply Forall_app; split; [done | by repeat constructor].
    + rewrite dec_value_snoc, HV, Hv. pose proof (Z.div_mod n 10). lia.
    + intros _ H. by apply app_nil in H as [_ ?].
Qed.

Lemma dec_nonneg_spec n :
  (0 <= n)%Z -> all_digits (dec_nonneg n) = true /\ dec_value (dec_nonneg n) = n.
Proof.
  intros Hn. unfold dec_nonneg.
  destruct (dec_fuel_spec (S (Z.to_nat (Z.log2 n))) n) as (H1 & H2 & H3); [done| |].
  - rewrite Nat2Z.inj_succ, Z2Nat.id by apply Z.log2_nonneg.
    destruct (decide (n = 0)%Z) as [->|]; [done|]. apply Z.log2_spec. lia.
  - split; [|done]. apply all_digits_spec. auto.
Qed.

Lemma digits_no_sign s : all_digits s = true -> strip_prefix "+" s = None /\ strip_prefix "-" s = None.
Proof.
  intros [Hne HF]%all_digits_spec. destruct s as [|c s]; [done|].
  apply Forall_cons in HF as [Hc _]. unfold list_ascii_of_string; cbn.
  split; case_bool_decide as H; [by subst|done|by subst|done].
Qed.

Lemma dec_inj a b : dec a = dec b -> a = b.
Proof.
  assert (Hmix : forall n m, (n < 0)%Z -> (0 <= m)%Z -> dec n <> dec m).
  { intros n m Hn Hm. unfold dec. rewrite (proj2 (Z.ltb_lt n 0) Hn), (proj2 (Z.ltb_ge m 0) Hm). intros E.
    destruct (dec_nonneg_spec m Hm) as [Hd _]. apply digits_no_sign in Hd as [_ Hd]. by rewrite <- E in Hd. }
  intros E. destruct (Z.lt_ge_cases a 0) as [Ha|Ha], (Z.lt_ge_cases b 0) as [Hb|Hb];
    [|by destruct (Hmix a b Ha Hb E)|by destruct (Hmix b a Hb Ha (eq_sym E))|].
  - unfold dec in E. rewrite (proj2 (Z.ltb_lt a 0) Ha), (proj2 (Z.ltb_lt b 0) Hb) in E. apply (inj (app _)) in E.
    destruct (dec_nonneg_spec (- a)) as [_ Va]; [lia|]. destruct (dec_nonneg_spec (- b)) as [_ Vb]; [lia|]. rewrite E in Va. lia.
  - unfold dec in E. rewrite (proj2 (Z.ltb_ge a 0) Ha), (proj2 (Z.ltb_ge b 0) Hb) in E.
    destruct (dec_nonneg_spec a Ha) as [_ Va], (dec_nonneg_spec b Hb) as [_ Vb]. rewrite E in Va. lia.
Qed.

Lemma parse_uint_dec max n : (0 <= n <= max)%Z -> parse_uint max (dec n) = Some n.
Proof.
  intros Hn. unfold dec. rewrite (proj2 (Z.ltb_ge n 0)) by lia.
  destruct (dec_nonneg_spec n) as [H1 H2]; [lia|].
  unfold parse_uint, strip_plus. destruct (digits_no_sign _ H1) as [-> _].
  by rewrite H1, H2, (proj2 (Z.leb_le n max)) by lia.
Qed.

Lemma parse_i64_dec n : (I64_MIN <= n <= I64_MAX)%Z -> parse_i64 (dec n) = Some n.
Proof.
  intros Hn. unfold parse_i64. destruct (Z.ltb_spec n 0).
  - unfold dec. rewrite (proj2 (Z.ltb_lt n 0)) by lia.
    destruct (dec_nonneg_spec (- n)) as [H1 H2]; [lia|].
    rewrite strip_prefix_app, H1, H2. rewrite (proj2 (Z.leb_le _ _)) by lia.
    cbn. f_equal. lia.
  - assert (dec n = dec_nonneg n) as E.
    { unfold dec. by rewrite (proj2 (Z.ltb_ge n 0)) by lia. }
    destruct (dec_nonneg_spec n) as [H1 H2]; [lia|].
    destruct (digits_no_sign _ H1) as [_ H3]. rewrite E, H3, <- E.
    apply parse_uint_dec. lia.
Qed.

Lemma all_digits_dec n : (0 <= n)%Z -> all_digits (dec n) = true.
Proof.
  intros Hn. unfold dec. rewrite (proj2 (Z.ltb_ge n 0)) by lia. by apply dec_nonneg_spec.
Qed.

(** *** Trimming by a byte predicate *)

Lemma trim_start_by_spec p s :
  exists pre, s = pre ++ trim_start_by p s /\ Forall (fun c => p c = true) pre /\
    (forall c r, trim_start_by p s = c :: r -> p c = false).
Proof.
  induction s as [|d s IH]; cbn; [by exists []|].
  destruct (p d) eqn:Hd.
  - destruct IH as (pre & E & HF & Hh). exists (d :: pre). cbn. rewrite <- E. auto.
  - exists []. repeat split; [constructor|]. by intros c r [= <- <-].
Qed.

Lemma trim_start_by_id p s :
  (forall c r, s = c :: r -> p c = false) -> trim_start_by p s = s.
Proof. destruct s as [|c s]; [done|]. intros H. cbn. by rewrite (H c s). Qed.

Lemma trim_end_by_spec p s :
  exists post, s = trim_end_by p s ++ post /\ Forall (fun c => p c = true) post /\
    (forall c r, trim_end_by p s = r ++ [c] -> p c = false).
Proof.
  unfold trim_end_by.
  destruct (trim_start_by_spec p (reverse s)) as (pre & E & HF & Hh).
  exists (reverse pre). repeat split.
  - by rewrite <- reverse_app, <- E, reverse_involutive.
  - by apply Forall_reverse.
  - intros c r H. apply (Hh c (reverse r)).
    by rewrite <- (reverse_involutive (trim_start_by p (reverse s))), H, reverse_snoc.
Qed.

Lemma trim_end_by_id p s :
  (forall c r, s = r ++ [c] -> p c = false) -> trim_end_by p s = s.
Proof.
  intros H. unfold trim_end_by. rewrite trim_start_by_id, reverse_involutive; [done|].
  intros c r E. apply (H c (reverse r)).
  by rewrite <- (reverse_involutive s), E, reverse_cons.
Qed.

Lemma split_app_sep c (a b : str) : split c (a ++ c :: b) = split c a ++ split c b.
Proof.
  unfold split. induction a as [|d a IH]; cbn [app].
  - cbn [split_by]. by rewrite (proj2 (is_byte_true c c)).
  - destruct (is_byte c d) eqn:Hd; [cbn; by rewrite Hd, IH|].
    destruct (split_by_cons (is_byte c) d a Hd) as (w & ws & E1 & E2).
    destruct (split_by_cons (is_byte c) d (a ++ c :: b) Hd) as (w' & ws' & E3 & E4).
    rewrite E4, E2. rewrite IH, E1 in E3. cbn in E3. by injection E3 as <- <-.
Qed.

(** The pieces of a split, and the string they came from. *)
Lemma elem_of_split c s d : d ∈ s -> d <> c -> exists w, w ∈ split c s /\ d ∈ w.
Proof.
  intros Hd Hc. rewrite <- (join_split c s) in Hd. induction (split c s) as [|w ws IH].
  { by apply elem_of_nil in Hd. }
  destruct ws as [|w' ws]; [exists w; split; [by left|done]|].
  rewrite join_cons_cons in Hd by done. rewrite !elem_of_app in Hd.
  destruct Hd as [Hd|[Hd|Hd]].
  - exists w. split; [by left|done].
  - apply list_elem_of_singleton in Hd. done.
  - destruct (IH Hd) as (x & Hx & ?). exists x. split; [by right|done].
Qed.

Lemma elem_of_split_inv c s w d : w ∈ split c s -> d ∈ w -> d ∈ s.
Proof.
  intros Hw Hd. rewrite <- (join_split c s).
  induction (split c s) as [|x ws IH]; [by apply elem_of_nil in Hw|].
  apply elem_of_cons in Hw as [->|Hw].
  - destruct ws; [done|]. rewrite join_cons_cons by done. set_solver.
  - destruct ws as [|y ws]; [by apply elem_of_nil in Hw|]. rewrite join_cons_cons by done.
    specialize (IH Hw). set_solver.
Qed.

(** *** ASCII strings *)

Lemma is_ascii_not_continuation c : is_ascii c = true -> is_continuation c = false.
Proof. by_bytes c. Qed.

Lemma chars_ascii s : Forall (fun c => is_ascii c = true) s -> chars s = map (fun c => [c]) s.
Proof.
  induction 1 as [|c s Hc Hs IH]; cbn; [done|]. rewrite IH.
  destruct s as [|d s]; [done|]. apply Forall_cons in Hs as [Hd _]. cbn.
  by rewrite is_ascii_not_continuation.
Qed.

Lemma utf8_valid_ascii s : Forall (fun c => is_ascii c = true) s -> utf8_valid s = true.
Proof.
  unfold utf8_valid, utf8_chunks. induction 1 as [|c s Hc Hs IH]; [done|].
  cbn [length utf8_chunks_fuel]. unfold utf8_chunk. rewrite Hc. done.
Qed.

(** *** Trimming text without white space at its ends *)

Lemma strip_any_graphic c s :
  is_graphic c = true ->
  strip_any whitespace_chars (c :: s) = None /\ strip_any (map reverse whitespace_chars) (c :: s) = None.
Proof. destruct c as [[] [] [] [] [] [] [] []]; intros H; (discriminate H || split; reflexivity). Qed.

Lemma trim_graphic s :
  (forall c r, s = c :: r -> is_graphic c = true) ->
  (forall c r, s = r ++ [c] -> is_graphic c = true) -> trim s = s.
Proof.
  intros Hh Hl. unfold trim, trim_start, trim_end.
  assert (strip_many (length s) whitespace_chars s = s) as ->.
  { destruct s as [|c s]; [done|]. cbn [length strip_many].
    by rewrite (proj1 (strip_any_graphic c s (Hh c s eq_refl))). }
  assert (strip_many (length s) (map reverse whitespace_chars) (reverse s) = reverse s) as ->.
  { destruct (reverse s) as [|c r] eqn:E; [by destruct (length s)|].
    assert (s = reverse r ++ [c]) as Es by (by rewrite <- reverse_cons, <- E, reverse_involutive).
    rewrite Es at 1. rewrite length_app, Nat.add_comm. cbn [length strip_many Nat.add].
    by rewrite (proj2 (strip_any_graphic c r (Hl c _ Es))). }
  apply reverse_involutive.
Qed.

Lemma trim_all_graphic s : Forall (fun c => is_graphic c = true) s -> trim s = s.
Proof.
  intros H. apply trim_graphic; intros c r ->.
  - by apply Forall_cons in H as [? _].
  - apply Forall_app in H as [_ H]. by apply Forall_cons in H as [? _].
Qed.

(** *** Printed integers *)

Lemma parse_uint_digits max s :
  all_digits s = true -> parse_uint max s = if (dec_value s <=? max)%Z then Some (dec_value s) else None.
Proof.
  intros H. unfold parse_uint, strip_plus. destruct (digits_no_sign s H) as [-> _]. by rewrite H.
Qed.

Lemma dec_bytes n : Forall (fun c => is_digit c = true \/ c = "-"%char) (dec n).
Proof.
  unfold dec. assert (forall m, (0 <= m)%Z -> Forall (fun c => is_digit c = true \/ c = "-"%char) (dec_nonneg m)) as H.
  { intros m Hm. destruct (dec_nonneg_spec m Hm) as [Hd _]. apply all_digits_spec in Hd as [_ Hd].
    eapply Forall_impl; [exact Hd|]. by left. }
  destruct (Z.ltb_spec n 0).
  - change (("-" : str) ++ dec_nonneg (- n)) with ("-"%char :: dec_nonneg (- n)).
    constructor; [by right|]. apply H. lia.
  - by apply H.
Qed.

Lemma dec_no_byte c n : is_digit c = false -> c <> "-"%char -> c ∉ dec n.
Proof.
  intros Hd Hm Hin. pose proof (dec_bytes n) as H. rewrite Forall_forall in H.
  apply H in Hin as [?|?]; congruence.
Qed.

Lemma parse_i64_bounds s v : parse_i64 s = Some v -> (I64_MIN <= v <= I64_MAX)%Z.
Proof.
  unfold parse_i64. destruct (strip_prefix "-" s) as [r|].
  - case_match eqn:H; [|done]. intros [= <-]. apply andb_true_iff in H as [H1 H2].
    apply all_digits_spec in H1 as [_ H1]. apply dec_value_nonneg in H1.
    apply Z.leb_le in H2. unfold I64_MIN, I64_MAX in *. lia.
  - intros H%parse_uint_bounds. unfold I64_MIN, I64_MAX in *. lia.
Qed.

Lemma join_snoc (sep : str) ws w : ws <> [] -> join sep (ws ++ [w]) = join sep ws ++ sep ++ w.
Proof.
  induction ws as [|x ws IH]; [done|]. intros _. destruct ws as [|y ws]; [done|].
  change ((x :: y :: ws) ++ [w]) with (x :: ((y :: ws) ++ [w])).
  rewrite !join_cons_cons, IH by done. by rewrite <- !app_assoc.
Qed.
