(* ===== verification/BMap.v ===== *)
(** * [BTreeMap<String, V>] as a strictly sorted association list

    The source keeps named things (profiles, homes, manifests, settings
    tables) in [BTreeMap]s and its results depend on the iteration order, so
    the model keeps the entries in ascending key order.  [bsorted] is the
    representation invariant, kept by every operation; [bget] is lookup. *)

From S2P Require Export RustStr.

(** [Ord for str]: bytewise lexicographic. *)
Fixpoint str_compare (x y : str) : comparison :=
  match x, y with
  | [], [] => Eq
  | [], _ :: _ => Lt
  | _ :: _, [] => Gt
  | c :: x', d :: y' =>
      match (code c ?= code d)%Z with Eq => str_compare x' y' | r => r end
  end.
Definition str_lt (x y : str) : Prop := str_compare x y = Lt.

Lemma str_compare_refl x : str_compare x x = Eq.
Proof. induction x as [|c x IH]; cbn; [done|]. by rewrite Z.compare_refl. Qed.

Lemma str_compare_eq x y : str_compare x y = Eq <-> x = y.
Proof.
  split; [|intros ->; apply str_compare_refl].
  revert y. induction x as [|c x IH]; intros [|d y]; cbn; try done.
  destruct (Z.compare_spec (code c) (code d)) as [H|H|H]; try done.
  intros ?%IH. f_equal; [by apply code_inj | done].
Qed.

Lemma str_compare_antisym x y : str_compare y x = CompOpp (str_compare x y).
Proof.
  revert y. induction x as [|c x IH]; intros [|d y]; cbn; try done.
  rewrite (Z.compare_antisym (code c)), IH. by destruct (code c ?= code d)%Z.
Qed.

#[export] Instance str_lt_trans : Transitive str_lt.
Proof.
  unfold str_lt. intros x. induction x as [|c x IH]; intros [|d y] [|e z]; cbn; try done.
  destruct (Z.compare_spec (code c) (code d)) as [H1|H1|H1]; try done;
    destruct (Z.compare_spec (code d) (code e)) as [H2|H2|H2]; try done;
    destruct (Z.compare_spec (code c) (code e)) as [H3|H3|H3]; try lia; try done.
  apply IH.
Qed.

#[export] Instance str_lt_irrefl : Irreflexive str_lt.
Proof. intros x. unfold complement, str_lt. by rewrite str_compare_refl. Qed.

Lemma str_lt_total x y : str_lt x y \/ x = y \/ str_lt y x.
Proof.
  unfold str_lt. rewrite (str_compare_antisym x y).
  destruct (str_compare x y) eqn:E; [right; left; by apply str_compare_eq | by left | by right; right].
Qed.

(** [Ord::le], used by the sorts of the source. *)
Definition str_leb (x y : str) : bool :=
  match str_compare x y with Gt => false | _ => true end.

Abbreviation bmap V := (list (str * V)).

Section bmap.
Context {V : Type}.
Implicit Types (m : bmap V) (k : str) (v : V).

(** [map.get(k)]. *)
Fixpoint bget k m : option V :=
  match m with
  | [] => None
  | (k', v) :: m' => if bool_decide (k = k') then Some v else bget k m'
  end.

(** [map.insert(k, v)]: a new value replaces the old one under its key. *)
Fixpoint binsert k v m : bmap V :=
  match m with
  | [] => [(k, v)]
  | (k', v') :: m' =>
      match str_compare k k' with
      | Lt => (k, v) :: (k', v') :: m'
      | Eq => (k, v) :: m'
      | Gt => (k', v') :: binsert k v m'
      end
  end.

(** [map.remove(k)]. *)
Fixpoint bremove k m : bmap V :=
  match m with
  | [] => []
  | (k', v) :: m' => if bool_decide (k = k') then bremove k m' else (k', v) :: bremove k m'
  end.

(** [map.extend(entries)], [entries.collect::<BTreeMap<_, _>>()]. *)
Definition bextend m (entries : list (str * V)) : bmap V :=
  fold_left (fun acc kv => binsert kv.1 kv.2 acc) entries m.
Definition bcollect (entries : list (str * V)) : bmap V := bextend [] entries.

Definition bkeys m : list str := map fst m.
Definition bvalues m : list V := map snd m.
Definition bcontains k m : bool := bool_decide (is_Some (bget k m)).
Definition bsorted m : Prop := StronglySorted str_lt (bkeys m).

Lemma bget_binsert k k' v m :
  bget k' (binsert k v m) = if bool_decide (k' = k) then Some v else bget k' m.
Proof.
  induction m as [|[l w] m IH]; cbn; [done|].
  destruct (str_compare k l) eqn:E; cbn.
  - apply str_compare_eq in E as ->. by case_bool_decide.
  - done.
  - rewrite IH. repeat case_bool_decide; try done. subst.
    by rewrite str_compare_refl in E.
Qed.

Lemma bget_bremove k k' m :
  bget k' (bremove k m) = if bool_decide (k' = k) then None else bget k' m.
Proof.
  induction m as [|[l w] m IH]; cbn; [by case_bool_decide|].
  destruct (bool_decide_reflect (k = l)) as [->|Hne]; cbn; rewrite IH;
    repeat case_bool_decide; congruence.
Qed.

Lemma bkeys_binsert_forall (P : str -> Prop) k v m :
  P k -> Forall P (bkeys m) -> Forall P (bkeys (binsert k v m)).
Proof.
  intros Hk. unfold bkeys. induction m as [|[l w] m IH]; cbn.
  { by repeat constructor. }
  intros [Hl Hm]%Forall_cons. destruct (str_compare k l); cbn; auto.
Qed.

Lemma bsorted_binsert k v m : bsorted m -> bsorted (binsert k v m).
Proof.
  unfold bsorted, bkeys. induction m as [|[l w] m IH]; cbn; [by repeat constructor|].
  intros H. apply StronglySorted_inv in H as [Hs Hf].
  destruct (str_compare k l) eqn:E; cbn.
  - apply str_compare_eq in E as ->. by constructor.
  - repeat constructor; try done. eapply Forall_impl; [done|].
    intros x Hx. by trans l.
  - constructor; [by apply IH|]. apply bkeys_binsert_forall; [|done].
    unfold str_lt. rewrite str_compare_antisym. by rewrite E.
Qed.

Lemma bsorted_bremove k m : bsorted m -> bsorted (bremove k m).
Proof.
  unfold bsorted, bkeys. induction m as [|[l w] m IH]; cbn; [done|].
  intros H. apply StronglySorted_inv in H as [Hs Hf].
  case_bool_decide; cbn; [by apply IH|]. constructor; [by apply IH|].
  clear -Hf. induction m as [|[l' w'] m IH]; cbn in *; [done|].
  apply Forall_cons in Hf as [? ?]. case_bool_decide; cbn; auto.
Qed.

Lemma bsorted_bextend m es : bsorted m -> bsorted (bextend m es).
Proof.
  revert m. induction es as [|[k v] es IH]; intros m Hm; cbn; [done|].
  by apply IH, bsorted_binsert.
Qed.

Lemma bsorted_bcollect es : bsorted (bcollect es).
Proof. apply bsorted_bextend. constructor. Qed.

Lemma bsorted_NoDup m : bsorted m -> NoDup (bkeys m).
Proof.
  unfold bsorted. induction 1 as [|k ks Hs IH Hf]; constructor; [|done].
  intros Hin. rewrite Forall_forall in Hf. by apply (str_lt_irrefl k), Hf.
Qed.

Lemma bget_elem_of k v m : bget k m = Some v -> (k, v) ∈ m.
Proof.
  induction m as [|[l w] m IH]; cbn; [done|]. case_bool_decide.
  - intros [= <-]. subst. by left.
  - right. by apply IH.
Qed.

Lemma elem_of_bget k v m : NoDup (bkeys m) -> (k, v) ∈ m <-> bget k m = Some v.
Proof.
  intros Hnd. split; [|apply bget_elem_of].
  unfold bkeys in Hnd. induction m as [|[l w] m IH]; cbn in *.
  { by intros ?%elem_of_nil. }
  apply NoDup_cons in Hnd as [Hl Hnd]. rewrite elem_of_cons. intros [[= -> ->]|Hin].
  - by rewrite bool_decide_eq_true_2.
  - rewrite bool_decide_eq_false_2; [by apply IH|]. intros ->. apply Hl.
    apply list_elem_of_fmap. by exists (l, v).
Qed.

Lemma bget_None k m : bget k m = None <-> k ∉ bkeys m.
Proof.
  unfold bkeys. induction m as [|[l w] m IH]; cbn.
  { split; [by intros _ ?%elem_of_nil | done]. }
  rewrite elem_of_cons. case_bool_decide; [split; [done | tauto]|].
  rewrite IH. tauto.
Qed.

Lemma bget_is_Some k m : is_Some (bget k m) <-> k ∈ bkeys m.
Proof.
  rewrite <- not_eq_None_Some, bget_None. split; [|tauto].
  destruct (decide (k ∈ bkeys m)); tauto.
Qed.

(** Extensionality of the representation. *)
Lemma bmap_ext m1 m2 :
  bsorted m1 -> bsorted m2 -> (forall k, bget k m1 = bget k m2) -> m1 = m2.
Proof.
  unfold bsorted. revert m2. induction m1 as [|[k v] m1 IH]; intros [|[l w] m2] H1 H2 E; try done.
  - specialize (E l). cbn in E. by rewrite bool_decide_eq_true_2 in E.
  - specialize (E k). cbn in E. by rewrite bool_decide_eq_true_2 in E.
  - cbn in H1, H2. apply StronglySorted_inv in H1 as [H1 F1], H2 as [H2 F2].
    rewrite Forall_forall in F1, F2.
    assert (k = l) as ->.
    { destruct (str_lt_total k l) as [Hlt|[?|Hlt]]; [|done|].
      - pose proof (E k) as Ek. cbn in Ek. rewrite bool_decide_eq_true_2 in Ek by done.
        case_bool_decide; [by subst|]. symmetry in Ek.
        apply mk_is_Some, bget_is_Some, F2 in Ek.
        exfalso. apply (str_lt_irrefl k). by trans l.
      - pose proof (E l) as El. cbn in El. rewrite (bool_decide_eq_true_2 (l = l)) in El by done.
        case_bool_decide; [by subst|].
        apply mk_is_Some, bget_is_Some, F1 in El.
        exfalso. apply (str_lt_irrefl l). by trans k. }
    assert (v = w) as ->.
    { specialize (E l). cbn in E. rewrite bool_decide_eq_true_2 in E by done. congruence. }
    f_equal. apply IH; [done..|]. intros k'. specialize (E k'). cbn in E.
    case_bool_decide as Hk; [|done]. subst k'.
    assert (forall m : bmap V, l ∉ bkeys m -> bget l m = None) as Hno by (intros; by apply bget_None).
    rewrite !Hno; [done|..]; intros Hin; by apply (str_lt_irrefl l); auto.
Qed.

Lemma bget_app k m1 m2 :
  bget k (m1 ++ m2) = match bget k m1 with Some v => Some v | None => bget k m2 end.
Proof. induction m1 as [|[l w] m1 IH]; cbn; [done|]. by case_bool_decide. Qed.

Lemma bget_bextend k m es :
  bget k (bextend m es) =
  match bget k (reverse es) with Some v => Some v | None => bget k m end.
Proof.
  unfold bextend. revert m. induction es as [|[k' v'] es IH]; intros m; [done|].
  cbn [fold_left fst snd]. rewrite IH, reverse_cons, bget_binsert, bget_app.
  destruct (bget k (reverse es)); [done|]. cbn. by case_bool_decide.
Qed.

Lemma bget_bextend_Some k m es v :
  bget k (bextend m es) = Some v -> (k, v) ∈ es \/ (k ∉ map fst es /\ bget k m = Some v).
Proof.
  rewrite bget_bextend. destruct (bget k (reverse es)) as [w|] eqn:E.
  - intros [= <-]. left. apply bget_elem_of in E. by rewrite elem_of_reverse in E.
  - intros H. right. split; [|done]. apply bget_None in E. unfold bkeys in E.
    intros Hin. apply E. rewrite list_elem_of_fmap in Hin |- *. destruct Hin as (x & -> & Hx).
    exists x. by rewrite elem_of_reverse.
Qed.

Lemma bget_bextend_const k m es c :
  (forall kv, kv ∈ es -> kv.2 = c) ->
  bget k (bextend m es) = if bool_decide (k ∈ map fst es) then Some c else bget k m.
Proof.
  intros Hc. destruct (bget k (bextend m es)) as [v|] eqn:E.
  - destruct (bget_bextend_Some _ _ _ _ E) as [Hin|[Hn Hm]].
    + rewrite bool_decide_eq_true_2 by (apply list_elem_of_fmap; by exists (k, v)). f_equal. apply (Hc _ Hin).
    + by rewrite bool_decide_eq_false_2.
  - rewrite bget_bextend in E. destruct (bget k (reverse es)) eqn:E'; [done|]. apply bget_None in E'.
    rewrite bool_decide_eq_false_2; [done|]. intros Hin. apply E'. unfold bkeys.
    rewrite list_elem_of_fmap in Hin |- *. destruct Hin as (x & -> & Hx). exists x. by rewrite elem_of_reverse.
Qed.

Lemma bcontains_true k m : bcontains k m = true <-> k ∈ bkeys m.
Proof. unfold bcontains. by rewrite bool_decide_eq_true, bget_is_Some. Qed.
End bmap.

(** Values rewritten in place keep the keys. *)
Definition bmap_values {V W} (f : V -> W) (m : bmap V) : bmap W := map (fun kv => (kv.1, f kv.2)) m.

Lemma bget_bmap_values {V W} (f : V -> W) k (m : bmap V) :
  bget k (bmap_values f m) = f <$> bget k m.
Proof. induction m as [|[l w] m IH]; cbn; [done|]. by case_bool_decide. Qed.

#[export] Hint Resolve bsorted_binsert bsorted_bremove bsorted_bextend bsorted_bcollect : rs.

Lemma bget_filter {V} (p : str -> bool) k (m : bmap V) :
  bget k (List.filter (fun kv : str * V => p kv.1) m) = if p k then bget k m else None.
Proof.
  induction m as [|[l w] m IH]; cbn; [by destruct (p k)|].
  destruct (p l) eqn:El; cbn; case_bool_decide as Hk; rewrite ?IH; subst; rewrite ?El; try done.
Qed.
