(* ===== verification/RustPath.v ===== *)
(** * Unix paths of the Rust standard library

    [std::path::Path] on a Unix host: a byte string read through its
    components.  Repeated separators and [.] components are ignored by
    [components()], except a leading [.] of a relative path. *)

From S2P Require Export RustStr.

Inductive component :=
  | RootDir
  | CurDir
  | ParentDir
  | Normal (name : str).

#[export] Instance component_eq_dec : EqDecision component.
Proof. solve_decision. Defined.

Definition segment_component (w : str) : option component :=
  if w =s? "" then None
  else if w =s? "." then None
  else if w =s? ".." then Some ParentDir
  else Some (Normal w).

(** [path.components()]. *)
Definition components (p : str) : list component :=
  if starts_with "/" p then RootDir :: omap segment_component (split "/" p)
  else
    match split "/" p with
    | w :: ws => (if w =s? "." then [CurDir] else []) ++ omap segment_component (w :: ws)
    | [] => []
    end.

Definition is_absolute (p : str) : bool := starts_with "/" p.

(** [path.join(other)], that is [PathBuf::push]. *)
Definition path_join (base other : str) : str :=
  if is_absolute other then other
  else match last base with
       | Some c => if is_byte "/" c then base ++ other else base ++ "/" ++ other
       | None => other
       end.

(** The path made of given components; [as_path] of a component iterator on
    a path without redundant separators. *)
Definition render_component (c : component) : str :=
  match c with RootDir => "" | CurDir => "." | ParentDir => ".." | Normal w => w end.
Definition render (cs : list component) : str :=
  match cs with
  | [RootDir] => "/"
  | _ => join "/" (map render_component cs)
  end.

(** [path.file_name()]. *)
Definition file_name (p : str) : option str :=
  match last (components p) with Some (Normal w) => Some w | _ => None end.

(** [path.parent()]. *)
Definition path_parent (p : str) : option str :=
  match last (components p) with
  | None | Some RootDir => None
  | Some _ => Some (render (take (pred (length (components p))) (components p)))
  end.

Fixpoint strip_components (base cs : list component) : option (list component) :=
  match base, cs with
  | [], _ => Some cs
  | c :: base', d :: cs' => if bool_decide (c = d) then strip_components base' cs' else None
  | _ :: _, [] => None
  end.

(** [path.strip_prefix(base)], [path.starts_with(base)]: componentwise. *)
Definition path_strip_prefix (base p : str) : option str :=
  render <$> strip_components (components base) (components p).
Definition path_starts_with (base p : str) : bool :=
  bool_decide (is_Some (strip_components (components base) (components p))).

Lemma strip_components_Some base cs r : strip_components base cs = Some r <-> cs = base ++ r.
Proof.
  revert cs. induction base as [|c base IH]; intros [|d cs]; cbn; [naive_solver..|].
  case_bool_decide; [rewrite IH|]; naive_solver.
Qed.

Lemma segment_component_Some w c :
  segment_component w = Some c -> c = ParentDir \/ (c = Normal w /\ w <> [] /\ w <> "." /\ w <> "..").
Proof.
  unfold segment_component. repeat (case_match; bool_split); try done.
  - intros [= <-]. by left.
  - intros [= <-]. right. unfold str_eqb in *. bool_split. done.
Qed.

(** A component a path can have after its first one. *)
Definition is_segment (c : component) : Prop :=
  match c with
  | ParentDir => True
  | Normal w => w <> [] /\ w <> "." /\ w <> ".." /\ "/"%char ∉ w
  | RootDir | CurDir => False
  end.

Lemma segments_split s : Forall is_segment (omap segment_component (split "/" s)).
Proof.
  pose proof (split_by_no_sep (is_byte "/") s) as H. unfold split.
  induction H as [|w ws Hw _ IH]; cbn; [constructor|].
  destruct (segment_component w) as [c|] eqn:E; [|done]. constructor; [|done].
  apply segment_component_Some in E as [->|(-> & ? & ? & ?)]; [done|].
  repeat split; try done. intros Hin. rewrite Forall_forall in Hw. by apply Hw in Hin.
Qed.

Lemma components_absolute p :
  is_absolute p = true -> exists cs, components p = RootDir :: cs /\ Forall is_segment cs.
Proof.
  unfold is_absolute, components. intros ->. eexists. split; [done|]. apply segments_split.
Qed.

Lemma segment_component_render c : is_segment c -> segment_component (render_component c) = Some c.
Proof.
  destruct c as [| | |w]; cbn; try done. intros (H1 & H2 & H3 & _). unfold segment_component.
  by rewrite !(proj2 (str_eqb_neq w _)).
Qed.

Lemma render_segments cs :
  Forall is_segment cs ->
  render cs = join "/" (map render_component cs) /\
  omap segment_component (split "/" (join "/" (map render_component cs))) = cs /\
  is_absolute (render cs) = false /\
  head (split "/" (render cs)) <> Some ("." : str).
Proof.
  intros H. assert (render cs = join "/" (map render_component cs)) as E.
  { destruct H as [|c cs Hc H]; [done|]. by destruct c, cs. }
  rewrite E. split; [done|].
  destruct (decide (cs = [])) as [->|Hne]; [done|].
  assert (split "/" (join "/" (map render_component cs)) = map render_component cs) as Es.
  { apply split_join; [by destruct cs|]. apply Forall_fmap. eapply Forall_impl; [done|].
    intros [| | |w]; cbn; [done..| |].
    - intros _. set_solver.
    - by intros (_ & _ & _ & ?). }
  rewrite Es. repeat split.
  - clear -H. induction H as [|c cs Hc H IH]; [done|]. cbn [map omap list_omap].
    by rewrite segment_component_render, IH.
  - unfold is_absolute. destruct (starts_with _ _) eqn:Hs; [|done].
    apply starts_with_spec in Hs as [r Hs].
    rewrite Hs in Es. change (("/" : str) ++ r) with ([] ++ "/"%char :: r) in Es.
    rewrite split_app_sep in Es. destruct H as [|c cs Hc H]; [done|]. injection Es as Ec _.
    destruct c; cbn in Hc, Ec; try done. naive_solver.
  - destruct H as [|c cs Hc H]; [done|]. cbn. destruct c; cbn in Hc |- *; try done. naive_solver.
Qed.

Lemma components_join base cs :
  is_absolute base = true -> Forall is_segment cs ->
  components (path_join base (render cs)) = components base ++ cs.
Proof.
  intros Hb Hcs. destruct (render_segments cs Hcs) as (Er & Eo & Ha & _).
  unfold path_join. rewrite Ha. rewrite <- Er in Eo. clear Er. set (r := render cs) in *. clearbody r.
  assert (forall b, is_absolute b = true -> components (b ++ "/"%char :: r) = RootDir :: omap segment_component (split "/" b) ++ cs) as Hsep.
  { intros b Hab. unfold components. rewrite (proj2 (starts_with_spec "/" _)).
    - by rewrite split_app_sep, omap_app, Eo.
    - apply starts_with_spec in Hab as [x ->]. by exists (x ++ "/"%char :: r). }
  destruct (last base) as [c|] eqn:El.
  2: { apply last_None in El as ->. done. }
  apply last_Some in El as [b' ->]. destruct (is_byte "/" c) eqn:Hc.
  - apply is_byte_true in Hc as <-. rewrite <- app_assoc. cbn [app].
    destruct b' as [|x b'].
    + cbn [app] in *. unfold components at 1. cbn. by rewrite <- Eo.
    + rewrite Hsep.
      * unfold components. unfold is_absolute in Hb. rewrite Hb. change ["/"%char] with ("/"%char :: []).
        rewrite split_app_sep, omap_app. cbn. by rewrite app_nil_r.
      * apply starts_with_spec in Hb as [y Hy]. injection Hy as -> _. apply starts_with_spec. by exists b'.
  - change (list_ascii_of_string "/" ++ r) with ("/"%char :: r). rewrite Hsep by done.
    unfold components. unfold is_absolute in Hb. by rewrite Hb.
Qed.

Lemma path_strip_prefix_components base p rel :
  is_absolute base = true -> is_absolute p = true ->
  path_strip_prefix base p = Some rel ->
  exists cs, rel = render cs /\ components p = components base ++ cs /\ Forall is_segment cs.
Proof.
  intros Hb Hp (cs & H & ->)%fmap_Some. apply strip_components_Some in H.
  exists cs. split; [done|]. split; [done|].
  destruct (components_absolute _ Hb) as (bs & Eb & _), (components_absolute _ Hp) as (ps & Ep & Hps).
  rewrite Ep, Eb in H. injection H as ->. by apply Forall_app in Hps as [_ ?].
Qed.
