(* ===== verification/IpAddr.v ===== *)
(** * IP addresses of the Rust standard library

    [std::net::{IpAddr, Ipv4Addr, Ipv6Addr}] and their [FromStr] parsers, which
    the configuration, the container plan and the proxy all use.  An IPv4
    address is its four octets, an IPv6 address its eight 16-bit segments.
    A parser reads a prefix of its input; [parse_with] wants all of it. *)

From S2P Require Export RustStr.

Module IpAddr.

Inductive IpAddr :=
  | V4 (octets : list Z)
  | V6 (segments : list Z).

#[export] Instance IpAddr_eq_dec : EqDecision IpAddr.
Proof. solve_decision. Defined.

Definition reader A := str -> option (A * str).

Definition read_given_char (c : ascii) : reader unit :=
  fun s => match s with d :: s' => if is_byte c d then Some (tt, s') else None | [] => None end.

(** [read_separator(sep, index, inner)]: no separator before the first item. *)
Definition read_separator {A} (sep : ascii) (index : nat) (inner : reader A) : reader A :=
  fun s => match index with
           | O => inner s
           | S _ => '(_, s') ← read_given_char sep s; inner s'
           end.

(** [char::to_digit(radix)] for the two radices in use. *)
Definition to_digit (radix : Z) (c : ascii) : option Z :=
  let value :=
    (if is_digit c then code c - 48
     else if in_range 97 122 c then code c - 87
     else if in_range 65 90 c then code c - 55
     else 256)%Z in
  if (value <? radix)%Z then Some value else None.

(** The digits at the front of the input: value, number of digits, rest. *)
Fixpoint read_digits (radix acc : Z) (count : nat) (s : str) : Z * nat * str :=
  match s with
  | c :: s' =>
      match to_digit radix c with
      | Some d => read_digits radix (acc * radix + d)%Z (S count) s'
      | None => (acc, count, s)
      end
  | [] => (acc, count, s)
  end.

(** [read_number(radix, Some(max_digits), allow_zero_prefix)] into an integer
    type whose largest value is [max]. *)
Definition read_number (radix : Z) (max_digits : nat) (allow_zero_prefix : bool) (max : Z) : reader Z :=
  fun s =>
    let '(value, count, rest) := read_digits radix 0 0 s in
    let has_leading_zero := match s with c :: _ => is_byte "0" c | [] => false end in
    if (count =? 0)%nat || (max_digits <? count)%nat || (max <? value)%Z
       || (negb allow_zero_prefix && has_leading_zero && (1 <? count)%nat)
    then None else Some (value, rest).

Fixpoint read_octets (n index : nat) : reader (list Z) :=
  fun s => match n with
           | O => Some ([], s)
           | S n' =>
               '(octet, s) ← read_separator "." index (read_number 10 3 false 255) s;
               '(octets, s) ← read_octets n' (S index) s;
               Some (octet :: octets, s)
           end.
Definition read_ipv4_addr : reader (list Z) := read_octets 4 0.

(** [u16::from_be_bytes] of the two halves of an embedded IPv4 address. *)
Definition embed_v4 (octets : list Z) : list Z :=
  match octets with
  | [a; b; c; d] => [a * 256 + b; c * 256 + d]%Z
  | _ => []
  end.

(** [read_groups] over the [limit - i] slots left: the groups read, whether
    they end with an embedded IPv4 address, the rest of the input. *)
Fixpoint read_groups (slots i : nat) (s : str) : list Z * bool * str :=
  match slots with
  | O => ([], false, s)
  | S slots' =>
      match (if (1 <? slots)%nat then read_separator ":" i read_ipv4_addr s else None) with
      | Some (octets, s') => (embed_v4 octets, true, s')
      | None =>
          match read_separator ":" i (read_number 16 4 true U16_MAX) s with
          | Some (group, s') =>
              let '(groups, v4, rest) := read_groups slots' (S i) s' in (group :: groups, v4, rest)
          | None => ([], false, s)
          end
      end
  end.

Definition read_ipv6_addr : reader (list Z) :=
  fun s =>
    let '(head, head_ipv4, s) := read_groups 8 0 s in
    if (length head =? 8)%nat then Some (head, s)
    else if head_ipv4 then None
    else
      '(_, s) ← read_given_char ":" s;
      '(_, s) ← read_given_char ":" s;
      let limit := (8 - (length head + 1))%nat in
      let '(tail, _, s) := read_groups limit 0 s in
      Some (head ++ replicate (8 - length head - length tail) 0%Z ++ tail, s).

Definition parse_with {A} (inner : reader A) (s : str) : option A :=
  match inner s with Some (a, []) => Some a | _ => None end.

Definition parse_ipv4 (s : str) : option (list Z) :=
  if (15 <? length s)%nat then None else parse_with read_ipv4_addr s.
Definition parse_ipv6 (s : str) : option (list Z) := parse_with read_ipv6_addr s.

Definition read_ip_addr : reader IpAddr :=
  fun s => match read_ipv4_addr s with
           | Some (octets, rest) => Some (V4 octets, rest)
           | None => '(segments, rest) ← read_ipv6_addr s; Some (V6 segments, rest)
           end.
Definition parse_ip (s : str) : option IpAddr := parse_with read_ip_addr s.

(** ** Shape of the parsed addresses *)

Definition is_octets (l : list Z) : Prop := length l = 4%nat /\ Forall (fun b => 0 <= b <= 255)%Z l.
Definition is_segments (l : list Z) : Prop := length l = 8%nat /\ Forall (fun g => 0 <= g <= U16_MAX)%Z l.
Definition well_formed (a : IpAddr) : Prop :=
  match a with V4 o => is_octets o | V6 s => is_segments s end.

Lemma read_separator_Some {A} sep i (inner : reader A) s r :
  read_separator sep i inner s = Some r -> exists s', inner s' = Some r.
Proof. destruct i; cbn; [eauto|]. intros ([u s'] & _ & H)%bind_Some. eauto. Qed.

Lemma to_digit_bounds radix c d : to_digit radix c = Some d -> (0 <= d)%Z.
Proof.
  unfold to_digit. cbv zeta. case_match; [|done]. intros [= <-].
  repeat case_match; try lia; unfold is_digit in *;
    repeat match goal with H : in_range _ _ _ = true |- _ => apply in_range_spec in H end; lia.
Qed.

Lemma read_digits_nonneg radix acc n s v c r :
  (0 <= radix)%Z -> (0 <= acc)%Z -> read_digits radix acc n s = (v, c, r) -> (0 <= v)%Z.
Proof.
  intros Hr. revert acc n. induction s as [|x s IH]; intros acc n Ha; cbn.
  { by intros [= <- _ _]. }
  destruct (to_digit radix x) as [d|] eqn:Hd; [|by intros [= <- _ _]].
  apply IH. apply to_digit_bounds in Hd. nia.
Qed.

Lemma read_number_bounds radix digits z max s v r :
  (0 <= radix)%Z -> read_number radix digits z max s = Some (v, r) -> (0 <= v <= max)%Z.
Proof.
  unfold read_number. intros Hr. destruct (read_digits radix 0 0 s) as [[v' c'] r'] eqn:E.
  case_match eqn:H; [done|]. intros [= <- <-]. bool_split.
  apply read_digits_nonneg in E; lia.
Qed.

Lemma read_octets_shape n i s l r :
  read_octets n i s = Some (l, r) -> length l = n /\ Forall (fun b => 0 <= b <= 255)%Z l.
Proof.
  revert i s l r. induction n as [|n IH]; intros i s l r; cbn [read_octets].
  { by intros [= <- _]. }
  intros ([o s1] & H1 & ([os s2] & H2 & [= <- _])%bind_Some)%bind_Some.
  apply read_separator_Some in H1 as [s' H1]. apply read_number_bounds in H1; [|lia].
  apply IH in H2 as [<- HF]. split; [done|]. by constructor.
Qed.

Lemma read_groups_shape slots i s l v r :
  read_groups slots i s = (l, v, r) -> (length l <= slots)%nat /\ Forall (fun g => 0 <= g <= U16_MAX)%Z l.
Proof.
  revert i s l v r. induction slots as [|n IH]; intros i s l v r; cbn [read_groups].
  { intros [= <- _ _]. split; [done|constructor]. }
  case_match eqn:H1.
  - destruct p as [o s']. intros [= <- _ _]. case_match eqn:Hn; [|done]. apply Nat.ltb_lt in Hn.
    apply read_separator_Some in H1 as [s'' H1]. apply read_octets_shape in H1 as [Hl HF].
    destruct o as [|a [|b [|c [|d [|]]]]]; try done. cbn. split; [lia|].
    repeat match goal with H : Forall _ (_ :: _) |- _ => apply Forall_cons in H as [? ?] end.
    unfold U16_MAX. repeat constructor; lia.
  - clear H1. case_match eqn:H2.
    + destruct p as [g s']. destruct (read_groups n (S i) s') as [[gs v'] r'] eqn:E.
      intros [= <- _ _]. apply IH in E as [Hl HF].
      apply read_separator_Some in H2 as [s'' H2]. apply read_number_bounds in H2; [|lia].
      split; [cbn; lia|]. by constructor.
    + intros [= <- _ _]. split; [cbn; lia|constructor].
Qed.

Lemma read_ipv6_shape s l r : read_ipv6_addr s = Some (l, r) -> is_segments l.
Proof.
  unfold read_ipv6_addr. destruct (read_groups 8 0 s) as [[h v] s1] eqn:E1.
  apply read_groups_shape in E1 as [Hl HF]. case_match eqn:Hlen.
  { intros [= <- _]. apply Nat.eqb_eq in Hlen. done. }
  apply Nat.eqb_neq in Hlen. destruct v; [done|].
  intros ([u s2] & _ & ([u' s3] & _ & H)%bind_Some)%bind_Some.
  destruct (read_groups _ 0 s3) as [[t v'] s4] eqn:E2.
  apply read_groups_shape in E2 as [Hl2 HF2]. injection H as <- _. split.
  - rewrite !length_app, length_replicate. lia.
  - rewrite !Forall_app. repeat split; [done| |done].
    apply Forall_replicate. unfold U16_MAX. lia.
Qed.

Lemma parse_ip_well_formed s a : parse_ip s = Some a -> well_formed a.
Proof.
  unfold parse_ip, parse_with, read_ip_addr.
  destruct (read_ipv4_addr s) as [[o r]|] eqn:E4.
  - destruct r; [|done]. intros [= <-]. by apply read_octets_shape in E4.
  - destruct (read_ipv6_addr s) as [[g r]|] eqn:E6; cbn; [|done].
    destruct r; [|done]. intros [= <-]. by apply read_ipv6_shape in E6.
Qed.

(** The addresses of the standard library's own documentation. *)
Example parse_v4 : parse_ip "127.0.0.1" = Some (V4 [127; 0; 0; 1]%Z).
Proof. reflexivity. Qed.
Example parse_v4_leading_zero : parse_ip "127.0.00.1" = None.
Proof. reflexivity. Qed.
Example parse_v6_compressed : parse_ip "2001:db8::1" = Some (V6 [8193; 3512; 0; 0; 0; 0; 0; 1]%Z).
Proof. reflexivity. Qed.
Example parse_v6_mapped : parse_ip "::ffff:10.0.0.1" = Some (V6 [0; 0; 0; 0; 0; 65535; 2560; 1]%Z).
Proof. reflexivity. Qed.
Example parse_v6_two_gaps : parse_ip "1::2::3" = None.
Proof. reflexivity. Qed.

End IpAddr.
