(* ===== verification/ContainerPath.v ===== *)
(** * Container paths ([codex-start-core/src/container_path.rs])

    [ContainerPath] is an absolute, normalised POSIX path.  [parse] is the only
    way to make one; the operations rebuild their result through it. *)

From S2P Require Export RustPath.

Module ContainerPath.

(** ** Data *)

Record ContainerPath := mkContainerPath { as_str : str }.

Inductive ContainerPathError :=
  | NotUnicode | NotAbsolute | Nul | Backslash | Traversal | NotNormalized | InvalidComponent.

(** ** Operations *)

Definition is_dots (component : str) : bool := one_of component ["."; ".."].

Definition parse (value : str) : result ContainerPathError ContainerPath :=
  err_if (negb (starts_with "/" value)) NotAbsolute ;;
  err_if (contains_byte NUL value) Nul ;;
  err_if (contains_byte "\" value) Backslash ;;
  err_if (negb (value =s? "/") && (ends_with "/" value || contains_str "//" value)) NotNormalized ;;
  err_if (existsb is_dots (split "/" value)) Traversal ;;
  Ok (mkContainerPath value).

(** [ContainerPath::new]: [path.to_str()] is the UTF-8 check. *)
Definition new (path : str) : result ContainerPathError ContainerPath :=
  value ← ok_or (if utf8_valid path then Some path else None) NotUnicode;
  parse value.

Definition is_root (p : ContainerPath) : bool := as_str p =s? "/".

Definition path_starts_with (p : ContainerPath) (prefix : str) : bool :=
  (as_str p =s? prefix)
  || is_some_and (strip_prefix prefix (as_str p))
       (fun suffix => (prefix =s? "/") || starts_with "/" suffix).

Definition join_component (p : ContainerPath) (component : str)
    : result ContainerPathError ContainerPath :=
  err_if (negb (nonempty component)
          || (contains_byte "/" component || contains_byte "\" component
              || contains_byte NUL component)
          || is_dots component) InvalidComponent ;;
  parse (if is_root p then "/" ++ component else as_str p ++ "/" ++ component).

Definition join_one (joined : ContainerPath) (c : component)
    : result ContainerPathError ContainerPath :=
  match c with
  | CurDir => Ok joined
  | Normal name =>
      name ← ok_or (if utf8_valid name then Some name else None) NotUnicode;
      join_component joined name
  | ParentDir => Err Traversal
  | RootDir => Err InvalidComponent
  end.

Fixpoint join_components (joined : ContainerPath) (cs : list component)
    : result ContainerPathError ContainerPath :=
  match cs with
  | [] => Ok joined
  | c :: cs' => joined ← join_one joined c; join_components joined cs'
  end.

Definition join_relative (p : ContainerPath) (relative : str)
    : result ContainerPathError ContainerPath :=
  join_components p (components relative).

(** [Serialize]/[Deserialize]: the path's own string. *)
Definition serialize (p : ContainerPath) : str := as_str p.
Definition deserialize (value : str) : result ContainerPathError ContainerPath := parse value.

(** ** Specification: the component list of a path *)

(** A name a directory entry can have in the container. *)
Definition safe_component (w : str) : Prop :=
  w <> [] /\ w <> "." /\ w <> ".." /\ "/"%char ∉ w /\ "\"%char ∉ w /\ NUL ∉ w.

(** The path denoted by a list of names below the root. *)
Definition path_of (ws : list str) : str := "/" ++ join "/" ws.

(** The invariant every [ContainerPath] of the program satisfies. *)
Definition valid (p : ContainerPath) : Prop := parse (as_str p) = Ok p.

Definition names (p : ContainerPath) : list str :=
  if is_root p then [] else drop 1 (split "/" (as_str p)).

(** The names a relative host path goes through. *)
Definition normal_names (cs : list component) : list str :=
  omap (fun c => match c with Normal w => Some w | _ => None end) cs.

(** ** Lemmas *)

Lemma is_dots_false w : is_dots w = false <-> w <> "." /\ w <> "..".
Proof.
  unfold is_dots, one_of. rewrite bool_decide_eq_false. cbn. set_solver.
Qed.

Lemma contains_dslash_split s :
  contains_str "//" ("/" ++ s) = true \/ ends_with "/" ("/" ++ s) = true <-> [] ∈ split "/" s.
Proof.
  rewrite contains_str_true, ends_with_spec. split.
  - assert (forall a b, ("/" : str) ++ s = a ++ "/" ++ b -> drop 1 (split "/" a ++ split "/" b) = split "/" s) as Hd.
    { intros a b E. change ("/" ++ b) with ("/"%char :: b) in E.
      rewrite <- split_app_sep, <- E. done. }
    assert (forall a, exists w ws, split "/" a = w :: ws) as Hs.
    { intros a. destruct (split "/" a) eqn:E; [by apply split_by_nonempty in E | eauto]. }
    intros [(a & b & E)|(a & E)].
    + rewrite <- (Hd a ("/" ++ b)) by done. destruct (Hs a) as (w & ws & ->). cbn. set_solver.
    + rewrite <- (Hd a []) by done. destruct (Hs a) as (w & ws & ->). cbn. set_solver.
  - intros Hin. rewrite <- (join_split "/" s). apply list_elem_of_split in Hin as (a & b & ->).
    assert (forall a : list str, exists x, ("/" : str) ++ join "/" (a ++ [] :: b) = x ++ "/" ++ join "/" ([] :: b)) as Hx.
    { clear. induction a as [|w a IH]; [by exists []|]. cbn [app].
      destruct IH as [x E]. exists ("/" ++ w ++ x).
      rewrite join_cons_cons, E by (by destruct a). by rewrite <- !app_assoc. }
    destruct (Hx a) as [x E]. destruct b as [|w b].
    + right. exists x. etrans; [exact E|]. by rewrite app_nil_r.
    + left. exists x, (join "/" (w :: b)). etrans; [exact E|]. by rewrite join_cons_cons.
Qed.

Lemma split_path_of ws :
  ws <> [] -> Forall safe_component ws -> split "/" (path_of ws) = [] :: ws.
Proof.
  intros Hne Hws. unfold path_of. change ("/" ++ join "/" ws) with ([] ++ "/"%char :: join ["/"%char] ws).
  rewrite split_app_sep, split_join; [done|done|].
  eapply Forall_impl; [done|]. by intros w (_ & _ & _ & ? & _).
Qed.

Lemma path_of_root ws : Forall safe_component ws -> (path_of ws =s? "/") = true -> ws = [].
Proof.
  unfold path_of. intros Hws H%str_eqb_eq. injection H as H.
  destruct Hws as [|w ws (Hw & _) _]; [done|]. destruct ws; [done|].
  rewrite join_cons_cons in H by done. by destruct w.
Qed.

(** Bytes of a path other than [/] come from its names. *)
Lemma byte_of_path_of c ws :
  Forall safe_component ws -> c <> "/"%char -> Forall (fun w => c ∉ w) ws -> c ∉ path_of ws.
Proof.
  intros Hws Hc Hn Hin. destruct (decide (ws = [])) as [->|Hne]; [set_solver|].
  apply (elem_of_split "/") in Hin as (w & Hw & Hin); [|done].
  rewrite split_path_of in Hw by done. apply elem_of_cons in Hw as [->|Hw]; [set_solver|].
  rewrite Forall_forall in Hn. by apply (Hn w).
Qed.

(** [valid] paths and lists of safe names. *)
Lemma parse_spec v p :
  parse v = Ok p <-> p = mkContainerPath v /\ exists ws, Forall safe_component ws /\ v = path_of ws.
Proof.
  unfold parse. rewrite !err_if_bind_Ok. split.
  - intros (Habs & Hnul & Hbs & Hnorm & Htrav & [= <-]). split; [done|].
    apply negb_false_iff, starts_with_spec in Habs as [s ->].
    destruct (decide (s = [])) as [->|Hs]; [by exists []|].
    exists (split "/" s). split.
    2: { symmetry. exact (f_equal (app ("/" : str)) (join_split "/" s)). }
    change (("/" : str) ++ s) with ([] ++ "/"%char :: s) in Htrav. rewrite split_app_sep in Htrav.
    apply existsb_false, Forall_app in Htrav as [_ Htrav].
    assert ((("/" : str) ++ s =s? "/") = false) as Hne.
    { apply str_eqb_neq. intros [= ->]. done. }
    rewrite Hne in Hnorm. cbn [negb andb] in Hnorm. apply orb_false_iff in Hnorm as [Hn1 Hn2].
    assert ([] ∉ split "/" s) as Hnil.
    { intros [H|H]%contains_dslash_split; congruence. }
    apply contains_byte_false in Hnul, Hbs.
    apply Forall_forall. intros w Hw. rewrite Forall_forall in Htrav.
    pose proof (Htrav w Hw) as Hdots. apply is_dots_false in Hdots.
    pose proof (split_by_no_sep (is_byte "/") s) as Hsep. rewrite Forall_forall in Hsep.
    specialize (Hsep w Hw). rewrite Forall_forall in Hsep.
    repeat split; [by intros ->|by apply Hdots|by apply Hdots|..].
    + intros Hin%Hsep. done.
    + intros Hin. apply Hbs. apply elem_of_app. right. by eapply elem_of_split_inv.
    + intros Hin. apply Hnul. apply elem_of_app. right. by eapply elem_of_split_inv.
  - intros (-> & ws & Hws & ->).
    assert (forall c, c = NUL \/ c = "\"%char -> contains_byte c (path_of ws) = false) as Hno.
    { intros c Hc. apply contains_byte_false, byte_of_path_of; [done|by destruct Hc as [->| ->]|].
      eapply Forall_impl; [done|]. intros w (_ & _ & _ & _ & ? & ?). by destruct Hc as [->| ->]. }
    rewrite !Hno by auto. refine (conj eq_refl (conj eq_refl (conj eq_refl (conj _ (conj _ eq_refl))))).
    + destruct (path_of ws =s? "/") eqn:Hroot; [done|]. cbn.
      assert ([] ∉ split "/" (join "/" ws)) as Hnil.
      { destruct (decide (ws = [])) as [->|Hne]; [done|].
        pose proof (split_path_of ws Hne Hws) as E. unfold path_of in E.
        change (("/" : str) ++ join "/" ws) with ([] ++ "/"%char :: join "/" ws) in E.
        rewrite split_app_sep in E. injection E as E.
        rewrite E. rewrite Forall_forall in Hws. intros Hin. by apply Hws in Hin as [? _]. }
      destruct (contains_str _ _) eqn:H1; [exfalso; apply Hnil, contains_dslash_split; by left|].
      rewrite orb_false_r. destruct (ends_with _ _) eqn:H2; [|done].
      exfalso. apply Hnil, contains_dslash_split. by right.
    + apply existsb_false. destruct (decide (ws = [])) as [->|Hne]; [by repeat constructor|].
      rewrite split_path_of by done. constructor; [done|]. eapply Forall_impl; [done|].
      intros w (_ & ? & ? & _). by apply is_dots_false.
Qed.

Lemma valid_spec p : valid p <-> exists ws, Forall safe_component ws /\ as_str p = path_of ws.
Proof. unfold valid. rewrite parse_spec. destruct p. cbn. naive_solver. Qed.

Lemma names_path_of ws : Forall safe_component ws -> names (mkContainerPath (path_of ws)) = ws.
Proof.
  intros Hws. unfold names, is_root. cbn [as_str].
  destruct (path_of ws =s? "/") eqn:E.
  { by apply path_of_root in E as ->. }
  destruct (decide (ws = [])) as [->|Hne]; [done|]. by rewrite split_path_of.
Qed.

Lemma valid_names p : valid p -> Forall safe_component (names p) /\ as_str p = path_of (names p).
Proof.
  intros (ws & Hws & E)%valid_spec. destruct p as [v]. cbn [as_str] in E. subst v.
  pose proof (names_path_of ws Hws) as Hn. by split; rewrite Hn.
Qed.

Lemma path_of_snoc ws w :
  Forall safe_component ws ->
  path_of (ws ++ [w]) = (if path_of ws =s? "/" then "/" ++ w else path_of ws ++ "/" ++ w).
Proof.
  intros Hws. destruct (path_of ws =s? "/") eqn:E; [by apply path_of_root in E as ->|].
  assert (ws <> []) as Hne by (by intros ->).
  assert (join "/" (ws ++ [w]) = join "/" ws ++ "/" ++ w) as Hj; [|exact (f_equal (cons "/"%char) Hj)].
  clear -Hne. induction ws as [|x ws IH]; [done|].
  destruct ws as [|y ws]; [done|]. change ((x :: y :: ws) ++ [w]) with (x :: ((y :: ws) ++ [w])).
  rewrite !join_cons_cons, IH by done. by rewrite <- !app_assoc.
Qed.

Lemma valid_of_names ws : Forall safe_component ws -> valid (mkContainerPath (path_of ws)).
Proof. intros H. apply valid_spec. eauto. Qed.

Lemma parse_valid v p : parse v = Ok p -> valid p /\ as_str p = v.
Proof.
  intros H. apply parse_spec in H as [-> (ws & Hws & ->)]. split; [by apply valid_of_names|done].
Qed.

(** One component appended: accepted exactly for a safe name, and the name
    becomes the last one of the path. *)
Lemma join_component_spec p w q :
  valid p ->
  join_component p w = Ok q <-> safe_component w /\ q = mkContainerPath (path_of (names p ++ [w])).
Proof.
  intros Hp. destruct (valid_names p Hp) as [Hn Ep].
  assert ((if is_root p then "/" ++ w else as_str p ++ "/" ++ w) = path_of (names p ++ [w])) as E.
  { rewrite path_of_snoc by done. unfold is_root. by rewrite <- Ep. }
  unfold join_component. rewrite E, err_if_bind_Ok, parse_spec, !orb_false_iff.
  rewrite !contains_byte_false, is_dots_false, negb_false_iff. split.
  - intros (((Hne & (Hs & Hb) & ?) & Hd) & -> & _).
    destruct Hd as [? ?]. by repeat split; [destruct w|..].
  - intros [(Hne & Hd1 & Hd2 & Hs & Hb & Hnul) ->].
    assert (nonempty w = true) by (by destruct w). repeat split; try done.
    exists (names p ++ [w]). split; [|done]. apply Forall_app. split; [by apply valid_names|by apply Forall_singleton].
Qed.

Lemma join_components_spec p cs q :
  valid p -> join_components p cs = Ok q ->
  exists ws, valid q /\ names q = names p ++ ws /\
    normal_names cs = ws /\
    Forall (fun c => c <> ParentDir /\ c <> RootDir) cs.
Proof.
  revert p. induction cs as [|c cs IH]; intros p Hp; cbn [join_components].
  { intros [= <-]. exists []. by rewrite app_nil_r. }
  rewrite bind_Ok. intros (p' & Hone & H).
  assert (valid p' /\ exists ws, names p' = names p ++ ws
            /\ normal_names [c] = ws
            /\ c <> ParentDir /\ c <> RootDir) as (Hp' & ws & Hn & Hc & Hnp).
  { destruct c as [| | |w]; cbn [join_one] in Hone; try done.
    - injection Hone as <-. split; [done|]. exists []. by rewrite app_nil_r.
    - rewrite bind_Ok in Hone. destruct Hone as (w' & Hw' & Hone).
      apply ok_or_Ok in Hw'. destruct (utf8_valid w); [|done]. injection Hw' as <-.
      apply join_component_spec in Hone as [Hw ->]; [|done].
      assert (Forall safe_component (names p ++ [w])).
      { apply Forall_app. split; [by apply valid_names|by apply Forall_singleton]. }
      split; [by apply valid_of_names|]. exists [w]. by rewrite names_path_of. }
  destruct (IH p' Hp' H) as (ws' & Hq & Hnq & Hcs & Hf).
  exists (ws ++ ws'). repeat split; [done| | |by constructor].
  - by rewrite Hnq, Hn, app_assoc.
  - change (c :: cs) with ([c] ++ cs). unfold normal_names. rewrite omap_app. by f_equal.
Qed.

(** The textual prefix test is the prefix order on names. *)
Lemma path_starts_with_names p q :
  valid p -> valid q -> path_starts_with p (as_str q) = true <-> names q `prefix_of` names p.
Proof.
  intros Hp Hq. destruct (valid_names p Hp) as [Np Ep], (valid_names q Hq) as [Nq Eq].
  unfold path_starts_with. rewrite orb_true_iff, str_eqb_eq. split.
  - intros [E|H].
    + exists []. rewrite app_nil_r. destruct p, q. cbn in E. by subst.
    + destruct (strip_prefix _ _) as [r|] eqn:Hs; [|done]. apply strip_prefix_Some in Hs.
      cbn [is_some_and] in H. apply orb_true_iff in H as [H|H].
      * rewrite Eq in H. apply path_of_root in H as ->; [|done]. apply prefix_nil.
      * apply starts_with_spec in H as [r' ->].
        destruct (decide (names q = [])) as [->|Hne]; [apply prefix_nil|].
        assert (as_str p <> "/") as Hpr.
        { rewrite Hs, Eq. unfold path_of. intros [= H]. by apply app_nil in H as [_ ?]. }
        assert (names p <> []) as Hpn.
        { intros E. apply Hpr. by rewrite Ep, E. }
        pose proof (split_path_of _ Hpn Np) as E. rewrite <- Ep, Hs in E.
        change (("/" : str) ++ r') with ("/"%char :: r') in E.
        rewrite split_app_sep, Eq, split_path_of in E by done. injection E as E.
        exists (split "/" r'). by rewrite E.
  - intros [ws E]. destruct (decide (ws = [])) as [->|Hne].
    { left. by rewrite Ep, E, app_nil_r, <- Eq. }
    right. assert (exists r, as_str p = as_str q ++ r /\ (names q = [] \/ starts_with "/" r = true)) as (r & -> & Hr).
    { rewrite Ep, Eq, E. clear -Hne Nq. unfold path_of. destruct (names q) as [|x xs]; [by eexists; split; [|left]|].
      exists ("/" ++ join "/" ws). split; [|by right].
      rewrite <- app_assoc. f_equal. clear -Hne. revert x.
      induction xs as [|y xs IH]; intros x; cbn [app].
      - rewrite join_cons_cons; [done|done].
      - rewrite !(join_cons_cons _ x) by done. specialize (IH y). cbn [app] in IH. rewrite IH. by rewrite <- !app_assoc. }
    rewrite strip_prefix_app. cbn [is_some_and]. destruct Hr as [Hr|Hr]; [|by rewrite Hr, orb_true_r].
    by rewrite Eq, Hr.
Qed.

(** ** Properties *)

(** [parse] accepts exactly the absolute paths made of safe names (no
    empty, dot, backslash, slash or NUL component), and keeps the text as it is. *)
Theorem parse_accepts_normal_paths v p :
  parse v = Ok p <->
  p = mkContainerPath v /\ exists ws, Forall safe_component ws /\ v = "/" ++ join "/" ws.
Proof. apply parse_spec. Qed.

(** Joining a host-relative path never leaves the base: a successful
    [join_relative] appends exactly the normal components, in order, the result
    is again a valid path and [starts_with] the base; a path that is absolute
    or contains [..] is refused. *)
Theorem join_relative_stays_below p relative q :
  valid p -> join_relative p relative = Ok q ->
  valid q /\
  names q = names p ++ normal_names (components relative) /\
  path_starts_with q (as_str p) = true /\
  is_absolute relative = false /\ ParentDir ∉ components relative.
Proof.
  intros Hp H. apply join_components_spec in H as (ws & Hq & Hn & <- & Hf); [|done].
  rewrite Forall_forall in Hf. repeat split; [done|done| | |].
  - apply path_starts_with_names; [done..|]. eexists. exact Hn.
  - unfold is_absolute. destruct (starts_with "/" relative) eqn:E; [|done].
    assert (RootDir ∈ components relative) as Hin by (unfold components; rewrite E; by left).
    by apply Hf in Hin as [_ ?].
  - by intros [? _]%Hf.
Qed.

Lemma join_relative_stays_below_witness :
  let p := mkContainerPath "/workspaces/project" in
  join_relative p "./src//components" = Ok (mkContainerPath "/workspaces/project/src/components")
  /\ path_starts_with (mkContainerPath "/workspaces/project/src/components") (as_str p) = true.
Proof.
  split; [reflexivity|].
  apply (join_relative_stays_below (mkContainerPath "/workspaces/project") "./src//components"); reflexivity.
Defined.

End ContainerPath.
