(* ===== verification/Project.v ===== *)
(** * Project identity and application paths ([codex-start-core/src/project.rs])

    [ProjectIdentity] names a project by a hash of its Git common directory (or
    of its root), [AppPaths] lays out the application's own directories, and
    [sanitize] makes any text a name the container runtime accepts.  The host's
    file system, BLAKE3 and the Unicode lower-case table are interfaces. *)

From S2P Require Export BMap RustPath.

(** ** Interfaces *)

(** [char::to_lowercase]: the expansion of one character. *)
Class CharCase := char_to_lowercase : str -> list str.

(** What the Unicode table says of ASCII. *)
Class CharCaseLaws (CC : CharCase) : Prop :=
  char_to_lowercase_ascii c : is_ascii c = true -> char_to_lowercase [c] = [[lower_byte c]].

(** The file system calls of the identity constructors. *)
Class HostFs := {
  io_error : Type;
  canonicalize : str -> result io_error str;
  is_dir : str -> bool }.

(** [blake3::Hasher::finalize().to_hex()]. *)
Class Blake3 := blake3_hex : str -> str.
Class Blake3Laws (B : Blake3) : Prop :=
  blake3_hex_shape x : length (blake3_hex x) = 64%nat /\ Forall (fun c => is_hexdigit c = true) (blake3_hex x).

Module Project.

(** ** Name sanitising *)

Section sanitize.
Context {CC : CharCase}.

Definition allowed (allow_dot : bool) (character : str) : bool :=
  match character with
  | [c] => is_lower c || is_digit c || is_byte "_" c || is_byte "-" c
           || (allow_dot && is_byte "." c)
  | _ => false
  end.

(** One turn of the loop, on [(result, pending_separator)]. *)
Definition sanitize_step (allow_dot : bool) (st : str * bool) (character : str) : str * bool :=
  let '(result, pending_separator) := st in
  if allowed allow_dot character then
    ((if pending_separator && nonempty result then result ++ "-" else result) ++ character, false)
  else (result, true).

Definition is_edge (c : ascii) : bool := is_byte "-" c || is_byte "." c.

Definition sanitize (value : str) (allow_dot : bool) : str :=
  let '(result, _) :=
    foldl (sanitize_step allow_dot) ([], false) (concat (map char_to_lowercase (chars value))) in
  let result := trim_end_by is_edge result in
  let result := trim_start_by is_edge result in
  if nonempty result then trim_end_by is_edge (concat (take 63 (chars result)))
  else "unnamed".

Definition sanitize_resource_name (value : str) : str := sanitize value true.
Definition sanitize_branch_component (value : str) : str := sanitize value false.
End sanitize.

(** ** Data *)

Inductive ProjectKind := Git | Directory.

Record ProjectIdentity := mkProjectIdentity {
  kind : ProjectKind;
  id : str;
  display_name : str;
  root : str;
  identity_path : str;
  original_cwd : str;
  relative_workdir : str;
  git_common_dir : option str }.

Record AppPaths := mkAppPaths {
  config : str;
  data : str;
  cache : str;
  environments : str;
  projects : str;
  homes : str;
  worktrees : str;
  runtime : str }.

Inductive ProjectError `{HostFs} :=
  | HomeUnavailable
  | PathNotAbsolute (kind : str) (path : str)
  | Canonicalize (kind : str) (path : str) (source : io_error)
  | NotDirectory (kind : str) (path : str)
  | OutsideRoot (path : str) (root : str).

(** ** Operations *)

Section project.
Context {CC : CharCase} {FS : HostFs} {B : Blake3}.

Definition canonical_path_hash (path : str) : str := take 16 (blake3_hex path).

Definition canonical_directory (path : str) (kind : str) : result ProjectError str :=
  canonical ← map_err (Canonicalize kind path) (canonicalize path);
  err_if (negb (is_dir canonical)) (NotDirectory kind canonical) ;;
  Ok canonical.

Definition relative_below (path root : str) : result ProjectError str :=
  ok_or (path_strip_prefix root path) (OutsideRoot path root).

Definition safe_name_from_path (path : str) : str :=
  match file_name path with
  | None => "unnamed"
  | Some name => sanitize_resource_name (from_utf8_lossy name)
  end.

Definition git (worktree_root git_common_dir original_cwd : str)
    : result ProjectError ProjectIdentity :=
  root ← canonical_directory worktree_root "worktree root";
  git_common_dir ← canonical_directory git_common_dir "Git common directory";
  original_cwd ← canonical_directory original_cwd "working directory";
  relative_workdir ← relative_below original_cwd root;
  let project_name_path :=
    if bool_decide (file_name git_common_dir = Some (".git" : str))
    then default root (path_parent git_common_dir)
    else git_common_dir in
  Ok {| kind := Git;
        id := canonical_path_hash git_common_dir;
        display_name := safe_name_from_path project_name_path;
        root := root;
        identity_path := git_common_dir;
        original_cwd := original_cwd;
        relative_workdir := relative_workdir;
        git_common_dir := Some git_common_dir |}.

Definition directory (root original_cwd : str) : result ProjectError ProjectIdentity :=
  root ← canonical_directory root "project root";
  original_cwd ← canonical_directory original_cwd "working directory";
  relative_workdir ← relative_below original_cwd root;
  Ok {| kind := Directory;
        id := canonical_path_hash root;
        display_name := safe_name_from_path root;
        root := root;
        identity_path := root;
        original_cwd := original_cwd;
        relative_workdir := relative_workdir;
        git_common_dir := None |}.

Definition config_path (self : ProjectIdentity) (app_paths : AppPaths) : str :=
  match git_common_dir self with
  | None => path_join (projects app_paths) (id self ++ ".toml")
  | Some common_dir => path_join common_dir "codex-start.toml"
  end.

Definition container_workspace (self : ProjectIdentity) (worktree_name : str) : str :=
  path_join (path_join "/workspaces" (id self)) (sanitize_resource_name worktree_name).

Definition container_workdir (self : ProjectIdentity) (worktree_name : str) : str :=
  path_join (container_workspace self worktree_name) (relative_workdir self).

Definition ownership_labels (self : ProjectIdentity) : bmap str :=
  bcollect [("cs.fob.wtf.managed" : str, "true" : str); ("cs.fob.wtf.project" : str, id self)].

Definition validate_xdg_root (kind path : str) : result ProjectError str :=
  if is_absolute path then Ok path else Err (PathNotAbsolute kind path).

Definition from_roots (home : str) (xdg_config_home xdg_data_home xdg_cache_home : option str)
    : result ProjectError AppPaths :=
  err_if (negb (is_absolute home)) (PathNotAbsolute "home" home) ;;
  config_root ← validate_xdg_root "XDG_CONFIG_HOME" (default (path_join home ".config") xdg_config_home);
  data_root ← validate_xdg_root "XDG_DATA_HOME" (default (path_join home ".local/share") xdg_data_home);
  cache_root ← validate_xdg_root "XDG_CACHE_HOME" (default (path_join home ".cache") xdg_cache_home);
  let config := path_join config_root "codex-start" in
  let data := path_join data_root "codex-start" in
  let cache := path_join cache_root "codex-start" in
  Ok {| environments := path_join config "environments";
        projects := path_join config "projects";
        homes := path_join data "homes";
        worktrees := path_join data "worktrees";
        runtime := path_join cache "runtime";
        config := config; data := data; cache := cache |}.

Definition global_config (self : AppPaths) : str := path_join (config self) "config.toml".
Definition environment_manifest (self : AppPaths) (name : str) : str :=
  path_join (environments self) (sanitize_resource_name name ++ ".toml").
Definition managed_home (self : AppPaths) (name : str) : str :=
  path_join (homes self) (sanitize_resource_name name).
End project.

(** ** Specification of the sanitised names *)

Definition name_byte (allow_dot : bool) (c : ascii) : bool :=
  is_lower c || is_digit c || is_byte "_" c || is_byte "-" c || (allow_dot && is_byte "." c).

(** At most 63 bytes of the alphabet, with no separator at either end. *)
Definition safe_name (allow_dot : bool) (s : str) : Prop :=
  s <> [] /\ (length s <= 63)%nat /\ Forall (fun c => name_byte allow_dot c = true) s /\
  (forall c r, s = c :: r -> is_edge c = false) /\ (forall c r, s = r ++ [c] -> is_edge c = false).

Lemma name_byte_ascii b c : name_byte b c = true -> is_ascii c = true /\ lower_byte c = c.
Proof. destruct b; by_bytes c. Qed.

Lemma chars_name b s : Forall (fun c => name_byte b c = true) s -> chars s = map (fun c => [c]) s.
Proof.
  intros H. apply chars_ascii. eapply Forall_impl; [done|]. intros c Hc. by destruct (name_byte_ascii b c Hc).
Qed.

Lemma concat_singletons (s : str) : concat (map (fun c => [c]) s) = s.
Proof. induction s as [|c s IH]; cbn; [done|]. by rewrite IH. Qed.

Section sanitize_laws.
Context {CC : CharCase}.

Lemma sanitize_fold_alphabet b st cs :
  Forall (fun c => name_byte b c = true) st.1 ->
  Forall (fun c => name_byte b c = true) (foldl (sanitize_step b) st cs).1.
Proof.
  revert st. induction cs as [|w cs IH]; intros [r p] H; cbn [foldl]; [done|].
  apply IH. unfold sanitize_step. destruct (allowed b w) eqn:Hw; cbn [fst] in *; [|done].
  destruct w as [|c [|]]; try done. apply Forall_app. split; [|by apply Forall_singleton].
  destruct (p && nonempty r); [|done]. apply Forall_app. split; [done|].
  by repeat constructor.
Qed.

Lemma sanitize_safe value b : safe_name b (sanitize value b).
Proof.
  unfold sanitize.
  destruct (foldl _ _ _) as [r0 p0] eqn:Hf.
  assert (Forall (fun c => name_byte b c = true) r0) as H0.
  { change r0 with (r0, p0).1. rewrite <- Hf. by apply sanitize_fold_alphabet. }
  destruct (trim_end_by_spec is_edge r0) as (post & E1 & _ & Hlast).
  set (r1 := trim_end_by is_edge r0) in *.
  destruct (trim_start_by_spec is_edge r1) as (pre & E2 & _ & Hhead).
  set (r2 := trim_start_by is_edge r1) in *.
  assert (Forall (fun c => name_byte b c = true) r2) as H2.
  { rewrite E1 in H0. apply Forall_app in H0 as [H0 _]. rewrite E2 in H0.
    by apply Forall_app in H0 as [_ ?]. }
  clearbody r1 r2.
  destruct r2 as [|c r2']; cbn [nonempty].
  { repeat split; [done|vm_compute; lia|by destruct b; repeat constructor|..].
    - intros c r. unfold list_ascii_of_string. by intros [= <- <-].
    - intros c r H. apply (f_equal last) in H. rewrite last_snoc in H. unfold list_ascii_of_string in H. by injection H as <-. }
  rewrite (chars_name b) by done.
  rewrite firstn_map, concat_singletons.
  destruct (trim_end_by_spec is_edge (take 63 (c :: r2'))) as (post' & E3 & Hp & Hlast').
  set (r3 := trim_end_by is_edge (take 63 (c :: r2'))) in *.
  cbn [take] in E3.
  assert (r3 <> []) as Hne.
  { intros E. rewrite E in E3. cbn [app] in E3. rewrite <- E3 in Hp.
    apply Forall_cons in Hp as [Hc _]. rewrite (Hhead c r2') in Hc by done. done. }
  repeat split; [done| | | |].
  - pose proof (f_equal length E3) as HL. rewrite length_app in HL. cbn [length] in HL.
    rewrite length_take in HL. lia.
  - assert (Forall (fun c => name_byte b c = true) (r3 ++ post')) as HF.
    { rewrite <- E3. apply Forall_cons in H2 as [Hc H2]. constructor; [done|]. by apply Forall_take. }
    by apply Forall_app in HF as [? _].
  - intros d r E. rewrite E in E3. injection E3 as <- _. by eapply Hhead.
  - intros d r E. by eapply Hlast'.
Qed.

Lemma sanitize_fold_id b s r :
  Forall (fun c => name_byte b c = true) s ->
  foldl (sanitize_step b) (r, false) (map (fun c => [c]) s) = (r ++ s, false).
Proof.
  intros Hs. revert r. induction Hs as [|c s Hc Hs IH]; intros r; cbn [map foldl].
  { by rewrite app_nil_r. }
  unfold sanitize_step at 2. cbn [allowed andb].
  fold (name_byte b c). rewrite Hc, IH. by rewrite <- app_assoc.
Qed.

Lemma sanitize_fixpoint {CL : CharCaseLaws CC} b s : safe_name b s -> sanitize s b = s.
Proof.
  intros (Hne & Hlen & HF & Hh & Hl). unfold sanitize.
  assert (concat (map char_to_lowercase (chars s)) = map (fun c => [c]) s) as ->.
  { rewrite (chars_name b) by done. clear -HF CL. induction HF as [|c s Hc HF IH]; [done|].
    cbn [map concat]. apply name_byte_ascii in Hc as [Ha Hlow].
    rewrite char_to_lowercase_ascii, IH, Hlow by done. done. }
  rewrite sanitize_fold_id by done. cbn [app].
  rewrite (trim_end_by_id _ s), (trim_start_by_id _ s) by done.
  destruct s as [|c s]; [done|]. cbn [nonempty].
  rewrite (chars_name b) by done. rewrite firstn_map, concat_singletons, take_ge by done.
  by apply trim_end_by_id.
Qed.
End sanitize_laws.

(** An instance of the case table: ASCII only. *)
Definition ascii_case : CharCase :=
  fun w => match w with [c] => [[lower_byte c]] | _ => [w] end.
Lemma ascii_case_laws : CharCaseLaws ascii_case.
Proof. by intros c _. Qed.

(** ** Specification of identities *)

(** [std::fs::canonicalize] returns absolute paths. *)
Class HostFsLaws (FS : HostFs) : Prop :=
  canonicalize_absolute p q : canonicalize p = Ok q -> is_absolute q = true.

Lemma safe_name_segment s : safe_name true s -> is_segment (Normal s).
Proof.
  intros (Hne & _ & HF & Hh & _). repeat split; [done|..].
  - intros ->. by specialize (Hh "."%char [] eq_refl).
  - intros ->. by specialize (Hh "."%char ["."%char] eq_refl).
  - intros Hin. rewrite Forall_forall in HF. by apply HF in Hin.
Qed.

Section identity_laws.
Context {CC : CharCase} {FS : HostFs} {B : Blake3}.

Lemma canonical_directory_Ok path k q :
  canonical_directory path k = Ok q -> canonicalize path = Ok q /\ is_dir q = true.
Proof.
  unfold canonical_directory. rewrite bind_Ok. setoid_rewrite err_if_bind_Ok.
  intros (c & Hc & Hd & [= <-]). apply map_err_Ok in Hc. by apply negb_false_iff in Hd.
Qed.

(** The parts of a Git identity that do not depend on the worktree. *)
Definition shared_identity (common : str) : str * str :=
  (canonical_path_hash common,
   safe_name_from_path
     (if bool_decide (file_name common = Some (".git" : str))
      then default [] (path_parent common) else common)).

Lemma git_Ok w c d p :
  git w c d = Ok p ->
  exists common,
    canonicalize c = Ok common /\ canonicalize w = Ok (root p) /\
    canonicalize d = Ok (original_cwd p) /\ git_common_dir p = Some common /\
    (id p, display_name p) = shared_identity common /\
    path_strip_prefix (root p) (original_cwd p) = Some (relative_workdir p).
Proof.
  unfold git. rewrite !bind_Ok. intros (r & Hr & H). rewrite !bind_Ok in H.
  destruct H as (g & Hg & H). rewrite !bind_Ok in H. destruct H as (o & Ho & H).
  rewrite bind_Ok in H. destruct H as (rel & Hrel & [= <-]).
  apply canonical_directory_Ok in Hr as [? _], Hg as [? _], Ho as [? _].
  apply ok_or_Ok in Hrel. exists g. split_and!; try done. cbn [id display_name].
  unfold shared_identity.
  apply (f_equal (fun n => (canonical_path_hash g, safe_name_from_path n))).
  destruct (bool_decide_reflect (file_name g = Some (".git" : str))) as [Hf|Hf].
  2: { done. }
  unfold path_parent, file_name in *.
  by destruct (last (components g)) as [[| | |]|].
Qed.

Lemma directory_Ok r d p :
  directory r d = Ok p ->
  canonicalize r = Ok (root p) /\ canonicalize d = Ok (original_cwd p) /\
  id p = canonical_path_hash (root p) /\ git_common_dir p = None /\
  path_strip_prefix (root p) (original_cwd p) = Some (relative_workdir p).
Proof.
  unfold directory. rewrite !bind_Ok. intros (r' & Hr & H). rewrite !bind_Ok in H.
  destruct H as (o & Ho & H). rewrite bind_Ok in H. destruct H as (rel & Hrel & [= <-]).
  apply canonical_directory_Ok in Hr as [? _], Ho as [? _]. apply ok_or_Ok in Hrel.
  by repeat split.
Qed.

Lemma hash_segment {BL : Blake3Laws B} p : is_segment (Normal (canonical_path_hash p)).
Proof.
  unfold canonical_path_hash. destruct (blake3_hex_shape p) as [Hl HF].
  destruct (blake3_hex p) as [|c [|d [|e s]]]; [done..|].
  apply Forall_cons in HF as [Hc HF].
  repeat split; [done|by intros [= ->]|by intros [= ->]|].
  intros Hin. assert (Forall (fun c => is_hexdigit c = true) (take 16 (c :: d :: e :: s))) as H16.
  { apply Forall_take. by constructor. }
  rewrite Forall_forall in H16. by apply H16 in Hin.
Qed.

Lemma container_workspace_components {BL : Blake3Laws B} p wt h :
  id p = canonical_path_hash h ->
  components (container_workspace p wt)
  = [RootDir; Normal "workspaces"; Normal (id p); Normal (sanitize_resource_name wt)]
  /\ is_absolute (container_workspace p wt) = true.
Proof.
  intros Eid. pose proof (hash_segment h) as Hid. rewrite <- Eid in Hid.
  pose proof (safe_name_segment _ (sanitize_safe wt true)) as Hs.
  fold (sanitize_resource_name wt) in Hs. unfold container_workspace.
  assert (forall w, is_segment (Normal w) -> render [Normal w] = w) as Hr by done.
  assert (forall b w, is_absolute b = true -> is_segment (Normal w) ->
            is_absolute (path_join b w) = true) as Habs.
  { intros b w Hb Hw. unfold path_join.
    pose proof (render_segments [Normal w]) as (_ & _ & Ha & _); [by apply Forall_singleton|].
    change (is_absolute w = false) in Ha. rewrite Ha.
    apply starts_with_spec in Hb as [x ->]. destruct (last _) as [c|] eqn:E; [|by apply last_None in E].
    destruct (is_byte _ _); by apply starts_with_spec; eexists; rewrite <- app_assoc. }
  split; [|by apply Habs; [apply Habs|]].
  assert (forall b w, is_absolute b = true -> is_segment (Normal w) ->
            components (path_join b w) = components b ++ [Normal w]) as Hjoin.
  { intros b w Hb Hw. rewrite <- (Hr w) at 1 by done. by rewrite components_join; [|done|apply Forall_singleton]. }
  by rewrite !Hjoin; [|done..|by apply Habs|done].
Qed.
End identity_laws.
(** ** Properties *)

(** Whatever the input, [sanitize] returns a safe name (1 to 63 bytes of
    the allowed alphabet, no separator at either end), and it leaves a text
    unchanged exactly when it is such a name already; so sanitising twice is
    sanitising once. *)
Theorem sanitize_image (CC : CharCase) (CL : CharCaseLaws CC) (allow_dot : bool) (value : str) :
  safe_name allow_dot (sanitize value allow_dot) /\
  (sanitize value allow_dot = value <-> safe_name allow_dot value).
Proof.
  split; [apply sanitize_safe|]. split; [intros <-; apply sanitize_safe|apply sanitize_fixpoint].
Qed.

Lemma sanitize_image_witness :
  CharCaseLaws ascii_case /\
  @sanitize ascii_case "  My Repo (v2).git. " true = "my-repo-v2-.git" /\
  safe_name true "my-repo-v2-.git" /\
  @sanitize ascii_case "feature/A.b" false = "feature-a-b".
Proof.
  assert (@sanitize ascii_case "  My Repo (v2).git. " true = "my-repo-v2-.git") as E by (vm_compute; reflexivity).
  split; [exact ascii_case_laws|]. split; [exact E|]. split; [|vm_compute; reflexivity].
  rewrite <- E. exact (proj1 (sanitize_image ascii_case ascii_case_laws true _)).
Defined.

(** The working directory inside the container is the workspace of the
    project followed by exactly the components that lead from the project root
    to the invocation directory on the host; it never escapes the workspace
    mount [/workspaces/<id>/<name>]. *)
Theorem container_workdir_mirrors_host (CC : CharCase) (FS : HostFs) (B : Blake3)
    (FL : HostFsLaws FS) (BL : Blake3Laws B) w c d p worktree_name :
  git w c d = Ok p \/ directory w d = Ok p ->
  exists rel,
    components (original_cwd p) = components (root p) ++ rel /\
    components (container_workdir p worktree_name)
    = [RootDir; Normal "workspaces"; Normal (id p); Normal (sanitize_resource_name worktree_name)] ++ rel.
Proof.
  intros H.
  assert (exists h, id p = canonical_path_hash h /\ is_absolute (root p) = true /\
            is_absolute (original_cwd p) = true /\
            path_strip_prefix (root p) (original_cwd p) = Some (relative_workdir p))
    as (h & Hid & Hr & Ho & Hrel).
  { destruct H as [H|H].
    - apply git_Ok in H as (g & Hg & Hw & Hd & _ & Hs & Hrel). injection Hs as Hid _.
      exists g. split_and!; [done|by eapply canonicalize_absolute..|done].
    - apply directory_Ok in H as (Hw & Hd & Hid & _ & Hrel). eexists.
      split_and!; [done|by eapply canonicalize_absolute..|done]. }
  apply path_strip_prefix_components in Hrel as (cs & Hrel & Hcs & Hseg); [|done..].
  destruct (container_workspace_components p worktree_name h Hid) as [Hws Habs].
  exists cs. split; [done|]. unfold container_workdir.
  by rewrite Hrel, components_join, Hws.
Qed.

(** A host whose paths are already canonical, and a constant digest. *)
Definition example_fs : HostFs := {|
  io_error := unit;
  canonicalize := fun p => if is_absolute p then Ok p else Err tt;
  is_dir := fun _ => true |}.
Definition example_hash : Blake3 := fun _ => repeat "a"%char 64.

Lemma example_fs_laws : HostFsLaws example_fs.
Proof. intros p q. cbn. destruct (is_absolute p) eqn:E; [|done]. by intros [= <-]. Qed.
Lemma example_hash_laws : Blake3Laws example_hash.
Proof. intros x. split; [done|]. by repeat constructor. Qed.

Lemma container_workdir_mirrors_host_witness :
  exists p, @git ascii_case example_fs example_hash "/src/repo" "/src/repo/.git" "/src/repo/a/b" = Ok p /\
  exists rel,
    components (original_cwd p) = components (root p) ++ rel /\
    components (@container_workdir ascii_case p "main")
    = [RootDir; Normal "workspaces"; Normal (id p); Normal "main"] ++ rel.
Proof.
  eexists. split; [vm_compute; reflexivity|].
  apply (container_workdir_mirrors_host ascii_case example_fs example_hash
           example_fs_laws example_hash_laws "/src/repo" "/src/repo/.git" "/src/repo/a/b").
  left. vm_compute. reflexivity.
Defined.

(** Two worktrees of one repository (their Git common directories are the
    same canonical directory) get the same project id, display name,
    configuration file and ownership labels, whatever their roots. *)
Theorem linked_worktrees_share_identity (CC : CharCase) (FS : HostFs) (B : Blake3)
    w1 c1 d1 p1 w2 c2 d2 p2 paths :
  git w1 c1 d1 = Ok p1 -> git w2 c2 d2 = Ok p2 -> canonicalize c1 = canonicalize c2 ->
  id p1 = id p2 /\ display_name p1 = display_name p2 /\
  config_path p1 paths = config_path p2 paths /\ ownership_labels p1 = ownership_labels p2.
Proof.
  intros (g1 & H1 & _ & _ & G1 & S1 & _)%git_Ok (g2 & H2 & _ & _ & G2 & S2 & _)%git_Ok E.
  assert (g1 = g2) as -> by congruence.
  unfold config_path, ownership_labels. rewrite G1, G2.
  assert (id p1 = id p2 /\ display_name p1 = display_name p2) as [-> ->] by (split; congruence).
  done.
Qed.

Lemma linked_worktrees_share_identity_witness :
  exists p1 p2,
    @git ascii_case example_fs example_hash "/src/repo" "/src/repo/.git" "/src/repo" = Ok p1 /\
    @git ascii_case example_fs example_hash "/wt/topic" "/src/repo/.git" "/wt/topic/x" = Ok p2 /\
    root p1 <> root p2 /\ id p1 = id p2.
Proof.
  do 2 eexists. split; [vm_compute; reflexivity|]. split; [vm_compute; reflexivity|].
  split; [vm_compute; discriminate|].
  apply (linked_worktrees_share_identity ascii_case example_fs example_hash
           "/src/repo" "/src/repo/.git" "/src/repo" _ "/wt/topic" "/src/repo/.git" "/wt/topic/x" _
           (mkAppPaths [] [] [] [] [] [] [] [])); vm_compute; reflexivity.
Defined.

End Project.
