(* ===== verification/Limits.v ===== *)
(** * Resource limits ([codex-start-core/src/config.rs], limits)

    The typed values of [resources.*]: CPU counts, byte sizes, ulimits, CPU
    sets, each with its parser and the text handed to the container engine,
    and [validate_resources], which relates them.  Errors are the messages of
    the source. *)

From S2P Require Export BMap.

(** ** Interface: 64-bit floats

    What [CpuLimit] uses of [f64]: the finiteness and sign tests, [Display]
    and [FromStr]. *)
Class F64 := {
  f64 : Type;
  f64_is_finite : f64 -> bool;
  f64_le_zero : f64 -> bool;
  f64_to_string : f64 -> str;
  f64_parse : str -> option f64 }.

(** [Display] prints the shortest text that parses back to the same value; a
    positive integral value prints as its plain digits. *)
Class F64Laws (F : F64) : Prop := {
  f64_parse_to_string v : f64_is_finite v = true -> f64_parse (f64_to_string v) = Some v;
  f64_print_integer v n : f64_is_finite v = true -> f64_le_zero v = false ->
    parse_u64 (f64_to_string v) = Some n -> f64_to_string v = dec n /\ (0 < n)%Z }.

Module Limits.

(** ** CPU counts *)

Record CpuLimit := mkCpuLimit { cpu_value : str }.

Definition CPUS_ERROR : str := "resources.cpus must be a finite positive number".

(** What a deserializer can hand to [CpuVisitor]. *)
Inductive cpu_input `{F64} :=
  | InputI64 (value : Z)
  | InputU64 (value : Z)
  | InputF64 (value : f64).

(** What [serialize] hands to the serializer. *)
Inductive cpu_output `{F64} :=
  | OutputU64 (value : Z)
  | OutputF64 (value : f64).

Section cpu.
Context {F : F64}.

Definition CpuLimit_from_f64 (value : f64) : result str CpuLimit :=
  err_if (negb (f64_is_finite value) || f64_le_zero value) CPUS_ERROR ;;
  Ok (mkCpuLimit (f64_to_string value)).

Definition CpuLimit_from_integer (value : Z) (positive : bool) : result str CpuLimit :=
  err_if (negb positive) CPUS_ERROR ;;
  Ok (mkCpuLimit (dec value)).

Definition CpuLimit_deserialize (input : cpu_input) : result str CpuLimit :=
  match input with
  | InputI64 value => CpuLimit_from_integer value (0 <? value)%Z
  | InputU64 value => CpuLimit_from_integer value (0 <? value)%Z
  | InputF64 value => CpuLimit_from_f64 value
  end.

Definition CpuLimit_serialize (self : CpuLimit) : result str cpu_output :=
  match parse_u64 (cpu_value self) with
  | Some value => Ok (OutputU64 value)
  | None =>
      value ← ok_or (f64_parse (cpu_value self)) ("invalid float literal" : str);
      Ok (OutputF64 value)
  end.
End cpu.

(** ** Byte sizes *)

Record MemorySize := mkMemorySize { ms_value : str; ms_bytes : Z }.

Definition size_syntax_error (path : str) : str :=
  path ++ " must be a positive integer followed by an optional b, k, m, or g unit".

(** [u64::checked_mul]. *)
Definition checked_mul_u64 (a b : Z) : option Z :=
  if (a * b <=? U64_MAX)%Z then Some (a * b)%Z else None.

(** The digits and the multiplier of a normalised size. *)
Definition split_unit (normalized : str) : option (str * Z) :=
  match last normalized with
  | Some c =>
      let init := take (pred (length normalized)) normalized in
      if is_byte "b" c then Some (init, 1%Z)
      else if is_byte "k" c then Some (init, Z.shiftl 1 10)
      else if is_byte "m" c then Some (init, Z.shiftl 1 20)
      else if is_byte "g" c then Some (init, Z.shiftl 1 30)
      else if is_digit c then Some (normalized, 1%Z)
      else None
  | None => None
  end.

Definition MemorySize_parse (value path : str) : result str MemorySize :=
  err_if (negb (trim value =s? value) || negb (nonempty value)) (size_syntax_error path) ;;
  let normalized := to_ascii_lowercase value in
  '(digits, multiplier) ← ok_or (split_unit normalized) (size_syntax_error path);
  err_if (negb (nonempty digits) || negb (forallb is_digit digits)) (size_syntax_error path) ;;
  amount ← ok_or (parse_u64 digits) (path ++ " is too large");
  bytes ← ok_or (bytes ← checked_mul_u64 amount multiplier;
                 if (bytes =? 0)%Z then None else Some bytes)
                (path ++ " must be positive and fit in 64 bits");
  Ok (mkMemorySize normalized bytes).

Definition MemorySize_deserialize (value : str) : result str MemorySize :=
  MemorySize_parse value "resource size".
Definition MemorySize_serialize (self : MemorySize) : str := ms_value self.

Inductive MemorySwapLimit :=
  | Unlimited
  | Size (size : MemorySize).

Definition MemorySwapLimit_as_engine_value (self : MemorySwapLimit) : str :=
  match self with Unlimited => "-1" | Size size => ms_value size end.
Definition MemorySwapLimit_serialize : MemorySwapLimit -> str := MemorySwapLimit_as_engine_value.
Definition MemorySwapLimit_deserialize (value : str) : result str MemorySwapLimit :=
  if value =s? "-1" then Ok Unlimited
  else Size <$> MemorySize_parse value "resources.memory_swap".

(** ** Ulimits *)

Record Ulimit := mkUlimit { soft : Z; hard : option Z }.

Definition parse_ulimit_value (value : str) : result str Z :=
  ok_or (v ← parse_i64 value; if (-1 <=? v)%Z then Some v else None)
    ("ulimit values must be non-negative integers or -1" : str).

Definition Ulimit_parse (value : str) : result str Ulimit :=
  let values := split ":" value in
  soft ← parse_ulimit_value (default [] (values !! 0));
  hard ← match values !! 1 with
         | Some v => h ← parse_ulimit_value v; Ok (Some h)
         | None => Ok None
         end;
  err_if (bool_decide (is_Some (values !! 2))) ("ulimit must use soft[:hard] syntax" : str) ;;
  err_if (is_some_and hard (fun h => negb (h =? -1)%Z && ((soft =? -1)%Z || (h <? soft)%Z)))
    ("ulimit hard value must be at least the soft value or -1" : str) ;;
  Ok (mkUlimit soft hard).

Definition Ulimit_as_engine_value (self : Ulimit) : str :=
  match hard self with
  | None => dec (soft self)
  | Some h => dec (soft self) ++ ":" ++ dec h
  end.
Definition Ulimit_serialize : Ulimit -> str := Ulimit_as_engine_value.
Definition Ulimit_deserialize : str -> result str Ulimit := Ulimit_parse.

(** ** CPU sets *)

Definition parse_cpu_index (value : str) : result str Z :=
  err_if (negb (nonempty value) || negb (forallb is_digit value))
    ("resources.cpuset_cpus must use CPU numbers such as 0-3,6" : str) ;;
  ok_or (parse_u32 value) ("resources.cpuset_cpus contains an out-of-range CPU index" : str).

Definition validate_cpuset_item (item : str) : result str unit :=
  let bounds := split "-" item in
  start ← parse_cpu_index (default [] (bounds !! 0));
  match bounds !! 1 with
  | None => Ok tt
  | Some e =>
      e ← parse_cpu_index e;
      err_if ((e <? start)%Z || bool_decide (is_Some (bounds !! 2)))
        ("resources.cpuset_cpus must use ascending CPU ranges such as 0-3,6" : str)
  end.

Definition validate_cpuset (value : str) : result str unit :=
  err_if (negb (nonempty value) || negb (trim value =s? value))
    ("resources.cpuset_cpus must use comma-separated CPU numbers or ranges" : str) ;;
  for_each validate_cpuset_item (split "," value).

(** ** Resource tables *)

(** [ResourceValues]; [ResourcePatch] and [ResourceLimits] are boxes of it. *)
Record ResourceValues := mkResourceValues {
  cpus : option CpuLimit;
  cpu_shares : option Z;
  cpuset_cpus : option str;
  memory : option MemorySize;
  memory_reservation : option MemorySize;
  memory_swap : option MemorySwapLimit;
  pids_limit : option Z;
  shm_size : option MemorySize;
  ulimits : bmap Ulimit }.

Definition ResourceValues_default : ResourceValues :=
  mkResourceValues None None None None None None None None [].

Definition SUPPORTED_ULIMITS : list string :=
  ["core"; "cpu"; "data"; "fsize"; "locks"; "memlock"; "msgqueue"; "nice"; "nofile"; "nproc";
   "rss"; "rtprio"; "rttime"; "sigpending"; "stack"].

Definition validate_swap (r : ResourceValues) (require_memory_for_swap : bool) : result str unit :=
  match memory_swap r with
  | None => Ok tt
  | Some swap =>
      match memory r with
      | Some limit =>
          match swap with
          | Size swap =>
              err_if (ms_bytes swap <? ms_bytes limit)%Z
                ("resources.memory_swap must be at least as large as resources.memory" : str)
          | Unlimited => Ok tt
          end
      | None =>
          err_if require_memory_for_swap
            ("resources.memory_swap requires resources.memory to be configured" : str)
      end
  end.

Definition validate_resources (r : ResourceValues) (require_memory_for_swap : bool)
    : result str unit :=
  err_if (is_some_and (cpu_shares r) (fun shares => negb ((2 <=? shares)%Z && (shares <=? 262144)%Z)))
    ("resources.cpu_shares must be between 2 and 262144" : str) ;;
  match cpuset_cpus r with Some cpuset => validate_cpuset cpuset | None => Ok tt end ;;
  err_if (is_some_and (memory r) (fun limit => ms_bytes limit <? 6 * Z.shiftl 1 20)%Z)
    ("resources.memory must be at least 6m" : str) ;;
  err_if (match memory_reservation r, memory r with
          | Some reservation, Some limit => (ms_bytes limit <=? ms_bytes reservation)%Z
          | _, _ => false
          end)
    ("resources.memory_reservation must be lower than resources.memory" : str) ;;
  validate_swap r require_memory_for_swap ;;
  err_if (is_some_and (pids_limit r) (fun limit => negb (limit =? -1)%Z && (limit <=? 0)%Z))
    ("resources.pids_limit must be positive or -1" : str) ;;
  for_each (fun name =>
      err_if (negb (one_of name SUPPORTED_ULIMITS))
        ("resources.ulimits contains unsupported limit `" ++ name ++ "`" : str))
    (bkeys (ulimits r)).

Definition ResourcePatch_validate (self : ResourceValues) : result str unit :=
  validate_resources self false.
Definition ResourceLimits_validate (self : ResourceValues) : result str unit :=
  validate_resources self true.

#[export] Instance CpuLimit_eq_dec : EqDecision CpuLimit.
Proof. solve_decision. Defined.
#[export] Instance MemorySize_eq_dec : EqDecision MemorySize.
Proof. solve_decision. Defined.
#[export] Instance MemorySwapLimit_eq_dec : EqDecision MemorySwapLimit.
Proof. solve_decision. Defined.
#[export] Instance Ulimit_eq_dec : EqDecision Ulimit.
Proof. solve_decision. Defined.
#[export] Instance ResourceValues_eq_dec : EqDecision ResourceValues.
Proof. solve_decision. Defined.

Definition ResourceLimits_is_empty (self : ResourceValues) : bool :=
  bool_decide (self = ResourceValues_default).

(** ** Specifications *)

(** The unit suffixes of a size and what they multiply by. *)
Definition units : list (string * Z) :=
  [("", 1); ("b", 1); ("k", 2 ^ 10); ("m", 2 ^ 20); ("g", 2 ^ 30)]%Z.

Definition ulimit_valid (u : Ulimit) : Prop :=
  (-1 <= soft u <= I64_MAX)%Z /\
  match hard u with
  | None => True
  | Some h => (-1 <= h <= I64_MAX)%Z /\ (h = -1 \/ (soft u <> -1 /\ soft u <= h))%Z
  end.

(** A number, or an ascending range, of 32-bit CPU indices. *)
Definition cpu_number (w : str) (n : Z) : Prop :=
  all_digits w = true /\ dec_value w = n /\ (n <= U32_MAX)%Z.
Definition cpuset_item (item : str) : Prop :=
  (exists n, cpu_number item n) \/
  exists a b m n, item = a ++ "-" ++ b /\ cpu_number a m /\ cpu_number b n /\ (m <= n)%Z.

Definition opt_all {A} (o : option A) (P : A -> Prop) : Prop :=
  match o with Some a => P a | None => True end.

(** The relations between the limits of one table. *)
Record resources_ok (require_memory_for_swap : bool) (r : ResourceValues) : Prop := {
  ok_shares : opt_all (cpu_shares r) (fun n => 2 <= n <= 262144)%Z;
  ok_cpuset : opt_all (cpuset_cpus r) (fun v => v <> [] /\ trim v = v /\ Forall cpuset_item (split "," v));
  ok_memory : opt_all (memory r) (fun m => 6 * 2 ^ 20 <= ms_bytes m)%Z;
  ok_reservation : opt_all (memory r) (fun m =>
    opt_all (memory_reservation r) (fun v => ms_bytes v < ms_bytes m)%Z);
  ok_swap : opt_all (memory_swap r) (fun swap =>
    match memory r, swap with
    | Some m, Size v => (ms_bytes m <= ms_bytes v)%Z
    | Some _, Unlimited => True
    | None, _ => require_memory_for_swap = false
    end);
  ok_pids : opt_all (pids_limit r) (fun n => n = -1 \/ 0 < n)%Z;
  ok_ulimits : Forall (fun name => one_of name SUPPORTED_ULIMITS = true) (bkeys (ulimits r)) }.

(** ** Lemmas *)

Lemma split_unit_spec n digits mult :
  (split_unit n = Some (digits, mult) /\ all_digits digits = true) <->
  exists u : string, (u, mult) ∈ units /\ n = digits ++ u /\ all_digits digits = true.
Proof.
  unfold split_unit. split.
  - intros [H Hd]. destruct (last n) as [c|] eqn:El; [|done].
    apply last_Some in El as [i ->].
    rewrite length_app, Nat.add_comm in H. cbn [length Nat.add pred] in H. rewrite take_app_length in H.
    destruct (is_byte "b" c) eqn:Eb; [|destruct (is_byte "k" c) eqn:Ek; [|destruct (is_byte "m" c) eqn:Em;
      [|destruct (is_byte "g" c) eqn:Eg]]].
    1: apply is_byte_true in Eb as <-; exists "b"%string.
    2: apply is_byte_true in Ek as <-; exists "k"%string.
    3: apply is_byte_true in Em as <-; exists "m"%string.
    4: apply is_byte_true in Eg as <-; exists "g"%string.
    1-4: injection H as <- <-; split; [unfold units; set_solver|by split].
    case_match; [|done]. injection H as <- <-. exists ""%string.
    rewrite app_nil_r. split; [by left|done].
  - intros (u & Hu & -> & Hd). split; [|done].
    unfold units in Hu. rewrite !elem_of_cons, elem_of_nil in Hu.
    destruct Hu as [[= -> ->]|Hu].
    { rewrite app_nil_r. apply all_digits_spec in Hd as [Hne HF].
      destruct (last digits) as [c|] eqn:El; [|by apply last_None in El].
      apply last_Some in El as [i ->]. apply Forall_app in HF as [_ HF].
      apply Forall_cons in HF as [Hc _].
      repeat (destruct (is_byte _ c) eqn:E; [apply is_byte_true in E as <-; discriminate Hc|clear E]).
      by rewrite Hc. }
    assert (forall c : ascii, take (pred (length (digits ++ [c]))) (digits ++ [c]) = digits) as Ht.
    { intros c. rewrite length_app, Nat.add_comm. apply take_app_length. }
    destruct Hu as [[= -> ->]|[[= -> ->]|[[= -> ->]|[[= -> ->]|[]]]]];
      (match goal with |- context [last (digits ++ ?u)] => unfold list_ascii_of_string end;
       rewrite last_snoc, Ht; reflexivity).
Qed.

Lemma checked_mul_u64_Some a b c : checked_mul_u64 a b = Some c <-> c = (a * b)%Z /\ (a * b <= U64_MAX)%Z.
Proof.
  unfold checked_mul_u64. destruct (Z.leb_spec (a * b) U64_MAX); split; try naive_solver (try lia).
Qed.

Lemma all_digits_nonempty s : all_digits s = true <-> nonempty s = true /\ forallb is_digit s = true.
Proof. apply andb_true_iff. Qed.

Lemma MemorySize_parse_spec value path m :
  MemorySize_parse value path = Ok m <->
  trim value = value /\ exists digits (u : string) mult,
    to_ascii_lowercase value = digits ++ u /\ (u, mult) ∈ units /\ all_digits digits = true /\
    m = mkMemorySize (to_ascii_lowercase value) (dec_value digits * mult) /\
    (0 < dec_value digits * mult <= U64_MAX)%Z.
Proof.
  unfold MemorySize_parse. rewrite err_if_bind_Ok, orb_false_iff, !negb_false_iff, str_eqb_eq.
  setoid_rewrite bind_Ok. split.
  - intros ([Ht Hne] & ([digits mult] & Hu & H)). apply ok_or_Ok in Hu. split; [done|].
    rewrite err_if_bind_Ok, orb_false_iff, !negb_false_iff, <- all_digits_nonempty in H.
    destruct H as [Hd H]. rewrite bind_Ok in H. destruct H as (amount & Ha & H).
    rewrite bind_Ok in H. destruct H as (bytes & Hb & [= <-]).
    apply ok_or_Ok in Ha, Hb. unfold parse_u64 in Ha. rewrite parse_uint_digits in Ha by done.
    destruct (Z.leb_spec (dec_value digits) U64_MAX); [|done]. injection Ha as <-.
    apply bind_Some in Hb as (b & Hb & Hz). apply checked_mul_u64_Some in Hb as [-> Hb].
    destruct (Z.eqb_spec (dec_value digits * mult) 0); [done|]. injection Hz as <-.
    destruct (proj1 (split_unit_spec _ digits mult) (conj Hu Hd)) as (u & Hin & E & _).
    exists digits, u, mult. split_and!; try done.
    apply all_digits_spec in Hd as [_ Hd]. apply dec_value_nonneg in Hd.
    assert (0 < mult)%Z by (unfold units in Hin; set_solver by lia). nia.
  - intros (Ht & digits & u & mult & E & Hin & Hd & -> & Hb).
    assert (1 <= mult)%Z as Hm by (unfold units in Hin; set_solver by lia).
    assert (nonempty value = true) as Hne.
    { destruct value; [|done]. apply all_digits_nonempty in Hd as [Hd _].
      destruct digits; done. }
    split; [done|]. exists (digits, mult). split.
    { apply ok_or_Ok. rewrite E. apply split_unit_spec. eauto. }
    rewrite err_if_bind_Ok, orb_false_iff, !negb_false_iff, <- all_digits_nonempty.
    split; [done|].
    pose proof Hd as Hd'. apply all_digits_spec in Hd' as [_ Hd']. apply dec_value_nonneg in Hd'.
    unfold parse_u64. rewrite parse_uint_digits by done.
    rewrite (proj2 (Z.leb_le _ _)) by nia. cbn [ok_or mbind result_bind].
    unfold checked_mul_u64. rewrite (proj2 (Z.leb_le (dec_value digits * mult) U64_MAX)) by lia.
    cbn. by rewrite (proj2 (Z.eqb_neq _ _)) by lia.
Qed.

(** The canonical text of a size parses to the size. *)
Lemma MemorySize_reparse value path path' m :
  MemorySize_parse value path = Ok m -> MemorySize_parse (MemorySize_serialize m) path' = Ok m.
Proof.
  rewrite !MemorySize_parse_spec. intros (_ & digits & u & mult & E & Hin & Hd & -> & Hb).
  cbn [MemorySize_serialize ms_value]. rewrite to_ascii_lowercase_idem. split; [|eauto 10].
  rewrite E. apply trim_all_graphic, Forall_app. split.
  - apply all_digits_spec in Hd as [_ Hd]. eapply Forall_impl; [exact Hd|]. intros c. by_bytes c.
  - unfold units in Hin. rewrite !elem_of_cons, elem_of_nil in Hin.
    destruct Hin as [[= -> _]|[[= -> _]|[[= -> _]|[[= -> _]|[[= -> _]|[]]]]]]; by repeat constructor.
Qed.

Lemma MemorySize_value_digit value path m :
  MemorySize_parse value path = Ok m -> exists c r, ms_value m = c :: r /\ is_digit c = true.
Proof.
  intros (_ & digits & u & mult & E & _ & Hd & -> & _)%MemorySize_parse_spec.
  apply all_digits_spec in Hd as [Hne HF]. destruct digits as [|c digits]; [done|].
  apply Forall_cons in HF as [Hc _]. exists c, (digits ++ u). by rewrite <- app_comm_cons in E.
Qed.

Lemma parse_ulimit_value_spec v n : parse_ulimit_value v = Ok n <-> parse_i64 v = Some n /\ (-1 <= n)%Z.
Proof.
  unfold parse_ulimit_value. rewrite ok_or_Ok, bind_Some. split.
  - intros (x & -> & H). destruct (Z.leb_spec (-1) x); [|done]. by injection H as <-.
  - intros [-> H]. exists n. by rewrite (proj2 (Z.leb_le _ _)).
Qed.

Lemma parse_ulimit_value_dec n : (-1 <= n <= I64_MAX)%Z -> parse_ulimit_value (dec n) = Ok n.
Proof.
  intros H. apply parse_ulimit_value_spec. split; [|lia]. apply parse_i64_dec. unfold I64_MIN. lia.
Qed.

Lemma Ulimit_parse_valid v u : Ulimit_parse v = Ok u -> ulimit_valid u.
Proof.
  unfold Ulimit_parse. cbv zeta. rewrite bind_Ok. intros (s & Hs & H).
  rewrite bind_Ok in H. destruct H as (h & Hh & H).
  rewrite !err_if_bind_Ok in H. destruct H as (_ & Hr & [= <-]).
  apply parse_ulimit_value_spec in Hs as [Hs1 Hs2]. apply parse_i64_bounds in Hs1.
  split; cbn [soft hard]; [lia|]. destruct h as [h|]; [|done].
  destruct (split ":" v !! 1); [|done]. rewrite bind_Ok in Hh. destruct Hh as (h' & Hh & [= ->]).
  apply parse_ulimit_value_spec in Hh as [Hh1 Hh2]. apply parse_i64_bounds in Hh1. split; [lia|].
  cbn in Hr. destruct (Z.eqb_spec h (-1)); [by left|]. cbn in Hr. bool_split. lia.
Qed.

Lemma Ulimit_parse_print u : ulimit_valid u -> Ulimit_parse (Ulimit_as_engine_value u) = Ok u.
Proof.
  intros [Hs Hh]. destruct u as [s [h|]]; cbn [soft hard] in *; unfold Ulimit_as_engine_value, Ulimit_parse; cbn [soft hard].
  - assert (split ":" (dec s ++ ":" ++ dec h) = [dec s; dec h]) as ->.
    { change (dec s ++ ":" ++ dec h) with (dec s ++ ":"%char :: dec h).
      rewrite split_app_sep. unfold split. rewrite !split_by_word; [done|..];
        apply Forall_forall; intros x Hx; apply is_byte_false; intros <-; by apply dec_no_byte in Hx. }
    cbn [lookup list_lookup default]. destruct Hh as [Hh1 Hh2].
    rewrite parse_ulimit_value_dec by lia. cbn. rewrite parse_ulimit_value_dec by lia. cbn.
    destruct Hh2 as [->|[H1 H2]]; [done|].
    rewrite (proj2 (Z.eqb_neq s (-1))), (proj2 (Z.ltb_ge h s)) by lia. by rewrite andb_false_r.
  - assert (split ":" (dec s) = [dec s]) as ->.
    { unfold split. rewrite split_by_word; [done|].
      apply Forall_forall; intros x Hx; apply is_byte_false; intros <-; by apply dec_no_byte in Hx. }
    cbn. by rewrite parse_ulimit_value_dec by lia.
Qed.

Lemma parse_cpu_index_spec v n : parse_cpu_index v = Ok n <-> cpu_number v n.
Proof.
  unfold parse_cpu_index, cpu_number.
  rewrite err_if_bind_Ok, orb_false_iff, !negb_false_iff, <- all_digits_nonempty, ok_or_Ok.
  split; intros [Hd H]; (split; [done|]); unfold parse_u32 in *; rewrite parse_uint_digits in * by done.
  - destruct (Z.leb_spec (dec_value v) U32_MAX); [|done]. by injection H as <-.
  - destruct H as [<- H]. by rewrite (proj2 (Z.leb_le _ _)).
Qed.

Lemma all_digits_no_byte c s : all_digits s = true -> is_digit c = false -> Forall (fun d => is_byte c d = false) s.
Proof.
  intros [_ H]%all_digits_spec Hc. eapply Forall_impl; [done|]. cbn. intros d Hd.
  apply is_byte_false. congruence.
Qed.

Lemma validate_cpuset_item_spec item u : validate_cpuset_item item = Ok u <-> cpuset_item item.
Proof.
  destruct u. unfold validate_cpuset_item, cpuset_item. cbv zeta. rewrite bind_Ok. split.
  - intros (m & Hm & H). apply parse_cpu_index_spec in Hm.
    pose proof (join_split "-" item) as Hj.
    destruct (split "-" item) as [|a [|b [|c l]]] eqn:E; [by apply split_by_nonempty in E|..];
      cbn [lookup list_lookup default] in *.
    + left. exists m. cbn in Hj. by rewrite <- Hj.
    + rewrite bind_Ok in H. destruct H as (n & Hn & H). apply parse_cpu_index_spec in Hn.
      apply err_if_Ok in H. apply orb_false_iff in H as [H _]. apply Z.ltb_ge in H.
      right. exists a, b, m, n. split_and!; try done.
    + rewrite bind_Ok in H. destruct H as (n & Hn & H). apply err_if_Ok in H.
      by apply orb_false_iff in H as [_ ?].
  - intros [(n & Hn)|(a & b & m & n & -> & Ha & Hb & Hmn)].
    + exists n. assert (split "-" item = [item]) as ->.
      { apply split_by_word, all_digits_no_byte; [apply Hn|done]. }
      cbn. by rewrite (proj2 (parse_cpu_index_spec _ _) Hn).
    + exists m. assert (split "-" (a ++ "-" ++ b) = [a; b]) as ->.
      { change (a ++ "-" ++ b) with (a ++ "-"%char :: b). rewrite split_app_sep. unfold split.
        by rewrite !split_by_word; [|apply all_digits_no_byte; [apply Hb|done]|apply all_digits_no_byte; [apply Ha|done]]. }
      cbn.
      rewrite (proj2 (parse_cpu_index_spec _ _) Ha), (proj2 (parse_cpu_index_spec _ _) Hb). cbn.
      by rewrite (proj2 (Z.ltb_ge n m)).
Qed.

Lemma validate_cpuset_spec v u :
  validate_cpuset v = Ok u <-> v <> [] /\ trim v = v /\ Forall cpuset_item (split "," v).
Proof.
  unfold validate_cpuset.
  rewrite err_if_bind_Ok, orb_false_iff, !negb_false_iff, str_eqb_eq, for_each_Ok.
  setoid_rewrite validate_cpuset_item_spec. destruct v; naive_solver.
Qed.

Lemma some_and_false {A} (o : option A) (p : A -> bool) (P : A -> Prop) :
  (forall a, p a = false <-> P a) -> is_some_and o p = false <-> opt_all o P.
Proof. intros H. destruct o; cbn; [apply H|done]. Qed.

Lemma validate_swap_spec r req u :
  validate_swap r req = Ok u <->
  opt_all (memory_swap r) (fun swap =>
    match memory r, swap with
    | Some m, Size v => (ms_bytes m <= ms_bytes v)%Z
    | Some _, Unlimited => True
    | None, _ => req = false
    end).
Proof.
  destruct u. unfold validate_swap. destruct (memory_swap r) as [[|v]|]; cbn [opt_all]; [..|done];
    destruct (memory r); rewrite ?err_if_Ok, ?Z.ltb_ge; done.
Qed.

Lemma validate_reservation_spec r :
  match memory_reservation r, memory r with
  | Some reservation, Some limit => (ms_bytes limit <=? ms_bytes reservation)%Z
  | _, _ => false
  end = false <->
  opt_all (memory r) (fun m => opt_all (memory_reservation r) (fun v => ms_bytes v < ms_bytes m)%Z).
Proof. destruct (memory_reservation r), (memory r); cbn; rewrite ?Z.leb_gt; done. Qed.

Lemma validate_resources_spec r req u : validate_resources r req = Ok u <-> resources_ok req r.
Proof.
  destruct u. unfold validate_resources.
  rewrite !bind_unit_Ok, !err_if_Ok, for_each_Ok, validate_reservation_spec, validate_swap_spec.
  setoid_rewrite err_if_Ok. setoid_rewrite negb_false_iff.
  rewrite (some_and_false (cpu_shares r) _ (fun n => 2 <= n <= 262144)%Z).
  2: { intros n. rewrite negb_false_iff, andb_true_iff, !Z.leb_le. done. }
  rewrite (some_and_false (memory r) _ (fun m => 6 * 2 ^ 20 <= ms_bytes m)%Z).
  2: { intros m. rewrite Z.ltb_ge. done. }
  rewrite (some_and_false (pids_limit r) _ (fun n => n = -1 \/ 0 < n)%Z).
  2: { intros n. rewrite andb_false_iff, negb_false_iff, Z.eqb_eq, Z.leb_gt. done. }
  assert (match cpuset_cpus r with Some c => validate_cpuset c | None => Ok tt end = Ok tt <->
    opt_all (cpuset_cpus r) (fun v => v <> [] /\ trim v = v /\ Forall cpuset_item (split "," v))) as ->.
  { destruct (cpuset_cpus r); cbn; [apply validate_cpuset_spec|done]. }
  split; [intros (? & ? & ? & ? & ? & ? & ?); by constructor | by intros []].
Qed.

(** ** Properties *)

(** A byte size is accepted exactly when it is a decimal number followed by
    an optional unit b, k, m or g in either case, with no surrounding white
    space and a product that is positive and fits in 64 bits; the stored byte
    count is that product, computed without overflow, and the canonical text
    given to the engine parses back to the same size. *)
Theorem memory_size_exact (value path path' : str) (m : MemorySize) :
  (MemorySize_parse value path = Ok m <->
   trim value = value /\ exists digits (u : string) mult,
     to_ascii_lowercase value = digits ++ u /\ (u, mult) ∈ units /\ all_digits digits = true /\
     m = mkMemorySize (to_ascii_lowercase value) (dec_value digits * mult) /\
     (0 < dec_value digits * mult <= U64_MAX)%Z) /\
  (MemorySize_parse value path = Ok m -> MemorySize_parse (MemorySize_serialize m) path' = Ok m).
Proof.
  split; [apply MemorySize_parse_spec|].
  apply MemorySize_reparse.
Qed.

Lemma memory_size_exact_witness :
  MemorySize_parse "512M" "p" = Ok (mkMemorySize "512m" 536870912) /\
  MemorySize_parse (MemorySize_serialize (mkMemorySize "512m" 536870912)) "resource size"
  = Ok (mkMemorySize "512m" 536870912) /\
  MemorySize_parse "17179869184g" "p" = Err ("p must be positive and fit in 64 bits" : str).
Proof.
  split; [vm_compute; reflexivity|]. split; [|vm_compute; reflexivity].
  apply (memory_size_exact "512M" "p" "resource size"). vm_compute. reflexivity.
Defined.

(** Every ulimit the parser accepts is in range, with a hard value that is
    unlimited or at least a limited soft value; and a ulimit survives printing
    and parsing exactly when it is one of those. *)
Theorem ulimit_roundtrip (v : str) (u : Ulimit) :
  (Ulimit_parse v = Ok u -> ulimit_valid u) /\
  (Ulimit_deserialize (Ulimit_serialize u) = Ok u <-> ulimit_valid u).
Proof.
  split; [apply Ulimit_parse_valid|]. split; [apply Ulimit_parse_valid|apply Ulimit_parse_print].
Qed.

(** Validation of a resource table succeeds exactly on the tables that
    satisfy every documented bound and relation (shares range, CPU set
    grammar, memory floor, reservation below memory, swap at least memory,
    process limit, known ulimit names); a layer's own table is exempt only
    from needing [memory] beside [memory_swap]. *)
Theorem resources_validation_exact (r : ResourceValues) :
  (ResourceLimits_validate r = Ok tt <-> resources_ok true r) /\
  (ResourcePatch_validate r = Ok tt <-> resources_ok false r) /\
  (ResourceLimits_validate r = Ok tt <->
   ResourcePatch_validate r = Ok tt /\ (is_Some (memory_swap r) -> is_Some (memory r))).
Proof.
  unfold ResourceLimits_validate, ResourcePatch_validate.
  split; [apply validate_resources_spec|]. split; [apply validate_resources_spec|].
  rewrite !validate_resources_spec. split.
  - intros []. split.
    + constructor; try done. destruct (memory_swap r); [|done]. by destruct (memory r).
    + destruct (memory_swap r); [|by intros []]. intros _. by destruct (memory r).
  - intros [[] Hs]. constructor; try done. destruct (memory_swap r); [|done].
    destruct (memory r); [done|]. destruct Hs; done.
Qed.

End Limits.
