(* ===== verification/ConfigTypes.v ===== *)
(** * Configuration data ([codex-start-core/src/config.rs], types)

    The enums, the partial ([..Patch]) and resolved ([..Config]) settings
    records with their defaults, home and secret-provider definitions with
    their validation, and the error type of the configuration. *)

From S2P Require Export BMap RustPath Limits.

Module ConfigTypes.
Export Limits.

Definition CONFIG_SCHEMA_VERSION : Z := 1.
Definition ENVIRONMENT_PREFIX : str := "CODEX_START__".
Definition DEFAULT_MERGE_MODEL : str := "gpt-5.6-terra".

(** [cfg!(unix)]: the model is of a Unix build. *)
Definition cfg_unix : bool := true.

(** ** Enumerations, with [Default] *)

Inductive RuntimeKind := RuntimeKind_Auto | RuntimeKind_Docker | RuntimeKind_Podman.
Inductive NetworkMode := NetworkMode_Offline | NetworkMode_Allowlist | NetworkMode_Bridge | NetworkMode_Host.
Inductive WorktreeMode := WorktreeMode_Auto | WorktreeMode_Always | WorktreeMode_Never.
Inductive TtyMode := TtyMode_Auto | TtyMode_Always | TtyMode_Never.
Inductive SshAgentBridge := SshAgentBridge_Auto | SshAgentBridge_Socket | SshAgentBridge_Tcp.
Inductive SessionExitBehavior :=
  SessionExitBehavior_Prompt | SessionExitBehavior_Detach | SessionExitBehavior_Stop.
Inductive HomeKind := HomeKind_Managed | HomeKind_Host | HomeKind_Path.
Inductive SecretProviderKind :=
  SecretProviderKind_Environment | SecretProviderKind_File
  | SecretProviderKind_Command | SecretProviderKind_Keychain.

#[export] Instance RuntimeKind_eq_dec : EqDecision RuntimeKind.
Proof. solve_decision. Defined.
#[export] Instance NetworkMode_eq_dec : EqDecision NetworkMode.
Proof. solve_decision. Defined.
#[export] Instance WorktreeMode_eq_dec : EqDecision WorktreeMode.
Proof. solve_decision. Defined.
#[export] Instance TtyMode_eq_dec : EqDecision TtyMode.
Proof. solve_decision. Defined.
#[export] Instance SshAgentBridge_eq_dec : EqDecision SshAgentBridge.
Proof. solve_decision. Defined.
#[export] Instance SessionExitBehavior_eq_dec : EqDecision SessionExitBehavior.
Proof. solve_decision. Defined.

(** ** Settings of one layer and resolved settings *)

Record AdapterPatch := mkAdapterPatch { adapter_idle_timeout_seconds : option Z }.
Record AdapterConfig := mkAdapterConfig { adapter_idle_timeout : Z }.
Definition AdapterConfig_default := mkAdapterConfig 300.

Record SessionPatch := mkSessionPatch {
  session_enabled : option bool;
  session_on_tui_exit : option SessionExitBehavior;
  session_refresh_ssh_on_attach : option bool }.
Record SessionConfig := mkSessionConfig {
  enabled : bool;
  on_tui_exit : SessionExitBehavior;
  refresh_ssh_on_attach : bool }.
Definition SessionConfig_default := mkSessionConfig false SessionExitBehavior_Prompt cfg_unix.
Definition SessionConfig_from (patch : SessionPatch) : SessionConfig :=
  mkSessionConfig
    (default false (session_enabled patch))
    (default SessionExitBehavior_Prompt (session_on_tui_exit patch))
    (default cfg_unix (session_refresh_ssh_on_attach patch)).

Record UpdatePatch := mkUpdatePatch {
  update_enabled : option bool;
  update_check_interval_hours : option Z;
  update_require_signature : option bool }.
Record UpdateConfig := mkUpdateConfig {
  updates_enabled : bool;
  check_interval_hours : Z;
  require_signature : bool }.
Definition UpdateConfig_default := mkUpdateConfig true 24 false.
Definition UpdateConfig_from (patch : UpdatePatch) : UpdateConfig :=
  mkUpdateConfig
    (default true (update_enabled patch))
    (default 24%Z (update_check_interval_hours patch))
    (default false (update_require_signature patch)).

Record ForwardingPatch := mkForwardingPatch {
  fp_ssh_agent : option bool;
  fp_ssh_agent_bridge : option SshAgentBridge;
  fp_gpg_agent : option bool;
  fp_git_config : option bool;
  fp_known_hosts : option bool;
  fp_host_ssh : option bool;
  fp_gh_config : option bool;
  fp_browser : option bool;
  fp_local_providers : option bool;
  fp_browser_opener : option (list str);
  fp_host_ssh_program : option str;
  fp_oauth_callback_port : option Z;
  fp_git_config_file : option str;
  fp_known_hosts_file : option str;
  fp_container_ssh_dir : option str;
  fp_ssh_user : option str }.
Record ForwardingConfig := mkForwardingConfig {
  ssh_agent : bool;
  ssh_agent_bridge : SshAgentBridge;
  gpg_agent : bool;
  git_config : bool;
  known_hosts : bool;
  host_ssh : bool;
  gh_config : bool;
  browser : bool;
  local_providers : bool;
  browser_opener : list str;
  host_ssh_program : str;
  oauth_callback_port : Z;
  git_config_file : option str;
  known_hosts_file : option str;
  container_ssh_dir : str;
  ssh_user : option str }.
Definition ForwardingConfig_default : ForwardingConfig :=
  mkForwardingConfig cfg_unix SshAgentBridge_Auto cfg_unix true true true true true true []
    "ssh" 1455 None None "/home/codex/.ssh" None.

Record GitPatch := mkGitPatch {
  gp_cleanup_untouched : option bool;
  gp_worktree_base : option str;
  gp_branch_prefix : option str;
  gp_editor : option (list str) }.
Record GitConfig := mkGitConfig {
  cleanup_untouched : bool;
  worktree_base : option str;
  branch_prefix : str;
  editor : list str }.
Definition GitConfig_default : GitConfig := mkGitConfig true None "codex/" [].

Record MergePatch := mkMergePatch { mp_model : option str }.
Record MergeConfig := mkMergeConfig { model : str }.
Definition MergeConfig_default : MergeConfig := mkMergeConfig DEFAULT_MERGE_MODEL.

Record ProxyPatch := mkProxyPatch {
  pp_listen_port : option Z;
  pp_connect_timeout_seconds : option Z;
  pp_idle_timeout_seconds : option Z;
  pp_max_connections : option Z;
  pp_block_private_addresses : option bool;
  pp_header_timeout_seconds : option Z;
  pp_max_header_bytes : option Z;
  pp_handshake_timeout_seconds : option Z }.
Record ProxyConfig := mkProxyConfig {
  listen_port : Z;
  connect_timeout_seconds : Z;
  idle_timeout_seconds : Z;
  max_connections : Z;
  block_private_addresses : bool;
  header_timeout_seconds : Z;
  max_header_bytes : Z;
  handshake_timeout_seconds : Z }.
Definition ProxyConfig_default : ProxyConfig := mkProxyConfig 3128 10 300 256 true 10 65536 5.

(** ** Errors *)

Inductive ConfigError :=
  | Parse (source_label message : str) (span : option (Z * Z)) (suggestion : option str)
  | UnsupportedSchema (found supported : Z)
  | Invalid (message : str)
  | ProjectDefinitions
  | ProjectUpdates
  | ProfileUpdates
  | DefinitionsOutsideGlobal
  | UnknownProfile (name : str)
  | ProfileCycle (cycle : str)
  | UnknownHome (name : str)
  | UnknownSecret (target name : str)
  | ReservedProfileLayer
  | InvalidEnvironmentOverride (key : str)
  | ConflictingEnvironmentOverride (key : str)
  | EnvironmentOverride (message : str)
  | Internal (message : str).

(** ** Names *)

Definition valid_env_name (value : str) : bool :=
  nonempty value
  && forallb id (imap (fun index byte =>
       is_byte "_" byte || is_alphabetic byte || ((0 <? index)%nat && is_digit byte)) value).

Definition validate_name (kind value : str) : result ConfigError unit :=
  err_if (negb (nonempty value) || (64 <? length value)%nat
          || negb (forallb (fun byte => is_lower byte || is_digit byte
                              || is_byte "-" byte || is_byte "_" byte || is_byte "." byte) value))
    (Invalid (kind ++ " name `" ++ value
              ++ "` must contain 1-64 lowercase ASCII letters, digits, '.', '_' or '-'")).

(** ** Homes *)

Inductive HomeConfig :=
  | Managed (name : option str)
  | Host
  | Path (path : str) (agents_path : option str).

#[export] Instance HomeConfig_eq_dec : EqDecision HomeConfig.
Proof. solve_decision. Defined.

Definition HomeConfig_default : HomeConfig := Managed (Some ("default" : str)).

Definition HomeConfig_kind (self : HomeConfig) : HomeKind :=
  match self with
  | Managed _ => HomeKind_Managed
  | Host => HomeKind_Host
  | Path _ _ => HomeKind_Path
  end.

Definition HomeConfig_validate (self : HomeConfig) (key : str) : result ConfigError unit :=
  match self with
  | Managed name =>
      err_if (is_some_and name is_blank)
        (Invalid ("managed home `" ++ key ++ "` has an empty storage name"))
  | Host => Ok tt
  | Path path agents_path =>
      err_if (negb (is_absolute path)) (Invalid ("home `" ++ key ++ "` path must be absolute")) ;;
      err_if (is_some_and agents_path (fun path => negb (is_absolute path)))
        (Invalid ("home `" ++ key ++ "` agents_path must be absolute"))
  end.

(** ** Secret providers *)

Inductive SecretProvider :=
  | Environment (variable : str)
  | File (path : str)
  | Command (argv : list str)
  | Keychain (service account : str).

Definition SecretProvider_kind (self : SecretProvider) : SecretProviderKind :=
  match self with
  | Environment _ => SecretProviderKind_Environment
  | File _ => SecretProviderKind_File
  | Command _ => SecretProviderKind_Command
  | Keychain _ _ => SecretProviderKind_Keychain
  end.

Definition SecretProvider_validate (self : SecretProvider) (key : str) : result ConfigError unit :=
  match self with
  | Environment variable =>
      err_if (negb (valid_env_name variable))
        (Invalid ("secret `" ++ key ++ "` has invalid environment variable `" ++ variable ++ "`"))
  | File path =>
      err_if (negb (is_absolute path)) (Invalid ("secret `" ++ key ++ "` file path must be absolute"))
  | Command argv =>
      err_if (match argv with [] => true | arg :: _ => is_blank arg end)
        (Invalid ("secret `" ++ key ++ "` command argv cannot be empty")) ;;
      err_if (existsb (contains_byte NUL) argv)
        (Invalid ("secret `" ++ key ++ "` command contains a NUL byte"))
  | Keychain service account =>
      err_if (is_blank service || is_blank account)
        (Invalid ("secret `" ++ key ++ "` keychain service and account cannot be empty"))
  end.

(** ** Lemmas *)

Lemma valid_env_name_spec v :
  valid_env_name v = true <->
  exists c r, v = c :: r /\ (c = "_"%char \/ is_alphabetic c = true) /\
    Forall (fun d => d = "_"%char \/ is_alphabetic d = true \/ is_digit d = true) r.
Proof.
  unfold valid_env_name. destruct v as [|c r].
  { cbn. split; [done|]. by intros (? & ? & ? & _). }
  cbn [nonempty andb imap forallb]. rewrite andb_true_iff. unfold id at 1. cbn [Nat.ltb Nat.leb].
  rewrite andb_false_l, orb_false_r, orb_true_iff, is_byte_true.
  assert (forallb id (imap ((fun index byte => is_byte "_" byte || is_alphabetic byte
            || ((0 <? index)%nat && is_digit byte)) ∘ S) r) = true <->
          Forall (fun d => d = "_"%char \/ is_alphabetic d = true \/ is_digit d = true) r) as H.
  { rewrite forallb_Forall, Forall_lookup. setoid_rewrite list_lookup_imap.
    rewrite Forall_lookup. cbn. split.
    - intros H i d Hd. specialize (H i). rewrite Hd in H. specialize (H _ eq_refl).
      unfold id in H. rewrite !orb_true_iff, is_byte_true in H. naive_solver.
    - intros H i b Hb. apply fmap_Some in Hb as (d & Hd & ->). unfold id.
      rewrite !orb_true_iff, is_byte_true. specialize (H i d Hd). naive_solver. }
  rewrite H. split.
  - intros [Hc Hr]. exists c, r. split_and!; [done|naive_solver|done].
  - intros (? & ? & [= <- <-] & Hc & Hr). split; [naive_solver|done].
Qed.

End ConfigTypes.
