(* ===== verification/HostRules.v ===== *)
(** * Authority rules of the configuration
      ([codex-start-core/src/config.rs], [validate_host_rules] and below)

    The syntax check of [allow_hosts] and [allow_ssh_hosts] entries.  The IDNA
    conversion is an interface, shared with the proxy's own rule parser. *)

From S2P Require Export ConfigTypes IpAddr.

(** [idna::domain_to_ascii_strict]: the ASCII form of a domain name. *)
Class Idna := domain_to_ascii_strict : str -> option str.

Module HostRules.
Export ConfigTypes IpAddr.

Definition valid_port_matcher (value : str) : bool :=
  (value =s? "*")
  || (nonempty value && forallb is_digit value
      && is_some_and (parse_u16 value) (fun port => negb (port =? 0)%Z)).

Definition valid_optional_port (suffix : str) : bool :=
  negb (nonempty suffix) || is_some_and (strip_prefix ":" suffix) valid_port_matcher.

Definition host_rule_name (candidate : str) : option str :=
  match strip_prefix "[" candidate with
  | Some remainder =>
      '(host, suffix) ← split_once "]" remainder;
      match parse_ip host with
      | Some (V6 _) => if valid_optional_port suffix then Some host else None
      | _ => None
      end
  | None =>
      if bool_decide (is_Some (parse_ipv6 candidate)) then Some candidate
      else if contains_byte "[" candidate || contains_byte "]" candidate then None
      else match rsplit_once ":" candidate with
           | Some (host, port) =>
               if negb (contains_byte ":" host) && valid_port_matcher port then Some host else None
           | None => Some candidate
           end
  end.

Section idna.
Context {I : Idna}.

Definition valid_dns_label (label : str) : bool :=
  nonempty label && (length label <=? 63)%nat
  && negb (starts_with "-" label) && negb (ends_with "-" label)
  && forallb (fun byte => is_alphanumeric byte || is_byte "-" byte) label.

Definition valid_dns_or_ip (host : str) : bool :=
  if bool_decide (is_Some (parse_ip host)) then true
  else
    let host := default host (strip_suffix "." host) in
    if negb (nonempty host) || (253 <? length host)%nat then false
    else match domain_to_ascii_strict host with
         | None => false
         | Some ascii => nonempty ascii && forallb valid_dns_label (split "." ascii)
         end.

Definition valid_host_rule_syntax (rule : str) : bool :=
  if negb (nonempty rule)
     || (contains_byte "/" rule || contains_byte "@" rule || contains_byte "?" rule
         || contains_byte "#" rule)
     || existsb (fun byte => is_ascii_whitespace byte || is_ascii_control byte) rule
  then false
  else
    let '(wildcard, candidate) :=
      match strip_prefix "*." rule with
      | Some candidate => (true, candidate)
      | None => (false, rule)
      end in
    match host_rule_name candidate with
    | None => false
    | Some host =>
        if wildcard && bool_decide (is_Some (parse_ip host)) then false
        else valid_dns_or_ip host
    end.

Definition validate_host_rules (field : str) (rules : option (list str)) : result ConfigError unit :=
  for_each (fun rule =>
      err_if (negb (valid_host_rule_syntax rule))
        (Invalid (field ++ " contains invalid authority rule `" ++ rule ++ "`")))
    (default [] rules).
End idna.

End HostRules.
