(* ===== verification/Plan.v ===== *)
(** * Container plans ([codex-start-core/src/plan.rs])

    [ContainerPlan] is the complete description of a workload before a runtime
    is contacted; [validate] is the gate every plan passes before it is
    executed or shown.  [ManagedResource] is the lifecycle of the resources a
    run creates. *)

From S2P Require Export ConfigTypes ContainerPath IpAddr.

(** [base64::engine::general_purpose::STANDARD]. *)
Class Base64 := {
  base64_encode : str -> str;
  base64_decode : str -> option str }.
Class Base64Laws (B : Base64) : Prop :=
  base64_decode_encode bytes : base64_decode (base64_encode bytes) = Some bytes.

Module Plan.
Import ConfigTypes IpAddr.

(** ** Data *)

(** A process argument: its exact bytes. *)
Record UnixArgument := mkUnixArgument { as_bytes : str }.

(** [environment::PortProtocol]. *)
Inductive PortProtocol := PortProtocol_Tcp | PortProtocol_Udp.
#[export] Instance PortProtocol_eq_dec : EqDecision PortProtocol.
Proof. solve_decision. Defined.

Inductive MountSource :=
  | Bind (path : str)
  | Volume (name : str)
  | Tmpfs.

Record MountPlan := mkMountPlan {
  mount_id : str;
  source : MountSource;
  target : str;
  mount_read_only : bool }.

Record PublishedPort := mkPublishedPort {
  port_id : str;
  host_ip : str;
  host_port : Z;
  container_port : Z;
  protocol : PortProtocol }.

Record SecretMount := mkSecretMount {
  secret_name : str;
  provider : str;
  secret_path : str;
  environment_name : option str }.

Record ProxyPlan := mkProxyPlan {
  proxy_name : str;
  proxy_image : str;
  proxy_network_name : str;
  egress_network_name : str;
  proxy_listen_port : Z;
  allow_hosts : list str;
  private_service_hosts : list str;
  authentication_required : bool;
  proxy_read_only : bool;
  proxy_cap_drop : list str;
  proxy_cap_add : list str }.

Record NetworkPlan := mkNetworkPlan {
  mode : NetworkMode;
  network_name : option str;
  proxy : option ProxyPlan }.

Record SidecarPlan := mkSidecarPlan {
  sidecar_name : str;
  sidecar_image : str;
  sidecar_entrypoint : option (list UnixArgument);
  sidecar_command : list UnixArgument;
  sidecar_env : bmap str;
  sidecar_mounts : list MountPlan;
  sidecar_remove : bool;
  sidecar_read_only : bool;
  sidecar_cap_drop : list str;
  sidecar_cap_add : list str;
  sidecar_security_opt : list str;
  sidecar_user : option str }.

Record ContainerPlan := mkContainerPlan {
  schema_version : Z;
  run_id : str;
  runtime : RuntimeKind;
  project_id : str;
  environment : str;
  name : str;
  image : str;
  entrypoint : option (list UnixArgument);
  command : list UnixArgument;
  workdir : str;
  env : bmap str;
  labels : bmap str;
  mounts : list MountPlan;
  ports : list PublishedPort;
  resources : ResourceValues;
  network : NetworkPlan;
  tty : bool;
  stdin : bool;
  remove : bool;
  read_only : bool;
  cap_drop : list str;
  cap_add : list str;
  security_opt : list str;
  user : option str;
  hostname : option str;
  secrets : list SecretMount;
  sidecars : list SidecarPlan }.

Inductive ContainerPlanError :=
  | UnsupportedPlanSchema (found : Z)
  | InvalidPlan (message : str)
  | InvalidNetwork (message : str)
  | DuplicateResource (name : str)
  | DuplicateMountTarget (target : str)
  | InvalidPort (id : str)
  | InvalidSecret (name : str)
  | Serialize (message : str).

(** ** Constructors *)

Definition SCHEMA_VERSION : Z := 1.
Definition default_cap_drop : list str := strs ["ALL"].

Definition offline (network_name : str) : NetworkPlan :=
  mkNetworkPlan NetworkMode_Offline (Some network_name) None.
Definition allowlist (network_name : str) (proxy : ProxyPlan) : NetworkPlan :=
  mkNetworkPlan NetworkMode_Allowlist (Some network_name) (Some proxy).
Definition bridge : NetworkPlan := mkNetworkPlan NetworkMode_Bridge None None.
Definition host : NetworkPlan := mkNetworkPlan NetworkMode_Host None None.

(** [ContainerPlan::new], with the fresh run id as an argument. *)
Definition new (run_id project_id environment name image : str) (command : list UnixArgument)
    (workdir : str) (network : NetworkPlan) : ContainerPlan := {|
  schema_version := SCHEMA_VERSION;
  run_id := run_id;
  runtime := RuntimeKind_Auto;
  project_id := project_id;
  environment := environment;
  name := name;
  image := image;
  entrypoint := None;
  command := command;
  workdir := workdir;
  env := [];
  labels := bcollect [("cs.fob.wtf.managed" : str, "true" : str);
                      ("cs.fob.wtf.project" : str, project_id);
                      ("cs.fob.wtf.run" : str, run_id)];
  mounts := [];
  ports := [];
  resources := ResourceValues_default;
  network := network;
  tty := true;
  stdin := true;
  remove := true;
  read_only := false;
  cap_drop := default_cap_drop;
  cap_add := [];
  security_opt := [];
  user := None;
  hostname := None;
  secrets := [];
  sidecars := [] |}.

(** ** Field validation *)

Definition valid_runtime_name (value : str) : bool :=
  nonempty value && (length value <=? 128)%nat
  && forallb (fun byte => is_lower byte || is_digit byte
                || is_byte "-" byte || is_byte "_" byte || is_byte "." byte) value
  && negb (starts_with "-" value || starts_with "." value)
  && negb (ends_with "-" value || ends_with "." value).

Definition validate_runtime_name (kind value : str) : result ContainerPlanError unit :=
  err_if (negb (valid_runtime_name value)) (InvalidPlan ("invalid " ++ kind ++ " name `" ++ value ++ "`")).

Definition contains_nul (self : UnixArgument) : bool := contains_byte NUL (as_bytes self).

Definition validate_argv (argv : list UnixArgument) (kind : str) : result ContainerPlanError unit :=
  err_if (existsb contains_nul argv) (InvalidPlan (kind ++ " contains a NUL byte")).

Definition validate_env (env : bmap str) : result ContainerPlanError unit :=
  match List.find (fun name => negb (valid_env_name name)) (bkeys env) with
  | Some name => Err (InvalidPlan ("invalid environment variable name `" ++ name ++ "`"))
  | None =>
      match List.find (fun kv : str * str => contains_byte NUL kv.2) env with
      | Some (name, _) => Err (InvalidPlan ("environment variable `" ++ name ++ "` contains a NUL byte"))
      | None => Ok tt
      end
  end.

(** The loop of [validate_mounts], with the ids and targets seen so far. *)
Fixpoint validate_mounts_from (ids targets : list str) (mounts : list MountPlan)
    : result ContainerPlanError unit :=
  match mounts with
  | [] => Ok tt
  | mount :: mounts' =>
      validate_runtime_name "mount" (mount_id mount) ;;
      err_if (memb (mount_id mount) ids) (DuplicateResource (mount_id mount)) ;;
      err_if (negb (is_ok (ContainerPath.new (target mount))) || (target mount =s? "/"))
        (InvalidPlan ("mount `" ++ mount_id mount ++ "` target must be an absolute non-root path")) ;;
      err_if (memb (target mount) targets) (DuplicateMountTarget (target mount)) ;;
      match source mount with
      | Bind path =>
          err_if (negb (is_absolute path))
            (InvalidPlan ("bind mount `" ++ mount_id mount ++ "` source must be absolute"))
      | Volume name => validate_runtime_name "volume" name
      | Tmpfs => Ok tt
      end ;;
      validate_mounts_from (mount_id mount :: ids) (target mount :: targets) mounts'
  end.
Definition validate_mounts : list MountPlan -> result ContainerPlanError unit :=
  validate_mounts_from [] [].

Fixpoint validate_ports_from (ids : list str) (bindings : list (IpAddr * Z * PortProtocol))
    (ports : list PublishedPort) : result ContainerPlanError unit :=
  match ports with
  | [] => Ok tt
  | port :: ports' =>
      validate_runtime_name "port" (port_id port) ;;
      err_if ((host_port port =? 0)%Z || (container_port port =? 0)%Z) (InvalidPort (port_id port)) ;;
      address ← ok_or (parse_ip (host_ip port)) (InvalidPort (port_id port));
      let binding := (address, host_port port, protocol port) in
      err_if (memb (port_id port) ids || memb binding bindings) (DuplicateResource (port_id port)) ;;
      validate_ports_from (port_id port :: ids) (binding :: bindings) ports'
  end.
Definition validate_ports : list PublishedPort -> result ContainerPlanError unit :=
  validate_ports_from [] [].

Fixpoint validate_secrets_from (names paths : list str) (secrets : list SecretMount)
    : result ContainerPlanError unit :=
  match secrets with
  | [] => Ok tt
  | secret :: secrets' =>
      validate_runtime_name "secret" (secret_name secret) ;;
      let container_path := ok (ContainerPath.new (secret_path secret)) in
      err_if (is_blank (provider secret)
              || is_none_or container_path
                   (fun path => negb (ContainerPath.path_starts_with path "/run/secrets"))
              || memb (secret_name secret) names
              || memb (secret_path secret) paths)
        (InvalidSecret (secret_name secret)) ;;
      err_if (is_some_and (environment_name secret) (fun name => negb (valid_env_name name)))
        (InvalidSecret (secret_name secret)) ;;
      validate_secrets_from (secret_name secret :: names) (secret_path secret :: paths) secrets'
  end.
Definition validate_secrets : list SecretMount -> result ContainerPlanError unit :=
  validate_secrets_from [] [].

(** ** Network validation *)

Definition valid_proxy_port (value : str) : bool :=
  (value =s? "*") || is_some_and (parse_u16 value) (fun port => negb (port =? 0)%Z).

Definition valid_proxy_rule (value : str) : bool :=
  if negb (nonempty value)
     || (contains_byte "/" value || contains_byte "@" value)
     || existsb (fun byte => is_ascii_whitespace byte || is_ascii_control byte) value
  then false
  else match strip_prefix "[" value with
       | Some remainder =>
           match split_once "]" remainder with
           | None => false
           | Some (host, suffix) =>
               bool_decide (is_Some (parse_ipv6 host))
               && (negb (nonempty suffix) || is_some_and (strip_prefix ":" suffix) valid_proxy_port)
           end
       | None =>
           if bool_decide (is_Some (parse_ipv6 value)) then true
           else
             let '(host, port) :=
               match rsplit_once ":" value with
               | Some (host, port) => (host, Some port)
               | None => (value, None)
               end in
             nonempty host && negb (contains_byte "*" host)
             && negb (contains_byte ":" host || contains_byte "[" host || contains_byte "]" host)
             && is_none_or port valid_proxy_port
       end.

Definition validate_proxy (proxy : ProxyPlan) : result ContainerPlanError unit :=
  validate_runtime_name "proxy" (proxy_name proxy) ;;
  validate_runtime_name "proxy egress network" (egress_network_name proxy) ;;
  err_if (is_blank (proxy_image proxy) || (proxy_listen_port proxy =? 0)%Z)
    (InvalidNetwork "proxy image cannot be empty and listen_port cannot be zero") ;;
  err_if (negb (authentication_required proxy))
    (InvalidNetwork "allowlist egress proxy authentication must be enabled") ;;
  err_if (egress_network_name proxy =s? proxy_network_name proxy)
    (InvalidNetwork "egress and workload networks must be distinct") ;;
  err_if (negb (proxy_read_only proxy)
          || negb (bool_decide (proxy_cap_drop proxy = strs ["ALL"]))
          || negb (length (proxy_cap_add proxy) =? 2)%nat
          || negb (existsb (fun capability => capability =s? "SETUID") (proxy_cap_add proxy))
          || negb (existsb (fun capability => capability =s? "SETGID") (proxy_cap_add proxy)))
    (InvalidNetwork "egress proxy must be read-only, drop ALL capabilities, and add only SETUID/SETGID for init bootstrap") ;;
  for_each (fun host =>
      err_if (negb (valid_proxy_rule (default host (strip_prefix "*." host))))
        (InvalidNetwork ("invalid proxy host rule `" ++ host ++ "`")))
    (allow_hosts proxy ++ private_service_hosts proxy).

Definition require_network_name (network : NetworkPlan) : result ContainerPlanError str :=
  ok_or (name ← network_name network; if is_blank name then None else Some name)
    (InvalidNetwork "offline and allowlist modes require a managed network name").

Definition NetworkPlan_validate (self : NetworkPlan) : result ContainerPlanError unit :=
  match mode self with
  | NetworkMode_Offline =>
      _ ← require_network_name self;
      err_if (bool_decide (is_Some (proxy self))) (InvalidNetwork "offline mode cannot have a proxy")
  | NetworkMode_Allowlist =>
      name ← require_network_name self;
      proxy ← ok_or (proxy self) (InvalidNetwork "allowlist mode requires an egress proxy");
      err_if (negb (proxy_network_name proxy =s? name))
        (InvalidNetwork ("proxy network `" ++ proxy_network_name proxy
                         ++ "` does not match workload network `" ++ name ++ "`")) ;;
      validate_proxy proxy
  | NetworkMode_Bridge | NetworkMode_Host =>
      err_if (bool_decide (is_Some (network_name self)) || bool_decide (is_Some (proxy self)))
        (InvalidNetwork "bridge and host modes cannot define a managed network or proxy")
  end.

(** ** Plan validation *)

Definition invalid_security_value (value : str) : bool :=
  negb (nonempty value) || contains_byte NUL value.

Fixpoint validate_sidecars_from (plan_name : str) (sidecar_names : list str)
    (sidecars : list SidecarPlan) : result ContainerPlanError unit :=
  match sidecars with
  | [] => Ok tt
  | sidecar :: sidecars' =>
      validate_runtime_name "sidecar" (sidecar_name sidecar) ;;
      err_if (memb (sidecar_name sidecar) sidecar_names || (sidecar_name sidecar =s? plan_name))
        (DuplicateResource (sidecar_name sidecar)) ;;
      err_if (is_blank (sidecar_image sidecar))
        (InvalidPlan ("sidecar `" ++ sidecar_name sidecar ++ "` image cannot be empty")) ;;
      validate_argv (sidecar_command sidecar) "sidecar command" ;;
      match sidecar_entrypoint sidecar with
      | Some entrypoint => validate_argv entrypoint "sidecar entrypoint"
      | None => Ok tt
      end ;;
      validate_env (sidecar_env sidecar) ;;
      validate_mounts (sidecar_mounts sidecar) ;;
      err_if (existsb invalid_security_value
                (sidecar_cap_drop sidecar ++ sidecar_cap_add sidecar ++ sidecar_security_opt sidecar))
        (InvalidPlan ("sidecar `" ++ sidecar_name sidecar ++ "` has an invalid security option")) ;;
      validate_sidecars_from plan_name (sidecar_name sidecar :: sidecar_names) sidecars'
  end.

Definition validate_entrypoint (entrypoint : option (list UnixArgument))
    : result ContainerPlanError unit :=
  match entrypoint with
  | Some entrypoint =>
      err_if (negb (nonempty entrypoint)) (InvalidPlan "entrypoint cannot be an empty array") ;;
      validate_argv entrypoint "entrypoint"
  | None => Ok tt
  end.

Definition validate (self : ContainerPlan) : result ContainerPlanError unit :=
  err_if (negb (schema_version self =? SCHEMA_VERSION)%Z) (UnsupportedPlanSchema (schema_version self)) ;;
  validate_runtime_name "container" (name self) ;;
  err_if (is_blank (project_id self) || is_blank (environment self))
    (InvalidPlan "project_id and environment cannot be empty") ;;
  err_if (is_blank (image self)) (InvalidPlan "image cannot be empty") ;;
  err_if (negb (is_ok (ContainerPath.new (workdir self))))
    (InvalidPlan ("workdir must be absolute: " ++ workdir self)) ;;
  validate_argv (command self) "command" ;;
  validate_entrypoint (entrypoint self) ;;
  validate_env (env self) ;;
  validate_mounts (mounts self) ;;
  validate_ports (ports self) ;;
  map_err InvalidPlan (ResourceLimits_validate (resources self)) ;;
  validate_secrets (secrets self) ;;
  NetworkPlan_validate (network self) ;;
  err_if (bool_decide (mode (network self) = NetworkMode_Host) && nonempty (ports self))
    (InvalidNetwork "host networking cannot be combined with published ports") ;;
  validate_sidecars_from (name self) [] (sidecars self).

(** ** Argument encoding *)

(** What the human-readable formats hold for an argument. *)
Inductive Representation :=
  | Utf8 (value : str)
  | UnixBase64 (unix_base64 : str).

Definition UnixArgument_serialize `{Base64} (self : UnixArgument) : Representation :=
  if utf8_valid (as_bytes self) then Utf8 (as_bytes self)
  else UnixBase64 (base64_encode (as_bytes self)).

Definition UnixArgument_deserialize `{Base64} (value : Representation) : option UnixArgument :=
  match value with
  | Utf8 value => Some (mkUnixArgument value)
  | UnixBase64 encoded => mkUnixArgument <$> base64_decode encoded
  end.

(** ** Resource lifecycle *)

Inductive ResourceKind := Container | Sidecar | Network | VolumeResource | Worktree.

Inductive LifecycleState :=
  Planned | Creating | Running | Stopping | Stopped | Removing | Removed | Failed.
#[export] Instance LifecycleState_eq_dec : EqDecision LifecycleState.
Proof. solve_decision. Defined.

Record ManagedResource := mkManagedResource {
  resource_kind : ResourceKind;
  resource_name : str;
  resource_labels : bmap str;
  state : LifecycleState }.

Record LifecycleError := mkLifecycleError {
  resource : str;
  current : LifecycleState;
  requested : LifecycleState }.

Definition transition_allowed (current next : LifecycleState) : bool :=
  match current, next with
  | Planned, (Creating | Removing) => true
  | Creating, (Running | Failed | Removing) => true
  | Running, (Stopping | Failed) => true
  | Stopping, (Stopped | Failed) => true
  | (Stopped | Failed), Removing => true
  | Removing, (Removed | Failed) => true
  | _, _ => false
  end.

(** [transition(&mut self, next)]: the new state of the resource, or the error
    with the resource as it was. *)
Definition transition (self : ManagedResource) (next : LifecycleState)
    : result LifecycleError ManagedResource :=
  err_if (negb (transition_allowed (state self) next))
    (mkLifecycleError (resource_name self) (state self) next) ;;
  Ok (mkManagedResource (resource_kind self) (resource_name self) (resource_labels self) next).

(** ** Specification of a valid plan *)

Definition runtime_name (w : str) : Prop := valid_runtime_name w = true.
Definition no_nul (w : str) : Prop := NUL ∉ w.

Definition argv_ok (argv : list UnixArgument) : Prop := Forall (fun a => no_nul (as_bytes a)) argv.
Definition env_ok (env : bmap str) : Prop :=
  Forall (fun kv : str * str => valid_env_name kv.1 = true /\ no_nul kv.2) env.

(** A path of the container other than its root. *)
Definition below_root (path : str) : Prop :=
  exists p, ContainerPath.new path = Ok p /\ ContainerPath.is_root p = false.

Definition mount_ok (m : MountPlan) : Prop :=
  runtime_name (mount_id m) /\ below_root (target m) /\
  match source m with
  | Bind path => is_absolute path = true
  | Volume name => runtime_name name
  | Tmpfs => True
  end.
Definition mounts_ok (ms : list MountPlan) : Prop :=
  Forall mount_ok ms /\ NoDup (map mount_id ms) /\ NoDup (map target ms).

Definition port_binding (p : PublishedPort) : option IpAddr * Z * PortProtocol :=
  (parse_ip (host_ip p), host_port p, protocol p).
Definition port_ok (p : PublishedPort) : Prop :=
  runtime_name (port_id p) /\ host_port p <> 0%Z /\ container_port p <> 0%Z /\
  is_Some (parse_ip (host_ip p)).
Definition ports_ok (ps : list PublishedPort) : Prop :=
  Forall port_ok ps /\ NoDup (map port_id ps) /\ NoDup (map port_binding ps).

Definition secret_ok (s : SecretMount) : Prop :=
  runtime_name (secret_name s) /\ is_blank (provider s) = false /\
  (exists p, ContainerPath.new (secret_path s) = Ok p /\
     ContainerPath.path_starts_with p "/run/secrets" = true) /\
  (forall n, environment_name s = Some n -> valid_env_name n = true).
Definition secrets_ok (ss : list SecretMount) : Prop :=
  Forall secret_ok ss /\ NoDup (map secret_name ss) /\ NoDup (map secret_path ss).

(** The proxy of an allow-list network is authenticated, hardened and on two
    distinct networks. *)
Definition proxy_ok (p : ProxyPlan) : Prop :=
  runtime_name (proxy_name p) /\ runtime_name (egress_network_name p) /\
  is_blank (proxy_image p) = false /\ proxy_listen_port p <> 0%Z /\
  authentication_required p = true /\ egress_network_name p <> proxy_network_name p /\
  proxy_read_only p = true /\ proxy_cap_drop p = strs ["ALL"] /\
  proxy_cap_add p ≡ₚ strs ["SETUID"; "SETGID"] /\
  Forall (fun h => valid_proxy_rule (default h (strip_prefix "*." h)) = true)
    (allow_hosts p ++ private_service_hosts p).

Definition network_ok (n : NetworkPlan) : Prop :=
  match mode n with
  | NetworkMode_Offline =>
      (exists w, network_name n = Some w /\ is_blank w = false) /\ proxy n = None
  | NetworkMode_Allowlist =>
      exists w p, network_name n = Some w /\ is_blank w = false /\ proxy n = Some p /\
        proxy_network_name p = w /\ proxy_ok p
  | NetworkMode_Bridge | NetworkMode_Host => network_name n = None /\ proxy n = None
  end.

Definition sidecar_ok (s : SidecarPlan) : Prop :=
  runtime_name (sidecar_name s) /\ is_blank (sidecar_image s) = false /\
  argv_ok (sidecar_command s) /\ (forall e, sidecar_entrypoint s = Some e -> argv_ok e) /\
  env_ok (sidecar_env s) /\ mounts_ok (sidecar_mounts s) /\
  Forall (fun w => w <> [] /\ no_nul w)
    (sidecar_cap_drop s ++ sidecar_cap_add s ++ sidecar_security_opt s).

Record plan_ok (p : ContainerPlan) : Prop := {
  ok_schema : schema_version p = SCHEMA_VERSION;
  ok_name : runtime_name (name p);
  ok_project : is_blank (project_id p) = false;
  ok_environment : is_blank (environment p) = false;
  ok_image : is_blank (image p) = false;
  ok_workdir : exists w, ContainerPath.new (workdir p) = Ok w;
  ok_command : argv_ok (command p);
  ok_entrypoint : forall e, entrypoint p = Some e -> e <> [] /\ argv_ok e;
  ok_env : env_ok (env p);
  ok_mounts : mounts_ok (mounts p);
  ok_ports : ports_ok (ports p);
  ok_resources : resources_ok true (resources p);
  ok_secrets : secrets_ok (secrets p);
  ok_network : network_ok (network p);
  ok_host_ports : mode (network p) = NetworkMode_Host -> ports p = [];
  ok_sidecars : Forall sidecar_ok (sidecars p) /\ NoDup (name p :: map sidecar_name (sidecars p)) }.

(** ** Lemmas *)

Lemma validate_runtime_name_Ok k w u : validate_runtime_name k w = Ok u <-> runtime_name w.
Proof. unfold validate_runtime_name. rewrite err_if_Ok. apply negb_false_iff. Qed.

Lemma no_nul_spec w : contains_byte NUL w = false <-> no_nul w.
Proof. apply contains_byte_false. Qed.

Lemma validate_argv_Ok a k u : validate_argv a k = Ok u <-> argv_ok a.
Proof.
  unfold validate_argv, argv_ok. rewrite err_if_Ok, existsb_false.
  apply Forall_proper; [|done]. intros x. apply no_nul_spec.
Qed.

Lemma find_none_Forall {A} (p : A -> bool) l : List.find p l = None <-> Forall (fun x => p x = false) l.
Proof.
  induction l as [|x l IH]; cbn; [done|]. rewrite Forall_cons. destruct (p x); [by split; [|intros [? _]]|].
  rewrite IH. tauto.
Qed.

Lemma validate_env_Ok e u : validate_env e = Ok u <-> env_ok e.
Proof.
  destruct u. unfold validate_env, env_ok. rewrite Forall_and.
  assert (List.find (fun name => negb (valid_env_name name)) (bkeys e) = None <->
          Forall (fun kv : str * str => valid_env_name kv.1 = true) e) as H1.
  { rewrite find_none_Forall. unfold bkeys. rewrite Forall_map.
    apply Forall_proper; [|done]. intros x. apply negb_false_iff. }
  assert (List.find (fun kv : str * str => contains_byte NUL kv.2) e = None <->
          Forall (fun kv : str * str => no_nul kv.2) e) as H2.
  { rewrite find_none_Forall. apply Forall_proper; [|done]. intros x. apply no_nul_spec. }
  rewrite <- H1, <- H2.
  destruct (List.find _ (bkeys e)); [split; [done|by intros [? _]]|].
  destruct (List.find _ e) as [[]|]; split; try done. by intros [_ ?].
Qed.

Lemma new_Ok w p : ContainerPath.new w = Ok p -> ContainerPath.as_str p = w.
Proof.
  unfold ContainerPath.new. rewrite bind_Ok. intros (v & Hv & H). apply ok_or_Ok in Hv.
  destruct (utf8_valid w); [|done]. injection Hv as <-. by apply ContainerPath.parse_valid in H as [_ ?].
Qed.

Lemma below_root_spec w : negb (is_ok (ContainerPath.new w)) || (w =s? "/") = false <-> below_root w.
Proof.
  unfold below_root, ContainerPath.is_root. rewrite orb_false_iff, negb_false_iff.
  destruct (ContainerPath.new w) as [p|] eqn:E; cbn [is_ok].
  - apply new_Ok in E as <-. split; [intros [_ ?]; eauto|intros (? & [= <-] & ?); done].
  - split; [by intros [? _]|by intros (? & ? & _)].
Qed.

Lemma validate_mounts_from_Ok ids ts ms u :
  validate_mounts_from ids ts ms = Ok u <->
  Forall mount_ok ms /\ fresh mount_id ids ms /\ fresh target ts ms.
Proof.
  destruct u. revert ids ts. induction ms as [|m ms IH]; intros ids ts; cbn [validate_mounts_from].
  { split; [|done]. intros _. split_and!; [constructor|apply fresh_nil..]. }
  rewrite !bind_unit_Ok, !err_if_Ok, IH, Forall_cons, !fresh_cons, !memb_false,
    validate_runtime_name_Ok, below_root_spec. unfold mount_ok.
  assert (match source m with
    | Bind path => err_if (negb (is_absolute path)) (InvalidPlan ("bind mount `" ++ mount_id m ++ "` source must be absolute"))
    | Volume name => validate_runtime_name "volume" name
    | Tmpfs => Ok tt end = Ok tt <->
    match source m with
    | Bind path => is_absolute path = true | Volume name => runtime_name name | Tmpfs => True end) as ->.
  { destruct (source m); [by rewrite err_if_Ok, negb_false_iff|apply validate_runtime_name_Ok|done]. }
  tauto.
Qed.

Lemma validate_mounts_Ok ms u : validate_mounts ms = Ok u <-> mounts_ok ms.
Proof. unfold validate_mounts, mounts_ok. by rewrite validate_mounts_from_Ok, !fresh_start. Qed.

Lemma validate_ports_from_Ok ids bs ps u :
  validate_ports_from ids bs ps = Ok u <->
  Forall port_ok ps /\ fresh port_id ids ps /\
  fresh port_binding (map (fun b : IpAddr * Z * PortProtocol => (Some b.1.1, b.1.2, b.2)) bs) ps.
Proof.
  destruct u. revert ids bs. induction ps as [|p ps IH]; intros ids bs; cbn [validate_ports_from].
  { split; [|done]. intros _. split_and!; [constructor|apply fresh_nil..]. }
  rewrite !bind_unit_Ok, err_if_Ok, orb_false_iff, !Z.eqb_neq, bind_Ok, Forall_cons, !fresh_cons,
    validate_runtime_name_Ok. unfold port_ok.
  destruct (parse_ip (host_ip p)) as [a|] eqn:Ea; cbn [ok_or].
  2: { split; [intros (_ & _ & ? & ? & _); done|]. intros [[(_ & _ & _ & [? ?]) _] _]. done. }
  setoid_rewrite bind_unit_Ok. setoid_rewrite err_if_Ok. setoid_rewrite orb_false_iff.
  setoid_rewrite memb_false. setoid_rewrite IH.
  assert (port_binding p ∈ map (fun b : IpAddr * Z * PortProtocol => (Some b.1.1, b.1.2, b.2)) bs
          <-> (a, host_port p, protocol p) ∈ bs) as Hb.
  { unfold port_binding. rewrite Ea, list_elem_of_fmap. split.
    - by intros ([[? ?] ?] & [= -> -> ->] & ?).
    - intros H. by exists (a, host_port p, protocol p). }
  rewrite Hb. cbn [map fst snd]. assert (port_binding p = (Some a, host_port p, protocol p)) as ->.
  { unfold port_binding. by rewrite Ea. }
  assert (is_Some (Some a)) by eauto. split.
  - intros (? & ? & a' & [= <-] & ?). tauto.
  - intros. split; [tauto|]. split; [tauto|]. exists a. tauto.
Qed.

Lemma validate_ports_Ok ps u : validate_ports ps = Ok u <-> ports_ok ps.
Proof.
  unfold validate_ports, ports_ok. rewrite validate_ports_from_Ok. cbn [map]. by rewrite !fresh_start.
Qed.

Lemma validate_secrets_from_Ok ns ps ss u :
  validate_secrets_from ns ps ss = Ok u <->
  Forall secret_ok ss /\ fresh secret_name ns ss /\ fresh secret_path ps ss.
Proof.
  destruct u. revert ns ps. induction ss as [|s ss IH]; intros ns ps; cbn [validate_secrets_from].
  { split; [|done]. intros _. split_and!; [constructor|apply fresh_nil..]. }
  cbv zeta. rewrite !bind_unit_Ok, !err_if_Ok, IH, Forall_cons, !fresh_cons, !orb_false_iff, !memb_false,
    validate_runtime_name_Ok. unfold secret_ok.
  assert (is_none_or (ok (ContainerPath.new (secret_path s)))
            (fun path => negb (ContainerPath.path_starts_with path "/run/secrets")) = false <->
          exists p, ContainerPath.new (secret_path s) = Ok p /\
            ContainerPath.path_starts_with p "/run/secrets" = true) as ->.
  { destruct (ContainerPath.new (secret_path s)) as [p|]; cbn.
    - rewrite negb_false_iff. split; [eauto|]. by intros (? & [= <-] & ?).
    - split; [done|]. by intros (? & ? & _). }
  assert (is_some_and (environment_name s) (fun name => negb (valid_env_name name)) = false <->
          forall n, environment_name s = Some n -> valid_env_name n = true) as ->.
  { destruct (environment_name s); cbn; [rewrite negb_false_iff|]; split; try done.
    - by intros ? ? [= <-].
    - auto. }
  tauto.
Qed.

Lemma validate_secrets_Ok ss u : validate_secrets ss = Ok u <-> secrets_ok ss.
Proof. unfold validate_secrets, secrets_ok. by rewrite validate_secrets_from_Ok, !fresh_start. Qed.

(** Two capabilities that include both names are those two. *)
Lemma two_caps (l : list str) (a b : str) :
  a <> b -> (length l = 2%nat /\ a ∈ l /\ b ∈ l) <-> l ≡ₚ [a; b].
Proof.
  intros Hab. split.
  - intros (Hl & Ha & Hb). destruct l as [|x [|y [|]]]; try done.
    rewrite !elem_of_cons, elem_of_nil in Ha, Hb.
    destruct Ha as [->|[->|[]]], Hb as [->|[->|[]]]; try done. apply Permutation_swap.
  - intros H. rewrite H. split; [done|]. split; set_solver.
Qed.

Lemma validate_proxy_Ok p u : validate_proxy p = Ok u <-> proxy_ok p.
Proof.
  destruct u. unfold validate_proxy, proxy_ok.
  rewrite !bind_unit_Ok, !err_if_Ok, for_each_Ok, !orb_false_iff, !negb_false_iff, Z.eqb_neq,
    !validate_runtime_name_Ok, str_eqb_neq, bool_decide_eq_true, Nat.eqb_eq.
  setoid_rewrite err_if_Ok. setoid_rewrite negb_false_iff.
  assert (forall c : string, existsb (fun capability : str => capability =s? c) (proxy_cap_add p) = true
            <-> (c : str) ∈ proxy_cap_add p) as He.
  { intros c. rewrite existsb_Exists, Exists_exists. setoid_rewrite str_eqb_eq. naive_solver. }
  rewrite !He. cbn [strs map]. rewrite <- two_caps by done. tauto.
Qed.

Lemma require_network_name_Ok n w :
  require_network_name n = Ok w <-> network_name n = Some w /\ is_blank w = false.
Proof.
  unfold require_network_name. rewrite ok_or_Ok, bind_Some. split.
  - intros (x & -> & H). destruct (is_blank x) eqn:E; [done|]. by injection H as <-.
  - intros [-> H]. exists w. by rewrite H.
Qed.

Lemma NetworkPlan_validate_Ok n u : NetworkPlan_validate n = Ok u <-> network_ok n.
Proof.
  destruct u. unfold NetworkPlan_validate, network_ok.
  assert (forall A (o : option A), bool_decide (is_Some o) = false <-> o = None) as Hn.
  { intros A o. by rewrite bool_decide_eq_false, <- eq_None_not_Some. }
  destruct (mode n).
  - rewrite bind_Ok. setoid_rewrite err_if_Ok. setoid_rewrite require_network_name_Ok.
    setoid_rewrite Hn. naive_solver.
  - rewrite bind_Ok. setoid_rewrite bind_Ok. setoid_rewrite bind_unit_Ok. setoid_rewrite err_if_Ok.
    setoid_rewrite negb_false_iff. setoid_rewrite str_eqb_eq. setoid_rewrite validate_proxy_Ok.
    setoid_rewrite require_network_name_Ok. setoid_rewrite ok_or_Ok.
    split; [intros (w & [? ?] & p & ? & ? & ?)|intros (w & p & ? & ? & ? & ? & ?)]; eauto 10.
  - rewrite err_if_Ok, orb_false_iff, !Hn. done.
  - rewrite err_if_Ok, orb_false_iff, !Hn. done.
Qed.

Lemma validate_sidecars_from_Ok n seen ss u :
  validate_sidecars_from n seen ss = Ok u <->
  Forall sidecar_ok ss /\ fresh sidecar_name seen ss /\ Forall (fun s => sidecar_name s <> n) ss.
Proof.
  destruct u. revert seen. induction ss as [|s ss IH]; intros seen; cbn [validate_sidecars_from].
  { split; [|done]. intros _. split_and!; [constructor|apply fresh_nil|constructor]. }
  rewrite !bind_unit_Ok, !err_if_Ok, IH, !Forall_cons, fresh_cons, orb_false_iff, memb_false, str_eqb_neq,
    validate_runtime_name_Ok, validate_argv_Ok, validate_env_Ok, validate_mounts_Ok.
  unfold sidecar_ok.
  assert (match sidecar_entrypoint s with Some entrypoint => validate_argv entrypoint "sidecar entrypoint"
          | None => Ok tt end = Ok tt <-> forall e, sidecar_entrypoint s = Some e -> argv_ok e) as ->.
  { destruct (sidecar_entrypoint s); [rewrite validate_argv_Ok|]; split; try done; [by intros ? ? [= <-]|auto]. }
  assert (existsb invalid_security_value
            (sidecar_cap_drop s ++ sidecar_cap_add s ++ sidecar_security_opt s) = false <->
          Forall (fun w => w <> [] /\ no_nul w)
            (sidecar_cap_drop s ++ sidecar_cap_add s ++ sidecar_security_opt s)) as ->.
  { rewrite existsb_false. apply Forall_proper; [|done]. intros w. unfold invalid_security_value.
    rewrite orb_false_iff, negb_false_iff, no_nul_spec. destruct w; cbn; split; by intros [? ?]. }
  tauto.
Qed.

Lemma validate_spec p u : validate p = Ok u <-> plan_ok p.
Proof.
  destruct u. unfold validate.
  rewrite !bind_unit_Ok, !err_if_Ok, !orb_false_iff, !negb_false_iff, Z.eqb_eq, map_err_Ok,
    validate_runtime_name_Ok, validate_argv_Ok, validate_env_Ok, validate_mounts_Ok, validate_ports_Ok,
    validate_secrets_Ok, NetworkPlan_validate_Ok, validate_sidecars_from_Ok, fresh_start.
  unfold ResourceLimits_validate. rewrite validate_resources_spec.
  assert (is_ok (ContainerPath.new (workdir p)) = true <-> exists w, ContainerPath.new (workdir p) = Ok w) as ->.
  { destruct (ContainerPath.new (workdir p)); cbn; split; eauto; [done|]. by intros [? ?]. }
  assert (validate_entrypoint (entrypoint p) = Ok tt <->
          forall e, entrypoint p = Some e -> e <> [] /\ argv_ok e) as ->.
  { unfold validate_entrypoint. destruct (entrypoint p) as [e|]; [|done].
    rewrite bind_unit_Ok, err_if_Ok, negb_false_iff, validate_argv_Ok.
    split; [intros [? ?] ? [= <-]; by destruct e|]. intros H. destruct (H e eq_refl) as [? ?]. by destruct e. }
  assert (bool_decide (mode (network p) = NetworkMode_Host) && nonempty (ports p) = false <->
          (mode (network p) = NetworkMode_Host -> ports p = [])) as ->.
  { case_bool_decide; [|done]. cbn [andb]. destruct (ports p); cbn; split; try done. intros H'. by specialize (H' H). }
  assert (NoDup (name p :: map sidecar_name (sidecars p)) <->
          NoDup (map sidecar_name (sidecars p)) /\ Forall (fun s => sidecar_name s <> name p) (sidecars p)) as Hn.
  { rewrite NoDup_cons, list_elem_of_fmap, Forall_forall. naive_solver. }
  split.
  - intros (? & ? & [? ?] & ? & ? & ? & ? & ? & ? & ? & ? & ? & ? & ? & ? & ? & ?). constructor; try done. by rewrite Hn.
  - intros []. destruct ok_sidecars0 as [? ?%Hn]. tauto.
Qed.

(** ** The lifecycle as a step relation *)

Inductive step : ManagedResource -> ManagedResource -> Prop :=
  | step_transition r next r' : transition r next = Ok r' -> step r r'.

(** How far a resource is along its life. *)
Definition phase (s : LifecycleState) : nat :=
  match s with
  | Planned => 0 | Creating => 1 | Running => 2 | Stopping => 3 | Stopped => 4
  | Failed | Removing => 5 | Removed => 6
  end.

Lemma transition_Ok r next r' :
  transition r next = Ok r' <->
  transition_allowed (state r) next = true /\
  r' = mkManagedResource (resource_kind r) (resource_name r) (resource_labels r) next.
Proof.
  unfold transition. rewrite err_if_bind_Ok, negb_false_iff. split; intros [? H]; (split; [done|]);
    [by injection H as <-|by subst].
Qed.

Lemma transition_allowed_phase s s' :
  transition_allowed s s' = true -> (phase s <= phase s')%nat /\ s <> Removed.
Proof. destruct s, s'; cbn; (discriminate || (intros _; split; [lia|discriminate])). Qed.

Lemma step_phase r r' :
  step r r' ->
  (phase (state r) <= phase (state r'))%nat /\ state r <> Removed /\
  resource_kind r' = resource_kind r /\ resource_name r' = resource_name r /\
  resource_labels r' = resource_labels r.
Proof. intros [r0 next r0' [H ->]%transition_Ok]. by apply transition_allowed_phase in H as [? ?]. Qed.

Lemma step_to r next :
  transition_allowed (state r) next = true -> exists r', step r r' /\ state r' = next.
Proof.
  intros H. eexists. split; [by apply (step_transition r next), transition_Ok|done].
Qed.

(** From any state but [Removed] some path removes the resource: fail or stop
    if it runs, then remove. *)
Definition next_towards_removal (s : LifecycleState) : LifecycleState :=
  match s with
  | Planned | Creating | Stopped | Failed => Removing
  | Running => Stopping
  | Stopping => Stopped
  | Removing | Removed => Removed
  end.

Lemma removal_reachable n r :
  state r <> Removed -> (match state r with Running => 4 | Stopping => 3 | Removing => 1 | _ => 2 end <= n)%nat ->
  exists r', rtc step r r' /\ state r' = Removed.
Proof.
  revert r. induction n as [|n IH]; intros r Hr Hn; [destruct (state r); lia|].
  destruct (step_to r (next_towards_removal (state r))) as (r1 & Hs & E).
  { destruct (state r); done. }
  destruct (decide (state r1 = Removed)) as [H1|H1].
  { exists r1. split; [by apply rtc_once|done]. }
  destruct (IH r1 H1) as (r' & Hr' & ?).
  { rewrite E. destruct (state r); cbn in *; (lia || congruence). }
  exists r'. split; [by eapply rtc_l|done].
Qed.

(** ** Properties *)

(** C1: [validate] accepts exactly the well-formed plans: every name, path,
    argument, environment entry, mount, port, secret, resource limit and
    sidecar obeys its rule, all identifiers, mount targets, port bindings and
    secret paths are pairwise distinct, an allow-list network has an
    authenticated, read-only proxy that drops ALL capabilities and sits on two
    distinct networks, and host networking publishes no port. *)
Theorem validate_exact (p : ContainerPlan) : validate p = Ok tt <-> plan_ok p.
Proof. apply validate_spec. Qed.

(** The lifecycle is monotonic: no sequence of transitions goes back to an
    earlier phase or changes what the resource is, [Removed] is final, and
    until then removal always remains reachable. *)
Theorem lifecycle_monotonic (r r' : ManagedResource) :
  rtc step r r' ->
  (phase (state r) <= phase (state r'))%nat /\
  resource_kind r' = resource_kind r /\ resource_name r' = resource_name r /\
  resource_labels r' = resource_labels r /\
  (state r = Removed -> r' = r) /\
  (state r' <> Removed -> exists r'', rtc step r' r'' /\ state r'' = Removed).
Proof.
  intros H. split_and!; [..|by intros; apply (removal_reachable 4); [|destruct (state r'); lia]].
  all: induction H as [|r r1 r2 Hs H IH]; [done|]; apply step_phase in Hs as (? & ? & ? & ? & ?).
  - lia.
  - congruence.
  - congruence.
  - congruence.
  - done.
Qed.

Lemma lifecycle_monotonic_witness :
  let r s := mkManagedResource Container "run-1" [] s in
  rtc step (r Planned) (r Running) /\ (phase Planned <= phase Running)%nat.
Proof.
  intros r.
  assert (rtc step (r Planned) (r Running)) as H.
  { eapply rtc_l; [apply (step_transition _ Creating); vm_compute; reflexivity|].
    eapply rtc_l; [apply (step_transition _ Running); vm_compute; reflexivity|apply rtc_refl]. }
  split; [exact H|]. exact (proj1 (lifecycle_monotonic _ _ H)).
Defined.

(** An argument of any bytes survives the human-readable encoding: valid
    UTF-8 is written as a plain string, anything else as base64, and reading
    it back gives the same bytes. *)
Theorem argument_roundtrip (B : Base64) (BL : Base64Laws B) (a : UnixArgument) :
  UnixArgument_deserialize (UnixArgument_serialize a) = Some a /\
  (UnixArgument_serialize a = Utf8 (as_bytes a) <-> utf8_valid (as_bytes a) = true).
Proof.
  destruct a as [bytes]. unfold UnixArgument_serialize. cbn [as_bytes].
  destruct (utf8_valid bytes) eqn:E; [done|]. split; [|done].
  cbn. by rewrite base64_decode_encode.
Qed.

Definition reversal_code : Base64 := {| base64_encode := reverse; base64_decode := fun s => Some (reverse s) |}.
Lemma reversal_code_laws : Base64Laws reversal_code.
Proof. intros bytes. exact (f_equal Some (reverse_involutive bytes)). Qed.

Lemma argument_roundtrip_witness :
  let a := mkUnixArgument (map byte_at [102; 255]%Z) in
  utf8_valid (as_bytes a) = false /\
  @UnixArgument_deserialize reversal_code (@UnixArgument_serialize reversal_code a) = Some a.
Proof.
  split; [vm_compute; reflexivity|].
  apply (argument_roundtrip reversal_code reversal_code_laws).
Defined.

End Plan.
