(* ===== verification/Toml.v ===== *)
(** * TOML values ([toml::Value]) and dotted-path insertion

    The dynamic values the configuration merges, with lookup along a list of
    keys.  A table is a [BTreeMap], so its entries are in key order.  A float
    or date-time is the text it prints as.  [insert_toml_path] is the one
    operation of [codex-start-core/src/config.rs] that builds tables from
    environment variables. *)

From S2P Require Export BMap.

Module Toml.

Inductive Value :=
  | String (s : str)
  | Integer (n : Z)
  | Float (text : str)
  | Boolean (b : bool)
  | Datetime (text : str)
  | Array (values : list Value)
  | Table (table : list (str * Value)).

(** Induction over nested arrays and tables. *)
Section Value_induction.
Variable P : Value -> Prop.
Hypothesis HString : forall s, P (String s).
Hypothesis HInteger : forall n, P (Integer n).
Hypothesis HFloat : forall t, P (Float t).
Hypothesis HBoolean : forall b, P (Boolean b).
Hypothesis HDatetime : forall t, P (Datetime t).
Hypothesis HArray : forall vs, Forall P vs -> P (Array vs).
Hypothesis HTable : forall t : list (str * Value), Forall (fun kv => P kv.2) t -> P (Table t).

Fixpoint Value_nested_ind (v : Value) : P v :=
  match v with
  | String s => HString s
  | Integer n => HInteger n
  | Float t => HFloat t
  | Boolean b => HBoolean b
  | Datetime t => HDatetime t
  | Array vs =>
      HArray vs ((fix go vs : Forall P vs :=
        match vs with
        | [] => Forall_nil_2 _
        | v :: vs' => Forall_cons_2 _ _ _ (Value_nested_ind v) (go vs')
        end) vs)
  | Table t =>
      HTable t ((fix go (t : list (str * Value)) : Forall (fun kv => P kv.2) t :=
        match t with
        | [] => Forall_nil_2 _
        | kv :: t' => Forall_cons_2 (fun kv => P kv.2) _ _ (Value_nested_ind kv.2) (go t')
        end) t)
  end.
End Value_induction.

Definition as_str (v : Value) : option str := match v with String s => Some s | _ => None end.
Definition as_integer (v : Value) : option Z := match v with Integer n => Some n | _ => None end.
Definition is_table (v : Value) : bool := match v with Table _ => true | _ => false end.

(** ** Paths of keys *)

(** What a walk along a list of keys meets. *)
Inductive walked :=
  | Found (v : Value)
  | Missing
  | Blocked.

(** [Missing]: some table on the way lacks the next key; [Blocked]: a value
    that is not a table is met before the end of the path. *)
Fixpoint walk (v : Value) (ks : list str) : walked :=
  match ks with
  | [] => Found v
  | k :: ks' =>
      match v with
      | Table t => match bget k t with Some w => walk w ks' | None => Missing end
      | _ => Blocked
      end
  end.

(** The value that is not a table at a path. *)
Definition leaf_at (v : Value) (ks : list str) : option Value :=
  match walk v ks with Found w => if is_table w then None else Some w | _ => None end.

(** Every table is sorted and its keys satisfy [K]. *)
Inductive wf (K : str -> Prop) : Value -> Prop :=
  | wf_leaf v : is_table v = false -> wf K v
  | wf_table t : bsorted t -> Forall (fun kv => K kv.1 /\ wf K kv.2) t -> wf K (Table t).

Lemma wf_Table K t : wf K (Table t) <-> bsorted t /\ Forall (fun kv => K kv.1 /\ wf K kv.2) t.
Proof. split; [by inversion 1|]. intros [? ?]. by constructor. Qed.

Lemma wf_bget K t k v : wf K (Table t) -> bget k t = Some v -> K k /\ wf K v.
Proof.
  intros [_ H]%wf_Table Hk%bget_elem_of. rewrite Forall_forall in H. exact (H (k, v) Hk).
Qed.

Lemma wf_binsert K t k v : wf K (Table t) -> K k -> wf K v -> wf K (Table (binsert k v t)).
Proof.
  intros [Hs Ht]%wf_Table Hk Hv. apply wf_Table. split; [by apply bsorted_binsert|].
  clear Hs. induction Ht as [|[k' v'] t [Hk' Hv'] Ht IH]; cbn.
  { apply Forall_singleton. by split. }
  destruct (str_compare k k'); rewrite ?Forall_cons; cbn; auto.
Qed.

Lemma walk_app v ks ks' :
  walk v (ks ++ ks') = match walk v ks with Found w => walk w ks' | r => r end.
Proof.
  revert v. induction ks as [|k ks IH]; intros v; cbn; [done|].
  destruct v; try done. by destruct (bget k table).
Qed.

(** ** [insert_toml_path] *)

Fixpoint insert_toml_path (table : bmap Value) (segments : list str) (value : Value)
    : option (bmap Value) :=
  match segments with
  | [] => None
  | [head] => if bcontains head table then None else Some (binsert head value table)
  | head :: tail =>
      match default (Table []) (bget head table) with
      | Table child =>
          child ← insert_toml_path child tail value;
          Some (binsert head (Table child) table)
      | _ => None
      end
  end.

(** Insertion sets the new path, and every other path keeps its value. *)
Lemma insert_toml_path_walk t segs v t' :
  insert_toml_path t segs v = Some t' ->
  walk (Table t') segs = Found v /\
  (forall ks, ~ segs `prefix_of` ks -> leaf_at (Table t') ks = leaf_at (Table t) ks).
Proof.
  revert t t'. induction segs as [|k segs IH]; intros t t'; [done|].
  destruct segs as [|k2 segs].
  - cbn [insert_toml_path]. destruct (bcontains k t) eqn:Hc; [done|]. intros [= <-].
    assert (bget k t = None) as Hnone.
    { unfold bcontains in Hc. bool_split. by apply eq_None_not_Some. }
    split; [cbn; by rewrite bget_binsert, bool_decide_eq_true_2|].
    intros [|k' ks] Hp; [done|]. unfold leaf_at. cbn [walk]. rewrite bget_binsert.
    case_bool_decide as Hk; [|done]. subst. destruct Hp. by exists ks.
  - intros H. remember (k2 :: segs) as segs' eqn:Es. cbn [insert_toml_path] in H. rewrite Es in H at 1.
    destruct (default (Table []) (bget k t)) as [| | | | | |child] eqn:Ec; try done.
    apply bind_Some in H as (child' & Hc & [= <-]).
    destruct (IH _ _ Hc) as [Hw Hrest]. cbn [walk]. rewrite bget_binsert, bool_decide_eq_true_2 by done.
    split; [done|]. intros [|k' ks] Hp; [done|]. unfold leaf_at. cbn [walk]. rewrite bget_binsert.
    case_bool_decide as Hk; [|done]. subst k'.
    assert (~ segs' `prefix_of` ks) as Hp' by (intros [r ->]; apply Hp; by exists r).
    specialize (Hrest ks Hp'). unfold leaf_at in Hrest. rewrite Hrest.
    destruct (bget k t) as [e|]; cbn in Ec; [by subst|].
    injection Ec as <-. by destruct ks.
Qed.

Lemma insert_toml_path_wf K t segs v t' :
  wf K (Table t) -> Forall K segs -> wf K v -> insert_toml_path t segs v = Some t' -> wf K (Table t').
Proof.
  revert t t'. induction segs as [|k segs IH]; intros t t' Ht Hs Hv; [done|].
  apply Forall_cons in Hs as [Hk Hs]. destruct segs as [|k2 segs].
  - cbn. destruct (bcontains k t); [done|]. intros [= <-]. by apply wf_binsert.
  - intros H. remember (k2 :: segs) as segs' eqn:Es. cbn [insert_toml_path] in H. rewrite Es in H at 1.
    destruct (default (Table []) (bget k t)) as [| | | | | |child] eqn:Ec; try done.
    apply bind_Some in H as (child' & Hc & [= <-]). apply wf_binsert; [done..|].
    eapply IH; [|done..|exact Hc]. destruct (bget k t) as [e|] eqn:Ek; cbn in Ec.
    + subst. by apply (wf_bget K) in Ek as [_ ?].
    + injection Ec as <-. apply wf_Table. split; constructor.
Qed.

End Toml.
