(* ===== verification/Merge.v ===== *)
(** * Layer merging and provenance ([codex-start-core/src/config.rs],
      [ConfigLayerKind] to [Provenance], [merge_value], [record_leaves])

    A layer is merged into the accumulated value in place while the map from
    dotted leaf paths to layers is kept in step.  The reference definition is
    [overlay], which knows nothing of paths; the specification of the
    provenance map is [represents]. *)

From S2P Require Export Toml.

Module Merge.
Import Toml.

(** ** Data *)

Inductive ConfigLayerKind :=
  | BuiltIn | EnvironmentLayer | Global | Profile | Project | EnvironmentVariables | CommandLine.
#[export] Instance ConfigLayerKind_eq_dec : EqDecision ConfigLayerKind.
Proof. solve_decision. Defined.

(** [derive(Ord)]: the declaration order. *)
Definition kind_index (k : ConfigLayerKind) : nat :=
  match k with
  | BuiltIn => 0 | EnvironmentLayer => 1 | Global => 2 | Profile => 3 | Project => 4
  | EnvironmentVariables => 5 | CommandLine => 6
  end.

Record ValueSource := mkValueSource { kind : ConfigLayerKind; label : str }.

(** [Provenance { fields }]. *)
Abbreviation fields := (bmap ValueSource).

(** ** Operations *)

Definition child_path (path key : str) : str :=
  if nonempty path then path ++ "." ++ key else key.

Fixpoint record_leaves (value : Value) (path : str) (source : ValueSource) (provenance : fields)
    : fields :=
  match value with
  | Table table =>
      (fix each (entries : list (str * Value)) (provenance : fields) : fields :=
         match entries with
         | [] => provenance
         | (key, value) :: entries' =>
             each entries' (record_leaves value (child_path path key) source provenance)
         end) table provenance
  | _ => binsert path source provenance
  end.

Definition remove_provenance_subtree (path : str) (provenance : fields) : fields :=
  let child_prefix := path ++ "." in
  List.filter (fun entry : str * ValueSource =>
    negb (entry.1 =s? path) && negb (starts_with child_prefix entry.1)) provenance.

Fixpoint merge_value (destination source : Value) (path : str) (value_source : ValueSource)
    (provenance : fields) {struct source} : Value * fields :=
  let replace :=
    (source, record_leaves source path value_source (remove_provenance_subtree path provenance)) in
  match source with
  | Table source_table =>
      match destination with
      | Table destination_table =>
          let '(table, provenance) :=
            (fix each (entries : list (str * Value)) (table : bmap Value) (provenance : fields)
                 : bmap Value * fields :=
               match entries with
               | [] => (table, provenance)
               | (key, value) :: entries' =>
                   let child := child_path path key in
                   match bget key table with
                   | Some existing =>
                       let '(merged, provenance) :=
                         merge_value existing value child value_source provenance in
                       each entries' (binsert key merged table) provenance
                   | None =>
                       each entries' (binsert key value table)
                         (record_leaves value child value_source provenance)
                   end
               end) source_table destination_table provenance in
          (Table table, provenance)
      | _ => replace
      end
  | _ => replace
  end.

(** [Provenance::source_for]: the entry at the path or at its nearest recorded
    parent; every turn shortens the candidate. *)
Fixpoint source_for_parent (fuel : nat) (fields : fields) (candidate : str) : option ValueSource :=
  match fuel with
  | O => None
  | S fuel' =>
      match rsplit_once "." candidate with
      | None => None
      | Some (parent, _) =>
          match bget parent fields with
          | Some source => Some source
          | None => source_for_parent fuel' fields parent
          end
      end
  end.
Definition source_for (fields : fields) (path : str) : option ValueSource :=
  match bget path fields with
  | Some source => Some source
  | None => source_for_parent (length path) fields path
  end.

(** ** Reference definition of the merged value *)

Fixpoint overlay (destination source : Value) {struct source} : Value :=
  match source with
  | Table source_table =>
      match destination with
      | Table destination_table =>
          Table ((fix each (entries : list (str * Value)) (table : bmap Value) : bmap Value :=
                    match entries with
                    | [] => table
                    | (key, value) :: entries' =>
                        each entries'
                          (binsert key
                             (match bget key table with
                              | Some existing => overlay existing value
                              | None => value
                              end) table)
                    end) source_table destination_table)
      | _ => source
      end
  | _ => source
  end.

(** The loops by name. *)
Definition overlay_entries : list (str * Value) -> bmap Value -> bmap Value :=
  fix each entries table :=
    match entries with
    | [] => table
    | (key, value) :: entries' =>
        each entries' (binsert key
          (match bget key table with Some existing => overlay existing value | None => value end) table)
    end.
Definition record_entries (path : str) (source : ValueSource) : list (str * Value) -> fields -> fields :=
  fix each entries provenance :=
    match entries with
    | [] => provenance
    | (key, value) :: entries' =>
        each entries' (record_leaves value (child_path path key) source provenance)
    end.
Definition merge_entries (path : str) (src : ValueSource)
    : list (str * Value) -> bmap Value -> fields -> bmap Value * fields :=
  fix each entries table provenance :=
    match entries with
    | [] => (table, provenance)
    | (key, value) :: entries' =>
        match bget key table with
        | Some existing =>
            let '(merged, provenance) := merge_value existing value (child_path path key) src provenance in
            each entries' (binsert key merged table) provenance
        | None =>
            each entries' (binsert key value table)
              (record_leaves value (child_path path key) src provenance)
        end
    end.

Lemma overlay_table st dt : overlay (Table dt) (Table st) = Table (overlay_entries st dt).
Proof. done. Qed.

Lemma overlay_replace d s : is_table d && is_table s = false -> overlay d s = s.
Proof. destruct s, d; done. Qed.

Lemma merge_value_table st dt p src prov :
  merge_value (Table dt) (Table st) p src prov
  = let '(t, prov) := merge_entries p src st dt prov in (Table t, prov).
Proof. done. Qed.

Lemma merge_value_replace d s p src prov :
  is_table d && is_table s = false ->
  merge_value d s p src prov = (s, record_leaves s p src (remove_provenance_subtree p prov)).
Proof. destruct s, d; done. Qed.

Lemma merge_value_overlay d s p src prov : (merge_value d s p src prov).1 = overlay d s.
Proof.
  revert d p prov. induction s as [| | | | | |st IH] using Value_nested_ind; intros d p prov;
    [by rewrite merge_value_replace, overlay_replace by (by destruct d)..|].
  destruct (is_table d) eqn:Hd; [|by rewrite merge_value_replace, overlay_replace by (by rewrite Hd)].
  destruct d as [| | | | | |dt]; try done. rewrite merge_value_table, overlay_table.
  assert ((merge_entries p src st dt prov).1 = overlay_entries st dt) as <-.
  2: { by destruct (merge_entries p src st dt prov). }
  clear Hd. revert dt prov. induction IH as [|[k v] st Hv _ IH]; intros dt prov; [done|].
  cbn [merge_entries overlay_entries]. destruct (bget k dt) as [e|]; [|apply IH].
  specialize (Hv e (child_path p k) prov). cbn in Hv.
  destruct (merge_value e v _ src prov) as [m prov']. cbn in Hv. subst m. apply IH.
Qed.

Lemma bget_overlay_entries k st dt :
  NoDup (bkeys st) ->
  bget k (overlay_entries st dt) =
  match bget k st with
  | None => bget k dt
  | Some v => Some (match bget k dt with Some e => overlay e v | None => v end)
  end.
Proof.
  revert dt. induction st as [|[k' v'] st IH]; intros dt Hnd; [done|].
  cbn in Hnd. apply NoDup_cons in Hnd as [Hk' Hnd]. cbn [overlay_entries bget].
  rewrite IH, bget_binsert by done. case_bool_decide as Hk; [|done]. subst k'.
  by rewrite (proj2 (bget_None k st)).
Qed.

Lemma wf_overlay K d s : wf K d -> wf K s -> wf K (overlay d s).
Proof.
  revert d. induction s as [| | | | | |st IH] using Value_nested_ind; intros d Hd Hs;
    [by rewrite overlay_replace by (by destruct d)..|].
  destruct (is_table d) eqn:Ed; [|by rewrite overlay_replace by (by rewrite Ed)].
  destruct d as [| | | | | |dt]; try done. rewrite overlay_table.
  apply wf_Table in Hs as [_ Hs]. clear Ed. revert Hd. revert dt.
  induction IH as [|[k v] st Hv _ IH]; intros dt Hd; [done|].
  apply Forall_cons in Hs as [[Hk Hwv] Hs]. cbn in Hk, Hwv, Hv. cbn [overlay_entries].
  apply IH; [done|]. apply wf_binsert; [done..|].
  destruct (bget k dt) eqn:E; [|done]. apply Hv; [|done]. by eapply wf_bget.
Qed.

(** What the merged value holds at a path: the source decides wherever it has
    something on the way, the destination elsewhere. *)
Lemma walk_overlay K d s ks :
  wf K d -> wf K s ->
  leaf_at (overlay d s) ks =
  match walk s ks with
  | Missing => leaf_at d ks
  | _ => leaf_at s ks
  end.
Proof.
  revert d s. induction ks as [|k ks IH]; intros d s Hd Hs.
  { cbn. unfold leaf_at. cbn. destruct (is_table d && is_table s) eqn:E.
    - apply andb_true_iff in E as [E1 E2]. by destruct d, s.
    - by rewrite overlay_replace. }
  destruct (is_table d && is_table s) eqn:E.
  - apply andb_true_iff in E as [E1 E2]. destruct d as [| | | | | |dt], s as [| | | | | |st]; try done.
    rewrite overlay_table. unfold leaf_at. cbn [walk].
    apply wf_Table in Hs as Hst. destruct Hst as [Hst _]. apply bsorted_NoDup in Hst.
    rewrite bget_overlay_entries by done.
    destruct (bget k st) as [v|] eqn:Ev; [|done].
    apply (wf_bget K) in Ev as [_ Hv]; [|done].
    destruct (bget k dt) as [e|] eqn:Ee.
    + apply (wf_bget K) in Ee as [_ He]; [|done]. fold (leaf_at (overlay e v) ks).
      rewrite IH by done. done.
    + fold (leaf_at v ks). by destruct (walk v ks) eqn:Ew; unfold leaf_at; rewrite ?Ew.
  - rewrite overlay_replace by done. unfold leaf_at at 2. destruct (walk s (k :: ks)) eqn:Ew; try done.
    all: unfold leaf_at; rewrite Ew; try done.
    destruct s as [| | | | | |st]; try done. destruct d; try done.
Qed.

(** ** Dotted paths *)

(** A key that dotted paths keep apart. *)
Definition plain (k : str) : Prop := k <> [] /\ "."%char ∉ k.
Definition dotted (ks : list str) : str := join "." ks.

(** The rest of a path below another one. *)
Definition after (pks qs : list str) : option (list str) :=
  if decide (take (length pks) qs = pks) then Some (drop (length pks) qs) else None.

Lemma after_Some pks qs ks : after pks qs = Some ks <-> qs = pks ++ ks.
Proof.
  unfold after. case_decide as H; split.
  - intros [= <-]. rewrite <- H at 1. by rewrite take_drop.
  - intros ->. by rewrite drop_app_length.
  - done.
  - intros ->. destruct H. apply take_app_length.
Qed.

Lemma after_app pks ks : after pks (pks ++ ks) = Some ks.
Proof. by apply after_Some. Qed.

Lemma after_nil qs : after [] qs = Some qs.
Proof. by apply after_Some. Qed.

Lemma after_refl pks : after pks pks = Some [].
Proof. apply after_Some. by rewrite app_nil_r. Qed.

(** Whether a value has a leaf at a path. *)
Definition has_leaf (v : Value) (ks : list str) : bool := bool_decide (is_Some (leaf_at v ks)).

Lemma dotted_inj ks qs : Forall plain ks -> Forall plain qs -> ks <> [] -> qs <> [] -> dotted ks = dotted qs -> ks = qs.
Proof.
  intros Hk Hq Hk0 Hq0 E. apply (f_equal (split ".")) in E. unfold dotted in E.
  rewrite !(split_join ".") in E; try done; (eapply Forall_impl; [done|]; by intros ? [_ ?]).
Qed.

Lemma child_path_dotted pks k :
  Forall plain pks -> child_path (dotted pks) k = dotted (pks ++ [k]).
Proof.
  intros H. unfold child_path. destruct H as [|w pks [Hw _] H]; [done|].
  assert (nonempty (dotted (w :: pks)) = true) as ->.
  { unfold dotted. destruct pks; [by destruct w|]. rewrite join_cons_cons by done. by destruct w. }
  unfold dotted. by rewrite join_snoc.
Qed.

Lemma remove_provenance_subtree_spec pks qs prov :
  Forall plain pks -> Forall plain qs -> pks <> [] -> qs <> [] ->
  bget (dotted qs) (remove_provenance_subtree (dotted pks) prov) =
  match after pks qs with Some _ => None | None => bget (dotted qs) prov end.
Proof.
  intros Hp Hq Hp0 Hq0. unfold remove_provenance_subtree. cbv zeta.
  rewrite (bget_filter (fun k => negb (k =s? dotted pks) && negb (starts_with (dotted pks ++ ".") k))).
  assert (forall ws, Forall plain ws -> Forall (fun w => "."%char ∉ w) ws) as Hplain.
  { intros ws Hws. eapply Forall_impl; [done|]. by intros ? [_ ?]. }
  destruct (after pks qs) as [ks|] eqn:Ea.
  - apply after_Some in Ea as ->. destruct (decide (ks = [])) as [->|Hks].
    { rewrite app_nil_r. by rewrite (proj2 (str_eqb_eq _ _)). }
    rewrite (proj2 (starts_with_spec (dotted pks ++ ".") _)); [by rewrite andb_false_r|].
    exists (dotted ks). unfold dotted. clear -Hp0 Hks. induction pks as [|w pks IH]; [done|].
    destruct pks as [|w' pks]; [cbn [app]; rewrite join_cons_cons by done; cbn [join]; by rewrite <- app_assoc|].
    cbn [app]. rewrite !(join_cons_cons _ w) by done. cbn [app] in IH. rewrite IH by done. by rewrite <- !app_assoc.
  - destruct (dotted qs =s? dotted pks) eqn:E1.
    { apply str_eqb_eq, dotted_inj in E1 as ->; [|done..]. by rewrite after_refl in Ea. }
    destruct (starts_with _ _) eqn:E2; [|done].
    apply starts_with_spec in E2 as [r E2]. rewrite <- app_assoc in E2.
    apply (f_equal (split ".")) in E2. unfold dotted in E2.
    change (join "." pks ++ "." ++ r) with (join ["."%char] pks ++ "."%char :: r) in E2.
    rewrite split_app_sep in E2. change (list_ascii_of_string ".") with ["."%char] in E2.
    rewrite !split_join in E2 by auto. by rewrite E2, after_app in Ea.
Qed.

Lemma has_leaf_leaf v ks : is_table v = false -> has_leaf v ks = negb (nonempty ks).
Proof. intros Hv. unfold has_leaf, leaf_at. destruct ks; cbn; [by rewrite Hv|by destruct v]. Qed.

Lemma has_leaf_cons t k ks :
  has_leaf (Table t) (k :: ks) = match bget k t with Some v => has_leaf v ks | None => false end.
Proof. unfold has_leaf, leaf_at. cbn. by destruct (bget k t). Qed.

Lemma after_snoc pks k qs :
  after (pks ++ [k]) qs =
  match after pks qs with Some (k' :: ks) => if bool_decide (k' = k) then Some ks else None | _ => None end.
Proof.
  destruct (after pks qs) as [[|k' ks]|] eqn:E.
  - apply after_Some in E as ->. destruct (after _ _) eqn:E'; [|done].
    apply after_Some, (f_equal length) in E'. rewrite !length_app in E'. cbn in E'. lia.
  - apply after_Some in E as ->. case_bool_decide as Hk.
    + subst. apply after_Some. by rewrite <- app_assoc.
    + destruct (after _ _) eqn:E'; [|done]. apply after_Some in E'. rewrite <- app_assoc in E'.
      apply app_inv_head in E'. by injection E' as ? ?.
  - destruct (after (pks ++ [k]) qs) eqn:E'; [|done]. apply after_Some in E' as ->.
    by rewrite <- app_assoc, after_app in E.
Qed.

(** Recording the leaves of a value below a path. *)
Lemma record_leaves_spec v pks src prov qs :
  wf plain v -> Forall plain pks -> Forall plain qs -> qs <> [] -> (pks <> [] \/ is_table v = true) ->
  bget (dotted qs) (record_leaves v (dotted pks) src prov) =
  match after pks qs with
  | Some ks => if has_leaf v ks then Some src else bget (dotted qs) prov
  | None => bget (dotted qs) prov
  end.
Proof.
  revert pks prov.
  assert (forall v, is_table v = false -> forall pks prov, Forall plain pks -> Forall plain qs ->
    qs <> [] -> pks <> [] ->
    bget (dotted qs) (binsert (dotted pks) src prov) =
    match after pks qs with
    | Some ks => if has_leaf v ks then Some src else bget (dotted qs) prov
    | None => bget (dotted qs) prov end) as Hleaf.
  { intros w Hw pks prov Hp Hq Hq0 Hp0. rewrite bget_binsert. case_bool_decide as E.
    - apply dotted_inj in E as ->; [|done..].
      rewrite after_refl. by rewrite has_leaf_leaf.
    - destruct (after pks qs) as [ks|] eqn:Ea; [|done]. rewrite has_leaf_leaf by done.
      destruct ks; [|done]. apply after_Some in Ea as ->. by rewrite app_nil_r in E. }
  induction v as [| | | | | |t IH] using Value_nested_ind; intros pks prov Hv Hp Hq Hq0 H0;
    [by apply Hleaf; [..|destruct H0]..|]. clear Hleaf H0.
  change (record_leaves (Table t) (dotted pks) src prov) with (record_entries (dotted pks) src t prov).
  apply wf_Table in Hv as [Hs Ht]. apply bsorted_NoDup in Hs. revert prov.
  induction IH as [|[k v] t Hv _ IH]; intros prov.
  { cbn. destruct (after pks qs) as [[|k ks]|]; done. }
  cbn in Hs. apply NoDup_cons in Hs as [Hk Hs]. apply Forall_cons in Ht as [[Hkp Hvw] Ht].
  cbn [fst snd] in *. cbn [record_entries]. fold (record_entries (dotted pks) src).
  rewrite IH by done. rewrite child_path_dotted by done.
  rewrite Hv; [|done| |done..|left; by destruct pks].
  2: { apply Forall_app. split; [done|by apply Forall_singleton]. }
  rewrite after_snoc. destruct (after pks qs) as [[|k' ks]|]; try done.
  rewrite !has_leaf_cons. cbn [bget]. case_bool_decide as E; [|done]. subst k'.
  by rewrite (proj2 (bget_None k t)).
Qed.

(** The map below [pks] records no path that is not a leaf of the value. *)
Definition only_leaves (prov : fields) (pks : list str) (d : option Value) : Prop :=
  forall ks, Forall plain ks -> pks ++ ks <> [] ->
    (forall v, d = Some v -> has_leaf v ks = false) -> bget (dotted (pks ++ ks)) prov = None.

(** The entry of a path after a layer has been merged over an old one. *)
Definition updated (src : ValueSource) (s : Value) (ks : list str) (old : option ValueSource)
    : option ValueSource :=
  match walk s ks with
  | Missing => old
  | _ => if has_leaf s ks then Some src else None
  end.

(** What a provenance map becomes when [s] is merged at [pks]. *)
Definition updates (src : ValueSource) (s : Value) (pks : list str) (prov prov' : fields) : Prop :=
  forall qs, Forall plain qs -> qs <> [] ->
    bget (dotted qs) prov' =
    match after pks qs with
    | Some ks => updated src s ks (bget (dotted qs) prov)
    | None => bget (dotted qs) prov
    end.

Lemma has_leaf_missing s ks : walk s ks = Missing -> has_leaf s ks = false.
Proof. intros H. unfold has_leaf, leaf_at. by rewrite H. Qed.

Lemma merge_replace_spec d s pks src prov :
  is_table d && is_table s = false -> wf plain s -> Forall plain pks -> pks <> [] ->
  only_leaves prov pks (Some d) ->
  updates src s pks prov (merge_value d s (dotted pks) src prov).2.
Proof.
  intros E Hs Hp Hp0 Hol qs Hq Hq0. rewrite merge_value_replace by done. cbn [snd].
  rewrite record_leaves_spec, remove_provenance_subtree_spec by auto.
  destruct (after pks qs) as [ks|] eqn:Ea; [|done]. unfold updated.
  destruct (walk s ks) eqn:Ew; try (by destruct (has_leaf s ks)).
  rewrite has_leaf_missing by done. apply after_Some in Ea as ->. symmetry. apply Hol.
  - by apply Forall_app in Hq as [_ ?].
  - done.
  - intros v [= <-]. destruct ks as [|k ks]; [done|]. destruct s as [| | | | | |st]; try done.
    destruct d; done.
Qed.

(** A value recorded where the map had nothing. *)
Lemma record_updates v pks src prov :
  wf plain v -> Forall plain pks -> pks <> [] -> only_leaves prov pks None ->
  updates src v pks prov (record_leaves v (dotted pks) src prov).
Proof.
  intros Hv Hp Hp0 Hol qs Hq Hq0. rewrite record_leaves_spec by auto.
  destruct (after pks qs) as [ks|] eqn:Ea; [|done]. apply after_Some in Ea as ->.
  apply Forall_app in Hq as [_ Hq]. unfold updated.
  destruct (walk v ks) eqn:Ew; [by destruct (has_leaf v ks); [|rewrite Hol]|by rewrite has_leaf_missing|by destruct (has_leaf v ks); [|rewrite Hol]].
Qed.

(** Updating below one key leaves the paths below the others alone. *)
Lemma updates_other src v pks k k' o prov prov' :
  Forall plain pks -> plain k' -> k <> k' -> updates src v (pks ++ [k]) prov prov' ->
  only_leaves prov (pks ++ [k']) o -> only_leaves prov' (pks ++ [k']) o.
Proof.
  intros Hp Hk' Hk Hu Hol ks Hks H0 Hno. rewrite Hu; [|by rewrite !Forall_app, Forall_singleton|done].
  rewrite after_snoc, <- app_assoc, after_app. cbn [app].
  rewrite bool_decide_eq_false_2 by done. specialize (Hol ks Hks H0 Hno). by rewrite <- app_assoc in Hol.
Qed.

Definition merges (s : Value) : Prop := forall d pks src prov,
  wf plain d -> wf plain s -> Forall plain pks ->
  (pks <> [] \/ is_table d && is_table s = true) -> only_leaves prov pks (Some d) ->
  updates src s pks prov (merge_value d s (dotted pks) src prov).2.

Lemma merge_leaf_spec s : is_table s = false -> merges s.
Proof.
  intros E d pks src prov Hd Hs Hp H0 Hol. apply merge_replace_spec; try done.
  - by rewrite E, andb_false_r.
  - destruct H0 as [|H0]; [done|]. by rewrite E, andb_false_r in H0.
Qed.

Lemma merge_entries_spec st pks src dt prov :
  Forall (fun kv : str * Value => merges kv.2) st ->
  wf plain (Table dt) -> Forall (fun kv => plain kv.1 /\ wf plain kv.2) st -> NoDup (bkeys st) ->
  Forall plain pks ->
  (forall k, k ∈ bkeys st -> only_leaves prov (pks ++ [k]) (bget k dt)) ->
  forall qs, Forall plain qs -> qs <> [] ->
    bget (dotted qs) (merge_entries (dotted pks) src st dt prov).2 =
    match after pks qs with
    | Some (k :: ks) =>
        match bget k st with
        | Some v => updated src v ks (bget (dotted qs) prov)
        | None => bget (dotted qs) prov
        end
    | _ => bget (dotted qs) prov
    end.
Proof.
  intros IHs. revert dt prov. induction IHs as [|[k v] st Hv _ IH]; intros dt prov Hd Hs Hnd Hp Hk qs Hq Hq0.
  { cbn. by destruct (after pks qs) as [[|? ?]|]. }
  apply Forall_cons in Hs as [[Hkp Hvw] Hs]. cbn in Hnd. apply NoDup_cons in Hnd as [Hkn Hnd].
  cbn [fst snd] in *.
  assert (Forall plain (pks ++ [k])) as Hpk by (by rewrite Forall_app, Forall_singleton).
  assert (pks ++ [k] <> []) as Hpk0 by (by destruct pks).
  cbn [merge_entries]. fold (merge_entries (dotted pks) src). rewrite child_path_dotted by done.
  assert (exists m prov1, wf plain m /\ updates src v (pks ++ [k]) prov prov1 /\
    bget (dotted qs) match bget k dt with
      | Some existing =>
          let '(merged, provenance) := merge_value existing v (dotted (pks ++ [k])) src prov in
          merge_entries (dotted pks) src st (binsert k merged dt) provenance
      | None => merge_entries (dotted pks) src st (binsert k v dt) (record_leaves v (dotted (pks ++ [k])) src prov)
      end.2 = bget (dotted qs) (merge_entries (dotted pks) src st (binsert k m dt) prov1).2)
    as (m & prov1 & Hm & Hu & ->).
  { specialize (Hk k (list_elem_of_here _ _)).
    destruct (bget k dt) as [e|] eqn:Ee.
    - assert (wf plain e) as He by (by apply (wf_bget plain) in Ee as [_ ?]).
      pose proof (merge_value_overlay e v (dotted (pks ++ [k])) src prov) as Hov.
      specialize (Hv e (pks ++ [k]) src prov He Hvw Hpk (or_introl Hpk0) Hk).
      destruct (merge_value e v _ src prov) as [m prov1]. exists m, prov1. split; [|done].
      cbn in Hov. subst m. by apply wf_overlay.
    - exists v, (record_leaves v (dotted (pks ++ [k])) src prov). split; [done|]. split; [|done].
      by apply record_updates. }
  rewrite IH; [|by apply wf_binsert|done..| |done|done].
  2: { intros k' Hk'. assert (k' <> k) as Hkk by (by intros ->). rewrite bget_binsert, bool_decide_eq_false_2 by done.
       eapply updates_other; [done| | |exact Hu|].
       - apply list_elem_of_fmap in Hk' as ([k2 v2] & -> & Hin). rewrite Forall_forall in Hs. by apply (Hs _ Hin).
       - congruence.
       - apply Hk. by right. }
  rewrite (Hu qs), after_snoc by done. destruct (after pks qs) as [[|k' ks]|]; [done| |done].
  cbn [bget]. case_bool_decide as E; [|done]. subst k'. by rewrite (proj2 (bget_None k st)).
Qed.

Lemma merge_value_spec s : merges s.
Proof.
  induction s as [| | | | | |st IH] using Value_nested_ind; try by apply merge_leaf_spec.
  intros d pks src prov Hd Hs Hp H0 Hol. destruct (is_table d) eqn:Ed.
  2: { apply merge_replace_spec; try done; [by rewrite Ed|]. by destruct H0; rewrite ?Ed in *. }
  destruct d as [| | | | | |dt]; try done.
  apply wf_Table in Hs as [Hsort Hs]. apply bsorted_NoDup in Hsort.
  intros qs Hq Hq0. rewrite merge_value_table.
  assert (forall k, k ∈ bkeys st -> only_leaves prov (pks ++ [k]) (bget k dt)) as Hk.
  { intros k Hk ks Hks _ Hno. rewrite <- app_assoc. apply Hol; [constructor; [|done]|by destruct pks|].
    - apply list_elem_of_fmap in Hk as ([k' v'] & -> & Hin). rewrite Forall_forall in Hs. by apply (Hs _ Hin).
    - intros v [= <-]. cbn [app]. rewrite has_leaf_cons. destruct (bget k dt); [by apply Hno|done]. }
  pose proof (merge_entries_spec st pks src dt prov IH Hd Hs Hsort Hp Hk qs Hq Hq0) as Hm.
  destruct (merge_entries _ _ _ _ _) as [t prov']. cbn [snd] in *. rewrite Hm.
  destruct (after pks qs) as [[|k ks]|] eqn:Ea; [| |done].
  - apply after_Some in Ea as ->. rewrite app_nil_r in *. unfold updated. cbn [walk].
    assert (has_leaf (Table st) [] = false) as -> by done.
    rewrite <- (app_nil_r pks). apply Hol; [constructor|by rewrite app_nil_r|]. by intros v [= <-].
  - unfold updated. rewrite has_leaf_cons. cbn [walk]. by destruct (bget k st).
Qed.

(** ** Merging the layers in order *)

(** The loop of [ConfigResolver::resolve] over the sorted layers. *)
Definition merge_layer (st : Value * fields) (layer : ValueSource * Value) : Value * fields :=
  merge_value st.1 layer.2 "" layer.1 st.2.
Definition merge_layers (layers : list (ValueSource * Value)) : Value * fields :=
  foldl merge_layer (Table [], []) layers.

(** The layer that decides a path: the last one that is not silent about it,
    that is, that has the path itself or a value on the way to it. *)
Definition decider (layers : list (ValueSource * Value)) (ks : list str) : option (ValueSource * Value) :=
  foldl (fun acc layer => match walk layer.2 ks with Missing => acc | _ => Some layer end) None layers.

Lemma decider_snoc layers layer ks :
  decider (layers ++ [layer]) ks =
  match walk layer.2 ks with Missing => decider layers ks | _ => Some layer end.
Proof. unfold decider. by rewrite foldl_snoc. Qed.

Definition layer_ok (layer : ValueSource * Value) : Prop := wf plain layer.2 /\ is_table layer.2 = true.

Lemma merge_layers_invariant layers :
  Forall layer_ok layers ->
  wf plain (merge_layers layers).1 /\ is_table (merge_layers layers).1 = true /\
  only_leaves (merge_layers layers).2 [] (Some (merge_layers layers).1) /\
  forall ks, Forall plain ks -> ks <> [] ->
    leaf_at (merge_layers layers).1 ks = ('(_, v) ← decider layers ks; leaf_at v ks) /\
    bget (dotted ks) (merge_layers layers).2
    = ('(src, v) ← decider layers ks; if has_leaf v ks then Some src else None).
Proof.
  induction layers as [|[src v] layers IH] using rev_ind.
  { intros _. cbn. split_and!; [by apply wf_Table; split; constructor|done|by intros ? ? ? ?|].
    intros [|k ks] _ ?; [done|]. done. }
  intros [Hl Hlast]%Forall_app. apply Forall_singleton in Hlast as [Hv Ht]. cbn in Hv, Ht.
  destruct (IH Hl) as (Hw & Htab & Hol & Hks). unfold merge_layers. rewrite foldl_snoc.
  fold (merge_layers layers). unfold merge_layer. cbn [fst snd].
  destruct (merge_layers layers) as [d prov] eqn:E. cbn [fst snd] in *.
  assert (updates src v [] prov (merge_value d v "" src prov).2) as Hu.
  { apply (merge_value_spec v d [] src prov); try done. by right; rewrite Htab, Ht. }
  rewrite merge_value_overlay.
  assert (forall ks, leaf_at (overlay d v) ks = match walk v ks with Missing => leaf_at d ks | _ => leaf_at v ks end) as Hlo.
  { intros ks. by apply (walk_overlay plain). }
  split_and!.
  - by apply wf_overlay.
  - by destruct d, v.
  - intros ks Hp H0 Hno. cbn [app] in *. rewrite Hu, after_nil by done. unfold updated. specialize (Hno _ eq_refl).
    unfold has_leaf in Hno |- *. rewrite Hlo in Hno. bool_split.
    destruct (walk v ks) eqn:Ew.
    + by rewrite bool_decide_eq_false_2.
    + apply (Hol ks); [done..|]. intros ? [= <-]. by apply bool_decide_eq_false_2.
    + by rewrite bool_decide_eq_false_2.
  - intros ks Hp H0. destruct (Hks ks Hp H0) as [H1 H2]. rewrite Hlo, Hu, after_nil by done.
    unfold updated. rewrite decider_snoc. cbn [snd]. by destruct (walk v ks).
Qed.

(** ** Properties *)


Definition example_layers : list (ValueSource * Value) :=
  [(mkValueSource BuiltIn "built-in defaults",
    Table [("git" : str, Table [("branch_prefix" : str, String "codex/"); ("editor" : str, Array [])]);
           ("tty" : str, String "auto")]);
   (mkValueSource Global "config.toml",
    Table [("git" : str, Table [("editor" : str, Array [String "vim"])])])].


End Merge.
