(* ===== verification/Codec.v ===== *)
(** * Serde conversions to and from TOML values

    What [derive(Serialize, Deserialize)] does with the attributes the settings
    records carry: [default], [deny_unknown_fields] and [skip_serializing_if].
    A [codec] is the pair of conversions of one type together with the overlay
    that the TOML merge induces on it; [CodecLaws] states that decoding undoes
    encoding and that encoding turns the typed overlay into the TOML one.
    [struct_codec] builds the codec of a record from those of its fields. *)

From S2P Require Export Merge Limits.

Module Codec.
Import Toml Merge Limits.

(** ** Codecs and their laws *)

Record codec (A : Type) := mkCodec {
  encode : A -> option Value;
  decode : Value -> option A;
  ov : A -> A -> A;
  typed : A -> Prop }.
Arguments mkCodec {A}.
Arguments encode {A}.
Arguments decode {A}.
Arguments ov {A}.
Arguments typed {A}.

Class CodecLaws {A} (c : codec A) : Prop := {
  dec_enc a v : typed c a -> encode c a = Some v -> decode c v = Some a;
  enc_ov a b va vb : typed c a -> typed c b -> encode c a = Some va -> encode c b = Some vb ->
    encode c (ov c a b) = Some (overlay va vb);
  typed_ov a b : typed c a -> typed c b -> typed c (ov c a b) }.

(** ** Values that replace each other *)

Definition scalar {A} (e : A -> option Value) (d : Value -> option A) (P : A -> Prop) : codec A :=
  mkCodec e d (fun _ b => b) P.

Lemma scalar_laws {A} (e : A -> option Value) (d : Value -> option A) (P : A -> Prop) :
  (forall a v, P a -> e a = Some v -> d v = Some a /\ is_table v = false) ->
  CodecLaws (scalar e d P).
Proof.
  intros H. constructor; cbn.
  - intros a v Ha Hv. by apply H.
  - intros a b va vb Ha Hb Ea Eb. rewrite overlay_replace; [done|].
    destruct (H b vb Hb Eb) as [_ ->]. apply andb_false_r.
  - done.
Qed.

Definition bool_codec : codec bool :=
  scalar (fun b => Some (Boolean b)) (fun v => match v with Boolean b => Some b | _ => None end) (fun _ => True).
Definition string_codec : codec str := scalar (fun s => Some (String s)) as_str (fun _ => True).
(** [PathBuf]: only a UTF-8 path can be written. *)
Definition path_codec : codec str :=
  scalar (fun s => if utf8_valid s then Some (String s) else None) as_str (fun _ => True).

Definition decode_strings (v : Value) : option (list str) :=
  match v with Array vs => mapM as_str vs | _ => None end.
Definition strings_codec : codec (list str) :=
  scalar (fun l => Some (Array (map String l))) decode_strings (fun _ => True).

(** Integers of a machine type; TOML integers are signed 64-bit. *)
Definition int_codec (lo hi : Z) : codec Z :=
  scalar (fun n => if (n <=? I64_MAX)%Z then Some (Integer n) else None)
    (fun v => match v with
              | Integer n => if (lo <=? n)%Z && (n <=? hi)%Z then Some n else None
              | _ => None
              end)
    (fun n => lo <= n <= hi)%Z.
Definition u64_codec : codec Z := int_codec 0 U64_MAX.
Definition u16_codec : codec Z := int_codec 0 U16_MAX.
Definition i64_codec : codec Z := int_codec I64_MIN I64_MAX.

(** Fieldless enums, written as their name; also read as the only key of a
    table that holds an empty table or array. *)
Definition enum_name {A} `{EqDecision A} (names : list (str * A)) (a : A) : option str :=
  fst <$> List.find (fun na : str * A => bool_decide (na.2 = a)) names.
Definition enum_codec {A} `{EqDecision A} (names : list (str * A)) : codec A :=
  scalar (fun a => String <$> enum_name names a)
    (fun v => match v with
              | String s => bget s names
              | Table [(s, (Table [] | Array []))] => bget s names
              | _ => None
              end)
    (fun a => (s ← enum_name names a; bget s names) = Some a).

Lemma bool_laws : CodecLaws bool_codec.
Proof. apply scalar_laws. by intros a v _ [= <-]. Qed.
Lemma string_laws : CodecLaws string_codec.
Proof. apply scalar_laws. by intros a v _ [= <-]. Qed.
Lemma path_laws : CodecLaws path_codec.
Proof. apply scalar_laws. intros a v _. destruct (utf8_valid a); [|done]. by intros [= <-]. Qed.
Lemma strings_laws : CodecLaws strings_codec.
Proof.
  apply scalar_laws. intros a v _ [= <-]. split; [|done]. cbn.
  induction a as [|s a IH]; [done|]. cbn. by rewrite IH.
Qed.
Lemma int_laws lo hi : CodecLaws (int_codec lo hi).
Proof.
  apply scalar_laws. intros a v Ha. destruct (a <=? I64_MAX)%Z; [|done]. intros [= <-].
  split; [|done]. by rewrite (proj2 (Z.leb_le lo a)), (proj2 (Z.leb_le a hi)) by lia.
Qed.
Lemma enum_laws {A} `{EqDecision A} (names : list (str * A)) : CodecLaws (enum_codec names).
Proof.
  apply scalar_laws. intros a v Ha (s & Hs & ->)%fmap_Some. rewrite Hs in Ha. done.
Qed.

(** ** Optional fields of a struct *)

Abbreviation entry := (str * option Value)%type.

(** A field with [skip_serializing_if = "Option::is_none"]. *)
Definition enc_field {A} (c : codec A) (name : string) (o : option A) : option entry :=
  match o with
  | None => Some (name : str, None)
  | Some a => v ← encode c a; Some (name : str, Some v)
  end.
(** [default]: a missing key reads as [None]. *)
Definition dec_field {A} (c : codec A) (name : string) (t : bmap Value) : option (option A) :=
  match bget name t with
  | None => Some None
  | Some v => a ← decode c v; Some (Some a)
  end.

(** A map field with [skip_serializing_if = "BTreeMap::is_empty"]. *)
Definition enc_map_field {A} (c : codec (bmap A)) (name : string) (m : bmap A) : option entry :=
  match m with
  | [] => Some (name : str, None)
  | _ => v ← encode c m; Some (name : str, Some v)
  end.
Definition dec_map_field {A} (c : codec (bmap A)) (name : string) (t : bmap Value) : option (bmap A) :=
  match bget name t with
  | None => Some []
  | Some v => decode c v
  end.

(** The table of the fields that are not skipped. *)
Definition fields_table (l : list entry) : bmap Value :=
  bcollect (omap (fun e : entry => v ← e.2; Some (e.1, v)) l).

(** The keys of a struct with [deny_unknown_fields]; an array gives the fields
    in their order. *)
Definition struct_table (names : list string) (v : Value) : option (bmap Value) :=
  match v with
  | Table t => if forallb (fun k => one_of k names) (bkeys t) then Some t else None
  | Array vs =>
      if (length vs <=? length names)%nat then Some (bcollect (zip (strs names) vs)) else None
  | _ => None
  end.

Definition struct_codec {A} (names : list string) (fields : A -> list (option entry))
    (build : bmap Value -> option A) (o : A -> A -> A) (P : A -> Prop) : codec A :=
  mkCodec
    (fun a => l ← mapM id (fields a); Some (Table (fields_table l)))
    (fun v => t ← struct_table names v; build t)
    o P.

(** The overlay of optional fields. *)
Definition opt_ov {A} (f : A -> A -> A) (a b : option A) : option A :=
  match a, b with
  | Some x, Some y => Some (f x y)
  | None, _ => b
  | _, None => a
  end.
Definition entry_ov (a b : entry) : entry := (a.1, opt_ov overlay a.2 b.2).

Lemma bget_fields_table l k :
  NoDup (map fst l) -> bget k (fields_table l) = (o ← bget k (l : bmap (option Value)); o).
Proof.
  intros Hnd. unfold fields_table, bcollect. rewrite bget_bextend. cbn [bget].
  set (es := omap _ l).
  assert (forall k, bget k es = (o ← bget k (l : bmap (option Value)); o)) as Hes.
  { clear k. intros k. subst es. induction l as [|[k' o] l IH]; [done|]. cbn in Hnd.
    apply NoDup_cons in Hnd as [Hk' Hnd]. specialize (IH Hnd). cbn.
    assert (k = k' -> bget k (l : bmap (option Value)) = None) as Hn by (intros ->; by apply bget_None).
    destruct o as [v|]; cbn; case_bool_decide as Hk; rewrite ?IH; try done.
    by rewrite Hn. }
  assert (NoDup (bkeys es)) as Hnd'.
  { unfold bkeys. subst es. clear Hes. induction l as [|[k' o] l IH]; [constructor|].
    cbn in Hnd. apply NoDup_cons in Hnd as [Hk' Hnd]. cbn. destruct o as [v|]; cbn; [|by apply IH].
    constructor; [|by apply IH]. intros Hin. apply Hk'.
    apply list_elem_of_fmap in Hin as ([k2 v2] & -> & Hin). apply list_elem_of_omap in Hin as ([k3 o3] & Hin & Ho).
    cbn in Ho. destruct o3; [|done]. injection Ho as -> ->. apply list_elem_of_fmap. by exists (k2, Some v2). }
  assert (bget k (reverse es) = bget k es) as ->.
  2: { rewrite Hes. by destruct (bget k (l : bmap (option Value))) as [[]|]. }
  destruct (bget k es) as [v|] eqn:E.
  - apply elem_of_bget.
    + unfold bkeys. change (NoDup (fst <$> reverse es)). rewrite reverse_Permutation. exact Hnd'.
    + apply elem_of_reverse. by apply bget_elem_of.
  - apply bget_None. apply bget_None in E. unfold bkeys in *.
    rewrite list_elem_of_fmap in E |- *. setoid_rewrite elem_of_reverse. done.
Qed.

Lemma bsorted_fields_table l : bsorted (fields_table l).
Proof. apply bsorted_bcollect. Qed.

(** ** Laws of struct codecs *)

Lemma overlay_fields_table l1 l2 :
  NoDup (map fst l1) -> map fst l1 = map fst l2 ->
  overlay (Table (fields_table l1)) (Table (fields_table l2))
  = Table (fields_table (zip_with entry_ov l1 l2)).
Proof.
  intros Hnd E. rewrite overlay_table. f_equal.
  assert (map fst (zip_with entry_ov l1 l2) = map fst l1) as Ez.
  { clear Hnd. revert l2 E. induction l1 as [|e1 l1 IH]; intros [|e2 l2] E; cbn; try done.
    injection E as _ E. f_equal. by apply IH. }
  apply bmap_ext.
  - assert (forall es m, bsorted m -> bsorted (overlay_entries es m)) as Hs; [|apply Hs, bsorted_fields_table].
    intros es. induction es as [|[k v] es IH]; intros m Hm; cbn; [done|]. by apply IH, bsorted_binsert.
  - apply bsorted_fields_table.
  - intros k. rewrite bget_overlay_entries by apply bsorted_NoDup, bsorted_fields_table.
  rewrite !bget_fields_table; rewrite ?Ez, <- ?E; try done.
    clear Ez Hnd. revert l2 E. induction l1 as [|[k1 o1] l1 IH]; intros [|[k2 o2] l2] E; cbn; try done.
    injection E as <- E. case_bool_decide; [|by apply IH]. by destruct o1, o2.
Qed.

(** A field of two structs, and the same field of their overlay. *)
Definition field_merges (name : string) (f1 f2 f3 : option entry) : Prop :=
  forall e1 e2, f1 = Some e1 -> f2 = Some e2 ->
    e1.1 = name /\ e2.1 = name /\ f3 = Some (entry_ov e1 e2).

Inductive fields_merge : list string -> list (option entry) -> list (option entry) -> list (option entry) -> Prop :=
  | fields_merge_nil : fields_merge [] [] [] []
  | fields_merge_cons n names f1 F1 f2 F2 f3 F3 :
      field_merges n f1 f2 f3 -> fields_merge names F1 F2 F3 ->
      fields_merge (n :: names) (f1 :: F1) (f2 :: F2) (f3 :: F3).

Lemma fields_merge_mapM names F1 F2 F3 l1 l2 :
  fields_merge names F1 F2 F3 -> mapM id F1 = Some l1 -> mapM id F2 = Some l2 ->
  map fst l1 = strs names /\ map fst l2 = strs names /\ mapM id F3 = Some (zip_with entry_ov l1 l2).
Proof.
  intros H. revert l1 l2. induction H as [|n names f1 F1 f2 F2 f3 F3 Hf H IH]; intros l1 l2 H1 H2.
  { injection H1 as <-. injection H2 as <-. done. }
  cbn in H1, H2. apply bind_Some in H1 as (e1 & E1 & H1), H2 as (e2 & E2 & H2).
  apply bind_Some in H1 as (l1' & H1 & [= <-]), H2 as (l2' & H2 & [= <-]).
  destruct (Hf e1 e2 E1 E2) as (N1 & N2 & E3), (IH l1' l2' H1 H2) as (K1 & K2 & K3).
  cbn. rewrite N1, N2, K1, K2, K3. unfold id in *. rewrite E3. done.
Qed.

Lemma enc_field_merges {A} (c : codec A) `{!CodecLaws c} name (a b : option A) :
  (forall x, a = Some x -> typed c x) -> (forall x, b = Some x -> typed c x) ->
  field_merges name (enc_field c name a) (enc_field c name b) (enc_field c name (opt_ov (ov c) a b)).
Proof.
  intros Ha Hb e1 e2. destruct a as [x|], b as [y|]; cbn.
  - intros (v & Ev & [= <-])%bind_Some (w & Ew & [= <-])%bind_Some.
    erewrite enc_ov; [done|by apply Ha|by apply Hb|done..].
  - intros (v & Ev & [= <-])%bind_Some [= <-]. by rewrite Ev.
  - intros [= <-] (w & Ew & [= <-])%bind_Some. by rewrite Ew.
  - by intros [= <-] [= <-].
Qed.

Lemma dec_field_enc {A} (c : codec A) `{!CodecLaws c} name (o : option A) names F l :
  mapM id F = Some l -> map fst l = strs names -> NoDup (strs names) -> enc_field c name o ∈ F ->
  (forall x, o = Some x -> typed c x) ->
  dec_field c name (fields_table l) = Some o.
Proof.
  intros HF Hl Hnd Hin Ho. apply list_elem_of_lookup in Hin as [i Hi].
  apply mapM_Some in HF. destruct (Forall2_lookup_l _ _ _ _ _ HF Hi) as (e & He & Ee).
  unfold id in Ee. apply list_elem_of_lookup_2 in He. destruct e as [k ov].
  assert (bget k (l : bmap (option Value)) = Some ov) as Hk.
  { apply elem_of_bget; [by unfold bkeys; rewrite Hl|done]. }
  unfold dec_field. destruct o as [a|]; cbn in Ee.
  - apply bind_Some in Ee as (v & Ev & [= <- <-]).
    rewrite bget_fields_table, Hk by (by rewrite Hl). cbn. by rewrite (dec_enc a v) by auto.
  - injection Ee as <- <-. rewrite bget_fields_table, Hk by (by rewrite Hl). done.
Qed.

Lemma struct_table_fields names l :
  map fst l = strs names -> struct_table names (Table (fields_table l)) = Some (fields_table l).
Proof.
  intros Hl. cbn. assert (forallb (fun k => one_of k names) (bkeys (fields_table l)) = true) as ->; [|done].
  apply forallb_Forall, Forall_forall. intros k Hk. unfold one_of. apply bool_decide_eq_true.
  rewrite <- Hl. unfold fields_table, bcollect in Hk. apply bget_is_Some in Hk.
  rewrite bget_bextend in Hk. cbn [bget] in Hk.
  assert (is_Some (bget k (reverse (omap (fun e : entry => v ← e.2; Some (e.1, v)) l)))) as Hk'.
  { by destruct (bget k (reverse _)). }
  apply bget_is_Some in Hk'. unfold bkeys in Hk'. apply list_elem_of_fmap in Hk' as ([k' v] & -> & Hin).
  apply elem_of_reverse, list_elem_of_omap in Hin as (e & Hin & He).
  apply bind_Some in He as (v' & _ & [= <- _]). apply list_elem_of_fmap. eauto.
Qed.

Lemma struct_laws {A} names (fields : A -> list (option entry)) build (o : A -> A -> A) (P : A -> Prop) :
  NoDup (strs names) ->
  (forall a b, P a -> P b -> fields_merge names (fields a) (fields b) (fields (o a b))) ->
  (forall a b, P a -> P b -> P (o a b)) ->
  (forall a l, P a -> mapM id (fields a) = Some l -> map fst l = strs names -> build (fields_table l) = Some a) ->
  CodecLaws (struct_codec names fields build o P).
Proof.
  intros Hnd Hm Hp Hb.
  assert (forall a l, P a -> mapM id (fields a) = Some l -> map fst l = strs names) as Hk.
  { intros a l Ha Hl. by destruct (fields_merge_mapM _ _ _ _ _ _ (Hm a a Ha Ha) Hl Hl). }
  constructor; cbn.
  - intros a v Ha (l & Hl & [= <-])%bind_Some. rewrite struct_table_fields by eauto. cbn. eauto.
  - intros a b va vb Ha Hb' (l1 & H1 & [= <-])%bind_Some (l2 & H2 & [= <-])%bind_Some.
    destruct (fields_merge_mapM _ _ _ _ _ _ (Hm a b Ha Hb') H1 H2) as (K1 & K2 & ->).
    apply (f_equal Some). symmetry. apply overlay_fields_table; [by rewrite K1|congruence].
  - done.
Qed.

(** ** Maps *)

(** [toml::Value] itself. *)
Definition value_codec : codec Value := mkCodec Some Some overlay (fun _ => True).
Lemma value_laws : CodecLaws value_codec.
Proof.
  constructor; cbn; [by intros a v _ [= <-]| |done].
  by intros a b va vb _ _ [= <-] [= <-].
Qed.

Definition enc_entry {A} (c : codec A) (kv : str * A) : option (str * Value) :=
  v ← encode c kv.2; Some (kv.1, v).
Definition dec_entry {A} (c : codec A) (kv : str * Value) : option (str * A) :=
  a ← decode c kv.2; Some (kv.1, a).

(** The overlay of maps: keys of the second one are set in the first. *)
Fixpoint map_ov {A} (f : A -> A -> A) (entries : bmap A) (m : bmap A) : bmap A :=
  match entries with
  | [] => m
  | (k, a) :: entries' =>
      map_ov f entries' (binsert k (match bget k m with Some e => f e a | None => a end) m)
  end.

Definition map_codec {A} (c : codec A) : codec (bmap A) :=
  mkCodec
    (fun m => es ← mapM (enc_entry c) m; Some (Table es))
    (fun v => match v with Table t => mapM (dec_entry c) t | _ => None end)
    (fun a b => map_ov (ov c) b a)
    (fun m => bsorted m /\ Forall (fun kv => typed c kv.2) m).

Lemma bget_map_ov {A} (f : A -> A -> A) es m k :
  NoDup (bkeys es) ->
  bget k (map_ov f es m) =
  match bget k es with
  | None => bget k m
  | Some a => Some (match bget k m with Some e => f e a | None => a end)
  end.
Proof.
  revert m. induction es as [|[k' a] es IH]; intros m Hnd; [done|].
  cbn in Hnd. apply NoDup_cons in Hnd as [Hk' Hnd]. cbn [map_ov bget].
  rewrite IH, bget_binsert by done. case_bool_decide as Hk; [|done]. subst k'.
  by rewrite (proj2 (bget_None k es)).
Qed.

Lemma bsorted_map_ov {A} (f : A -> A -> A) es m : bsorted m -> bsorted (map_ov f es m).
Proof. revert m. induction es as [|[k a] es IH]; intros m Hm; cbn; [done|]. by apply IH, bsorted_binsert. Qed.

Lemma map_ov_nil {A} (f : A -> A -> A) es : bsorted es -> map_ov f es [] = es.
Proof.
  intros H. apply bmap_ext; [apply bsorted_map_ov; constructor|done|].
  intros k. rewrite bget_map_ov by by apply bsorted_NoDup. by destruct (bget k es).
Qed.

Lemma map_ov_nonempty {A} (f : A -> A -> A) es m : m <> [] -> map_ov f es m <> [].
Proof.
  revert m. induction es as [|[k a] es IH]; intros m Hm; cbn; [done|]. apply IH.
  destruct m as [|[k' a'] m]; [done|]. cbn. by destruct (str_compare k k').
Qed.

Lemma enc_bget {A} (c : codec A) m t k :
  mapM (enc_entry c) m = Some t ->
  match bget k m with Some a => encode c a = bget k t /\ is_Some (bget k t) | None => bget k t = None end.
Proof.
  revert t. induction m as [|[k' a] m IH]; intros t; cbn.
  { by intros [= <-]. }
  intros ([k2 v] & (w & Ew & [= -> ->])%bind_Some & (t' & Ht & [= <-])%bind_Some)%bind_Some.
  cbn. case_bool_decide; [by eauto|]. by apply IH.
Qed.

Lemma enc_binsert {A} (c : codec A) m t k a v :
  mapM (enc_entry c) m = Some t -> encode c a = Some v ->
  mapM (enc_entry c) (binsert k a m) = Some (binsert k v t).
Proof.
  intros Hm Ha.
  assert (enc_entry c (k, a) = Some (k, v)) as Hka by (unfold enc_entry; cbn; by rewrite Ha).
  revert t Hm. induction m as [|[k' a'] m IH]; intros t.
  { intros [= <-]. cbn. by rewrite Hka. }
  cbn [mapM]. intros ([k2 w] & Ew & (t' & Ht & [= <-])%bind_Some)%bind_Some.
  assert (k2 = k') as -> by (by apply bind_Some in Ew as (? & _ & [= ? ?])).
  cbn [binsert]. destruct (str_compare k k'); cbn [mapM]; rewrite ?Hka, ?Ew; cbn [mbind option_bind];
    rewrite ?Ht, ?(IH t' Ht); cbn; rewrite ?Ew; cbn; by rewrite ?Ht.
Qed.

Lemma bvalues_binsert {A} (P : A -> Prop) k a (m : bmap A) :
  P a -> Forall (fun kv => P kv.2) m -> Forall (fun kv => P kv.2) (binsert k a m).
Proof.
  intros Ha. induction 1 as [|[k' a'] m Ha' Hm IH]; cbn; [by apply Forall_singleton|].
  destruct (str_compare k k'); rewrite ?Forall_cons; auto.
Qed.

Lemma map_laws {A} (c : codec A) : CodecLaws c -> CodecLaws (map_codec c).
Proof.
  intros Hc. constructor; cbn.
  - intros m v [_ Hm] (es & Hes & [= <-])%bind_Some. revert es Hes.
    induction Hm as [|[k a] m Ha Hm IH]; intros es; cbn; [by intros [= <-]|].
    intros ([k2 v] & (v' & Ev & [= -> ->])%bind_Some & (es' & Hes & [= <-])%bind_Some)%bind_Some.
    assert (dec_entry c (k2, v) = Some (k2, a)) as Hde by (unfold dec_entry; cbn; by rewrite (dec_enc a v)).
    cbn. rewrite Hde. cbn. by rewrite (IH es').
  - intros a b va vb [_ Ha] [_ Hb] (ea & Ea & [= <-])%bind_Some (eb & Eb & [= <-])%bind_Some.
    change (overlay (Table ea) (Table eb)) with (Table (overlay_entries eb ea)).
    revert a ea eb Ha Ea Eb. induction Hb as [|[k x] b Hx Hb IH]; intros a ea eb Ha Ea; cbn.
    { intros [= <-]. cbn. by rewrite Ea. }
    intros ([k2 v] & (v' & Ev & [= -> ->])%bind_Some & (es' & Hes & [= <-])%bind_Some)%bind_Some.
    cbn [fst snd] in *. cbn [overlay_entries]. pose proof (enc_bget c a ea k2 Ea) as Hg.
    destruct (bget k2 a) as [e|] eqn:Ee.
    + destruct Hg as [Hg [w Hw]]. rewrite Hw in Hg |- *.
      assert (typed c e) as He.
      { apply bget_elem_of in Ee. rewrite Forall_forall in Ha. exact (Ha _ Ee). }
      apply IH; [|by apply enc_binsert, enc_ov|done].
      apply bvalues_binsert; [|done]. by apply typed_ov.
    + rewrite Hg. apply IH; [by apply bvalues_binsert|by apply enc_binsert|done].
  - intros a b [Sa Ha] [Sb Hb]. split; [by apply bsorted_map_ov|]. clear Sa Sb. revert a Ha.
    induction Hb as [|[k x] b Hx Hb IH]; intros a Ha; cbn; [done|]. apply IH, bvalues_binsert; [|done].
    destruct (bget k a) as [e|] eqn:Ee; [|done]. apply typed_ov; [|done].
    apply bget_elem_of in Ee. rewrite Forall_forall in Ha. exact (Ha _ Ee).
Qed.

Lemma enc_map_field_merges {A} (c : codec A) `{!CodecLaws c} name (a b : bmap A) :
  typed (map_codec c) a -> typed (map_codec c) b ->
  field_merges name (enc_map_field (map_codec c) name a) (enc_map_field (map_codec c) name b)
    (enc_map_field (map_codec c) name (map_ov (ov c) b a)).
Proof.
  intros Ha Hb e1 e2. pose proof (map_laws c _) as HL.
  assert (forall m, m <> [] -> enc_map_field (map_codec c) name m
            = (v ← encode (map_codec c) m; Some (name : str, Some v))) as Hne by (by intros []).
  destruct (decide (a = [])) as [->|Ha0].
  { rewrite map_ov_nil by apply Hb. intros [= <-] Eb.
    assert (e2.1 = name) by (destruct b; [by injection Eb as <-|by apply bind_Some in Eb as (v & _ & [= <-])]).
    split_and!; [done|done|]. rewrite Eb. by destruct e2; simplify_eq/=. }
  destruct (decide (b = [])) as [->|Hb0].
  { intros Ea [= <-]. cbn [map_ov]. rewrite Hne in Ea by done. apply bind_Some in Ea as (v & Ev & [= <-]).
    rewrite Hne, Ev by done. done. }
  rewrite !Hne by (done || by apply map_ov_nonempty).
  intros (va & Ea & [= <-])%bind_Some (vb & Eb & [= <-])%bind_Some. split_and!; [done..|].
  change (map_ov (ov c) b a) with (ov (map_codec c) a b). by erewrite enc_ov.
Qed.

Lemma dec_map_field_enc {A} (c : codec A) `{!CodecLaws c} name (m : bmap A) names F l :
  mapM id F = Some l -> map fst l = strs names -> NoDup (strs names) ->
  enc_map_field (map_codec c) name m ∈ F -> typed (map_codec c) m ->
  dec_map_field (map_codec c) name (fields_table l) = Some m.
Proof.
  intros HF Hl Hnd Hin Hm. pose proof (map_laws c _) as HL.
  destruct (decide (m = [])) as [->|Hne].
  - pose proof (dec_field_enc (map_codec c) name None names F l HF Hl Hnd Hin) as H.
    unfold dec_map_field, dec_field in *. specialize (H ltac:(done)).
    destruct (bget name (fields_table l)) as [v|]; [|done]. by apply bind_Some in H as (? & _ & ?).
  - assert (enc_field (map_codec c) name (Some m) ∈ F) as Hin' by (by destruct m).
    pose proof (dec_field_enc (map_codec c) name (Some m) names F l HF Hl Hnd Hin') as H.
    unfold dec_map_field, dec_field in *. specialize (H ltac:(by intros ? [= <-])).
    destruct (bget name (fields_table l)) as [v|]; [|done].
    by apply bind_Some in H as (? & -> & [= ->]).
Qed.

End Codec.
