(* ===== verification/CodexSecrets.v ===== *)
(** * Secret literals in native Codex settings
      ([codex-start-core/src/config.rs], [validate_codex_secret_literals] and below)

    The walk over the arbitrary TOML under [codex.config] that refuses
    plaintext secrets and static HTTP headers.  A position of the walk is a
    site: the header mode inherited from the enclosing keys, the key (none for
    an array element) and the value. *)

From S2P Require Export Toml ConfigTypes.

Module CodexSecrets.
Import Toml ConfigTypes.

Inductive HeaderMode := Regular | Static | EnvironmentMode.
#[export] Instance HeaderMode_eq_dec : EqDecision HeaderMode.
Proof. solve_decision. Defined.

(** ** Keys *)

(** One turn of the loop over the characters, on [(normalized, separator)]. *)
Definition normalize_step (st : str * bool) (character : str) : str * bool :=
  let '(normalized, separator) := st in
  match character with
  | [c] =>
      if is_alphanumeric c then (normalized ++ [lower_byte c], false)
      else if nonempty normalized && negb separator then (normalized ++ "_", true)
      else st
  | _ => if nonempty normalized && negb separator then (normalized ++ "_", true) else st
  end.

Definition normalized_secret_key (key : str) : str :=
  trim_end_by (is_byte "_") (foldl normalize_step ([], false) (chars key)).1.

Definition contains_secret_phrase (key phrase : str) : bool :=
  (key =s? phrase)
  || starts_with (phrase ++ "_") key
  || ends_with ("_" ++ phrase) key
  || contains_str ("_" ++ phrase ++ "_") key.

Definition secret_phrases : list string :=
  ["api_key"; "access_key"; "access_token"; "auth_token"; "authorization"; "bearer_token";
   "client_secret"; "cookie"; "credential"; "credentials"; "passphrase"; "password"; "pat";
   "private_key"; "proxy_authorization"; "secret"; "token"].
Definition raw_secret_key (key : str) : bool :=
  existsb (contains_secret_phrase key) (strs secret_phrases).

Definition environment_name_key (key : str) : bool :=
  contains_str "env_var" key
  || contains_str "environment_variable" key
  || (key =s? "env_key")
  || ends_with "_env" key.

Definition secret_environment_name_key (key : str) : bool :=
  let key := normalized_secret_key key in environment_name_key key && raw_secret_key key.
Definition secret_literal_key (key : str) : bool :=
  let key := normalized_secret_key key in negb (environment_name_key key) && raw_secret_key key.

Definition header_mode (key : str) : HeaderMode :=
  let key := normalized_secret_key key in
  if one_of key ["http_headers"; "headers"] then Static
  else if one_of key ["env_http_headers"; "http_headers_env"] then EnvironmentMode
  else Regular.

(** ** The walk *)

Definition names_environment (value : Value) : bool := is_some_and (as_str value) valid_env_name.

Definition static_header (path advice : str) : ConfigError :=
  Invalid ("native Codex static HTTP header `" ++ path ++ "` is not allowed; " ++ advice).
Definition environment_header (path : str) : ConfigError :=
  Invalid ("native Codex environment-header setting `" ++ path ++ "` must name an environment variable").
Definition environment_setting (path : str) : ConfigError :=
  Invalid ("native Codex secret environment setting `" ++ path ++ "` must name an environment variable").
Definition plaintext_codex_secret (path : str) : ConfigError :=
  Invalid ("native Codex setting `" ++ path ++ "` looks like a plaintext secret; reference a global provider and an environment-variable Codex setting instead").

Definition is_string (value : Value) : bool := match value with String _ => true | _ => false end.

Fixpoint validate_codex_secret_value (value : Value) (key path : str) (mode : HeaderMode)
    {struct value} : result ConfigError unit :=
  match mode with
  | Static =>
      Err (static_header path "map the header name to a global-provider environment variable with `env_http_headers` instead")
  | EnvironmentMode =>
      if names_environment value then Ok tt else Err (environment_header path)
  | Regular =>
      if secret_environment_name_key key then
        if names_environment value then Ok tt else Err (environment_setting path)
      else if secret_literal_key key && is_string value then Err (plaintext_codex_secret path)
      else
        let child_mode := header_mode key in
        match value with
        | Table child =>
            (fix each (entries : list (str * Value)) : result ConfigError unit :=
               match entries with
               | [] => Ok tt
               | (child_key, child_value) :: entries' =>
                   validate_codex_secret_value child_value child_key (path ++ "." ++ child_key) child_mode ;;
                   each entries'
               end) child
        | Array values =>
            (fix each (index : nat) (values : list Value) : result ConfigError unit :=
               match values with
               | [] => Ok tt
               | child :: values' =>
                   validate_codex_array_value child (path ++ "[" ++ dec (Z.of_nat index) ++ "]") child_mode ;;
                   each (S index) values'
               end) 0%nat values
        | _ => Ok tt
        end
  end
with validate_codex_array_value (value : Value) (path : str) (mode : HeaderMode)
    {struct value} : result ConfigError unit :=
  match mode with
  | Static => Err (static_header path "use `env_http_headers` instead")
  | EnvironmentMode => if names_environment value then Ok tt else Err (environment_header path)
  | Regular =>
      match value with
      | Table table =>
          (fix each (entries : list (str * Value)) : result ConfigError unit :=
             match entries with
             | [] => Ok tt
             | (key, value) :: entries' =>
                 validate_codex_secret_value value key (path ++ "." ++ key) mode ;;
                 each entries'
             end) table
      | Array values =>
          (fix each (index : nat) (values : list Value) : result ConfigError unit :=
             match values with
             | [] => Ok tt
             | value :: values' =>
                 validate_codex_array_value value (path ++ "[" ++ dec (Z.of_nat index) ++ "]") mode ;;
                 each (S index) values'
             end) 0%nat values
      | _ => Ok tt
      end
  end.

Definition validate_codex_secret_literals (table : bmap Value) (prefix : str) : result ConfigError unit :=
  for_each (fun kv : str * Value =>
    validate_codex_secret_value kv.2 kv.1 (prefix ++ "." ++ kv.1) Regular) table.

(** ** Specification *)

Definition site : Type := HeaderMode * option str * Value.

(** The mode a site's children are in. *)
Definition mode_below (m : HeaderMode) (k : option str) : HeaderMode :=
  match k with Some key => header_mode key | None => m end.

Inductive child : site -> site -> Prop :=
  | child_table m k t k' v : (k', v) ∈ t -> child (m, k, Table t) (mode_below m k, Some k', v)
  | child_array m k vs v : v ∈ vs -> child (m, k, Array vs) (mode_below m k, None, v).

(** What a site may hold: nothing below a static header table, the name of an
    environment variable below an environment header table or under a key that
    asks for one, and no string under a key that names a secret. *)
Definition site_ok (s : site) : Prop :=
  let '(m, k, v) := s in
  match m with
  | Static => False
  | EnvironmentMode => names_environment v = true
  | Regular =>
      forall key, k = Some key ->
        (secret_environment_name_key key = true -> names_environment v = true) /\
        (secret_literal_key key = true -> is_string v = false)
  end.

Definition clean (s : site) : Prop := forall s', rtc child s s' -> site_ok s'.

Lemma clean_unfold s : clean s <-> site_ok s /\ forall s', child s s' -> clean s'.
Proof.
  split.
  - intros H. split; [apply H, rtc_refl|]. intros s' Hs s'' Hs'. apply H. by eapply rtc_l.
  - intros [H1 H2] s' [->|(s1 & Hc & Hr)]%rtc_inv; [done|]. by apply (H2 s1).
Qed.

Lemma names_environment_leaf v m k s : names_environment v = true -> ~ child (m, k, v) s.
Proof. intros H Hc. inversion Hc; subst; done. Qed.

Lemma clean_table m k t :
  clean (m, k, Table t) <->
  site_ok (m, k, Table t) /\ Forall (fun kv => clean (mode_below m k, Some kv.1, kv.2)) t.
Proof.
  rewrite clean_unfold, Forall_forall. split; intros [H1 H2]; (split; [done|]).
  - intros [k' v] Hin. by apply H2, child_table.
  - intros s' Hc. inversion Hc; subst. by eapply (H2 (k', v)).
Qed.

Lemma clean_array m k vs :
  clean (m, k, Array vs) <->
  site_ok (m, k, Array vs) /\ Forall (fun v => clean (mode_below m k, None, v)) vs.
Proof.
  rewrite clean_unfold, Forall_forall. split; intros [H1 H2]; (split; [done|]).
  - intros v Hin. by apply H2, child_array.
  - intros s' Hc. inversion Hc; subst. by apply H2.
Qed.

Lemma clean_leaf m k v : (forall s', ~ child (m, k, v) s') -> clean (m, k, v) <-> site_ok (m, k, v).
Proof. intros H. rewrite clean_unfold. split; [by intros [? _]|]. intros ?. split; [done|]. by intros ? ?%H. Qed.

(** The loops of the walk. *)
Definition walk_entries (mode : HeaderMode) (path : str) : list (str * Value) -> result ConfigError unit :=
  fix each entries :=
    match entries with
    | [] => Ok tt
    | (key, value) :: entries' =>
        validate_codex_secret_value value key (path ++ "." ++ key) mode ;; each entries'
    end.
Definition walk_elements (mode : HeaderMode) (path : str) : nat -> list Value -> result ConfigError unit :=
  fix each index values :=
    match values with
    | [] => Ok tt
    | value :: values' =>
        validate_codex_array_value value (path ++ "[" ++ dec (Z.of_nat index) ++ "]") mode ;;
        each (S index) values'
    end.

Definition decides (v : Value) : Prop :=
  (forall key path m, validate_codex_secret_value v key path m = Ok tt <-> clean (m, Some key, v)) /\
  (forall path m, validate_codex_array_value v path m = Ok tt <-> clean (m, None, v)).

Lemma walk_entries_spec mode path t :
  Forall (fun kv => decides kv.2) t ->
  walk_entries mode path t = Ok tt <-> Forall (fun kv => clean (mode, Some kv.1, kv.2)) t.
Proof.
  induction 1 as [|[k v] t [Hv _] _ IH]; cbn; [done|]. by rewrite bind_unit_Ok, Hv, IH, Forall_cons.
Qed.

Lemma walk_elements_spec mode path i vs :
  Forall decides vs ->
  walk_elements mode path i vs = Ok tt <-> Forall (fun v => clean (mode, None, v)) vs.
Proof.
  intros H. revert i. induction H as [|v vs [_ Hv] _ IH]; intros i; cbn; [done|].
  by rewrite bind_unit_Ok, Hv, IH, Forall_cons.
Qed.

(** The two functions in terms of their loops. *)
Definition children_ok (v : Value) (mode : HeaderMode) (path : str) : result ConfigError unit :=
  match v with
  | Table t => walk_entries mode path t
  | Array vs => walk_elements mode path 0 vs
  | _ => Ok tt
  end.

Lemma validate_value_unfold v key path m :
  validate_codex_secret_value v key path m = Ok tt <->
  site_ok (m, Some key, v) /\
  (m = Regular -> secret_environment_name_key key = false -> children_ok v (header_mode key) path = Ok tt).
Proof.
  assert (validate_codex_secret_value v key path m =
    match m with
    | Static => Err (static_header path "map the header name to a global-provider environment variable with `env_http_headers` instead")
    | EnvironmentMode => if names_environment v then Ok tt else Err (environment_header path)
    | Regular =>
        if secret_environment_name_key key then
          if names_environment v then Ok tt else Err (environment_setting path)
        else if secret_literal_key key && is_string v then Err (plaintext_codex_secret path)
        else children_ok v (header_mode key) path
    end) as -> by (by destruct v).
  destruct m; cbn [site_ok].
  - destruct (secret_environment_name_key key) eqn:Es.
    + destruct (names_environment v) eqn:En; [|by split; [|intros [H _]; destruct (H key eq_refl) as [H' _]; specialize (H' Es)]].
      split; [intros _|done]. split; [|done]. intros k [= <-]. split; [done|].
      intros Hl. exfalso. unfold secret_environment_name_key, secret_literal_key in *.
      apply andb_true_iff in Es as [E1 _], Hl as [E2 _]. by rewrite E1 in E2.
    + destruct (secret_literal_key key && is_string v) eqn:El.
      * split; [done|]. intros [H _]. apply andb_true_iff in El as [E1 E2].
        destruct (H key eq_refl) as [_ H']. by rewrite (H' E1) in E2.
      * split; [|intros [_ H]; by apply H]. intros Hc. split; [|done]. intros k [= <-]. rewrite Es.
        split; [done|]. intros Hl. by rewrite Hl in El.
  - split; [done|by intros [[] _]].
  - destruct (names_environment v); split; try done. by intros [? _].
Qed.

Lemma validate_array_unfold v path m :
  validate_codex_array_value v path m = Ok tt <->
  site_ok (m, None, v) /\ (m = Regular -> children_ok v m path = Ok tt).
Proof.
  assert (validate_codex_array_value v path m =
    match m with
    | Static => Err (static_header path "use `env_http_headers` instead")
    | EnvironmentMode => if names_environment v then Ok tt else Err (environment_header path)
    | Regular => children_ok v Regular path
    end) as -> by (by destruct m, v).
  destruct m; cbn [site_ok].
  - split; [done|]. intros [_ H]. by apply H.
  - split; [done|by intros [[] _]].
  - destruct (names_environment v); split; try done. by intros [? _].
Qed.

Lemma children_ok_spec v m k path :
  match v with
  | Table t => Forall (fun kv => decides kv.2) t
  | Array vs => Forall decides vs
  | _ => True
  end ->
  children_ok v (mode_below m k) path = Ok tt <-> forall s', child (m, k, v) s' -> clean s'.
Proof.
  intros H. destruct v as [| | | | |vs|t]; cbn [children_ok];
    try (split; [intros _ s' Hc; inversion Hc|done]).
  - rewrite walk_elements_spec, Forall_forall by done. split.
    + intros Hv s' Hc. inversion Hc; subst. by apply Hv.
    + intros Hc v Hin. by apply Hc, child_array.
  - rewrite walk_entries_spec, Forall_forall by done. split.
    + intros Hv s' Hc. inversion Hc; subst. by eapply (Hv (k', v)).
    + intros Hc [k' v] Hin. by apply Hc, child_table.
Qed.

Lemma all_decide v : decides v.
Proof.
  assert (forall v, match v with
    | Table t => Forall (fun kv => decides kv.2) t
    | Array vs => Forall decides vs
    | _ => True end -> decides v) as H.
  { clear v. intros v Hv. split.
    - intros key path m. rewrite validate_value_unfold, clean_unfold.
      pose proof (children_ok_spec v m (Some key) path Hv) as Hcs. cbn [mode_below] in Hcs.
      split; intros [H1 H2]; (split; [done|]).
      + intros s' Hc. destruct m; [|done|by apply names_environment_leaf in Hc].
        destruct (secret_environment_name_key key) eqn:Es; [|by apply Hcs; auto].
        destruct (H1 key eq_refl) as [H1' _]. by apply names_environment_leaf in Hc; [|apply H1'].
      + intros _ _. by apply Hcs.
    - intros path m. rewrite validate_array_unfold, clean_unfold.
      pose proof (children_ok_spec v m None path Hv) as Hcs. cbn [mode_below] in Hcs.
      split; intros [H1 H2]; (split; [done|]).
      + intros s' Hc. destruct m; [by apply Hcs; auto|done|by apply names_environment_leaf in Hc].
      + intros _. by apply Hcs. }
  induction v using Value_nested_ind; by apply H.
Qed.

(** ** Properties *)


(** A setting the walk must refuse, and one it must accept. *)
Example refuses_nested_token :
  is_ok (validate_codex_secret_literals
    [("mcp_servers" : str, Table [("docs" : str, Array [Table [("apiKey" : str, Integer 1);
        ("bearer-token" : str, String "abc")]])])] "codex.config") = false.
Proof. vm_compute. reflexivity. Qed.
Example accepts_environment_name :
  validate_codex_secret_literals
    [("model_providers" : str, Table [("x" : str, Table [("env_key" : str, String "KEY");
        ("env_http_headers" : str, Table [("Authorization" : str, String "AUTH_HEADER")])])])]
    "codex.config" = Ok tt.
Proof. vm_compute. reflexivity. Qed.

End CodexSecrets.
