(* ===== verification/ConfigPatch.v ===== *)
(** * Configuration layers ([codex-start-core/src/config.rs], [ConfigPatch])

    [ConfigPatch] is one partial settings layer.  Its serde conversion is built
    field by field from the codecs of [Codec.v], following the attributes of
    the source; [validate_patch] is its validation; [merged_with] goes through
    TOML values and is shown to be the plain field-wise overlay. *)

From S2P Require Export Codec ConfigTypes HostRules ContainerPath CodexSecrets.

(** The [toml] crate: its parser, and the messages of its conversion errors. *)
Class TomlCrate := {
  toml_parse : str -> result (str * option (Z * Z)) Toml.Value;
  toml_display : Toml.Value -> str;
  toml_ser_error : str;
  toml_de_error : Toml.Value -> str }.

Module ConfigPatch.
Import Toml Merge Codec ConfigTypes HostRules CodexSecrets.

(** ** Data *)

Record CodexPatch := mkCodexPatch {
  cx_profile : option str;
  cx_args : option (list str);
  cx_config : bmap Value }.
Definition CodexPatch_default : CodexPatch := mkCodexPatch None None [].

Record ConfigPatch := mkConfigPatch {
  profile : option str;
  environment : option str;
  runtime : option RuntimeKind;
  network : option NetworkMode;
  worktree : option WorktreeMode;
  home : option str;
  name : option str;
  publish : option (list str);
  rebuild : option bool;
  tty : option TtyMode;
  tmux : option bool;
  workdir : option str;
  allow_hosts : option (list str);
  allow_ssh_hosts : option (list str);
  secret_refs : bmap str;
  forwarding : option ForwardingPatch;
  git : option GitPatch;
  merge : option MergePatch;
  proxy : option ProxyPatch;
  resources : option ResourceValues;
  sessions : option SessionPatch;
  adapter : option AdapterPatch;
  updates : option UpdatePatch;
  codex : option CodexPatch }.

Definition ConfigPatch_default : ConfigPatch :=
  mkConfigPatch None None None None None None None None None None None None None None []
    None None None None None None None None None.

Definition built_in_defaults : ConfigPatch := {|
  profile := None;
  environment := Some ("generic" : str);
  runtime := Some RuntimeKind_Auto;
  network := Some NetworkMode_Allowlist;
  worktree := Some WorktreeMode_Auto;
  home := Some ("default" : str);
  name := None;
  publish := None;
  rebuild := Some false;
  tty := Some TtyMode_Auto;
  tmux := Some false;
  workdir := None;
  allow_hosts := None;
  allow_ssh_hosts := None;
  secret_refs := [];
  forwarding := Some {|
    fp_ssh_agent := Some cfg_unix;
    fp_ssh_agent_bridge := Some SshAgentBridge_Auto;
    fp_gpg_agent := Some cfg_unix;
    fp_git_config := Some true;
    fp_known_hosts := Some true;
    fp_host_ssh := Some true;
    fp_gh_config := Some true;
    fp_browser := Some true;
    fp_local_providers := Some true;
    fp_browser_opener := Some [];
    fp_host_ssh_program := Some ("ssh" : str);
    fp_oauth_callback_port := Some 1455%Z;
    fp_git_config_file := None;
    fp_known_hosts_file := None;
    fp_container_ssh_dir := Some ("/home/codex/.ssh" : str);
    fp_ssh_user := None |};
  git := Some (mkGitPatch (Some true) None (Some ("codex/" : str)) (Some []));
  merge := Some (mkMergePatch (Some DEFAULT_MERGE_MODEL));
  proxy := Some (mkProxyPatch (Some 3128) (Some 10) (Some 300) (Some 256) (Some true) (Some 10)
                   (Some 65536) (Some 5))%Z;
  resources := None;
  sessions := Some (mkSessionPatch (Some false) (Some SessionExitBehavior_Prompt) (Some cfg_unix));
  adapter := Some (mkAdapterPatch (Some 300%Z));
  updates := Some (mkUpdatePatch (Some true) (Some 24%Z) (Some false));
  codex := Some (mkCodexPatch None None
    (bcollect [("sandbox_mode" : str, String "danger-full-access");
               ("approval_policy" : str, String "on-request")])) |}.

(** ** Codecs of the enums and limits *)

Definition runtime_codec : codec RuntimeKind := enum_codec
  [("auto" : str, RuntimeKind_Auto); ("docker" : str, RuntimeKind_Docker); ("podman" : str, RuntimeKind_Podman)].
Definition network_codec : codec NetworkMode := enum_codec
  [("offline" : str, NetworkMode_Offline); ("allowlist" : str, NetworkMode_Allowlist);
   ("bridge" : str, NetworkMode_Bridge); ("host" : str, NetworkMode_Host)].
Definition worktree_codec : codec WorktreeMode := enum_codec
  [("auto" : str, WorktreeMode_Auto); ("always" : str, WorktreeMode_Always); ("never" : str, WorktreeMode_Never)].
Definition tty_codec : codec TtyMode := enum_codec
  [("auto" : str, TtyMode_Auto); ("always" : str, TtyMode_Always); ("never" : str, TtyMode_Never)].
Definition ssh_agent_bridge_codec : codec SshAgentBridge := enum_codec
  [("auto" : str, SshAgentBridge_Auto); ("socket" : str, SshAgentBridge_Socket); ("tcp" : str, SshAgentBridge_Tcp)].
Definition exit_codec : codec SessionExitBehavior := enum_codec
  [("prompt" : str, SessionExitBehavior_Prompt); ("detach" : str, SessionExitBehavior_Detach);
   ("stop" : str, SessionExitBehavior_Stop)].

Definition memory_codec : codec MemorySize :=
  scalar (fun m => Some (String (MemorySize_serialize m)))
    (fun v => s ← as_str v; ok (MemorySize_deserialize s))
    (fun m => exists v p, MemorySize_parse v p = Ok m).
Definition memory_swap_codec : codec MemorySwapLimit :=
  scalar (fun m => Some (String (MemorySwapLimit_serialize m)))
    (fun v => s ← as_str v; ok (MemorySwapLimit_deserialize s))
    (fun m => match m with Unlimited => True | Size m => exists v p, MemorySize_parse v p = Ok m end).
Definition ulimit_codec : codec Ulimit :=
  scalar (fun u => Some (String (Ulimit_serialize u)))
    (fun v => s ← as_str v; ok (Ulimit_deserialize s))
    ulimit_valid.

(** ** Typed values: what the Rust types of a field can hold *)

Definition typed_opt {A} (c : codec A) (o : option A) : Prop := forall a, o = Some a -> typed c a.

Lemma typed_opt_ov {A} (c : codec A) `{!CodecLaws c} a b :
  typed_opt c a -> typed_opt c b -> typed_opt c (opt_ov (ov c) a b).
Proof.
  intros Ha Hb x. destruct a as [a|], b as [b|]; cbn; try (by intros [= <-]; auto).
  intros [= <-]. apply typed_ov; auto.
Qed.

#[export] Existing Instances bool_laws string_laws path_laws strings_laws int_laws value_laws map_laws.

#[export] Instance u64_laws : CodecLaws u64_codec.
Proof. apply int_laws. Qed.
#[export] Instance u16_laws : CodecLaws u16_codec.
Proof. apply int_laws. Qed.
#[export] Instance i64_laws : CodecLaws i64_codec.
Proof. apply int_laws. Qed.
#[export] Instance runtime_laws : CodecLaws runtime_codec.
Proof. apply enum_laws. Qed.
#[export] Instance network_laws : CodecLaws network_codec.
Proof. apply enum_laws. Qed.
#[export] Instance worktree_laws : CodecLaws worktree_codec.
Proof. apply enum_laws. Qed.
#[export] Instance tty_laws : CodecLaws tty_codec.
Proof. apply enum_laws. Qed.
#[export] Instance ssh_agent_bridge_laws : CodecLaws ssh_agent_bridge_codec.
Proof. apply enum_laws. Qed.
#[export] Instance exit_laws : CodecLaws exit_codec.
Proof. apply enum_laws. Qed.

#[export] Instance memory_laws : CodecLaws memory_codec.
Proof.
  apply scalar_laws. intros m v (w & p & Hm) [= <-]. split; [|done]. cbn.
  unfold MemorySize_deserialize. by rewrite (MemorySize_reparse w p _ m Hm).
Qed.
#[export] Instance memory_swap_laws : CodecLaws memory_swap_codec.
Proof.
  apply scalar_laws. intros [|m] v Hm [= <-]; (split; [|done]); [done|].
  destruct Hm as (w & p & Hm). cbn. unfold MemorySwapLimit_deserialize.
  destruct (MemorySize_value_digit w p m Hm) as (c & r & E & Hc).
  destruct (ms_value m =s? "-1") eqn:E1.
  { apply str_eqb_eq in E1. rewrite E in E1. injection E1 as -> _. done. }
  pose proof (MemorySize_reparse w p "resources.memory_swap" m Hm) as H.
  unfold MemorySize_serialize in H. by rewrite H.
Qed.
#[export] Instance ulimit_laws : CodecLaws ulimit_codec.
Proof.
  apply scalar_laws. intros u v Hu [= <-]. split; [|done]. cbn.
  unfold Ulimit_deserialize, Ulimit_serialize. by rewrite Ulimit_parse_print.
Qed.

Section cpu_codec.
Context {F : F64}.

(** A CPU count as a TOML number; a float is held as its text. *)
Definition cpu_codec : codec CpuLimit :=
  scalar
    (fun c => match CpuLimit_serialize c with
              | Ok (OutputU64 n) => if (n <=? I64_MAX)%Z then Some (Integer n) else None
              | Ok (OutputF64 v) => Some (Float (f64_to_string v))
              | Err _ => None
              end)
    (fun v => match v with
              | Integer n => ok (CpuLimit_deserialize (InputI64 n))
              | Float text => v ← f64_parse text; ok (CpuLimit_deserialize (InputF64 v))
              | _ => None
              end)
    (fun c => exists input, CpuLimit_deserialize input = Ok c /\
       match input with
       | InputI64 n => (n <= I64_MAX)%Z
       | InputU64 n => (n <= U64_MAX)%Z
       | InputF64 _ => True
       end).

#[export] Instance cpu_laws {FL : F64Laws F} : CodecLaws cpu_codec.
Proof.
  apply scalar_laws. intros c v (input & Hd & Hi).
  assert (forall n, (0 < n <= U64_MAX)%Z -> c = mkCpuLimit (dec n) ->
    match CpuLimit_serialize c with
    | Ok (OutputU64 n) => if (n <=? I64_MAX)%Z then Some (Integer n) else None
    | Ok (OutputF64 v) => Some (Float (f64_to_string v))
    | Err _ => None end = Some v ->
    v = Integer n /\ ok (CpuLimit_deserialize (InputI64 n)) = Some c) as Hint.
  { intros n Hn -> . unfold CpuLimit_serialize, parse_u64. cbn [cpu_value].
    rewrite parse_uint_dec by lia. destruct (n <=? I64_MAX)%Z; [|done]. intros [= <-].
    split; [done|]. cbn. unfold CpuLimit_from_integer. by rewrite (proj2 (Z.ltb_lt 0 n)) by lia. }
  assert (forall n, (n <= U64_MAX)%Z -> CpuLimit_from_integer n (0 <? n)%Z = Ok c ->
            (0 < n <= U64_MAX)%Z /\ c = mkCpuLimit (dec n)) as Hfrom.
  { unfold CpuLimit_from_integer. intros n Hn. rewrite err_if_bind_Ok, negb_false_iff, Z.ltb_lt.
    intros [? [= <-]]. split; [lia|done]. }
  destruct input as [n|n|f]; cbn in Hd.
  - destruct (Hfrom n) as [Hn E]; [unfold I64_MAX, U64_MAX in *; lia|done|].
    intros H. destruct (Hint n Hn E H) as [-> ?]. done.
  - destruct (Hfrom n) as [Hn E]; [done..|].
    intros H. destruct (Hint n Hn E H) as [-> ?]. done.
  - unfold CpuLimit_from_f64 in Hd. rewrite err_if_bind_Ok, orb_false_iff, negb_false_iff in Hd.
    destruct Hd as [[Hfin Hpos] [= <-]]. unfold CpuLimit_serialize. cbn [cpu_value].
    destruct (parse_u64 (f64_to_string f)) as [n|] eqn:En.
    + destruct (f64_print_integer f n Hfin Hpos En) as [E Hn]. destruct (n <=? I64_MAX)%Z; [|done].
      intros [= <-]. split; [|done]. cbn. unfold CpuLimit_from_integer.
      rewrite (proj2 (Z.ltb_lt 0 n)) by lia. cbn. by rewrite E.
    + rewrite f64_parse_to_string by done. cbn. intros [= <-]. split; [|done]. cbn.
      rewrite f64_parse_to_string by done. cbn. unfold CpuLimit_from_f64. by rewrite Hfin, Hpos.
Qed.
End cpu_codec.

(** ** Struct codecs

    One line per field: its codec, its key, and its place in the record. *)

#[local] Arguments typed : simpl never.
#[local] Arguments ov : simpl never.

(** The laws of a struct codec from those of its fields. *)
Ltac in_fields := repeat first [apply list_elem_of_here | apply list_elem_of_further].
Ltac decode_fields HF Hk :=
  repeat first
    [ erewrite (dec_field_enc _ _ _ _ _ _ HF Hk);
        [cbn [mbind option_bind] | by apply (bool_decide_eq_true_1 _); vm_compute | in_fields | assumption]
    | erewrite (dec_map_field_enc _ _ _ _ _ _ HF Hk);
        [cbn [mbind option_bind] | by apply (bool_decide_eq_true_1 _); vm_compute | in_fields | assumption] ].
Ltac struct_codec_laws :=
  apply struct_laws;
  [ by apply (bool_decide_eq_true_1 _); vm_compute
  | intros a b Ha Hb; cbn in Ha, Hb |- *; destruct_and?;
    repeat (apply fields_merge_cons; [first [apply enc_field_merges; [apply _|assumption..] | apply enc_map_field_merges; [apply _|assumption..]]|]);
    apply fields_merge_nil
  | intros a b Ha Hb; cbn in Ha, Hb |- *; destruct_and?; split_and?;
    first [apply typed_opt_ov; [apply _|assumption..] | apply (typed_ov (c := map_codec _)); assumption]
  | intros a l Ha HF Hk; cbn in Ha; destruct_and?; decode_fields HF Hk; by destruct a ].

Section codecs.
Context {F : F64} {FL : F64Laws F}.

Definition adapter_codec : codec AdapterPatch := struct_codec
  ["idle_timeout_seconds"]
  (fun p =>
    [enc_field u64_codec "idle_timeout_seconds" (adapter_idle_timeout_seconds p)])
  (fun t =>
     idle_timeout_seconds ← dec_field u64_codec "idle_timeout_seconds" t;
     Some (mkAdapterPatch idle_timeout_seconds))
  (fun a b => mkAdapterPatch
     (opt_ov (ov u64_codec) (adapter_idle_timeout_seconds a) (adapter_idle_timeout_seconds b)))
  (fun p =>
     typed_opt u64_codec (adapter_idle_timeout_seconds p)).
#[export] Instance adapter_struct_laws : CodecLaws adapter_codec.
Proof. struct_codec_laws. Qed.

Definition session_codec : codec SessionPatch := struct_codec
  ["enabled"; "on_tui_exit"; "refresh_ssh_on_attach"]
  (fun p =>
    [enc_field bool_codec "enabled" (session_enabled p);
     enc_field exit_codec "on_tui_exit" (session_on_tui_exit p);
     enc_field bool_codec "refresh_ssh_on_attach" (session_refresh_ssh_on_attach p)])
  (fun t =>
     enabled ← dec_field bool_codec "enabled" t;
     on_tui_exit ← dec_field exit_codec "on_tui_exit" t;
     refresh_ssh_on_attach ← dec_field bool_codec "refresh_ssh_on_attach" t;
     Some (mkSessionPatch enabled on_tui_exit refresh_ssh_on_attach))
  (fun a b => mkSessionPatch
     (opt_ov (ov bool_codec) (session_enabled a) (session_enabled b))
     (opt_ov (ov exit_codec) (session_on_tui_exit a) (session_on_tui_exit b))
     (opt_ov (ov bool_codec) (session_refresh_ssh_on_attach a) (session_refresh_ssh_on_attach b)))
  (fun p =>
     typed_opt bool_codec (session_enabled p) /\
     typed_opt exit_codec (session_on_tui_exit p) /\
     typed_opt bool_codec (session_refresh_ssh_on_attach p)).
#[export] Instance session_struct_laws : CodecLaws session_codec.
Proof. struct_codec_laws. Qed.

Definition update_codec : codec UpdatePatch := struct_codec
  ["enabled"; "check_interval_hours"; "require_signature"]
  (fun p =>
    [enc_field bool_codec "enabled" (update_enabled p);
     enc_field u64_codec "check_interval_hours" (update_check_interval_hours p);
     enc_field bool_codec "require_signature" (update_require_signature p)])
  (fun t =>
     enabled ← dec_field bool_codec "enabled" t;
     check_interval_hours ← dec_field u64_codec "check_interval_hours" t;
     require_signature ← dec_field bool_codec "require_signature" t;
     Some (mkUpdatePatch enabled check_interval_hours require_signature))
  (fun a b => mkUpdatePatch
     (opt_ov (ov bool_codec) (update_enabled a) (update_enabled b))
     (opt_ov (ov u64_codec) (update_check_interval_hours a) (update_check_interval_hours b))
     (opt_ov (ov bool_codec) (update_require_signature a) (update_require_signature b)))
  (fun p =>
     typed_opt bool_codec (update_enabled p) /\
     typed_opt u64_codec (update_check_interval_hours p) /\
     typed_opt bool_codec (update_require_signature p)).
#[export] Instance update_struct_laws : CodecLaws update_codec.
Proof. struct_codec_laws. Qed.

Definition forwarding_codec : codec ForwardingPatch := struct_codec
  ["ssh_agent"; "ssh_agent_bridge"; "gpg_agent"; "git_config"; "known_hosts"; "host_ssh";
     "gh_config"; "browser"; "local_providers"; "browser_opener"; "host_ssh_program";
     "oauth_callback_port"; "git_config_file"; "known_hosts_file"; "container_ssh_dir";
     "ssh_user"]
  (fun p =>
    [enc_field bool_codec "ssh_agent" (fp_ssh_agent p);
     enc_field ssh_agent_bridge_codec "ssh_agent_bridge" (fp_ssh_agent_bridge p);
     enc_field bool_codec "gpg_agent" (fp_gpg_agent p);
     enc_field bool_codec "git_config" (fp_git_config p);
     enc_field bool_codec "known_hosts" (fp_known_hosts p);
     enc_field bool_codec "host_ssh" (fp_host_ssh p);
     enc_field bool_codec "gh_config" (fp_gh_config p);
     enc_field bool_codec "browser" (fp_browser p);
     enc_field bool_codec "local_providers" (fp_local_providers p);
     enc_field strings_codec "browser_opener" (fp_browser_opener p);
     enc_field path_codec "host_ssh_program" (fp_host_ssh_program p);
     enc_field u16_codec "oauth_callback_port" (fp_oauth_callback_port p);
     enc_field path_codec "git_config_file" (fp_git_config_file p);
     enc_field path_codec "known_hosts_file" (fp_known_hosts_file p);
     enc_field path_codec "container_ssh_dir" (fp_container_ssh_dir p);
     enc_field string_codec "ssh_user" (fp_ssh_user p)])
  (fun t =>
     ssh_agent ← dec_field bool_codec "ssh_agent" t;
     ssh_agent_bridge ← dec_field ssh_agent_bridge_codec "ssh_agent_bridge" t;
     gpg_agent ← dec_field bool_codec "gpg_agent" t;
     git_config ← dec_field bool_codec "git_config" t;
     known_hosts ← dec_field bool_codec "known_hosts" t;
     host_ssh ← dec_field bool_codec "host_ssh" t;
     gh_config ← dec_field bool_codec "gh_config" t;
     browser ← dec_field bool_codec "browser" t;
     local_providers ← dec_field bool_codec "local_providers" t;
     browser_opener ← dec_field strings_codec "browser_opener" t;
     host_ssh_program ← dec_field path_codec "host_ssh_program" t;
     oauth_callback_port ← dec_field u16_codec "oauth_callback_port" t;
     git_config_file ← dec_field path_codec "git_config_file" t;
     known_hosts_file ← dec_field path_codec "known_hosts_file" t;
     container_ssh_dir ← dec_field path_codec "container_ssh_dir" t;
     ssh_user ← dec_field string_codec "ssh_user" t;
     Some (mkForwardingPatch ssh_agent ssh_agent_bridge gpg_agent git_config known_hosts host_ssh gh_config browser local_providers browser_opener host_ssh_program oauth_callback_port git_config_file known_hosts_file container_ssh_dir ssh_user))
  (fun a b => mkForwardingPatch
     (opt_ov (ov bool_codec) (fp_ssh_agent a) (fp_ssh_agent b))
     (opt_ov (ov ssh_agent_bridge_codec) (fp_ssh_agent_bridge a) (fp_ssh_agent_bridge b))
     (opt_ov (ov bool_codec) (fp_gpg_agent a) (fp_gpg_agent b))
     (opt_ov (ov bool_codec) (fp_git_config a) (fp_git_config b))
     (opt_ov (ov bool_codec) (fp_known_hosts a) (fp_known_hosts b))
     (opt_ov (ov bool_codec) (fp_host_ssh a) (fp_host_ssh b))
     (opt_ov (ov bool_codec) (fp_gh_config a) (fp_gh_config b))
     (opt_ov (ov bool_codec) (fp_browser a) (fp_browser b))
     (opt_ov (ov bool_codec) (fp_local_providers a) (fp_local_providers b))
     (opt_ov (ov strings_codec) (fp_browser_opener a) (fp_browser_opener b))
     (opt_ov (ov path_codec) (fp_host_ssh_program a) (fp_host_ssh_program b))
     (opt_ov (ov u16_codec) (fp_oauth_callback_port a) (fp_oauth_callback_port b))
     (opt_ov (ov path_codec) (fp_git_config_file a) (fp_git_config_file b))
     (opt_ov (ov path_codec) (fp_known_hosts_file a) (fp_known_hosts_file b))
     (opt_ov (ov path_codec) (fp_container_ssh_dir a) (fp_container_ssh_dir b))
     (opt_ov (ov string_codec) (fp_ssh_user a) (fp_ssh_user b)))
  (fun p =>
     typed_opt bool_codec (fp_ssh_agent p) /\
     typed_opt ssh_agent_bridge_codec (fp_ssh_agent_bridge p) /\
     typed_opt bool_codec (fp_gpg_agent p) /\
     typed_opt bool_codec (fp_git_config p) /\
     typed_opt bool_codec (fp_known_hosts p) /\
     typed_opt bool_codec (fp_host_ssh p) /\
     typed_opt bool_codec (fp_gh_config p) /\
     typed_opt bool_codec (fp_browser p) /\
     typed_opt bool_codec (fp_local_providers p) /\
     typed_opt strings_codec (fp_browser_opener p) /\
     typed_opt path_codec (fp_host_ssh_program p) /\
     typed_opt u16_codec (fp_oauth_callback_port p) /\
     typed_opt path_codec (fp_git_config_file p) /\
     typed_opt path_codec (fp_known_hosts_file p) /\
     typed_opt path_codec (fp_container_ssh_dir p) /\
     typed_opt string_codec (fp_ssh_user p)).
#[export] Instance forwarding_struct_laws : CodecLaws forwarding_codec.
Proof. struct_codec_laws. Qed.

Definition git_codec : codec GitPatch := struct_codec
  ["cleanup_untouched"; "worktree_base"; "branch_prefix"; "editor"]
  (fun p =>
    [enc_field bool_codec "cleanup_untouched" (gp_cleanup_untouched p);
     enc_field path_codec "worktree_base" (gp_worktree_base p);
     enc_field string_codec "branch_prefix" (gp_branch_prefix p);
     enc_field strings_codec "editor" (gp_editor p)])
  (fun t =>
     cleanup_untouched ← dec_field bool_codec "cleanup_untouched" t;
     worktree_base ← dec_field path_codec "worktree_base" t;
     branch_prefix ← dec_field string_codec "branch_prefix" t;
     editor ← dec_field strings_codec "editor" t;
     Some (mkGitPatch cleanup_untouched worktree_base branch_prefix editor))
  (fun a b => mkGitPatch
     (opt_ov (ov bool_codec) (gp_cleanup_untouched a) (gp_cleanup_untouched b))
     (opt_ov (ov path_codec) (gp_worktree_base a) (gp_worktree_base b))
     (opt_ov (ov string_codec) (gp_branch_prefix a) (gp_branch_prefix b))
     (opt_ov (ov strings_codec) (gp_editor a) (gp_editor b)))
  (fun p =>
     typed_opt bool_codec (gp_cleanup_untouched p) /\
     typed_opt path_codec (gp_worktree_base p) /\
     typed_opt string_codec (gp_branch_prefix p) /\
     typed_opt strings_codec (gp_editor p)).
#[export] Instance git_struct_laws : CodecLaws git_codec.
Proof. struct_codec_laws. Qed.

Definition merge_codec : codec MergePatch := struct_codec
  ["model"]
  (fun p =>
    [enc_field string_codec "model" (mp_model p)])
  (fun t =>
     model ← dec_field string_codec "model" t;
     Some (mkMergePatch model))
  (fun a b => mkMergePatch
     (opt_ov (ov string_codec) (mp_model a) (mp_model b)))
  (fun p =>
     typed_opt string_codec (mp_model p)).
#[export] Instance merge_struct_laws : CodecLaws merge_codec.
Proof. struct_codec_laws. Qed.

Definition proxy_codec : codec ProxyPatch := struct_codec
  ["listen_port"; "connect_timeout_seconds"; "idle_timeout_seconds"; "max_connections";
     "block_private_addresses"; "header_timeout_seconds"; "max_header_bytes";
     "handshake_timeout_seconds"]
  (fun p =>
    [enc_field u16_codec "listen_port" (pp_listen_port p);
     enc_field u64_codec "connect_timeout_seconds" (pp_connect_timeout_seconds p);
     enc_field u64_codec "idle_timeout_seconds" (pp_idle_timeout_seconds p);
     enc_field u64_codec "max_connections" (pp_max_connections p);
     enc_field bool_codec "block_private_addresses" (pp_block_private_addresses p);
     enc_field u64_codec "header_timeout_seconds" (pp_header_timeout_seconds p);
     enc_field u64_codec "max_header_bytes" (pp_max_header_bytes p);
     enc_field u64_codec "handshake_timeout_seconds" (pp_handshake_timeout_seconds p)])
  (fun t =>
     listen_port ← dec_field u16_codec "listen_port" t;
     connect_timeout_seconds ← dec_field u64_codec "connect_timeout_seconds" t;
     idle_timeout_seconds ← dec_field u64_codec "idle_timeout_seconds" t;
     max_connections ← dec_field u64_codec "max_connections" t;
     block_private_addresses ← dec_field bool_codec "block_private_addresses" t;
     header_timeout_seconds ← dec_field u64_codec "header_timeout_seconds" t;
     max_header_bytes ← dec_field u64_codec "max_header_bytes" t;
     handshake_timeout_seconds ← dec_field u64_codec "handshake_timeout_seconds" t;
     Some (mkProxyPatch listen_port connect_timeout_seconds idle_timeout_seconds max_connections block_private_addresses header_timeout_seconds max_header_bytes handshake_timeout_seconds))
  (fun a b => mkProxyPatch
     (opt_ov (ov u16_codec) (pp_listen_port a) (pp_listen_port b))
     (opt_ov (ov u64_codec) (pp_connect_timeout_seconds a) (pp_connect_timeout_seconds b))
     (opt_ov (ov u64_codec) (pp_idle_timeout_seconds a) (pp_idle_timeout_seconds b))
     (opt_ov (ov u64_codec) (pp_max_connections a) (pp_max_connections b))
     (opt_ov (ov bool_codec) (pp_block_private_addresses a) (pp_block_private_addresses b))
     (opt_ov (ov u64_codec) (pp_header_timeout_seconds a) (pp_header_timeout_seconds b))
     (opt_ov (ov u64_codec) (pp_max_header_bytes a) (pp_max_header_bytes b))
     (opt_ov (ov u64_codec) (pp_handshake_timeout_seconds a) (pp_handshake_timeout_seconds b)))
  (fun p =>
     typed_opt u16_codec (pp_listen_port p) /\
     typed_opt u64_codec (pp_connect_timeout_seconds p) /\
     typed_opt u64_codec (pp_idle_timeout_seconds p) /\
     typed_opt u64_codec (pp_max_connections p) /\
     typed_opt bool_codec (pp_block_private_addresses p) /\
     typed_opt u64_codec (pp_header_timeout_seconds p) /\
     typed_opt u64_codec (pp_max_header_bytes p) /\
     typed_opt u64_codec (pp_handshake_timeout_seconds p)).
#[export] Instance proxy_struct_laws : CodecLaws proxy_codec.
Proof. struct_codec_laws. Qed.

Definition resources_codec : codec ResourceValues := struct_codec
  ["cpus"; "cpu_shares"; "cpuset_cpus"; "memory"; "memory_reservation"; "memory_swap";
     "pids_limit"; "shm_size"; "ulimits"]
  (fun p =>
    [enc_field cpu_codec "cpus" (cpus p);
     enc_field u64_codec "cpu_shares" (cpu_shares p);
     enc_field string_codec "cpuset_cpus" (cpuset_cpus p);
     enc_field memory_codec "memory" (memory p);
     enc_field memory_codec "memory_reservation" (memory_reservation p);
     enc_field memory_swap_codec "memory_swap" (memory_swap p);
     enc_field i64_codec "pids_limit" (pids_limit p);
     enc_field memory_codec "shm_size" (shm_size p);
     enc_map_field (map_codec ulimit_codec) "ulimits" (ulimits p)])
  (fun t =>
     cpus ← dec_field cpu_codec "cpus" t;
     cpu_shares ← dec_field u64_codec "cpu_shares" t;
     cpuset_cpus ← dec_field string_codec "cpuset_cpus" t;
     memory ← dec_field memory_codec "memory" t;
     memory_reservation ← dec_field memory_codec "memory_reservation" t;
     memory_swap ← dec_field memory_swap_codec "memory_swap" t;
     pids_limit ← dec_field i64_codec "pids_limit" t;
     shm_size ← dec_field memory_codec "shm_size" t;
     ulimits ← dec_map_field (map_codec ulimit_codec) "ulimits" t;
     Some (mkResourceValues cpus cpu_shares cpuset_cpus memory memory_reservation memory_swap pids_limit shm_size ulimits))
  (fun a b => mkResourceValues
     (opt_ov (ov cpu_codec) (cpus a) (cpus b))
     (opt_ov (ov u64_codec) (cpu_shares a) (cpu_shares b))
     (opt_ov (ov string_codec) (cpuset_cpus a) (cpuset_cpus b))
     (opt_ov (ov memory_codec) (memory a) (memory b))
     (opt_ov (ov memory_codec) (memory_reservation a) (memory_reservation b))
     (opt_ov (ov memory_swap_codec) (memory_swap a) (memory_swap b))
     (opt_ov (ov i64_codec) (pids_limit a) (pids_limit b))
     (opt_ov (ov memory_codec) (shm_size a) (shm_size b))
     (map_ov (ov ulimit_codec) (ulimits b) (ulimits a)))
  (fun p =>
     typed_opt cpu_codec (cpus p) /\
     typed_opt u64_codec (cpu_shares p) /\
     typed_opt string_codec (cpuset_cpus p) /\
     typed_opt memory_codec (memory p) /\
     typed_opt memory_codec (memory_reservation p) /\
     typed_opt memory_swap_codec (memory_swap p) /\
     typed_opt i64_codec (pids_limit p) /\
     typed_opt memory_codec (shm_size p) /\
     typed (map_codec ulimit_codec) (ulimits p)).
#[export] Instance resources_struct_laws : CodecLaws resources_codec.
Proof. struct_codec_laws. Qed.

Definition codex_codec : codec CodexPatch := struct_codec
  ["profile"; "args"; "config"]
  (fun p =>
    [enc_field string_codec "profile" (cx_profile p);
     enc_field strings_codec "args" (cx_args p);
     enc_map_field (map_codec value_codec) "config" (cx_config p)])
  (fun t =>
     profile ← dec_field string_codec "profile" t;
     args ← dec_field strings_codec "args" t;
     config ← dec_map_field (map_codec value_codec) "config" t;
     Some (mkCodexPatch profile args config))
  (fun a b => mkCodexPatch
     (opt_ov (ov string_codec) (cx_profile a) (cx_profile b))
     (opt_ov (ov strings_codec) (cx_args a) (cx_args b))
     (map_ov (ov value_codec) (cx_config b) (cx_config a)))
  (fun p =>
     typed_opt string_codec (cx_profile p) /\
     typed_opt strings_codec (cx_args p) /\
     typed (map_codec value_codec) (cx_config p)).
#[export] Instance codex_struct_laws : CodecLaws codex_codec.
Proof. struct_codec_laws. Qed.

Definition patch_codec : codec ConfigPatch := struct_codec
  ["profile"; "environment"; "runtime"; "network"; "worktree"; "home"; "name"; "publish";
     "rebuild"; "tty"; "tmux"; "workdir"; "allow_hosts"; "allow_ssh_hosts"; "secret_refs";
     "forwarding"; "git"; "merge"; "proxy"; "resources"; "sessions"; "adapter"; "updates";
     "codex"]
  (fun p =>
    [enc_field string_codec "profile" (profile p);
     enc_field string_codec "environment" (environment p);
     enc_field runtime_codec "runtime" (runtime p);
     enc_field network_codec "network" (network p);
     enc_field worktree_codec "worktree" (worktree p);
     enc_field string_codec "home" (home p);
     enc_field string_codec "name" (name p);
     enc_field strings_codec "publish" (publish p);
     enc_field bool_codec "rebuild" (rebuild p);
     enc_field tty_codec "tty" (tty p);
     enc_field bool_codec "tmux" (tmux p);
     enc_field path_codec "workdir" (workdir p);
     enc_field strings_codec "allow_hosts" (allow_hosts p);
     enc_field strings_codec "allow_ssh_hosts" (allow_ssh_hosts p);
     enc_map_field (map_codec string_codec) "secret_refs" (secret_refs p);
     enc_field forwarding_codec "forwarding" (forwarding p);
     enc_field git_codec "git" (git p);
     enc_field merge_codec "merge" (merge p);
     enc_field proxy_codec "proxy" (proxy p);
     enc_field resources_codec "resources" (resources p);
     enc_field session_codec "sessions" (sessions p);
     enc_field adapter_codec "adapter" (adapter p);
     enc_field update_codec "updates" (updates p);
     enc_field codex_codec "codex" (codex p)])
  (fun t =>
     profile ← dec_field string_codec "profile" t;
     environment ← dec_field string_codec "environment" t;
     runtime ← dec_field runtime_codec "runtime" t;
     network ← dec_field network_codec "network" t;
     worktree ← dec_field worktree_codec "worktree" t;
     home ← dec_field string_codec "home" t;
     name ← dec_field string_codec "name" t;
     publish ← dec_field strings_codec "publish" t;
     rebuild ← dec_field bool_codec "rebuild" t;
     tty ← dec_field tty_codec "tty" t;
     tmux ← dec_field bool_codec "tmux" t;
     workdir ← dec_field path_codec "workdir" t;
     allow_hosts ← dec_field strings_codec "allow_hosts" t;
     allow_ssh_hosts ← dec_field strings_codec "allow_ssh_hosts" t;
     secret_refs ← dec_map_field (map_codec string_codec) "secret_refs" t;
     forwarding ← dec_field forwarding_codec "forwarding" t;
     git ← dec_field git_codec "git" t;
     merge ← dec_field merge_codec "merge" t;
     proxy ← dec_field proxy_codec "proxy" t;
     resources ← dec_field resources_codec "resources" t;
     sessions ← dec_field session_codec "sessions" t;
     adapter ← dec_field adapter_codec "adapter" t;
     updates ← dec_field update_codec "updates" t;
     codex ← dec_field codex_codec "codex" t;
     Some (mkConfigPatch profile environment runtime network worktree home name publish rebuild tty tmux workdir allow_hosts allow_ssh_hosts secret_refs forwarding git merge proxy resources sessions adapter updates codex))
  (fun a b => mkConfigPatch
     (opt_ov (ov string_codec) (profile a) (profile b))
     (opt_ov (ov string_codec) (environment a) (environment b))
     (opt_ov (ov runtime_codec) (runtime a) (runtime b))
     (opt_ov (ov network_codec) (network a) (network b))
     (opt_ov (ov worktree_codec) (worktree a) (worktree b))
     (opt_ov (ov string_codec) (home a) (home b))
     (opt_ov (ov string_codec) (name a) (name b))
     (opt_ov (ov strings_codec) (publish a) (publish b))
     (opt_ov (ov bool_codec) (rebuild a) (rebuild b))
     (opt_ov (ov tty_codec) (tty a) (tty b))
     (opt_ov (ov bool_codec) (tmux a) (tmux b))
     (opt_ov (ov path_codec) (workdir a) (workdir b))
     (opt_ov (ov strings_codec) (allow_hosts a) (allow_hosts b))
     (opt_ov (ov strings_codec) (allow_ssh_hosts a) (allow_ssh_hosts b))
     (map_ov (ov string_codec) (secret_refs b) (secret_refs a))
     (opt_ov (ov forwarding_codec) (forwarding a) (forwarding b))
     (opt_ov (ov git_codec) (git a) (git b))
     (opt_ov (ov merge_codec) (merge a) (merge b))
     (opt_ov (ov proxy_codec) (proxy a) (proxy b))
     (opt_ov (ov resources_codec) (resources a) (resources b))
     (opt_ov (ov session_codec) (sessions a) (sessions b))
     (opt_ov (ov adapter_codec) (adapter a) (adapter b))
     (opt_ov (ov update_codec) (updates a) (updates b))
     (opt_ov (ov codex_codec) (codex a) (codex b)))
  (fun p =>
     typed_opt string_codec (profile p) /\
     typed_opt string_codec (environment p) /\
     typed_opt runtime_codec (runtime p) /\
     typed_opt network_codec (network p) /\
     typed_opt worktree_codec (worktree p) /\
     typed_opt string_codec (home p) /\
     typed_opt string_codec (name p) /\
     typed_opt strings_codec (publish p) /\
     typed_opt bool_codec (rebuild p) /\
     typed_opt tty_codec (tty p) /\
     typed_opt bool_codec (tmux p) /\
     typed_opt path_codec (workdir p) /\
     typed_opt strings_codec (allow_hosts p) /\
     typed_opt strings_codec (allow_ssh_hosts p) /\
     typed (map_codec string_codec) (secret_refs p) /\
     typed_opt forwarding_codec (forwarding p) /\
     typed_opt git_codec (git p) /\
     typed_opt merge_codec (merge p) /\
     typed_opt proxy_codec (proxy p) /\
     typed_opt resources_codec (resources p) /\
     typed_opt session_codec (sessions p) /\
     typed_opt adapter_codec (adapter p) /\
     typed_opt update_codec (updates p) /\
     typed_opt codex_codec (codex p)).
#[export] Instance patch_struct_laws : CodecLaws patch_codec.
Proof. struct_codec_laws. Qed.
End codecs.

(** ** Validation *)

Section validation.
Context {I : Idna}.

Definition is_zero (o : option Z) : bool := bool_decide (o = Some 0%Z).

Definition validate_proxy_patch (proxy : ProxyPatch) : result ConfigError unit :=
  err_if (is_zero (pp_listen_port proxy)
          || is_zero (pp_connect_timeout_seconds proxy)
          || is_zero (pp_idle_timeout_seconds proxy)
          || is_zero (pp_max_connections proxy)
          || is_zero (pp_header_timeout_seconds proxy)
          || is_zero (pp_max_header_bytes proxy)
          || is_zero (pp_handshake_timeout_seconds proxy))
    (Invalid "proxy listen_port, timeouts, and max_connections must be non-zero").

(** An optional host path that is neither absolute nor below the home. *)
Definition invalid_home_path (path : option str) : bool :=
  is_some_and path (fun path =>
    negb (is_absolute path)
    && negb (utf8_valid path && ((path =s? "~") || starts_with "~/" path))).

Definition validate_forwarding_patch (forwarding : ForwardingPatch) : result ConfigError unit :=
  err_if (is_zero (fp_oauth_callback_port forwarding))
    (Invalid "forwarding.oauth_callback_port must be non-zero") ;;
  err_if (is_some_and (fp_host_ssh_program forwarding) (fun path => negb (nonempty path)))
    (Invalid "forwarding.host_ssh_program cannot be empty") ;;
  err_if (invalid_home_path (fp_git_config_file forwarding))
    (Invalid "forwarding.git_config_file must be absolute or start with ~/") ;;
  err_if (invalid_home_path (fp_known_hosts_file forwarding))
    (Invalid "forwarding.known_hosts_file must be absolute or start with ~/") ;;
  err_if (is_some_and (fp_container_ssh_dir forwarding) (fun path =>
            match ContainerPath.new path with
            | Ok path => negb (ContainerPath.path_starts_with path "/home/codex")
            | Err _ => true
            end))
    (Invalid "forwarding.container_ssh_dir must be an absolute path below /home/codex") ;;
  err_if (is_some_and (fp_ssh_user forwarding) (fun user =>
            negb (nonempty user) || (255 <? length user)%nat
            || negb (forallb (fun byte => is_alphanumeric byte || is_byte "." byte || is_byte "_" byte
                                || is_byte "@" byte || is_byte "+" byte || is_byte "-" byte) user)))
    (Invalid "forwarding.ssh_user contains unsupported characters").

(** [if let Some(x) = &option { f(x)?; }]. *)
Definition if_some {A} (o : option A) (f : A -> result ConfigError unit) : result ConfigError unit :=
  match o with Some a => f a | None => Ok tt end.

Definition validate_secret_ref (entry : str * str) : result ConfigError unit :=
  let '(target, secret) := entry in
  err_if (negb (valid_env_name target) || is_blank secret)
    (Invalid ("secret reference `" ++ target ++ "` must use an environment-variable target and a non-empty provider name")).

Definition validate_patch (patch : ConfigPatch) : result ConfigError unit :=
  err_if (is_zero (adapter ← adapter patch; adapter_idle_timeout_seconds adapter))
    (Invalid "adapter.idle_timeout_seconds must be at least 1") ;;
  err_if (is_some_and (updates ← updates patch; update_check_interval_hours updates)
            (fun hours => negb ((1 <=? hours)%Z && (hours <=? 720)%Z)))
    (Invalid "updates.check_interval_hours must be between 1 and 720") ;;
  err_if (is_some_and (environment patch) is_blank) (Invalid "environment cannot be empty") ;;
  err_if (is_some_and (home patch) is_blank) (Invalid "home cannot be empty") ;;
  err_if (is_some_and (name patch) is_blank) (Invalid "run name cannot be empty") ;;
  err_if (is_some_and (workdir patch) (fun path => negb (is_ok (ContainerPath.new path))))
    (Invalid "workdir must be absolute") ;;
  validate_host_rules "allow_hosts" (allow_hosts patch) ;;
  validate_host_rules "allow_ssh_hosts" (allow_ssh_hosts patch) ;;
  if_some (git patch) (fun git =>
    err_if (is_some_and (gp_branch_prefix git) (fun value =>
              negb (nonempty value) || negb (ends_with "/" value) || starts_with "/" value))
      (Invalid "git.branch_prefix must be relative and end with '/'")) ;;
  err_if (is_some_and (merge ← merge patch; mp_model merge)
            (fun model => is_blank model || existsb is_ascii_control model))
    (Invalid "merge.model cannot be empty or contain control characters") ;;
  if_some (proxy patch) validate_proxy_patch ;;
  if_some (resources patch) (fun resources => map_err Invalid (ResourcePatch_validate resources)) ;;
  if_some (forwarding patch) validate_forwarding_patch ;;
  for_each validate_secret_ref (secret_refs patch) ;;
  if_some (codex patch) (fun codex => validate_codex_secret_literals (cx_config codex) "codex.config").
End validation.

(** ** Merging two layers *)

Section merged_with.
Context {I : Idna} {F : F64} {T : TomlCrate}.

(** [toml::Value::try_from(patch)] and [value.try_into::<ConfigPatch>()]. *)
Definition patch_to_value (patch : ConfigPatch) : result ConfigError Value :=
  ok_or (encode patch_codec patch) (Internal toml_ser_error).
Definition patch_from_value (value : Value) : option ConfigPatch := decode patch_codec value.

Definition merged_with (self overlay : ConfigPatch) : result ConfigError ConfigPatch :=
  validate_patch self ;;
  validate_patch overlay ;;
  destination ← patch_to_value self;
  source ← patch_to_value overlay;
  let '(destination, _) :=
    merge_value destination source "" (mkValueSource EnvironmentLayer "environment inheritance") [] in
  ok_or (patch_from_value destination) (Internal (toml_de_error destination)).

(** The same layer, written directly: every set field of the second layer
    replaces that of the first, field by field in the nested tables and key by
    key in the maps. *)
Definition patch_overlay (a b : ConfigPatch) : ConfigPatch := ov patch_codec a b.

(** A layer whose fields hold values of their Rust types. *)
Definition well_typed (patch : ConfigPatch) : Prop := typed patch_codec patch.

End merged_with.

(** ** Properties *)

(** The value of the second layer if it sets one. *)
Definition later {A} (a b : option A) : option A := match b with Some _ => b | None => a end.

Lemma opt_ov_later {A} (c : codec A) a b : (forall x y, ov c x y = y) -> opt_ov (ov c) a b = later a b.
Proof. intros H. destruct a, b; cbn; by rewrite ?H. Qed.

(** A float type with integral values only, to run the model on examples. *)
Definition integer_floats : F64 := {|
  f64 := Z;
  f64_is_finite := fun _ => true;
  f64_le_zero := fun v => (v <=? 0)%Z;
  f64_to_string := dec;
  f64_parse := fun s => match strip_prefix "-" s with
                        | Some r => if all_digits r then Some (- dec_value r)%Z else None
                        | None => if all_digits s then Some (dec_value s) else None
                        end |}.

Lemma integer_floats_laws : F64Laws integer_floats.
Proof.
  constructor; cbn [f64_is_finite f64_le_zero f64_to_string f64_parse integer_floats f64].
  - intros v _. unfold dec. destruct (Z.ltb_spec v 0).
    + destruct (dec_nonneg_spec (- v)) as [H1 H2]; [lia|]. rewrite strip_prefix_app, H1, H2. f_equal. lia.
    + destruct (dec_nonneg_spec v) as [H1 H2]; [lia|]. destruct (digits_no_sign _ H1) as [_ ->].
      by rewrite H1, H2.
  - intros v n _ Hv%Z.leb_gt Hp. unfold parse_u64 in Hp.
    destruct (Z.leb_spec v U64_MAX).
    + rewrite parse_uint_dec in Hp by lia. by injection Hp as <-.
    + rewrite parse_uint_digits in Hp by (apply all_digits_dec; lia).
      assert (dec_value (dec v) = v) as E.
      { unfold dec. rewrite (proj2 (Z.ltb_ge v 0)) by lia. apply (dec_nonneg_spec v). lia. }
      rewrite E, (proj2 (Z.leb_gt v U64_MAX)) in Hp by lia. done.
Qed.

Definition no_toml : TomlCrate := {|
  toml_parse := fun s => Err (s, None);
  toml_display := fun _ => [];
  toml_ser_error := "serialization";
  toml_de_error := fun _ => "deserialization" |}.
Definition ascii_idna : Idna := fun s => Some (to_ascii_lowercase s).

(** C4: a layer whose fields hold values of their types reads back from its
    own serialisation as the same layer, every skipped, defaulted and nested
    field included. *)
Theorem patch_roundtrip (F : F64) (FL : F64Laws F) (T : TomlCrate) (p : ConfigPatch) (v : Value) :
  well_typed p -> patch_to_value p = Ok v -> patch_from_value v = Some p.
Proof.
  unfold patch_to_value, patch_from_value. intros Hp Hv%ok_or_Ok. by apply dec_enc.
Qed.

(** Check the fields of a concrete layer one by one. *)
Lemma typed_some {A} (c : codec A) a : typed c a -> typed_opt c (Some a).
Proof. by intros H x [= <-]. Qed.
Lemma typed_none {A} (c : codec A) : typed_opt c None.
Proof. done. Qed.
Ltac layer_well_typed p :=
  unfold well_typed, p;
  repeat match goal with
  | |- typed_opt _ None => apply typed_none
  | |- typed_opt _ (Some _) => apply typed_some
  | |- typed _ _ => progress (unfold typed; cbn)
  | |- Forall _ _ => solve [apply Forall_forall; intros; exact I]
  | |- Forall _ [] => constructor
  | |- Forall _ (_ :: _) => constructor
  | |- bsorted _ => vm_compute; repeat constructor
  | |- _ /\ _ => split
  | |- _ => first [done | discriminate]
  end.

Lemma built_in_well_typed (F : F64) : well_typed built_in_defaults.
Proof.
  layer_well_typed built_in_defaults.
Qed.

Definition example_overlay : ConfigPatch :=
  mkConfigPatch None None (Some RuntimeKind_Podman) None None None None None None None None None None None
    [("API_KEY" : str, "keychain" : str)] None (Some (mkGitPatch None None None (Some (strs ["vim"]))))
    None None None None None None None.

Lemma example_overlay_well_typed (F : F64) : well_typed example_overlay.
Proof.
  layer_well_typed example_overlay.
Qed.

Lemma patch_roundtrip_witness :
  let F := integer_floats in let T := no_toml in
  exists v, patch_to_value built_in_defaults = Ok v /\ patch_from_value v = Some built_in_defaults.
Proof.
  eexists. split; [vm_compute; reflexivity|].
  apply (patch_roundtrip integer_floats integer_floats_laws no_toml).
  - exact (built_in_well_typed integer_floats).
  - vm_compute. reflexivity.
Defined.

(** [merged_with] refuses two layers exactly when one of them is invalid or
    cannot be written as TOML, with that error; otherwise its detour through
    TOML values is the field-wise overlay of the two records: for every
    setting, the second layer's value if it has one and the first's otherwise,
    nested tables field by field. *)
Theorem merged_with_is_overlay (I : Idna) (F : F64) (FL : F64Laws F) (T : TomlCrate) (a b : ConfigPatch) :
  well_typed a -> well_typed b ->
  merged_with a b =
    (validate_patch a ;; validate_patch b ;;
     _ ← patch_to_value a; _ ← patch_to_value b; Ok (patch_overlay a b)) /\
  runtime (patch_overlay a b) = later (runtime a) (runtime b) /\
  network (patch_overlay a b) = later (network a) (network b) /\
  allow_hosts (patch_overlay a b) = later (allow_hosts a) (allow_hosts b) /\
  home (patch_overlay a b) = later (home a) (home b) /\
  (forall k, bsorted (secret_refs b) ->
     bget k (secret_refs (patch_overlay a b)) = later (bget k (secret_refs a)) (bget k (secret_refs b))).
Proof.
  intros Ha Hb. split; [|split_and!; try by apply opt_ov_later].
  - unfold merged_with. destruct (validate_patch a) as [[]|]; [|done]. destruct (validate_patch b) as [[]|]; [|done].
    cbn [mbind result_bind]. destruct (patch_to_value a) as [va|] eqn:Ea; [|done].
    destruct (patch_to_value b) as [vb|] eqn:Eb; [|done]. cbn [mbind result_bind].
    pose proof (merge_value_overlay va vb "" (mkValueSource EnvironmentLayer "environment inheritance") []) as Hm.
    destruct (merge_value _ _ _ _ _) as [m prov]. cbn [fst] in Hm. subst m.
    unfold patch_to_value, patch_from_value in *. apply ok_or_Ok in Ea, Eb.
    rewrite (dec_enc (patch_overlay a b)); [done| |].
    + by apply typed_ov.
    + by apply enc_ov.
  - intros k Hs. change (secret_refs (patch_overlay a b)) with (map_ov (ov string_codec) (secret_refs b) (secret_refs a)).
    rewrite bget_map_ov by by apply bsorted_NoDup.
    destruct (bget k (secret_refs b)); [|done]. by destruct (bget k (secret_refs a)).
Qed.

Lemma merged_with_is_overlay_witness :
  let F := integer_floats in let T := no_toml in let I := ascii_idna in
  merged_with built_in_defaults example_overlay = Ok (patch_overlay built_in_defaults example_overlay) /\
  runtime (patch_overlay built_in_defaults example_overlay) = Some RuntimeKind_Podman.
Proof.
  intros F T I.
  destruct (merged_with_is_overlay I F integer_floats_laws T built_in_defaults example_overlay
              (built_in_well_typed F) (example_overlay_well_typed F)) as [H1 [H2 _]].
  split; [etransitivity; [exact H1|vm_compute; reflexivity]|etransitivity; [exact H2|reflexivity]].
Defined.

End ConfigPatch.
