(* ===== verification/Resolver.v ===== *)
(** * Configuration resolution ([codex-start-core/src/config.rs],
      [ProfileConfig] to [ConfigResolver], [environment_patch],
      [collect_profile_layers], [effective_from_patch])

    Documents and environment variables become layers, the selected profile and
    its ancestors are inserted at their precedence, and the layers are merged
    into the effective configuration. *)

From S2P Require Export ConfigPatch.

Module Resolver.
Import Toml Merge Codec ConfigTypes HostRules ConfigPatch.

(** ** Documents *)

Record ProfileConfig := mkProfileConfig {
  extends : option str;
  settings : ConfigPatch }.

Record ConfigDocument := mkConfigDocument {
  schema_version : Z;
  document_settings : ConfigPatch;
  document_profiles : bmap ProfileConfig;
  document_homes : bmap HomeConfig;
  document_secrets : bmap SecretProvider }.

Definition ConfigDocument_default : ConfigDocument :=
  mkConfigDocument CONFIG_SCHEMA_VERSION ConfigPatch_default [] [] [].

(** [toml::from_str::<ConfigDocument>]: the document, or a message and span. *)
Class DocumentParser := document_from_str : str -> result (str * option (Z * Z)) ConfigDocument.

(** ** Unknown-field suggestions *)

(** One row of the table of [edit_distance]: [current] so far, with the
    previous row from the current column on. *)
Fixpoint distance_row (left_char : str) (right : list str) (last : nat) (previous : list nat)
    : list nat :=
  match right, previous with
  | right_char :: right', diagonal :: ((above :: _) as previous') =>
      let cell := Nat.min (Nat.min (last + 1) (above + 1))
                    (diagonal + (if bool_decide (left_char = right_char) then 0 else 1)) in
      cell :: distance_row left_char right' cell previous'
  | _, _ => []
  end.

Fixpoint distance_rows (left right : list str) (left_index : nat) (previous : list nat) : list nat :=
  match left with
  | [] => previous
  | left_char :: left' =>
      distance_rows left' right (S left_index)
        ((left_index + 1)%nat :: distance_row left_char right (left_index + 1) previous)
  end.

Definition edit_distance (left right : str) : nat :=
  let right := chars right in
  default 0%nat (last (distance_rows (chars left) right 0 (seq 0 (S (length right))))).

Definition FIELDS : list string :=
  ["schema_version"; "settings"; "profiles"; "homes"; "secrets"; "profile"; "environment"; "runtime";
   "network"; "worktree"; "home"; "name"; "publish"; "rebuild"; "tty"; "tmux"; "workdir"; "allow_hosts";
   "allow_ssh_hosts"; "secret_refs"; "forwarding"; "git"; "merge"; "proxy"; "codex"; "extends"; "kind";
   "path"; "agents_path"; "args"; "variable"; "argv"; "service"; "account"; "config"; "ssh_agent";
   "ssh_agent_bridge"; "gpg_agent"; "git_config"; "known_hosts"; "host_ssh"; "gh_config"; "browser";
   "browser_opener"; "host_ssh_program"; "oauth_callback_port"; "git_config_file"; "known_hosts_file";
   "container_ssh_dir"; "ssh_user"; "local_providers"; "worktree_base"; "branch_prefix"; "editor";
   "model"; "connect_timeout_seconds"; "listen_port"; "idle_timeout_seconds"; "max_connections";
   "block_private_addresses"; "header_timeout_seconds"; "max_header_bytes";
   "handshake_timeout_seconds"; "updates"; "enabled"; "check_interval_hours"; "require_signature"].

(** [min_by_key]: the first of the smallest. *)
Fixpoint min_by_key {A} (key : A -> nat) (l : list A) : option A :=
  match l with
  | [] => None
  | x :: l' =>
      match min_by_key key l' with
      | Some y => if (key x <=? key y)%nat then Some x else Some y
      | None => Some x
      end
  end.

Definition unknown_field_suggestion (message : str) : option str :=
  '(_, rest) ← split_once_str "unknown field `" message;
  '(unknown, _) ← split_once "`" rest;
  best ← min_by_key (edit_distance unknown) (strs FIELDS);
  if (edit_distance unknown best <=? 3)%nat then Some best else None.

(** ** Document validation *)

Section documents.
Context {I : Idna} {D : DocumentParser}.

Definition document_validate (self : ConfigDocument) : result ConfigError unit :=
  err_if (negb (schema_version self =? CONFIG_SCHEMA_VERSION)%Z)
    (UnsupportedSchema (schema_version self) CONFIG_SCHEMA_VERSION) ;;
  for_each (fun kv : str * HomeConfig => validate_name "home" kv.1 ;; HomeConfig_validate kv.2 kv.1)
    (document_homes self) ;;
  for_each (fun kv : str * SecretProvider => validate_name "secret" kv.1 ;; SecretProvider_validate kv.2 kv.1)
    (document_secrets self) ;;
  for_each (fun kv : str * ProfileConfig => validate_name "profile" kv.1) (document_profiles self) ;;
  validate_patch (document_settings self) ;;
  for_each (fun kv : str * ProfileConfig =>
      err_if (bool_decide (is_Some (updates (settings kv.2)))) ProfileUpdates ;;
      validate_patch (settings kv.2))
    (document_profiles self).

Definition has_definitions (self : ConfigDocument) : bool :=
  nonempty (document_profiles self) || nonempty (document_homes self) || nonempty (document_secrets self).

Definition validate_as_project (self : ConfigDocument) : result ConfigError unit :=
  document_validate self ;;
  err_if (has_definitions self) ProjectDefinitions ;;
  err_if (bool_decide (is_Some (updates (document_settings self)))) ProjectUpdates.

Definition document_parse (input source : str) : result ConfigError ConfigDocument :=
  document ← map_err (fun '(message, span) =>
                        Parse source message span (unknown_field_suggestion message))
                     (document_from_str input);
  document_validate document ;;
  Ok document.
End documents.

(** ** Layers and the resolver *)

Record ConfigLayer := mkConfigLayer {
  layer_kind : ConfigLayerKind;
  layer_source : ValueSource;
  patch : ConfigPatch }.
Definition ConfigLayer_new (kind : ConfigLayerKind) (label : str) (patch : ConfigPatch) : ConfigLayer :=
  mkConfigLayer kind (mkValueSource kind label) patch.

Record ConfigResolver := mkConfigResolver {
  layers : list ConfigLayer;
  profiles : bmap ProfileConfig;
  homes : bmap HomeConfig;
  home_sources : bmap ValueSource;
  secrets : bmap SecretProvider }.

Definition built_in_source : ValueSource := mkValueSource BuiltIn "built-in defaults".

Definition ConfigResolver_new : ConfigResolver :=
  mkConfigResolver [ConfigLayer_new BuiltIn "built-in defaults" built_in_defaults] []
    [("default" : str, HomeConfig_default)] [("default" : str, built_in_source)] [].

Section resolver.
Context {I : Idna} {F : F64} {T : TomlCrate}.

Definition add_layer (self : ConfigResolver) (layer : ConfigLayer) : result ConfigError ConfigResolver :=
  err_if (bool_decide (layer_kind layer = Profile)) ReservedProfileLayer ;;
  validate_patch (patch layer) ;;
  Ok (mkConfigResolver (layers self ++ [layer]) (profiles self) (homes self) (home_sources self) (secrets self)).

Definition add_document (self : ConfigResolver) (kind : ConfigLayerKind) (label : str)
    (document : ConfigDocument) : result ConfigError ConfigResolver :=
  let source := mkValueSource kind label in
  document_validate document ;;
  (if bool_decide (kind = Project) then validate_as_project document
   else err_if (negb (bool_decide (kind = Global) || bool_decide (kind = BuiltIn))
                && has_definitions document) DefinitionsOutsideGlobal) ;;
  add_layer
    (mkConfigResolver (layers self)
       (bextend (profiles self) (document_profiles document))
       (bextend (homes self) (document_homes document))
       (bextend (home_sources self) (map (fun kv : str * HomeConfig => (kv.1, source)) (document_homes document)))
       (bextend (secrets self) (document_secrets document)))
    (mkConfigLayer kind source (document_settings document)).

(** *** Environment overrides *)

Definition parse_override_value (value : str) : Value :=
  match ok (toml_parse ("value = " ++ value)) with
  | Some (Table t) => default (String value) (bget "value" t)
  | _ => String value
  end.

Definition override_segments (path : str) : list str :=
  map to_ascii_lowercase (List.filter nonempty (map trim (split_str "__" path))).

Fixpoint environment_table (values : list (str * str)) (root : bmap Value) : result ConfigError (bmap Value) :=
  match values with
  | [] => Ok root
  | (key, value) :: values' =>
      match strip_prefix ENVIRONMENT_PREFIX key with
      | None => environment_table values' root
      | Some path =>
          let segments := override_segments path in
          err_if (negb (nonempty segments)) (InvalidEnvironmentOverride key) ;;
          root ← ok_or (insert_toml_path root segments (parse_override_value value))
                   (ConflictingEnvironmentOverride key);
          environment_table values' root
      end
  end.

Definition environment_patch (values : list (str * str)) : result ConfigError ConfigPatch :=
  root ← environment_table values [];
  ok_or (patch_from_value (Table root)) (EnvironmentOverride (toml_de_error (Table root))).

(** [patch != ConfigPatch::default()]. *)
Definition is_default_patch (p : ConfigPatch) : bool :=
  match p with
  | mkConfigPatch None None None None None None None None None None None None None None []
      None None None None None None None None None => true
  | _ => false
  end.

Definition add_environment_overrides (self : ConfigResolver) (values : list (str * str))
    : result ConfigError ConfigResolver :=
  patch ← environment_patch values;
  if is_default_patch patch then Ok self
  else add_layer self (ConfigLayer_new EnvironmentVariables ENVIRONMENT_PREFIX patch).
End resolver.

(** *** Profiles *)

(** [stack.iter().position(|item| item == name)]. *)
Fixpoint position (name : str) (stack : list str) : option nat :=
  match stack with
  | [] => None
  | item :: stack' => if bool_decide (item = name) then Some 0%nat else S <$> position name stack'
  end.

(** One unit of fuel per frame of the recursion; [None] is out of fuel. *)
Fixpoint collect_profile_layers_fuel (fuel : nat) (name : str) (profiles : bmap ProfileConfig)
    (stack : list str) : option (result ConfigError (list (str * ConfigPatch))) :=
  match fuel with
  | O => None
  | S fuel' =>
      match position name stack with
      | Some position =>
          Some (Err (ProfileCycle (join " -> " (drop position stack ++ [name]))))
      | None =>
          match bget name profiles with
          | None => Some (Err (UnknownProfile name))
          | Some profile =>
              match extends profile with
              | None => Some (Ok [(name, settings profile)])
              | Some parent =>
                  output ← collect_profile_layers_fuel fuel' parent profiles (stack ++ [name]);
                  Some (output ← output; Ok (output ++ [(name, settings profile)]))
              end
          end
      end
  end.

(** The stack never holds a name twice, so one frame more than there are
    profiles is enough (see [collect_profile_layers_total]). *)
Definition collect_profile_layers (name : str) (profiles : bmap ProfileConfig)
    : result ConfigError (list (str * ConfigPatch)) :=
  default (Err (ProfileCycle name))
    (collect_profile_layers_fuel (S (length profiles)) name profiles []).

(** ** The effective configuration *)

Record CodexConfig := mkCodexConfig {
  codex_profile : option str;
  codex_args : list str;
  codex_config : bmap Value }.

Record EffectiveConfig := mkEffectiveConfig {
  ec_schema_version : Z;
  ec_selected_profile : option str;
  ec_environment : str;
  ec_runtime : RuntimeKind;
  ec_network : NetworkMode;
  ec_worktree : WorktreeMode;
  ec_home_name : str;
  ec_home : HomeConfig;
  ec_name : option str;
  ec_publish : list str;
  ec_rebuild : bool;
  ec_tty : TtyMode;
  ec_tmux : bool;
  ec_workdir : option str;
  ec_allow_hosts : list str;
  ec_allow_ssh_hosts : list str;
  ec_secret_refs : bmap str;
  ec_forwarding : ForwardingConfig;
  ec_git : GitConfig;
  ec_merge : MergeConfig;
  ec_proxy : ProxyConfig;
  ec_resources : ResourceValues;
  ec_sessions : SessionConfig;
  ec_adapter : AdapterConfig;
  ec_updates : UpdateConfig;
  ec_codex : CodexConfig;
  ec_homes : bmap HomeConfig;
  ec_secrets : bmap SecretProvider }.

(** The [Default] instances of the partial tables: nothing is set. *)
Definition ForwardingPatch_default : ForwardingPatch :=
  mkForwardingPatch None None None None None None None None None None None None None None None None.
Definition GitPatch_default : GitPatch := mkGitPatch None None None None.
Definition MergePatch_default : MergePatch := mkMergePatch None.
Definition ProxyPatch_default : ProxyPatch := mkProxyPatch None None None None None None None None.
Definition SessionPatch_default : SessionPatch := mkSessionPatch None None None.
Definition AdapterPatch_default : AdapterPatch := mkAdapterPatch None.
Definition UpdatePatch_default : UpdatePatch := mkUpdatePatch None None None.

(** The [cfg(windows)] refusals are not part of a Unix build. *)
Definition effective_from_patch (patch : ConfigPatch) (selected_profile : option str)
    (homes : bmap HomeConfig) (secrets : bmap SecretProvider) : result ConfigError EffectiveConfig :=
  let home_name := default ("default" : str) (home patch) in
  home ← ok_or (bget home_name homes) (UnknownHome home_name);
  let forwarding := default ForwardingPatch_default (forwarding patch) in
  let git := default GitPatch_default (git patch) in
  let merge := default MergePatch_default (merge patch) in
  let proxy := default ProxyPatch_default (proxy patch) in
  let resources := default ResourceValues_default (resources patch) in
  let sessions := default SessionPatch_default (sessions patch) in
  let adapter := default AdapterPatch_default (adapter patch) in
  let updates := default UpdatePatch_default (updates patch) in
  let codex := default CodexPatch_default (codex patch) in
  Ok {|
    ec_schema_version := CONFIG_SCHEMA_VERSION;
    ec_selected_profile := selected_profile;
    ec_environment := default ("generic" : str) (environment patch);
    ec_runtime := default RuntimeKind_Auto (runtime patch);
    ec_network := default NetworkMode_Allowlist (network patch);
    ec_worktree := default WorktreeMode_Auto (worktree patch);
    ec_home_name := home_name;
    ec_home := home;
    ec_name := name patch;
    ec_publish := default [] (publish patch);
    ec_rebuild := default false (rebuild patch);
    ec_tty := default TtyMode_Auto (tty patch);
    ec_tmux := default false (tmux patch);
    ec_workdir := workdir patch;
    ec_allow_hosts := default [] (allow_hosts patch);
    ec_allow_ssh_hosts := default [] (allow_ssh_hosts patch);
    ec_secret_refs := secret_refs patch;
    ec_forwarding := {|
      ssh_agent := default cfg_unix (fp_ssh_agent forwarding);
      ssh_agent_bridge := default SshAgentBridge_Auto (fp_ssh_agent_bridge forwarding);
      gpg_agent := default cfg_unix (fp_gpg_agent forwarding);
      git_config := default true (fp_git_config forwarding);
      known_hosts := default true (fp_known_hosts forwarding);
      host_ssh := default true (fp_host_ssh forwarding);
      gh_config := default true (fp_gh_config forwarding);
      browser := default true (fp_browser forwarding);
      local_providers := default true (fp_local_providers forwarding);
      browser_opener := default [] (fp_browser_opener forwarding);
      host_ssh_program := default ("ssh" : str) (fp_host_ssh_program forwarding);
      oauth_callback_port := default 1455%Z (fp_oauth_callback_port forwarding);
      git_config_file := fp_git_config_file forwarding;
      known_hosts_file := fp_known_hosts_file forwarding;
      container_ssh_dir := default ("/home/codex/.ssh" : str) (fp_container_ssh_dir forwarding);
      ssh_user := fp_ssh_user forwarding |};
    ec_git := mkGitConfig (default true (gp_cleanup_untouched git)) (gp_worktree_base git)
                (default ("codex/" : str) (gp_branch_prefix git)) (default [] (gp_editor git));
    ec_merge := mkMergeConfig (default DEFAULT_MERGE_MODEL (mp_model merge));
    ec_proxy := {|
      listen_port := default 3128%Z (pp_listen_port proxy);
      connect_timeout_seconds := default 10%Z (pp_connect_timeout_seconds proxy);
      idle_timeout_seconds := default 300%Z (pp_idle_timeout_seconds proxy);
      max_connections := default 256%Z (pp_max_connections proxy);
      block_private_addresses := default true (pp_block_private_addresses proxy);
      header_timeout_seconds := default 10%Z (pp_header_timeout_seconds proxy);
      max_header_bytes := default 65536%Z (pp_max_header_bytes proxy);
      handshake_timeout_seconds := default 5%Z (pp_handshake_timeout_seconds proxy) |};
    ec_resources := resources;
    ec_sessions := SessionConfig_from sessions;
    ec_adapter := mkAdapterConfig (default 300%Z (adapter_idle_timeout_seconds adapter));
    ec_updates := UpdateConfig_from updates;
    ec_codex := mkCodexConfig (cx_profile codex) (default [] (cx_args codex)) (cx_config codex);
    ec_homes := homes;
    ec_secrets := secrets |}.

Definition validate_effective (config : EffectiveConfig) : result ConfigError unit :=
  map_err Invalid (ResourceLimits_validate (ec_resources config)) ;;
  for_each (fun '(target, reference) =>
      err_if (negb (bcontains reference (ec_secrets config))) (UnknownSecret target reference))
    (ec_secret_refs config).

(** ** Resolution *)

(** [sort_by_key(|layer| layer.kind)], which is stable: [layer] goes before the
    first layer of its own or a higher kind of the layers that followed it. *)
Fixpoint insert_layer (layer : ConfigLayer) (sorted : list ConfigLayer) : list ConfigLayer :=
  match sorted with
  | [] => [layer]
  | other :: sorted' =>
      if (kind_index (layer_kind layer) <=? kind_index (layer_kind other))%nat then layer :: sorted
      else other :: insert_layer layer sorted'
  end.
Definition sort_layers (layers : list ConfigLayer) : list ConfigLayer := foldr insert_layer [] layers.

(** [toml::Value::try_from(home)]: the variant's name under [kind], and its
    fields that are not [None]. *)
Definition home_to_value (home : HomeConfig) : option Value :=
  match home with
  | Managed name =>
      name ← enc_field string_codec "name" name;
      Some (Table (fields_table [("kind" : str, Some (String "managed")); name]))
  | Host => Some (Table (fields_table [("kind" : str, Some (String "host"))]))
  | Path path agents_path =>
      path ← enc_field path_codec "path" (Some path);
      agents_path ← enc_field path_codec "agents_path" agents_path;
      Some (Table (fields_table [("kind" : str, Some (String "path")); path; agents_path]))
  end.

Record ResolvedConfig := mkResolvedConfig {
  config : EffectiveConfig;
  provenance : fields;
  resolved_layers : list ValueSource }.

Section resolve.
Context {F : F64} {T : TomlCrate}.

(** The loop over the sorted layers. *)
Fixpoint merge_config_layers (layers : list ConfigLayer) (merged : Value) (provenance : fields)
    : result ConfigError (Value * fields) :=
  match layers with
  | [] => Ok (merged, provenance)
  | layer :: layers' =>
      value ← patch_to_value (patch layer);
      let '(merged, provenance) := merge_value merged value "" (layer_source layer) provenance in
      merge_config_layers layers' merged provenance
  end.

(** The loop over the homes. *)
Fixpoint record_homes (homes : list (str * HomeConfig)) (home_sources : bmap ValueSource)
    (provenance : fields) : result ConfigError fields :=
  match homes with
  | [] => Ok provenance
  | (name, home) :: homes' =>
      match bget name home_sources with
      | None => record_homes homes' home_sources provenance
      | Some source =>
          value ← ok_or (home_to_value home) (Internal toml_ser_error);
          record_homes homes' home_sources (record_leaves value ("homes." ++ name) source provenance)
      end
  end.

(** [.filter_map(|layer| layer.patch.profile.as_ref()).next_back()]. *)
Definition selected_profile_of (layers : list ConfigLayer) : option str :=
  last (omap (fun layer => profile (patch layer)) layers).

Definition profile_layer (entry : str * ConfigPatch) : ConfigLayer :=
  ConfigLayer_new Profile ("profile:" ++ entry.1) entry.2.

(** The layers in the order in which they are merged. *)
Definition ordered_layers (self : ConfigResolver) : result ConfigError (list ConfigLayer) :=
  let layers := sort_layers (layers self) in
  match selected_profile_of layers with
  | None => Ok layers
  | Some profile =>
      profile_layers ← collect_profile_layers profile (profiles self);
      Ok (sort_layers (layers ++ map profile_layer profile_layers))
  end.

Definition resolve (self : ConfigResolver) : result ConfigError ResolvedConfig :=
  for_each (fun '(name, home) => HomeConfig_validate home name) (homes self) ;;
  for_each (fun '(name, secret) => SecretProvider_validate secret name) (secrets self) ;;
  let selected_profile := selected_profile_of (sort_layers (layers self)) in
  layers ← ordered_layers self;
  '(merged, provenance) ← merge_config_layers layers (Table []) [];
  provenance ← record_homes (homes self) (home_sources self) provenance;
  patch ← ok_or (patch_from_value merged) (Internal (toml_de_error merged));
  config ← effective_from_patch patch selected_profile (homes self) (secrets self);
  validate_effective config ;;
  Ok (mkResolvedConfig config provenance (map layer_source layers)).
End resolve.

(** ** Profile chains *)

(** The profile [a] is defined and extends [b]. *)
Definition parent (profiles : bmap ProfileConfig) (a b : str) : Prop :=
  exists p, bget a profiles = Some p /\ extends p = Some b.

(** The layers of a profile and all its ancestors, the root first. *)
Inductive extends_chain (profiles : bmap ProfileConfig) : str -> list (str * ConfigPatch) -> Prop :=
  | chain_root name p :
      bget name profiles = Some p -> extends p = None ->
      extends_chain profiles name [(name, settings p)]
  | chain_child name p base output :
      bget name profiles = Some p -> extends p = Some base -> extends_chain profiles base output ->
      extends_chain profiles name (output ++ [(name, settings p)]).

Lemma position_spec name stack :
  match position name stack with
  | Some i => stack !! i = Some name
  | None => name ∉ stack
  end.
Proof.
  induction stack as [|item stack IH]; cbn; [apply not_elem_of_nil|].
  case_bool_decide as E; [by rewrite E|].
  destruct (position name stack) as [i|]; cbn; [done|]. rewrite not_elem_of_cons. naive_solver.
Qed.

Lemma Sorted_snoc2 {A} (R : A -> A -> Prop) l a b :
  Sorted R (l ++ [a]) -> R a b -> Sorted R (l ++ [a] ++ [b]).
Proof.
  intros Hs Hr. induction l as [|x l IH]; cbn in *; [repeat constructor; done|].
  apply Sorted_inv in Hs as [Hs Hh]. constructor; [by apply IH|].
  destruct l as [|y l]; cbn in *; inversion Hh; by constructor.
Qed.
Lemma Sorted_drop {A} (R : A -> A -> Prop) i l : Sorted R l -> Sorted R (drop i l).
Proof.
  revert l. induction i as [|i IH]; intros [|x l] Hs; cbn; try done. apply IH. by apply Sorted_inv in Hs as [].
Qed.
Lemma Sorted_rtc {A} (R : A -> A -> Prop) x l y : Sorted R (x :: l ++ [y]) -> tc R x y.
Proof.
  revert x. induction l as [|z l IH]; intros x Hs; cbn in *; apply Sorted_inv in Hs as [Hs Hh].
  - inversion Hh. by constructor.
  - inversion Hh. eapply tc_l; [done|by apply IH].
Qed.

Lemma chain_parent profiles a b output :
  extends_chain profiles a output -> parent profiles a b ->
  exists output', extends_chain profiles b output' /\ (length output' < length output)%nat.
Proof.
  intros Hc (p & Hp & He). destruct Hc as [name q Hq Hn|name q base out Hq Hn Hc].
  - congruence.
  - assert (p = q) as -> by congruence. rewrite He in Hn. injection Hn as ->. exists out. split; [done|].
    rewrite length_app. cbn. lia.
Qed.
Lemma chain_rtc profiles a b output :
  extends_chain profiles a output -> rtc (parent profiles) a b ->
  exists output', extends_chain profiles b output'.
Proof.
  intros Hc Hr. revert output Hc. induction Hr as [a|a b c Hp _ IH]; [eauto|].
  intros output Hc. destruct (chain_parent _ _ _ _ Hc Hp) as (o' & Hc' & _). by eapply IH.
Qed.
Lemma chain_tc profiles a b output :
  extends_chain profiles a output -> tc (parent profiles) a b ->
  exists output', extends_chain profiles b output' /\ (length output' < length output)%nat.
Proof.
  intros Hc Hr. revert output Hc. induction Hr as [a b Hp|a b c Hp _ IH]; intros output Hc.
  - by apply (chain_parent _ a).
  - destruct (chain_parent _ _ _ _ Hc Hp) as (o1 & Hc1 & ?). destruct (IH _ Hc1) as (o2 & ? & ?).
    exists o2. split; [done|lia].
Qed.
Lemma chain_unique profiles a o1 o2 : extends_chain profiles a o1 -> extends_chain profiles a o2 -> o1 = o2.
Proof.
  intros H1. revert o2. induction H1 as [n p Hp He|n p b o Hp He H1 IH]; intros o2 H2;
    inversion H2 as [? q Hq Hqe|? q b' o' Hq Hqe H2']; subst; rewrite Hp in Hq; injection Hq as <-; try congruence.
  assert (b' = b) as -> by congruence. by rewrite (IH _ H2').
Qed.

(** What a call with [name] below [start] gives: the chain of [name], or the
    error that the chain of [start] really has. *)
Definition collected (profiles : bmap ProfileConfig) (start name : str)
    (r : result ConfigError (list (str * ConfigPatch))) : Prop :=
  match r with
  | Ok output => extends_chain profiles name output
  | Err (UnknownProfile n) => rtc (parent profiles) start n /\ bget n profiles = None
  | Err (ProfileCycle cycle) => exists n ring,
      rtc (parent profiles) start n /\ Sorted (parent profiles) (n :: ring ++ [n]) /\
      cycle = join " -> " (n :: ring ++ [n])
  | Err _ => False
  end.

Lemma collect_profile_layers_spec profiles start fuel name stack :
  Sorted (parent profiles) (stack ++ [name]) -> NoDup stack -> stack ⊆ bkeys profiles ->
  (length profiles < fuel + length stack)%nat -> rtc (parent profiles) start name ->
  exists r, collect_profile_layers_fuel fuel name profiles stack = Some r /\ collected profiles start name r.
Proof.
  revert name stack. induction fuel as [|fuel IH]; intros name stack Hs Hd Hk Hl Hr.
  - exfalso.
    assert (length stack <= length (bkeys profiles))%nat as Hle.
    { apply submseteq_length, NoDup_submseteq; [done|]. intros x Hx. by apply Hk. }
    unfold bkeys in Hle. rewrite length_map in Hle. cbn in Hl. lia.
  - cbn [collect_profile_layers_fuel]. pose proof (position_spec name stack) as Hp.
    destruct (position name stack) as [i|].
    + eexists. split; [done|]. apply (Sorted_drop _ i) in Hs. rewrite drop_app_le in Hs
        by (apply lookup_lt_Some in Hp; lia). rewrite (drop_S _ _ _ Hp) in *.
      cbn. by exists name, (drop (S i) stack).
    + destruct (bget name profiles) as [p|] eqn:Ep; [|by eexists].
      destruct (extends p) as [base|] eqn:Ee.
      2: { eexists. split; [done|]. by constructor. }
      assert (parent profiles name base) as Hpar by by exists p.
      destruct (IH base (stack ++ [name])) as (r & Er & Hc).
      * rewrite <- app_assoc. by apply Sorted_snoc2.
      * apply NoDup_app. split_and!; [done| |apply NoDup_singleton].
        intros x Hx ->%list_elem_of_singleton. done.
      * intros x [Hx| ->%list_elem_of_singleton]%elem_of_app; [by apply Hk|]. apply bget_is_Some. eauto.
      * rewrite length_app. cbn. lia.
      * by eapply rtc_r.
      * rewrite Er. cbn. eexists. split; [done|].
        destruct r as [out|e]; cbn in *; [by econstructor|done].
Qed.

Lemma collect_profile_layers_total profiles name :
  exists r, collect_profile_layers_fuel (S (length profiles)) name profiles [] = Some r /\
    collect_profile_layers name profiles = r /\ collected profiles name name r.
Proof.
  destruct (collect_profile_layers_spec profiles name (S (length profiles)) name []) as (r & Hr & Hc).
  - repeat constructor.
  - constructor.
  - by intros x ?%not_elem_of_nil.
  - cbn. lia.
  - done.
  - exists r. split_and!; [done| |done]. unfold collect_profile_layers. by rewrite Hr.
Qed.

(** ** Layer order *)

Definition by_kind (k : ConfigLayerKind) : list ConfigLayer -> list ConfigLayer :=
  List.filter (fun layer => bool_decide (layer_kind layer = k)).
Definition layer_le (a b : ConfigLayer) : Prop := (kind_index (layer_kind a) <= kind_index (layer_kind b))%nat.

Lemma kind_index_inj a b : kind_index a = kind_index b -> a = b.
Proof. by destruct a, b. Qed.

Lemma insert_layer_perm x l : insert_layer x l ≡ₚ x :: l.
Proof. induction l as [|y l IH]; cbn; [done|]. case_match; [done|]. rewrite IH. apply Permutation_swap. Qed.
Lemma sort_layers_perm l : sort_layers l ≡ₚ l.
Proof. induction l as [|x l IH]; cbn; [done|]. by rewrite insert_layer_perm, IH. Qed.

Lemma insert_layer_sorted x l : StronglySorted layer_le l -> StronglySorted layer_le (insert_layer x l).
Proof.
  induction 1 as [|y l Hs IH Hy]; cbn; [repeat constructor|].
  destruct (Nat.leb_spec (kind_index (layer_kind x)) (kind_index (layer_kind y))) as [Hle|Hlt].
  - constructor; [by constructor|]. constructor; [done|]. eapply Forall_impl; [done|]. unfold layer_le. lia.
  - constructor; [done|]. rewrite insert_layer_perm. constructor; [unfold layer_le; lia|done].
Qed.
Lemma sort_layers_sorted l : StronglySorted layer_le (sort_layers l).
Proof. induction l as [|x l IH]; cbn; [constructor|by apply insert_layer_sorted]. Qed.

Lemma by_kind_insert k x l : by_kind k (insert_layer x l) = by_kind k (x :: l).
Proof.
  induction l as [|y l IH]; [done|]. cbn [insert_layer]. case_match eqn:E; [done|].
  apply Nat.leb_gt in E. unfold by_kind in *. cbn [List.filter]. rewrite IH. cbn [List.filter].
  case_bool_decide as Hy; [|done]. case_bool_decide as Hx; [|done]. rewrite Hx, Hy in E. lia.
Qed.
Lemma by_kind_sort k l : by_kind k (sort_layers l) = by_kind k l.
Proof.
  induction l as [|x l IH]; [done|]. cbn [sort_layers foldr]. rewrite by_kind_insert.
  unfold by_kind in *. cbn [List.filter]. unfold sort_layers in IH. by rewrite IH.
Qed.
Lemma by_kind_app k a b : by_kind k (a ++ b) = by_kind k a ++ by_kind k b.
Proof. unfold by_kind. induction a as [|x a IH]; cbn; [done|]. case_bool_decide; cbn; by rewrite IH. Qed.
Lemma by_kind_profile_layers k l :
  by_kind k (map profile_layer l) = if bool_decide (k = Profile) then map profile_layer l else [].
Proof.
  induction l as [|x l IH]; [by case_bool_decide|].
  cbn [map]. change (profile_layer x :: map profile_layer l) with ([profile_layer x] ++ map profile_layer l).
  rewrite by_kind_app, IH. unfold by_kind. cbn [List.filter].
  change (layer_kind (profile_layer x)) with Profile.
  destruct (decide (k = Profile)) as [-> |E]; [done|].
  by rewrite (bool_decide_eq_false_2 (k = Profile)), (bool_decide_eq_false_2 (Profile = k)) by congruence.
Qed.

Section resolve_lemmas.
Context {F : F64} {FL : F64Laws F} {T : TomlCrate}.

(** ** The merge loop *)

Definition layer_value (layer : ConfigLayer) : result ConfigError Value := patch_to_value (patch layer).
Definition merged_patch (layers : list ConfigLayer) : ConfigPatch :=
  foldl (fun merged layer => patch_overlay merged (patch layer)) ConfigPatch_default layers.

Lemma merge_config_layers_values layers v prov :
  merge_config_layers layers v prov =
  (values ← collect_results layer_value layers;
   Ok (foldl merge_layer (v, prov) (zip (map layer_source layers) values))).
Proof.
  revert v prov. induction layers as [|layer layers IH]; intros v prov; [done|].
  cbn [merge_config_layers collect_results map]. change (patch_to_value (patch layer)) with (layer_value layer).
  destruct (layer_value layer) as [value|e]; cbn [mbind result_bind]; [|done].
  destruct (merge_value v value "" (layer_source layer) prov) as [v' prov'] eqn:E. rewrite IH.
  destruct (collect_results layer_value layers) as [values|e]; [|done].
  cbn [mbind result_bind zip zip_with foldl]. unfold merge_layer at 3. cbn [fst snd]. by rewrite E.
Qed.

Lemma encode_merged layers values acc v prov :
  Forall (fun layer => well_typed (patch layer)) layers -> typed patch_codec acc ->
  collect_results layer_value layers = Ok values -> encode patch_codec acc = Some v ->
  let merged := foldl (fun merged layer => patch_overlay merged (patch layer)) acc layers in
  typed patch_codec merged /\
  encode patch_codec merged = Some (foldl merge_layer (v, prov) (zip (map layer_source layers) values)).1.
Proof.
  intros Hl. revert acc v prov values. induction Hl as [|layer layers Ht Hl IH]; intros acc v prov values Hacc Hv Ha.
  { cbn in Hv. injection Hv as <-. done. }
  cbn [collect_results] in Hv. unfold layer_value in Hv at 1. rewrite bind_Ok in Hv.
  destruct Hv as (value & Hval & Hv). apply ok_or_Ok in Hval. rewrite bind_Ok in Hv.
  destruct Hv as (values' & Hvs & [= <-]). cbn [foldl map zip zip_with].
  pose proof (merge_value_overlay v value "" (layer_source layer) prov) as Hm.
  unfold merge_layer at 2. cbn [fst snd]. destruct (merge_value v value "" (layer_source layer) prov) as [v' prov'].
  cbn [fst] in Hm. subst v'. apply IH; [by apply typed_ov|done|by apply enc_ov].
Qed.

(** ** The resolver's specification: field-wise overlay of the ordered layers *)

Definition resolve_spec (self : ConfigResolver) : result ConfigError ResolvedConfig :=
  for_each (fun '(name, home) => HomeConfig_validate home name) (homes self) ;;
  for_each (fun '(name, secret) => SecretProvider_validate secret name) (secrets self) ;;
  layers ← ordered_layers self;
  values ← collect_results layer_value layers;
  provenance ← record_homes (homes self) (home_sources self)
                 (merge_layers (zip (map layer_source layers) values)).2;
  config ← effective_from_patch (merged_patch layers) (selected_profile_of (sort_layers (Resolver.layers self)))
             (homes self) (secrets self);
  validate_effective config ;;
  Ok (mkResolvedConfig config provenance (map layer_source layers)).

Definition layers_typed (layers : list ConfigLayer) : Prop :=
  Forall (fun layer => well_typed (patch layer)) layers.
Definition profiles_typed (profiles : bmap ProfileConfig) : Prop :=
  Forall (fun kv : str * ProfileConfig => well_typed (settings kv.2)) profiles.

Lemma chain_typed profiles name output :
  profiles_typed profiles -> extends_chain profiles name output -> layers_typed (map profile_layer output).
Proof.
  intros Hp. assert (forall n p, bget n profiles = Some p -> well_typed (settings p)) as Hget.
  { intros n p Hn%bget_elem_of. unfold profiles_typed in Hp. rewrite Forall_forall in Hp. by apply (Hp (n, p)). }
  unfold layers_typed. induction 1 as [n p Hn _|n p b o Hn _ _ IH].
  - constructor; [by apply (Hget n)|constructor].
  - rewrite map_app, Forall_app. split; [done|]. constructor; [by apply (Hget n)|constructor].
Qed.

Lemma ordered_layers_typed self ls :
  layers_typed (layers self) -> profiles_typed (profiles self) -> ordered_layers self = Ok ls -> layers_typed ls.
Proof.
  unfold ordered_layers, layers_typed. intros Hl Hp. destruct (selected_profile_of _) as [name|].
  - rewrite bind_Ok. intros (out & Ho & [= <-]). rewrite sort_layers_perm, Forall_app, sort_layers_perm.
    split; [done|]. destruct (collect_profile_layers_total (profiles self) name) as (r & _ & Hr & Hc).
    rewrite Ho in Hr. subst r. by eapply chain_typed.
  - intros [= <-]. by rewrite sort_layers_perm.
Qed.

Lemma ConfigPatch_default_typed : well_typed ConfigPatch_default.
Proof. layer_well_typed ConfigPatch_default. Qed.
Lemma ConfigPatch_default_encode : encode patch_codec ConfigPatch_default = Some (Table []).
Proof. reflexivity. Qed.

Lemma resolve_is_spec self :
  layers_typed (layers self) -> profiles_typed (profiles self) -> resolve self = resolve_spec self.
Proof.
  intros Hl Hp. unfold resolve, resolve_spec. destruct (for_each _ (homes self)) as [[]|]; [|done].
  destruct (for_each _ (secrets self)) as [[]|]; [|done]. cbn [mbind result_bind].
  destruct (ordered_layers self) as [ls|] eqn:Ho; [|done]. cbn [mbind result_bind].
  rewrite merge_config_layers_values. destruct (collect_results layer_value ls) as [values|] eqn:Ev; [|done].
  cbn [mbind result_bind].
  destruct (encode_merged ls values ConfigPatch_default (Table []) []) as [Ht He];
    [by eapply ordered_layers_typed|apply ConfigPatch_default_typed|done|apply ConfigPatch_default_encode|].
  unfold merge_layers. destruct (foldl merge_layer (Table [], []) _) as [v prov]. cbn [fst snd] in *.
  destruct (record_homes _ _ _) as [prov'|]; [|done]. cbn [mbind result_bind].
  unfold patch_from_value. by rewrite (dec_enc _ _ Ht He).
Qed.

Lemma merged_patch_later {A} (f : ConfigPatch -> option A) ls :
  (forall a b, f (patch_overlay a b) = later (f a) (f b)) -> f ConfigPatch_default = None ->
  f (merged_patch ls) = last (omap (fun layer => f (patch layer)) ls).
Proof.
  intros Hf H0. unfold merged_patch. induction ls as [|layer ls IH] using rev_ind; [done|].
  rewrite foldl_snoc, Hf, IH, omap_app. cbn [omap list_omap].
  destruct (f (patch layer)) as [x|]; cbn [later]; [by rewrite last_snoc|by rewrite app_nil_r].
Qed.

Lemma later_nested {A B} (c : codec A) (field : ConfigPatch -> option A) (g : A -> option B) :
  (forall a b, field (patch_overlay a b) = opt_ov (ov c) (field a) (field b)) ->
  (forall x y, g (ov c x y) = later (g x) (g y)) ->
  forall a b, (q ← field (patch_overlay a b); g q) = later (q ← field a; g q) (q ← field b; g q).
Proof.
  intros Hf Hg a b. rewrite Hf. destruct (field a) as [x|], (field b) as [y|]; cbn; [apply Hg|done| |done].
  by destruct (g y).
Qed.
End resolve_lemmas.

(** ** Properties *)

(** C5: collecting the layers of a profile always terminates within its bound,
    gives exactly the chain of the profile and its ancestors, the root first,
    and otherwise fails with the truth about that chain: an ancestor that is not
    defined, or a ring of profiles that extend each other, printed in full. *)
Theorem profile_layers_exact (profiles : bmap ProfileConfig) (name : str) :
  is_Some (collect_profile_layers_fuel (S (length profiles)) name profiles []) /\
  (forall output, collect_profile_layers name profiles = Ok output <-> extends_chain profiles name output) /\
  match collect_profile_layers name profiles with
  | Ok _ => True
  | Err e =>
      (exists n, e = UnknownProfile n /\ rtc (parent profiles) name n /\ bget n profiles = None) \/
      (exists n ring, e = ProfileCycle (join " -> " (n :: ring ++ [n])) /\
         rtc (parent profiles) name n /\ Sorted (parent profiles) (n :: ring ++ [n]))
  end.
Proof.
  destruct (collect_profile_layers_total profiles name) as (r & Hr & Hc & H). split_and!.
  - rewrite Hr. eauto.
  - intros output. rewrite Hc. split; [intros ->; done|]. intros Hch.
    destruct r as [out|e]; cbn in H; [f_equal; by eapply chain_unique|]. exfalso. destruct e; try done.
    + destruct H as [Hn He]. destruct (chain_rtc _ _ _ _ Hch Hn) as (o & Ho). inversion Ho; congruence.
    + destruct H as (n & ring & Hn & Hs & _). destruct (chain_rtc _ _ _ _ Hch Hn) as (o & Ho).
      apply Sorted_rtc in Hs. remember (length o) as k eqn:Ek. revert o Ho Ek.
      induction k as [k IH] using lt_wf_ind. intros o Ho ->. destruct (chain_tc _ _ _ _ Ho Hs) as (o' & Ho' & Hlt).
      by apply (IH _ Hlt o').
  - rewrite Hc. destruct r as [out|e]; [done|]. destruct e; try done; cbn in H; [left|right].
    + destruct H. eauto.
    + destruct H as (n & ring & ? & ? & ->). eauto.
Qed.

(** The layers are merged in the documented order of precedence, and within
    one kind in the order in which they were added; the selected profile adds
    exactly its chain of ancestors, the root first, at the precedence of
    profiles. *)
Theorem layers_in_precedence_order (self : ConfigResolver) (ls : list ConfigLayer) :
  ordered_layers self = Ok ls ->
  StronglySorted layer_le ls /\
  exists chain,
    match selected_profile_of (sort_layers (layers self)) with
    | Some name => extends_chain (profiles self) name chain
    | None => chain = []
    end /\
    forall k, by_kind k ls = by_kind k (layers self)
                ++ (if bool_decide (k = Profile) then map profile_layer chain else []).
Proof.
  unfold ordered_layers. destruct (selected_profile_of _) as [name|].
  - rewrite bind_Ok. intros (chain & Hc & [= <-]). split; [apply sort_layers_sorted|]. exists chain. split.
    + destruct (collect_profile_layers_total (profiles self) name) as (r & _ & Hr & H).
      rewrite Hc in Hr. by subst r.
    + intros k. by rewrite by_kind_sort, by_kind_app, by_kind_sort, by_kind_profile_layers.
  - intros [= <-]. split; [apply sort_layers_sorted|]. exists []. split; [done|].
    intros k. rewrite by_kind_sort. by case_bool_decide; rewrite app_nil_r.
Qed.

(** A resolver with a global document of two profiles, one layer from the
    command line that selects the derived profile. *)
Definition runtime_patch (r : RuntimeKind) : ConfigPatch :=
  mkConfigPatch None None (Some r) None None None None None None None None None None None [] None None None
    None None None None None None.
Definition profile_patch (name : string) : ConfigPatch :=
  mkConfigPatch (Some (name : str)) None None None None None None None None None None None None None [] None None
    None None None None None None None.
Definition example_resolver : ConfigResolver := {|
  layers := [ConfigLayer_new CommandLine "command line" (profile_patch "work");
             ConfigLayer_new BuiltIn "built-in defaults" built_in_defaults];
  profiles := [("base" : str, mkProfileConfig None (runtime_patch RuntimeKind_Docker));
               ("work" : str, mkProfileConfig (Some ("base" : str)) (runtime_patch RuntimeKind_Podman))];
  homes := [("default" : str, HomeConfig_default)];
  home_sources := [("default" : str, built_in_source)];
  secrets := [] |}.

Lemma layers_in_precedence_order_witness :
  exists ls, ordered_layers example_resolver = Ok ls /\ map layer_kind ls = [BuiltIn; Profile; Profile; CommandLine]
    /\ StronglySorted layer_le ls.
Proof.
  eexists. split; [vm_compute; reflexivity|]. split; [reflexivity|].
  eapply (layers_in_precedence_order example_resolver). vm_compute. reflexivity.
Defined.

(** Resolution is what its specification says, with no reference to TOML
    values: the detour through serialised tables, the in-place merge and the
    final deserialisation amount to overlaying the typed layers in order, so
    that the deserialisation cannot fail. *)
Theorem resolve_is_overlay (F : F64) (FL : F64Laws F) (T : TomlCrate) (self : ConfigResolver) :
  layers_typed (layers self) -> profiles_typed (profiles self) -> resolve self = resolve_spec self.
Proof. apply resolve_is_spec. Qed.

Lemma runtime_patch_typed (F : F64) r : well_typed (runtime_patch r).
Proof.
  layer_well_typed runtime_patch. by destruct r.
Qed.
Lemma profile_patch_typed (F : F64) n : well_typed (profile_patch n).
Proof. layer_well_typed profile_patch. Qed.
Lemma example_resolver_typed (F : F64) :
  layers_typed (layers example_resolver) /\ profiles_typed (profiles example_resolver).
Proof.
  split; repeat (apply Forall_cons; split); try (apply Forall_nil; exact Logic.I).
  - apply profile_patch_typed.
  - apply built_in_well_typed.
  - apply runtime_patch_typed.
  - apply runtime_patch_typed.
Qed.

Lemma resolve_is_overlay_witness :
  let F := integer_floats in let T := no_toml in
  resolve example_resolver = resolve_spec example_resolver /\
  exists r, resolve example_resolver = Ok r /\ ec_runtime (config r) = RuntimeKind_Podman.
Proof.
  intros F T. destruct (example_resolver_typed F) as [H1 H2].
  pose proof (resolve_is_overlay F integer_floats_laws T example_resolver H1 H2) as E.
  split; [exact E|]. rewrite E. eexists. split; [vm_compute; reflexivity|reflexivity].
Defined.

(** The value of a setting in the last layer that has one. *)
Definition last_set {A} (f : ConfigPatch -> option A) (ls : list ConfigLayer) : option A :=
  last (omap (fun layer => f (patch layer)) ls).

(** Every setting of a resolved configuration comes from the last of the
    ordered layers that sets it, and has the documented default when none does;
    this holds for the fields of the nested tables one by one. *)
Theorem settings_from_last_layer (F : F64) (FL : F64Laws F) (T : TomlCrate) (self : ConfigResolver)
    (r : ResolvedConfig) :
  layers_typed (layers self) -> profiles_typed (profiles self) -> resolve self = Ok r ->
  exists ls, ordered_layers self = Ok ls /\ resolved_layers r = map layer_source ls /\
    let c := config r in
    ec_environment c = default ("generic" : str) (last_set environment ls) /\
    ec_runtime c = default RuntimeKind_Auto (last_set runtime ls) /\
    ec_network c = default NetworkMode_Allowlist (last_set network ls) /\
    ec_worktree c = default WorktreeMode_Auto (last_set worktree ls) /\
    ec_home_name c = default ("default" : str) (last_set home ls) /\
    ec_name c = last_set name ls /\
    ec_publish c = default [] (last_set publish ls) /\
    ec_rebuild c = default false (last_set rebuild ls) /\
    ec_tty c = default TtyMode_Auto (last_set tty ls) /\
    ec_workdir c = last_set workdir ls /\
    ec_allow_hosts c = default [] (last_set allow_hosts ls) /\
    ec_allow_ssh_hosts c = default [] (last_set allow_ssh_hosts ls) /\
    block_private_addresses (ec_proxy c)
      = default true (last_set (fun p => p ← proxy p; pp_block_private_addresses p) ls) /\
    listen_port (ec_proxy c) = default 3128%Z (last_set (fun p => p ← proxy p; pp_listen_port p) ls) /\
    ssh_agent (ec_forwarding c) = default cfg_unix (last_set (fun p => p ← forwarding p; fp_ssh_agent p) ls) /\
    branch_prefix (ec_git c) = default ("codex/" : str) (last_set (fun p => p ← git p; gp_branch_prefix p) ls).
Proof.
  intros Hl Hp. rewrite (resolve_is_spec self Hl Hp). unfold resolve_spec.
  rewrite !bind_unit_Ok, bind_Ok. intros (_ & _ & ls & Hls & H). exists ls. split; [done|].
  rewrite bind_Ok in H. destruct H as (vs & _ & H). rewrite bind_Ok in H. destruct H as (prov & _ & H).
  rewrite bind_Ok in H. destruct H as (c & Hc & H). rewrite bind_unit_Ok in H. destruct H as [_ [= <-]].
  split; [done|]. cbn [config]. unfold effective_from_patch in Hc. rewrite bind_Ok in Hc.
  destruct Hc as (h & _ & [= <-]). cbn [ec_environment ec_runtime ec_network ec_worktree ec_home_name ec_name
    ec_publish ec_rebuild ec_tty ec_workdir ec_allow_hosts ec_allow_ssh_hosts ec_proxy ec_forwarding ec_git
    block_private_addresses listen_port ssh_agent branch_prefix].
  assert (forall A (f : ConfigPatch -> option A),
    (forall a b, f (patch_overlay a b) = later (f a) (f b)) -> f ConfigPatch_default = None ->
    f (merged_patch ls) = last_set f ls) as Hlast by (intros A f; apply merged_patch_later).
  assert (forall A B (c : codec A) (field : ConfigPatch -> option A) (g : A -> option B),
    (forall a b, field (patch_overlay a b) = opt_ov (ov c) (field a) (field b)) ->
    (forall x y, g (ov c x y) = later (g x) (g y)) -> field ConfigPatch_default = None ->
    (q ← field (merged_patch ls); g q) = last_set (fun p => q ← field p; g q) ls) as Hnest.
  { intros A B c field g Hf Hg H0. apply (Hlast _ (fun p => q ← field p; g q)); [by apply (later_nested c)|by rewrite H0]. }
  split_and!.
  1-12: f_equal; apply Hlast; [intros; by apply opt_ov_later|done].
  - rewrite <- (Hnest _ _ proxy_codec proxy pp_block_private_addresses); [|reflexivity|intros; by apply opt_ov_later|reflexivity].
    by destruct (proxy (merged_patch ls)).
  - rewrite <- (Hnest _ _ proxy_codec proxy pp_listen_port); [|reflexivity|intros; by apply opt_ov_later|reflexivity].
    by destruct (proxy (merged_patch ls)).
  - rewrite <- (Hnest _ _ forwarding_codec forwarding fp_ssh_agent); [|reflexivity|intros; by apply opt_ov_later|reflexivity].
    by destruct (forwarding (merged_patch ls)).
  - rewrite <- (Hnest _ _ git_codec git gp_branch_prefix); [|reflexivity|intros; by apply opt_ov_later|reflexivity].
    by destruct (git (merged_patch ls)).
Qed.

Lemma settings_from_last_layer_witness :
  let F := integer_floats in let T := no_toml in
  exists r, resolve example_resolver = Ok r /\
    map kind (resolved_layers r) = [BuiltIn; Profile; Profile; CommandLine] /\
    ec_runtime (config r) = RuntimeKind_Podman /\ branch_prefix (ec_git (config r)) = ("codex/" : str).
Proof.
  intros F T. destruct (example_resolver_typed F) as [H1 H2].
  assert (exists r, resolve example_resolver = Ok r) as (r & Hr) by (eexists; vm_compute; reflexivity).
  exists r. split; [exact Hr|].
  destruct (settings_from_last_layer F integer_floats_laws T example_resolver r H1 H2 Hr)
    as (ls & Hls & Hsrc & H).
  assert (ordered_layers example_resolver = ordered_layers example_resolver) as E by reflexivity.
  rewrite Hls in E at 1. vm_compute in E. injection E as ->.
  split; [rewrite Hsrc; reflexivity|]. destruct H as (_ & Hrt & H). split; [rewrite Hrt; reflexivity|].
  do 13 (destruct H as [_ H]). rewrite H. reflexivity.
Defined.

(** A resolved configuration is complete: its home is one of the defined
    homes, every secret reference names a defined provider, the resource limits
    satisfy every bound and relation, and all homes and providers are valid. *)
Theorem resolved_config_sound (F : F64) (T : TomlCrate) (self : ConfigResolver) (r : ResolvedConfig) :
  resolve self = Ok r ->
  let c := config r in
  ec_homes c = homes self /\ ec_secrets c = secrets self /\
  bget (ec_home_name c) (homes self) = Some (ec_home c) /\
  (forall target secret, (target, secret) ∈ ec_secret_refs c -> is_Some (bget secret (secrets self))) /\
  resources_ok true (ec_resources c) /\
  (forall name home, (name, home) ∈ homes self -> HomeConfig_validate home name = Ok tt) /\
  (forall name secret, (name, secret) ∈ secrets self -> SecretProvider_validate secret name = Ok tt).
Proof.
  unfold resolve. rewrite !bind_unit_Ok, bind_Ok. intros (Hh & Hs & ls & _ & H).
  rewrite bind_Ok in H. destruct H as ([merged prov] & _ & H). rewrite bind_Ok in H. destruct H as (prov' & _ & H).
  rewrite bind_Ok in H. destruct H as (p & _ & H). rewrite bind_Ok in H. destruct H as (c & Hc & H).
  rewrite bind_unit_Ok in H. destruct H as [Hv [= <-]]. cbn [config].
  unfold effective_from_patch in Hc. rewrite bind_Ok in Hc. destruct Hc as (h & Hhome & Hc).
  apply ok_or_Ok in Hhome. unfold validate_effective in Hv. rewrite bind_unit_Ok, map_err_Ok, for_each_Ok in Hv.
  destruct Hv as [Hres Hrefs]. injection Hc as <-. cbn [ec_homes ec_secrets ec_home ec_home_name ec_secret_refs ec_resources] in *.
  split_and!; [done|done|done| | | | ].
  - intros t s Hin. rewrite Forall_forall in Hrefs. specialize (Hrefs _ Hin). cbn in Hrefs.
    apply err_if_Ok, negb_false_iff, bool_decide_eq_true_1 in Hrefs. done.
  - by apply (validate_resources_spec _ _ tt).
  - intros n x Hin. apply for_each_Ok in Hh. rewrite Forall_forall in Hh. apply (Hh _ Hin).
  - intros n x Hin. apply for_each_Ok in Hs. rewrite Forall_forall in Hs. apply (Hs _ Hin).
Qed.

Lemma resolved_config_sound_witness :
  let F := integer_floats in let T := no_toml in
  exists r, resolve example_resolver = Ok r /\
    bget (ec_home_name (config r)) (homes example_resolver) = Some (ec_home (config r)) /\
    resources_ok true (ec_resources (config r)).
Proof.
  intros F T. assert (exists r, resolve example_resolver = Ok r) as (r & Hr) by (eexists; vm_compute; reflexivity).
  exists r. split; [exact Hr|].
  destruct (resolved_config_sound F T example_resolver r Hr) as (_ & _ & H1 & _ & H2 & _).
  split; [exact H1|exact H2].
Defined.

(** *** The resolvers a program can build *)

Section reachable.
Context {I : Idna} {F : F64} {T : TomlCrate}.

Inductive reachable : ConfigResolver -> Prop :=
  | reachable_new : reachable ConfigResolver_new
  | reachable_layer self layer self' :
      reachable self -> add_layer self layer = Ok self' -> reachable self'
  | reachable_document self kind label document self' :
      reachable self -> add_document self kind label document = Ok self' -> reachable self'
  | reachable_environment self values self' :
      reachable self -> add_environment_overrides self values = Ok self' -> reachable self'.

Record resolver_ok (self : ConfigResolver) : Prop := {
  layers_valid layer : layer ∈ layers self ->
    layer_kind layer <> Profile /\ validate_patch (patch layer) = Ok tt;
  profiles_valid name p : bget name (profiles self) = Some p ->
    validate_name "profile" name = Ok tt /\ updates (settings p) = None /\ validate_patch (settings p) = Ok tt;
  homes_valid name home : bget name (homes self) = Some home ->
    HomeConfig_validate home name = Ok tt /\
    exists source, bget name (home_sources self) = Some source /\ (kind source = BuiltIn \/ kind source = Global);
  secrets_valid name secret : bget name (secrets self) = Some secret ->
    SecretProvider_validate secret name = Ok tt;
  default_home : is_Some (bget ("default" : str) (homes self)) }.

Lemma document_validate_Ok d :
  document_validate d = Ok tt ->
  schema_version d = CONFIG_SCHEMA_VERSION /\
  Forall (fun kv : str * HomeConfig => HomeConfig_validate kv.2 kv.1 = Ok tt) (document_homes d) /\
  Forall (fun kv : str * SecretProvider => SecretProvider_validate kv.2 kv.1 = Ok tt) (document_secrets d) /\
  Forall (fun kv : str * ProfileConfig => validate_name "profile" kv.1 = Ok tt /\
    updates (settings kv.2) = None /\ validate_patch (settings kv.2) = Ok tt) (document_profiles d).
Proof.
  unfold document_validate. rewrite !bind_unit_Ok, err_if_Ok, !for_each_Ok, negb_false_iff, Z.eqb_eq.
  intros (-> & Hh & Hs & Hn & _ & Hp). split_and!; [done|..].
  - eapply Forall_impl; [exact Hh|]. intros x H. by apply bind_unit_Ok in H as [_ ?].
  - eapply Forall_impl; [exact Hs|]. intros x H. by apply bind_unit_Ok in H as [_ ?].
  - eapply Forall_impl; [exact (proj2 (Forall_and _ _) (conj Hn Hp))|]. intros [n x] [H1 H2].
    apply bind_unit_Ok in H2 as [H2%err_if_Ok H3]. apply bool_decide_eq_false_1 in H2. cbn in *.
    destruct (updates (settings x)); [by destruct H2; eauto|done].
Qed.

Lemma add_layer_ok self layer self' :
  resolver_ok self -> add_layer self layer = Ok self' -> resolver_ok self'.
Proof.
  intros [H1 H2 H3 H4 H5]. unfold add_layer. rewrite !bind_unit_Ok, err_if_Ok.
  intros (Hk%bool_decide_eq_false_1 & Hv & [= <-]). constructor; cbn; [|done..].
  intros l [Hl| ->%list_elem_of_singleton]%elem_of_app; [by apply H1|done].
Qed.

Lemma bget_Forall {A} (P : str * A -> Prop) (m : bmap A) k a : Forall P m -> bget k m = Some a -> P (k, a).
Proof. rewrite Forall_forall. intros H Hk%bget_elem_of. by apply H. Qed.

Lemma add_document_ok self kind label document self' :
  resolver_ok self -> add_document self kind label document = Ok self' -> resolver_ok self'.
Proof.
  intros [H1 H2 H3 H4 H5]. unfold add_document. rewrite !bind_unit_Ok. intros (Hd & Hk & Ha).
  revert Ha. apply add_layer_ok. destruct (document_validate_Ok _ Hd) as (_ & Hh & Hs & Hp).
  assert (document_homes document = [] \/ kind = Global \/ kind = BuiltIn) as Hhomes.
  { case_bool_decide.
    - unfold validate_as_project in Hk. rewrite !bind_unit_Ok, err_if_Ok in Hk. destruct Hk as (_ & Hk & _).
      unfold has_definitions in Hk. left. destruct (document_homes document); [done|].
      cbn in Hk. by rewrite orb_true_r in Hk.
    - apply err_if_Ok, andb_false_iff in Hk as [Hk|Hk].
      + apply negb_false_iff, orb_true_iff in Hk as [Hk|Hk]; apply bool_decide_eq_true_1 in Hk; auto.
      + unfold has_definitions in Hk. left. destruct (document_homes document); [done|].
        cbn in Hk. by rewrite orb_true_r in Hk. }
  constructor; cbn [layers profiles homes home_sources secrets]; [done|..].
  - intros n p [Hin|[_ Hold]]%bget_bextend_Some; [|by apply H2].
    rewrite Forall_forall in Hp. apply (Hp _ Hin).
  - intros n h Hh'. rewrite (bget_bextend_const _ _ _ (mkValueSource kind label)).
    2: { intros kv (x & -> & _)%list_elem_of_fmap. done. }
    rewrite map_map. cbn [fst]. destruct (bget_bextend_Some _ _ _ _ Hh') as [Hin|[Hn Hold]].
    + split; [rewrite Forall_forall in Hh; apply (Hh _ Hin)|].
      rewrite bool_decide_eq_true_2 by (apply list_elem_of_fmap; by exists (n, h)).
      eexists. split; [done|]. cbn. destruct Hhomes as [E|[->| ->]]; [rewrite E in Hin; by apply not_elem_of_nil in Hin|by right|by left].
    + rewrite bool_decide_eq_false_2 by done. by apply H3.
  - intros n p [Hin|[_ Hold]]%bget_bextend_Some; [|by apply H4].
    rewrite Forall_forall in Hs. apply (Hs _ Hin).
  - rewrite bget_bextend. destruct (bget _ (reverse _)); [eauto|done].
Qed.

Lemma resolver_new_ok : resolver_ok ConfigResolver_new.
Proof.
  constructor; cbn; try discriminate.
  - intros l ->%list_elem_of_singleton. split; [done|]. vm_compute. reflexivity.
  - intros n h. case_bool_decide; [|done]. intros [= <-]. split; [done|]. eexists. split; [done|by left].
  - eauto.
Qed.

(** Documents other than global ones define nothing. *)
Lemma add_document_definitions self kind label document self' :
  add_document self kind label document = Ok self' -> kind <> Global -> kind <> BuiltIn ->
  profiles self' = profiles self /\ homes self' = homes self /\ secrets self' = secrets self /\
  home_sources self' = home_sources self.
Proof.
  unfold add_document. rewrite !bind_unit_Ok. intros (_ & Hk & Ha) Hg Hb.
  assert (has_definitions document = false) as Hd.
  { case_bool_decide.
    - unfold validate_as_project in Hk. rewrite !bind_unit_Ok, err_if_Ok in Hk. naive_solver.
    - apply err_if_Ok in Hk. by rewrite !bool_decide_eq_false_2 in Hk by done. }
  unfold has_definitions in Hd. unfold add_layer in Ha. rewrite !bind_unit_Ok in Ha.
  destruct Ha as (_ & _ & [= <-]). cbn [profiles homes secrets home_sources].
  by destruct (document_profiles document), (document_homes document), (document_secrets document).
Qed.
End reachable.


Definition global_document : ConfigDocument :=
  mkConfigDocument 1 ConfigPatch_default
    [("work" : str, mkProfileConfig None (runtime_patch RuntimeKind_Podman))]
    [("host" : str, Host)] [("token" : str, Environment "TOKEN")].


(** A project document is a source of settings only: adding one changes no
    profile, home or secret provider, cannot touch the update settings, and
    leaves exactly one more layer, of the project's kind. *)
Theorem project_document_only_sets (I : Idna) (self : ConfigResolver) (label : str) (document : ConfigDocument)
    (self' : ConfigResolver) :
  add_document self Project label document = Ok self' ->
  profiles self' = profiles self /\ homes self' = homes self /\ secrets self' = secrets self /\
  home_sources self' = home_sources self /\
  layers self' = layers self ++ [mkConfigLayer Project (mkValueSource Project label) (document_settings document)] /\
  updates (document_settings document) = None.
Proof.
  intros H. destruct (add_document_definitions _ _ _ _ _ H) as (E1 & E2 & E3 & E4); [done..|].
  split_and!; [done..| |]; revert H; unfold add_document; rewrite !bind_unit_Ok.
  - intros (_ & _ & H). unfold add_layer in H. rewrite !bind_unit_Ok in H. by destruct H as (_ & _ & [= <-]).
  - intros (_ & H & _). rewrite bool_decide_eq_true_2 in H by done. unfold validate_as_project in H.
    rewrite !bind_unit_Ok, !err_if_Ok in H. destruct H as (_ & _ & H%bool_decide_eq_false_1).
    destruct (updates (document_settings document)); [by destruct H; eauto|done].
Qed.

Definition project_document : ConfigDocument :=
  mkConfigDocument 1 (runtime_patch RuntimeKind_Docker) [] [] [].

Lemma project_document_only_sets_witness :
  let I := ascii_idna in
  exists self, add_document ConfigResolver_new Project "project" project_document = Ok self /\
    homes self = homes ConfigResolver_new /\ length (layers self) = 2%nat.
Proof.
  intros I.
  assert (exists self, add_document ConfigResolver_new Project "project" project_document = Ok self) as (self & H)
    by (eexists; vm_compute; reflexivity).
  exists self. split; [exact H|].
  destruct (project_document_only_sets I _ _ _ _ H) as (_ & E1 & _ & _ & E2 & _).
  split; [exact E1|]. rewrite E2. reflexivity.
Defined.

(** With nothing configured, resolution succeeds and gives the documented
    defaults: the layer of built-in settings agrees with the [Default]
    implementations of the resolved tables. *)
Theorem built_in_defaults_resolve (F : F64) (T : TomlCrate) :
  exists r, resolve ConfigResolver_new = Ok r /\
    let c := config r in
    ec_forwarding c = ForwardingConfig_default /\ ec_git c = GitConfig_default /\
    ec_merge c = MergeConfig_default /\ ec_proxy c = ProxyConfig_default /\
    ec_resources c = ResourceValues_default /\ ec_sessions c = SessionConfig_default /\
    ec_adapter c = AdapterConfig_default /\ ec_updates c = UpdateConfig_default /\
    ec_network c = NetworkMode_Allowlist /\ ec_home c = HomeConfig_default /\
    ec_secret_refs c = [] /\ ec_allow_hosts c = [] /\ ec_selected_profile c = None /\
    source_for (provenance r) "network" = Some built_in_source /\
    source_for (provenance r) "homes.default.name" = Some built_in_source.
Proof.
  eexists. split; [vm_compute; reflexivity|]. vm_compute. by repeat split.
Qed.
End Resolver.
