(* ===== verification/Callback.v ===== *)
(** * Native Codex settings ([codex-start-core/src/config.rs], [CodexConfig],
      [McpOauthCallback], [flatten_codex_table])

    The command-line rendering of the native configuration, and the one pair of
    listener port and callback URL that a launch agrees on with Codex. *)

From S2P Require Export IpAddr Resolver.

(** [serde_json::to_string] on a string; it can fail in its type only. *)
Class JsonCrate := json_to_string : str -> option str.

(** [url::Url::parse] and the accessors that the callback uses. *)
Inductive UrlHost :=
  | Host_Domain (host : str)
  | Host_Ipv4 (octets : list Z)
  | Host_Ipv6 (segments : list Z).
Record Url := mkUrl {
  url_scheme : str;
  url_username : str;
  url_password : option str;
  url_query : option str;
  url_fragment : option str;
  url_host : option UrlHost;
  url_port_or_known_default : option Z }.
Class UrlCrate := Url_parse : str -> option Url.

Module Callback.
Import Toml Codec ConfigTypes ConfigPatch Resolver IpAddr.

(** ** Rendering as [-c key=value] *)

Section render.
Context {T : TomlCrate} {J : JsonCrate}.

(** The fallback text of a failed JSON conversion. *)
Definition empty_json : str := [DQUOTE; DQUOTE].

Definition toml_key_segment (key : str) : str :=
  if nonempty key && forallb (fun byte => is_alphanumeric byte || is_byte "_" byte || is_byte "-" byte) key
  then key
  else default empty_json (json_to_string key).

Definition toml_literal (value : Value) : str :=
  match value with
  | String value => default empty_json (json_to_string value)
  | _ => toml_display value
  end.

Definition flat_key (prefix : option str) (key : str) : str :=
  let segment := toml_key_segment key in
  match prefix with Some prefix => prefix ++ "." ++ segment | None => segment end.

(** One entry of the loop of [flatten_codex_table]; a nested table is collected
    into a [BTreeMap], which keeps its sorted entries as they are. *)
Fixpoint flatten_value (key : str) (value : Value) : list (str * str) :=
  match value with
  | Table child =>
      (fix each (entries : list (str * Value)) : list (str * str) :=
         match entries with
         | [] => []
         | (name, value) :: entries' => flatten_value (flat_key (Some key) name) value ++ each entries'
         end) child
  | _ => [(key, toml_literal value)]
  end.
Definition flatten_codex_table (prefix : option str) (table : bmap Value) : list (str * str) :=
  flat_map (fun '(name, value) => flatten_value (flat_key prefix name) value) table.

Definition override_args (self : CodexConfig) : list str :=
  flat_map (fun '(key, value) => ["-c" : str; key ++ "=" ++ value])
    (flatten_codex_table None (codex_config self)).

Definition command_args (self : CodexConfig) : list str :=
  override_args self
  ++ match codex_profile self with Some profile => ["--profile" : str; profile] | None => [] end
  ++ codex_args self.
End render.

(** ** The OAuth callback *)

Definition MCP_OAUTH_CALLBACK_PORT : str := "mcp_oauth_callback_port".
Definition MCP_OAUTH_CALLBACK_URL : str := "mcp_oauth_callback_url".

Record SocketAddr := mkSocketAddr { addr_ip : IpAddr; addr_port : Z }.

Record McpOauthCallback := mkMcpOauthCallback {
  listener : SocketAddr;
  base_url : str;
  generate_port : bool;
  generate_url : bool }.

Record CallbackValues := mkCallbackValues {
  values_port : option (Value * str);
  values_url : option (Value * str) }.
Definition CallbackValues_default : CallbackValues := mkCallbackValues None None.

Record ParsedCallbackUrl := mkParsedCallbackUrl {
  parsed_value : str;
  parsed_ip : IpAddr;
  parsed_port : Z }.

Definition LOCALHOST : IpAddr := V4 [127; 0; 0; 1]%Z.
(** [Ipv4Addr::is_loopback] and [Ipv6Addr::is_loopback]. *)
Definition ipv4_is_loopback (octets : list Z) : bool := match octets with first :: _ => (first =? 127)%Z | [] => false end.
Definition ipv6_is_loopback (segments : list Z) : bool := bool_decide (segments = [0; 0; 0; 0; 0; 0; 0; 1]%Z).

Definition invalid_callback_port (path : str) : ConfigError :=
  Invalid ("native Codex MCP OAuth callback setting `" ++ path ++ "` must be an integer from 1 through 65535").
Definition invalid_callback_url (path : str) : ConfigError :=
  Invalid ("native Codex MCP OAuth callback setting `" ++ path
           ++ "` must be an HTTP loopback base URL without credentials, query, or fragment").

Definition canonical_callback_url (port : Z) : str := "http://127.0.0.1:" ++ dec port.

Definition callback_port (value : Value) (path : str) : result ConfigError Z :=
  ok_or
    (value ← as_integer value;
     if (0 <=? value)%Z && (value <=? U16_MAX)%Z && negb (value =? 0)%Z then Some value else None)
    (invalid_callback_port path).

Section callback.
Context {T : TomlCrate} {J : JsonCrate} {U : UrlCrate}.

Definition callback_url (value : Value) (path : str) : result ConfigError ParsedCallbackUrl :=
  raw ← ok_or (as_str value) (invalid_callback_url path);
  err_if (negb (trim raw =s? raw) || existsb is_ascii_control raw) (invalid_callback_url path) ;;
  url ← ok_or (Url_parse raw) (invalid_callback_url path);
  err_if (negb (url_scheme url =s? "http") || nonempty (url_username url)
          || bool_decide (is_Some (url_password url)) || bool_decide (is_Some (url_query url))
          || bool_decide (is_Some (url_fragment url))) (invalid_callback_url path) ;;
  ip ← match url_host url with
       | Some (Host_Domain host) =>
           if eq_ignore_ascii_case host "localhost" then Ok LOCALHOST else Err (invalid_callback_url path)
       | Some (Host_Ipv4 ip) => if ipv4_is_loopback ip then Ok (V4 ip) else Err (invalid_callback_url path)
       | Some (Host_Ipv6 ip) => if ipv6_is_loopback ip then Ok (V6 ip) else Err (invalid_callback_url path)
       | None => Err (invalid_callback_url path)
       end;
  port ← ok_or (port ← url_port_or_known_default url; if negb (port =? 0)%Z then Some port else None)
           (invalid_callback_url path);
  Ok (mkParsedCallbackUrl raw ip port).

(** [Option::map(..).transpose()?]. *)
Definition transpose_map {A B} (f : A -> result ConfigError B) (o : option A) : result ConfigError (option B) :=
  match o with Some a => b ← f a; Ok (Some b) | None => Ok None end.

Definition callback_resolve (fallback_port : Z) (values : CallbackValues) : result ConfigError McpOauthCallback :=
  explicit_port ← transpose_map (fun '(value, path) => callback_port value path) (values_port values);
  explicit_url ← transpose_map (fun '(value, path) => callback_url value path) (values_url values);
  '(port, ip, base_url) ←
    match explicit_port, explicit_url with
    | Some port, Some url =>
        if negb (port =? parsed_port url)%Z
        then Err (Invalid ("native Codex MCP OAuth callback URL port " ++ dec (parsed_port url)
                           ++ " conflicts with " ++ MCP_OAUTH_CALLBACK_PORT ++ "=" ++ dec port))
        else Ok (port, parsed_ip url, parsed_value url)
    | Some port, None => Ok (port, LOCALHOST, canonical_callback_url port)
    | None, Some url => Ok (parsed_port url, parsed_ip url, parsed_value url)
    | None, None =>
        err_if (fallback_port =? 0)%Z (invalid_callback_port "forwarding.oauth_callback_port") ;;
        Ok (fallback_port, LOCALHOST, canonical_callback_url fallback_port)
    end;
  Ok (mkMcpOauthCallback (mkSocketAddr ip port) base_url
        (negb (bool_decide (is_Some (values_port values)))) (negb (bool_decide (is_Some (values_url values))))).

Definition from_port (port : Z) : result ConfigError McpOauthCallback :=
  callback_resolve port CallbackValues_default.

Definition codex_listener (self : McpOauthCallback) : SocketAddr :=
  mkSocketAddr LOCALHOST (addr_port (listener self)).

Definition generated_override_args (self : McpOauthCallback) : list str :=
  (if generate_port self
   then ["-c" : str; MCP_OAUTH_CALLBACK_PORT ++ "=" ++ dec (addr_port (listener self))] else [])
  ++ (if generate_url self
      then ["-c" : str; MCP_OAUTH_CALLBACK_URL ++ "=" ++ toml_literal (String (base_url self))] else []).

(** *** User overrides *)

(** [input.parse::<toml::Table>()]. *)
Definition parse_table (input : str) : option (bmap Value) :=
  match ok (toml_parse input) with Some (Table t) => Some t | _ => None end.

Definition callback_override_key (raw : str) : option str :=
  if (raw =s? MCP_OAUTH_CALLBACK_PORT) || (raw =s? MCP_OAUTH_CALLBACK_URL) then Some raw
  else
    match parse_table (raw ++ "=true") with
    | Some [(key, _)] =>
        if (key =s? MCP_OAUTH_CALLBACK_PORT) || (key =s? MCP_OAUTH_CALLBACK_URL) then Some key else None
    | _ => None
    end.

Definition codex_override_value (raw : str) : Value :=
  match parse_table ("value=" ++ raw) with
  | Some [(key, value)] => if key =s? "value" then value else String raw
  | _ => String raw
  end.

Definition apply_expression (self : CallbackValues) (expression : str) (index : nat)
    : result ConfigError CallbackValues :=
  match split_once "=" expression with
  | None => Ok self
  | Some (raw_key, raw_value) =>
      match callback_override_key (trim raw_key) with
      | None => Ok self
      | Some key =>
          let value := codex_override_value (trim raw_value) in
          let path := "Codex config override " ++ dec (Z.of_nat (index + 1)) ++ " (" ++ key ++ ")" in
          if key =s? MCP_OAUTH_CALLBACK_PORT then Ok (mkCallbackValues (Some (value, path)) (values_url self))
          else if key =s? MCP_OAUTH_CALLBACK_URL then Ok (mkCallbackValues (values_port self) (Some (value, path)))
          else Err (Internal ("unhandled MCP OAuth callback setting " ++ key))
      end
  end.

Fixpoint apply_expressions (self : CallbackValues) (expressions : list str) (index : nat)
    : result ConfigError CallbackValues :=
  match expressions with
  | [] => Ok self
  | expression :: expressions' =>
      self ← apply_expression self expression index;
      apply_expressions self expressions' (S index)
  end.

Definition initial_values (self : CodexConfig) : CallbackValues :=
  let setting key := value ← bget key (codex_config self); Some (value, "codex.config." ++ key) in
  mkCallbackValues (setting MCP_OAUTH_CALLBACK_PORT) (setting MCP_OAUTH_CALLBACK_URL).

Definition mcp_oauth_callback (self : CodexConfig) (fallback_port : Z) (override_expressions : list str)
    : result ConfigError McpOauthCallback :=
  values ← apply_expressions (initial_values self) override_expressions 0;
  callback_resolve fallback_port values.
End callback.

(** ** Rendering: lemmas *)

Section render_lemmas.
Context {T : TomlCrate} {J : JsonCrate}.

Definition rendered_path (prefix : option str) (ks : list str) : str :=
  join "." (match prefix with Some p => [p] | None => [] end ++ map toml_key_segment ks).

Lemma flat_key_path prefix k ks :
  rendered_path (Some (flat_key prefix k)) ks = rendered_path prefix (k :: ks).
Proof.
  unfold rendered_path, flat_key. destruct prefix as [p|]; cbn [app map]; [|done].
  destruct (map toml_key_segment ks) as [|w ws]; cbn; [done|]. by rewrite <- !app_assoc.
Qed.

Lemma flatten_value_table key t :
  flatten_value key (Table t) = flatten_codex_table (Some key) t.
Proof.
  induction t as [|[k v] t IH]; [done|].
  change (flatten_value (flat_key (Some key) k) v ++ flatten_value key (Table t)
          = flatten_value (flat_key (Some key) k) v ++ flatten_codex_table (Some key) t). by rewrite IH.
Qed.

Lemma elem_of_flatten_table prefix t e :
  e ∈ flatten_codex_table prefix t <-> exists k v, (k, v) ∈ t /\ e ∈ flatten_value (flat_key prefix k) v.
Proof.
  unfold flatten_codex_table. rewrite list_elem_of_In, in_flat_map. split.
  - intros ([k v] & H1 & H2). exists k, v. by rewrite !list_elem_of_In.
  - intros (k & v & H1 & H2). exists (k, v). by rewrite <- !list_elem_of_In.
Qed.

Lemma elem_of_flatten_value v key e :
  wf (fun _ => True) v ->
  e ∈ flatten_value key v <-> exists ks w, leaf_at v ks = Some w /\ e = (rendered_path (Some key) ks, toml_literal w).
Proof.
  revert key. induction v as [| | | | | |t IH] using Value_nested_ind; intros key Hw.
  all: try (cbn [flatten_value]; rewrite list_elem_of_singleton; split;
    [intros ->; exists []; eexists; split; reflexivity
    |intros ([|k ks] & w & Hl & ->); [by injection Hl as <-|done]]).
  rewrite flatten_value_table, elem_of_flatten_table. apply wf_Table in Hw as [Hs Hw].
  pose proof (bsorted_NoDup _ Hs) as Hd. split.
  - intros (k & v & Hin & He). rewrite Forall_forall in IH, Hw. destruct (Hw _ Hin) as [_ Hv].
    apply (IH _ Hin) in He as (ks & w & Hl & ->); [|done]. exists (k :: ks), w.
    apply (elem_of_bget k v t Hd) in Hin. unfold leaf_at. cbn [walk]. rewrite Hin. split; [done|].
    by rewrite flat_key_path.
  - intros ([|k ks] & w & Hl & ->); [done|]. unfold leaf_at in Hl. cbn [walk] in Hl.
    destruct (bget k t) as [v|] eqn:Hk; [|done]. pose proof (bget_elem_of _ _ _ Hk) as Hin.
    exists k, v. split; [done|]. rewrite Forall_forall in IH, Hw. destruct (Hw _ Hin) as [_ Hv].
    apply (IH _ Hin); [done|]. exists ks, w. split; [done|]. by rewrite flat_key_path.
Qed.
End render_lemmas.

(** The configuration arguments are exactly the leaves of the native
    configuration: there is a [-c key=value] for each value that is not a
    table, its key being the path of quoted segments to it, and nothing else. *)
Theorem override_args_are_leaves (T : TomlCrate) (J : JsonCrate) (t : bmap Value) (key literal : str) :
  wf (fun _ => True) (Table t) ->
  (key, literal) ∈ flatten_codex_table None t <->
  exists k ks v, leaf_at (Table t) (k :: ks) = Some v /\
    key = join "." (map toml_key_segment (k :: ks)) /\ literal = toml_literal v.
Proof.
  intros [Hs Hw]%wf_Table. rewrite elem_of_flatten_table. pose proof (bsorted_NoDup _ Hs) as Hd.
  rewrite Forall_forall in Hw. split.
  - intros (k & v & Hin & He). apply elem_of_flatten_value in He as (ks & w & Hl & E); [|apply (Hw _ Hin)].
    exists k, ks, w. apply (elem_of_bget k v t Hd) in Hin. unfold leaf_at. cbn [walk]. rewrite Hin.
    rewrite flat_key_path in E. by injection E as -> ->.
  - intros (k & ks & w & Hl & -> & ->). unfold leaf_at in Hl. cbn [walk] in Hl.
    destruct (bget k t) as [v|] eqn:Hk; [|done]. pose proof (bget_elem_of _ _ _ Hk) as Hin.
    exists k, v. split; [done|]. apply elem_of_flatten_value; [apply (Hw _ Hin)|].
    exists ks, w. split; [done|]. by rewrite flat_key_path.
Qed.

(** A JSON writer for strings without quotes, backslashes or control bytes. *)
Definition plain_json : JsonCrate := fun s =>
  if existsb (fun c => is_byte DQUOTE c || is_byte "\" c || is_ascii_control c) s then None
  else Some (DQUOTE :: s ++ [DQUOTE]).
Definition native_example : bmap Value :=
  [("model" : str, String "gpt"); ("tools" : str, Table [("web search" : str, String "on")])].

Lemma override_args_are_leaves_witness :
  let T := no_toml in let J := plain_json in
  ("tools." ++ [DQUOTE] ++ "web search" ++ [DQUOTE], [DQUOTE] ++ "on" ++ [DQUOTE]) ∈ flatten_codex_table None native_example.
Proof.
  intros T J. apply (override_args_are_leaves no_toml plain_json native_example).
  - apply wf_Table. split; [repeat constructor|].
    repeat (apply Forall_cons; split); try (apply Forall_nil; exact I); (split; [exact I|]); [apply wf_leaf; reflexivity|].
    apply wf_Table. split; [repeat constructor|]. apply Forall_singleton. split; [exact I|]. apply wf_leaf. reflexivity.
  - exists ("tools" : str), [("web search" : str)], (String "on"). repeat split; vm_compute; reflexivity.
Defined.

(** ** The callback: lemmas *)

Section callback_lemmas.
Context {T : TomlCrate} {J : JsonCrate} {U : UrlCrate}.

(** What an expression sets [key] to. *)
Definition expression_value (key expression : str) : option Value :=
  '(raw_key, raw_value) ← split_once "=" expression;
  k ← callback_override_key (trim raw_key);
  if k =s? key then Some (codex_override_value (trim raw_value)) else None.
Definition expressions_value (key : str) (expressions : list str) : option Value :=
  last (omap (expression_value key) expressions).

Lemma callback_override_key_cases raw k :
  callback_override_key raw = Some k -> k = MCP_OAUTH_CALLBACK_PORT \/ k = MCP_OAUTH_CALLBACK_URL.
Proof.
  unfold callback_override_key. destruct (raw =s? MCP_OAUTH_CALLBACK_PORT) eqn:E1.
  { intros [= <-]. left. by apply str_eqb_eq. }
  destruct (raw =s? MCP_OAUTH_CALLBACK_URL) eqn:E2.
  { intros [= <-]. right. by apply str_eqb_eq. }
  cbn [orb]. destruct (parse_table _) as [[|[key v] [|]]|]; try done.
  destruct (key =s? MCP_OAUTH_CALLBACK_PORT) eqn:E3.
  { intros [= <-]. left. by apply str_eqb_eq. }
  destruct (key =s? MCP_OAUTH_CALLBACK_URL) eqn:E4; [|done]. intros [= <-]. right. by apply str_eqb_eq.
Qed.

Lemma apply_expression_spec self e i : exists self',
  apply_expression self e i = Ok self' /\
  fst <$> values_port self' = later (fst <$> values_port self) (expression_value MCP_OAUTH_CALLBACK_PORT e) /\
  fst <$> values_url self' = later (fst <$> values_url self) (expression_value MCP_OAUTH_CALLBACK_URL e).
Proof.
  unfold apply_expression, expression_value. destruct (split_once "=" e) as [[rk rv]|]; [|by exists self].
  cbn [mbind option_bind]. destruct (callback_override_key (trim rk)) as [k|] eqn:Ek; [|by exists self].
  cbn [mbind option_bind]. destruct (callback_override_key_cases _ _ Ek) as [-> | ->].
  - rewrite (proj2 (str_eqb_eq _ _) eq_refl). by eexists.
  - change (MCP_OAUTH_CALLBACK_URL =s? MCP_OAUTH_CALLBACK_PORT) with false.
    rewrite (proj2 (str_eqb_eq _ _) eq_refl). by eexists.
Qed.

Lemma apply_expressions_spec self es i : exists self',
  apply_expressions self es i = Ok self' /\
  fst <$> values_port self' = later (fst <$> values_port self) (expressions_value MCP_OAUTH_CALLBACK_PORT es) /\
  fst <$> values_url self' = later (fst <$> values_url self) (expressions_value MCP_OAUTH_CALLBACK_URL es).
Proof.
  revert self i. induction es as [|e es IH]; intros self i; [by exists self|].
  cbn [apply_expressions]. destruct (apply_expression_spec self e i) as (s1 & -> & P1 & U1). cbn [mbind result_bind].
  destruct (IH s1 (S i)) as (s2 & -> & P2 & U2). exists s2. split; [done|]. rewrite P2, U2, P1, U1.
  unfold expressions_value. cbn [omap list_omap]. split.
  - destruct (expression_value MCP_OAUTH_CALLBACK_PORT e); [|done]. cbn [later]. rewrite last_cons.
    by destruct (last _).
  - destruct (expression_value MCP_OAUTH_CALLBACK_URL e); [|done]. cbn [later]. rewrite last_cons.
    by destruct (last _).
Qed.

(** The outcome of a successful resolution depends on the two values only. *)
Definition port_of (v : option Value) : option (option Z) :=
  match v with
  | None => Some None
  | Some v => p ← ok (callback_port v []); Some (Some p)
  end.
Definition url_of (v : option Value) : option (option ParsedCallbackUrl) :=
  match v with
  | None => Some None
  | Some v => u ← ok (callback_url v []); Some (Some u)
  end.

Lemma callback_port_path v p q x : callback_port v p = Ok x <-> callback_port v q = Ok x.
Proof. unfold callback_port. by rewrite !ok_or_Ok. Qed.
Lemma callback_url_path v p q x : callback_url v p = Ok x <-> callback_url v q = Ok x.
Proof.
  unfold callback_url. destruct (as_str v) as [raw|]; [|done]. cbn [ok_or mbind result_bind].
  destruct (_ || existsb is_ascii_control raw); [done|]. cbn [err_if mbind result_bind].
  destruct (Url_parse raw) as [u|]; [|done]. cbn [ok_or mbind result_bind].
  destruct (_ || bool_decide (is_Some (url_fragment u))); [done|]. cbn [err_if mbind result_bind].
  destruct (url_host u) as [[h|o|g]|]; [| | |done].
  - destruct (eq_ignore_ascii_case h _); [|done]. cbn [mbind result_bind].
    by destruct (url_port_or_known_default u) as [n|]; cbn; [destruct (negb (n =? 0)%Z)|].
  - destruct (ipv4_is_loopback o); [|done]. cbn [mbind result_bind].
    by destruct (url_port_or_known_default u) as [n|]; cbn; [destruct (negb (n =? 0)%Z)|].
  - destruct (ipv6_is_loopback g); [|done]. cbn [mbind result_bind].
    by destruct (url_port_or_known_default u) as [n|]; cbn; [destruct (negb (n =? 0)%Z)|].
Qed.

Lemma ok_Ok {E A} (m : result E A) a : ok m = Some a <-> m = Ok a.
Proof. destruct m; cbn; split; congruence. Qed.

Lemma port_of_spec o x :
  transpose_map (fun '(value, path) => callback_port value path) o = Ok x <-> port_of (fst <$> o) = Some x.
Proof.
  destruct o as [[v p]|]; cbn [transpose_map fmap option_fmap option_map fst port_of]; [|split; congruence].
  rewrite bind_Ok, bind_Some. setoid_rewrite ok_Ok. setoid_rewrite (callback_port_path v p []).
  split; intros (y & H1 & [= <-]); eauto.
Qed.
Lemma url_of_spec o x :
  transpose_map (fun '(value, path) => callback_url value path) o = Ok x <-> url_of (fst <$> o) = Some x.
Proof.
  destruct o as [[v p]|]; cbn [transpose_map fmap option_fmap option_map fst url_of]; [|split; congruence].
  rewrite bind_Ok, bind_Some. setoid_rewrite ok_Ok. setoid_rewrite (callback_url_path v p []).
  split; intros (y & H1 & [= <-]); eauto.
Qed.

Lemma callback_port_spec v p n : callback_port v p = Ok n <-> v = Integer n /\ (1 <= n <= U16_MAX)%Z.
Proof.
  unfold callback_port. rewrite ok_or_Ok, bind_Some. split.
  - intros (x & Hx & H). destruct v; try done. injection Hx as ->.
    destruct ((0 <=? x)%Z && (x <=? U16_MAX)%Z && negb (x =? 0)%Z) eqn:E; [|done]. injection H as <-.
    apply andb_true_iff in E as [[?%Z.leb_le ?%Z.leb_le]%andb_true_iff ?%negb_true_iff%Z.eqb_neq]. split; [done|lia].
  - intros [-> Hn]. exists n. split; [done|].
    by rewrite (proj2 (Z.leb_le 0 n)), (proj2 (Z.leb_le n U16_MAX)), (proj2 (Z.eqb_neq n 0)) by lia.
Qed.

Definition callback_of (fallback_port : Z) (port : option Z) (url : option ParsedCallbackUrl)
    : option (Z * IpAddr * str) :=
  match port, url with
  | Some port, Some url => if (port =? parsed_port url)%Z then Some (port, parsed_ip url, parsed_value url) else None
  | Some port, None => Some (port, LOCALHOST, canonical_callback_url port)
  | None, Some url => Some (parsed_port url, parsed_ip url, parsed_value url)
  | None, None =>
      if (fallback_port =? 0)%Z then None else Some (fallback_port, LOCALHOST, canonical_callback_url fallback_port)
  end.

Definition is_none {A} (o : option A) : bool := match o with None => true | Some _ => false end.

Lemma callback_resolve_spec fb vs c :
  callback_resolve fb vs = Ok c <->
  exists po uo p ip url, port_of (fst <$> values_port vs) = Some po /\ url_of (fst <$> values_url vs) = Some uo /\
    callback_of fb po uo = Some (p, ip, url) /\
    c = mkMcpOauthCallback (mkSocketAddr ip p) url
          (is_none (fst <$> values_port vs)) (is_none (fst <$> values_url vs)).
Proof.
  assert (forall A (o : option (Value * A)), negb (bool_decide (is_Some o)) = is_none (fst <$> o)) as Hn.
  { intros A [[v a]|]; [by rewrite bool_decide_eq_true_2|done]. }
  unfold callback_resolve. rewrite !Hn, bind_Ok. setoid_rewrite bind_Ok. setoid_rewrite port_of_spec.
  setoid_rewrite url_of_spec. split.
  - intros (po & Hp & uo & Hu & Hc). exists po, uo.
    destruct po as [p|], uo as [u|]; cbn [callback_of].
    + destruct (p =? parsed_port u)%Z; [|done]. injection Hc as <-. by do 3 eexists.
    + injection Hc as <-. by do 3 eexists.
    + injection Hc as <-. by do 3 eexists.
    + destruct (fb =? 0)%Z; [done|]. injection Hc as <-. by do 3 eexists.
  - intros (po & uo & p & ip & url & Hp & Hu & Hx & ->). exists po. split; [done|]. exists uo. split; [done|].
    destruct po as [q|], uo as [u|]; cbn [callback_of] in Hx.
    + destruct (q =? parsed_port u)%Z; [|done]. by injection Hx as <- <- <-.
    + by injection Hx as <- <- <-.
    + by injection Hx as <- <- <-.
    + destruct (fb =? 0)%Z; [done|]. by injection Hx as <- <- <-.
Qed.

Lemma mcp_oauth_callback_spec self fb es c :
  mcp_oauth_callback self fb es = Ok c <->
  let pv := later (bget MCP_OAUTH_CALLBACK_PORT (codex_config self)) (expressions_value MCP_OAUTH_CALLBACK_PORT es) in
  let uv := later (bget MCP_OAUTH_CALLBACK_URL (codex_config self)) (expressions_value MCP_OAUTH_CALLBACK_URL es) in
  exists po uo p ip url, port_of pv = Some po /\ url_of uv = Some uo /\ callback_of fb po uo = Some (p, ip, url) /\
    c = mkMcpOauthCallback (mkSocketAddr ip p) url (is_none pv) (is_none uv).
Proof.
  unfold mcp_oauth_callback. destruct (apply_expressions_spec (initial_values self) es 0) as (vs & -> & Hp & Hu).
  cbn [mbind result_bind]. rewrite callback_resolve_spec, Hp, Hu. unfold initial_values. cbn [values_port values_url].
  by destruct (bget MCP_OAUTH_CALLBACK_PORT (codex_config self)), (bget MCP_OAUTH_CALLBACK_URL (codex_config self)).
Qed.

Definition is_loopback (ip : IpAddr) : bool :=
  match ip with V4 o => ipv4_is_loopback o | V6 g => ipv6_is_loopback g end.

Lemma callback_url_Ok v p u :
  callback_url v p = Ok u ->
  v = String (parsed_value u) /\ is_loopback (parsed_ip u) = true /\ parsed_port u <> 0%Z /\
  exists url, Url_parse (parsed_value u) = Some url /\ url_port_or_known_default url = Some (parsed_port u) /\
    url_scheme url = "http" /\ url_username url = [] /\ url_password url = None /\
    url_query url = None /\ url_fragment url = None.
Proof.
  unfold callback_url. rewrite bind_Ok. intros (raw & Hraw & H). apply ok_or_Ok in Hraw.
  destruct v as [raw'| | | | | |]; try done. injection Hraw as ->. rewrite bind_unit_Ok, bind_Ok in H.
  destruct H as (_ & url & Hurl & H). apply ok_or_Ok in Hurl. rewrite bind_unit_Ok, err_if_Ok in H.
  destruct H as [Hflags H]. apply orb_false_iff in Hflags as [Hflags Hf%bool_decide_eq_false_1].
  apply orb_false_iff in Hflags as [Hflags Hq%bool_decide_eq_false_1].
  apply orb_false_iff in Hflags as [Hflags Hp%bool_decide_eq_false_1].
  apply orb_false_iff in Hflags as [Hs%negb_false_iff%str_eqb_eq Hu]. rewrite bind_Ok in H.
  destruct H as (ip & Hip & H). rewrite bind_Ok in H. destruct H as (port & Hport & [= <-]).
  apply ok_or_Ok in Hport. rewrite bind_Some in Hport. destruct Hport as (n & Hn & Hport). cbn.
  destruct (n =? 0)%Z eqn:E; [done|]. injection Hport as <-. apply Z.eqb_neq in E.
  split_and!; [done| |done|].
  - destruct (url_host url) as [[h|o|g]|]; [| | |done].
    + destruct (eq_ignore_ascii_case h _); [|done]. by injection Hip as <-.
    + destruct (ipv4_is_loopback o) eqn:El; [|done]. by injection Hip as <-.
    + destruct (ipv6_is_loopback g) eqn:El; [|done]. by injection Hip as <-.
  - exists url. split_and!; try done.
    + by destruct (url_username url).
    + destruct (url_password url); [by destruct Hp; eauto|done].
    + destruct (url_query url); [by destruct Hq; eauto|done].
    + destruct (url_fragment url); [by destruct Hf; eauto|done].
Qed.

(** What the code relies on of its crates: a decimal integer is a TOML integer,
    a JSON string without control bytes is a TOML string of the same value, and
    the canonical loopback URL parses into its parts; a URL's port is a [u16]. *)
Class CallbackLaws := {
  override_integer n : (1 <= n <= U16_MAX)%Z -> codex_override_value (dec n) = Integer n;
  override_string s : existsb is_ascii_control s = false ->
    codex_override_value (trim (toml_literal (String s))) = String s;
  parse_canonical n : (1 <= n <= U16_MAX)%Z ->
    Url_parse (canonical_callback_url n)
    = Some (mkUrl "http" [] None None None (Some (Host_Ipv4 [127; 0; 0; 1]%Z)) (Some n));
  parse_port s u n : Url_parse s = Some u -> url_port_or_known_default u = Some n -> (0 <= n <= U16_MAX)%Z }.

Lemma dec_graphic n : (0 <= n)%Z -> Forall (fun c => is_graphic c = true) (dec n).
Proof.
  intros Hn. apply all_digits_dec, all_digits_spec in Hn as [_ H]. eapply Forall_impl; [exact H|].
  intros c Hc. unfold is_digit in Hc. unfold is_graphic. apply in_range_spec in Hc. apply in_range_spec. lia.
Qed.

Lemma canonical_graphic n : (0 <= n)%Z -> Forall (fun c => is_graphic c = true) (canonical_callback_url n).
Proof. intros Hn. apply Forall_app. split; [by repeat constructor|by apply dec_graphic]. Qed.

Lemma graphic_no_control s : Forall (fun c => is_graphic c = true) s -> existsb is_ascii_control s = false.
Proof.
  intros H. apply existsb_false. eapply Forall_impl; [exact H|]. intros c Hc. unfold is_graphic in Hc.
  apply in_range_spec in Hc. unfold is_ascii_control. apply orb_false_iff.
  split; apply not_true_iff_false; rewrite in_range_spec; lia.
Qed.

Lemma callback_url_canonical {L : CallbackLaws} n p : (1 <= n <= U16_MAX)%Z ->
  callback_url (String (canonical_callback_url n)) p = Ok (mkParsedCallbackUrl (canonical_callback_url n) LOCALHOST n).
Proof.
  intros Hn. pose proof (canonical_graphic n ltac:(lia)) as Hg. unfold callback_url. cbn [as_str ok_or mbind result_bind].
  rewrite (trim_all_graphic _ Hg), (proj2 (str_eqb_eq _ _) eq_refl), (graphic_no_control _ Hg), parse_canonical by done.
  cbn. by rewrite (proj2 (Z.eqb_neq n 0)) by lia.
Qed.

Lemma expression_value_set key key' value :
  key = MCP_OAUTH_CALLBACK_PORT \/ key = MCP_OAUTH_CALLBACK_URL ->
  expression_value key' (key ++ "=" ++ value) = if key =s? key' then Some (codex_override_value (trim value)) else None.
Proof.
  intros Hk. unfold expression_value.
  rewrite (proj2 (split_once_Some "=" (key ++ "=" ++ value) key value)).
  - cbn [mbind option_bind].
    assert (callback_override_key (trim key) = Some key) as ->; [by destruct Hk as [-> | ->]|]. done.
  - split; [done|]. apply contains_byte_false. by destruct Hk as [-> | ->].
Qed.

Lemma expressions_value_app key es es' :
  expressions_value key (es ++ es') = later (expressions_value key es) (expressions_value key es').
Proof.
  unfold expressions_value. rewrite omap_app, last_app. by destruct (last (omap (expression_value key) es')).
Qed.

Definition generated_expressions (c : McpOauthCallback) : list str :=
  (if generate_port c then [MCP_OAUTH_CALLBACK_PORT ++ "=" ++ dec (addr_port (listener c))] else [])
  ++ (if generate_url c then [MCP_OAUTH_CALLBACK_URL ++ "=" ++ toml_literal (String (base_url c))] else []).

Lemma generated_expressions_args c :
  generated_override_args c = flat_map (fun e => ["-c" : str; e]) (generated_expressions c).
Proof. unfold generated_override_args, generated_expressions. by destruct (generate_port c), (generate_url c). Qed.

Lemma key_pp : (MCP_OAUTH_CALLBACK_PORT =s? MCP_OAUTH_CALLBACK_PORT) = true.
Proof. reflexivity. Qed.
Lemma key_up : (MCP_OAUTH_CALLBACK_URL =s? MCP_OAUTH_CALLBACK_PORT) = false.
Proof. reflexivity. Qed.
Lemma key_pu : (MCP_OAUTH_CALLBACK_PORT =s? MCP_OAUTH_CALLBACK_URL) = false.
Proof. reflexivity. Qed.
Lemma key_uu : (MCP_OAUTH_CALLBACK_URL =s? MCP_OAUTH_CALLBACK_URL) = true.
Proof. reflexivity. Qed.

Lemma generated_port_value {L : CallbackLaws} c : (1 <= addr_port (listener c) <= U16_MAX)%Z ->
  expressions_value MCP_OAUTH_CALLBACK_PORT (generated_expressions c)
  = if generate_port c then Some (Integer (addr_port (listener c))) else None.
Proof.
  intros Hn. pose proof (trim_all_graphic _ (dec_graphic (addr_port (listener c)) ltac:(lia))) as Ht.
  unfold generated_expressions. rewrite expressions_value_app. unfold expressions_value.
  destruct (generate_port c), (generate_url c); cbn [omap list_omap]; rewrite ?expression_value_set by auto;
    rewrite ?key_pp, ?key_up, ?Ht, ?override_integer by done; done.
Qed.
Lemma generated_url_value {L : CallbackLaws} c : existsb is_ascii_control (base_url c) = false ->
  expressions_value MCP_OAUTH_CALLBACK_URL (generated_expressions c)
  = if generate_url c then Some (String (base_url c)) else None.
Proof.
  intros Hn. unfold generated_expressions. rewrite expressions_value_app. unfold expressions_value.
  destruct (generate_port c), (generate_url c); cbn [omap list_omap]; rewrite ?expression_value_set by auto;
    rewrite ?key_pu, ?key_uu, ?override_string by done; done.
Qed.

(** A successful callback, by cases on who chose its port and its URL. *)
Lemma callback_facts {L : CallbackLaws} self fb es c :
  (0 <= fb <= U16_MAX)%Z -> mcp_oauth_callback self fb es = Ok c ->
  let pv := later (bget MCP_OAUTH_CALLBACK_PORT (codex_config self)) (expressions_value MCP_OAUTH_CALLBACK_PORT es) in
  let uv := later (bget MCP_OAUTH_CALLBACK_URL (codex_config self)) (expressions_value MCP_OAUTH_CALLBACK_URL es) in
  generate_port c = is_none pv /\ generate_url c = is_none uv /\
  (1 <= addr_port (listener c) <= U16_MAX)%Z /\ is_loopback (addr_ip (listener c)) = true /\
  (generate_port c = false -> pv = Some (Integer (addr_port (listener c)))) /\
  (generate_url c = false -> uv = Some (String (base_url c))) /\
  callback_url (String (base_url c)) []
  = Ok (mkParsedCallbackUrl (base_url c) (addr_ip (listener c)) (addr_port (listener c))).
Proof.
  intros Hfb H. apply mcp_oauth_callback_spec in H as (po & uo & p & ip & url & Hp & Hu & Hc & ->).
  cbn [generate_port generate_url listener addr_port addr_ip base_url]. split; [done|]. split; [done|].
  set (pv := later (bget MCP_OAUTH_CALLBACK_PORT _) _) in *.
  set (uv := later (bget MCP_OAUTH_CALLBACK_URL _) _) in *. clearbody pv uv.
  assert (match pv with None => po = None | Some v => exists n, po = Some n /\ v = Integer n /\ (1 <= n <= U16_MAX)%Z end)
    as Hpv.
  { destruct pv as [v|]; cbn in Hp; [|by injection Hp as <-]. rewrite bind_Some in Hp.
    destruct Hp as (n & Hn & [= <-]). apply ok_Ok, callback_port_spec in Hn. naive_solver. }
  assert (match uv with None => uo = None | Some v => exists u, uo = Some u /\ callback_url v [] = Ok u end) as Huv.
  { destruct uv as [v|]; cbn in Hu; [|by injection Hu as <-]. rewrite bind_Some in Hu.
    destruct Hu as (u & Hn & [= <-]). apply ok_Ok in Hn. eauto. }
  assert (forall v u, callback_url v [] = Ok u -> v = String (parsed_value u) /\ (1 <= parsed_port u <= U16_MAX)%Z
            /\ is_loopback (parsed_ip u) = true) as Hurl.
  { intros v u Hok. destruct (callback_url_Ok _ _ _ Hok) as (? & ? & ? & w & Hw & Hport & _).
    pose proof (parse_port _ _ _ Hw Hport). split_and!; [done|lia|lia|done]. }
  destruct pv as [v|], uv as [w|].
  - destruct Hpv as (n & -> & -> & Hn), Huv as (u & -> & Hok). destruct (Hurl _ _ Hok) as (-> & ? & ?).
    cbn in Hc. destruct (n =? parsed_port u)%Z eqn:E; [|done]. apply Z.eqb_eq in E. injection Hc as <- <- <-.
    subst n. split_and!; try done; try lia. by destruct u.
  - destruct Hpv as (n & -> & -> & Hn). subst uo. cbn in Hc. injection Hc as <- <- <-.
    split_and!; try done; try lia. by apply callback_url_canonical.
  - destruct Huv as (u & -> & Hok). destruct (Hurl _ _ Hok) as (-> & ? & ?). subst po. cbn in Hc.
    injection Hc as <- <- <-. split_and!; try done; try lia. by destruct u.
  - subst. cbn in Hc. destruct (fb =? 0)%Z eqn:E; [done|]. apply Z.eqb_neq in E. injection Hc as <- <- <-.
    split_and!; try done; try lia. apply callback_url_canonical. lia.
Qed.

Lemma callback_url_no_control v p u : callback_url v p = Ok u -> existsb is_ascii_control (parsed_value u) = false.
Proof.
  intros H. destruct (callback_url_Ok _ _ _ H) as (-> & _). unfold callback_url in H. cbn [as_str ok_or] in H.
  rewrite bind_Ok in H. destruct H as (raw & [= <-] & H). rewrite bind_unit_Ok, err_if_Ok in H.
  destruct H as [H _]. by apply orb_false_iff in H as [_ H].
Qed.
End callback_lemmas.

(** Crates that satisfy the laws: one [key=value] line of TOML with an integer
    or a quoted string, its JSON quoting, and one form of URL. *)
Definition escape_byte (c : ascii) : str := if is_byte DQUOTE c || is_byte "\" c then ["\"%char; c] else [c].
Fixpoint unescape (s : str) : str :=
  match s with
  | c :: s' =>
      if is_byte "\" c then match s' with d :: s'' => d :: unescape s'' | [] => [] end else c :: unescape s'
  | [] => []
  end.
Definition small_json : JsonCrate := fun s => Some ([DQUOTE] ++ flat_map escape_byte s ++ [DQUOTE]).
Definition small_value (v : str) : option Value :=
  if all_digits v then Some (Integer (dec_value v))
  else inner ← strip_prefix [DQUOTE] v; inner ← strip_suffix [DQUOTE] inner; Some (String (unescape inner)).
Definition small_toml : TomlCrate := {|
  toml_parse := fun s =>
    match ('(key, v) ← split_once "=" s; v ← small_value v; Some (Table [(key, v)])) with
    | Some t => Ok t
    | None => Err (s, None)
    end;
  toml_display := fun _ => [];
  toml_ser_error := "serialization";
  toml_de_error := fun _ => "deserialization" |}.
Definition small_url : UrlCrate := fun s =>
  r ← strip_prefix "http://127.0.0.1:" s; n ← parse_u16 r;
  Some (mkUrl "http" [] None None None (Some (Host_Ipv4 [127; 0; 0; 1]%Z)) (Some n)).

Lemma unescape_escape s : unescape (flat_map escape_byte s) = s.
Proof.
  induction s as [|c s IH]; [done|]. cbn [flat_map]. unfold escape_byte at 1.
  destruct (is_byte DQUOTE c || is_byte "\" c) eqn:E; cbn [app unescape].
  - by rewrite (proj2 (is_byte_true "\" "\") eq_refl), IH.
  - apply orb_false_iff in E as [_ ->]. by rewrite IH.
Qed.

Lemma small_override (raw : str) v : small_value raw = Some v ->
  @codex_override_value small_toml raw = v.
Proof.
  intros H. unfold codex_override_value, parse_table. cbn [toml_parse small_toml].
  rewrite (proj2 (split_once_Some "=" ("value=" ++ raw) "value" raw)).
  - cbn [mbind option_bind]. rewrite H. reflexivity.
  - split; [done|]. by apply contains_byte_false.
Qed.

Lemma small_laws : @CallbackLaws small_toml small_json small_url.
Proof.
  constructor.
  - intros n Hn. apply small_override. unfold small_value. rewrite all_digits_dec by lia.
    unfold dec. rewrite (proj2 (Z.ltb_ge n 0)) by lia. by rewrite (proj2 (dec_nonneg_spec n ltac:(lia))).
  - intros s _. apply small_override. unfold toml_literal, small_json, json_to_string. cbn [default from_option id].
    rewrite trim_graphic.
    + unfold small_value. assert (all_digits ([DQUOTE] ++ flat_map escape_byte s ++ [DQUOTE]) = false) as -> by done.
      rewrite strip_prefix_app. cbn [mbind option_bind].
      rewrite (proj2 (strip_suffix_Some _ _ _) eq_refl). cbn [mbind option_bind]. by rewrite unescape_escape.
    + by intros c r [= <- _].
    + intros c r H. rewrite app_assoc in H. apply app_inj_tail in H as [_ <-]. done.
  - intros n Hn. unfold canonical_callback_url, Url_parse, small_url. rewrite strip_prefix_app. cbn [mbind option_bind].
    unfold parse_u16. by rewrite parse_uint_dec by lia.
  - intros s u n. unfold Url_parse, small_url. rewrite bind_Some. intros (r & _ & H) Hp.
    rewrite bind_Some in H. destruct H as (m & Hm & [= <-]). injection Hp as <-. by eapply parse_u16_bounds.
Qed.

Definition url_config : CodexConfig :=
  mkCodexConfig None [] [(MCP_OAUTH_CALLBACK_URL, String "http://127.0.0.1:8080")].

(** The callback that a launch uses is one address: its listener is a
    loopback address with a real port, the browser's URL is an HTTP loopback URL
    for that same address, and a port or URL that the user configured is used as
    it is, never replaced. *)
Theorem callback_coherent (T : TomlCrate) (J : JsonCrate) (U : UrlCrate) (L : CallbackLaws)
    (self : CodexConfig) (fallback_port : Z) (expressions : list str) (c : McpOauthCallback) :
  (0 <= fallback_port <= U16_MAX)%Z -> mcp_oauth_callback self fallback_port expressions = Ok c ->
  (1 <= addr_port (listener c) <= U16_MAX)%Z /\ is_loopback (addr_ip (listener c)) = true /\
  addr_port (codex_listener c) = addr_port (listener c) /\
  callback_url (String (base_url c)) []
  = Ok (mkParsedCallbackUrl (base_url c) (addr_ip (listener c)) (addr_port (listener c))) /\
  (generate_port c = false <->
     later (bget MCP_OAUTH_CALLBACK_PORT (codex_config self)) (expressions_value MCP_OAUTH_CALLBACK_PORT expressions)
     = Some (Integer (addr_port (listener c)))) /\
  (generate_url c = false <->
     later (bget MCP_OAUTH_CALLBACK_URL (codex_config self)) (expressions_value MCP_OAUTH_CALLBACK_URL expressions)
     = Some (String (base_url c))).
Proof.
  intros Hfb H. destruct (callback_facts _ _ _ _ Hfb H) as (Ep & Eu & Hn & Hip & Hp & Hu & Hok).
  split; [exact Hn|]. split; [done|]. split; [done|]. split; [exact Hok|].
  split; (split; [done|]); intros E; [rewrite Ep|rewrite Eu]; by rewrite E.
Qed.

Lemma callback_coherent_witness :
  let T := small_toml in let J := small_json in let U := small_url in
  exists c, mcp_oauth_callback url_config 1455 [("mcp_oauth_callback_port = 8080" : str)] = Ok c /\
    addr_port (listener c) = 8080%Z /\ is_loopback (addr_ip (listener c)) = true.
Proof.
  intros T J U.
  assert (exists c, mcp_oauth_callback url_config 1455 [("mcp_oauth_callback_port = 8080" : str)] = Ok c /\
    addr_port (listener c) = 8080%Z) as (c & H & E) by (eexists; split; [vm_compute; reflexivity|vm_compute; reflexivity]).
  exists c. split; [exact H|]. split; [exact E|].
  apply (callback_coherent small_toml small_json small_url small_laws url_config 1455
    [("mcp_oauth_callback_port = 8080" : str)] c); [|exact H].
  unfold U16_MAX. lia.
Defined.

(** The overrides that a launch generates complete the user's settings:
    placed in front of the user's expressions they make Codex resolve the very
    same callback, with nothing left to generate. *)
Theorem generated_overrides_complete (T : TomlCrate) (J : JsonCrate) (U : UrlCrate) (L : CallbackLaws)
    (self : CodexConfig) (fallback_port : Z) (expressions : list str) (c : McpOauthCallback) :
  (0 <= fallback_port <= U16_MAX)%Z -> mcp_oauth_callback self fallback_port expressions = Ok c ->
  exists generated, generated_override_args c = flat_map (fun e => ["-c" : str; e]) generated /\
    mcp_oauth_callback self fallback_port (generated ++ expressions)
    = Ok (mkMcpOauthCallback (listener c) (base_url c) false false).
Proof.
  intros Hfb H. destruct (callback_facts _ _ _ _ Hfb H) as (Ep & Eu & Hn & Hip & Hp & Hu & Hok).
  exists (generated_expressions c). split; [apply generated_expressions_args|].
  pose proof (callback_url_no_control _ _ _ Hok) as Hctl. cbn [parsed_value] in Hctl.
  apply mcp_oauth_callback_spec. rewrite !expressions_value_app, generated_port_value, generated_url_value by done.
  assert (forall (o g e : option Value) x (b : bool), b = is_none (later o e) -> (b = false -> later o e = Some x) ->
    g = (if b then Some x else None) -> later o (later g e) = Some x) as Hlater.
  { intros [v|] g [w|] x [] H1 H2 ->; cbn in *; try done; by apply H2. }
  rewrite (Hlater _ _ _ _ _ Ep Hp eq_refl), (Hlater _ _ _ _ _ Eu Hu eq_refl).
  exists (Some (addr_port (listener c))),
    (Some (mkParsedCallbackUrl (base_url c) (addr_ip (listener c)) (addr_port (listener c)))),
    (addr_port (listener c)), (addr_ip (listener c)), (base_url c).
  cbn [port_of url_of callback_of parsed_port parsed_ip parsed_value is_none]. rewrite Hok. split_and!.
  - by rewrite (proj2 (callback_port_spec _ _ _) (conj eq_refl Hn)).
  - done.
  - by rewrite Z.eqb_refl.
  - by destruct (listener c).
Qed.

Lemma generated_overrides_complete_witness :
  let T := small_toml in let J := small_json in let U := small_url in
  exists c, mcp_oauth_callback url_config 1455 [] = Ok c /\
    generated_override_args c = strs ["-c"; "mcp_oauth_callback_port=8080"] /\
    exists generated, generated_override_args c = flat_map (fun e => ["-c" : str; e]) generated /\
      mcp_oauth_callback url_config 1455 (generated ++ [])
      = Ok (mkMcpOauthCallback (listener c) (base_url c) false false).
Proof.
  intros T J U.
  assert (exists c, mcp_oauth_callback url_config 1455 [] = Ok c /\
    generated_override_args c = strs ["-c"; "mcp_oauth_callback_port=8080"]) as (c & H & E)
    by (eexists; split; [vm_compute; reflexivity|vm_compute; reflexivity]).
  exists c. split; [exact H|]. split; [exact E|].
  apply (generated_overrides_complete small_toml small_json small_url small_laws url_config 1455 [] c); [|exact H].
  unfold U16_MAX. lia.
Defined.
End Callback.
