(* ===== verification/EnvSecrets.v ===== *)
(** * Environment manifests: errors and secret screening
      ([codex-start-core/src/environment.rs], [EnvironmentError], [CommandSpec],
      [validate_env] to [sensitive_environment_name])

    The name tests that keep plaintext secrets out of build arguments, the
    environment table and prepare commands. *)

From S2P Require Export HostRules CodexSecrets.

Module EnvSecrets.
Import ConfigTypes CodexSecrets.

(** ** Errors *)

Inductive EnvironmentError :=
  | EnvParse (source_label message : str) (span : option (Z * Z)) (suggestion : option str)
  | EnvUnsupportedSchema (found supported : Z)
  | InvalidManifest (name source_label message : str)
  | EnvInvalid (message : str)
  | Unknown (name : str)
  | Duplicate (name first second : str)
  | InheritanceCycle (cycle : str)
  | MissingMarkers (environment root : str) (markers : list str).

(** ** Names *)

Definition valid_environment_name (value : str) : bool :=
  nonempty value
  && forallb id (imap (fun index byte =>
       is_byte "_" byte || (is_alphanumeric byte && ((0 <? index)%nat || negb (is_digit byte)))) value).

Definition validate_identifier (kind value : str) : result EnvironmentError unit :=
  err_if (negb (nonempty value) || (64 <? length value)%nat
          || negb (forallb (fun byte => is_lower byte || is_digit byte
                              || is_byte "-" byte || is_byte "_" byte || is_byte "." byte) value))
    (EnvInvalid (kind ++ " identifier `" ++ value
                 ++ "` must contain 1-64 lowercase ASCII letters, digits, '.', '_' or '-'")).

Definition sensitive_environment_name (name : str) : bool :=
  let name := to_ascii_uppercase name in
  existsb (fun marker => contains_str marker name)
    (strs ["API_KEY"; "ACCESS_KEY"; "AUTH_TOKEN"; "CLIENT_SECRET"; "CREDENTIAL"; "PASSWORD";
           "PRIVATE_KEY"; "SECRET"; "TOKEN"]).

(** The loop over the characters is the one of [normalized_secret_key]. *)
Definition normalized_setting_name (name : str) : str :=
  trim_end_by (is_byte "_") (foldl normalize_step ([], false) (chars (trim_start_by (is_byte "-") (trim name)))).1.

Definition contains_name_phrase (name phrase : str) : bool :=
  (name =s? phrase)
  || starts_with (phrase ++ "_") name
  || ends_with ("_" ++ phrase) name
  || contains_str ("_" ++ phrase ++ "_") name.

Definition raw_sensitive_setting_name (name : str) : bool :=
  let name := normalized_setting_name name in
  existsb (contains_name_phrase name)
    (strs ["api_key"; "access_key"; "access_token"; "auth_token"; "authorization"; "bearer_token";
           "client_secret"; "cookie"; "credential"; "credentials"; "passphrase"; "password"; "pat";
           "private_key"; "secret"; "token"]).

Definition environment_name_setting (name : str) : bool :=
  let name := normalized_setting_name name in
  (name =s? "env") || (name =s? "env_key") || ends_with "_env" name
  || contains_str "env_var" name || contains_str "environment_variable" name.

Definition sensitive_setting_name (name : str) : bool :=
  negb (environment_name_setting name) && raw_sensitive_setting_name name.
Definition secret_environment_name_setting (name : str) : bool :=
  environment_name_setting name && raw_sensitive_setting_name name.

(** ** References to the environment *)

Definition trim_shell_punctuation (value : str) : str :=
  trim_matches (fun c => is_byte "'" c || is_byte DQUOTE c) (trim value).

Definition environment_reference (value : str) : bool :=
  match strip_prefix "$" (trim_shell_punctuation value) with
  | None => false
  | Some reference =>
      valid_environment_name
        (default reference (reference ← strip_prefix "{" reference; strip_suffix "}" reference))
  end.

(** [value.split_once(char::is_whitespace)]. *)
Fixpoint split_once_whitespace (s : str) : option (str * str) :=
  match strip_any whitespace_chars s with
  | Some rest => Some ([], rest)
  | None =>
      match s with
      | [] => None
      | c :: s' => '(a, b) ← split_once_whitespace s'; Some (c :: a, b)
      end
  end.

Definition authorization_environment_reference (value : str) : bool :=
  match split_once_whitespace (trim_shell_punctuation value) with
  | None => false
  | Some (scheme, reference) =>
      one_of (to_ascii_lowercase scheme) ["basic"; "bearer"; "token"] && environment_reference reference
  end.

Definition safe_secret_reference (name value : str) : bool :=
  if environment_name_setting name then valid_environment_name (trim_shell_punctuation value)
  else environment_reference value || authorization_environment_reference value.

Definition assignment_at (separator : ascii) (value : str) : option (str * str) :=
  '(name, value) ← split_once separator value;
  if sensitive_setting_name name || secret_environment_name_setting name then Some (name, value) else None.
Definition sensitive_assignment (value : str) : option (str * str) :=
  match assignment_at "=" value with Some found => Some found | None => assignment_at ":" value end.

(** ** Screening *)

Definition plaintext_prepare_secret (name : str) : EnvironmentError :=
  EnvInvalid ("prepare argument `" ++ name
              ++ "` looks like a plaintext secret; read the injected environment variable instead").

(** The loop over the peekable arguments. *)
Fixpoint validate_sensitive_pairs (arguments : list str) : result EnvironmentError unit :=
  match arguments with
  | [] => Ok tt
  | argument :: rest =>
      (if secret_environment_name_setting argument then
         match rest with
         | [] => Ok tt
         | value :: _ =>
             err_if (negb (valid_environment_name (trim_shell_punctuation value))) (plaintext_prepare_secret argument)
         end
       else if environment_name_setting argument then Ok tt
       else if sensitive_setting_name argument then
         match rest with
         | [] => Ok tt
         | value :: _ => err_if (negb (environment_reference value)) (plaintext_prepare_secret argument)
         end
       else Ok tt) ;;
      validate_sensitive_pairs rest
  end.

Definition split_ascii_whitespace (s : str) : list str := List.filter nonempty (split_by is_ascii_whitespace s).

Definition validate_prepare_argument (argument : str) : result EnvironmentError unit :=
  match sensitive_assignment argument with
  | Some (name, value) => err_if (negb (safe_secret_reference name value)) (plaintext_prepare_secret name)
  | None => validate_sensitive_pairs (split_ascii_whitespace argument)
  end.

Record CommandSpec := mkCommandSpec { program : str; args : list str }.

Definition validate_prepare_secrets (command : CommandSpec) : result EnvironmentError unit :=
  for_each validate_prepare_argument (args command) ;;
  validate_sensitive_pairs (args command).

Definition CommandSpec_validate (self : CommandSpec) : result EnvironmentError unit :=
  err_if (is_blank (program self)) (EnvInvalid "prepare command program cannot be empty") ;;
  err_if (contains_byte NUL (program self) || existsb (contains_byte NUL) (args self))
    (EnvInvalid "prepare command cannot contain a NUL byte") ;;
  validate_prepare_secrets self.

Definition validate_env (env : bmap str) : result EnvironmentError unit :=
  for_each (fun key =>
      err_if (negb (valid_environment_name key)) (EnvInvalid ("invalid environment variable name `" ++ key ++ "`")) ;;
      err_if (sensitive_environment_name key)
        (EnvInvalid ("environment variable `" ++ key
                     ++ "` looks secret-bearing; use [secret_refs] with a global provider")))
    (bkeys env).

Definition validate_secret_refs (secret_refs : bmap str) : result EnvironmentError unit :=
  for_each (fun '(environment, provider) =>
      err_if (negb (valid_environment_name environment))
        (EnvInvalid ("invalid secret target environment variable `" ++ environment ++ "`")) ;;
      validate_identifier "secret provider" provider)
    secret_refs.

Definition validate_build_args (args : bmap str) : result EnvironmentError unit :=
  for_each (fun '(key, value) =>
      err_if
        (((sensitive_setting_name key || secret_environment_name_setting key)
          && negb (safe_secret_reference key value))
         || is_some_and (sensitive_assignment value) (fun '(name, value) => negb (safe_secret_reference name value)))
        (EnvInvalid ("build argument `" ++ key
                     ++ "` looks like a plaintext secret; use an environment-variable reference")))
    args.

(** ** Specification *)

(** Two neighbours in a list of arguments. *)
Definition adjacent (a b : str) (l : list str) : Prop := exists before after, l = before ++ a :: b :: after.

(** What may follow an argument: after the name of a secret a reference to the
    environment, after a setting that names a secret's variable such a name. *)
Definition pair_ok (a b : str) : Prop :=
  (secret_environment_name_setting a = true -> valid_environment_name (trim_shell_punctuation b) = true) /\
  (sensitive_setting_name a = true -> environment_reference b = true).

Lemma sensitive_not_environment a : sensitive_setting_name a = true -> environment_name_setting a = false.
Proof. unfold sensitive_setting_name. intros [H _]%andb_true_iff. by apply negb_true_iff. Qed.
Lemma secret_environment_setting a : secret_environment_name_setting a = true -> environment_name_setting a = true.
Proof. unfold secret_environment_name_setting. by intros [H _]%andb_true_iff. Qed.

Lemma adjacent_cons a b x l :
  adjacent a b (x :: l) <-> (x = a /\ exists l', l = b :: l') \/ adjacent a b l.
Proof.
  split.
  - intros ([|y before] & after & E); injection E as -> ->; [left; eauto|right; by exists before, after].
  - intros [(-> & l' & ->)|(before & after & ->)]; [by exists [], l'|by exists (x :: before), after].
Qed.

Lemma validate_sensitive_pairs_spec l :
  validate_sensitive_pairs l = Ok tt <-> forall a b, adjacent a b l -> pair_ok a b.
Proof.
  induction l as [|x l IH].
  { split; [|done]. intros _ a b ([|] & after & E); done. }
  cbn [validate_sensitive_pairs]. rewrite bind_unit_Ok, IH. setoid_rewrite adjacent_cons.
  assert ((if secret_environment_name_setting x then
         match l with
         | [] => Ok tt
         | value :: _ => err_if (negb (valid_environment_name (trim_shell_punctuation value))) (plaintext_prepare_secret x)
         end
       else if environment_name_setting x then Ok tt
       else if sensitive_setting_name x then
         match l with
         | [] => Ok tt
         | value :: _ => err_if (negb (environment_reference value)) (plaintext_prepare_secret x)
         end
       else Ok tt) = Ok tt <-> forall b l', l = b :: l' -> pair_ok x b) as ->.
  { unfold pair_ok. destruct (secret_environment_name_setting x) eqn:E1.
    - destruct l as [|v l]; [done|]. rewrite err_if_Ok, negb_false_iff. split.
      + intros H b l' [= <- <-]. split; [done|]. intros Hs%sensitive_not_environment.
        apply secret_environment_setting in E1. congruence.
      + intros H. by apply (H v l).
    - destruct (environment_name_setting x) eqn:E2.
      + split; [|done]. intros _ b l' _. split; [done|]. intros Hs%sensitive_not_environment. congruence.
      + destruct (sensitive_setting_name x) eqn:E3; [|done]. destruct l as [|v l]; [done|].
        rewrite err_if_Ok, negb_false_iff. split; [by intros H b l' [= <- <-]|]. intros H. by apply (H v l). }
  split.
  - intros [H1 H2] a b [(-> & l' & E)|H]; [by eapply H1|by apply H2].
  - intros H. split; [intros b l' E; apply (H x b); eauto|]. intros a b Hab. apply H. by right.
Qed.

(** A prepare command is accepted exactly when it has a program, no NUL byte,
    every argument that assigns to a secret's name assigns a reference to the
    environment, and no secret's name is followed by anything but such a
    reference, neither between arguments nor between the words of one. *)
Theorem prepare_command_exact (command : CommandSpec) :
  CommandSpec_validate command = Ok tt <->
  trim (program command) <> [] /\ NUL ∉ program command /\ (forall a, a ∈ args command -> NUL ∉ a) /\
  (forall a, a ∈ args command ->
     match sensitive_assignment a with
     | Some (name, value) => safe_secret_reference name value = true
     | None => forall x y, adjacent x y (split_ascii_whitespace a) -> pair_ok x y
     end) /\
  (forall x y, adjacent x y (args command) -> pair_ok x y).
Proof.
  unfold CommandSpec_validate, validate_prepare_secrets.
  rewrite !bind_unit_Ok, !err_if_Ok, orb_false_iff, contains_byte_false, existsb_false, for_each_Ok,
    validate_sensitive_pairs_spec, !Forall_forall.
  assert (is_blank (program command) = false <-> trim (program command) <> []) as ->.
  { unfold is_blank. apply bool_decide_eq_false. }
  assert ((forall x, x ∈ args command -> contains_byte NUL x = false) <-> (forall a, a ∈ args command -> NUL ∉ a)) as ->.
  { by setoid_rewrite contains_byte_false. }
  assert ((forall x, x ∈ args command -> validate_prepare_argument x = Ok tt) <->
    (forall a, a ∈ args command ->
     match sensitive_assignment a with
     | Some (name, value) => safe_secret_reference name value = true
     | None => forall x y, adjacent x y (split_ascii_whitespace a) -> pair_ok x y
     end)) as ->; [|tauto].
  split; intros H a Ha; specialize (H a Ha); unfold validate_prepare_argument in *;
    destruct (sensitive_assignment a) as [[name value]|].
  - apply err_if_Ok in H. by apply negb_false_iff.
  - by apply validate_sensitive_pairs_spec.
  - apply err_if_Ok. by rewrite H.
  - by apply validate_sensitive_pairs_spec.
Qed.

(** A command that must be refused and one that must be accepted. *)
Example refuses_token_flag :
  is_ok (CommandSpec_validate (mkCommandSpec "tool" (strs ["--token"; "abc"]))) = false.
Proof. vm_compute. reflexivity. Qed.
Example accepts_token_reference :
  CommandSpec_validate (mkCommandSpec "tool" (strs ["--verbose"; "--token"; "${API_TOKEN}"])) = Ok tt.
Proof. vm_compute. reflexivity. Qed.
(** A reference is itself taken for a secret's name, so that it may not be
    followed by another argument. *)
Example refuses_reference_before_argument :
  is_ok (CommandSpec_validate (mkCommandSpec "tool" (strs ["--token"; "$API_TOKEN"; "--verbose"]))) = false.
Proof. vm_compute. reflexivity. Qed.
(** Only the first [=] of an argument and only pairs of its words are examined,
    so that a plaintext assignment in its last word is let through. *)
Example accepts_trailing_assignment :
  CommandSpec_validate (mkCommandSpec "sh" (strs ["-c"; "export A=1 TOKEN=abc"])) = Ok tt.
Proof. vm_compute. reflexivity. Qed.
End EnvSecrets.
