(* ===== verification/Environment.v ===== *)
(** * Development environments ([codex-start-core/src/environment.rs])

    Manifests with their validation, the registry of named manifests, and the
    resolution of inheritance into one complete environment. *)

From S2P Require Export EnvSecrets Resolver.

(** [{:?}] of a list of strings, which an error message uses. *)
Class DebugStrings := debug_strings : list str -> str.
(** [Path::exists]. *)
Class PathExists := path_exists : str -> bool.

Module Environment.
Import ConfigTypes HostRules ContainerPath EnvSecrets.

Definition ENVIRONMENT_SCHEMA_VERSION : Z := 1.

(** ** Data *)

Record ManifestSource := mkManifestSource { display : str; built_in : bool }.
Definition ManifestSource_built_in (name : str) : ManifestSource := mkManifestSource ("built-in:" ++ name) true.
Definition ManifestSource_file (path : str) : ManifestSource := mkManifestSource (from_utf8_lossy path) false.

Record BuildSpec := mkBuildSpec {
  context : str;
  dockerfile : str;
  build_target : option str;
  build_args : bmap str }.

Inductive MountKind := Bind | Volume | Tmpfs.
Inductive CacheScope := Scope_Shared | Scope_Project | Scope_Environment | Scope_Run.
Inductive PortProtocol := Tcp | Udp.

Record MountSpec := mkMountSpec {
  mount_id : str;
  mount_source : option str;
  mount_target : str;
  mount_kind : MountKind;
  mount_read_only : bool;
  mount_remove : bool }.
Record CacheSpec := mkCacheSpec {
  cache_id : str;
  cache_target : str;
  cache_scope : CacheScope;
  cache_read_only : bool;
  cache_remove : bool }.
Record PortSpec := mkPortSpec {
  port_id : str;
  port_container : Z;
  port_host : option Z;
  port_host_ip : str;
  port_protocol : PortProtocol;
  port_remove : bool }.
Record HostServiceSpec := mkHostServiceSpec {
  service_id : str;
  service_host : str;
  service_port : Z;
  service_container_host : option str;
  service_container_port : option Z;
  service_allow_private : bool;
  service_remove : bool }.

Record EnvironmentManifest := mkEnvironmentManifest {
  manifest_schema_version : Z;
  manifest_name : str;
  description : option str;
  manifest_extends : option str;
  manifest_settings : ConfigPatch.ConfigPatch;
  image : option str;
  build : option BuildSpec;
  manifest_workdir : option str;
  user : option str;
  markers : option (list str);
  prepare : option (list CommandSpec);
  env : bmap str;
  manifest_secret_refs : bmap str;
  manifest_allow_hosts : option (list str);
  mounts : list MountSpec;
  caches : list CacheSpec;
  ports : list PortSpec;
  host_services : list HostServiceSpec }.

(** ** Messages ([#[error(..)]] of [ConfigError] and [EnvironmentError]) *)

Definition suggestion_text (suggestion : option str) : str :=
  match suggestion with Some value => "; did you mean `" ++ value ++ "`?" | None => [] end.

Definition ConfigError_to_string (e : ConfigError) : str :=
  match e with
  | Parse source_label message _ suggestion =>
      "failed to parse configuration " ++ source_label ++ ": " ++ message ++ suggestion_text suggestion
  | UnsupportedSchema found supported =>
      "unsupported configuration schema " ++ dec found ++ "; this version supports " ++ dec supported
  | Invalid message => "invalid configuration: " ++ message
  | ProjectDefinitions => "profiles, homes, and secrets are not allowed in project configuration"
  | ProjectUpdates => "host-binary update settings are not allowed in project configuration"
  | ProfileUpdates => "host-binary update settings are global and are not allowed in profiles"
  | DefinitionsOutsideGlobal => "profiles, homes, and secrets may be declared only in global configuration"
  | UnknownProfile name => "profile `" ++ name ++ "` is not defined"
  | ProfileCycle cycle => "profile inheritance cycle: " ++ cycle
  | UnknownHome name => "home `" ++ name ++ "` is not defined"
  | UnknownSecret target name => "secret `" ++ name ++ "` referenced by `" ++ target ++ "` is not defined globally"
  | ReservedProfileLayer => "profile layers are synthesized by the resolver and cannot be added directly"
  | InvalidEnvironmentOverride key => "invalid environment override `" ++ key ++ "`"
  | ConflictingEnvironmentOverride key => "environment override `" ++ key ++ "` conflicts with another override"
  | EnvironmentOverride message => "invalid environment overrides: " ++ message
  | Internal message => "internal configuration conversion failed: " ++ message
  end.

Definition EnvironmentError_to_string {D : DebugStrings} (e : EnvironmentError) : str :=
  match e with
  | EnvParse source_label message _ suggestion =>
      "failed to parse environment manifest " ++ source_label ++ ": " ++ message ++ suggestion_text suggestion
  | EnvUnsupportedSchema found supported =>
      "unsupported environment schema " ++ dec found ++ "; this version supports " ++ dec supported
  | InvalidManifest name source_label message =>
      "invalid environment manifest `" ++ name ++ "` from " ++ source_label ++ ": " ++ message
  | EnvInvalid message => "invalid environment: " ++ message
  | Unknown name => "environment `" ++ name ++ "` is not defined"
  | Duplicate name first second =>
      "environment `" ++ name ++ "` is defined twice (" ++ first ++ " and " ++ second ++ ")"
  | InheritanceCycle cycle => "environment inheritance cycle: " ++ cycle
  | MissingMarkers environment root markers =>
      "environment `" ++ environment ++ "` requires markers " ++ debug_strings markers ++ " below " ++ from_utf8_lossy root
  end.

(** ** Validation of a manifest *)

Fixpoint validate_resource_ids_from (kind : str) (ids : list str) (resources : list str)
    : result EnvironmentError unit :=
  match resources with
  | [] => Ok tt
  | value :: resources' =>
      validate_identifier kind value ;;
      err_if (memb value ids) (EnvInvalid ("duplicate " ++ kind ++ " id `" ++ value ++ "`")) ;;
      validate_resource_ids_from kind (value :: ids) resources'
  end.
(** [validate_resource_ids(resources, id, kind)], on the mapped identifiers. *)
Definition validate_resource_ids {A} (resources : list A) (id : A -> str) (kind : str)
    : result EnvironmentError unit := validate_resource_ids_from kind [] (map id resources).

Definition validate_absolute_target (kind path : str) : result EnvironmentError unit :=
  err_if (negb (is_ok (ContainerPath.new path)) || (path =s? "/"))
    (EnvInvalid (kind ++ " target `" ++ from_utf8_lossy path ++ "` must be an absolute non-root path")).

Definition validate_oci_reference (image : str) : result EnvironmentError unit :=
  let image := trim image in
  err_if (negb (nonempty image) || existsb is_ascii_whitespace image)
    (EnvInvalid "image must be a non-empty OCI reference without whitespace") ;;
  match rsplit_once "@" image with
  | Some (_, digest) =>
      hex ← ok_or (strip_prefix "sha256:" digest) (EnvInvalid "image digests must use sha256");
      err_if (negb (length hex =? 64)%nat || negb (forallb is_hexdigit hex))
        (EnvInvalid "image sha256 digest must contain exactly 64 hexadecimal digits")
  | None =>
      let leaf := default image (last (split "/" image)) in
      '(_, tag) ← ok_or (rsplit_once ":" leaf)
        (EnvInvalid "image references must use an explicit non-latest tag or sha256 digest");
      err_if (negb (nonempty tag) || eq_ignore_ascii_case tag "latest")
        (EnvInvalid "image references cannot use an empty or latest tag")
  end.

Definition validate_mount (mount : MountSpec) : result EnvironmentError unit :=
  if mount_remove mount then Ok tt else
  validate_absolute_target "mount" (mount_target mount) ;;
  match mount_kind mount, mount_source mount with
  | (Bind | Volume), None => Err (EnvInvalid ("mount `" ++ mount_id mount ++ "` requires a source"))
  | Tmpfs, Some _ => Err (EnvInvalid ("tmpfs mount `" ++ mount_id mount ++ "` cannot have a source"))
  | _, _ => Ok tt
  end.

Definition validate_cache (cache : CacheSpec) : result EnvironmentError unit :=
  if cache_remove cache then Ok tt else validate_absolute_target "cache" (cache_target cache).

Definition validate_port (port : PortSpec) : result EnvironmentError unit :=
  err_if (negb (port_remove port)
          && ((port_container port =? 0)%Z || bool_decide (port_host port = Some 0%Z)))
    (EnvInvalid ("port `" ++ port_id port ++ "` must use values in 1..=65535")) ;;
  err_if (negb (port_remove port) && negb (bool_decide (is_Some (IpAddr.parse_ip (port_host_ip port)))))
    (EnvInvalid ("port `" ++ port_id port ++ "` has invalid host_ip `" ++ port_host_ip port ++ "`")).

Section manifests.
Context {I : Idna} {D : DebugStrings}.

Definition valid_host_service_target (host : str) : bool :=
  negb (contains_byte "*" host) && valid_dns_or_ip host.

Definition valid_container_alias (alias : str) : bool :=
  if negb (forallb is_ascii alias) then false
  else match IpAddr.parse_ip alias with
       | Some (IpAddr.V4 address) => bool_decide (address = [127; 0; 0; 1]%Z)
       | Some (IpAddr.V6 _) => false
       | None => negb (contains_byte "*" alias) && valid_dns_or_ip alias
       end.

Definition validate_host_service (service : HostServiceSpec) : result EnvironmentError unit :=
  if service_remove service then Ok tt else
  err_if ((service_port service =? 0)%Z || bool_decide (service_container_port service = Some 0%Z))
    (EnvInvalid ("host service `" ++ service_id service ++ "` has an invalid zero port")) ;;
  err_if (negb (valid_host_service_target (service_host service)))
    (EnvInvalid ("host service `" ++ service_id service ++ "` has invalid target host `"
                 ++ service_host service ++ "`")) ;;
  err_if (is_some_and (service_container_host service) (fun alias => negb (valid_container_alias alias)))
    (EnvInvalid ("host service `" ++ service_id service ++ "` has invalid container_host alias")).

Definition validate_manifest_header (manifest : EnvironmentManifest) : result EnvironmentError unit :=
  err_if (negb (manifest_schema_version manifest =? ENVIRONMENT_SCHEMA_VERSION)%Z)
    (EnvUnsupportedSchema (manifest_schema_version manifest) ENVIRONMENT_SCHEMA_VERSION) ;;
  validate_identifier "environment" (manifest_name manifest) ;;
  err_if (bool_decide (manifest_extends manifest = Some (manifest_name manifest)))
    (EnvInvalid "an environment cannot extend itself") ;;
  map_err (fun error => EnvInvalid (ConfigError_to_string error))
    (ConfigPatch.validate_patch (manifest_settings manifest)) ;;
  err_if (bool_decide (is_Some (ConfigPatch.profile (manifest_settings manifest)))
          || bool_decide (is_Some (ConfigPatch.environment (manifest_settings manifest)))
          || bool_decide (is_Some (ConfigPatch.updates (manifest_settings manifest))))
    (EnvInvalid "environment defaults cannot select a profile, another environment, or host update policy") ;;
  err_if (bool_decide (is_Some (image manifest)) && bool_decide (is_Some (build manifest)))
    (EnvInvalid "image and build are mutually exclusive") ;;
  match image manifest with Some image => validate_oci_reference image | None => Ok tt end ;;
  err_if (is_some_and (manifest_workdir manifest) (fun path => negb (is_ok (ContainerPath.new path))))
    (EnvInvalid "container workdir must be absolute") ;;
  for_each CommandSpec_validate (default [] (prepare manifest)) ;;
  match build manifest with Some build => validate_build_args (build_args build) | None => Ok tt end ;;
  validate_env (env manifest) ;;
  validate_secret_refs (manifest_secret_refs manifest).

Definition validate_manifest_resources (manifest : EnvironmentManifest) : result EnvironmentError unit :=
  validate_resource_ids (mounts manifest) mount_id "mount" ;;
  validate_resource_ids (caches manifest) cache_id "cache" ;;
  validate_resource_ids (ports manifest) port_id "port" ;;
  validate_resource_ids (host_services manifest) service_id "host service" ;;
  for_each validate_mount (mounts manifest) ;;
  for_each validate_cache (caches manifest) ;;
  for_each validate_port (ports manifest) ;;
  for_each validate_host_service (host_services manifest).

Definition validate_host_rule (rule : str) : result EnvironmentError unit :=
  err_if (negb (valid_host_rule_syntax rule)) (EnvInvalid ("invalid allow-list host rule `" ++ rule ++ "`")).

Definition manifest_validate (self : EnvironmentManifest) : result EnvironmentError unit :=
  validate_manifest_header self ;;
  validate_manifest_resources self ;;
  for_each validate_host_rule (default [] (manifest_allow_hosts self)).
End manifests.

(** *** Parsing *)

(** [toml::from_str::<EnvironmentManifest>]: the manifest, or a message and span. *)
Class ManifestParser := manifest_from_str : str -> result (str * option (Z * Z)) EnvironmentManifest.

Definition MANIFEST_FIELDS : list string :=
  ["schema_version"; "name"; "description"; "extends"; "settings"; "image"; "build"; "workdir"; "user";
   "markers"; "prepare"; "env"; "secret_refs"; "allow_hosts"; "mounts"; "caches"; "ports"; "host_services";
   "context"; "dockerfile"; "target"; "args"; "program"; "id"; "source"; "kind"; "read_only"; "remove";
   "scope"; "container"; "host"; "host_ip"; "protocol"; "port"; "container_host"; "container_port";
   "allow_private"].

(** [environment_edit_distance] repeats [edit_distance] word for word. *)
Definition environment_unknown_field_suggestion (message : str) : option str :=
  '(_, rest) ← split_once_str "unknown field `" message;
  '(unknown, _) ← split_once "`" rest;
  best ← Resolver.min_by_key (Resolver.edit_distance unknown) (strs MANIFEST_FIELDS);
  if (Resolver.edit_distance unknown best <=? 3)%nat then Some best else None.

Definition manifest_parse {I : Idna} {P : ManifestParser} (input source : str)
    : result EnvironmentError EnvironmentManifest :=
  manifest ← map_err (fun '(message, span) =>
                        EnvParse source message span (environment_unknown_field_suggestion message))
                     (manifest_from_str input);
  map_err (fun error => match error with
                        | EnvInvalid message => InvalidManifest (manifest_name manifest) source message
                        | other => other
                        end)
    (manifest_validate manifest) ;;
  Ok manifest.

(** ** Inheritance *)

Definition merge_by_id {A} (id : A -> str) (removed : A -> bool) (parent child : list A) : list A :=
  bvalues
    (fold_left (fun items item =>
        if removed item then bremove (id item) items else binsert (id item) item items)
      child (bcollect (map (fun item => (id item, item)) parent))).

Definition without_removed {A} (removed : A -> bool) (items : list A) : list A :=
  List.filter (fun item => negb (removed item)) items.

(** [filter(|value| seen.insert(value.clone()))]. *)
Definition deduplicate (values : list str) : list str := dedup_from [] values.

(** [if child.is_some() { parent = child }]. *)
Definition replace_some {A} (parent child : option A) : option A :=
  match child with Some _ => child | None => parent end.

Section inheritance.
Context {I : Idna} {F : F64} {T : TomlCrate}.

Definition merge_manifest (parent child : EnvironmentManifest) : result EnvironmentError EnvironmentManifest :=
  settings ← map_err (fun error => EnvInvalid (ConfigError_to_string error))
               (ConfigPatch.merged_with (manifest_settings parent) (manifest_settings child));
  let replaces_image := bool_decide (is_Some (image child)) || bool_decide (is_Some (build child)) in
  Ok {|
    manifest_schema_version := manifest_schema_version child;
    manifest_name := manifest_name child;
    description := replace_some (description parent) (description child);
    manifest_extends := None;
    manifest_settings := settings;
    image := if replaces_image then image child else image parent;
    build := if replaces_image then build child else build parent;
    manifest_workdir := replace_some (manifest_workdir parent) (manifest_workdir child);
    user := replace_some (user parent) (user child);
    markers := replace_some (markers parent) (markers child);
    prepare := replace_some (prepare parent) (prepare child);
    env := bextend (env parent) (env child);
    manifest_secret_refs := bextend (manifest_secret_refs parent) (manifest_secret_refs child);
    manifest_allow_hosts := replace_some (manifest_allow_hosts parent) (deduplicate <$> manifest_allow_hosts child);
    mounts := merge_by_id mount_id mount_remove (mounts parent) (mounts child);
    caches := merge_by_id cache_id cache_remove (caches parent) (caches child);
    ports := merge_by_id port_id port_remove (ports parent) (ports child);
    host_services := merge_by_id service_id service_remove (host_services parent) (host_services child) |}.
End inheritance.

(** ** Resolved environments *)

Record ResolvedEnvironment := mkResolvedEnvironment {
  resolved_name : str;
  resolved_description : option str;
  resolved_ancestry : list str;
  resolved_settings : ConfigPatch.ConfigPatch;
  resolved_image : option str;
  resolved_build : option BuildSpec;
  resolved_workdir : str;
  resolved_user : option str;
  resolved_markers : list str;
  resolved_prepare : list CommandSpec;
  resolved_env : bmap str;
  resolved_secret_refs : bmap str;
  resolved_allow_hosts : list str;
  resolved_mounts : list MountSpec;
  resolved_caches : list CacheSpec;
  resolved_ports : list PortSpec;
  resolved_host_services : list HostServiceSpec }.

Definition matches_project {PE : PathExists} (self : ResolvedEnvironment) (root : str) : bool :=
  forallb (fun marker => path_exists (path_join root marker)) (resolved_markers self).

Definition validate_project {PE : PathExists} (self : ResolvedEnvironment) (root : str)
    : result EnvironmentError unit :=
  let missing := map from_utf8_lossy
    (List.filter (fun marker => negb (path_exists (path_join root marker))) (resolved_markers self)) in
  if nonempty missing then Err (MissingMarkers (resolved_name self) root missing) else Ok tt.

(** ** The registry *)

Record RegisteredManifest := mkRegisteredManifest {
  registered : EnvironmentManifest;
  registered_source : ManifestSource }.
Abbreviation EnvironmentRegistry := (bmap RegisteredManifest).

Definition registry_new : EnvironmentRegistry := [].

Definition registry_insert {I : Idna} {D : DebugStrings} (self : EnvironmentRegistry)
    (manifest : EnvironmentManifest) (source : ManifestSource) : result EnvironmentError EnvironmentRegistry :=
  map_err (fun error => InvalidManifest (manifest_name manifest) (display source) (EnvironmentError_to_string error))
    (manifest_validate manifest) ;;
  match bget (manifest_name manifest) self with
  | Some existing =>
      Err (Duplicate (manifest_name manifest) (display (registered_source existing)) (display source))
  | None => Ok (binsert (manifest_name manifest) (mkRegisteredManifest manifest source) self)
  end.

Definition registry_replace {I : Idna} (self : EnvironmentRegistry) (manifest : EnvironmentManifest)
    (source : ManifestSource) : result EnvironmentError (option ManifestSource * EnvironmentRegistry) :=
  manifest_validate manifest ;;
  Ok (registered_source <$> bget (manifest_name manifest) self,
      binsert (manifest_name manifest) (mkRegisteredManifest manifest source) self).

Definition registry_names (self : EnvironmentRegistry) : list str := bkeys self.
Definition registry_manifest (self : EnvironmentRegistry) (name : str) : option EnvironmentManifest :=
  registered <$> bget name self.
Definition registry_source (self : EnvironmentRegistry) (name : str) : option ManifestSource :=
  registered_source <$> bget name self.

(** The loop of [ancestry], one unit of fuel per turn; [None] is out of fuel. *)
Fixpoint ancestry_fuel (fuel : nat) (self : EnvironmentRegistry) (lineage : list str) (current : str)
    : option (result EnvironmentError (list str)) :=
  match fuel with
  | O => None
  | S fuel' =>
      match Resolver.position current lineage with
      | Some position => Some (Err (InheritanceCycle (join " -> " (drop position lineage ++ [current]))))
      | None =>
          let lineage := lineage ++ [current] in
          match bget current self with
          | None => Some (Err (Unknown current))
          | Some entry =>
              match manifest_extends (registered entry) with
              | Some parent => ancestry_fuel fuel' self lineage parent
              | None => Some (Ok (reverse lineage))
              end
          end
      end
  end.
Definition ancestry (self : EnvironmentRegistry) (name : str) : result EnvironmentError (list str) :=
  default (Err (InheritanceCycle name)) (ancestry_fuel (S (length self)) self [] name).

Section resolution.
Context {I : Idna} {F : F64} {T : TomlCrate}.

(** One unit of fuel per frame; [None] is out of fuel. *)
Fixpoint resolve_manifest_fuel (fuel : nat) (self : EnvironmentRegistry) (name : str) (stack : list str)
    : option (result EnvironmentError EnvironmentManifest) :=
  match fuel with
  | O => None
  | S fuel' =>
      match Resolver.position name stack with
      | Some position => Some (Err (InheritanceCycle (join " -> " (drop position stack ++ [name]))))
      | None =>
          match bget name self with
          | None => Some (Err (Unknown name))
          | Some entry =>
              match manifest_extends (registered entry) with
              | Some parent =>
                  parent ← resolve_manifest_fuel fuel' self parent (stack ++ [name]);
                  Some (parent ← parent; merge_manifest parent (registered entry))
              | None => Some (Ok (registered entry))
              end
          end
      end
  end.
Definition resolve_manifest (self : EnvironmentRegistry) (name : str) : result EnvironmentError EnvironmentManifest :=
  default (Err (InheritanceCycle name)) (resolve_manifest_fuel (S (length self)) self name []).

Definition registry_resolve (self : EnvironmentRegistry) (name : str) : result EnvironmentError ResolvedEnvironment :=
  ancestry ← ancestry self name;
  manifest ← resolve_manifest self name;
  let resolved := {|
    resolved_name := manifest_name manifest;
    resolved_description := description manifest;
    resolved_ancestry := ancestry;
    resolved_settings := manifest_settings manifest;
    resolved_image := image manifest;
    resolved_build := build manifest;
    resolved_workdir := default ("/workspace" : str) (manifest_workdir manifest);
    resolved_user := user manifest;
    resolved_markers := default [] (markers manifest);
    resolved_prepare := default [] (prepare manifest);
    resolved_env := env manifest;
    resolved_secret_refs := manifest_secret_refs manifest;
    resolved_allow_hosts := deduplicate (default [] (manifest_allow_hosts manifest));
    resolved_mounts := without_removed mount_remove (mounts manifest);
    resolved_caches := without_removed cache_remove (caches manifest);
    resolved_ports := without_removed port_remove (ports manifest);
    resolved_host_services := without_removed service_remove (host_services manifest) |} in
  err_if (negb (bool_decide (is_Some (resolved_image resolved))) && negb (bool_decide (is_Some (resolved_build resolved))))
    (EnvInvalid ("resolved environment `" ++ name ++ "` has neither image nor build")) ;;
  Ok resolved.

(** The order of the candidates of [detect]. *)
Definition candidate_compare (left right : ResolvedEnvironment) : comparison :=
  match Nat.compare (length (resolved_markers right)) (length (resolved_markers left)) with
  | Eq => str_compare (resolved_name left) (resolved_name right)
  | order => order
  end.
(** [sort_by], which is stable. *)
Fixpoint insert_candidate (x : ResolvedEnvironment) (l : list ResolvedEnvironment) : list ResolvedEnvironment :=
  match l with
  | [] => [x]
  | y :: l' => match candidate_compare x y with Gt => y :: insert_candidate x l' | _ => x :: l end
  end.
Definition sort_candidates (l : list ResolvedEnvironment) : list ResolvedEnvironment := foldr insert_candidate [] l.

Definition detect {PE : PathExists} (self : EnvironmentRegistry) (root : str) : result EnvironmentError (option str) :=
  environments ← collect_results (registry_resolve self) (registry_names self);
  let candidates := List.filter (fun environment =>
    nonempty (resolved_markers environment) && matches_project environment root) environments in
  Ok (resolved_name <$> head (sort_candidates candidates)).
End resolution.

(** ** Lineages *)

(** [a] is registered and extends [b]. *)
Definition parent (self : EnvironmentRegistry) (a b : str) : Prop :=
  exists e, bget a self = Some e /\ manifest_extends (registered e) = Some b.

(** An environment and its ancestors, the root first. *)
Inductive lineage (self : EnvironmentRegistry) : str -> list (str * EnvironmentManifest) -> Prop :=
  | lineage_root name e :
      bget name self = Some e -> manifest_extends (registered e) = None ->
      lineage self name [(name, registered e)]
  | lineage_child name e base line :
      bget name self = Some e -> manifest_extends (registered e) = Some base -> lineage self base line ->
      lineage self name (line ++ [(name, registered e)]).

Lemma lineage_nonempty self name line : lineage self name line -> line <> [].
Proof. by inversion 1 as [|? ? ? l]; [|destruct l]. Qed.

(** What the loop gives below [start]: the lineage, or the truth about why
    there is none. *)
Definition ancestors (self : EnvironmentRegistry) (start name : str) (stack : list str)
    (r : result EnvironmentError (list str)) : Prop :=
  match r with
  | Ok out => exists line, lineage self name line /\ out = map fst line ++ reverse stack
  | Err (Unknown n) => rtc (parent self) start n /\ bget n self = None
  | Err (InheritanceCycle cycle) => exists n ring,
      rtc (parent self) start n /\ Sorted (parent self) (n :: ring ++ [n]) /\
      cycle = join " -> " (n :: ring ++ [n])
  | Err _ => False
  end.

Lemma ancestry_fuel_spec self start fuel name stack :
  Sorted (parent self) (stack ++ [name]) -> NoDup stack -> stack ⊆ bkeys self ->
  (length self < fuel + length stack)%nat -> rtc (parent self) start name ->
  exists r, ancestry_fuel fuel self stack name = Some r /\ ancestors self start name stack r.
Proof.
  revert name stack. induction fuel as [|fuel IH]; intros name stack Hs Hd Hk Hl Hr.
  - exfalso. assert (length stack <= length (bkeys self))%nat as Hle.
    { apply submseteq_length, NoDup_submseteq; [done|]. intros x Hx. by apply Hk. }
    unfold bkeys in Hle. rewrite length_map in Hle. cbn in Hl. lia.
  - cbn [ancestry_fuel]. pose proof (Resolver.position_spec name stack) as Hp.
    destruct (Resolver.position name stack) as [i|].
    + eexists. split; [done|]. apply (Resolver.Sorted_drop _ i) in Hs. rewrite drop_app_le in Hs
        by (apply lookup_lt_Some in Hp; lia). rewrite (drop_S _ _ _ Hp) in *.
      cbn. by exists name, (drop (S i) stack).
    + destruct (bget name self) as [e|] eqn:Ee; [|by eexists].
      destruct (manifest_extends (registered e)) as [base|] eqn:Eb.
      * destruct (IH base (stack ++ [name])) as (r & Er & Hc).
        -- rewrite <- app_assoc. apply Resolver.Sorted_snoc2; [done|by exists e].
        -- apply NoDup_app. split_and!; [done| |apply NoDup_singleton].
           intros x Hx ->%list_elem_of_singleton. done.
        -- intros x [Hx| ->%list_elem_of_singleton]%elem_of_app; [by apply Hk|]. apply bget_is_Some. eauto.
        -- rewrite length_app. cbn. lia.
        -- eapply rtc_r; [done|by exists e].
        -- exists r. split; [done|]. destruct r as [out|[]]; try done. destruct Hc as (line & Hln & ->).
           exists (line ++ [(name, registered e)]). split; [by econstructor|].
           rewrite reverse_app, map_app. cbn. by rewrite <- app_assoc.
      * eexists. split; [done|]. cbn. exists [(name, registered e)]. split; [by constructor|].
        by rewrite reverse_app.
Qed.

Lemma ancestry_spec self name : exists r,
  ancestry_fuel (S (length self)) self [] name = Some r /\ ancestry self name = r /\ ancestors self name name [] r.
Proof.
  destruct (ancestry_fuel_spec self name (S (length self)) name []) as (r & Hr & Hc).
  - repeat constructor.
  - constructor.
  - by intros x ?%not_elem_of_nil.
  - cbn. lia.
  - done.
  - exists r. split_and!; [done| |done]. unfold ancestry. by rewrite Hr.
Qed.

Section inherit.
Context {I : Idna} {F : F64} {T : TomlCrate}.

(** The reference definition of inheritance: each manifest merged over the
    result of its ancestors, from the root on. *)
Definition inherit (line : list (str * EnvironmentManifest)) : result EnvironmentError EnvironmentManifest :=
  match line with
  | [] => Err (EnvInvalid [])
  | (_, root) :: rest =>
      foldl (fun acc entry => merged ← acc; merge_manifest merged entry.2) (Ok root) rest
  end.

Lemma inherit_snoc line entry : line <> [] -> inherit (line ++ [entry]) = (m ← inherit line; merge_manifest m entry.2).
Proof. destruct line as [|[n root] rest]; [done|]. intros _. cbn [app inherit]. by rewrite foldl_snoc. Qed.

Lemma resolve_manifest_fuel_spec self fuel name stack :
  match ancestry_fuel fuel self stack name with
  | None => True
  | Some (Err e) => resolve_manifest_fuel fuel self name stack = Some (Err e)
  | Some (Ok _) => exists line, lineage self name line /\ resolve_manifest_fuel fuel self name stack = Some (inherit line)
  end.
Proof.
  revert name stack. induction fuel as [|fuel IH]; intros name stack; [done|].
  cbn [ancestry_fuel resolve_manifest_fuel]. destruct (Resolver.position name stack) as [i|]; [done|].
  destruct (bget name self) as [e|] eqn:Ee; [|done].
  destruct (manifest_extends (registered e)) as [base|] eqn:Eb.
  - specialize (IH base (stack ++ [name])). destruct (ancestry_fuel fuel self (stack ++ [name]) base) as [[out|err]|]; [| |done].
    + destruct IH as (line & Hl & ->). exists (line ++ [(name, registered e)]). split; [by econstructor|].
      cbn. by rewrite inherit_snoc by (by eapply lineage_nonempty).
    + by rewrite IH.
  - exists [(name, registered e)]. split; [by constructor|done].
Qed.

Lemma lineage_unique self name l1 l2 : lineage self name l1 -> lineage self name l2 -> l1 = l2.
Proof.
  intros H1. revert l2. induction H1 as [n e He Hn|n e b l He Hb H1 IH]; intros l2 H2;
    inversion H2 as [? q Hq Hqe|? q b' l' Hq Hqe H2']; subst; rewrite He in Hq; injection Hq as <-; try congruence.
  assert (b' = b) as -> by congruence. by rewrite (IH _ H2').
Qed.
End inherit.

(** C7: the two traversals of the inheritance graph agree: whenever the ancestry
    of an environment is found it is its lineage of registered parents, and
    resolution merges exactly those manifests over each other from the root on;
    otherwise both report the same error, which is true: an ancestor that is not
    registered, or a ring printed in full. Both end within their bounds. *)
Theorem inheritance_exact (I : Idna) (F : F64) (T : TomlCrate) (self : EnvironmentRegistry) (name : str) :
  is_Some (ancestry_fuel (S (length self)) self [] name) /\
  is_Some (resolve_manifest_fuel (S (length self)) self name []) /\
  match ancestry self name with
  | Ok names => exists line, lineage self name line /\ names = map fst line /\ resolve_manifest self name = inherit line
  | Err e =>
      resolve_manifest self name = Err e /\
      ((exists n, e = Unknown n /\ rtc (parent self) name n /\ bget n self = None) \/
       (exists n ring, e = InheritanceCycle (join " -> " (n :: ring ++ [n])) /\
          rtc (parent self) name n /\ Sorted (parent self) (n :: ring ++ [n])))
  end.
Proof.
  destruct (ancestry_spec self name) as (r & Hr & Ha & Hc).
  pose proof (resolve_manifest_fuel_spec self (S (length self)) name []) as Hm. rewrite Hr in Hm. rewrite Ha.
  unfold resolve_manifest. split; [by rewrite Hr|]. destruct r as [names|e].
  - destruct Hm as (line & Hl & ->). split; [done|]. destruct Hc as (line' & Hl' & ->).
    rewrite (lineage_unique _ _ _ _ Hl' Hl). exists line. by rewrite app_nil_r.
  - rewrite Hm. split; [done|]. split; [done|]. destruct e; try done; cbn in Hc; [left|right].
    + destruct Hc. eauto.
    + destruct Hc as (n & ring & ? & ? & ->). eauto.
Qed.

(** ** Merging resources by identifier *)

Section by_id.
Context {A : Type} (id : A -> str) (removed : A -> bool).

(** The last item of a list with an identifier. *)
Definition last_by (k : str) (l : list A) : option A := last (List.filter (fun x => bool_decide (id x = k)) l).

Definition merge_step (items : bmap A) (item : A) : bmap A :=
  if removed item then bremove (id item) items else binsert (id item) item items.

Definition keyed (m : bmap A) : Prop := bsorted m /\ forall k x, bget k m = Some x -> id x = k.

Lemma last_by_snoc k l x : last_by k (l ++ [x]) = if bool_decide (id x = k) then Some x else last_by k l.
Proof.
  unfold last_by. rewrite List.filter_app. cbn [List.filter].
  case_bool_decide; [by rewrite last_snoc|by rewrite app_nil_r].
Qed.

Lemma keyed_insert m x : keyed m -> keyed (binsert (id x) x m).
Proof.
  intros [Hs Hk]. split; [by apply bsorted_binsert|]. intros k y. rewrite bget_binsert.
  case_bool_decide as E; [intros [= <-]; congruence|apply Hk].
Qed.
Lemma keyed_step m x : keyed m -> keyed (merge_step m x).
Proof.
  intros H. unfold merge_step. destruct (removed x); [|by apply keyed_insert].
  destruct H as [Hs Hk]. split; [by apply bsorted_bremove|]. intros k y. rewrite bget_bremove.
  case_bool_decide; [done|apply Hk].
Qed.

Lemma collect_spec l :
  keyed (bcollect (map (fun item => (id item, item)) l)) /\
  forall k, bget k (bcollect (map (fun item => (id item, item)) l)) = last_by k l.
Proof.
  induction l as [|x l [IHk IHg]] using rev_ind; [repeat split; [constructor|done]|].
  rewrite map_app. unfold bcollect, bextend in *. rewrite fold_left_app. cbn [map fold_left fst snd].
  split; [by apply keyed_insert|]. intros k. rewrite bget_binsert, last_by_snoc, IHg. by repeat case_bool_decide.
Qed.

Lemma merge_fold_spec child items : keyed items ->
  keyed (fold_left merge_step child items) /\
  forall k, bget k (fold_left merge_step child items) =
    match last_by k child with
    | Some x => if removed x then None else Some x
    | None => bget k items
    end.
Proof.
  intros Hi. induction child as [|x l [IHk IHg]] using rev_ind; [done|].
  rewrite fold_left_app. cbn [fold_left]. split; [by apply keyed_step|]. intros k. rewrite last_by_snoc.
  unfold merge_step at 1. destruct (removed x) eqn:Er.
  - rewrite bget_bremove, IHg. by repeat case_bool_decide; rewrite ?Er.
  - rewrite bget_binsert, IHg. by repeat case_bool_decide; rewrite ?Er.
Qed.

Lemma keyed_map m : keyed m -> map id (bvalues m) = bkeys m.
Proof.
  intros [Hs Hk]. unfold bvalues, bkeys. rewrite map_map. apply map_ext_in. intros [k x] Hin.
  apply list_elem_of_In in Hin. by apply Hk, (elem_of_bget k x m (bsorted_NoDup _ Hs)).
Qed.

Lemma merge_by_id_spec parent child :
  StronglySorted str_lt (map id (merge_by_id id removed parent child)) /\
  forall x, x ∈ merge_by_id id removed parent child <->
    match last_by (id x) child with
    | Some y => y = x /\ removed x = false
    | None => last_by (id x) parent = Some x
    end.
Proof.
  destruct (collect_spec parent) as [Hp Hg]. destruct (merge_fold_spec child _ Hp) as [Hk Hl].
  unfold merge_by_id. change (fold_left _ child ?m) with (fold_left merge_step child m).
  set (m := fold_left merge_step child _) in *. split; [rewrite (keyed_map _ Hk); apply Hk|]. intros x.
  assert (x ∈ bvalues m <-> bget (id x) m = Some x) as ->.
  { destruct Hk as [Hs Hk]. unfold bvalues. rewrite list_elem_of_fmap. split.
    - intros ([k y] & -> & Hin). cbn. apply (elem_of_bget k y m (bsorted_NoDup _ Hs)) in Hin as Hin'.
      by rewrite (Hk _ _ Hin').
    - intros H. exists (id x, x). split; [done|]. by apply bget_elem_of. }
  rewrite Hl. destruct (last_by (id x) child) as [y|]; [|by rewrite Hg].
  destruct (removed y) eqn:Er; split; try done.
  - intros [-> ?]. congruence.
  - by intros [= ->].
  - by intros [-> _].
Qed.

Lemma last_by_elem k l x : last_by k l = Some x -> x ∈ l.
Proof.
  intros H%last_Some_elem_of. rewrite list_elem_of_In, List.filter_In in H. apply list_elem_of_In, H.
Qed.

Lemma merge_by_id_NoDup parent child : NoDup (map id (merge_by_id id removed parent child)).
Proof.
  destruct (merge_by_id_spec parent child) as [H _]. revert H.
  generalize (map id (merge_by_id id removed parent child)). induction 1 as [|x l Hs IH Hx]; [constructor|].
  constructor; [|done]. intros Hin. rewrite Forall_forall in Hx. by apply (irreflexivity str_lt x), Hx.
Qed.

Lemma merge_by_id_Forall (P : A -> Prop) parent child :
  Forall P parent -> Forall P child -> Forall P (merge_by_id id removed parent child).
Proof.
  rewrite !Forall_forall. intros Hp Hc x Hx. apply merge_by_id_spec in Hx.
  destruct (last_by (id x) child) as [y|] eqn:E.
  - destruct Hx as [<- _]. apply Hc. by eapply last_by_elem.
  - apply Hp. by eapply last_by_elem.
Qed.
End by_id.

(** A child's resources override and remove the inherited ones by their
    identifiers: the merged list is sorted with one item per identifier, which
    is the child's last item of that identifier, unless it removes it, and the
    parent's where the child has none. *)
Theorem merge_by_id_exact (A : Type) (id : A -> str) (removed : A -> bool) (parent child : list A) :
  StronglySorted str_lt (map id (merge_by_id id removed parent child)) /\
  forall x, x ∈ merge_by_id id removed parent child <->
    match last_by id (id x) child with
    | Some y => y = x /\ removed x = false
    | None => last_by id (id x) parent = Some x
    end.
Proof. apply merge_by_id_spec. Qed.

(** ** What validation and inheritance keep *)

Lemma validate_resource_ids_from_Ok kind ids l :
  validate_resource_ids_from kind ids l = Ok tt -> fresh (fun x => x) ids l.
Proof.
  revert ids. induction l as [|x l IH]; intros ids; [intros _; apply fresh_nil|].
  cbn [validate_resource_ids_from]. rewrite !bind_unit_Ok, err_if_Ok. intros (_ & H%memb_false & Hl).
  apply fresh_cons. auto.
Qed.
Lemma validate_resource_ids_Ok {A} (l : list A) (id : A -> str) kind :
  validate_resource_ids l id kind = Ok tt -> NoDup (map id l).
Proof.
  intros H%validate_resource_ids_from_Ok. apply fresh_start in H. by rewrite map_id in H.
Qed.

Section sound.
Context {I : Idna} {D : DebugStrings}.

(** Items with distinct identifiers that all satisfy their own validation. *)
Definition valid_items {A} (id : A -> str) (validate : A -> result EnvironmentError unit) (l : list A) : Prop :=
  NoDup (map id l) /\ Forall (fun x => validate x = Ok tt) l.

Record manifest_sound (m : EnvironmentManifest) : Prop := {
  sound_image : image m = None \/ build m = None;
  sound_oci i : image m = Some i -> validate_oci_reference i = Ok tt;
  sound_build b : build m = Some b -> validate_build_args (build_args b) = Ok tt;
  sound_workdir w : manifest_workdir m = Some w -> is_ok (ContainerPath.new w) = true;
  sound_prepare c : c ∈ default [] (prepare m) -> CommandSpec_validate c = Ok tt;
  sound_hosts h : h ∈ default [] (manifest_allow_hosts m) -> valid_host_rule_syntax h = true;
  sound_mounts : valid_items mount_id validate_mount (mounts m);
  sound_caches : valid_items cache_id validate_cache (caches m);
  sound_ports : valid_items port_id validate_port (ports m);
  sound_services : valid_items service_id validate_host_service (host_services m) }.

Lemma manifest_validate_sound m : manifest_validate m = Ok tt -> manifest_sound m.
Proof.
  unfold manifest_validate, validate_manifest_header, validate_manifest_resources.
  rewrite !bind_unit_Ok, !err_if_Ok, !for_each_Ok.
  intros ((_ & _ & _ & _ & _ & Him & Hoci & Hwd & Hprep & Hb & _ & _) &
          (Hm & Hc & Hp & Hs & Fm & Fc & Fp & Fs) & Hh).
  constructor.
  - apply andb_false_iff in Him as [H|H]; apply bool_decide_eq_false_1 in H; [left|right].
    + by destruct (image m); [destruct H; eauto|].
    + by destruct (build m); [destruct H; eauto|].
  - intros i E. by rewrite E in Hoci.
  - intros b E. by rewrite E in Hb.
  - intros w E. rewrite E in Hwd. cbn in Hwd. by apply negb_false_iff.
  - intros c Hin. rewrite Forall_forall in Hprep. by apply Hprep.
  - intros h Hin. rewrite Forall_forall in Hh. specialize (Hh _ Hin). apply err_if_Ok in Hh. by apply negb_false_iff.
  - split; [by eapply validate_resource_ids_Ok|done].
  - split; [by eapply validate_resource_ids_Ok|done].
  - split; [by eapply validate_resource_ids_Ok|done].
  - split; [by eapply validate_resource_ids_Ok|done].
Qed.

Lemma elem_of_deduplicate x l : x ∈ deduplicate l <-> x ∈ l.
Proof. unfold deduplicate. rewrite elem_of_dedup_from. set_solver. Qed.
Lemma NoDup_deduplicate l : NoDup (deduplicate l).
Proof. apply NoDup_dedup_from. Qed.

Context {F : F64} {T : TomlCrate}.

Lemma merge_manifest_Ok p c m : merge_manifest p c = Ok m ->
  manifest_name m = manifest_name c /\ manifest_extends m = None /\
  ConfigPatch.merged_with (manifest_settings p) (manifest_settings c) = Ok (manifest_settings m).
Proof.
  unfold merge_manifest. rewrite bind_Ok. intros (s & Hs & [= <-]). apply map_err_Ok in Hs. done.
Qed.

Lemma merge_manifest_sound p c m :
  manifest_sound p -> manifest_sound c -> merge_manifest p c = Ok m -> manifest_sound m.
Proof.
  intros Hp Hc. unfold merge_manifest. rewrite bind_Ok. intros (s & _ & [= <-]).
  constructor; cbn [image build manifest_workdir prepare manifest_allow_hosts mounts caches ports host_services].
  - destruct (_ || _); [apply Hc|apply Hp].
  - destruct (_ || _); [apply Hc|apply Hp].
  - destruct (_ || _); [apply Hc|apply Hp].
  - destruct (manifest_workdir c) as [w|] eqn:E; cbn [replace_some]; [rewrite <- E; apply Hc|apply Hp].
  - destruct (prepare c) as [w|] eqn:E; cbn [replace_some]; [rewrite <- E; apply Hc|apply Hp].
  - destruct (manifest_allow_hosts c) as [w|] eqn:E; cbn [replace_some fmap option_fmap option_map]; [|apply Hp].
    intros h Hh. apply Hc. rewrite E. by apply elem_of_deduplicate.
  - split; [apply merge_by_id_NoDup|apply merge_by_id_Forall; [apply Hp|apply Hc]].
  - split; [apply merge_by_id_NoDup|apply merge_by_id_Forall; [apply Hp|apply Hc]].
  - split; [apply merge_by_id_NoDup|apply merge_by_id_Forall; [apply Hp|apply Hc]].
  - split; [apply merge_by_id_NoDup|apply merge_by_id_Forall; [apply Hp|apply Hc]].
Qed.

(** *** The registries a program can build *)

Inductive registry_reachable : EnvironmentRegistry -> Prop :=
  | reachable_registry_new : registry_reachable registry_new
  | reachable_insert self manifest source self' :
      registry_reachable self -> registry_insert self manifest source = Ok self' -> registry_reachable self'
  | reachable_replace self manifest source previous self' :
      registry_reachable self -> registry_replace self manifest source = Ok (previous, self') ->
      registry_reachable self'.

Definition registry_ok (self : EnvironmentRegistry) : Prop :=
  bsorted self /\ forall name e, bget name self = Some e ->
    manifest_name (registered e) = name /\ manifest_validate (registered e) = Ok tt.

Lemma registry_ok_insert self m source :
  registry_ok self -> manifest_validate m = Ok tt ->
  registry_ok (binsert (manifest_name m) (mkRegisteredManifest m source) self).
Proof.
  intros [Hs H] Hm. split; [by apply bsorted_binsert|]. intros n e. rewrite bget_binsert.
  case_bool_decide as E; [intros [= <-]; done|apply H].
Qed.

Lemma registry_reachable_ok self : registry_reachable self -> registry_ok self.
Proof.
  induction 1 as [|self m s self' _ IH H|self m s pv self' _ IH H].
  - split; [constructor|done].
  - unfold registry_insert in H. rewrite bind_unit_Ok, map_err_Ok in H. destruct H as [Hm H].
    destruct (bget (manifest_name m) self); [done|]. injection H as <-. by apply registry_ok_insert.
  - unfold registry_replace in H. rewrite bind_unit_Ok in H. destruct H as [Hm [= <- <-]].
    by apply registry_ok_insert.
Qed.

Lemma inherit_sound self name line m :
  registry_ok self -> lineage self name line -> inherit line = Ok m -> manifest_sound m /\ manifest_name m = name.
Proof.
  intros [_ Hok] Hl. revert m. induction Hl as [n e He Hn|n e b line He Hb Hl IH]; intros m.
  - cbn. intros [= <-]. destruct (Hok _ _ He) as [Hn' Hv]. split; [by apply manifest_validate_sound|done].
  - rewrite inherit_snoc by (by eapply lineage_nonempty). rewrite bind_Ok. intros (p & Hp & Hm).
    destruct (IH _ Hp) as [Hps _]. destruct (Hok _ _ He) as [Hn' Hv]. split.
    + eapply merge_manifest_sound; [done|by apply manifest_validate_sound|done].
    + destruct (merge_manifest_Ok _ _ _ Hm) as [-> _]. done.
Qed.
End sound.

Lemma NoDup_map_filter {A B} (f : A -> B) (p : A -> bool) l : NoDup (map f l) -> NoDup (map f (List.filter p l)).
Proof.
  induction l as [|x l IH]; cbn; [done|]. intros [Hx Hl]%NoDup_cons. destruct (p x); cbn; [|by apply IH].
  apply NoDup_cons. split; [|by apply IH]. intros (y & E & Hy)%list_elem_of_fmap. apply Hx. apply list_elem_of_fmap.
  exists y. split; [done|]. rewrite list_elem_of_In, List.filter_In in Hy. apply list_elem_of_In, Hy.
Qed.

Lemma valid_items_without_removed {A} (id : A -> str) validate (removed : A -> bool) l :
  valid_items id validate l ->
  valid_items id validate (without_removed removed l) /\
  forall x, x ∈ without_removed removed l -> removed x = false.
Proof.
  intros [Hd Hv]. unfold without_removed. split; [split|].
  - by apply NoDup_map_filter.
  - rewrite Forall_forall in *. intros x Hx. rewrite list_elem_of_In, List.filter_In in Hx. apply Hv.
    apply list_elem_of_In, Hx.
  - intros x Hx. rewrite list_elem_of_In, List.filter_In in Hx. destruct Hx. by apply negb_true_iff.
Qed.

Lemma registry_resolve_Ok {I : Idna} {F : F64} {T : TomlCrate} self name r :
  registry_resolve self name = Ok r ->
  exists line m, lineage self name line /\ inherit line = Ok m /\
    resolved_ancestry r = map fst line /\ resolved_name r = manifest_name m /\
    resolved_image r = image m /\ resolved_build r = build m /\
    resolved_workdir r = default ("/workspace" : str) (manifest_workdir m) /\
    resolved_allow_hosts r = deduplicate (default [] (manifest_allow_hosts m)) /\
    resolved_mounts r = without_removed mount_remove (mounts m) /\
    resolved_caches r = without_removed cache_remove (caches m) /\
    resolved_ports r = without_removed port_remove (ports m) /\
    resolved_host_services r = without_removed service_remove (host_services m) /\
    (is_Some (image m) \/ is_Some (build m)).
Proof.
  unfold registry_resolve. rewrite bind_Ok. intros (names & Ha & H). rewrite bind_Ok in H.
  destruct H as (m & Hm & H). rewrite bind_unit_Ok, err_if_Ok in H. destruct H as [Hi [= <-]].
  destruct (ancestry_spec self name) as (r & Hr & Ha' & Hc). rewrite Ha in Ha'. subst r.
  pose proof (resolve_manifest_fuel_spec self (S (length self)) name []) as Hf. rewrite Hr in Hf.
  destruct Hf as (line & Hl & Hf). unfold resolve_manifest in Hm. rewrite Hf in Hm.
  destruct Hc as (line' & Hl' & ->). rewrite (lineage_unique _ _ _ _ Hl' Hl).
  exists line, m. split_and!; try done; [by rewrite app_nil_r|].
  apply andb_false_iff in Hi as [H|H]; apply negb_false_iff, bool_decide_eq_true_1 in H; auto.
Qed.

(** An environment resolved from any registry that a program can build is
    complete and consistent: it carries its own name and lineage, runs from
    exactly one of an image and a build, and its resources are all present,
    individually valid and distinct by identifier, its host rules valid and
    distinct, its working directory absolute. *)
Theorem resolved_environment_sound (I : Idna) (D : DebugStrings) (F : F64) (T : TomlCrate)
    (self : EnvironmentRegistry) (name : str) (r : ResolvedEnvironment) :
  registry_reachable self -> registry_resolve self name = Ok r ->
  resolved_name r = name /\
  (exists line, lineage self name line /\ resolved_ancestry r = map fst line) /\
  (is_Some (resolved_image r) /\ resolved_build r = None \/ resolved_image r = None /\ is_Some (resolved_build r)) /\
  (forall i, resolved_image r = Some i -> validate_oci_reference i = Ok tt) /\
  is_ok (ContainerPath.new (resolved_workdir r)) = true /\
  NoDup (resolved_allow_hosts r) /\ (forall h, h ∈ resolved_allow_hosts r -> valid_host_rule_syntax h = true) /\
  valid_items mount_id validate_mount (resolved_mounts r) /\
  valid_items cache_id validate_cache (resolved_caches r) /\
  valid_items port_id validate_port (resolved_ports r) /\
  valid_items service_id validate_host_service (resolved_host_services r) /\
  (forall x, x ∈ resolved_mounts r -> mount_remove x = false) /\
  (forall x, x ∈ resolved_ports r -> port_remove x = false).
Proof.
  intros Hok%registry_reachable_ok H.
  destruct (registry_resolve_Ok _ _ _ H)
    as (line & m & Hl & Hm & -> & -> & -> & -> & -> & -> & -> & -> & -> & -> & Hi).
  destruct (inherit_sound _ _ _ _ Hok Hl Hm) as [Hs Hn].
  split; [done|]. split; [by exists line|]. split; [|split; [apply Hs|]].
  { destruct (sound_image _ Hs) as [E|E]; rewrite E in *; destruct Hi as [Hi|Hi]; try done; try (by destruct Hi); auto. }
  split. { destruct (manifest_workdir m) as [w|] eqn:E; [by apply (sound_workdir _ Hs)|reflexivity]. }
  split; [apply NoDup_deduplicate|]. split.
  { intros h Hh. rewrite elem_of_deduplicate in Hh. by apply (sound_hosts _ Hs). }
  repeat match goal with |- _ /\ _ => split end.
  1-4: apply valid_items_without_removed, Hs.
  - apply (valid_items_without_removed mount_id validate_mount), Hs.
  - apply (valid_items_without_removed port_id validate_port), Hs.
Qed.

(** A registry of a base image and a child that adds a mount and a marker. *)
Definition example_manifest (name : string) (parent image : option string) (mounts : list MountSpec)
    (markers : option (list str)) : EnvironmentManifest :=
  mkEnvironmentManifest 1 name None (list_ascii_of_string <$> parent) ConfigPatch.ConfigPatch_default
    (list_ascii_of_string <$> image) None None None markers None [] [] None mounts [] [] [].
Definition example_mount : MountSpec := mkMountSpec "src" (Some ("data" : str)) "/data" Volume false false.
Definition base_manifest := example_manifest "base" None (Some "alpine:3.20") [] None.
Definition rust_manifest := example_manifest "rust" (Some "base") None [example_mount] (Some [("Cargo.toml" : str)]).
Definition example_registry : EnvironmentRegistry :=
  [("base" : str, mkRegisteredManifest base_manifest (ManifestSource_built_in "base"));
   ("rust" : str, mkRegisteredManifest rust_manifest (ManifestSource_built_in "rust"))].

Lemma example_registry_reachable :
  @registry_reachable ConfigPatch.ascii_idna (fun _ => []) example_registry.
Proof.
  eapply (reachable_insert [("base" : str, mkRegisteredManifest base_manifest (ManifestSource_built_in "base"))]
    rust_manifest (ManifestSource_built_in "rust")).
  - eapply (reachable_insert [] base_manifest (ManifestSource_built_in "base")).
    + apply reachable_registry_new.
    + vm_compute. reflexivity.
  - vm_compute. reflexivity.
Qed.

Lemma resolved_environment_sound_witness :
  let I := ConfigPatch.ascii_idna in let F := ConfigPatch.integer_floats in let T := ConfigPatch.no_toml in
  exists r, registry_resolve example_registry "rust" = Ok r /\
    resolved_name r = "rust" /\ map mount_id (resolved_mounts r) = strs ["src"] /\
    valid_items mount_id validate_mount (resolved_mounts r).
Proof.
  intros I F T. assert (exists r, registry_resolve example_registry "rust" = Ok r) as (r & H)
    by (eexists; vm_compute; reflexivity).
  exists r. split; [exact H|].
  destruct (resolved_environment_sound I (fun _ => []) F T example_registry "rust" r example_registry_reachable H)
    as (E & _ & _ & _ & _ & _ & _ & Hm & _).
  split; [exact E|]. split; [|exact Hm]. vm_compute in H. injection H as <-. reflexivity.
Defined.

(** ** Detection *)

(** [x] is preferred to [y]: more markers, then the smaller name. *)
Definition preferred (x y : ResolvedEnvironment) : Prop :=
  (length (resolved_markers y) < length (resolved_markers x))%nat \/
  length (resolved_markers y) = length (resolved_markers x) /\
  (resolved_name x = resolved_name y \/ str_lt (resolved_name x) (resolved_name y)).

Lemma candidate_compare_spec x y :
  match candidate_compare x y with Gt => preferred y x | _ => preferred x y end.
Proof.
  unfold candidate_compare, preferred. destruct (Nat.compare_spec (length (resolved_markers y)) (length (resolved_markers x))) as [E|E|E].
  - destruct (str_compare (resolved_name x) (resolved_name y)) eqn:Es; right; (split; [done|]).
    + left. by apply str_compare_eq.
    + by right.
    + right. unfold str_lt. by rewrite str_compare_antisym, Es.
  - by left.
  - by left.
Qed.

Lemma preferred_trans x y z : preferred x y -> preferred y z -> preferred x z.
Proof.
  unfold preferred. intros [H1|[E1 H1]] [H2|[E2 H2]]; [left; lia..|].
  right. split; [congruence|]. destruct H1 as [H1|H1], H2 as [H2|H2].
  - left. congruence.
  - right. by rewrite H1.
  - right. by rewrite <- H2.
  - right. by etransitivity.
Qed.
Lemma preferred_refl x : preferred x x.
Proof. right. auto. Qed.

Lemma insert_candidate_perm x l : insert_candidate x l ≡ₚ x :: l.
Proof. induction l as [|y l IH]; cbn; [done|]. case_match; [done..|]. rewrite IH. apply Permutation_swap. Qed.
Lemma sort_candidates_perm l : sort_candidates l ≡ₚ l.
Proof. induction l as [|x l IH]; cbn; [done|]. by rewrite insert_candidate_perm, IH. Qed.

Lemma sort_candidates_head l x : head (sort_candidates l) = Some x -> forall y, y ∈ l -> preferred x y.
Proof.
  revert x. induction l as [|z l IH]; intros x; [done|]. cbn [sort_candidates foldr]. fold (sort_candidates l).
  pose proof (sort_candidates_perm l) as Hp.
  destruct (sort_candidates l) as [|w s] eqn:E; cbn [insert_candidate head].
  - intros [= <-]. apply Permutation_nil_l in Hp as <-. intros y ->%list_elem_of_singleton. apply preferred_refl.
  - assert (forall y, y ∈ l -> preferred w y) as Hw by (by apply IH).
    pose proof (candidate_compare_spec z w) as Hc.
    destruct (candidate_compare z w); cbn [head]; intros [= <-] y [->|Hy]%elem_of_cons;
      try apply preferred_refl; try done; try by eapply preferred_trans; [|apply Hw]. by apply Hw.
Qed.

(** Detection looks at every registered environment and picks the most
    specific that matches the project: all its markers exist below the root, it
    has at least one, and no other match has more, or as many and a smaller
    name; it finds none only when none matches. *)
Theorem detect_most_specific (I : Idna) (D : DebugStrings) (F : F64) (T : TomlCrate) (PE : PathExists)
    (self : EnvironmentRegistry) (root : str) (found : option str) :
  registry_reachable self -> detect self root = Ok found ->
  (forall name, is_Some (bget name self) -> exists r, registry_resolve self name = Ok r) /\
  match found with
  | None => forall name r, registry_resolve self name = Ok r ->
      resolved_markers r = [] \/ exists m, m ∈ resolved_markers r /\ path_exists (path_join root m) = false
  | Some name => exists r, registry_resolve self name = Ok r /\ resolved_markers r <> [] /\
      (forall m, m ∈ resolved_markers r -> path_exists (path_join root m) = true) /\
      forall name' r', registry_resolve self name' = Ok r' -> resolved_markers r' <> [] ->
        (forall m, m ∈ resolved_markers r' -> path_exists (path_join root m) = true) -> preferred r r'
  end.
Proof.
  intros Hok%registry_reachable_ok H. unfold detect in H. rewrite bind_Ok in H.
  destruct H as (es & Hes & [= <-]). apply collect_results_Ok in Hes.
  assert (forall name r, registry_resolve self name = Ok r -> is_Some (bget name self)) as Hreg.
  { intros name r Hr. destruct (registry_resolve_Ok _ _ _ Hr) as (line & m & Hl & _). inversion Hl; eauto. }
  assert (forall name r, registry_resolve self name = Ok r -> r ∈ es) as Hin.
  { intros name r Hr. pose proof (Hreg _ _ Hr) as Hk. apply bget_is_Some in Hk.
    destruct (proj1 (list_elem_of_lookup _ _) Hk) as [i Hi]. destruct (Forall2_lookup_l _ _ _ _ _ Hes Hi) as (r' & Hr' & E).
    rewrite Hr in E. injection E as ->. by eapply list_elem_of_lookup_2. }
  assert (forall r, r ∈ es -> registry_resolve self (resolved_name r) = Ok r) as Hout.
  { intros r [i Hi]%list_elem_of_lookup. destruct (Forall2_lookup_r _ _ _ _ _ Hes Hi) as (name & _ & E).
    destruct (registry_resolve_Ok _ _ _ E) as (line & m & Hl & Hm & _ & -> & _).
    by destruct (inherit_sound _ _ _ _ Hok Hl Hm) as [_ ->]. }
  assert (forall r, nonempty (resolved_markers r) && matches_project r root = true <->
    resolved_markers r <> [] /\ forall m, m ∈ resolved_markers r -> path_exists (path_join root m) = true) as Hmatch.
  { intros r. unfold matches_project. rewrite andb_true_iff, forallb_Forall, Forall_forall.
    destruct (resolved_markers r); cbn [nonempty]; intuition congruence. }
  split.
  { intros name [i Hi]%bget_is_Some%list_elem_of_lookup.
    destruct (Forall2_lookup_l _ _ _ _ _ Hes Hi) as (r & _ & E). eauto. }
  set (candidates := List.filter _ es). assert (forall r, r ∈ candidates <-> r ∈ es /\
    nonempty (resolved_markers r) && matches_project r root = true) as Hcand.
  { intros r. unfold candidates. by rewrite !list_elem_of_In, List.filter_In. }
  pose proof (sort_candidates_head candidates) as Hhead. pose proof (sort_candidates_perm candidates) as Hperm.
  destruct (sort_candidates candidates) as [|r s] eqn:Es; cbn [head fmap option_fmap option_map].
  - apply Permutation_nil_l in Hperm. symmetry in Hperm. intros name r Hr.
    destruct (nonempty (resolved_markers r) && matches_project r root) eqn:Em.
    { exfalso. assert (r ∈ candidates) as Hc by (apply Hcand; split; [by eapply Hin|done]). rewrite Hperm in Hc. by apply not_elem_of_nil in Hc. }
    apply andb_false_iff in Em as [Em|Em]; [left; by destruct (resolved_markers r)|right].
    unfold matches_project in Em. apply not_true_iff_false in Em. rewrite forallb_Forall in Em.
    apply not_Forall_Exists in Em; [|intros ?; apply _]. apply Exists_exists in Em as (m & Hm & E).
    exists m. split; [done|]. by apply not_true_iff_false.
  - assert (r ∈ candidates) as [Hr Hm]%Hcand by (rewrite <- Hperm; apply list_elem_of_here).
    apply Hmatch in Hm as [Hm1 Hm2]. exists r. split; [by apply Hout|]. split; [done|]. split; [done|].
    intros name' r' Hr' Hm1' Hm2'. apply (Hhead r eq_refl). apply Hcand. split; [by eapply Hin|]. by apply Hmatch.
Qed.

Lemma detect_most_specific_witness :
  let I := ConfigPatch.ascii_idna in let F := ConfigPatch.integer_floats in let T := ConfigPatch.no_toml in
  let PE : PathExists := fun p => p =s? "/work/Cargo.toml" in
  detect example_registry "/work" = Ok (Some ("rust" : str)) /\
  exists r, registry_resolve example_registry "rust" = Ok r /\ resolved_markers r <> [].
Proof.
  intros I F T PE. assert (detect example_registry "/work" = Ok (Some ("rust" : str))) as H by (vm_compute; reflexivity).
  split; [exact H|].
  destruct (detect_most_specific I (fun _ => []) F T PE example_registry "/work" _ example_registry_reachable H)
    as (_ & r & Hr & Hm & _).
  exists r. split; [exact Hr|exact Hm].
Defined.
End Environment.
