(* ===== verification/Allowlist.v ===== *)
(** * The egress allow-list ([codex-start-proxy/src/allowlist.rs])

    Normalised hosts and authorities, allow rules with their parser and matcher,
    and the policy on resolved addresses.  IDNA is the interface that the
    configuration's rule check uses too, so that the two can be compared. *)

From S2P Require Export HostRules.

Module Allowlist.
Import IpAddr.

(** ** Printed addresses of the standard library *)

Definition hex_digit (n : Z) : ascii := byte_at (if n <? 10 then 48 + n else 87 + n)%Z.
Fixpoint hex_fuel (fuel : nat) (n : Z) : str :=
  match fuel with
  | O => []
  | S f => if (n <? 16)%Z then [hex_digit n] else hex_fuel f (n / 16) ++ [hex_digit (n mod 16)]
  end.
(** [{:x}] of a 16-bit segment, which has at most four digits. *)
Definition hex (n : Z) : str := hex_fuel 4 n.

Definition ipv4_to_string (octets : list Z) : str := join "." (map dec octets).

(** [Ipv6Addr::to_ipv4_mapped]. *)
Definition to_ipv4_mapped (segments : list Z) : option (list Z) :=
  match segments with
  | [a; b; c; d; e; f; ab; cd] =>
      if bool_decide ([a; b; c; d; e; f] = [0; 0; 0; 0; 0; 65535]%Z)
      then Some [ab / 256; ab mod 256; cd / 256; cd mod 256]%Z else None
  | _ => None
  end.

(** The first longest run of zero segments, as (start, length): the loop of the
    standard library over (index, segment). *)
Fixpoint longest_zeroes (i : nat) (segments : list Z) (current longest : nat * nat) : nat * nat :=
  match segments with
  | [] => longest
  | segment :: rest =>
      if (segment =? 0)%Z then
        let current := (if (current.2 =? 0)%nat then i else current.1, S current.2) in
        longest_zeroes (S i) rest current (if (longest.2 <? current.2)%nat then current else longest)
      else longest_zeroes (S i) rest (0, 0)%nat longest
  end.

Definition ipv6_to_string (segments : list Z) : str :=
  match to_ipv4_mapped segments with
  | Some ipv4 => "::ffff:" ++ ipv4_to_string ipv4
  | None =>
      let '(start, len) := longest_zeroes 0 segments (0, 0)%nat (0, 0)%nat in
      if (1 <? len)%nat then
        join ":" (map hex (take start segments)) ++ "::" ++ join ":" (map hex (drop (start + len) segments))
      else join ":" (map hex segments)
  end.

Definition ip_to_string (ip : IpAddr) : str :=
  match ip with V4 octets => ipv4_to_string octets | V6 segments => ipv6_to_string segments end.

(** ** Data *)

Inductive NormalizedHost :=
  | Domain (domain : str)
  | Ip (ip : IpAddr).
#[export] Instance NormalizedHost_eq_dec : EqDecision NormalizedHost.
Proof. solve_decision. Defined.

Record Authority := mkAuthority { auth_host : NormalizedHost; auth_port : Z }.

Inductive HostMatcher :=
  | HostExact (host : NormalizedHost)
  | Subdomain (suffix : str).
Inductive PortMatcher :=
  | PortExact (port : Z)
  | HttpDefaults
  | AnyPort.
Record AllowRule := mkAllowRule { rule_host : HostMatcher; rule_port : PortMatcher }.

Record SocketAddr := mkSocketAddr { socket_ip : IpAddr; socket_port : Z }.

Inductive AllowlistError :=
  | EmptyRule
  | EmptyHost
  | InvalidHost (host : str)
  | InvalidAuthority (authority : str)
  | MissingPort
  | InvalidPort (port : str)
  | Ipv6PortRequiresBrackets
  | CredentialsNotAllowed
  | PathNotAllowed
  | UnsupportedScheme (scheme : str)
  | InvalidWildcard (host : str)
  | NoAddresses (authority : Authority)
  | PrivateAddressDenied (authority : Authority) (address : SocketAddr).

(** ** Hosts *)

Definition validate_ascii_domain (domain : str) : bool :=
  nonempty domain
  && forallb (fun label =>
       nonempty label && (length label <=? 63)%nat
       && negb (starts_with "-" label) && negb (ends_with "-" label)
       && forallb (fun byte => is_alphanumeric byte || is_byte "-" byte) label)
     (split "." domain).

Section hosts.
Context {I : Idna}.

Definition NormalizedHost_parse (input : str) : result AllowlistError NormalizedHost :=
  err_if (negb (nonempty input)) EmptyHost ;;
  err_if (starts_with "[" input || ends_with "]" input) (InvalidHost input) ;;
  match parse_ip input with
  | Some ip => Ok (Ip ip)
  | None =>
      let without_root := default input (strip_suffix "." input) in
      err_if (negb (nonempty without_root) || (253 <? length without_root)%nat) (InvalidHost input) ;;
      ascii ← ok_or (domain_to_ascii_strict without_root) (InvalidHost input);
      let ascii := to_ascii_lowercase ascii in
      if validate_ascii_domain ascii then Ok (Domain ascii) else Err (InvalidHost input)
  end.

Definition lookup_name (self : NormalizedHost) : str :=
  match self with Domain domain => domain | Ip ip => ip_to_string ip end.
Definition authority_name (self : NormalizedHost) : str :=
  match self with
  | Domain domain => domain
  | Ip (V4 ip) => ipv4_to_string ip
  | Ip (V6 ip) => "[" ++ ipv6_to_string ip ++ "]"
  end.

(** ** Authorities *)

Definition validate_clean_input (input : str) : result AllowlistError unit :=
  err_if (negb (nonempty input)) EmptyRule ;;
  err_if (existsb (fun byte => is_ascii_whitespace byte || is_ascii_control byte) input) (InvalidAuthority input) ;;
  err_if (contains_byte "@" input) CredentialsNotAllowed.

Definition parse_port (input : str) : result AllowlistError Z :=
  err_if (negb (nonempty input) || negb (forallb is_digit input)) (InvalidPort input) ;;
  ok_or (port ← parse_u16 input; if negb (port =? 0)%Z then Some port else None) (InvalidPort input).

Definition parse_colon_port (input : str) : result AllowlistError Z :=
  port ← ok_or (strip_prefix ":" input) (InvalidPort input);
  parse_port port.

Definition required_default_port (default : option Z) : result AllowlistError Z :=
  ok_or (port ← default; if negb (port =? 0)%Z then Some port else None) MissingPort.

Definition is_v6 (ip : option IpAddr) : bool := match ip with Some (V6 _) => true | _ => false end.

Definition split_authority (input : str) (default_port : option Z) : result AllowlistError (str * Z) :=
  match strip_prefix "[" input with
  | Some remainder =>
      '(host, suffix) ← ok_or (split_once "]" remainder) (InvalidAuthority input);
      port ← (if nonempty suffix then parse_colon_port suffix else required_default_port default_port);
      err_if (negb (is_v6 (parse_ip host))) (InvalidAuthority input) ;;
      Ok (host, port)
  | None =>
      if bool_decide (is_Some (parse_ipv6 input)) then
        port ← required_default_port default_port; Ok (input, port)
      else
        err_if (contains_byte "[" input || contains_byte "]" input) (InvalidAuthority input) ;;
        match rsplit_once ":" input with
        | Some (host, port) =>
            err_if (contains_byte ":" host) Ipv6PortRequiresBrackets ;;
            port ← parse_port port; Ok (host, port)
        | None => port ← required_default_port default_port; Ok (input, port)
        end
  end.

Definition Authority_parse (input : str) (default_port : option Z) : result AllowlistError Authority :=
  validate_clean_input input ;;
  '(host, port) ← split_authority input default_port;
  host ← NormalizedHost_parse host;
  Ok (mkAuthority host port).

Definition display_with_port (self : Authority) : str :=
  authority_name (auth_host self) ++ ":" ++ dec (auth_port self).

(** [Display] of a socket address without flow label and scope. *)
Definition socket_addr_to_string (address : SocketAddr) : str :=
  match socket_ip address with
  | V4 octets => ipv4_to_string octets ++ ":" ++ dec (socket_port address)
  | V6 segments => "[" ++ ipv6_to_string segments ++ "]:" ++ dec (socket_port address)
  end.

(** [Display] of the errors. *)
Definition AllowlistError_to_string (error : AllowlistError) : str :=
  match error with
  | EmptyRule => "allow-list rule is empty"
  | EmptyHost => "host is empty"
  | InvalidHost host => "invalid host `" ++ host ++ "`"
  | InvalidAuthority authority => "invalid authority `" ++ authority ++ "`"
  | MissingPort => "authority is missing an explicit or default port"
  | InvalidPort port => "invalid TCP port `" ++ port ++ "`"
  | Ipv6PortRequiresBrackets => "an IPv6 literal with an explicit port must use brackets"
  | CredentialsNotAllowed => "URL credentials are not allowed in an allow-list rule"
  | PathNotAllowed => "URL paths, queries, and fragments are not allowed in an allow-list rule"
  | UnsupportedScheme scheme => "unsupported allow-list URL scheme `" ++ scheme ++ "`"
  | InvalidWildcard host => "invalid wildcard host `" ++ host ++ "`; only a leading `*.` is accepted"
  | NoAddresses authority => "DNS returned no addresses for " ++ display_with_port authority
  | PrivateAddressDenied authority address =>
      display_with_port authority ++ " resolved to denied private/reserved address "
      ++ socket_addr_to_string address
  end.

(** ** Rules *)

Definition rule_matches (self : AllowRule) (authority : Authority) : bool :=
  let host_matches :=
    match rule_host self, auth_host authority with
    | HostExact expected, actual => bool_decide (expected = actual)
    | Subdomain suffix, Domain domain =>
        is_some_and (strip_suffix suffix domain) (fun prefix => ends_with "." prefix && (1 <? length prefix)%nat)
    | Subdomain _, Ip _ => false
    end in
  let port_matches :=
    match rule_port self with
    | PortExact port => (auth_port authority =? port)%Z
    | HttpDefaults => (auth_port authority =? 80)%Z || (auth_port authority =? 443)%Z
    | AnyPort => negb (auth_port authority =? 0)%Z
    end in
  host_matches && port_matches.

Definition strip_ipv6_brackets (host : str) : result AllowlistError str :=
  match strip_prefix "[" host with
  | Some remainder =>
      inner ← ok_or (strip_suffix "]" remainder) (InvalidAuthority host);
      err_if (negb (is_v6 (parse_ip inner))) (InvalidAuthority host) ;;
      Ok inner
  | None => Ok host
  end.

Definition split_rule_host_port (input : str) (scheme_port : option Z) : result AllowlistError (str * PortMatcher) :=
  let default_matcher := match scheme_port with Some port => PortExact port | None => HttpDefaults end in
  match strip_suffix ":*" input with
  | Some host =>
      err_if (negb (nonempty host)) EmptyHost ;;
      host ← strip_ipv6_brackets host;
      Ok (host, AnyPort)
  | None =>
      match strip_prefix "[" input with
      | Some remainder =>
          '(host, suffix) ← ok_or (split_once "]" remainder) (InvalidAuthority input);
          err_if (negb (is_v6 (parse_ip host))) (InvalidAuthority input) ;;
          if nonempty suffix then port ← parse_colon_port suffix; Ok (host, PortExact port)
          else Ok (host, default_matcher)
      | None =>
          if bool_decide (is_Some (parse_ipv6 input)) then Ok (input, default_matcher)
          else
            err_if (contains_byte "[" input || contains_byte "]" input) (InvalidAuthority input) ;;
            match rsplit_once ":" input with
            | Some (host, port) => port ← parse_port port; Ok (host, PortExact port)
            | None => Ok (input, default_matcher)
            end
      end
  end.

Definition AllowRule_from_str (input : str) : result AllowlistError AllowRule :=
  validate_clean_input input ;;
  '(scheme, remainder) ←
    match split_once_str "://" input with
    | Some (scheme, remainder) =>
        if scheme =s? "http" then Ok (Some 80%Z, remainder)
        else if scheme =s? "https" then Ok (Some 443%Z, remainder)
        else Err (UnsupportedScheme scheme)
    | None => Ok (None, input)
    end;
  err_if (contains_byte "/" remainder || contains_byte "?" remainder || contains_byte "#" remainder) PathNotAllowed ;;
  '(host_input, port) ← split_rule_host_port remainder scheme;
  host ← match strip_prefix "*." host_input with
         | Some suffix =>
             err_if (contains_byte "*" suffix) (InvalidWildcard host_input) ;;
             host ← NormalizedHost_parse suffix;
             match host with
             | Domain domain => Ok (Subdomain domain)
             | Ip _ => Err (InvalidWildcard host_input)
             end
         | None =>
             err_if (contains_byte "*" host_input) (InvalidWildcard host_input) ;;
             host ← NormalizedHost_parse host_input;
             Ok (HostExact host)
         end;
  Ok (mkAllowRule host port).

(** [AllowList] is its rules. *)
Definition AllowList_parse (rules : list str) : result AllowlistError (list AllowRule) :=
  collect_results AllowRule_from_str rules.
Definition allows (self : list AllowRule) (authority : Authority) : bool :=
  existsb (fun rule => rule_matches rule authority) self.
End hosts.

(** ** Addresses *)

(** [uN::MAX.checked_shl(w - prefix).unwrap_or(0)] for the width [w]. *)
Definition prefix_mask (w prefix : Z) : Z :=
  if (w - prefix <? w)%Z then Z.land (Z.shiftl (2 ^ w - 1) (w - prefix)) (2 ^ w - 1) else 0.
Definition prefix_matches (w value network prefix : Z) : bool :=
  let mask := prefix_mask w prefix in (Z.land value mask =? Z.land network mask)%Z.

(** [u32::from], [u128::from]: big-endian digits. *)
Definition from_digits (base : Z) (digits : list Z) : Z := foldl (fun acc d => acc * base + d)%Z 0%Z digits.

Definition private_ipv4 : list (Z * Z) :=
  [(0x00000000, 8); (0x0a000000, 8); (0x64400000, 10); (0x7f000000, 8); (0xa9fe0000, 16); (0xac100000, 12);
   (0xc0000000, 24); (0xc0000200, 24); (0xc0a80000, 16); (0xc6120000, 15); (0xc6336400, 24); (0xcb007100, 24);
   (0xe0000000, 4); (0xf0000000, 4)]%Z.
Definition is_public_ipv4 (octets : list Z) : bool :=
  let value := from_digits 256 octets in
  negb (existsb (fun '(network, prefix) => prefix_matches 32 value network prefix) private_ipv4).

Definition private_ipv6 : list (Z * Z) :=
  [(0, 128); (1, 128); (Z.shiftl 0x0100000000000000 64, 64); (Z.shiftl 0x2001000000000000 64, 32);
   (Z.shiftl 0x2001000200000000 64, 48); (Z.shiftl 0x2001001000000000 64, 28); (Z.shiftl 0x2001002000000000 64, 28);
   (Z.shiftl 0x20010db800000000 64, 32); (Z.shiftl 0x2002000000000000 64, 16); (Z.shiftl 0x3fff000000000000 64, 20);
   (Z.shiftl 0x0064ff9b00010000 64, 48); (Z.shiftl 0xfc00000000000000 64, 7); (Z.shiftl 0xfe80000000000000 64, 10);
   (Z.shiftl 0xfec0000000000000 64, 10); (Z.shiftl 0xff00000000000000 64, 8)]%Z.
Definition is_public_ipv6 (segments : list Z) : bool :=
  match to_ipv4_mapped segments with
  | Some ipv4 => is_public_ipv4 ipv4
  | None =>
      let value := from_digits 65536 segments in
      if (Z.shiftr value 32 =? 0)%Z || prefix_matches 128 value (Z.shiftl 0x0064ff9b 96) 96 then
        match drop 6 segments with
        | [ab; cd] => is_public_ipv4 [ab / 256; ab mod 256; cd / 256; cd mod 256]%Z
        | _ => false
        end
      else negb (existsb (fun '(network, prefix) => prefix_matches 128 value network prefix) private_ipv6)
  end.

Definition is_publicly_routable (address : IpAddr) : bool :=
  match address with V4 ip => is_public_ipv4 ip | V6 ip => is_public_ipv6 ip end.

(** [AddressPolicy { private_authorities }]. *)
Definition policy_validate (private_authorities : list AllowRule) (authority : Authority)
    (addresses : list SocketAddr) : result AllowlistError unit :=
  err_if (negb (nonempty addresses)) (NoAddresses authority) ;;
  if allows private_authorities authority then Ok tt
  else match List.find (fun address => negb (is_publicly_routable (socket_ip address))) addresses with
       | Some address => Err (PrivateAddressDenied authority address)
       | None => Ok tt
       end.

(** ** Address blocks *)

Lemma testbit_prefix_mask w p i : (0 <= p <= w)%Z -> (0 <= i)%Z ->
  Z.testbit (prefix_mask w p) i = (w - p <=? i)%Z && (i <? w)%Z.
Proof.
  intros Hp Hi. unfold prefix_mask. replace (2 ^ w - 1)%Z with (Z.ones w) by (rewrite Z.ones_equiv; lia).
  destruct (w - p <? w)%Z eqn:E.
  - apply Z.ltb_lt in E. rewrite Z.land_spec, Z.shiftl_spec by lia.
    destruct (w - p <=? i)%Z eqn:E1; [apply Z.leb_le in E1|apply Z.leb_gt in E1].
    + rewrite !Z.testbit_ones_nonneg by lia. destruct (Z.ltb_spec i w), (Z.ltb_spec (i - (w - p)) w); cbn; try done; lia.
    + by rewrite Z.testbit_neg_r by lia.
  - apply Z.ltb_ge in E. rewrite Z.testbit_0_l. symmetry. apply andb_false_iff.
    destruct (Z.ltb_spec i w); [left; apply Z.leb_gt; lia|by right].
Qed.

Lemma land_prefix_mask w p v : (0 <= p <= w)%Z -> (0 <= v < 2 ^ w)%Z ->
  Z.land v (prefix_mask w p) = (v / 2 ^ (w - p) * 2 ^ (w - p))%Z.
Proof.
  intros Hp Hv. rewrite <- Z.shiftr_div_pow2, <- Z.shiftl_mul_pow2 by lia. apply Z.bits_inj'. intros i Hi.
  rewrite Z.land_spec, testbit_prefix_mask, Z.shiftl_spec by lia.
  destruct (Z.leb_spec (w - p) i); cbn.
  - rewrite Z.shiftr_spec by lia. replace (i - (w - p) + (w - p))%Z with i by lia.
    destruct (Z.ltb_spec i w); [by rewrite andb_true_r|]. rewrite andb_false_r.
    destruct (Z.eq_dec v 0) as [->|]; [by rewrite Z.testbit_0_l|]. symmetry. apply Z.bits_above_log2; [lia|].
    assert (Z.log2 v < w)%Z by (apply Z.log2_lt_pow2; lia). lia.
  - rewrite andb_false_r. by rewrite Z.testbit_neg_r by lia.
Qed.

(** The block of an aligned network is an interval. *)
Lemma prefix_matches_block w v n p : (0 <= p <= w)%Z -> (0 <= v < 2 ^ w)%Z -> (0 <= n < 2 ^ w)%Z ->
  (n mod 2 ^ (w - p) = 0)%Z -> prefix_matches w v n p = true <-> (n <= v < n + 2 ^ (w - p))%Z.
Proof.
  intros Hp Hv Hn Ha. unfold prefix_matches. rewrite !land_prefix_mask, Z.eqb_eq by done.
  assert (0 < 2 ^ (w - p))%Z as Hpos by (apply Z.pow_pos_nonneg; lia). set (k := (2 ^ (w - p))%Z) in *.
  pose proof (Z.div_mod n k). pose proof (Z.div_mod v k). pose proof (Z.mod_pos_bound v k). split.
  - intros E. assert (v / k = n / k)%Z by nia. nia.
  - intros Hb. assert (v / k = n / k)%Z as ->; [|done]. symmetry. apply (Z.div_unique v k _ (v - n)); lia.
Qed.

(** Outside every block of a table. *)
Definition outside (w : Z) (table : list (Z * Z)) (v : Z) : Prop :=
  forall n p, (n, p) ∈ table -> ~ (n <= v < n + 2 ^ (w - p))%Z.
Definition aligned (w : Z) (entry : Z * Z) : bool :=
  (0 <=? entry.2)%Z && (entry.2 <=? w)%Z && (0 <=? entry.1)%Z && (entry.1 <? 2 ^ w)%Z
  && (entry.1 mod 2 ^ (w - entry.2) =? 0)%Z.

Lemma outside_spec w table v : (0 <= v < 2 ^ w)%Z -> forallb (aligned w) table = true ->
  negb (existsb (fun '(network, prefix) => prefix_matches w v network prefix) table) = true <-> outside w table v.
Proof.
  intros Hv Ha. rewrite forallb_Forall, Forall_forall in Ha. rewrite negb_true_iff, existsb_false, Forall_forall.
  assert (forall n p, (n, p) ∈ table -> prefix_matches w v n p = true <-> (n <= v < n + 2 ^ (w - p))%Z) as H.
  { intros n p Hin. specialize (Ha _ Hin). unfold aligned in Ha. cbn in Ha. rewrite !andb_true_iff in Ha.
    destruct Ha as [[[[?%Z.leb_le ?%Z.leb_le] ?%Z.leb_le] ?%Z.ltb_lt] ?%Z.eqb_eq]. by apply prefix_matches_block. }
  split.
  - intros Hf n p Hin Hb. apply (H n p Hin) in Hb. specialize (Hf _ Hin). cbn in Hf. congruence.
  - intros Ho [n p] Hin. apply not_true_iff_false. intros Hm. apply (Ho n p Hin), H; done.
Qed.

(** An IPv6 address is public when the IPv4 address it carries is, for the
    mapped, compatible and NAT64 forms, and else when no special block has it. *)
Definition spec_public (ip : IpAddr) : Prop :=
  match ip with
  | V4 octets => outside 32 private_ipv4 (from_digits 256 octets)
  | V6 segments =>
      let v := from_digits 65536 segments in
      if bool_decide ((v / 2 ^ 32)%Z ∈ [0; 0xffff; Z.shiftl 0x64ff9b 64]%Z)
      then outside 32 private_ipv4 (v mod 2 ^ 32)%Z
      else outside 128 private_ipv6 v
  end.

Lemma from_digits_octets o : is_octets o -> (0 <= from_digits 256 o < 2 ^ 32)%Z.
Proof.
  intros [Hl Hf]. destruct o as [|a [|b [|c [|d [|]]]]]; try done. rewrite !Forall_cons in Hf.
  unfold from_digits. cbn [foldl]. lia.
Qed.

Lemma is_public_ipv4_spec o : is_octets o -> is_public_ipv4 o = true <-> outside 32 private_ipv4 (from_digits 256 o).
Proof. intros Ho. unfold is_public_ipv4. apply outside_spec; [by apply from_digits_octets|reflexivity]. Qed.

Lemma embedded_octets ab cd : (0 <= ab <= U16_MAX)%Z -> (0 <= cd <= U16_MAX)%Z ->
  is_octets [ab / 256; ab mod 256; cd / 256; cd mod 256]%Z /\
  from_digits 256 [ab / 256; ab mod 256; cd / 256; cd mod 256]%Z = (ab * 65536 + cd)%Z.
Proof.
  unfold U16_MAX. intros Ha Hc. split.
  - split; [done|]. repeat constructor; Z.to_euclidean_division_equations; lia.
  - unfold from_digits. cbn [foldl]. Z.to_euclidean_division_equations; lia.
Qed.

Lemma is_publicly_routable_spec ip : well_formed ip -> is_publicly_routable ip = true <-> spec_public ip.
Proof.
  destruct ip as [o|g]; cbn [well_formed is_publicly_routable spec_public]; [apply is_public_ipv4_spec|].
  intros [Hl Hf]. destruct g as [|a [|b [|c [|d [|e [|f [|ab [|cd [|]]]]]]]]]; try done.
  repeat match goal with H : Forall _ (_ :: _) |- _ => apply Forall_cons in H as [? H] end.
  clear Hf Hl. destruct (embedded_octets ab cd) as [Ho Hv]; [done..|].
  set (v := from_digits 65536 [a; b; c; d; e; f; ab; cd]).
  assert (v = (((((((a * 65536 + b) * 65536 + c) * 65536 + d) * 65536 + e) * 65536 + f) * 65536 + ab) * 65536 + cd)%Z) as Ev
    by (unfold v, from_digits; cbn [foldl]; lia).
  unfold U16_MAX in *. set (h := (((((a * 65536 + b) * 65536 + c) * 65536 + d) * 65536 + e) * 65536 + f)%Z) in *.
  assert (v / 2 ^ 32 = h)%Z as Ed by (symmetry; apply (Z.div_unique v _ _ (ab * 65536 + cd)); lia).
  assert (v mod 2 ^ 32 = ab * 65536 + cd)%Z as Em by (symmetry; apply (Z.mod_unique v _ h); lia).
  assert (0 <= v < 2 ^ 128)%Z as Hb by (unfold h in *; lia).
  rewrite Ed, Em, <- Hv. unfold is_public_ipv6. cbn [to_ipv4_mapped drop]. fold v.
  case_bool_decide as E1.
  { injection E1 as -> -> -> -> -> ->. rewrite bool_decide_eq_true_2 by (unfold h; set_solver). by apply is_public_ipv4_spec. }
  rewrite Z.shiftr_div_pow2, Ed by lia.
  assert (prefix_matches 128 v (Z.shiftl 0x64ff9b 96) 96 = true <-> h = Z.shiftl 0x64ff9b 64) as Hnat.
  { rewrite prefix_matches_block by (reflexivity || lia || done). cbn. change (Z.shiftl 6619035 96) with (6619035 * 2^96)%Z.
    change (Z.shiftl 6619035 64) with (6619035 * 2^64)%Z. lia. }
  destruct ((h =? 0)%Z || prefix_matches 128 v (Z.shiftl 0x64ff9b 96) 96) eqn:E2.
  - rewrite bool_decide_eq_true_2; [by apply is_public_ipv4_spec|].
    apply orb_true_iff in E2 as [E2%Z.eqb_eq|E2%Hnat]; rewrite E2; set_solver.
  - rewrite bool_decide_eq_false_2; [by apply outside_spec|].
    apply orb_false_iff in E2 as [E2%Z.eqb_neq E3]. intros Hin. rewrite !elem_of_cons in Hin.
    destruct Hin as [?|[Hh|[?|Hn]]]; [done| | |by apply not_elem_of_nil in Hn].
    + apply E1. assert (a = 0 /\ b = 0 /\ c = 0 /\ d = 0 /\ e = 0 /\ f = 65535)%Z as (-> & -> & -> & -> & -> & ->); [|done].
      unfold h in Hh. lia.
    + apply not_true_iff_false in E3. by apply E3, Hnat.
Qed.

(** ** What an address parser reads *)

(** A reader consumes bytes other than [c]. *)
Definition avoids {A} (c : ascii) (inner : reader A) : Prop :=
  forall s a r, inner s = Some (a, r) -> exists p, s = p ++ r /\ c ∉ p.

Lemma avoids_separator {A} c sep i (inner : reader A) :
  c <> sep -> avoids c inner -> avoids c (read_separator sep i inner).
Proof.
  intros Hc Hi s a r. destruct i; cbn; [apply Hi|]. unfold read_given_char. destruct s as [|d s]; [done|].
  destruct (is_byte sep d) eqn:E; [|done]. apply is_byte_true in E as <-. cbn. intros (p & -> & Hp)%Hi.
  exists (sep :: p). split; [done|]. by apply not_elem_of_cons.
Qed.

Lemma read_digits_app radix acc n s v m r : read_digits radix acc n s = (v, m, r) ->
  exists p, s = p ++ r /\ Forall (fun c => is_Some (to_digit radix c)) p.
Proof.
  revert acc n. induction s as [|c s IH]; intros acc n; cbn.
  - intros [= _ _ <-]. by exists [].
  - destruct (to_digit radix c) as [d|] eqn:E.
    + intros (p & -> & Hp)%IH. exists (c :: p). split; [done|]. constructor; eauto.
    + intros [= _ _ <-]. by exists [].
Qed.

Lemma read_number_app radix digits z max s v r : read_number radix digits z max s = Some (v, r) ->
  exists p, s = p ++ r /\ Forall (fun c => is_Some (to_digit radix c)) p.
Proof.
  unfold read_number. destruct (read_digits radix 0 0 s) as [[w n] r'] eqn:E.
  case_match; [done|]. intros [= _ <-]. by eapply read_digits_app.
Qed.
Lemma avoids_number c radix digits z max : to_digit radix c = None -> avoids c (read_number radix digits z max).
Proof.
  intros Hc s a r (p & -> & Hp)%read_number_app. exists p. split; [done|]. intros Hin.
  rewrite Forall_forall in Hp. destruct (Hp _ Hin). congruence.
Qed.

(** Bytes that no address has. *)
Definition foreign (c : ascii) : Prop :=
  to_digit 10 c = None /\ to_digit 16 c = None /\ c <> "."%char /\ c <> ":"%char.

Lemma avoids_octets c n i : foreign c -> avoids c (read_octets n i).
Proof.
  intros (H10 & _ & Hd & _). revert i. induction n as [|n IH]; intros i s a r; cbn [read_octets].
  { intros [= _ <-]. exists []. split; [done|apply not_elem_of_nil]. }
  intros ([o s1] & H1 & ([os s2] & H2 & [= _ <-])%bind_Some)%bind_Some.
  apply (avoids_separator c) in H1 as (p & -> & Hp); [|done|by apply avoids_number].
  apply IH in H2 as (q & -> & Hq). exists (p ++ q). rewrite <- app_assoc. split; [done|]. by apply not_elem_of_app.
Qed.

Lemma read_groups_avoids c slots i s l v r :
  foreign c -> read_groups slots i s = (l, v, r) -> exists p, s = p ++ r /\ c ∉ p.
Proof.
  intros Hc. pose proof Hc as (_ & H16 & _ & Hd). revert i s l v r.
  induction slots as [|n IH]; intros i s l v r; cbn [read_groups].
  { intros [= _ _ <-]. exists []. split; [done|apply not_elem_of_nil]. }
  case_match eqn:H1.
  - destruct p as [o s']. intros [= _ _ <-]. case_match; [|done].
    by eapply (avoids_separator c ":" i read_ipv4_addr); [|apply avoids_octets|].
  - clear H1. case_match eqn:H2.
    + destruct p as [g s']. destruct (read_groups n (S i) s') as [[gs v'] r'] eqn:E. intros [= _ _ <-].
      apply (avoids_separator c) in H2 as (p & -> & Hp); [|done|by apply avoids_number].
      apply IH in E as (q & -> & Hq). exists (p ++ q). rewrite <- app_assoc. split; [done|]. by apply not_elem_of_app.
    + intros [= _ _ <-]. exists []. split; [done|apply not_elem_of_nil].
Qed.

Lemma read_given_char_Some c s u r : read_given_char c s = Some (u, r) -> s = c :: r.
Proof.
  unfold read_given_char. destruct s as [|d s]; [done|]. destruct (is_byte c d) eqn:E; [|done].
  apply is_byte_true in E as <-. by intros [= _ ->].
Qed.

Lemma avoids_ipv6 c : foreign c -> avoids c read_ipv6_addr.
Proof.
  intros Hc s a r. unfold read_ipv6_addr. destruct (read_groups 8 0 s) as [[h v] s1] eqn:E1.
  apply (read_groups_avoids c) in E1 as (p & -> & Hp); [|done]. case_match.
  { intros [= _ <-]. by exists p. }
  destruct v; [done|].
  intros ([u s2] & ->%read_given_char_Some & E)%bind_Some.
  apply bind_Some in E as ([u' s3] & ->%read_given_char_Some & E).
  destruct (read_groups _ 0 s3) as [[t v'] s4] eqn:E2. injection E as _ ->.
  apply (read_groups_avoids c) in E2 as (q & -> & Hq); [|done]. exists (p ++ ":"%char :: ":"%char :: q).
  rewrite <- app_assoc. split; [done|]. destruct Hc as (_ & _ & _ & ?).
  rewrite !not_elem_of_app, !not_elem_of_cons. by repeat split.
Qed.

Lemma parse_ipv6_avoids c s g : foreign c -> parse_ipv6 s = Some g -> c ∉ s.
Proof.
  intros Hc. unfold parse_ipv6, parse_with. destruct (read_ipv6_addr s) as [[l r]|] eqn:E; [|done].
  destruct r; [|done]. intros _. apply (avoids_ipv6 c Hc) in E as (p & -> & Hp). by rewrite app_nil_r.
Qed.
Lemma parse_ip_avoids c s ip : foreign c -> parse_ip s = Some ip -> c ∉ s.
Proof.
  intros Hc. unfold parse_ip, parse_with, read_ip_addr. destruct (read_ipv4_addr s) as [[o r]|] eqn:E.
  - destruct r; [|done]. intros _. apply (avoids_octets c 4 0 Hc) in E as (p & -> & Hp). by rewrite app_nil_r.
  - destruct (read_ipv6_addr s) as [[g r]|] eqn:E'; [|done]. cbn. destruct r; [|done]. intros _.
    apply (avoids_ipv6 c Hc) in E' as (p & -> & Hp). by rewrite app_nil_r.
Qed.

(** An IPv6 address has a colon. *)
Lemma parse_ipv6_colon s g : parse_ipv6 s = Some g -> ":"%char ∈ s.
Proof.
  intros H. apply contains_byte_true. destruct (contains_byte ":" s) eqn:Ec; [done|]. apply contains_byte_false in Ec.
  exfalso. unfold parse_ipv6, parse_with in H. destruct (read_ipv6_addr s) as [[l r]|] eqn:E; [|done]. clear H.
  unfold read_ipv6_addr in E. cbn [read_groups] in E. cbn [Nat.ltb Nat.leb read_separator] in E.
  assert (forall t, ":"%char ∉ t -> read_given_char ":" t = None) as Hno.
  { intros t Ht. destruct (read_given_char ":" t) as [[u t']|] eqn:Et; [|done]. apply read_given_char_Some in Et as ->.
    exfalso. apply Ht. apply list_elem_of_here. }
  destruct (read_ipv4_addr s) as [[o s']|] eqn:E4.
  { apply read_octets_shape in E4 as [Hl _]. destruct o as [|? [|? [|? [|? [|]]]]]; done. }
  destruct (read_number 16 4 true U16_MAX s) as [[n s']|] eqn:En.
  - assert (":"%char ∉ s') as Hs'.
    { apply read_number_app in En as (p & -> & _). by apply not_elem_of_app in Ec as [_ Ec]. }
    rewrite (Hno _ Hs') in E. cbn in E. by rewrite (Hno _ Hs') in E.
  - cbn in E. by rewrite (Hno _ Ec) in E.
Qed.

(** ** The configuration's check against the proxy's parser *)

(** [domain_to_ascii_strict] applies the STD3 rules: of the ASCII characters it
    accepts letters, digits, hyphens and dots. *)
Class IdnaLaws (I : Idna) : Prop := {
  idna_std3 s a c : domain_to_ascii_strict s = Some a -> c ∈ s -> is_ascii c = true ->
    is_alphanumeric c = true \/ c = "-"%char \/ c = "."%char }.

Lemma valid_label_lowercase label :
  HostRules.valid_dns_label (to_ascii_lowercase label) = true <-> HostRules.valid_dns_label label = true.
Proof.
  unfold HostRules.valid_dns_label, to_ascii_lowercase. rewrite length_map.
  assert (forall c, is_alphanumeric (lower_byte c) || is_byte "-" (lower_byte c) = is_alphanumeric c || is_byte "-" c) as Hc
    by (intros [[] [] [] [] [] [] [] []]; reflexivity).
  assert (forall c, lower_byte c = "-"%char <-> c = "-"%char) as Hd
    by (intros [[] [] [] [] [] [] [] []]; split; intros H; (discriminate H || reflexivity)).
  assert (nonempty (map lower_byte label) = nonempty label) as -> by (by destruct label).
  assert (forallb (fun byte => is_alphanumeric byte || is_byte "-" byte) (map lower_byte label)
          = forallb (fun byte => is_alphanumeric byte || is_byte "-" byte) label) as ->.
  { induction label as [|c l IH]; cbn; [done|]. by rewrite Hc, IH. }
  assert (starts_with "-" (map lower_byte label) = starts_with "-" label) as ->.
  { apply eq_iff_eq_true. rewrite !starts_with_spec. destruct label as [|c l]; [done|]. split.
    - intros (r & [= E _]). apply Hd in E as ->. by exists l.
    - intros (r & [= -> ->]). by exists (map lower_byte r). }
  assert (ends_with "-" (map lower_byte label) = ends_with "-" label) as ->; [|done].
  apply eq_iff_eq_true. rewrite !ends_with_spec. split.
  - destruct label as [|c l _] using rev_ind; [by intros ([|] & E)|]. rewrite map_app. intros (r & E).
    change (list_ascii_of_string "-") with ["-"%char] in *. apply app_inj_tail in E as [_ E]. apply Hd in E as ->. by exists l.
  - intros (r & ->). exists (map lower_byte r). by rewrite map_app.
Qed.

Lemma split_lowercase s : split "." (to_ascii_lowercase s) = map to_ascii_lowercase (split "." s).
Proof.
  unfold split, to_ascii_lowercase. induction s as [|c s IH]; [done|]. cbn [map split_by].
  assert (is_byte "." (lower_byte c) = is_byte "." c) as -> by (destruct c as [[] [] [] [] [] [] [] []]; reflexivity).
  rewrite IH. destruct (is_byte "." c); [done|]. by destruct (split_by (is_byte ".") s).
Qed.

Lemma validate_ascii_domain_lowercase a :
  nonempty a && forallb HostRules.valid_dns_label (split "." a) = true -> validate_ascii_domain (to_ascii_lowercase a) = true.
Proof.
  rewrite !andb_true_iff. intros [Hn Hl]. unfold validate_ascii_domain. rewrite andb_true_iff. split; [by destruct a|].
  rewrite split_lowercase. rewrite forallb_Forall in *. rewrite Forall_map. eapply Forall_impl; [exact Hl|].
  intros l H. by apply valid_label_lowercase in H.
Qed.

Section accepted.
Context {I : Idna} {L : IdnaLaws I}.

(** A host that the configuration accepts is one the proxy can normalise. *)
Lemma valid_host_parses host :
  HostRules.valid_dns_or_ip host = true -> starts_with "[" host = false -> ends_with "]" host = false ->
  exists h, NormalizedHost_parse host = Ok h /\ (is_Some (parse_ip host) <-> exists ip, h = Ip ip).
Proof.
  unfold HostRules.valid_dns_or_ip, NormalizedHost_parse. intros Hv Hb He.
  assert (nonempty host = true) as ->. { destruct host; [|done]. by vm_compute in Hv. }
  rewrite Hb, He. cbn [negb orb err_if mbind result_bind].
  destruct (parse_ip host) as [ip|] eqn:Eip.
  { exists (Ip ip). split; [done|]. split; eauto. }
  rewrite bool_decide_eq_false_2 in Hv by (by intros []).
  destruct (_ || _); [done|]. cbn [err_if mbind result_bind].
  destruct (domain_to_ascii_strict _) as [a|]; [|done]. cbn [ok_or mbind result_bind].
  rewrite (validate_ascii_domain_lowercase _ Hv). eexists. split; [done|]. split; [by intros []|by intros [ip Hip]].
Qed.

Lemma valid_host_std3 host c :
  HostRules.valid_dns_or_ip host = true -> parse_ip host = None -> is_ascii c = true -> is_alphanumeric c = false ->
  c <> "-"%char -> c <> "."%char -> c ∉ host.
Proof.
  unfold HostRules.valid_dns_or_ip. intros Hv Hip Ha Hn H1 H2 Hin. rewrite Hip in Hv.
  rewrite bool_decide_eq_false_2 in Hv by (by intros []). destruct (_ || _); [done|].
  destruct (domain_to_ascii_strict _) as [a|] eqn:E; [|done].
  assert (c ∈ default host (strip_suffix "." host)) as Hin'.
  { destruct (strip_suffix "." host) as [h|] eqn:Eh; [|done]. apply strip_suffix_Some in Eh as ->.
    apply elem_of_app in Hin as [?|Hin]; [done|]. change (list_ascii_of_string ".") with ["."%char] in Hin.
    by apply list_elem_of_singleton in Hin. }
  destruct (idna_std3 _ _ _ E Hin' Ha) as [?|[?|?]]; congruence.
Qed.

Lemma valid_host_foreign host c :
  HostRules.valid_dns_or_ip host = true -> foreign c -> is_ascii c = true -> is_alphanumeric c = false ->
  c <> "-"%char -> c ∉ host.
Proof.
  intros Hv Hf Ha Hn Hd. destruct (parse_ip host) as [ip|] eqn:E; [by eapply parse_ip_avoids|].
  apply valid_host_std3; try done. by destruct Hf as (_ & _ & ? & _).
Qed.

Lemma valid_host_nonempty host : HostRules.valid_dns_or_ip host = true -> host <> [].
Proof. intros H ->. by vm_compute in H. Qed.

Lemma no_star_suffix a b : b <> [] -> "*"%char ∉ b -> strip_suffix ":*" (a ++ b) = None.
Proof.
  intros Hb Hs. destruct (strip_suffix ":*" (a ++ b)) as [r|] eqn:E; [|done]. apply strip_suffix_Some in E.
  destruct b as [|c b _] using rev_ind; [done|]. rewrite app_assoc in E.
  change (list_ascii_of_string ":*") with ([":"%char] ++ ["*"%char]) in E. rewrite (app_assoc r) in E.
  apply app_inj_tail in E as [_ ->]. exfalso. apply Hs, elem_of_app. right. by apply list_elem_of_singleton.
Qed.

Lemma port_matcher_cases p : HostRules.valid_port_matcher p = true ->
  p = "*" \/ exists n, parse_port p = Ok n /\ p <> [] /\ "*"%char ∉ p /\ ":"%char ∉ p.
Proof.
  unfold HostRules.valid_port_matcher. rewrite orb_true_iff, !andb_true_iff, str_eqb_eq. intros [->|[[Hn Hd] Hp]]; [by left|].
  right. unfold parse_port. rewrite Hn, Hd. cbn [negb orb err_if mbind result_bind].
  destruct (parse_u16 p) as [n|]; [|done]. cbn in Hp. exists n. cbn. rewrite Hp. split; [done|]. split; [by destruct p|].
  rewrite forallb_Forall, Forall_forall in Hd. split; intros Hin%Hd; done.
Qed.

(** The host and port part of a rule, for a bracketed address, ... *)
Lemma split_rule_bracket remainder host :
  HostRules.host_rule_name ("[" ++ remainder) = Some host -> HostRules.valid_dns_or_ip host = true ->
  is_Some (parse_ip host) /\ exists port, split_rule_host_port ("[" ++ remainder) None = Ok (host, port).
Proof.
  intros Hname Hv. assert ("*"%char ∉ host) as Hstar by (by apply valid_host_foreign).
  pose proof (valid_host_nonempty _ Hv) as H0. unfold HostRules.host_rule_name in Hname.
  rewrite strip_prefix_app in Hname.
  apply bind_Some in Hname as ([h suffix] & Es & Hname). apply split_once_Some in Es as [-> Hh].
  destruct (parse_ip h) as [[|g]|] eqn:Eg; try done.
  destruct (HostRules.valid_optional_port suffix) eqn:Ep; [|done]. injection Hname as ->.
  split; [eauto|].
  unfold HostRules.valid_optional_port in Ep. apply orb_true_iff in Ep as [Ep|Ep].
  + destruct suffix; [|done]. exists HttpDefaults. unfold split_rule_host_port.
    rewrite (no_star_suffix "[" (host ++ ["]"%char])) by (first [by destruct host | by rewrite not_elem_of_app, list_elem_of_singleton]).
    rewrite strip_prefix_app. rewrite (proj2 (split_once_Some "]" (host ++ ["]"%char]) host [])) by done.
    cbn [ok_or mbind result_bind]. by rewrite Eg.
  + destruct (strip_prefix ":" suffix) as [p|] eqn:Esu; [|done]. apply strip_prefix_Some in Esu as ->.
    destruct (port_matcher_cases p Ep) as [->|(n & Hn & Hp0 & Hps & _)].
    * exists AnyPort. unfold split_rule_host_port.
      rewrite (proj2 (strip_suffix_Some ":*" _ ("[" ++ host ++ ["]"%char]))) by (by rewrite <- !app_assoc).
      cbn [err_if negb]. change (nonempty ("[" ++ host ++ ["]"%char])) with true. cbn [negb err_if mbind result_bind].
      unfold strip_ipv6_brackets. rewrite strip_prefix_app, (proj2 (strip_suffix_Some "]" _ host)) by done.
      cbn [ok_or mbind result_bind]. by rewrite Eg.
    * exists (PortExact n). unfold split_rule_host_port.
      replace ("[" ++ host ++ "]"%char :: ":" ++ p) with (("[" ++ host ++ ["]"%char; ":"%char]) ++ p) by (by rewrite <- !app_assoc).
      rewrite no_star_suffix by done. rewrite <- !app_assoc, strip_prefix_app. cbn [app].
      rewrite (proj2 (split_once_Some "]" _ host (":"%char :: p))) by done. cbn [ok_or mbind result_bind]. rewrite Eg.
      cbn [is_v6 negb err_if mbind result_bind nonempty]. unfold parse_colon_port.
      change (":"%char :: p) with (":" ++ p). rewrite strip_prefix_app. cbn [ok_or mbind result_bind]. by rewrite Hn.
Qed.

(** ... and for a name or an address without brackets; [pre] is the wildcard. *)
Lemma split_rule_plain pre candidate host :
  pre = [] \/ pre = "*." ->
  HostRules.host_rule_name candidate = Some host -> HostRules.valid_dns_or_ip host = true ->
  strip_prefix "[" candidate = None -> ~ is_Some (parse_ipv6 candidate) ->
  exists port, split_rule_host_port (pre ++ candidate) None = Ok (pre ++ host, port).
Proof.
  intros Hpre Hname Hv Eb E6. assert (forall c, foreign c -> is_ascii c = true -> is_alphanumeric c = false ->
    c <> "-"%char -> c ∉ host) as Hf by (intros; by apply valid_host_foreign).
  assert ("*"%char ∉ host) as Hstar by (apply Hf; done).
  pose proof (valid_host_nonempty _ Hv) as H0. unfold HostRules.host_rule_name in Hname.
  rewrite Eb, bool_decide_eq_false_2 in Hname by done.
  destruct (contains_byte "[" candidate || contains_byte "]" candidate) eqn:Ebr; [done|].
  apply orb_false_iff in Ebr as [Hb1%contains_byte_false Hb2%contains_byte_false].
  assert (forall c, c = "["%char \/ c = "]"%char -> c ∉ pre) as Hprebr.
  { intros c Hc. destruct Hpre as [->| ->]; [apply not_elem_of_nil|]. apply contains_byte_false. by destruct Hc as [-> | ->]. }
  assert (":"%char ∉ pre) as Hprec.
  { destruct Hpre as [->| ->]; [apply not_elem_of_nil|]. by apply contains_byte_false. }
  assert (strip_prefix "[" (pre ++ candidate) = None) as Hsp by (by destruct Hpre as [->| ->]).
  assert (strip_prefix "[" (pre ++ host) = None) as Hsph.
  { destruct Hpre as [->| ->]; [|done]. destruct (strip_prefix "[" ([] ++ host)) eqn:E; [|done].
    apply strip_prefix_Some in E. cbn in E. exfalso. apply (Hf "["%char); try done. rewrite E. apply list_elem_of_here. }
  assert (~ is_Some (parse_ipv6 (pre ++ candidate))) as H6.
  { destruct Hpre as [->| ->]; [done|]. intros [g Hg]. apply (parse_ipv6_avoids "*") in Hg; [|done].
    apply Hg, elem_of_app. left. apply list_elem_of_here. }
  assert (contains_byte "[" (pre ++ candidate) || contains_byte "]" (pre ++ candidate) = false) as Hbr.
  { apply orb_false_iff. rewrite !contains_byte_false, !not_elem_of_app. auto. }
  destruct (rsplit_once ":" candidate) as [[h p]|] eqn:Er.
  + apply rsplit_once_Some in Er as [-> Hp]. destruct (negb (contains_byte ":" h) && HostRules.valid_port_matcher p) eqn:E; [|done].
    injection Hname as ->. apply andb_true_iff in E as [Hc%negb_true_iff%contains_byte_false E].
    destruct (port_matcher_cases p E) as [->|(n & Hn & Hp0 & Hps & Hpc)].
    * exists AnyPort. unfold split_rule_host_port.
      rewrite (proj2 (strip_suffix_Some ":*" _ (pre ++ host))) by (by rewrite <- app_assoc).
      assert (nonempty (pre ++ host) = true) as -> by (by destruct pre, host). cbn [negb err_if mbind result_bind].
      unfold strip_ipv6_brackets. by rewrite Hsph.
    * exists (PortExact n). unfold split_rule_host_port.
      assert (strip_suffix ":*" (pre ++ host ++ ":"%char :: p) = None) as ->.
      { change (":"%char :: p) with ([":"%char] ++ p). rewrite !app_assoc. by apply no_star_suffix. }
      rewrite Hsp, bool_decide_eq_false_2, Hbr by done. cbn [err_if mbind result_bind].
      rewrite (proj2 (rsplit_once_Some ":" _ (pre ++ host) p)) by (by rewrite <- app_assoc). by rewrite Hn.
  + injection Hname as ->. apply rsplit_once_None in Er. exists HttpDefaults. unfold split_rule_host_port.
    rewrite no_star_suffix by done. rewrite Hsp, bool_decide_eq_false_2, Hbr by done. cbn [err_if mbind result_bind].
    by rewrite (proj2 (rsplit_once_None ":" (pre ++ host))) by (by apply not_elem_of_app).
Qed.

Lemma split_rule_accepts pre candidate host :
  pre = [] \/ pre = "*." /\ parse_ip host = None ->
  HostRules.host_rule_name candidate = Some host -> HostRules.valid_dns_or_ip host = true ->
  exists port, split_rule_host_port (pre ++ candidate) None = Ok (pre ++ host, port).
Proof.
  intros Hpre Hname Hv. destruct (strip_prefix "[" candidate) as [remainder|] eqn:Eb.
  { apply strip_prefix_Some in Eb as ->. destruct (split_rule_bracket _ _ Hname Hv) as [[ip Hip] Hs].
    destruct Hpre as [->|[_ Hno]]; [done|congruence]. }
  destruct (decide (is_Some (parse_ipv6 candidate))) as [[g E6]|E6].
  2: { apply split_rule_plain; try done. destruct Hpre as [->|[-> _]]; auto. }
  unfold HostRules.host_rule_name in Hname. rewrite Eb, bool_decide_eq_true_2 in Hname by eauto. injection Hname as ->.
  destruct Hpre as [->|[_ Hip]].
  - exists HttpDefaults. unfold split_rule_host_port. cbn [app].
    pose proof (no_star_suffix [] host (valid_host_nonempty _ Hv) (valid_host_foreign _ "*" Hv ltac:(done) eq_refl eq_refl ltac:(done))) as E.
    cbn [app] in E. by rewrite E, Eb, bool_decide_eq_true_2 by eauto.
  - exfalso. apply (valid_host_std3 host ":" Hv Hip); try done. by eapply parse_ipv6_colon.
Qed.
End accepted.


(** IDNA of names of letters, digits, hyphens and dots. *)
Definition plain_idna : Idna := fun s =>
  if forallb (fun c => is_alphanumeric c || is_byte "-" c || is_byte "." c) s then Some (to_ascii_lowercase s) else None.
Lemma plain_idna_laws : IdnaLaws plain_idna.
Proof.
  constructor. intros s a c. unfold domain_to_ascii_strict, plain_idna. destruct (forallb _ s) eqn:E; [|done].
  intros _ Hc _. rewrite forallb_Forall, Forall_forall in E. specialize (E _ Hc).
  rewrite !orb_true_iff, !is_byte_true in E. naive_solver.
Qed.


(** A rule permits exactly what it says: an exact rule its own host, a
    wildcard rule the proper subdomains of its suffix and never the apex nor an
    address; a rule without a port the two HTTP ports. *)
Theorem rule_matches_exact (rule : AllowRule) (authority : Authority) :
  rule_matches rule authority = true <->
  match rule_host rule with
  | HostExact host => auth_host authority = host
  | Subdomain suffix => exists label, label <> [] /\ auth_host authority = Domain (label ++ "." ++ suffix)
  end /\
  match rule_port rule with
  | PortExact port => auth_port authority = port
  | HttpDefaults => auth_port authority = 80%Z \/ auth_port authority = 443%Z
  | AnyPort => auth_port authority <> 0%Z
  end.
Proof.
  unfold rule_matches. rewrite andb_true_iff.
  assert (match rule_port rule with
    | PortExact port => (auth_port authority =? port)%Z
    | HttpDefaults => (auth_port authority =? 80)%Z || (auth_port authority =? 443)%Z
    | AnyPort => negb (auth_port authority =? 0)%Z end = true <->
    match rule_port rule with
    | PortExact port => auth_port authority = port
    | HttpDefaults => auth_port authority = 80%Z \/ auth_port authority = 443%Z
    | AnyPort => auth_port authority <> 0%Z end) as ->.
  { destruct (rule_port rule); rewrite ?orb_true_iff, ?Z.eqb_eq, ?negb_true_iff, ?Z.eqb_neq; done. }
  destruct (rule_host rule) as [host|suffix]; [by rewrite bool_decide_eq_true; split; intros [-> ?]|].
  apply and_iff_compat_r. destruct (auth_host authority) as [domain|ip]; [|split; [done|by intros (? & _ & ?)]].
  destruct (strip_suffix suffix domain) as [prefix|] eqn:E; cbn [is_some_and].
  - apply strip_suffix_Some in E as ->. rewrite andb_true_iff, ends_with_spec, Nat.ltb_lt. split.
    + intros [(r & ->) Hl]. exists r. rewrite length_app in Hl. change (length ("." : str)) with 1%nat in Hl.
      split; [intros ->; cbn in Hl; lia|]. by rewrite <- app_assoc.
    + intros (l & Hl & E). assert (prefix ++ suffix = (l ++ ".") ++ suffix) as E' by (rewrite <- app_assoc; congruence).
      apply app_inv_tail in E' as ->. split; [by exists l|].
      rewrite length_app. change (length ("." : str)) with 1%nat. destruct l; [done|]. cbn. lia.
  - split; [done|]. intros (l & _ & E'). assert (domain = (l ++ ".") ++ suffix) as Ed by (rewrite <- app_assoc; congruence).
    by rewrite (proj2 (strip_suffix_Some suffix domain (l ++ ".")) Ed) in E.
Qed.

(** C9: a resolved destination is admitted exactly when there is one, and either
    the authority may be private or every resolved address is public: no
    address of a private or reserved block passes, also not one carried inside
    an IPv4-mapped, IPv4-compatible or NAT64 address. *)
Theorem address_policy_exact (private : list AllowRule) (authority : Authority) (addresses : list SocketAddr) :
  Forall (fun a => well_formed (socket_ip a)) addresses ->
  policy_validate private authority addresses = Ok tt <->
  addresses <> [] /\
  ((exists rule, rule ∈ private /\ rule_matches rule authority = true) \/
   forall a, a ∈ addresses -> spec_public (socket_ip a)).
Proof.
  intros Hwf. unfold policy_validate. rewrite bind_unit_Ok, err_if_Ok, negb_false_iff.
  assert (nonempty addresses = true <-> addresses <> []) as -> by (by destruct addresses).
  apply and_iff_compat_l. destruct (allows private authority) eqn:Ea.
  { split; [|done]. intros _. left. unfold allows in Ea. rewrite existsb_Exists, Exists_exists in Ea. exact Ea. }
  assert (~ exists rule, rule ∈ private /\ rule_matches rule authority = true) as Hno.
  { unfold allows in Ea. rewrite existsb_false, Forall_forall in Ea. intros (r & Hr & Hm). rewrite Ea in Hm; done. }
  destruct (List.find _ addresses) as [a|] eqn:Ef.
  - split; [done|]. intros [?|H]; [done|]. apply find_some in Ef as [Hin Hp]. apply list_elem_of_In in Hin.
    rewrite Forall_forall in Hwf. apply negb_true_iff, not_true_iff_false in Hp. exfalso. apply Hp.
    apply is_publicly_routable_spec; auto.
  - split; [|done]. intros _. right. intros a Hin. rewrite Forall_forall in Hwf.
    apply is_publicly_routable_spec; [by apply Hwf|]. apply list_elem_of_In in Hin.
    pose proof (find_none _ _ Ef _ Hin) as Hp. by apply negb_false_iff.
Qed.

Lemma address_policy_exact_witness :
  policy_validate [] (mkAuthority (Domain "example.com") 443) [mkSocketAddr (V4 [93; 184; 215; 14]%Z) 443] = Ok tt /\
  spec_public (V4 [93; 184; 215; 14]%Z).
Proof.
  assert (policy_validate [] (mkAuthority (Domain "example.com") 443) [mkSocketAddr (V4 [93; 184; 215; 14]%Z) 443] = Ok tt)
    as H by (vm_compute; reflexivity).
  split; [exact H|].
  apply address_policy_exact in H.
  - destruct H as [_ [(r & Hr & _)|H]]; [apply not_elem_of_nil in Hr; destruct Hr|].
    apply (H (mkSocketAddr (V4 [93; 184; 215; 14]%Z) 443)). apply list_elem_of_here.
  - apply Forall_singleton. split; [reflexivity|]. repeat (apply Forall_cons; split; [lia|]). apply Forall_nil. exact Logic.I.
Defined.
End Allowlist.
