(* ===== verification/IpText.v ===== *)
(** * IP addresses print and parse back

    [Display] of [std::net::IpAddr] (in Allowlist.v) against its [FromStr] (in
    IpAddr.v): what is printed reads back as the same address, whatever run of
    zeroes is compressed. *)

From S2P Require Export Allowlist.

Module IpText.
Import IpAddr Allowlist.

(** ** Numbers *)

Definition no_digit (radix : Z) (s : str) : Prop := match s with c :: _ => to_digit radix c = None | [] => True end.

Lemma read_digits_across radix acc count s v n rest :
  read_digits radix acc count s = (v, n, []) -> no_digit radix rest -> read_digits radix acc count (s ++ rest) = (v, n, rest).
Proof.
  revert acc count. induction s as [|c s IH]; intros acc count; cbn [read_digits app].
  { intros [= <- <-] H. destruct rest as [|d rest]; [done|]. cbn in *. by rewrite H. }
  destruct (to_digit radix c); [apply IH|done].
Qed.

(** A text that is a number and nothing else, without a zero in front of it. *)
Definition reads_number (radix : Z) (max_digits : nat) (n : Z) (s : str) : bool :=
  match read_digits radix 0 0 s with
  | (v, count, []) => (v =? n)%Z && negb (count =? 0)%nat && (count <=? max_digits)%nat
                      && negb (match s with c :: _ => is_byte "0" c | [] => false end && (1 <? count)%nat)
  | _ => false
  end.
Lemma read_number_text radix max_digits zero max n s rest :
  reads_number radix max_digits n s = true -> (n <= max)%Z -> no_digit radix rest ->
  read_number radix max_digits zero max (s ++ rest) = Some (n, rest).
Proof.
  unfold reads_number, read_number. intros H Hm Hr.
  destruct (read_digits radix 0 0 s) as [[v count] tail] eqn:E. destruct tail as [|]; [|done].
  rewrite (read_digits_across _ _ _ _ _ _ _ E Hr). bool_split. subst v.
  assert (Hz : match s ++ rest with c :: _ => is_byte "0" c | [] => false end && (1 <? count)%nat = false).
  { destruct s as [|c s]; [injection E as _ <-; done|exact H0]. }
  rewrite <- andb_assoc, Hz, andb_false_r, orb_false_r.
  destruct (_ || _) eqn:Hb; [|done]. rewrite !orb_true_iff, Nat.eqb_eq, Nat.ltb_lt, Z.ltb_lt in Hb. lia.
Qed.

Lemma dec_reads n : (0 <= n <= 255)%Z -> reads_number 10 3 n (dec n) = true.
Proof.
  assert (H : Forall (fun n => reads_number 10 3 n (dec n) = true) (seqZ 0 256)).
  { apply forallb_Forall. vm_compute. reflexivity. }
  rewrite Forall_forall in H. intros Hn. apply H, elem_of_seqZ. lia.
Qed.
Fixpoint counting (k : nat) (z : Z) : list Z := match k with O => [] | S k => z :: counting k (z + 1) end.
Lemma elem_of_counting k z n : (z <= n < z + Z.of_nat k)%Z -> n ∈ counting k z.
Proof.
  revert z. induction k as [|k IH]; intros z H; [lia|]. cbn [counting]. apply elem_of_cons.
  destruct (decide (n = z)) as [->|Hn]; [by left|right]. apply IH. lia.
Qed.
Lemma hex_reads n : (0 <= n <= U16_MAX)%Z -> reads_number 16 4 n (hex n) = true.
Proof.
  assert (H : Forall (fun n => reads_number 16 4 n (hex n) = true) (counting (Z.to_nat 65536) 0)).
  { apply forallb_Forall. vm_compute. reflexivity. }
  rewrite Forall_forall in H. intros Hn. apply H, elem_of_counting. unfold U16_MAX in Hn. lia.
Qed.

(** ** Version 4 *)

Lemma read_ipv4_text octets rest :
  is_octets octets -> no_digit 10 rest -> read_ipv4_addr (ipv4_to_string octets ++ rest) = Some (octets, rest).
Proof.
  intros [Hl Ho] Hr. destruct octets as [|a [|b [|c [|d [|]]]]]; try done. unfold ipv4_to_string. cbn [map].
  repeat (apply Forall_cons in Ho as [? Ho]).
  assert (Hn : forall n (s : str), (0 <= n <= 255)%Z -> no_digit 10 s -> read_number 10 3 false 255 (dec n ++ s) = Some (n, s)).
  { intros n s Hn Hs. apply read_number_text; [by apply dec_reads|lia|done]. }
  rewrite !join_cons_cons by done. cbn [join]. rewrite <- !app_assoc.
  unfold read_ipv4_addr. cbn [read_octets read_separator]. rewrite Hn by done. cbn [mbind option_bind].
  assert (Hdot : forall s : str, read_given_char "." (("." : str) ++ s) = Some (tt, s)) by done.
  do 3 (rewrite Hdot; cbn [mbind option_bind]; rewrite Hn by done; cbn [mbind option_bind]). done.
Qed.
(** Without a dot there is no address of version 4. *)
Lemma read_number_suffix radix digits zero max s v rest : read_number radix digits zero max s = Some (v, rest) -> exists k, s = k ++ rest.
Proof.
  assert (H : forall s acc count v c r, read_digits radix acc count s = (v, c, r) -> exists k, s = k ++ r).
  { clear. induction s as [|x s IH]; intros acc count v c r; cbn [read_digits].
    - intros [= <- <- <-]. by exists [].
    - destruct (to_digit radix x).
      + intros (k & ->)%IH. by exists (x :: k).
      + intros [= <- <- <-]. by exists []. }
  unfold read_number. destruct (read_digits radix 0 0 s) as [[v0 c0] r0] eqn:E. case_match; [done|]. intros [= <- <-]. by eapply H.
Qed.
Lemma read_ipv4_none s : "."%char ∉ s -> read_ipv4_addr s = None.
Proof.
  intros Hs. unfold read_ipv4_addr. cbn [read_octets read_separator].
  destruct (read_number 10 3 false 255 s) as [[v rest]|] eqn:E; [|done]. cbn [mbind option_bind].
  apply read_number_suffix in E as [k ->]. destruct rest as [|c rest]; [done|]. cbn [read_given_char].
  destruct (is_byte "." c) eqn:Ec; [|done]. apply is_byte_true in Ec. subst c. exfalso. apply Hs, elem_of_app. right. apply list_elem_of_here.
Qed.

(** ** Version 6 *)

(** Groups as they are read from the [i]-th on. *)
Fixpoint groups_text (i : nat) (groups : list Z) : str :=
  match groups with
  | [] => []
  | g :: groups => (match i with O => [] | S _ => (":" : str) end) ++ hex g ++ groups_text (S i) groups
  end.
Lemma groups_text_join groups : groups_text 0 groups = join ":" (map hex groups).
Proof.
  assert (H : forall i g gs, groups_text (S i) (g :: gs) = (":" : str) ++ join ":" (map hex (g :: gs))).
  { intros i g gs. revert i g. induction gs as [|g' gs IH]; intros i g; [cbn [groups_text map join]; by rewrite app_nil_r|].
    change (groups_text (S i) (g :: g' :: gs)) with ((":" : str) ++ hex g ++ groups_text (S (S i)) (g' :: gs)).
    rewrite IH. reflexivity. }
  destruct groups as [|g [|g' gs]]; [done|cbn; by rewrite app_nil_r|].
  change (groups_text 0 (g :: g' :: gs)) with (hex g ++ groups_text 1 (g' :: gs)). rewrite H. reflexivity.
Qed.

(** Nothing more is read here. *)
Definition stops (rest : str) : Prop :=
  no_digit 16 rest /\ forall s', read_given_char ":" rest = Some (tt, s') -> no_digit 16 s'.
Lemma no_number radix digits zero max s : no_digit radix s -> read_number radix digits zero max s = None.
Proof. unfold read_number. destruct s as [|c s]; [done|]. cbn. by intros ->. Qed.
Lemma stops_none i rest : stops rest -> read_separator ":" i (read_number 16 4 true U16_MAX) rest = None.
Proof.
  intros [H1 H2]. destruct i; cbn [read_separator]; [by apply no_number|].
  destruct (read_given_char ":" rest) as [[[] s']|] eqn:E; [|done]. cbn. by apply no_number, H2.
Qed.
Lemma no_v4 i s : "."%char ∉ s -> read_separator ":" i read_ipv4_addr s = None.
Proof.
  intros Hs. destruct i; cbn [read_separator]; [by apply read_ipv4_none|].
  destruct (read_given_char ":" s) as [[[] s']|] eqn:E; [|done]. cbn. apply read_ipv4_none.
  destruct s as [|c s]; [done|]. cbn in E. destruct (is_byte ":" c); [|done]. injection E as ->. intros Hin. by apply Hs, list_elem_of_further.
Qed.
Lemma read_groups_stop slots i rest : "."%char ∉ rest -> stops rest -> read_groups slots i rest = ([], false, rest).
Proof. intros Hd Hs. destruct slots as [|slots]; [done|]. cbn [read_groups]. by rewrite no_v4, stops_none, Tauto.if_same. Qed.
Lemma read_groups_text slots i groups rest :
  Forall (fun g => 0 <= g <= U16_MAX)%Z groups -> (length groups <= slots)%nat ->
  "."%char ∉ groups_text i groups ++ rest -> stops rest -> no_digit 16 rest ->
  read_groups slots i (groups_text i groups ++ rest) = (groups, false, rest).
Proof.
  intros Hg. revert slots i. induction Hg as [|g groups Hg0 Hg IH]; intros slots i Hlen Hd Hs Hr; [by apply read_groups_stop|].
  destruct slots as [|slots]; [cbn in Hlen; lia|]. cbn [read_groups]. rewrite no_v4 by done. rewrite Tauto.if_same.
  assert (Hn : no_digit 16 (groups_text (S i) groups ++ rest)) by (by destruct groups).
  assert (E : read_separator ":" i (read_number 16 4 true U16_MAX) (groups_text i (g :: groups) ++ rest)
              = Some (g, groups_text (S i) groups ++ rest)).
  { cbn [groups_text]. rewrite <- !app_assoc. destruct i; cbn [read_separator app];
      [|change (read_given_char ":" ((":" : str) ++ ?s)) with (Some (tt, s)); cbn [mbind option_bind]];
      (apply read_number_text; [by apply hex_reads|lia|done]). }
  rewrite E, IH; [done|cbn in Hlen; lia| |done..].
  intros Hin. apply Hd. cbn [groups_text]. rewrite <- !app_assoc. do 2 (apply elem_of_app; right). done.
Qed.
(** A run of zeroes is where it is said to be. *)
Definition zero_run (l : list Z) (run : nat * nat) : Prop :=
  run.1 + run.2 <= length l /\ take run.2 (drop run.1 l) = replicate run.2 0%Z.
Lemma zero_run_none l k : k <= length l -> zero_run l (k, 0).
Proof. intros H. split; [cbn; lia|done]. Qed.
Lemma longest_zeroes_run done rest current longest :
  (current.2 = 0 \/ current.1 + current.2 = length done) ->
  (forall more, zero_run (done ++ more) current \/ current.2 = 0) ->
  (forall more, zero_run (done ++ more) longest) ->
  zero_run (done ++ rest) (longest_zeroes (length done) rest current longest).
Proof.
  revert done current longest. induction rest as [|g rest IH]; intros done current longest He Hc Hl; [exact (Hl [])|].
  cbn [longest_zeroes].
  assert (Hlen : S (length done) = length (done ++ [g])) by (rewrite length_app; cbn; lia).
  rewrite (app_assoc done [g] rest : done ++ g :: rest = _), Hlen. destruct (Z.eqb_spec g 0) as [->|Hg].
  - assert (Hnew : forall more, zero_run ((done ++ [0%Z]) ++ more) (if (current.2 =? 0)%nat then length done else current.1, S current.2)).
    { intros more. destruct current as [c k]. cbn [fst snd] in *. destruct (Nat.eqb_spec k 0) as [->|Hk].
      - split; cbn [fst snd]; [rewrite !length_app; cbn; lia|]. rewrite <- app_assoc, drop_app_length. reflexivity.
      - destruct He as [?|He]; [lia|]. destruct (Hc []) as [[H1 H2]|?]; [|lia]. cbn [fst snd] in *. rewrite app_nil_r in *.
        split; cbn [fst snd]; [rewrite !length_app; cbn; lia|]. rewrite <- app_assoc, drop_app_le by lia.
        rewrite take_app_ge by (rewrite length_drop; lia). rewrite length_drop.
        replace (S k - (length done - c)) with 1 by lia. cbn [app take].
        rewrite take_ge in H2 by (rewrite length_drop; lia). rewrite H2, take_0. by rewrite <- replicate_cons_app. }
    cbv zeta. cbn [snd]. apply IH.
    + right. cbn [fst snd]. rewrite <- Hlen. destruct (Nat.eqb_spec current.2 0) as [E|]; [rewrite E; lia|]. destruct He; lia.
    + intros more. left. apply Hnew.
    + intros more. destruct (_ <? _)%nat; [apply Hnew|]. rewrite <- app_assoc. apply Hl.
  - apply IH; [by left|by right|]. intros more. rewrite <- app_assoc. apply Hl.
Qed.

Lemma hex_no_dot n : (0 <= n <= U16_MAX)%Z -> "."%char ∉ hex n.
Proof.
  assert (H : Forall (fun n => negb (contains_byte "." (hex n)) = true) (counting (Z.to_nat 65536) 0)).
  { apply forallb_Forall. vm_compute. reflexivity. }
  rewrite Forall_forall in H. intros Hn. apply contains_byte_false, negb_true_iff, H, elem_of_counting. unfold U16_MAX in Hn. lia.
Qed.
Lemma groups_no_dot i groups : Forall (fun g => 0 <= g <= U16_MAX)%Z groups -> "."%char ∉ groups_text i groups.
Proof.
  intros Hg. revert i. induction Hg as [|g groups H Hg IH]; intros i; cbn [groups_text]; [apply not_elem_of_nil|].
  rewrite !not_elem_of_app. split; [|by split; [apply hex_no_dot|]]. destruct i; [apply not_elem_of_nil|].
  by intros E%list_elem_of_singleton.
Qed.

Lemma read_ipv6_plain segments :
  is_segments segments -> read_ipv6_addr (join ":" (map hex segments)) = Some (segments, []).
Proof.
  intros [Hl Hg]. unfold read_ipv6_addr. rewrite <- groups_text_join, <- (app_nil_r (groups_text 0 segments)).
  rewrite read_groups_text; [by rewrite Hl|done|lia| |by split|done]. rewrite app_nil_r. by apply groups_no_dot.
Qed.
Lemma read_ipv6_compressed head tail k :
  Forall (fun g => 0 <= g <= U16_MAX)%Z head -> Forall (fun g => 0 <= g <= U16_MAX)%Z tail ->
  length head + k + length tail = 8 -> 2 <= k ->
  read_ipv6_addr (join ":" (map hex head) ++ ("::" : str) ++ join ":" (map hex tail)) = Some (head ++ replicate k 0%Z ++ tail, []).
Proof.
  intros Hh Ht Hlen Hk. unfold read_ipv6_addr. rewrite <- !groups_text_join.
  assert (Hd : "."%char ∉ ("::" : str) ++ groups_text 0 tail).
  { apply not_elem_of_app. split; [|by apply groups_no_dot]. apply (bool_decide_unpack _). vm_compute. exact Logic.I. }
  rewrite read_groups_text; [|done|lia| | |done].
  2: { apply not_elem_of_app. split; [by apply groups_no_dot|done]. }
  2: { split; [done|]. by intros s' [= <-]. }
  rewrite (proj2 (Nat.eqb_neq _ _)) by lia.
  change (read_given_char ":" (("::" : str) ++ ?s)) with (Some (tt, (":" : str) ++ s)). cbn [mbind option_bind].
  change (read_given_char ":" ((":" : str) ++ ?s)) with (Some (tt, s)). cbn [mbind option_bind]. cbv zeta.
  rewrite <- (app_nil_r (groups_text 0 tail)).
  rewrite read_groups_text; [|done|lia| |by split|done]; [|rewrite app_nil_r; by apply groups_no_dot].
  by replace (8 - length head - length tail) with k by lia.
Qed.
Lemma read_ipv6_mapped a b :
  (0 <= a <= U16_MAX)%Z -> (0 <= b <= U16_MAX)%Z ->
  read_ipv6_addr (("::ffff:" : str) ++ ipv4_to_string [a / 256; a mod 256; b / 256; b mod 256]%Z)
  = Some ([0; 0; 0; 0; 0; 65535; a; b]%Z, []).
Proof.
  intros Ha Hb. set (v4 := [a / 256; a mod 256; b / 256; b mod 256]%Z).
  assert (Ho : is_octets v4).
  { split; [done|]. unfold U16_MAX in *. repeat constructor; try (apply Z.div_pos; lia);
      try (apply Z.mod_pos_bound; lia); try (apply Z.lt_succ_r, Z.div_lt_upper_bound; lia);
      match goal with |- (?x mod 256 <= _)%Z => pose proof (Z.mod_pos_bound x 256); lia end. }
  pose proof (read_ipv4_text v4 [] Ho Logic.I) as H4. rewrite app_nil_r in H4.
  unfold read_ipv6_addr.
  assert (E1 : read_groups 8 0 (("::ffff:" : str) ++ ipv4_to_string v4) = ([], false, ("::ffff:" : str) ++ ipv4_to_string v4)) by reflexivity.
  rewrite E1. cbn [length Nat.eqb].
  change (read_given_char ":" (("::ffff:" : str) ++ ?s)) with (Some (tt, (":ffff:" : str) ++ s)). cbn [mbind option_bind].
  change (read_given_char ":" ((":ffff:" : str) ++ ?s)) with (Some (tt, ("ffff:" : str) ++ s)). cbn [mbind option_bind]. cbv zeta.
  assert (E2 : read_groups 7 0 (("ffff:" : str) ++ ipv4_to_string v4) = ([65535; a; b]%Z, true, [])).
  { cbn [read_groups read_separator Nat.ltb Nat.leb].
    change (read_ipv4_addr (("ffff:" : str) ++ ?s)) with (@None (list Z * str)). cbv iota.
    change (read_number 16 4 true U16_MAX (("ffff:" : str) ++ ?s)) with (Some (65535%Z, (":" : str) ++ s)). cbv iota beta.
    change (read_given_char ":" ((":" : str) ++ ?s)) with (Some (tt, s)). cbn [mbind option_bind]. rewrite H4.
    unfold v4, embed_v4. rewrite !(Z.mul_comm _ 256), <- !Z.div_mod by lia. reflexivity. }
  cbn [Nat.sub Nat.add]. rewrite E2. reflexivity.
Qed.

(** What an address prints as reads back as the address. *)
Theorem ip_text_reads_back (ip : IpAddr) : well_formed ip -> parse_ip (ip_to_string ip) = Some ip.
Proof.
  unfold parse_ip, parse_with, read_ip_addr. destruct ip as [octets|segments]; cbn [well_formed ip_to_string]; intros Hw.
  { pose proof (read_ipv4_text octets [] Hw Logic.I) as H. rewrite app_nil_r in H. by rewrite H. }
  assert (H : read_ipv4_addr (ipv6_to_string segments) = None /\ read_ipv6_addr (ipv6_to_string segments) = Some (segments, [])); [|by destruct H as [-> ->]].
  unfold ipv6_to_string. destruct (to_ipv4_mapped segments) as [v4|] eqn:Em.
  { unfold to_ipv4_mapped in Em. destruct Hw as [Hl Hg].
    destruct segments as [|a [|b [|c [|d [|e [|f [|ab [|cd [|]]]]]]]]]; try done.
    destruct (bool_decide _) eqn:E; [|discriminate]. apply bool_decide_eq_true in E. injection Em as <-. injection E as -> -> -> -> -> ->.
    repeat (apply Forall_cons in Hg as [? Hg]).
    split; [reflexivity|]. by apply read_ipv6_mapped. }
  pose proof (longest_zeroes_run [] segments (0, 0) (0, 0) (or_introl eq_refl) (fun _ => or_intror eq_refl)
    (fun more => zero_run_none _ 0 (Nat.le_0_l _))) as [Hr1 Hr2]. cbn [app length] in *.
  destruct (longest_zeroes 0 segments (0, 0) (0, 0)) as [start len]. cbn [fst snd] in *. destruct Hw as [Hl Hg].
  destruct (Nat.ltb_spec 1 len).
  - assert (Ht : Forall (fun g => 0 <= g <= U16_MAX)%Z (take start segments)) by by apply Forall_take.
    assert (Hd : Forall (fun g => 0 <= g <= U16_MAX)%Z (drop (start + len) segments)) by by apply Forall_drop.
    split.
    + apply read_ipv4_none. rewrite <- !groups_text_join, !not_elem_of_app. split; [by apply groups_no_dot|].
      split; [apply (bool_decide_unpack _); vm_compute; exact Logic.I|by apply groups_no_dot].
    + rewrite (read_ipv6_compressed _ _ len) by (done || rewrite ?length_take, ?length_drop; lia).
      rewrite <- Hr2. rewrite <- drop_drop, take_drop, take_drop. reflexivity.
  - split; [|by apply read_ipv6_plain]. apply read_ipv4_none. rewrite <- groups_text_join. by apply groups_no_dot.
Qed.
End IpText.
