(* ===== verification/Streams.v ===== *)
(** * Byte streams of the proxies

    A model of [tokio]'s byte streams as the proxies use them.  What the peer and
    the clock do is fixed in advance: the reads of a connection deliver a list of
    events, and each write consumes one entry of a list of faults (none left: the
    write succeeds).  A computation threads its state and keeps it when it fails;
    [None] is a loop out of fuel, and the theorems show that it does not happen. *)

From S2P Require Export RustStr.

Module Streams.

(** The text of an [io::Error]. *)
Definition io_error := str.

(** What a read gives before its time limit: bytes, nothing, or an error.  A
    connection with no event left is at the end of its stream. *)
Inductive ReadEvent :=
  | Data (bytes : str)
  | ReadStall
  | ReadFault (error : io_error).

(** A write that stops after [written] bytes, for lack of progress or with an error. *)
Inductive WriteFault :=
  | WriteStall (written : nat)
  | WriteError (written : nat) (error : io_error).

Record Conn := mkConn {
  inbound : list ReadEvent;
  write_faults : list (option WriteFault);
  outbound : str;
  closed : bool }.

(** The two ways a limited operation ends without its value. *)
Inductive Interruption :=
  | Elapsed
  | IoFailed (error : io_error).

(** One [read] into a buffer of [limit] bytes; an empty result is the end. *)
Definition read (limit : nat) (c : Conn) : result Interruption str * Conn :=
  let with_inbound events := mkConn events (write_faults c) (outbound c) (closed c) in
  match inbound c with
  | [] => (Ok [], c)
  | Data bytes :: events =>
      if (length bytes <=? limit)%nat then (Ok bytes, with_inbound events)
      else (Ok (take limit bytes), with_inbound (Data (drop limit bytes) :: events))
  | ReadStall :: events => (Err Elapsed, with_inbound events)
  | ReadFault error :: events => (Err (IoFailed error), with_inbound events)
  end.

Definition append (bytes : str) (faults : list (option WriteFault)) (c : Conn) : Conn :=
  mkConn (inbound c) faults (outbound c ++ bytes) (closed c).

(** [write_all] under a time limit. *)
Definition write_all_within (bytes : str) (c : Conn) : result Interruption unit * Conn :=
  match write_faults c with
  | Some (WriteStall written) :: faults => (Err Elapsed, append (take written bytes) faults c)
  | Some (WriteError written error) :: faults => (Err (IoFailed error), append (take written bytes) faults c)
  | faults => (Ok tt, append bytes (tail faults) c)
  end.

(** [write_all] with no limit waits for as long as it takes. *)
Definition write_all (bytes : str) (c : Conn) : result io_error unit * Conn :=
  match write_faults c with
  | Some (WriteError written error) :: faults => (Err error, append (take written bytes) faults c)
  | faults => (Ok tt, append bytes (tail faults) c)
  end.

(** [shutdown] of the writing side. *)
Definition shutdown_within (c : Conn) : result Interruption unit * Conn :=
  let shut faults := mkConn (inbound c) faults (outbound c) true in
  match write_faults c with
  | Some (WriteStall _) :: faults => (Err Elapsed, mkConn (inbound c) faults (outbound c) (closed c))
  | Some (WriteError _ error) :: faults => (Err (IoFailed error), mkConn (inbound c) faults (outbound c) (closed c))
  | faults => (Ok tt, shut (tail faults))
  end.
Definition shutdown (c : Conn) : result io_error unit * Conn :=
  match write_faults c with
  | Some (WriteError _ error) :: faults => (Err error, mkConn (inbound c) faults (outbound c) (closed c))
  | faults => (Ok tt, mkConn (inbound c) (tail faults) (outbound c) true)
  end.

(** ** Reading as bytes *)

(** The bytes a connection delivers before it ends or is interrupted. *)
Fixpoint delivered (events : list ReadEvent) : str :=
  match events with
  | Data (c :: bytes) :: events => c :: bytes ++ delivered events
  | _ => []
  end.

(** A bound on the number of reads: each takes an event or a byte. *)
Fixpoint volume (events : list ReadEvent) : nat :=
  match events with
  | [] => 0
  | Data bytes :: events => S (length bytes + volume events)
  | _ :: events => S (volume events)
  end.

Lemma read_Ok limit c bytes c' : read limit c = (Ok bytes, c') ->
  outbound c' = outbound c /\ closed c' = closed c /\ write_faults c' = write_faults c /\
  (0 < limit -> volume (inbound c') <= volume (inbound c) - length bytes)%nat /\
  (length bytes <= limit)%nat /\
  (bytes <> [] -> delivered (inbound c) = bytes ++ delivered (inbound c') /\ (volume (inbound c') < volume (inbound c))%nat).
Proof.
  unfold read. destruct c as [[|[bytes0| |e] events] faults out cl]; cbn; [|destruct (length bytes0 <=? limit)%nat eqn:E|..]; intros H; simplify_eq; cbn.
  - split_and!; [done..|lia|lia|done].
  - bool_split. split_and!; [done..|lia|lia|]. intros Hne. destruct bytes; [done|]. cbn. split; [done|lia].
  - bool_split. rewrite length_take, length_drop. split_and!; [done..|lia|lia|].
    intros Hne. split; [|destruct limit; [done|lia]].
    destruct bytes0 as [|b bytes0]; [by rewrite take_nil in Hne|].
    destruct (drop limit (b :: bytes0)) as [|d rest] eqn:Ed.
    { apply (f_equal length) in Ed. rewrite length_drop in Ed. cbn in *. lia. }
    change (b :: bytes0 ++ delivered events) with ((b :: bytes0) ++ delivered events).
    rewrite <- (take_drop limit (b :: bytes0)) at 1. by rewrite Ed, <- app_assoc.
Qed.

Lemma read_Err limit c e c' : read limit c = (Err e, c') ->
  outbound c' = outbound c /\ closed c' = closed c /\ write_faults c' = write_faults c /\
  (volume (inbound c') < volume (inbound c))%nat /\ delivered (inbound c) = [].
Proof.
  unfold read. destruct c as [[|[bytes0| |er] events] faults out cl]; cbn; [done|destruct (length bytes0 <=? limit)%nat; done|..];
    intros H; simplify_eq; cbn; split_and!; (done || lia).
Qed.

(** A write appends a prefix of its bytes, all of them when it succeeds. *)
Lemma write_all_within_spec bytes c r c' : write_all_within bytes c = (r, c') ->
  inbound c' = inbound c /\ closed c' = closed c /\
  exists w, outbound c' = outbound c ++ w /\ w `prefix_of` bytes /\ (is_ok r = true -> w = bytes).
Proof.
  unfold write_all_within, append. destruct (write_faults c) as [|[[n|n e]|] faults]; intros H; simplify_eq; cbn;
    (split; [done|split; [done|]]); eexists; (split; [reflexivity|split; [|try done]]);
    try apply (prefix_app_r (take n bytes)); try done; try apply prefix_take.
Qed.
End Streams.
