(* ===== verification/Auth.v ===== *)
(** * Authentication tokens of the proxies ([codex-start-proxy/src/auth.rs])

    Tokens, their files, and the comparison in constant time.  SHA-256 and the
    file system are interfaces. *)

From S2P Require Export Streams.

(** [sha2::Sha256::digest]. *)
Class Sha256 := sha256_digest : str -> str.

(** What [std::fs::symlink_metadata] tells of a path, and the file's bytes. *)
Record FileMetadata := mkFileMetadata { is_regular : bool; file_mode : Z; file_len : Z }.
Class TokenFiles := {
  token_metadata : str -> result Streams.io_error FileMetadata;
  token_read : str -> result Streams.io_error str }.

Module Auth.
Import Streams.

(** Maximum supported authentication-token size. *)
Definition MAX_TOKEN_BYTES : nat := 4096.

Inductive AuthTokenError :=
  | Empty
  | TooLong (length : Z) (maximum : nat)
  | Read (path : str) (source : io_error)
  | NotRegular (path : str)
  | InsecurePermissions (path : str) (mode : Z).

(** The bytes of the token. *)
Definition AuthToken := str.

Definition AuthToken_new (bytes : str) : result AuthTokenError AuthToken :=
  err_if (negb (nonempty bytes)) Empty ;;
  err_if (MAX_TOKEN_BYTES <? length bytes)%nat (TooLong (Z.of_nat (length bytes)) MAX_TOKEN_BYTES) ;;
  Ok bytes.

(** [AuthToken::from_file] on Unix; 0x3f is the octal 077, 0x1ff is 777. *)
Definition AuthToken_from_file `{TokenFiles} (path : str) : result AuthTokenError AuthToken :=
  metadata ← map_err (Read path) (token_metadata path);
  err_if (negb (is_regular metadata)) (NotRegular path) ;;
  err_if (negb (Z.land (file_mode metadata) 0x3f =? 0)%Z)
    (InsecurePermissions path (Z.land (file_mode metadata) 0x1ff)) ;;
  err_if (Z.of_nat (MAX_TOKEN_BYTES + 2) <? file_len metadata)%Z (TooLong (file_len metadata) MAX_TOKEN_BYTES) ;;
  bytes ← map_err (Read path) (token_read path);
  AuthToken_new
    (if ends_with CRLF bytes then take (length bytes - 2) bytes
     else if ends_with [LF] bytes then take (length bytes - 1) bytes
     else bytes).

Definition constant_time_eq (left right : str) : bool :=
  (length left =? length right)%nat
  && (foldl (fun difference '(l, r) => Z.lor difference (Z.lxor (code l) (code r))) 0 (zip left right) =? 0)%Z.

(** [AuthToken::matches]. *)
Definition token_matches `{Sha256} (self : AuthToken) (candidate : str) : bool :=
  let expected := sha256_digest self in
  let actual := sha256_digest candidate in
  constant_time_eq expected actual && (length self =? length candidate)%nat.

(** ** The comparison *)

Lemma lor_fold_zero l acc : (0 <= acc)%Z -> Forall (fun '(x, y) => 0 <= Z.lxor (code x) (code y))%Z l ->
  foldl (fun difference '(l, r) => Z.lor difference (Z.lxor (code l) (code r))) acc l = 0%Z <->
  acc = 0%Z /\ Forall (fun '(x, y) => x = y) l.
Proof.
  revert acc. induction l as [|[x y] l IH]; intros acc Hacc Hl; cbn [foldl].
  { split; [by intros ->|by intros []]. }
  apply Forall_cons in Hl as [Hxy Hl]. rewrite IH; [|by apply Z.lor_nonneg|done].
  rewrite Z.lor_eq_0_iff, Z.lxor_eq_0_iff, Forall_cons. split.
  - intros [[-> Hc] Hf]. split; [done|]. split; [by apply code_inj|done].
  - intros [-> [-> Hf]]. done.
Qed.

(** Equality, in time that depends on the lengths only. *)
Lemma constant_time_eq_spec x y : constant_time_eq x y = true <-> x = y.
Proof.
  unfold constant_time_eq. rewrite andb_true_iff, Nat.eqb_eq, Z.eqb_eq. split.
  - intros [Hlen H]. apply lor_fold_zero in H as [_ H]; [|done|].
    + revert y Hlen H. induction x as [|c x IH]; intros [|d y] Hlen H; try done.
      cbn in H. apply Forall_cons in H as [-> H]. f_equal. apply IH; [by injection Hlen|done].
    + apply Forall_forall. intros [c d] _. apply Z.lxor_nonneg. pose proof (code_bounds c). pose proof (code_bounds d). lia.
  - intros ->. split; [done|]. apply lor_fold_zero; [done|..].
    + apply Forall_forall. intros [c d] _. apply Z.lxor_nonneg. pose proof (code_bounds c). pose proof (code_bounds d). lia.
    + split; [done|]. induction y; by constructor.
Qed.

(** A candidate matches when it is the token, or a collision of its length. *)
Lemma token_matches_spec `{Sha256} self candidate :
  token_matches self candidate = true <-> sha256_digest self = sha256_digest candidate /\ length self = length candidate.
Proof. unfold token_matches. by rewrite andb_true_iff, constant_time_eq_spec, Nat.eqb_eq. Qed.

Lemma AuthToken_new_Ok bytes t : AuthToken_new bytes = Ok t <-> t = bytes /\ bytes <> [] /\ (length bytes <= MAX_TOKEN_BYTES)%nat.
Proof.
  unfold AuthToken_new. rewrite !err_if_bind_Ok, Nat.ltb_ge, negb_false_iff.
  assert (nonempty bytes = true <-> bytes <> []) as -> by (destruct bytes; naive_solver). naive_solver.
Qed.
End Auth.
