(* ===== verification/Http.v ===== *)
(** * HTTP heads of the egress proxy ([codex-start-proxy/src/egress.rs], first half)

    Request and response heads, message framing, chunk metadata, and the heads the
    proxy writes in their place.  The error types of the proxies are here too.
    IDNA and the [url] crate are interfaces. *)

From S2P Require Export Allowlist Auth.

(** [url::Url::parse] and the accessors the proxy uses. *)
Record HttpUrl := mkHttpUrl {
  http_scheme : str;
  http_username : str;
  http_password : option str;
  http_fragment : option str;
  http_host_str : option str;
  http_port_or_known_default : option Z;
  http_path : str;
  http_query : option str }.
Class HttpUrlCrate := HttpUrl_parse : str -> result str HttpUrl.

Module Http.
Import IpAddr Allowlist Streams Auth.

(** ** Errors *)

Inductive RelayError :=
  | RelayInvalidConfig (message : str)
  | RelayAccept (source : io_error)
  | RelayConnectTimeout (target : str)
  | RelayConnect (target : str) (source : io_error)
  | RelayUnsupportedTarget (target : str)
  | RelayHandshakeTimeout
  | RelayInvalidHandshake
  | RelayAuthenticationDenied
  | RelayIdleTimeout
  | RelayIo (source : io_error)
  | RelayBindUnix (path : str) (source : io_error)
  | RelayRefuseReplace (path : str)
  | RelayInvalidTargetFile (path : str)
  | RelayTargetFile (path : str) (source : io_error).

Inductive EgressError :=
  | InvalidConfig (message : str)
  | Accept (source : io_error)
  | HeaderTimeout
  | HeaderTooLarge (limit : nat)
  | UnexpectedEof
  | BodyTimeout
  | ChunkMetadataTooLarge (limit : nat)
  | ResponseHeaderTooLarge (limit : nat)
  | UnexpectedUpstreamEof
  | MalformedResponse (message : str)
  | MalformedRequest (message : str)
  | ProxyAuthenticationRequired
  | DestinationDenied (authority : Authority)
  | AddressPolicy (source : AllowlistError)
  | Resolve (target : Authority) (source : io_error)
  | ConnectTimeout (target : Authority)
  | Connect (target : Authority) (source : io_error)
  | Relay (source : RelayError)
  | ResponseTimeout
  | Io (source : io_error).

Definition RelayError_to_string (error : RelayError) : str :=
  match error with
  | RelayInvalidConfig message => "invalid relay configuration: " ++ message
  | RelayAccept source => "failed to accept relay connection: " ++ source
  | RelayConnectTimeout target => "timed out connecting to " ++ target
  | RelayConnect target source => "failed to connect to " ++ target ++ ": " ++ source
  | RelayUnsupportedTarget target => "Unix relay target `" ++ target ++ "` is unsupported on Windows"
  | RelayHandshakeTimeout => "relay authentication timed out"
  | RelayInvalidHandshake => "invalid relay handshake"
  | RelayAuthenticationDenied => "relay authentication denied"
  | RelayIdleTimeout => "relay was idle for too long"
  | RelayIo source => "relay I/O failed: " ++ source
  | RelayBindUnix path source => "failed to bind Unix socket " ++ from_utf8_lossy path ++ ": " ++ source
  | RelayRefuseReplace path => "refusing to replace non-socket path " ++ from_utf8_lossy path
  | RelayInvalidTargetFile path => "invalid dynamic Unix relay target file " ++ from_utf8_lossy path
  | RelayTargetFile path source =>
      "failed to read dynamic Unix relay target file " ++ from_utf8_lossy path ++ ": " ++ source
  end.

Definition EgressError_to_string (error : EgressError) : str :=
  match error with
  | InvalidConfig message => "invalid egress configuration: " ++ message
  | Accept source => "failed to accept egress connection: " ++ source
  | HeaderTimeout => "proxy request header timed out"
  | HeaderTooLarge limit => "proxy request header exceeded " ++ dec (Z.of_nat limit) ++ " bytes"
  | UnexpectedEof => "client closed before sending a complete request"
  | BodyTimeout => "request body transfer timed out"
  | ChunkMetadataTooLarge limit => "chunk metadata exceeded " ++ dec (Z.of_nat limit) ++ " bytes"
  | ResponseHeaderTooLarge limit => "upstream response header exceeded " ++ dec (Z.of_nat limit) ++ " bytes"
  | UnexpectedUpstreamEof => "upstream closed before sending a complete response"
  | MalformedResponse message => "malformed upstream response: " ++ message
  | MalformedRequest message => "malformed proxy request: " ++ message
  | ProxyAuthenticationRequired => "proxy authentication required"
  | DestinationDenied authority => "destination denied by allow-list: " ++ display_with_port authority
  | AddressPolicy source => "destination address denied: " ++ AllowlistError_to_string source
  | Resolve target source => "failed to resolve " ++ display_with_port target ++ ": " ++ source
  | ConnectTimeout target => "connection to " ++ display_with_port target ++ " timed out"
  | Connect target source => "failed to connect to " ++ display_with_port target ++ ": " ++ source
  | Relay source => "egress relay failed: " ++ RelayError_to_string source
  | ResponseTimeout => "upstream response transfer timed out"
  | Io source => "egress I/O failed: " ++ source
  end.

(** ** Heads *)

Inductive MessageFraming :=
  | FramingNone
  | ContentLength (length : Z)
  | Chunked.
#[export] Instance MessageFraming_eq_dec : EqDecision MessageFraming.
Proof. solve_decision. Defined.
#[export] Instance Authority_eq_dec : EqDecision Authority.
Proof. solve_decision. Defined.

Record Header := mkHeader { header_name : str; header_value : str }.

Inductive RequestTarget :=
  | TargetConnect (authority : Authority)
  | TargetForward (authority : Authority) (path : str).

Record ParsedRequest := mkParsedRequest {
  method : str;
  version : str;
  target : RequestTarget;
  headers : list Header;
  framing : MessageFraming;
  origin_form : bool }.

(** [bytes.windows(4).position(..).map(|index| index + 4)]: the head with its
    delimiter and what follows it. *)
Definition HEADER_END : str := CRLF ++ CRLF.
Definition find_header_end (bytes : str) : option nat :=
  '(head, _) ← split_once_str HEADER_END bytes; Some (length head + 4)%nat.

Definition is_http_token_byte (byte : ascii) : bool :=
  is_alphanumeric byte || existsb (is_byte byte) ("!#$%&'*+-.^_`|~" : str).

Definition named (name : str) (header : Header) : bool := header_name header =s? name.

Definition validate_framing (headers : list Header) : result EgressError MessageFraming :=
  let content_lengths := List.filter (named "content-length") headers in
  let transfer_encodings := List.filter (named "transfer-encoding") headers in
  err_if ((1 <? length content_lengths)%nat || (1 <? length transfer_encodings)%nat)
    (MalformedRequest "duplicate message-framing header") ;;
  err_if (nonempty content_lengths && nonempty transfer_encodings)
    (MalformedRequest "both Content-Length and Transfer-Encoding are present") ;;
  match content_lengths, transfer_encodings with
  | header :: _, _ =>
      err_if (negb (nonempty (header_value header)) || negb (forallb is_digit (header_value header)))
        (MalformedRequest "invalid Content-Length") ;;
      length ← ok_or (if utf8_valid (header_value header) then parse_u64 (header_value header) else None)
                 (MalformedRequest "Content-Length overflow");
      Ok (ContentLength length)
  | [], header :: _ =>
      err_if (negb (eq_ignore_ascii_case (header_value header) "chunked"))
        (MalformedRequest "unsupported Transfer-Encoding") ;;
      Ok Chunked
  | [], [] => Ok FramingNone
  end.

Definition unique_header (headers : list Header) (name : str) : result EgressError (option str) :=
  match List.filter (named name) headers with
  | _ :: _ :: _ => Err (MalformedRequest ("duplicate " ++ name ++ " header"))
  | [header] =>
      if utf8_valid (header_value header) then Ok (Some (header_value header))
      else Err (MalformedRequest ("non-UTF-8 " ++ name ++ " header"))
  | [] => Ok None
  end.

Fixpoint windows2_any (p : ascii -> ascii -> bool) (bytes : str) : bool :=
  match bytes with
  | first :: (second :: _) as rest => p first second || windows2_any p rest
  | _ => false
  end.
Definition bare_lf (bytes : str) : bool :=
  windows2_any (fun first second => is_byte LF second && negb (is_byte CR first)) bytes.

(** The loops over header lines of requests and responses differ in their errors. *)
Record HeaderErrors := mkHeaderErrors {
  folded : EgressError;
  without_colon : EgressError;
  invalid_name : EgressError;
  invalid_value : EgressError }.
Definition request_header_errors : HeaderErrors :=
  mkHeaderErrors (MalformedRequest "obsolete folded header") (MalformedRequest "header without colon")
    (MalformedRequest "invalid HTTP header name") (MalformedRequest "invalid control byte in header value").
Definition response_header_errors : HeaderErrors :=
  mkHeaderErrors (MalformedResponse "obsolete folded header") (MalformedResponse "response header without colon")
    (MalformedResponse "invalid response header name")
    (MalformedResponse "invalid control byte in response header value").

Definition is_blank_byte (byte : ascii) : bool := is_byte " " byte || is_byte TAB byte.

Definition parse_header_line (errors : HeaderErrors) (line : str) : result EgressError Header :=
  err_if (match line with byte :: _ => is_blank_byte byte | [] => false end) (folded errors) ;;
  '(name, value) ← ok_or (split_once ":" line) (without_colon errors);
  err_if (negb (nonempty name) || negb (forallb is_http_token_byte name)) (invalid_name errors) ;;
  let value := trim_matches is_blank_byte value in
  err_if (existsb (fun byte => is_ascii_control byte && negb (is_byte TAB byte)) value) (invalid_value errors) ;;
  Ok (mkHeader (to_ascii_lowercase name) value).

Fixpoint parse_header_lines (errors : HeaderErrors) (lines : list str) : result EgressError (list Header) :=
  match lines with
  | [] => Ok []
  | [] :: lines => parse_header_lines errors lines
  | line :: lines =>
      header ← parse_header_line errors line;
      headers ← parse_header_lines errors lines;
      Ok (header :: headers)
  end.

(** [text.strip_suffix(..).unwrap_or(text).split(..)]: the first line and the others. *)
Definition head_lines (text : str) : str * list str :=
  match split_str CRLF (default text (strip_suffix HEADER_END text)) with
  | line :: lines => (line, lines)
  | [] => ([], [])
  end.

Section requests.
Context {I : Idna} {U : HttpUrlCrate}.

(** The [?] on an allow-list error: [#[from]]. *)
Definition authority_of (input : str) (default_port : option Z) : result EgressError Authority :=
  map_err AddressPolicy (Authority_parse input default_port).

Definition parse_request_target (method raw_target : str) (host_header : option str)
    : result EgressError RequestTarget :=
  if eq_ignore_ascii_case method "CONNECT" then
    authority ← authority_of raw_target None;
    match host_header with
    | Some host =>
        host ← authority_of host (Some (auth_port authority));
        err_if (negb (bool_decide (host = authority))) (MalformedRequest "CONNECT target and Host header disagree")
    | None => Ok tt
    end ;;
    Ok (TargetConnect authority)
  else if starts_with "http://" raw_target || starts_with "https://" raw_target then
    url ← map_err (fun error => MalformedRequest ("invalid proxy URL: " ++ error)) (HttpUrl_parse raw_target);
    err_if (negb (http_scheme url =s? "http"))
      (MalformedRequest "absolute-form forwarding supports only http; use CONNECT for TLS") ;;
    err_if (nonempty (http_username url) || bool_decide (is_Some (http_password url))
            || bool_decide (is_Some (http_fragment url)))
      (MalformedRequest "credentials and fragments are forbidden in proxy URLs") ;;
    host ← ok_or (http_host_str url) (MalformedRequest "proxy URL has no host");
    host ← map_err AddressPolicy (NormalizedHost_parse host);
    port ← ok_or (http_port_or_known_default url) (MalformedRequest "proxy URL has no target port");
    let authority := mkAuthority host port in
    match host_header with
    | Some host =>
        host ← authority_of host (Some 80%Z);
        err_if (negb (bool_decide (host = authority))) (MalformedRequest "proxy URL and Host header disagree")
    | None => Err (MalformedRequest "HTTP request is missing Host header")
    end ;;
    let path := if nonempty (http_path url) then http_path url else "/" in
    let path := match http_query url with Some query => path ++ "?" ++ query | None => path end in
    Ok (TargetForward authority path)
  else
    err_if (negb (starts_with "/" raw_target) && negb (raw_target =s? "*"))
      (MalformedRequest "request target must be absolute-form or origin-form") ;;
    host ← ok_or host_header (MalformedRequest "HTTP request is missing Host header");
    authority ← authority_of host (Some 80%Z);
    Ok (TargetForward authority raw_target).

Definition is_connect (target : RequestTarget) : bool :=
  match target with TargetConnect _ => true | TargetForward _ _ => false end.

(** [ParsedRequest::parse]; the head it is given ends with the delimiter, so the
    slice in the check for a bare line feed is on a character boundary. *)
Definition ParsedRequest_parse (bytes : str) : result EgressError ParsedRequest :=
  err_if (contains_byte NUL bytes) (MalformedRequest "NUL byte in request") ;;
  err_if (negb (utf8_valid bytes)) (MalformedRequest "request head is not UTF-8") ;;
  err_if (contains_byte LF (take (length bytes - 2) bytes) && bare_lf bytes) (MalformedRequest "bare LF in request head") ;;
  let '(request_line, lines) := head_lines bytes in
  let request_parts := split " " request_line in
  let method := default [] (request_parts !! 0) in
  let raw_target := default [] (request_parts !! 1) in
  let version := default [] (request_parts !! 2) in
  err_if (negb (nonempty method) || negb (nonempty raw_target)
          || negb (one_of version ["HTTP/1.0"; "HTTP/1.1"])
          || bool_decide (is_Some (request_parts !! 3))
          || negb (forallb is_http_token_byte method))
    (MalformedRequest "invalid HTTP request line") ;;
  headers ← parse_header_lines request_header_errors lines;
  framing ← validate_framing headers;
  err_if (existsb (named "expect") headers)
    (MalformedRequest "Expect requests are not supported by the one-request proxy") ;;
  err_if ((version =s? "HTTP/1.0") && bool_decide (framing = Chunked))
    (MalformedRequest "chunked request bodies require HTTP/1.1") ;;
  host_header ← unique_header headers "host";
  target ← parse_request_target method raw_target host_header;
  err_if (is_connect target && negb (bool_decide (framing = FramingNone)))
    (MalformedRequest "CONNECT requests must not carry a message body") ;;
  Ok (mkParsedRequest method version target headers framing
        (starts_with "/" raw_target || (raw_target =s? "*"))).

Definition authority (self : ParsedRequest) : Authority :=
  match target self with TargetConnect authority => authority | TargetForward authority _ => authority end.

Definition is_health_check (self : ParsedRequest) : bool :=
  (method self =s? "GET") && origin_form self
  && match target self with TargetForward _ path => path =s? "/healthz" | TargetConnect _ => false end.

Definition validate_buffered_prefix (self : ParsedRequest) (bytes : str) : result EgressError unit :=
  if is_connect (target self) then Ok tt
  else
    let exceeds_frame :=
      match framing self with
      | FramingNone => nonempty bytes
      | ContentLength length => (length <? Z.of_nat (List.length bytes))%Z
      | Chunked => false
      end in
    err_if exceeds_frame (MalformedRequest "bytes after the declared request body are forbidden").

Definition is_authorized `{Sha256} (self : ParsedRequest) (expected : option AuthToken) : bool :=
  match expected with
  | None => true
  | Some expected =>
      match unique_header (headers self) "proxy-authorization" with
      | Ok (Some value) =>
          match split_once " " value with
          | Some (scheme, candidate) => eq_ignore_ascii_case scheme "bearer" && token_matches expected candidate
          | None => false
          end
      | _ => false
      end
  end.
End requests.

Definition trim_ascii (bytes : str) : str := trim_end_by is_ascii_whitespace (trim_start_by is_ascii_whitespace bytes).

(** The names a [Connection] header lists. *)
Definition connection_headers (headers : list Header) : list str :=
  map (fun value => to_ascii_lowercase (from_utf8_lossy (trim_ascii value)))
    (flat_map (fun header => split "," (header_value header)) (List.filter (named "connection") headers)).

Definition header_line (header : Header) : str := header_name header ++ ": " ++ header_value header ++ CRLF.

Definition keeps (hop_by_hop : list string) (headers : list Header) (header : Header) : bool :=
  negb (one_of (header_name header) hop_by_hop || bool_decide (header_name header ∈ connection_headers headers)).

Definition request_hop_by_hop : list string :=
  ["host"; "connection"; "proxy-connection"; "proxy-authorization"; "keep-alive"; "upgrade"].

(** [ParsedRequest::forward_head]. *)
Definition request_forward_head (self : ParsedRequest) (path : str) : str :=
  (method self ++ " " ++ path ++ " " ++ version self ++ CRLF)
  ++ ("Host: " ++ display_with_port (authority self) ++ CRLF)
  ++ concat (map header_line (List.filter (keeps request_hop_by_hop (headers self)) (headers self)))
  ++ ("Connection: close" ++ CRLF ++ CRLF).

(** ** Responses *)

Inductive ResponseFraming :=
  | ResponseNone
  | ResponseContentLength (length : Z)
  | ResponseChunked
  | CloseDelimited.

Record ParsedResponse := mkParsedResponse {
  response_version : str;
  status : Z;
  reason : str;
  response_headers : list Header;
  message_framing : MessageFraming }.

(** [status_line.splitn(3, ' ')] with [unwrap_or_default]. *)
Definition splitn3 (line : str) : str * str * str :=
  match split_once " " line with
  | None => (line, [], [])
  | Some (first, rest) =>
      match split_once " " rest with
      | None => (first, rest, [])
      | Some (second, third) => (first, second, third)
      end
  end.

Definition ParsedResponse_parse (bytes : str) : result EgressError ParsedResponse :=
  err_if (contains_byte NUL bytes) (MalformedResponse "NUL byte in response") ;;
  err_if (negb (utf8_valid bytes)) (MalformedResponse "response head is not UTF-8") ;;
  err_if (match bytes with byte :: _ => is_byte LF byte | [] => false end || bare_lf bytes)
    (MalformedResponse "bare LF in response head") ;;
  let '(status_line, lines) := head_lines bytes in
  let '(version, status, reason) := splitn3 status_line in
  err_if (negb (one_of version ["HTTP/1.0"; "HTTP/1.1"]) || negb (length status =? 3)%nat
          || negb (forallb is_digit status) || existsb is_ascii_control reason)
    (MalformedResponse "invalid HTTP status line") ;;
  status ← ok_or (parse_u16 status) (MalformedResponse "invalid HTTP status");
  err_if (negb ((100 <=? status) && (status <=? 599)))%Z (MalformedResponse "HTTP status is out of range") ;;
  headers ← parse_header_lines response_header_errors lines;
  message_framing ← map_err (fun error => MalformedResponse (EgressError_to_string error)) (validate_framing headers);
  err_if ((((100 <=? status) && (status <? 200)) || (status =? 204))%Z
          && negb (bool_decide (message_framing = FramingNone)))
    (MalformedResponse "bodyless response has a message-framing header") ;;
  Ok (mkParsedResponse version status reason headers message_framing).

Definition is_informational (self : ParsedResponse) : bool := ((100 <=? status self) && (status self <? 200))%Z.

Definition response_framing (self : ParsedResponse) (request_method : str) : ResponseFraming :=
  if is_informational self || eq_ignore_ascii_case request_method "HEAD"
     || (status self =? 204)%Z || (status self =? 304)%Z
  then ResponseNone
  else match message_framing self with
       | FramingNone => CloseDelimited
       | ContentLength length => ResponseContentLength length
       | Chunked => ResponseChunked
       end.

Definition response_hop_by_hop : list string :=
  ["connection"; "keep-alive"; "proxy-authenticate"; "proxy-authorization"; "proxy-connection"; "upgrade"].

(** [ParsedResponse::forward_head]. *)
Definition response_forward_head (self : ParsedResponse) (final_response : bool) : str :=
  (response_version self ++ " " ++ dec (status self) ++ " " ++ reason self ++ CRLF)
  ++ concat (map header_line (List.filter (keeps response_hop_by_hop (response_headers self)) (response_headers self)))
  ++ (if final_response then "Connection: close" ++ CRLF else [])
  ++ CRLF.

(** ** Chunk metadata *)

(** The closure of [try_fold]: [checked_mul] and [checked_add]. *)
Definition chunk_step (size : result EgressError Z) (byte : ascii) : result EgressError Z :=
  size ← size;
  let digit := default 0%Z (to_digit 16 byte) in
  let value := (size * 16)%Z in
  err_if (U64_MAX <? value)%Z (MalformedRequest "chunk size overflow") ;;
  err_if (U64_MAX <? value + digit)%Z (MalformedRequest "chunk size overflow") ;;
  Ok (value + digit)%Z.

Definition parse_chunk_size (line : str) : result EgressError Z :=
  value ← ok_or (strip_suffix CRLF line) (MalformedRequest "chunk-size line is not CRLF terminated");
  err_if (existsb (fun byte => negb (in_range 0x20 0x7e byte)) value) (MalformedRequest "invalid byte in chunk-size line") ;;
  let '(digits, extension) :=
    match split_once ";" value with
    | Some (digits, extension) => (digits, Some extension)
    | None => (value, None)
    end in
  err_if (negb (nonempty digits) || negb (forallb is_hexdigit digits)
          || is_some_and extension (fun extension => negb (nonempty extension)))
    (MalformedRequest "invalid chunk size") ;;
  foldl chunk_step (Ok 0%Z) digits.

Definition forbidden_trailers : list string :=
  ["connection"; "content-length"; "host"; "proxy-authorization"; "proxy-connection"; "te"; "trailer";
   "transfer-encoding"; "upgrade"].

Definition validate_trailer_line (line : str) : result EgressError unit :=
  value ← ok_or (strip_suffix CRLF line) (MalformedRequest "trailer line is not CRLF terminated");
  '(name, rest) ← ok_or (split_once ":" value) (MalformedRequest "trailer field has no colon");
  err_if (negb (nonempty name) || negb (forallb is_http_token_byte name))
    (MalformedRequest "invalid trailer field name") ;;
  err_if (existsb (fun byte => is_ascii_control byte && negb (is_byte TAB byte)) rest)
    (MalformedRequest "invalid trailer field value") ;;
  let name := to_ascii_lowercase (from_utf8_lossy name) in
  err_if (one_of name forbidden_trailers) (MalformedRequest ("forbidden trailer field " ++ name)).

(** ** Chunk sizes *)

Definition hex_value (digits : str) : Z := foldl (fun acc byte => acc * 16 + default 0 (to_digit 16 byte))%Z 0%Z digits.
Definition printable (byte : ascii) : bool := in_range 0x20 0x7e byte.

(** The extension of a chunk-size line: absent, or a semicolon and something printable. *)
Definition chunk_extension (ext : str) : Prop :=
  ext = [] \/ exists e, ext = ";"%char :: e /\ e <> [] /\ Forall (fun byte => printable byte = true) e.

Lemma default_digit_nonneg radix byte : (0 <= default 0 (to_digit radix byte))%Z.
Proof. destruct (to_digit radix byte) eqn:E; cbn; [by eapply to_digit_bounds|lia]. Qed.

Lemma chunk_step_Ok r byte n : chunk_step r byte = Ok n <->
  exists v, r = Ok v /\ (v * 16 <= U64_MAX)%Z /\ n = (v * 16 + default 0 (to_digit 16 byte))%Z /\ (n <= U64_MAX)%Z.
Proof.
  unfold chunk_step. rewrite bind_Ok. f_equiv; intros v. f_equiv. cbv zeta.
  rewrite !err_if_bind_Ok, !Z.ltb_ge. split; [intros (? & ? & [= <-])|intros (? & -> & ?)]; done.
Qed.

Lemma chunk_fold_Ok digits n : foldl chunk_step (Ok 0%Z) digits = Ok n <-> n = hex_value digits /\ (n <= U64_MAX)%Z.
Proof.
  revert n. induction digits as [|c s IH] using rev_ind; intros n.
  { cbn. split; [by intros [= <-]|by intros [-> _]]. }
  unfold hex_value in *. rewrite !foldl_snoc. rewrite chunk_step_Ok. setoid_rewrite IH.
  pose proof (default_digit_nonneg 16 c) as Hd. split.
  - intros (v & [-> ?] & ? & -> & ?). done.
  - intros [-> Hn]. eexists. split_and!; try reflexivity; unfold U64_MAX in *; lia.
Qed.

Lemma hex_value_nonneg digits : (0 <= hex_value digits)%Z.
Proof.
  induction digits as [|c s IH] using rev_ind; [done|]. unfold hex_value in *. rewrite foldl_snoc.
  pose proof (default_digit_nonneg 16 c). lia.
Qed.

Lemma chunk_size_nonneg line n : parse_chunk_size line = Ok n -> (0 <= n)%Z.
Proof.
  unfold parse_chunk_size. intros (value & _ & H)%bind_Ok. apply err_if_bind_Ok in H as [_ H].
  destruct (match split_once ";" value with Some _ => _ | None => _ end) as [digits extension].
  apply err_if_bind_Ok in H as [_ H]. apply chunk_fold_Ok in H as [-> _]. apply hex_value_nonneg.
Qed.

Lemma hexdigit_printable byte : is_hexdigit byte = true -> printable byte = true /\ byte <> ";"%char.
Proof. destruct byte as [[] [] [] [] [] [] [] []]; vm_compute; try done; intros; split; congruence. Qed.

(** C10: the proxy reads a chunk-size line exactly as the grammar has it, and the
    value of its hexadecimal digits, which fits 64 bits: anything else is refused. *)
Theorem chunk_size_exact line n :
  parse_chunk_size line = Ok n <->
  exists digits ext, line = digits ++ ext ++ CRLF /\ digits <> [] /\
    Forall (fun byte => is_hexdigit byte = true) digits /\ chunk_extension ext /\
    n = hex_value digits /\ (n <= U64_MAX)%Z.
Proof.
  unfold parse_chunk_size. rewrite bind_Ok. setoid_rewrite ok_or_Ok. setoid_rewrite strip_suffix_Some.
  setoid_rewrite err_if_bind_Ok. setoid_rewrite existsb_false. split.
  - intros (value & -> & Hprint & H).
    destruct (split_once ";" value) as [[digits e]|] eqn:Es; cbn [is_some_and] in H;
      apply err_if_bind_Ok in H as [Hb H]; apply chunk_fold_Ok in H as [-> Hn]; bool_split.
    + apply split_once_Some in Es as [-> _].
      exists digits, (";"%char :: e). rewrite forallb_Forall in *. apply Forall_app in Hprint as [_ Hp].
      apply Forall_cons in Hp as [_ Hp]. split_and!; [by rewrite <- app_assoc|by destruct digits|done| |done|done].
      right. exists e. split_and!; [done|by destruct e|]. eapply Forall_impl; [exact Hp|]. intros byte. by rewrite negb_false_iff.
    + exists value, []. rewrite forallb_Forall in *. split_and!; [done|by destruct value|done|by left|done|done].
  - intros (digits & ext & -> & Hne & Hhex & Hext & -> & Hn). exists (digits ++ ext).
    assert (Hsemi : ";"%char ∉ digits).
    { intros Hin. rewrite Forall_forall in Hhex. by apply Hhex, hexdigit_printable in Hin as [_ ?]. }
    assert (Hd : Forall (fun byte => printable byte = true) digits)
      by (eapply Forall_impl; [exact Hhex|]; intros byte Hb; by apply hexdigit_printable in Hb as [? _]).
    split; [by rewrite app_assoc|]. rewrite <- forallb_Forall in Hhex.
    assert (Hnil : nonempty digits = true) by by destruct digits.
    destruct Hext as [->|(e & -> & He & Hp)].
    + rewrite app_nil_r, (proj2 (split_once_None _ _) Hsemi). split.
      { eapply Forall_impl; [exact Hd|]. intros byte. apply negb_false_iff. }
      rewrite err_if_bind_Ok, chunk_fold_Ok, Hnil, Hhex. done.
    + rewrite (proj2 (split_once_Some ";" (digits ++ ";"%char :: e) digits e) (conj eq_refl Hsemi)). split.
      { apply Forall_app; split; [|constructor; [done|]]; (eapply Forall_impl; [eassumption|]); intros byte; apply negb_false_iff. }
      rewrite err_if_bind_Ok, chunk_fold_Ok, Hnil, Hhex. by destruct e.
Qed.

(** ** Framing *)

(** The values of the fields with a name. *)
Definition values (name : str) (headers : list Header) : list str :=
  map header_value (List.filter (named name) headers).

Lemma all_digits_utf8 v : all_digits v = true -> utf8_valid v = true.
Proof.
  intros [_ H]%all_digits_spec. apply utf8_valid_ascii. eapply Forall_impl; [exact H|].
  intros c. unfold is_digit, is_ascii. rewrite in_range_spec, Z.ltb_lt. lia.
Qed.

(** A message has one reading of its length or is refused: no framing field,
    one decimal [Content-Length] of 64 bits, or one [Transfer-Encoding: chunked];
    two framing fields of any kind never pass. *)
Theorem framing_exact headers f :
  validate_framing headers = Ok f <->
  match f with
  | FramingNone => values "content-length" headers = [] /\ values "transfer-encoding" headers = []
  | ContentLength n =>
      exists v, values "content-length" headers = [v] /\ values "transfer-encoding" headers = [] /\
        all_digits v = true /\ n = dec_value v /\ (n <= U64_MAX)%Z
  | Chunked =>
      exists v, values "content-length" headers = [] /\ values "transfer-encoding" headers = [v] /\
        to_ascii_lowercase v = "chunked"
  end.
Proof.
  unfold validate_framing, values.
  generalize (List.filter (named "content-length") headers) as cl.
  generalize (List.filter (named "transfer-encoding") headers) as te. intros te cl.
  rewrite !err_if_bind_Ok.
  destruct cl as [|h [|h2 cl]], te as [|h' [|h2' te]]; cbn [length nonempty map andb];
    try (destruct f; cbn; naive_solver).
  - cbn [Nat.ltb Nat.leb orb]. rewrite err_if_bind_Ok. unfold eq_ignore_ascii_case. destruct f.
    + split; [intros (_ & _ & _ & [=])|naive_solver].
    + split; [intros (_ & _ & _ & [=])|naive_solver].
    + change (to_ascii_lowercase "chunked") with ("chunked" : str). rewrite negb_false_iff, str_eqb_eq. naive_solver.
  - cbn [Nat.ltb Nat.leb orb]. rewrite err_if_bind_Ok, bind_Ok. setoid_rewrite ok_or_Ok.
    rewrite orb_false_iff, !negb_false_iff, <- andb_true_iff. fold (all_digits (header_value h)).
    destruct f; [naive_solver| |naive_solver]. split.
    + intros (_ & _ & Hd & n & Hn & [= <-]). rewrite (all_digits_utf8 _ Hd) in Hn. unfold parse_u64 in Hn.
      exists (header_value h). pose proof (parse_uint_bounds _ _ _ Hn) as Hb. rewrite parse_uint_digits in Hn by done.
      split_and!; [done..| |lia]. by destruct (dec_value (header_value h) <=? U64_MAX)%Z; simplify_eq.
    + intros (v & [= ->] & _ & Hd & -> & Hle). split_and!; [done..|]. exists (dec_value v). split; [|done].
      rewrite (all_digits_utf8 _ Hd). unfold parse_u64. rewrite parse_uint_digits by done.
      by rewrite (proj2 (Z.leb_le _ _) Hle).
Qed.

(** ** Lines of a head *)

Definition lf_free (line : str) : Prop := LF ∉ line.

(** Every line feed follows a carriage return. *)
Definition lf_after_cr (s : str) : Prop := forall a b, s = a ++ LF :: b -> exists a', a = a' ++ [CR].

Lemma split_once_crlf w rest : lf_free w -> split_once_str CRLF (w ++ CRLF ++ rest) = Some (w, rest).
Proof.
  unfold lf_free. induction w as [|c w IH]; intros H; [done|]. apply not_elem_of_cons in H as [Hc Hw].
  specialize (IH Hw). cbn [app split_once_str].
  assert (strip_prefix CRLF (c :: w ++ CRLF ++ rest) = None) as ->.
  { cbn. destruct (bool_decide_reflect (CR = c)); [|done]. destruct w as [|d w]; [done|].
    apply not_elem_of_cons in Hw as [Hd _]. cbn. by rewrite bool_decide_eq_false_2. }
  by rewrite IH.
Qed.

Lemma split_once_crlf_none w : lf_free w -> split_once_str CRLF w = None.
Proof.
  intros H. destruct (split_once_str CRLF w) as [[a b]|] eqn:E; [|done].
  apply split_once_str_sound in E as ->. exfalso. apply H. set_solver.
Qed.

Lemma split_str_fuel_join fuel ws : ws <> [] -> Forall lf_free ws -> (length ws <= S fuel)%nat ->
  split_str_fuel fuel CRLF (join CRLF ws) = ws.
Proof.
  revert fuel. induction ws as [|w ws IH]; intros fuel Hne Hws Hlen; [done|]. apply Forall_cons in Hws as [Hw Hws].
  destruct ws as [|w2 ws].
  - cbn [join]. destruct fuel; [done|]. cbn [split_str_fuel]. by rewrite split_once_crlf_none.
  - destruct fuel; [cbn in Hlen; lia|]. rewrite join_cons_cons by done. cbn [split_str_fuel].
    rewrite split_once_crlf by done. rewrite IH; [done..|cbn in *; lia].
Qed.

Lemma length_join_crlf ws : (length ws <= S (length (join CRLF ws)))%nat.
Proof.
  induction ws as [|w [|w2 ws] IH]; [cbn; lia..|]. rewrite join_cons_cons by done. rewrite !length_app. cbn [length] in *. 
  change (length CRLF) with 2%nat. lia.
Qed.

Lemma split_str_join ws : ws <> [] -> Forall lf_free ws -> split_str CRLF (join CRLF ws) = ws.
Proof. intros. apply split_str_fuel_join; [done..|]. apply length_join_crlf. Qed.

Lemma first_lf s : LF ∈ s -> lf_after_cr s -> exists x y, s = x ++ CRLF ++ y /\ lf_free x.
Proof.
  intros (x & y & -> & Hx)%list_elem_of_split_l Hs. destruct (Hs x y eq_refl) as [x' ->].
  exists x', y. split; [by rewrite <- app_assoc|]. unfold lf_free. set_solver.
Qed.

Lemma lf_after_cr_piece s a b : split_once_str CRLF s = Some (a, b) -> lf_after_cr s -> lf_free a /\ lf_after_cr b.
Proof.
  intros Hsp Hs. pose proof (split_once_str_sound _ _ _ _ Hsp) as E. subst s. split.
  - destruct (first_lf (a ++ CRLF ++ b)) as (x & y & E & Hx); [set_solver|done|].
    rewrite E, split_once_crlf in Hsp by done. by simplify_eq.
  - intros u v ->. destruct (Hs (a ++ CRLF ++ u) v) as [w Hw]; [by rewrite <- !app_assoc|].
    destruct u as [|c u _] using rev_ind.
    + rewrite app_nil_r in Hw. change CRLF with ([CR] ++ [LF]) in Hw. rewrite app_assoc in Hw.
      by apply app_inj_tail in Hw as [_ ?].
    + rewrite !app_assoc in Hw. apply app_inj_tail in Hw as [_ ->]. by eexists.
Qed.

Lemma lf_after_cr_none s : split_once_str CRLF s = None -> lf_after_cr s -> lf_free s.
Proof.
  intros Hsp Hs Hin. destruct (first_lf s Hin Hs) as (x & y & -> & Hx). by rewrite split_once_crlf in Hsp.
Qed.

Lemma split_str_fuel_lf_free fuel s : (length s <= fuel)%nat -> lf_after_cr s ->
  Forall lf_free (split_str_fuel fuel CRLF s).
Proof.
  revert s. induction fuel as [|fuel IH]; intros s Hlen Hs; cbn [split_str_fuel].
  - destruct s; [|cbn in Hlen; lia]. constructor; [apply not_elem_of_nil|constructor].
  - destruct (split_once_str CRLF s) as [[a b]|] eqn:E.
    + destruct (lf_after_cr_piece _ _ _ E Hs) as [Ha Hb]. constructor; [done|]. apply IH; [|done].
      apply split_once_str_sound in E as ->. rewrite !length_app in Hlen. change (length CRLF) with 2%nat in Hlen. lia.
    + constructor; [by apply lf_after_cr_none|constructor].
Qed.

Lemma bare_lf_false s : bare_lf s = false -> forall a b, s = a ++ LF :: b -> a = [] \/ exists a', a = a' ++ [CR].
Proof.
  unfold bare_lf. intros H a b ->. destruct a as [|c a _] using rev_ind; [by left|right].
  assert (Hc : c = CR); [|by subst; eexists]. revert H. rewrite <- app_assoc. cbn [app].
  induction a as [|d a IH]; cbn [app].
  - cbn [windows2_any]. rewrite orb_false_iff, andb_false_iff, negb_false_iff, is_byte_true, is_byte_false. naive_solver.
  - intros H. apply IH. destruct (a ++ c :: LF :: b) eqn:E; [by destruct a|]. cbn [windows2_any] in H.
    by apply orb_false_iff in H as [_ H].
Qed.

(** The check of [ParsedRequest::parse] on a head with its delimiter. *)
Lemma head_no_bare_lf pre : let bytes := pre ++ HEADER_END in
  contains_byte LF (take (length bytes - 2) bytes) && bare_lf bytes = false -> bare_lf bytes = false.
Proof.
  intros bytes [H|H]%andb_false_iff; [exfalso|done]. apply contains_byte_false in H. apply H. unfold bytes, HEADER_END.
  rewrite (app_assoc pre CRLF CRLF). rewrite length_app. change (length CRLF) with 2%nat.
  rewrite Nat.add_sub. rewrite take_app_length. unfold CRLF. set_solver.
Qed.

Lemma lf_after_cr_prefix s t : lf_after_cr (s ++ t) -> lf_after_cr s.
Proof. intros H a b ->. apply (H a (b ++ t)). by rewrite <- app_assoc. Qed.

(** The lines of a head that does not begin with a line feed. *)
Lemma head_lines_lf_free pre line lines : bare_lf (pre ++ HEADER_END) = false ->
  head_lines (pre ++ HEADER_END) = (line, lines) ->
  (exists rest, line = LF :: rest) \/ (lf_free line /\ Forall lf_free lines).
Proof.
  intros Hb Hl. unfold head_lines in Hl.
  rewrite (proj2 (strip_suffix_Some HEADER_END (pre ++ HEADER_END) pre) eq_refl) in Hl. cbn [default] in Hl. unfold id in Hl.
  pose proof (bare_lf_false _ Hb) as HP. destruct pre as [|c pre].
  { right. vm_compute in Hl. simplify_eq. split; [apply not_elem_of_nil|done]. }
  destruct (decide (c = LF)) as [->|Hc].
  - left. unfold split_str in Hl. cbn in Hl.
    rewrite (bool_decide_eq_false_2 (CR = LF)) in Hl by done.
    destruct (split_once_str CRLF pre) as [[x y]|]; cbn [mbind option_bind] in Hl; simplify_eq; eauto.
  - right. assert (Hs : lf_after_cr (c :: pre)).
    { apply (lf_after_cr_prefix _ HEADER_END). intros a b E. destruct (HP a b E) as [->|?]; [|done].
      by cbn in E; simplify_eq. }
    pose proof (split_str_fuel_lf_free (length (c :: pre)) _ (le_n _) Hs) as HF. fold (split_str CRLF (c :: pre)) in HF.
    destruct (split_str CRLF (c :: pre)); simplify_eq; [|by rewrite Forall_cons in HF].
    split; [apply not_elem_of_nil|done].
Qed.

(** ** Header fields *)

Definition value_byte (byte : ascii) : bool := negb (is_ascii_control byte && negb (is_byte TAB byte)).

(** A field as the parser leaves it. *)
Record good_header (h : Header) : Prop := {
  good_name_nonempty : header_name h <> [];
  good_name_token : forallb is_http_token_byte (header_name h) = true;
  good_name_lower : to_ascii_lowercase (header_name h) = header_name h;
  good_value_trimmed : trim_matches is_blank_byte (header_value h) = header_value h;
  good_value_bytes : forallb value_byte (header_value h) = true }.

Lemma token_byte byte : is_http_token_byte byte = true ->
  byte <> LF /\ byte <> CR /\ byte <> ":"%char /\ byte <> " "%char /\ is_blank_byte byte = false /\
  is_http_token_byte (lower_byte byte) = true.
Proof. destruct byte as [[] [] [] [] [] [] [] []]; vm_compute; intros; try done; split_and!; congruence. Qed.

Lemma value_byte_lf byte : value_byte byte = true -> byte <> LF.
Proof. by intros H ->. Qed.

Lemma tokens_lower name : forallb is_http_token_byte name = true ->
  forallb is_http_token_byte (to_ascii_lowercase name) = true.
Proof.
  rewrite !forallb_Forall. unfold to_ascii_lowercase. intros H. apply Forall_map. eapply Forall_impl; [exact H|].
  intros byte Hb. by apply token_byte in Hb as (_ & _ & _ & _ & _ & ?).
Qed.

Lemma trim_end_matches p s : trim_end_by p (trim_end_by p s) = trim_end_by p s.
Proof.
  apply trim_end_by_id. destruct (trim_end_by_spec p s) as (post & _ & _ & H). intros c r. apply H.
Qed.

Lemma trim_matches_idem p s : trim_matches p (trim_matches p s) = trim_matches p s.
Proof.
  unfold trim_matches. destruct (trim_start_by_spec p s) as (pre & _ & _ & H).
  destruct (trim_end_by_spec p (trim_start_by p s)) as (post & E & _ & Hlast).
  rewrite (trim_start_by_id p (trim_end_by p (trim_start_by p s))); [apply trim_end_matches|].
  intros c r Hc. apply (H c (r ++ post)). rewrite E. by rewrite Hc.
Qed.

Lemma trim_matches_subset p s : trim_matches p s ⊆ s.
Proof.
  unfold trim_matches. destruct (trim_start_by_spec p s) as (pre & E & _).
  destruct (trim_end_by_spec p (trim_start_by p s)) as (post & E' & _). rewrite E, E' at 2. set_solver.
Qed.

Lemma existsb_value_byte value :
  existsb (fun byte => is_ascii_control byte && negb (is_byte TAB byte)) value = false <-> forallb value_byte value = true.
Proof. rewrite existsb_false, forallb_Forall. apply Forall_iff. intros byte. unfold value_byte. by rewrite negb_true_iff. Qed.

Lemma parse_header_line_good errors line h : parse_header_line errors line = Ok h -> good_header h.
Proof.
  unfold parse_header_line. intros H. apply err_if_bind_Ok in H as [_ H]. apply bind_Ok in H as ([name value] & _ & H).
  apply err_if_bind_Ok in H as [Hn H]. cbv zeta in H. apply err_if_bind_Ok in H as [Hv [= <-]].
  bool_split. apply existsb_value_byte in Hv. constructor; cbn [header_name header_value].
  - by destruct name.
  - by apply tokens_lower.
  - apply to_ascii_lowercase_idem.
  - apply trim_matches_idem.
  - done.
Qed.

Lemma parse_header_lines_good errors lines hs : parse_header_lines errors lines = Ok hs -> Forall good_header hs.
Proof.
  revert hs. induction lines as [|line lines IH]; intros hs; cbn; [by intros [= <-]|].
  destruct line as [|c line]; [apply IH|]. intros (h & Hh & H)%bind_Ok. apply bind_Ok in H as (hs' & Hhs & [= <-]).
  constructor; [by eapply parse_header_line_good|by apply IH].
Qed.

(** The line of a field without its end, as the proxy writes it. *)
Definition field_line (name : str) (h : Header) : str := name ++ ": " ++ header_value h.

Lemma parse_field_line errors h name : good_header h -> to_ascii_lowercase name = header_name h ->
  forallb is_http_token_byte name = true -> parse_header_line errors (field_line name h) = Ok h.
Proof.
  intros [Hne _ _ Htrim Hval] Hlow Htok. unfold parse_header_line, field_line.
  destruct name as [|c name]; [by rewrite <- Hlow in Hne|]. cbn [app].
  pose proof Htok as Ht. rewrite forallb_Forall in Ht. apply Forall_cons in Ht as [Hc Hname].
  apply token_byte in Hc as (_ & _ & Hcolon & _ & Hblank & _). rewrite Hblank. cbn [err_if mbind result_bind].
  change (c :: name ++ ": " ++ header_value h) with ((c :: name) ++ ":"%char :: " "%char :: header_value h).
  rewrite (proj2 (split_once_Some ":" _ (c :: name) (" "%char :: header_value h))).
  2: { split; [done|]. apply not_elem_of_cons. split; [done|]. intros Hin. rewrite Forall_forall in Hname.
       by apply Hname, token_byte in Hin as (_ & _ & ? & _). }
  cbn [ok_or mbind result_bind]. rewrite Htok. cbn [nonempty negb orb err_if mbind result_bind].
  assert (trim_matches is_blank_byte (" "%char :: header_value h) = header_value h) as -> by done.
  rewrite (proj2 (existsb_value_byte _) Hval). cbn [err_if mbind result_bind]. rewrite Hlow. by destruct h.
Qed.

Lemma good_values_lf h : good_header h -> lf_free (header_value h).
Proof.
  intros [_ _ _ _ H] Hin. rewrite forallb_Forall, Forall_forall in H. by apply H, value_byte_lf in Hin.
Qed.
Lemma tokens_lf name : forallb is_http_token_byte name = true -> lf_free name.
Proof. rewrite forallb_Forall, Forall_forall. intros H Hin. by apply H, token_byte in Hin as [? _]. Qed.

Lemma field_line_lf name h : good_header h -> forallb is_http_token_byte name = true -> lf_free (field_line name h).
Proof.
  intros Hg Ht. unfold field_line, lf_free. rewrite !not_elem_of_app.
  split; [by apply tokens_lf|]. split; [|by apply good_values_lf]. vm_compute. set_solver.
Qed.

Lemma parse_field_lines errors hs : Forall good_header hs ->
  parse_header_lines errors (map (fun h => field_line (header_name h) h) hs) = Ok hs.
Proof.
  induction 1 as [|h hs Hg _ IH]; [done|]. cbn [map parse_header_lines].
  assert (Hp : parse_header_line errors (field_line (header_name h) h) = Ok h)
    by (apply parse_field_line; [done|apply Hg..]).
  destruct (field_line (header_name h) h) eqn:E; [by vm_compute in Hp|]. rewrite Hp, IH. done.
Qed.

(** ** Printed authorities *)

Definition graphic (s : str) : Prop := Forall (fun c => is_graphic c = true) s.

Lemma graphic_join sep ws : graphic sep -> Forall graphic ws -> graphic (join sep ws).
Proof.
  unfold graphic. intros Hs. induction ws as [|w [|w2 ws] IH]; intros H; cbn [join]; [done|by apply Forall_cons in H as [? _]|].
  apply Forall_cons in H as [Hw H]. apply Forall_app; split; [done|]. apply Forall_app; split; [done|]. by apply IH.
Qed.

Lemma graphic_dec n : graphic (dec n).
Proof.
  eapply Forall_impl; [apply dec_bytes|]. intros c [H| ->]; [|done]. revert H. unfold is_digit, is_graphic.
  rewrite !in_range_spec. lia.
Qed.

Lemma graphic_hex n : (0 <= n)%Z -> graphic (hex n).
Proof.
  assert (Hd : forall d, (0 <= d < 16)%Z -> is_graphic (hex_digit d) = true).
  { intros d Hd. unfold hex_digit, is_graphic. apply in_range_spec.
    destruct (d <? 10)%Z eqn:E; bool_split; rewrite code_byte_at; lia. }
  unfold hex. generalize 4%nat as fuel. intros fuel. revert n. induction fuel as [|fuel IH]; intros n Hn; [constructor|].
  cbn [hex_fuel]. destruct (n <? 16)%Z eqn:E; bool_split.
  - constructor; [|constructor]. by apply Hd.
  - apply Forall_app; split; [apply IH; apply Z.div_pos; lia|]. constructor; [|constructor]. apply Hd, Z.mod_pos_bound. lia.
Qed.

Lemma graphic_ipv4 octets : graphic (ipv4_to_string octets).
Proof. apply graphic_join; [by repeat constructor|]. apply Forall_map, Forall_true. intros n. apply graphic_dec. Qed.

Lemma graphic_ipv6 segments : Forall (fun n => 0 <= n)%Z segments -> graphic (ipv6_to_string segments).
Proof.
  intros H. unfold ipv6_to_string. assert (Hh : forall l, Forall (fun n => 0 <= n)%Z l -> graphic (join ":" (map hex l))).
  { intros l Hl. apply graphic_join; [by repeat constructor|]. apply Forall_map. eapply Forall_impl; [exact Hl|]. apply graphic_hex. }
  destruct (to_ipv4_mapped segments).
  - apply Forall_app; split; [by repeat constructor|apply graphic_ipv4].
  - destruct (longest_zeroes _ _ _ _) as [start len]. destruct (1 <? len)%nat; [|by apply Hh].
    apply Forall_app; split; [by apply Hh, Forall_take|]. apply Forall_app; split; [by repeat constructor|by apply Hh, Forall_drop].
Qed.

Lemma graphic_domain domain : validate_ascii_domain domain = true -> graphic domain.
Proof.
  intros [_ H]%andb_true_iff. rewrite forallb_Forall, Forall_forall in H. apply Forall_forall. intros c Hc.
  destruct (decide (c = "."%char)) as [->|Hdot]; [done|]. destruct (elem_of_split _ _ _ Hc Hdot) as (w & Hw & Hcw).
  specialize (H w Hw). bool_split. rewrite forallb_Forall, Forall_forall in H0. specialize (H0 c Hcw).
  revert H0. clear. destruct c as [[] [] [] [] [] [] [] []]; vm_compute; done.
Qed.

Lemma graphic_host `{Idna} input host : NormalizedHost_parse input = Ok host -> graphic (authority_name host).
Proof.
  unfold NormalizedHost_parse. intros [_ H1]%err_if_bind_Ok. apply err_if_bind_Ok in H1 as [_ H1].
  destruct (parse_ip input) as [ip|] eqn:E.
  - injection H1 as <-. apply parse_ip_well_formed in E. destruct ip as [o|g]; cbn [authority_name]; [apply graphic_ipv4|].
    destruct E as [_ E]. apply Forall_app; split; [by repeat constructor|]. apply Forall_app; split; [|by repeat constructor].
    apply graphic_ipv6. eapply Forall_impl; [exact E|]. cbn. lia.
  - cbv zeta in H1. apply err_if_bind_Ok in H1 as [_ H1]. apply bind_Ok in H1 as (ascii & _ & H1). cbv zeta in H1.
    destruct (validate_ascii_domain _) eqn:Ev; [|done]. injection H1 as <-. by apply graphic_domain.
Qed.

Lemma graphic_authority host port : graphic (authority_name host) -> graphic (display_with_port (mkAuthority host port)).
Proof.
  intros H. apply Forall_app; split; [done|]. apply Forall_app; split; [by repeat constructor|]. apply graphic_dec.
Qed.

Lemma graphic_parsed_authority `{Idna} input default_port a :
  Authority_parse input default_port = Ok a -> graphic (display_with_port a).
Proof.
  unfold Authority_parse. intros (_ & _ & H1)%bind_Ok. apply bind_Ok in H1 as ([host port] & _ & H1).
  apply bind_Ok in H1 as (h & Hh & [= <-]). by eapply graphic_authority, graphic_host.
Qed.

Lemma graphic_value s : graphic s -> forallb value_byte s = true /\ lf_free s.
Proof.
  intros H. rewrite forallb_Forall. split.
  - eapply Forall_impl; [exact H|]. intros c. clear. destruct c as [[] [] [] [] [] [] [] []]; vm_compute; done.
  - intros Hin. unfold graphic in H. rewrite Forall_forall in H. by apply H in Hin.
Qed.

Lemma graphic_not_blank c : is_graphic c = true -> is_blank_byte c = false.
Proof. destruct c as [[] [] [] [] [] [] [] []]; vm_compute; done. Qed.

Lemma graphic_trim s : graphic s -> trim_matches is_blank_byte s = s.
Proof.
  intros H. unfold graphic in H. rewrite Forall_forall in H. unfold trim_matches. rewrite trim_start_by_id, trim_end_by_id; [done|..].
  - intros c r ->. apply graphic_not_blank, H. set_solver.
  - intros c r ->. apply graphic_not_blank, H. set_solver.
Qed.

Lemma good_graphic_header name value : name <> [] -> forallb is_http_token_byte name = true ->
  to_ascii_lowercase name = name -> graphic value -> good_header (mkHeader name value).
Proof. intros. constructor; cbn; [done..|by apply graphic_trim|by apply graphic_value]. Qed.

(** ** The forwarded head *)

(** What the [url] crate documents of a parsed URL: path and query are
    percent-encoded, so that they are graphic ASCII. *)
Class HttpUrlLaws (U : HttpUrlCrate) : Prop := {
  http_path_graphic s u : HttpUrl_parse s = Ok u -> graphic (http_path u);
  http_query_graphic s u query : HttpUrl_parse s = Ok u -> http_query u = Some query -> graphic query }.

(** What the checks of [ParsedRequest::parse] establish. *)
Record good_request (r : ParsedRequest) : Prop := {
  good_method_nonempty : method r <> [];
  good_method : forallb is_http_token_byte (method r) = true;
  good_version : version r ∈ strs ["HTTP/1.0"; "HTTP/1.1"];
  good_headers : Forall good_header (headers r);
  good_framing : validate_framing (headers r) = Ok (framing r);
  good_authority : graphic (display_with_port (authority r));
  good_path a path : target r = TargetForward a path -> lf_free path }.

Lemma graphic_lf_free s : graphic s -> lf_free s.
Proof. intros H. by apply graphic_value in H as [_ ?]. Qed.

Lemma lf_free_app s t : lf_free (s ++ t) <-> lf_free s /\ lf_free t.
Proof. unfold lf_free. rewrite not_elem_of_app. done. Qed.

Section forwarding.
Context {I : Idna} {U : HttpUrlCrate} {UL : HttpUrlLaws U}.

Lemma authority_of_graphic input default_port a :
  authority_of input default_port = Ok a -> graphic (display_with_port a).
Proof. unfold authority_of. rewrite map_err_Ok. apply graphic_parsed_authority. Qed.

Lemma parse_request_target_good m raw host t : parse_request_target m raw host = Ok t -> lf_free raw ->
  match t with
  | TargetConnect a => graphic (display_with_port a)
  | TargetForward a path => graphic (display_with_port a) /\ lf_free path
  end.
Proof.
  unfold parse_request_target. intros H Hraw. destruct (eq_ignore_ascii_case m "CONNECT").
  { apply bind_Ok in H as (a & Ha & H). apply bind_Ok in H as (_ & _ & [= <-]). by eapply authority_of_graphic. }
  destruct (starts_with "http://" raw || starts_with "https://" raw).
  - apply bind_Ok in H as (url & Hurl & H). apply map_err_Ok in Hurl.
    apply err_if_bind_Ok in H as [_ H]. apply err_if_bind_Ok in H as [_ H].
    apply bind_Ok in H as (hs & _ & H). apply bind_Ok in H as (h & Hh & H). apply bind_Ok in H as (port & _ & H).
    apply bind_Ok in H as (_ & _ & [= <-]). apply map_err_Ok, graphic_host in Hh.
    split; [by apply graphic_authority|]. pose proof (http_path_graphic _ _ Hurl) as Hp.
    assert (lf_free (if nonempty (http_path url) then http_path url else "/")) as Hpath.
    { destruct (nonempty _); [by apply graphic_lf_free|]. vm_compute. set_solver. }
    destruct (http_query url) as [query|] eqn:Hq; [|done]. apply (http_query_graphic _ _ _ Hurl) in Hq.
    change ("?"%char :: query) with (["?"%char] ++ query). rewrite !lf_free_app.
    split; [done|]. split; [vm_compute; set_solver|by apply graphic_lf_free].
  - apply err_if_bind_Ok in H as [_ H]. apply bind_Ok in H as (host' & _ & H). apply bind_Ok in H as (a & Ha & [= <-]).
    split; [by eapply authority_of_graphic|done].
Qed.

Lemma split_first_lf rest : exists w ws, split " " (LF :: rest) = (LF :: w) :: ws.
Proof. unfold split. cbn [split_by]. replace (is_byte " " LF) with false by done. destruct (split_by (is_byte " ") rest); eauto. Qed.

Lemma default_lookup_lf i line : lf_free line -> lf_free (default [] (split " " line !! i)).
Proof.
  intros H. destruct (split " " line !! i) as [w|] eqn:E; [|apply not_elem_of_nil]. cbn.
  apply list_elem_of_lookup_2 in E. intros Hin. by apply H, (elem_of_split_inv _ _ _ _ E).
Qed.

Lemma parsed_request_good pre r : ParsedRequest_parse (pre ++ HEADER_END) = Ok r -> good_request r.
Proof.
  unfold ParsedRequest_parse. intros [_ H]%err_if_bind_Ok. apply err_if_bind_Ok in H as [_ H].
  apply err_if_bind_Ok in H as [Hlf%head_no_bare_lf H].
  destruct (head_lines (pre ++ HEADER_END)) as [line lines] eqn:Hl. cbv zeta in H.
  apply err_if_bind_Ok in H as [Hline H]. apply bind_Ok in H as (hs & Hhs & H). apply bind_Ok in H as (f & Hf & H).
  apply err_if_bind_Ok in H as [_ H]. apply err_if_bind_Ok in H as [_ H]. apply bind_Ok in H as (host & _ & H).
  apply bind_Ok in H as (t & Ht & H). apply err_if_bind_Ok in H as [_ [= <-]].
  repeat rewrite orb_false_iff in Hline. destruct Hline as ((((Hm & _) & Hv) & _) & Htok). bool_split.
  assert (Hfree : lf_free line).
  { destruct (head_lines_lf_free _ _ _ Hlf Hl) as [[rest ->]|[? _]]; [exfalso|done].
    destruct (split_first_lf rest) as (w & ws & E). by rewrite E in Htok. }
  pose proof (parse_request_target_good _ _ _ _ Ht (default_lookup_lf _ _ Hfree)) as Hgood.
  constructor; cbn [method version headers framing target].
  - by destruct (default [] _).
  - done.
  - by unfold one_of in Hv; bool_split.
  - by eapply parse_header_lines_good.
  - done.
  - unfold authority. cbn [target]. destruct t; [done|apply Hgood].
  - intros a path ->. apply Hgood.
Qed.
End forwarding.

(** The fields of the head that the proxy sends in place of the client's. *)
Definition forwarded_headers (r : ParsedRequest) : list Header :=
  mkHeader "host" (display_with_port (authority r))
  :: List.filter (keeps request_hop_by_hop (headers r)) (headers r) ++ [mkHeader "connection" "close"].
Definition forwarded_line (r : ParsedRequest) (path : str) : str := method r ++ " " ++ path ++ " " ++ version r.

(** Its lines, with the names as they are written. *)
Definition forwarded_fields (r : ParsedRequest) : list str :=
  field_line "Host" (mkHeader "host" (display_with_port (authority r)))
  :: map (fun h => field_line (header_name h) h) (List.filter (keeps request_hop_by_hop (headers r)) (headers r))
  ++ [field_line "Connection" (mkHeader "connection" "close")].

Lemma concat_lines ws last : concat (map (fun w => w ++ CRLF) ws) ++ last = join CRLF (ws ++ [last]).
Proof.
  induction ws as [|w ws IH]; [done|]. cbn [map concat app]. rewrite join_cons_cons by (by destruct ws).
  rewrite <- IH. by rewrite <- !app_assoc.
Qed.

Lemma forward_head_lines r path :
  request_forward_head r path = join CRLF (forwarded_line r path :: forwarded_fields r) ++ HEADER_END.
Proof.
  unfold request_forward_head, forwarded_fields. rewrite (join_cons_cons CRLF (forwarded_line r path)) by done.
  set (kept := List.filter _ _).
  assert (concat (map header_line kept) = concat (map (fun w => w ++ CRLF) (map (fun h => field_line (header_name h) h) kept))) as ->.
  { rewrite map_map. f_equal. apply map_ext. intros h. unfold header_line, field_line. by rewrite <- !app_assoc. }
  rewrite (join_cons_cons CRLF) by (by destruct (map (fun h => field_line (header_name h) h) kept)).
  rewrite <- concat_lines. unfold forwarded_line, HEADER_END.
  change (field_line "Host" ?h) with ("Host: " ++ header_value h).
  change (field_line "Connection" ?h) with ("Connection: " ++ header_value h). cbn [header_value].
  change ("Connection: close" : str) with (("Connection: " : str) ++ "close").
  by rewrite <- !app_assoc.
Qed.

(** The first delimiter is the last: lines that neither hold a line feed nor
    begin with a carriage return contain none. *)
Lemma split_once_str_cons pat c s : strip_prefix pat (c :: s) = None ->
  split_once_str pat (c :: s) = ('(a, b) ← split_once_str pat s; Some (c :: a, b)).
Proof. intros H. cbn [split_once_str]. by rewrite H. Qed.

Lemma split_header_end_line w rest : lf_free w ->
  split_once_str HEADER_END (w ++ CR :: rest) = ('(a, b) ← split_once_str HEADER_END (CR :: rest); Some (w ++ a, b)).
Proof.
  induction w as [|c w IH]; intros H; [|].
  { change ([] ++ CR :: rest) with (CR :: rest). by destruct (split_once_str HEADER_END (CR :: rest)) as [[]|]. }
  apply not_elem_of_cons in H as [Hc H]. cbn [app]. rewrite split_once_str_cons.
  - rewrite IH by done. by destruct (split_once_str HEADER_END (CR :: rest)) as [[a b]|].
  - cbn. destruct (bool_decide_reflect (CR = c)); [|done]. destruct w as [|d w]; [done|].
    apply not_elem_of_cons in H as [Hd _]. cbn. by rewrite bool_decide_eq_false_2.
Qed.

Definition proper_line (w : str) : Prop := lf_free w /\ exists c w', w = c :: w' /\ c <> CR.

Lemma split_header_end ws : ws <> [] -> lf_free (default [] (head ws)) -> Forall proper_line (tail ws) ->
  split_once_str HEADER_END (join CRLF ws ++ HEADER_END) = Some (join CRLF ws, []).
Proof.
  induction ws as [|w ws IH]; intros Hne Hw Hws; [done|]. cbn in Hw, Hws. destruct ws as [|w2 ws].
  - cbn [join]. unfold HEADER_END at 2. cbn [CRLF app]. rewrite split_header_end_line by done.
    change (CR :: LF :: CRLF) with HEADER_END.
    replace (split_once_str HEADER_END HEADER_END) with (Some ([] : str, [] : str)) by (vm_compute; done).
    cbn [mbind option_bind]. by rewrite app_nil_r.
  - rewrite join_cons_cons by done. rewrite <- !app_assoc. unfold CRLF at 1. cbn [app]. rewrite split_header_end_line by done.
    apply Forall_cons in Hws as [[Hlf (c & w' & -> & Hc)] Hws]. specialize (IH ltac:(done) Hlf Hws).
    assert (exists t, join CRLF ((c :: w') :: ws) ++ HEADER_END = c :: t) as [t Et] by (destruct ws; eexists; reflexivity).
    assert (strip_prefix HEADER_END (CR :: LF :: c :: t) = None) as Hs.
    { cbn. rewrite !bool_decide_eq_true_2 by done. by rewrite bool_decide_eq_false_2 by congruence. }
    rewrite Et in *. rewrite (split_once_str_cons _ _ _ Hs), split_once_str_cons by done.
    rewrite IH. done.
Qed.

Lemma head_lines_join ws line lines : ws = line :: lines -> Forall lf_free ws ->
  head_lines (join CRLF ws ++ HEADER_END) = (line, lines).
Proof.
  intros -> H. unfold head_lines. rewrite (proj2 (strip_suffix_Some HEADER_END _ (join CRLF (line :: lines))) eq_refl).
  cbn [default from_option]. unfold id. by rewrite split_str_join.
Qed.

(** Fields of a name the filter keeps, and of one it drops. *)
Lemma values_kept name hop hs : one_of name hop = false -> name ∉ connection_headers hs ->
  List.filter (named name) (List.filter (keeps hop hs) hs) = List.filter (named name) hs.
Proof.
  intros Hhop Hconn. unfold keeps. revert Hconn. generalize (connection_headers hs). intros conn Hc.
  induction hs as [|h hs IH]; [done|]. cbn [List.filter]. destruct (named name h) eqn:En.
  - pose proof En as E. unfold named in E. apply str_eqb_eq in E. rewrite E, Hhop, bool_decide_eq_false_2 by done.
    cbn [orb negb List.filter]. by rewrite En, IH.
  - destruct (negb _); cbn [List.filter]; [by rewrite En|done].
Qed.

Lemma values_dropped name hop hs : one_of name hop = true ->
  List.filter (named name) (List.filter (keeps hop hs) hs) = [].
Proof.
  intros Hhop. unfold keeps. generalize (connection_headers hs). intros conn.
  induction hs as [|h hs IH]; [done|]. cbn [List.filter]. destruct (negb _) eqn:Ek; [|done]. cbn [List.filter].
  destruct (named name h) eqn:En; [|done]. unfold named in En. apply str_eqb_eq in En. by rewrite En, Hhop in Ek.
Qed.

Lemma filter_cons_app (p : Header -> bool) x l y : p x = false -> p y = false ->
  List.filter p (x :: l ++ [y]) = List.filter p l.
Proof. intros Hx Hy. cbn [List.filter]. rewrite Hx, List.filter_app. cbn [List.filter]. rewrite Hy. apply app_nil_r. Qed.

Lemma values_forwarded_framing name r : one_of name request_hop_by_hop = false ->
  name ∉ connection_headers (headers r) -> named name (mkHeader "host" []) = false ->
  named name (mkHeader "connection" []) = false ->
  List.filter (named name) (forwarded_headers r) = List.filter (named name) (headers r).
Proof.
  intros H1 H2 Hh Hc. unfold forwarded_headers. rewrite filter_cons_app by done. by apply values_kept.
Qed.

Lemma good_forwarded r : good_request r -> Forall good_header (forwarded_headers r).
Proof.
  intros G. unfold forwarded_headers. constructor.
  { apply good_graphic_header; [done..|apply G]. }
  apply Forall_app; split.
  - apply Forall_forall. intros h Hin. apply list_elem_of_In, List.filter_In in Hin as [Hin _].
    pose proof (good_headers _ G) as Hg. rewrite Forall_forall in Hg. by apply Hg, list_elem_of_In.
  - constructor; [|constructor]. apply good_graphic_header; try done. by repeat constructor.
Qed.

Lemma parse_header_lines_cons errors line lines h hs : line <> [] -> parse_header_line errors line = Ok h ->
  parse_header_lines errors lines = Ok hs -> parse_header_lines errors (line :: lines) = Ok (h :: hs).
Proof. intros Hne Hh Hhs. destruct line; [done|]. cbn [parse_header_lines]. by rewrite Hh, Hhs. Qed.

Lemma parse_header_lines_app errors ls ls' hs hs' : parse_header_lines errors ls = Ok hs ->
  parse_header_lines errors ls' = Ok hs' -> parse_header_lines errors (ls ++ ls') = Ok (hs ++ hs').
Proof.
  revert hs. induction ls as [|[|c line] ls IH]; intros hs H H'; cbn [parse_header_lines app] in *.
  - by simplify_eq.
  - by apply IH.
  - apply bind_Ok in H as (h & -> & H). apply bind_Ok in H as (hs2 & Hhs & [= <-]). by rewrite (IH _ Hhs H').
Qed.

Lemma forwarded_fields_parse r : good_request r ->
  parse_header_lines request_header_errors (forwarded_fields r) = Ok (forwarded_headers r).
Proof.
  intros G. pose proof (good_forwarded r G) as HF. unfold forwarded_fields, forwarded_headers in *.
  apply Forall_cons in HF as [Hhost HF]. apply Forall_app in HF as [Hkept Hconn]. apply Forall_cons in Hconn as [Hconn _].
  apply parse_header_lines_cons; [done|by apply parse_field_line|].
  apply parse_header_lines_app; [by apply parse_field_lines|].
  apply parse_header_lines_cons; [done|by apply parse_field_line|done].
Qed.

Lemma proper_field name h : name <> [] -> forallb is_http_token_byte name = true -> good_header h ->
  proper_line (field_line name h).
Proof.
  intros Hne Ht Hg. split; [by apply field_line_lf|]. destruct name as [|c name]; [done|]. eexists c, _. split; [reflexivity|].
  rewrite forallb_Forall in Ht. apply Forall_cons in Ht as [Hc _]. by apply token_byte in Hc as (_ & ? & _).
Qed.

Lemma forwarded_fields_proper r : good_request r -> Forall proper_line (forwarded_fields r).
Proof.
  intros G. pose proof (good_forwarded r G) as HF. unfold forwarded_fields, forwarded_headers in *.
  apply Forall_cons in HF as [Hhost HF]. apply Forall_app in HF as [Hkept Hconn]. apply Forall_cons in Hconn as [Hconn _].
  constructor; [by apply proper_field|]. apply Forall_app; split; [|by constructor; [apply proper_field|]].
  apply Forall_map. eapply Forall_impl; [exact Hkept|]. intros h Hh. apply proper_field; [apply Hh..|done].
Qed.

Lemma forwarded_line_lf r a path : good_request r -> target r = TargetForward a path -> lf_free (forwarded_line r path).
Proof.
  intros G Ht. unfold forwarded_line. rewrite !lf_free_app. split_and!; [apply tokens_lf, G|vm_compute; set_solver| |vm_compute; set_solver|].
  - by eapply good_path.
  - pose proof (good_version _ G) as Hv. cbn in Hv. unfold lf_free. repeat (apply elem_of_cons in Hv as [->|Hv]; [vm_compute; set_solver|]).
    by apply not_elem_of_nil in Hv.
Qed.

(** ** Concrete instances *)

(** A URL crate for the examples: [http://host/path] with a graphic path. *)
Definition plain_url : HttpUrlCrate := fun s =>
  match split_once_str "://" s with
  | Some (scheme, rest) =>
      let '(host, path) := match split_once "/" rest with Some (host, path) => (host, path) | None => (rest, []) end in
      if forallb is_graphic path
      then Ok (mkHttpUrl scheme [] None None (Some host) (Some 80%Z) ("/" ++ path) None)
      else Err ("invalid international domain name" : str)
  | None => Err ("relative URL without a base" : str)
  end.

Lemma plain_url_laws : HttpUrlLaws plain_url.
Proof.
  split; intros s u; unfold HttpUrl_parse, plain_url.
  - destruct (split_once_str "://" s) as [[sch rest]|]; [|done].
    destruct (match split_once "/" rest with Some _ => _ | None => _ end) as [host path].
    destruct (forallb is_graphic path) eqn:E; [|done]. intros [= <-]. cbn. apply Forall_cons. split; [done|].
    by apply forallb_Forall.
  - intros query. destruct (split_once_str "://" s) as [[sch rest]|]; [|done].
    destruct (match split_once "/" rest with Some _ => _ | None => _ end) as [host path].
    destruct (forallb is_graphic path); [|done]. by intros [= <-].
Qed.

Definition lines (l : list string) : str := concat (map (fun line => line ++ CRLF) (strs l)).

Definition sample_request : str :=
  lines ["POST http://Example.com/api HTTP/1.1"; "Host: example.com"; "Proxy-Authorization: Bearer secret";
         "Connection: keep-alive, x-remove"; "X-Remove: yes"; "Content-Length: 3"].

Example sample_forwarded :
  (fun r => request_forward_head r "/api") <$> ParsedRequest_parse (I := plain_idna) (U := plain_url) (sample_request ++ CRLF)
  = Ok (lines ["POST /api HTTP/1.1"; "Host: example.com:80"; "content-length: 3"; "Connection: close"] ++ CRLF).
Proof. vm_compute. reflexivity. Qed.


(** A [Connection] header that names [content-length] takes the length away while
    the proxy still forwards the body: the upstream reads the body as its next
    request. *)
Definition desync_request : str :=
  lines ["POST /a HTTP/1.1"; "Host: h"; "Connection: content-length"; "Content-Length: 3"] ++ CRLF.
Example connection_strips_framing :
  (fun r => (framing r, request_forward_head r "/a")) <$> ParsedRequest_parse (I := plain_idna) (U := plain_url) desync_request
  = Ok (ContentLength 3, lines ["POST /a HTTP/1.1"; "Host: h:80"; "Connection: close"] ++ CRLF).
Proof. vm_compute. reflexivity. Qed.

(** A carriage return in an origin-form target goes through. *)
Example carriage_return_in_target :
  is_ok (ParsedRequest_parse (I := plain_idna) (U := plain_url)
    ("GET /a" ++ CR :: lines ["X-Injected:1 HTTP/1.1"; "Host: h"] ++ CRLF)) = true.
Proof. vm_compute. reflexivity. Qed.
End Http.
