(* ===== verification/Transfer.v ===== *)
(** * Body transfer of the egress proxy ([codex-start-proxy/src/egress.rs],
      [BufferedStream], [forward_one_request], [forward_chunked_body])

    The buffered side of a transfer, the loops that move message bodies, and what
    they move: exactly the framed message, in order, and never a byte more.  Loops
    take fuel from the bytes and events that are left; [None] is a loop out of
    fuel, and [forward_total] shows that it does not happen. *)

From S2P Require Export Http.

Module Transfer.
Import IpAddr Allowlist Streams Http.

(** ** State *)

Inductive TransferDirection := DirectionRequest | DirectionResponse.

(** [BufferedStream]; its time limit is part of the events of the stream. *)
Record BufferedStream := mkBufferedStream {
  stream : Conn;
  buffer : str;
  cursor : nat;
  direction : TransferDirection }.
Definition BufferedStream_new (stream : Conn) (buffer : str) (direction : TransferDirection) : BufferedStream :=
  mkBufferedStream stream buffer 0 direction.

(** The buffered side and the side written to. *)
Record Transfer := mkTransfer { input : BufferedStream; output : Conn }.

Definition M (A : Type) : Type := Transfer -> option (result EgressError A * Transfer).
#[export] Instance M_ret : MRet M := fun A a s => Some (Ok a, s).
#[export] Instance M_bind : MBind M := fun A B f m s =>
  match m s with
  | Some (Ok a, s) => f a s
  | Some (Err e, s) => Some (Err e, s)
  | None => None
  end.
Definition throw {A} (error : EgressError) : M A := fun s => Some (Err error, s).
Definition out_of_fuel {A} : M A := fun s => None.
Definition lift {A} (r : result EgressError A) : M A := fun s => Some (r, s).
Definition throw_if (b : bool) (error : EgressError) : M unit := lift (err_if b error).

(** The state, for its fuel and its flags. *)
Definition with_state {A} (f : Transfer -> M A) : M A := fun s => f s s.

Definition timeout_error (d : TransferDirection) : EgressError :=
  match d with DirectionRequest => BodyTimeout | DirectionResponse => ResponseTimeout end.
Definition eof_error (d : TransferDirection) : EgressError :=
  match d with DirectionRequest => UnexpectedEof | DirectionResponse => UnexpectedUpstreamEof end.
Definition interruption (d : TransferDirection) (i : Interruption) : EgressError :=
  match i with Elapsed => timeout_error d | IoFailed error => Io error end.

Definition remaining (self : BufferedStream) : str := drop (cursor self) (buffer self).
Definition has_buffered_bytes (self : BufferedStream) : bool := negb (cursor self =? length (buffer self))%nat.

Definition get_remaining : M str := fun s => Some (Ok (remaining (input s)), s).

(** The buffers on the stack, and the consumed prefix that is shifted out. *)
Definition READ_BUFFER : nat := Z.to_nat 4096.
Arguments READ_BUFFER : simpl never.
Definition COPY_BUFFER : nat := Z.to_nat (16 * 1024).
Arguments COPY_BUFFER : simpl never.

(** The shift of the buffer before a read. *)
Definition compact (self : BufferedStream) : BufferedStream :=
  if (cursor self =? length (buffer self))%nat then mkBufferedStream (stream self) [] 0 (direction self)
  else if (READ_BUFFER <? cursor self)%nat
       then mkBufferedStream (stream self) (drop (cursor self) (buffer self)) 0 (direction self)
       else self.

(** One read from the stream with the errors of its direction. *)
Definition read_stream (limit : nat) : M str := fun s =>
  let b := input s in
  let '(r, stream) := read limit (stream b) in
  let s := mkTransfer (mkBufferedStream stream (buffer b) (cursor b) (direction b)) (output s) in
  Some (map_err (interruption (direction b)) r, s).

Definition set_input (f : BufferedStream -> BufferedStream) : M unit := fun s =>
  Some (Ok tt, mkTransfer (f (input s)) (output s)).

(** [self.cursor += count]. *)
Definition advance (count : nat) : M unit :=
  set_input (fun b => mkBufferedStream (stream b) (buffer b) (cursor b + count) (direction b)).

(** [self.buffer.extend_from_slice(..)]. *)
Definition extend (bytes : str) (self : BufferedStream) : BufferedStream :=
  mkBufferedStream (stream self) (buffer self ++ bytes) (cursor self) (direction self).

Definition read_more : M unit :=
  set_input compact ;;
  bytes ← read_stream READ_BUFFER;
  if nonempty bytes then set_input (extend bytes)
  else with_state (fun s => throw (eof_error (direction (input s)))).

Definition write_to (bytes : str) : M unit := fun s =>
  let '(r, output) := write_all_within bytes (output s) in
  Some (map_err (interruption (direction (input s))) r, mkTransfer (input s) output).

(** Fuel: what is left to read. *)
Definition left_over (s : Transfer) : nat := length (remaining (input s)) + volume (inbound (stream (input s))).

Fixpoint read_http_head_loop (fuel : nat) (limit : nat) : M str :=
  match fuel with
  | O => out_of_fuel
  | S fuel =>
      bytes ← get_remaining;
      match find_header_end bytes with
       | Some end_ =>
           throw_if (limit <? end_)%nat (ResponseHeaderTooLarge limit) ;;
           advance end_ ;;
           mret (take end_ bytes)
       | None =>
           throw_if (limit <? length bytes)%nat (ResponseHeaderTooLarge limit) ;;
           read_more ;;
           read_http_head_loop fuel limit
       end
  end.
Definition read_http_head (limit : nat) : M str :=
  with_state (fun s => read_http_head_loop (S (left_over s)) limit).

Fixpoint read_crlf_line_loop (fuel : nat) (limit : nat) : M str :=
  match fuel with
  | O => out_of_fuel
  | S fuel =>
      bytes ← get_remaining;
      match split_once_str CRLF bytes with
       | Some (line, _) =>
           let len := (length line + 2)%nat in
           throw_if (limit <? len)%nat (ChunkMetadataTooLarge limit) ;;
           advance len ;;
           mret (take len bytes)
       | None =>
           throw_if (limit <=? length bytes)%nat (ChunkMetadataTooLarge limit) ;;
           read_more ;;
           read_crlf_line_loop fuel limit
       end
  end.
Definition read_crlf_line (limit : nat) : M str :=
  with_state (fun s => read_crlf_line_loop (S (left_over s)) limit).

Fixpoint copy_stream_loop (fuel : nat) (length : Z) : M unit :=
  match fuel with
  | O => out_of_fuel
  | S fuel =>
      if (length =? 0)%Z then mret tt
       else
         bytes ← read_stream (Z.to_nat (Z.min length (Z.of_nat COPY_BUFFER)));
         match bytes with
         | [] => with_state (fun s => throw (eof_error (direction (input s))))
         | _ => write_to bytes ;; copy_stream_loop fuel (length - Z.of_nat (List.length bytes))
         end
  end.

Definition copy_exact_to (length : Z) : M unit :=
  bytes ← get_remaining;
  length ←
    (if nonempty bytes && negb (length =? 0)%Z then
       let count := Z.to_nat (Z.min (Z.of_nat (List.length bytes)) length) in
       write_to (take count bytes) ;;
       advance count ;;
       mret (length - Z.of_nat count)%Z
     else mret length);
  with_state (fun s => copy_stream_loop (S (left_over s)) length).

Fixpoint copy_until_eof_loop (fuel : nat) : M unit :=
  match fuel with
  | O => out_of_fuel
  | S fuel =>
      bytes ← read_stream COPY_BUFFER;
       match bytes with
       | [] => mret tt
       | _ => write_to bytes ;; copy_until_eof_loop fuel
       end
  end.
Definition copy_until_eof_to : M unit :=
  bytes ← get_remaining;
  (if nonempty bytes then advance (length bytes) ;; write_to bytes else mret tt) ;;
  with_state (fun s => copy_until_eof_loop (S (left_over s))).

(** ** Chunked bodies *)

(** The trailer loop; [metadata_bytes] counts the lines so far. *)
Fixpoint forward_chunk_trailers_loop (fuel : nat) (metadata_limit metadata_bytes : nat) : M unit :=
  match fuel with
  | O => out_of_fuel
  | S fuel =>
      line ← read_crlf_line (metadata_limit - metadata_bytes);
       let metadata_bytes := (metadata_bytes + length line)%nat in
       if line =s? CRLF then write_to line
       else
         lift (validate_trailer_line line) ;;
         write_to line ;;
         forward_chunk_trailers_loop fuel metadata_limit metadata_bytes
  end.
Definition forward_chunk_trailers (metadata_limit metadata_bytes : nat) : M unit :=
  with_state (fun s => forward_chunk_trailers_loop (S (left_over s)) metadata_limit metadata_bytes).

Fixpoint forward_chunked_body_loop (fuel : nat) (metadata_limit metadata_bytes : nat) : M unit :=
  match fuel with
  | O => out_of_fuel
  | S fuel =>
      line ← read_crlf_line (metadata_limit - metadata_bytes);
       let metadata_bytes := (metadata_bytes + length line)%nat in
       chunk_size ← lift (parse_chunk_size line);
       write_to line ;;
       if (chunk_size =? 0)%Z then forward_chunk_trailers metadata_limit metadata_bytes
       else
         copy_exact_to chunk_size ;;
         delimiter ← read_crlf_line 2;
         throw_if (negb (delimiter =s? CRLF)) (MalformedRequest "chunk data is not followed by CRLF") ;;
         write_to delimiter ;;
         forward_chunked_body_loop fuel metadata_limit metadata_bytes
  end.
Definition forward_chunked_body (metadata_limit : nat) : M unit :=
  with_state (fun s => forward_chunked_body_loop (S (left_over s)) metadata_limit 0).

(** ** One request *)

(** [upstream.shutdown()] under the time limit. *)
Definition shutdown_output : M unit := fun s =>
  let '(r, output) := shutdown_within (output s) in
  Some (map_err (fun i => match i with Elapsed => BodyTimeout | IoFailed error => Io error end) r,
        mkTransfer (input s) output).
(** [write_all_with_timeout]. *)
Definition write_all_with_timeout (bytes : str) : M unit := fun s =>
  let '(r, output) := write_all_within bytes (output s) in
  Some (map_err (fun i => match i with Elapsed => BodyTimeout | IoFailed error => Io error end) r,
        mkTransfer (input s) output).

Definition forward_body (framing : MessageFraming) (max_header_bytes : nat) : M unit :=
  match framing with
  | FramingNone => mret tt
  | ContentLength length => copy_exact_to length
  | Chunked => forward_chunked_body max_header_bytes
  end.

(** [forward_one_request] on the transfer from the client, whose buffer holds what
    followed the head, to the upstream. *)
Definition forward_one_request (head : str) (framing : MessageFraming) (max_header_bytes : nat) : M unit :=
  write_all_with_timeout head ;;
  forward_body framing max_header_bytes ;;
  with_state (fun s => throw_if (has_buffered_bytes (input s)) (MalformedRequest "pipelined requests are forbidden")) ;;
  shutdown_output.
Lemma READ_BUFFER_pos : (0 < READ_BUFFER)%nat.
Proof. unfold READ_BUFFER. lia. Qed.
Lemma COPY_BUFFER_pos : (0 < Z.of_nat COPY_BUFFER)%Z.
Proof. unfold COPY_BUFFER. lia. Qed.

(** ** Reasoning about transfers

    [wp m s Q]: the computation ends, within its fuel, with a result and a state
    that satisfy [Q]. *)

Definition wp {A} (m : M A) (s : Transfer) (Q : result EgressError A -> Transfer -> Prop) : Prop :=
  exists r s', m s = Some (r, s') /\ Q r s'.

Lemma wp_bind {A B} (m : M A) (f : A -> M B) s Q :
  wp m s (fun r s' => match r with Ok a => wp (f a) s' Q | Err e => Q (Err e) s' end) -> wp (m ≫= f) s Q.
Proof.
  intros (r & s' & Hm & H). unfold wp, mbind, M_bind. rewrite Hm. destruct r as [a|e]; [done|]. by eexists _, _.
Qed.
Lemma wp_mono {A} (m : M A) s (P Q : result EgressError A -> Transfer -> Prop) :
  wp m s P -> (forall r s', P r s' -> Q r s') -> wp m s Q.
Proof. intros (r & s' & Hm & H) HPQ. exists r, s'. eauto. Qed.
Lemma wp_ret {A} (a : A) s (Q : result EgressError A -> Transfer -> Prop) : Q (Ok a) s -> wp (mret a) s Q.
Proof. intros H. by eexists _, _. Qed.
Lemma wp_lift {A} (r : result EgressError A) s (Q : result EgressError A -> Transfer -> Prop) : Q r s -> wp (lift r) s Q.
Proof. intros H. by eexists _, _. Qed.
Lemma wp_throw {A} e s (Q : result EgressError A -> Transfer -> Prop) : Q (Err e) s -> wp (throw e) s Q.
Proof. intros H. by eexists _, _. Qed.
Lemma wp_with_state {A} (f : Transfer -> M A) s Q : wp (f s) s Q -> wp (with_state f) s Q.
Proof. done. Qed.
Lemma wp_throw_if b e s (Q : result EgressError unit -> Transfer -> Prop) :
  (b = true -> Q (Err e) s) -> (b = false -> Q (Ok tt) s) -> wp (throw_if b e) s Q.
Proof. intros H1 H2. apply wp_lift. destruct b; auto. Qed.
Lemma wp_get_remaining s (Q : result EgressError str -> Transfer -> Prop) :
  Q (Ok (remaining (input s))) s -> wp get_remaining s Q.
Proof. intros H. by eexists _, _. Qed.
Lemma wp_set_input f s (Q : result EgressError unit -> Transfer -> Prop) :
  Q (Ok tt) (mkTransfer (f (input s)) (output s)) -> wp (set_input f) s Q.
Proof. intros H. by eexists _, _. Qed.

(** The bytes still to come: buffered, then delivered by the stream. *)
Definition pending (s : Transfer) : str := remaining (input s) ++ delivered (inbound (stream (input s))).
Definition well_buffered (s : Transfer) : Prop := (cursor (input s) <= length (buffer (input s)))%nat.

(** Nothing but the bytes written changes on the other side. *)
Definition wrote (s s' : Transfer) (w : str) : Prop :=
  outbound (output s') = outbound (output s) ++ w /\
  inbound (output s') = inbound (output s) /\ closed (output s') = closed (output s).

Lemma wrote_nil s s' : output s' = output s -> wrote s s' [].
Proof. intros H. unfold wrote. by rewrite H, app_nil_r. Qed.
Lemma wrote_trans s1 s2 s3 w w' : wrote s1 s2 w -> wrote s2 s3 w' -> wrote s1 s3 (w ++ w').
Proof. intros (H1 & H2 & H3) (H4 & H5 & H6). unfold wrote. by rewrite H4, H1, H5, H6, app_assoc. Qed.

Lemma remaining_compact b : (cursor b <= length (buffer b))%nat -> remaining (compact b) = remaining b /\
  stream (compact b) = stream b /\ (cursor (compact b) <= length (buffer (compact b)))%nat.
Proof.
  intros H. unfold compact, remaining.
  destruct (cursor b =? length (buffer b))%nat eqn:E; [|destruct (READ_BUFFER <? cursor b)%nat]; bool_split; cbn.
  - rewrite E, drop_all. split_and!; [done..|lia].
  - rewrite drop_0. split_and!; [done..|lia].
  - by split_and!.
Qed.

Lemma remaining_extend bytes b : (cursor b <= length (buffer b))%nat ->
  remaining (extend bytes b) = remaining b ++ bytes /\ (cursor (extend bytes b) <= length (buffer (extend bytes b)))%nat.
Proof.
  intros H. unfold remaining, extend. cbn. rewrite length_app. split; [|lia].
  rewrite drop_app. by rewrite (proj2 (Nat.sub_0_le _ _) H).
Qed.

Lemma wp_read_stream limit s : (0 < limit)%nat ->
  wp (read_stream limit) s (fun r s' =>
    output s' = output s /\ remaining (input s') = remaining (input s) /\ cursor (input s') = cursor (input s) /\
    buffer (input s') = buffer (input s) /\ (volume (inbound (stream (input s'))) <= volume (inbound (stream (input s))))%nat /\
    match r with
    | Ok bytes => (length bytes <= limit)%nat /\
        (volume (inbound (stream (input s'))) + length bytes <= volume (inbound (stream (input s))))%nat /\
        (bytes <> [] -> delivered (inbound (stream (input s))) = bytes ++ delivered (inbound (stream (input s'))) /\
                        (volume (inbound (stream (input s'))) < volume (inbound (stream (input s))))%nat)
    | Err _ => True
    end).
Proof.
  intros Hl. unfold wp, read_stream. destruct (read limit (stream (input s))) as [r c] eqn:E.
  eexists _, _. split; [reflexivity|]. cbn. split_and!; [done..| |].
  - destruct r; [apply read_Ok in E as (_ & _ & _ & H & _)|apply read_Err in E as (_ & _ & _ & H & _)]; [specialize (H Hl)|]; lia.
  - destruct r; cbn; [|done]. pose proof E as E'. apply read_Ok in E as (_ & _ & _ & H & Hle & Hd). specialize (H Hl).
    split; [done|]. split; [|done]. clear -E' Hl. unfold read in E'.
    destruct (stream (input s)) as [[|[bs| |er] ev] fs o cl]; cbn in *; simplify_eq; cbn; [lia|].
    destruct (length bs <=? limit)%nat eqn:E2; bool_split; simplify_eq; cbn; [lia|]. rewrite length_take, length_drop. lia.
Qed.

Lemma wp_read_more s : well_buffered s ->
  wp read_more s (fun r s' =>
    output s' = output s /\ (left_over s' <= left_over s)%nat /\
    match r with
    | Ok _ => well_buffered s' /\ pending s' = pending s /\
        (volume (inbound (stream (input s'))) < volume (inbound (stream (input s))))%nat
    | Err _ => True
    end).
Proof.
  intros Hwf. unfold read_more. apply wp_bind, wp_set_input. destruct (remaining_compact _ Hwf) as (Hr & Hs & Hc).
  apply wp_bind. eapply wp_mono; [apply wp_read_stream, READ_BUFFER_pos|]. cbn.
  intros r s' (Ho & Hrem & Hcur & Hbuf & Hvol & H). rewrite Hr in Hrem. rewrite Hs in *.
  destruct r as [bytes|e]; [|split_and!; [done|unfold left_over; rewrite Hrem; lia|done]].
  destruct H as (_ & Hv & Hd). destruct (nonempty bytes) eqn:En.
  - destruct bytes as [|c bytes]; [done|]. destruct (Hd ltac:(done)) as [Hdel Hlt]. apply wp_set_input.
    assert (Hwf' : (cursor (input s') <= length (buffer (input s')))%nat) by (rewrite Hcur, Hbuf; exact Hc).
    destruct (remaining_extend (c :: bytes) _ Hwf') as [Hre Hwe].
    unfold left_over, pending, well_buffered. cbn [input output].
    change (stream (extend (c :: bytes) (input s'))) with (stream (input s')).
    rewrite Hre, Hrem, length_app. split_and!; [done|lia|done| |done].
    by rewrite Hdel, app_assoc.
  - apply wp_with_state, wp_throw. split_and!; [done|unfold left_over; rewrite Hrem; lia|done].
Qed.

Lemma wp_write_to bytes s :
  wp (write_to bytes) s (fun r s' => input s' = input s /\ exists w, wrote s s' w /\ w `prefix_of` bytes /\
    match r with Ok _ => w = bytes | Err _ => True end).
Proof.
  unfold wp, write_to. destruct (write_all_within bytes (output s)) as [r c] eqn:E.
  eexists _, _. split; [reflexivity|]. cbn. split; [done|].
  apply write_all_within_spec in E as (Hi & Hc & w & Ho & Hp & Hok). exists w. unfold wrote. cbn.
  split_and!; [done..|]. destruct r; cbn; [by apply Hok|done].
Qed.

Lemma take_drop_pending n s : (n <= length (remaining (input s)))%nat -> well_buffered s ->
  let s' := mkTransfer (mkBufferedStream (stream (input s)) (buffer (input s)) (cursor (input s) + n) (direction (input s))) (output s) in
  pending s = take n (remaining (input s)) ++ pending s' /\ well_buffered s' /\
  (left_over s' + n = left_over s)%nat /\ remaining (input s') = drop n (remaining (input s)).
Proof.
  intros Hn Hwf. unfold pending, well_buffered, left_over, remaining in *. cbn. rewrite length_drop in Hn.
  rewrite <- (drop_drop (buffer (input s)) n (cursor (input s))). split_and!; [|lia| |done].
  - by rewrite app_assoc, take_drop.
  - rewrite !length_drop. lia.
Qed.
(** A line with its end, which is the first in it. *)
Definition crlf_line (line : str) : Prop := exists w, split_once_str CRLF line = Some (w, []).

Lemma split_once_str_cut pat s a b : split_once_str pat s = Some (a, b) -> split_once_str pat (a ++ pat) = Some (a, []).
Proof.
  revert a b. induction s as [|c s IH]; intros a b H.
  - cbn in H. destruct (strip_prefix pat []) eqn:E; [|done]. injection H as <- <-.
    apply strip_prefix_Some in E. destruct pat; [done|discriminate].
  - cbn [split_once_str] in H. destruct (strip_prefix pat (c :: s)) eqn:E.
    + injection H as <- <-. cbn [app]. pose proof (strip_prefix_app pat []) as Hp. rewrite app_nil_r in Hp.
      destruct pat; [done|]. cbn [split_once_str]. by rewrite Hp.
    + apply bind_Some in H as ([a' b'] & H & [= <- <-]). cbn [app]. rewrite split_once_str_cons.
      * by rewrite (IH _ _ H).
      * destruct (strip_prefix pat (c :: a' ++ pat)) as [r|] eqn:E'; [|done]. exfalso.
        apply strip_prefix_Some in E'. apply split_once_str_sound in H as ->.
        rewrite app_assoc, app_comm_cons, E', <- app_assoc, strip_prefix_app in E. done.
Qed.

Lemma wp_read_crlf_line_loop fuel limit s : well_buffered s -> (volume (inbound (stream (input s))) < fuel)%nat ->
  wp (read_crlf_line_loop fuel limit) s (fun r s' =>
    output s' = output s /\ (left_over s' <= left_over s)%nat /\
    match r with
    | Ok line => well_buffered s' /\ crlf_line line /\ pending s = line ++ pending s' /\
        (left_over s' + length line <= left_over s)%nat /\ (length line <= limit)%nat
    | Err _ => True
    end).
Proof.
  revert s. induction fuel as [|fuel IH]; intros s Hwf Hf; [lia|]. cbn [read_crlf_line_loop].
  apply wp_bind, wp_get_remaining. destruct (split_once_str CRLF (remaining (input s))) as [[w rest]|] eqn:E.
  - cbv zeta. apply wp_bind, wp_throw_if; [done|]. intros Hlim. bool_split.
    apply wp_bind. unfold advance. apply wp_set_input. apply wp_ret. cbn [output input].
    pose proof (split_once_str_sound _ _ _ _ E) as Es.
    assert (Hlen : length (remaining (input s)) = (length w + 2 + length rest)%nat)
      by (rewrite Es, !length_app; change (length CRLF) with 2%nat; lia).
    destruct (take_drop_pending (length w + 2) s ltac:(lia) Hwf) as (Hp & Hw & Hl & _).
    assert (Ht : take (length w + 2) (remaining (input s)) = w ++ CRLF).
    { rewrite Es, app_assoc. rewrite take_app_length'; [done|]. rewrite length_app. done. }
    rewrite Ht in *. split_and!; [done|lia|done| |done| |].
    + exists w. by eapply split_once_str_cut.
    + rewrite length_app. change (length CRLF) with 2%nat. lia.
    + rewrite length_app. change (length CRLF) with 2%nat. lia.
  - apply wp_bind, wp_throw_if; [done|]. intros _. apply wp_bind. eapply wp_mono; [by apply wp_read_more|].
    intros r s1 (Ho & Hl & H). destruct r as [[]|e]; [|by split_and!]. destruct H as (Hwf1 & Hp1 & Hv).
    eapply wp_mono; [apply IH; [done|lia]|]. cbn. intros r s2 (Ho2 & Hl2 & H2).
    split; [congruence|]. split; [lia|]. destruct r; [|done]. rewrite <- Hp1. split_and!; try apply H2. lia.
Qed.

Lemma wp_read_crlf_line limit s : well_buffered s ->
  wp (read_crlf_line limit) s (fun r s' =>
    output s' = output s /\ (left_over s' <= left_over s)%nat /\
    match r with
    | Ok line => well_buffered s' /\ crlf_line line /\ pending s = line ++ pending s' /\
        (left_over s' + length line <= left_over s)%nat /\ (length line <= limit)%nat
    | Err _ => True
    end).
Proof. intros H. apply wp_with_state, wp_read_crlf_line_loop; [done|]. unfold left_over. lia. Qed.

(** What a copy of [n] bytes did. *)
Definition copied (n : Z) (s s' : Transfer) (r : result EgressError unit) : Prop :=
  (left_over s' <= left_over s)%nat /\
  exists w, wrote s s' w /\ w `prefix_of` pending s /\ (Z.of_nat (length w) <= n)%Z /\
    match r with
    | Ok _ => well_buffered s' /\ pending s = w ++ pending s' /\ Z.of_nat (length w) = n /\
        (left_over s' + length w <= left_over s)%nat
    | Err _ => True
    end.

Lemma prefix_take_le (w l : str) n : w `prefix_of` take n l -> w `prefix_of` l /\ (length w <= n)%nat.
Proof.
  intros H. split; [etrans; [exact H|apply prefix_take]|]. apply prefix_length in H. rewrite length_take in H. lia.
Qed.

Lemma wp_copy_stream_loop fuel n s : (0 <= n)%Z -> well_buffered s -> remaining (input s) = [] ->
  (volume (inbound (stream (input s))) < fuel)%nat ->
  wp (copy_stream_loop fuel n) s (fun r s' => copied n s s' r).
Proof.
  revert n s. induction fuel as [|fuel IH]; intros n s Hn Hwf Hrem Hf; [lia|]. cbn [copy_stream_loop].
  destruct (n =? 0)%Z eqn:En; bool_split.
  - apply wp_ret. subst n. split; [lia|]. exists []. split_and!; [by apply wrote_nil|apply prefix_nil|done..|]. cbn. lia.
  - apply wp_bind. pose proof COPY_BUFFER_pos as Hb. eapply wp_mono; [apply wp_read_stream; lia|].
    cbv beta. intros r s1 (Ho & Hr1 & Hcur & Hbuf & Hvol & H).
    assert (Hl1 : (left_over s1 <= left_over s)%nat) by (unfold left_over; rewrite Hr1; lia).
    assert (Hnil : forall (r : result EgressError unit), is_ok r = false -> copied n s s1 r).
    { intros r' Hr'. split; [done|]. exists []. split_and!; [by apply wrote_nil|apply prefix_nil|done|by destruct r']. }
    destruct r as [bytes|e]; [|by apply Hnil]. destruct H as (Hlen & Hv & Hd).
    destruct bytes as [|c bytes]; [by apply wp_with_state, wp_throw, Hnil|].
    destruct (Hd ltac:(done)) as [Hdel Hlt]. set (bs := c :: bytes) in *.
    assert (Hp : pending s = bs ++ pending s1) by (unfold pending; rewrite Hr1, Hrem; exact Hdel).
    apply wp_bind. eapply wp_mono; [apply wp_write_to|]. cbv beta. intros r2 s2 (Hi2 & w & Hw & Hpre & Hr2).
    assert (Hw' : wrote s s2 w) by (unfold wrote in *; by rewrite <- Ho).
    assert (Hp2 : pending s2 = pending s1) by (unfold pending; by rewrite Hi2).
    assert (Hl2 : left_over s2 = left_over s1) by (unfold left_over; by rewrite Hi2).
    assert (Hbs : (Z.of_nat (length bs) <= n)%Z) by lia.
    destruct r2 as [[]|e].
    + subst w. eapply wp_mono; [apply IH; [lia|unfold well_buffered in *; by rewrite Hi2, Hcur, Hbuf|by rewrite Hi2, Hr1|rewrite Hi2; lia]|].
      cbv beta. intros r3 s3 (Hl3 & w & Hw3 & Hpre3 & Hn3 & H3). split; [lia|]. exists (bs ++ w). split_and!.
      * by eapply wrote_trans.
      * rewrite Hp, <- Hp2. by apply prefix_app.
      * rewrite length_app. lia.
      * destruct r3; [|done]. destruct H3 as (? & Hp3 & ? & ?). rewrite Hp, <- Hp2, Hp3, length_app.
        assert (left_over s1 + length bs <= left_over s)%nat by (unfold left_over; rewrite Hr1; lia).
        split_and!; [done|by rewrite app_assoc|lia|lia].
    + split; [lia|]. exists w. split_and!; [done|rewrite Hp; etrans; [exact Hpre|by apply prefix_app_r]| |done].
      apply prefix_length in Hpre. lia.
Qed.

Lemma wp_copy_exact_to n s : (0 <= n)%Z -> well_buffered s -> wp (copy_exact_to n) s (fun r s' => copied n s s' r).
Proof.
  intros Hn Hwf. unfold copy_exact_to. apply wp_bind, wp_get_remaining, wp_bind.
  destruct (nonempty (remaining (input s)) && negb (n =? 0)%Z) eqn:E.
  - cbv zeta. set (rem := remaining (input s)). set (count := Z.to_nat (Z.min (Z.of_nat (length rem)) n)).
    assert (Hc : (count <= length rem)%nat) by lia. assert (Hcn : (Z.of_nat count <= n)%Z) by lia.
    apply wp_bind. eapply wp_mono; [apply wp_write_to|]. cbv beta. intros r s1 (Hi1 & w & Hw & Hpre & Hr).
    destruct (prefix_take_le _ _ _ Hpre) as [Hpre' Hlw].
    assert (Hl1 : left_over s1 = left_over s) by (unfold left_over; by rewrite Hi1).
    destruct r as [[]|e].
    2: { split; [lia|]. exists w. split_and!; [done| |lia|done]. unfold pending. etrans; [exact Hpre'|by apply prefix_app_r]. }
    subst w. apply wp_bind. unfold advance. apply wp_set_input, wp_ret, wp_with_state.
    assert (Hwf1 : well_buffered s1) by (unfold well_buffered; by rewrite Hi1).
    destruct (take_drop_pending count s1 ltac:(by rewrite Hi1) Hwf1) as (Hp & Hwf2 & Hl2 & Hr2).
    set (s2 := mkTransfer _ _) in *. rewrite Hi1 in Hr2, Hp.
    assert (Hp1 : pending s = pending s1) by (unfold pending; by rewrite Hi1).
    assert (Hlt : length (take count rem) = count) by (rewrite length_take; lia).
    assert (Hgo : (n - Z.of_nat count = 0)%Z \/ remaining (input s2) = []).
    { destruct (decide (n <= Z.of_nat (length rem))%Z); [left; lia|right]. rewrite Hr2. apply drop_ge. unfold rem in *. lia. }
    assert (Hloop : wp (copy_stream_loop (S (left_over s2)) (n - Z.of_nat count)) s2 (fun r s' => copied (n - Z.of_nat count) s2 s' r)).
    { destruct Hgo as [H0|Hnil].
      - rewrite H0. cbn [copy_stream_loop]. apply wp_ret. split; [lia|]. exists [].
        split_and!; [by apply wrote_nil|apply prefix_nil|done..|]. cbn. lia.
      - apply wp_copy_stream_loop; [lia|done..|]. unfold left_over. lia. }
    eapply wp_mono; [exact Hloop|]. cbv beta. intros r s3 (Hl3 & w & Hw3 & Hpre3 & Hn3 & H3).
    split; [lia|]. exists (take count rem ++ w). split_and!.
    + eapply wrote_trans; [exact Hw|]. exact Hw3.
    + rewrite Hp1, Hp. by apply prefix_app.
    + rewrite length_app, Hlt. lia.
    + destruct r; [|done]. destruct H3 as (? & Hp3 & ? & ?). rewrite Hp1, Hp, Hp3, length_app, Hlt.
      split_and!; [done|by rewrite app_assoc|lia|lia].
  - apply wp_ret, wp_with_state. apply andb_false_iff in E as [E|E].
    + apply wp_copy_stream_loop; [done..| |unfold left_over; lia]. by destruct (remaining (input s)).
    + bool_split. subst n. cbn [copy_stream_loop]. apply wp_ret. split; [lia|]. exists [].
      split_and!; [by apply wrote_nil|apply prefix_nil|done..|]. cbn. lia.
Qed.
(** ** The chunked grammar, with the bytes its metadata takes *)

Inductive trailer_section : nat -> str -> Prop :=
  | trailer_end : trailer_section 2 CRLF
  | trailer_field m line rest : crlf_line line -> line <> CRLF -> validate_trailer_line line = Ok tt ->
      trailer_section m rest -> trailer_section (length line + m) (line ++ rest).

Inductive chunked_message : nat -> str -> Prop :=
  | last_chunk m line rest : crlf_line line -> parse_chunk_size line = Ok 0%Z ->
      trailer_section m rest -> chunked_message (length line + m) (line ++ rest)
  | data_chunk m line n data rest : crlf_line line -> parse_chunk_size line = Ok n -> n <> 0%Z ->
      Z.of_nat (length data) = n -> chunked_message m rest ->
      chunked_message (length line + m) (line ++ data ++ CRLF ++ rest).

(** A computation that forwards what it consumes, a message of shape [P] when it succeeds. *)
Definition forwarded (P : str -> Prop) (s s' : Transfer) (r : result EgressError unit) : Prop :=
  (left_over s' <= left_over s)%nat /\
  exists w, wrote s s' w /\ w `prefix_of` pending s /\
    match r with
    | Ok _ => well_buffered s' /\ pending s = w ++ pending s' /\ P w
    | Err _ => True
    end.

Lemma forwarded_stop P s s' e : (left_over s' <= left_over s)%nat -> output s' = output s -> forwarded P s s' (Err e).
Proof. intros Hl Ho. split; [done|]. exists []. split_and!; [by apply wrote_nil|apply prefix_nil|done]. Qed.

(** First [v] is consumed and written, then the rest is forwarded. *)
Lemma forwarded_step (P P' : str -> Prop) s s1 s2 v r :
  (left_over s1 <= left_over s)%nat -> wrote s s1 v -> pending s = v ++ pending s1 ->
  forwarded P s1 s2 r -> (forall w, P w -> P' (v ++ w)) -> forwarded P' s s2 r.
Proof.
  intros Hl Hw Hp (Hl2 & w & Hw2 & Hpre & Hr) HP. split; [lia|]. exists (v ++ w).
  split_and!; [by eapply wrote_trans|rewrite Hp; by apply prefix_app|].
  destruct r; [|done]. destruct Hr as (Hwf & Hp2 & HPw). split_and!; [done|by rewrite Hp, Hp2, app_assoc|by apply HP].
Qed.


(** A consumed line that is then written. *)
Lemma wp_write_line line s s1 (k : M unit) (P : str -> Prop) (Q : result EgressError unit -> Transfer -> Prop) :
  output s1 = output s -> well_buffered s1 -> pending s = line ++ pending s1 ->
  (left_over s1 + length line <= left_over s)%nat ->
  (forall s2, well_buffered s2 -> wrote s s2 line -> pending s = line ++ pending s2 ->
     (left_over s2 + length line <= left_over s)%nat -> wp k s2 Q) ->
  (forall e s2, forwarded P s s2 (Err e) -> Q (Err e) s2) ->
  wp (write_to line ;; k) s1 Q.
Proof.
  intros Ho Hwf Hp Hl Hk He. apply wp_bind. eapply wp_mono; [apply wp_write_to|]. cbv beta. intros r s2 (Hi & w & Hw & Hpre & Hr).
  assert (Hw' : wrote s s2 w) by (unfold wrote in *; by rewrite <- Ho).
  assert (Hp2 : pending s2 = pending s1) by (unfold pending; by rewrite Hi).
  assert (Hl2 : left_over s2 = left_over s1) by (unfold left_over; by rewrite Hi).
  destruct r as [[]|e].
  - subst w. apply Hk; [unfold well_buffered; by rewrite Hi|done|by rewrite Hp2|lia].
  - apply He. split; [lia|]. exists w. split_and!; [done|rewrite Hp; etrans; [exact Hpre|by apply prefix_app_r]|done].
Qed.

Lemma crlf_line_length line : crlf_line line -> (2 <= length line)%nat.
Proof. intros [w H%split_once_str_sound]. rewrite H, !length_app. change (length CRLF) with 2%nat. lia. Qed.

Lemma wp_trailers_loop fuel limit meta s : well_buffered s -> (left_over s < fuel)%nat -> (meta <= limit)%nat ->
  wp (forward_chunk_trailers_loop fuel limit meta) s
     (fun r s' => forwarded (fun w => exists m, trailer_section m w /\ (meta + m <= limit)%nat) s s' r).
Proof.
  revert meta s. induction fuel as [|fuel IH]; intros meta s Hwf Hf Hm; [lia|]. cbn [forward_chunk_trailers_loop].
  apply wp_bind. eapply wp_mono; [by apply wp_read_crlf_line|]. cbv beta. intros r s1 (Ho & Hl & H).
  destruct r as [line|e]; [|by apply forwarded_stop]. destruct H as (Hwf1 & Hline & Hp & Hl1 & Hlim). cbv zeta.
  pose proof (crlf_line_length _ Hline) as H2. destruct (line =s? CRLF) eqn:E.
  - apply str_eqb_eq in E. subst line. eapply wp_mono; [apply wp_write_to|]. cbv beta. intros r s2 (Hi & w & Hw & Hpre & Hr).
    assert (Hw' : wrote s s2 w) by (unfold wrote in *; by rewrite <- Ho).
    split; [unfold left_over in *; rewrite Hi; lia|]. exists w.
    split_and!; [done|rewrite Hp; etrans; [exact Hpre|by apply prefix_app_r]|].
    destruct r; [|done]. subst w. unfold well_buffered, pending in *. rewrite Hi. split_and!; [done..|].
    exists 2%nat. change (length CRLF) with 2%nat in *. split; [constructor|lia].
  - apply str_eqb_neq in E. apply wp_bind, wp_lift. destruct (validate_trailer_line line) as [[]|e] eqn:Ev;
      [|apply forwarded_stop; [lia|done]].
    eapply wp_write_line; [done..| |by intros; eassumption]. intros s2 Hwf2 Hw2 Hp2 Hl2.
    eapply wp_mono; [apply IH; [done|lia|lia]|]. cbv beta. intros r s3 H3.
    eapply forwarded_step; [|done..|]; [lia|]. cbv beta. intros w (m & Hs & Hle). exists (length line + m)%nat.
    split; [by constructor|lia].
Qed.

Lemma wp_chunked_loop fuel limit meta s : well_buffered s -> (left_over s < fuel)%nat -> (meta <= limit)%nat ->
  wp (forward_chunked_body_loop fuel limit meta) s
     (fun r s' => forwarded (fun w => exists m, chunked_message m w /\ (meta + m <= limit)%nat) s s' r).
Proof.
  revert meta s. induction fuel as [|fuel IH]; intros meta s Hwf Hf Hm; [lia|]. cbn [forward_chunked_body_loop].
  apply wp_bind. eapply wp_mono; [by apply wp_read_crlf_line|]. cbv beta. intros r s1 (Ho & Hl & H).
  destruct r as [line|e]; [|by apply forwarded_stop]. destruct H as (Hwf1 & Hline & Hp & Hl1 & Hlim). cbv zeta.
  pose proof (crlf_line_length _ Hline) as H2. apply wp_bind, wp_lift.
  destruct (parse_chunk_size line) as [n|e] eqn:En; [|apply forwarded_stop; [lia|done]].
  eapply wp_write_line; [done..| |by intros; eassumption]. intros s2 Hwf2 Hw2 Hp2 Hl2.
  destruct (n =? 0)%Z eqn:E0; bool_split.
  - subst n. apply wp_with_state. eapply wp_mono; [apply wp_trailers_loop; [done|lia|lia]|]. cbv beta. intros r s3 H3.
    eapply forwarded_step; [|done..|]; [lia|]. cbv beta. intros w (m & Hs & Hle). exists (length line + m)%nat.
    split; [by constructor|lia].
  - assert (Hn : (0 <= n)%Z).
    { apply chunk_size_nonneg in En. lia. }
    apply wp_bind. eapply wp_mono; [by apply wp_copy_exact_to|]. cbv beta. intros r s3 (Hl3 & w & Hw3 & Hpre3 & Hwn & H3).
    destruct r as [[]|e].
    2: { eapply forwarded_step; [|done..| |by intros w' Hw'; exact Hw']; [lia|]. split; [lia|]. by exists w. }
    destruct H3 as (Hwf3 & Hp3 & Hlen & Hl3').
    assert (Hw03 : wrote s s3 (line ++ w)) by (by eapply wrote_trans).
    assert (Hp03 : pending s = (line ++ w) ++ pending s3) by (by rewrite Hp2, Hp3, app_assoc).
    apply wp_bind. eapply wp_mono; [by apply wp_read_crlf_line|]. cbv beta. intros r s4 (Ho4 & Hl4 & H4).
    destruct r as [delim|e].
    2: { eapply forwarded_step; [|exact Hw03|exact Hp03|by apply forwarded_stop|by intros w' Hw'; exact Hw']. lia. }
    destruct H4 as (Hwf4 & Hd & Hp4 & Hl4' & Hdl). pose proof (crlf_line_length _ Hd) as H5.
    apply wp_bind, wp_throw_if; intros Hcr; bool_split.
    { eapply forwarded_step; [|exact Hw03|exact Hp03|by apply forwarded_stop|by intros w' Hw'; exact Hw']. lia. }
    apply str_eqb_eq in Hcr. subst delim.
    eapply (wp_write_line _ s3); [done..| |].
    + intros s5 Hwf5 Hw5 Hp5 Hl5. change (length CRLF) with 2%nat in *. eapply wp_mono; [apply IH; [done|lia|lia]|].
      cbv beta. intros r s6 H6.
      eapply (forwarded_step _ _ s s5 s6 ((line ++ w) ++ CRLF)); [lia|by eapply wrote_trans|by rewrite Hp03, Hp5, !app_assoc|done|].
      cbv beta. intros w' (m & Hs & Hle). exists (length line + m)%nat. rewrite <- !app_assoc. split; [by econstructor|lia].
    + intros e s5 H5'. eapply forwarded_step; [|exact Hw03|exact Hp03|exact H5'|by intros w' Hw'; exact Hw']. lia.
Qed.
(** ** One request *)

Definition body_of (framing : MessageFraming) (max_header_bytes : nat) (body : str) : Prop :=
  match framing with
  | FramingNone => body = []
  | ContentLength n => Z.of_nat (length body) = n
  | Chunked => exists m, chunked_message m body /\ (m <= max_header_bytes)%nat
  end.

(** The bytes a message of known length can have. *)
Definition body_bound (framing : MessageFraming) (w : nat) : Prop :=
  match framing with
  | FramingNone => w = 0%nat
  | ContentLength n => (Z.of_nat w <= n)%Z
  | Chunked => True
  end.

Lemma validate_framing_nonneg headers n : validate_framing headers = Ok (ContentLength n) -> (0 <= n)%Z.
Proof.
  unfold validate_framing. intros [_ H]%err_if_bind_Ok. apply err_if_bind_Ok in H as [_ H].
  destruct (List.filter (named "content-length") headers) as [|h ?].
  - destruct (List.filter (named "transfer-encoding") headers); [done|]. by apply err_if_bind_Ok in H as [_ ?].
  - apply err_if_bind_Ok in H as [_ H]. apply bind_Ok in H as (k & H & [= <-]). apply ok_or_Ok in H.
    destruct (utf8_valid _); [|done]. apply parse_uint_bounds in H. lia.
Qed.

(** What forwarding a body did. *)
Definition body_forwarded (framing : MessageFraming) (limit : nat) (s s' : Transfer) (r : result EgressError unit) : Prop :=
  exists w, wrote s s' w /\ w `prefix_of` pending s /\ body_bound framing (length w) /\
    match r with Ok _ => pending s = w ++ pending s' /\ body_of framing limit w | Err _ => True end.

Lemma wp_forward_body framing limit s headers : validate_framing headers = Ok framing -> well_buffered s ->
  wp (forward_body framing limit) s (fun r s' => body_forwarded framing limit s s' r).
Proof.
  intros Hv Hwf. destruct framing as [|n|]; cbn [forward_body].
  - apply wp_ret. exists []. split_and!; [by apply wrote_nil|apply prefix_nil|done..].
  - eapply wp_mono; [apply wp_copy_exact_to; [by eapply validate_framing_nonneg|done]|]. cbv beta.
    intros r s' (_ & w & Hw & Hpre & Hn & H). exists w. split_and!; [done..|]. destruct r; [|done]. by destruct H as (? & ? & ? & ?).
  - apply wp_with_state. eapply wp_mono; [apply wp_chunked_loop; [done|lia|lia]|]. cbv beta.
    intros r s' (_ & w & Hw & Hpre & H). exists w. split_and!; [done..|]. destruct r; [|done]. destruct H as (? & ? & m & Hm & Hle).
    split; [done|]. exists m. split; [done|lia].
Qed.

Lemma wp_write_all_with_timeout bytes s :
  wp (write_all_with_timeout bytes) s (fun r s' => input s' = input s /\ exists w, wrote s s' w /\ w `prefix_of` bytes /\
    match r with Ok _ => w = bytes | Err _ => True end).
Proof.
  unfold wp, write_all_with_timeout. destruct (write_all_within bytes (output s)) as [r c] eqn:E.
  eexists _, _. split; [reflexivity|]. cbn. split; [done|].
  apply write_all_within_spec in E as (Hi & Hc & w & Ho & Hp & Hok). exists w. unfold wrote. cbn.
  split_and!; [done..|]. destruct r; cbn; [by apply Hok|done].
Qed.

Lemma wp_shutdown_output s :
  wp shutdown_output s (fun r s' => input s' = input s /\ outbound (output s') = outbound (output s) /\
    match r with Ok _ => closed (output s') = true | Err _ => True end).
Proof.
  unfold wp, shutdown_output, shutdown_within. destruct (write_faults (output s)) as [|[[n|n e]|] faults];
    eexists _, _; (split; [reflexivity|]); cbn; done.
Qed.

(** What [forward_one_request] leaves behind. *)
Definition request_forwarded (head : str) (framing : MessageFraming) (limit : nat) (source : str) (upstream : Conn)
    (r : result EgressError unit) (s' : Transfer) : Prop :=
  exists w, outbound (output s') = outbound upstream ++ w /\ w `prefix_of` (head ++ source) /\
    body_bound framing (length w - length head) /\
    match r with
    | Ok _ => exists body, w = head ++ body /\ body_of framing limit body /\ closed (output s') = true
    | Err _ => True
    end.

Lemma wp_forward_one_request head framing limit headers client remainder upstream :
  validate_framing headers = Ok framing ->
  wp (forward_one_request head framing limit)
     (mkTransfer (BufferedStream_new client remainder DirectionRequest) upstream)
     (fun r s' => request_forwarded head framing limit (remainder ++ delivered (inbound client)) upstream r s').
Proof.
  intros Hv. set (s := mkTransfer _ _). unfold forward_one_request.
  assert (Hps : pending s = remainder ++ delivered (inbound client)) by (unfold pending, remaining; cbn; by rewrite drop_0).
  assert (Hwf : well_buffered s) by (unfold well_buffered; cbn; lia).
  assert (Hb0 : forall k, (k <= length head)%nat -> body_bound framing (k - length head)).
  { intros k Hk. replace (k - length head)%nat with 0%nat by lia. destruct framing as [|n|]; cbn; [done| |done].
    by eapply validate_framing_nonneg. }
  apply wp_bind. eapply wp_mono; [apply wp_write_all_with_timeout|]. cbv beta. intros r s1 (Hi & w & (Ho & _) & Hpre & Hr).
  destruct r as [[]|e].
  2: { exists w. split_and!; [done|by apply prefix_app_r| |done]. apply Hb0. by apply prefix_length. }
  subst w. assert (Hwf1 : well_buffered s1) by (unfold well_buffered; by rewrite Hi).
  assert (Hp1 : pending s1 = pending s) by (unfold pending; by rewrite Hi).
  apply wp_bind. eapply wp_mono; [by eapply wp_forward_body|]. cbv beta. intros r s2 (w & (Ho2 & _ & _) & Hpre2 & Hb & Hr2).
  assert (Hw : outbound (output s2) = outbound upstream ++ head ++ w) by (rewrite Ho2, Ho; cbn; by rewrite <- app_assoc).
  assert (Hpw : (head ++ w) `prefix_of` (head ++ remainder ++ delivered (inbound client)))
    by (rewrite <- Hps, <- Hp1; by apply prefix_app).
  assert (Hlw : body_bound framing (length (head ++ w) - length head)) by (by rewrite length_app, Nat.add_sub').
  destruct r as [[]|e]; [|by exists (head ++ w)]. destruct Hr2 as [_ Hbody].
  apply wp_bind, wp_with_state, wp_throw_if; [by exists (head ++ w)|]. intros _.
  eapply wp_mono; [apply wp_shutdown_output|]. cbv beta. intros r s3 (_ & Ho3 & Hc). exists (head ++ w).
  split_and!; [by rewrite Ho3|done|done|]. destruct r; [|done]. by exists w.
Qed.

(** C12: forwarding a request always ends, and what reaches the upstream is the new
    head and then a prefix of what the client sent behind its own head: never more
    than the announced length, exactly one whole message of the announced framing
    when it succeeds, and then nothing more, because the upstream's side is shut. *)
Theorem request_forwarding_exact head framing limit headers client remainder upstream :
  validate_framing headers = Ok framing ->
  exists r s',
    forward_one_request head framing limit (mkTransfer (BufferedStream_new client remainder DirectionRequest) upstream) = Some (r, s') /\
    request_forwarded head framing limit (remainder ++ delivered (inbound client)) upstream r s'.
Proof. apply wp_forward_one_request. Qed.

Definition sample_client : Conn :=
  mkConn [Data ("OD" : str); Data ("Y" ++ CRLF ++ "0" ++ CRLF); Data CRLF; Data ("GET /second" : str)] [] [] false.

Lemma request_forwarding_exact_witness :
  let s := mkTransfer (BufferedStream_new sample_client ("4" ++ CRLF ++ "B") DirectionRequest) (mkConn [] [] [] false) in
  validate_framing [mkHeader "transfer-encoding" "chunked"] = Ok Chunked /\
  (outbound ∘ output ∘ snd) <$> forward_one_request "HEAD" Chunked 1024 s
    = Some ("HEAD4" ++ CRLF ++ "BODY" ++ CRLF ++ "0" ++ CRLF ++ CRLF) /\
  exists r s', forward_one_request "HEAD" Chunked 1024 s = Some (r, s') /\
    request_forwarded "HEAD" Chunked 1024 ("4" ++ CRLF ++ "B" ++ delivered (inbound sample_client)) (mkConn [] [] [] false) r s'.
Proof.
  split; [vm_compute; reflexivity|]. split; [vm_compute; reflexivity|].
  apply (request_forwarding_exact "HEAD" Chunked 1024 [mkHeader "transfer-encoding" "chunked"] sample_client ("4" ++ CRLF ++ "B")).
  vm_compute. reflexivity.
Defined.
End Transfer.
