(* ===== verification/Egress.v ===== *)
(** * The egress proxy ([codex-start-proxy/src/egress.rs], handler and listener)

    One client connection from its first byte to the end of its response, or to
    the point where a tunnel is handed to the relay; and the accept loop with its
    limit on connections.  Name resolution and connecting are interfaces. *)

From S2P Require Export Transfer.

(** [lookup_host] and [TcpStream::connect]; [None] is no answer within the limit. *)
Class Network := {
  lookup_host : str -> Z -> option (result Streams.io_error (list Allowlist.SocketAddr));
  tcp_connect : list Allowlist.SocketAddr -> option (result Streams.io_error Streams.Conn) }.

Module Egress.
Import IpAddr Allowlist Streams Auth Http Transfer.

(** ** Configuration; durations are in milliseconds *)

Record EgressConfig := mkEgressConfig {
  allowlist : list AllowRule;
  address_policy : list AllowRule;
  auth_token : option AuthToken;
  max_connections : nat;
  max_header_bytes : nat;
  header_timeout : Z;
  connect_timeout : Z;
  idle_timeout : Z }.

Definition DEFAULT_MAX_HEADER_BYTES : nat := Z.to_nat (64 * 1024).
Arguments DEFAULT_MAX_HEADER_BYTES : simpl never.
Definition EgressConfig_default : EgressConfig :=
  mkEgressConfig [] [] None 256 DEFAULT_MAX_HEADER_BYTES 10000 10000 300000.

Definition EgressConfig_validate (self : EgressConfig) : result EgressError unit :=
  err_if (max_connections self =? 0)%nat (InvalidConfig "max_connections must be non-zero") ;;
  err_if (max_header_bytes self <? 1024)%nat (InvalidConfig "max_header_bytes must be at least 1024") ;;
  err_if ((header_timeout self =? 0) || (connect_timeout self =? 0) || (idle_timeout self =? 0))%Z
    (InvalidConfig "proxy timeouts must be non-zero") ;;
  err_if (is_some_and (auth_token self) (fun token => existsb (fun byte => negb (is_graphic byte)) token))
    (InvalidConfig "HTTP proxy authentication token must contain printable ASCII without spaces").

(** ** Reading a request head *)

Record ReceivedHead := mkReceivedHead { received_head : str; remainder : str }.

Definition head_interruption (i : Interruption) : EgressError :=
  match i with Elapsed => HeaderTimeout | IoFailed error => Io error end.

Fixpoint read_request_head_loop (fuel : nat) (max_header_bytes : nat) (received : str) (client : Conn)
    : option (result EgressError ReceivedHead * Conn) :=
  match fuel with
  | O => None
  | S fuel =>
      match read READ_BUFFER client with
      | (Err i, client) => Some (Err (head_interruption i), client)
      | (Ok [], client) => Some (Err UnexpectedEof, client)
      | (Ok bytes, client) =>
          let received := received ++ bytes in
          match find_header_end received with
          | Some end_ =>
              if (max_header_bytes <? end_)%nat then Some (Err (HeaderTooLarge max_header_bytes), client)
              else Some (Ok (mkReceivedHead (take end_ received) (drop end_ received)), client)
          | None =>
              if (max_header_bytes <? length received)%nat then Some (Err (HeaderTooLarge max_header_bytes), client)
              else read_request_head_loop fuel max_header_bytes received client
          end
      end
  end.
Definition read_request_head (client : Conn) (config : EgressConfig) : option (result EgressError ReceivedHead * Conn) :=
  read_request_head_loop (S (volume (inbound client))) (max_header_bytes config) [] client.

(** ** Destinations *)

Fixpoint zs_compare (x y : list Z) : comparison :=
  match x, y with
  | [], [] => Eq
  | [], _ => Lt
  | _, [] => Gt
  | a :: x, b :: y => match Z.compare a b with Eq => zs_compare x y | c => c end
  end.
(** [Ord] of socket addresses: IPv4 first, then the address, then the port. *)
Definition socket_compare (x y : SocketAddr) : comparison :=
  match socket_ip x, socket_ip y with
  | V4 _, V6 _ => Lt
  | V6 _, V4 _ => Gt
  | V4 a, V4 b | V6 a, V6 b =>
      match zs_compare a b with Eq => Z.compare (socket_port x) (socket_port y) | c => c end
  end.
Fixpoint insert_address (a : SocketAddr) (l : list SocketAddr) : list SocketAddr :=
  match l with
  | [] => [a]
  | b :: l' => match socket_compare a b with Gt => b :: insert_address a l' | _ => a :: l end
  end.
(** [sort_unstable] and [dedup]. *)
Definition sort_addresses (l : list SocketAddr) : list SocketAddr := foldr insert_address [] l.
Fixpoint dedup_addresses (l : list SocketAddr) : list SocketAddr :=
  match l with
  | a :: (b :: _) as l' =>
      match socket_compare a b with Eq => dedup_addresses l' | _ => a :: dedup_addresses l' end
  | _ => l
  end.

Section network.
Context {N : Network}.

Definition resolve_checked (authority : Authority) (address_policy : list AllowRule)
    : option (result EgressError (list SocketAddr)) :=
  addresses ←
    match auth_host authority with
    | Ip ip => Some (Ok [mkSocketAddr ip (auth_port authority)])
    | Domain domain => map_err (Resolve authority) <$> lookup_host domain (auth_port authority)
    end;
  Some (addresses ← addresses;
        let addresses := dedup_addresses (sort_addresses addresses) in
        map_err AddressPolicy (policy_validate address_policy authority addresses) ;;
        Ok addresses).

(** The addresses are kept beside the connection that was made to one of them. *)
Definition connect_checked (authority : Authority) (address_policy : list AllowRule)
    : result EgressError (list SocketAddr * Conn) :=
  match resolve_checked authority address_policy with
  | None => Err (ConnectTimeout authority)
  | Some (Err error) => Err error
  | Some (Ok addresses) =>
      match tcp_connect addresses with
      | None => Err (ConnectTimeout authority)
      | Some (Err source) => Err (Connect authority source)
      | Some (Ok upstream) => Ok (addresses, upstream)
      end
  end.
End network.

(** ** Answers of the proxy itself *)

(** [write_response] followed by [shutdown]; both wait without a limit. *)
Definition response_text (status : Z) (reason body : str) (extra_headers : list (str * str)) : str :=
  "HTTP/1.1 " ++ dec status ++ " " ++ reason ++ CRLF ++ "Content-Length: " ++ dec (Z.of_nat (length body)) ++ CRLF
  ++ "Connection: close" ++ CRLF
  ++ concat (map (fun '(name, value) => name ++ ": " ++ value ++ CRLF) extra_headers)
  ++ CRLF ++ body.
Definition write_response (stream : Conn) (status : Z) (reason body : str) (extra_headers : list (str * str))
    : result EgressError unit * Conn :=
  match write_all (response_text status reason body extra_headers) stream with
  | (Err error, stream) => (Err (Io error), stream)
  | (Ok _, stream) => let '(r, stream) := shutdown stream in (map_err Io r, stream)
  end.

Definition proxy_error_response (error : EgressError) : Z * str * str * list (str * str) :=
  match error with
  | ProxyAuthenticationRequired =>
      (407, "Proxy Authentication Required" : str, "proxy authentication required" : str,
       [("Proxy-Authenticate" : str, "Bearer" : str)])
  | DestinationDenied _ | AddressPolicy _ => (403, "Forbidden" : str, "destination denied by egress policy" : str, [])
  | HeaderTooLarge _ => (431, "Request Header Fields Too Large" : str, "request headers too large" : str, [])
  | HeaderTimeout => (408, "Request Timeout" : str, "request header timed out" : str, [])
  | BodyTimeout => (408, "Request Timeout" : str, "request body timed out" : str, [])
  | ChunkMetadataTooLarge _ => (400, "Bad Request" : str, "chunk metadata exceeds the proxy limit" : str, [])
  | MalformedRequest _ | UnexpectedEof => (400, "Bad Request" : str, "malformed proxy request" : str, [])
  | ConnectTimeout _ => (504, "Gateway Timeout" : str, "upstream timed out" : str, [])
  | Resolve _ _ | Connect _ _ => (502, "Bad Gateway" : str, "upstream connection failed" : str, [])
  | ResponseTimeout => (504, "Gateway Timeout" : str, "upstream response timed out" : str, [])
  | _ => (500, "Internal Server Error" : str, "proxy error" : str, [])
  end%Z.
Definition send_proxy_error (stream : Conn) (error : EgressError) : result EgressError unit * Conn :=
  let '(status, reason, message, extra) := proxy_error_response error in
  write_response stream status reason message extra.

(** ** The response *)

Definition MAX_DISCARDED_PIPELINE_BYTES : nat := Z.to_nat (64 * 1024).
Arguments MAX_DISCARDED_PIPELINE_BYTES : simpl never.

(** [try_read] takes what is there; a stall is [WouldBlock]. *)
Fixpoint drain_loop (fuel : nat) (remaining : nat) (client : Conn) : option (result EgressError unit * Conn) :=
  match fuel with
  | O => None
  | S fuel =>
      if (remaining =? 0)%nat then Some (Ok tt, client)
      else
        match read (Nat.min remaining READ_BUFFER) client with
        | (Ok [], client) => Some (Ok tt, client)
        | (Ok bytes, client) => drain_loop fuel (remaining - length bytes) client
        | (Err Elapsed, client) => Some (Ok tt, client)
        | (Err (IoFailed error), client) => Some (Err (Io error), client)
        end
  end.
Definition drain_available_client_input : M unit := fun s =>
  '(r, client) ← drain_loop (S (volume (inbound (output s)))) MAX_DISCARDED_PIPELINE_BYTES (output s);
  Some (r, mkTransfer (input s) client).
(** [client.shutdown()]. *)
Definition shutdown_client : M unit := fun s =>
  let '(r, client) := shutdown (output s) in Some (map_err Io r, mkTransfer (input s) client).

Definition relay_body (framing : ResponseFraming) (max_header_bytes : nat) : M unit :=
  match framing with
  | ResponseNone => mret tt
  | ResponseContentLength length => copy_exact_to length
  | ResponseChunked => forward_chunked_body max_header_bytes
  | CloseDelimited => copy_until_eof_to
  end.

(** [for _ in 0..9]. *)
Fixpoint relay_responses (attempts : nat) (request_method : str) (max_header_bytes : nat) : M unit :=
  match attempts with
  | O => throw (MalformedResponse "too many informational responses")
  | S attempts =>
      head ← read_http_head max_header_bytes;
      response ← lift (ParsedResponse_parse head);
      throw_if (status response =? 101)%Z
        (MalformedResponse "protocol upgrades are forbidden for forwarded HTTP") ;;
      let final_response := negb (is_informational response) in
      write_to (response_forward_head response final_response) ;;
      if negb final_response then relay_responses attempts request_method max_header_bytes
      else
        relay_body (response_framing response request_method) max_header_bytes ;;
        drain_available_client_input ;;
        shutdown_client
  end.
Definition relay_one_response (request_method : str) (max_header_bytes : nat) : M unit :=
  relay_responses 9 request_method max_header_bytes.

(** ** One client *)

(** The handler is done, or has come to [relay_bidirectional]. *)
Inductive Flow := Finished | Tunnel.

Record Handled := mkHandled {
  outcome : result EgressError Flow;
  client_after : Conn;
  upstream_after : option (list SocketAddr * Conn) }.

(** [send_proxy_error(client, &error).await?; return Err(error)]. *)
Definition refuse (client : Conn) (upstream : option (list SocketAddr * Conn)) (error : EgressError) : Handled :=
  let '(r, client) := send_proxy_error client error in
  mkHandled (match r with Ok _ => Err error | Err e => Err e end) client upstream.

Section handler.
Context {I : Idna} {U : HttpUrlCrate} {H : Sha256} {N : Network}.

Definition open_tunnel (client : Conn) (addresses : list SocketAddr) (upstream : Conn) (remainder : str) : Handled :=
  match write_all ("HTTP/1.1 200 Connection Established" ++ CRLF ++ CRLF) client with
  | (Err error, client) => mkHandled (Err (Io error)) client (Some (addresses, upstream))
  | (Ok _, client) =>
      if nonempty remainder then
        match write_all remainder upstream with
        | (Err error, upstream) => mkHandled (Err (Io error)) client (Some (addresses, upstream))
        | (Ok _, upstream) => mkHandled (Ok Tunnel) client (Some (addresses, upstream))
        end
      else mkHandled (Ok Tunnel) client (Some (addresses, upstream))
  end.

Definition forward (client : Conn) (config : EgressConfig) (request : ParsedRequest) (path remainder : str)
    (addresses : list SocketAddr) (upstream : Conn) : option Handled :=
  '(r, s) ← forward_one_request (request_forward_head request path) (framing request) (max_header_bytes config)
              (mkTransfer (BufferedStream_new client remainder DirectionRequest) upstream);
  let client := stream (input s) in
  let upstream := output s in
  match r with
  | Err error => Some (refuse client (Some (addresses, upstream)) error)
  | Ok _ =>
      '(r, s) ← relay_one_response (method request) (max_header_bytes config)
                  (mkTransfer (BufferedStream_new upstream [] DirectionResponse) client);
      Some (mkHandled (r ;; Ok Finished) (output s) (Some (addresses, stream (input s))))
  end.

(** What is left of [handle_client] once the head is read. *)
Definition handle_head (client : Conn) (config : EgressConfig) (received : ReceivedHead) : option Handled :=
  match ParsedRequest_parse (received_head received) with
  | Err error => Some (refuse client None error)
  | Ok request =>
      match validate_buffered_prefix request (remainder received) with
      | Err error => Some (refuse client None error)
      | Ok _ =>
          if is_health_check request then
            let '(r, client) :=
              write_response client 200 "OK" ("{" ++ [DQUOTE] ++ "status" ++ [DQUOTE] ++ ":" ++ [DQUOTE] ++ "ok" ++ [DQUOTE] ++ "}" ++ [LF])
                [("Content-Type" : str, "application/json" : str)] in
            Some (mkHandled (r ;; Ok Finished) client None)
          else if negb (is_authorized request (auth_token config)) then
            Some (refuse client None ProxyAuthenticationRequired)
          else
            let authority := authority request in
            if negb (allows (allowlist config) authority) then Some (refuse client None (DestinationDenied authority))
            else
              match connect_checked authority (address_policy config) with
              | Err error => Some (refuse client None error)
              | Ok (addresses, upstream) =>
                  match target request with
                  | TargetConnect _ => Some (open_tunnel client addresses upstream (remainder received))
                  | TargetForward _ path => forward client config request path (remainder received) addresses upstream
                  end
              end
      end
  end.

Definition handle_client (client : Conn) (config : EgressConfig) : option Handled :=
  '(r, client) ← read_request_head client config;
  match r with
  | Err error => Some (refuse client None error)
  | Ok received => handle_head client config received
  end.
End handler.
(** ** Totality and content of the response path *)

Lemma wp_read_http_head_loop fuel limit s : well_buffered s -> (volume (inbound (stream (input s))) < fuel)%nat ->
  wp (read_http_head_loop fuel limit) s (fun r s' =>
    output s' = output s /\
    match r with
    | Ok head => well_buffered s' /\ pending s = head ++ pending s' /\ find_header_end head = Some (length head) /\
        (length head <= limit)%nat
    | Err _ => True
    end).
Proof.
  revert s. induction fuel as [|fuel IH]; intros s Hwf Hf; [lia|]. cbn [read_http_head_loop].
  apply wp_bind, wp_get_remaining. destruct (find_header_end (remaining (input s))) as [n|] eqn:E.
  - apply wp_bind, wp_throw_if; [done|]. intros Hlim. bool_split. apply wp_bind. unfold advance. apply wp_set_input, wp_ret.
    unfold find_header_end in E. apply bind_Some in E as ([w rest] & E & [= <-]).
    pose proof (split_once_str_sound _ _ _ _ E) as Es. cbn [output].
    assert (Hlen : length (remaining (input s)) = (length w + 4 + length rest)%nat)
      by (rewrite Es, !length_app; change (length HEADER_END) with 4%nat; lia).
    destruct (take_drop_pending (length w + 4) s ltac:(lia) Hwf) as (Hp & Hw & _ & _).
    assert (Ht : take (length w + 4) (remaining (input s)) = w ++ HEADER_END).
    { rewrite Es, app_assoc. rewrite take_app_length'; [done|]. rewrite length_app. done. }
    rewrite Ht in *. split_and!; [done..| |].
    + unfold find_header_end. rewrite (split_once_str_cut _ _ _ _ E). cbn [mbind option_bind]. by rewrite length_app.
    + rewrite length_app. change (length HEADER_END) with 4%nat. lia.
  - apply wp_bind, wp_throw_if; [done|]. intros _. apply wp_bind. eapply wp_mono; [by apply wp_read_more|].
    intros r s1 (Ho & _ & Hr). destruct r as [[]|e]; [|done]. destruct Hr as (Hwf1 & Hp1 & Hv).
    eapply wp_mono; [apply IH; [done|lia]|]. cbv beta. intros r s2 (Ho2 & H2). split; [congruence|].
    destruct r; [|done]. by rewrite <- Hp1.
Qed.

Lemma wp_read_http_head limit s : well_buffered s ->
  wp (read_http_head limit) s (fun r s' =>
    output s' = output s /\
    match r with
    | Ok head => well_buffered s' /\ pending s = head ++ pending s' /\ find_header_end head = Some (length head) /\
        (length head <= limit)%nat
    | Err _ => True
    end).
Proof. intros Hwf. apply wp_with_state, wp_read_http_head_loop; [done|]. unfold left_over. lia. Qed.

Lemma read_end limit c c' : (0 < limit)%nat -> read limit c = (Ok [], c') -> delivered (inbound c) = [].
Proof.
  intros Hl. unfold read. destruct (inbound c) as [|[bytes| |e] events]; try done.
  destruct (length bytes <=? limit)%nat eqn:E; intros Hr; simplify_eq; [done|]. bool_split.
  destruct bytes; [done|]. by destruct limit; [lia|].
Qed.

(** What copying until the end of the stream did. *)
Definition drained (s s' : Transfer) (r : result EgressError unit) : Prop :=
  exists w, wrote s s' w /\ w `prefix_of` pending s /\ match r with Ok _ => w = pending s | Err _ => True end.

Lemma wp_copy_until_eof_loop fuel s : remaining (input s) = [] -> (volume (inbound (stream (input s))) < fuel)%nat ->
  wp (copy_until_eof_loop fuel) s (fun r s' => drained s s' r).
Proof.
  revert s. induction fuel as [|fuel IH]; intros s Hrem Hf; [lia|]. cbn [copy_until_eof_loop]. apply wp_bind.
  pose proof COPY_BUFFER_pos as Hb.
  destruct (wp_read_stream COPY_BUFFER s ltac:(lia)) as (r & s1 & E & Ho & Hr1 & _ & _ & Hvol & Hr). exists r, s1. split; [done|].
  destruct r as [bytes|e].
  2: { exists []. split_and!; [by apply wrote_nil|apply prefix_nil|done]. }
  destruct Hr as (_ & _ & Hd). destruct bytes as [|c bytes].
  - apply wp_ret. exists []. split_and!; [by apply wrote_nil|apply prefix_nil|]. unfold pending. rewrite Hrem. symmetry.
    unfold read_stream in E. destruct (read COPY_BUFFER (stream (input s))) as [[[|]|] c] eqn:Er; simplify_eq.
    eapply read_end; [|exact Er]. lia.
  - destruct (Hd ltac:(done)) as [Hdel Hlt]. set (bs := c :: bytes) in *.
    assert (Hp : pending s = bs ++ pending s1) by (unfold pending; rewrite Hr1, Hrem; exact Hdel).
    apply wp_bind. eapply wp_mono; [apply wp_write_to|]. cbv beta. intros r2 s2 (Hi2 & w & Hw & Hpre & Hr2).
    assert (Hw' : wrote s s2 w) by (unfold wrote in *; by rewrite <- Ho).
    assert (Hp2 : pending s2 = pending s1) by (unfold pending; by rewrite Hi2).
    destruct r2 as [[]|e].
    + subst w. eapply wp_mono; [apply IH; [by rewrite Hi2, Hr1|rewrite Hi2; lia]|]. cbv beta.
      intros r3 s3 (w & Hw3 & Hpre3 & H3). exists (bs ++ w). split_and!.
      * by eapply wrote_trans.
      * rewrite Hp, <- Hp2. by apply prefix_app.
      * destruct r3; [|done]. by rewrite Hp, <- Hp2, H3.
    + exists w. split_and!; [done|rewrite Hp; etrans; [exact Hpre|by apply prefix_app_r]|done].
Qed.

Lemma wp_copy_until_eof_to s : well_buffered s -> wp copy_until_eof_to s (fun r s' => drained s s' r).
Proof.
  intros Hwf. unfold copy_until_eof_to. apply wp_bind, wp_get_remaining, wp_bind.
  destruct (nonempty (remaining (input s))) eqn:En.
  - apply wp_bind. unfold advance. apply wp_set_input.
    destruct (take_drop_pending (length (remaining (input s))) s ltac:(lia) Hwf) as (Hp & Hwf1 & _ & Hr1).
    set (s1 := mkTransfer _ _) in *. rewrite firstn_all in Hp. rewrite drop_all in Hr1.
    eapply wp_mono; [apply wp_write_to|]. cbv beta. intros r s2 (Hi2 & w & Hw & Hpre & Hr).
    assert (Hw' : wrote s s2 w) by exact Hw. destruct r as [[]|e].
    2: { exists w. split_and!; [done|unfold pending; etrans; [exact Hpre|by apply prefix_app_r]|done]. }
    subst w. apply wp_with_state. eapply wp_mono; [apply wp_copy_until_eof_loop; [by rewrite Hi2|unfold left_over; lia]|].
    cbv beta. intros r s3 (w & Hw3 & Hpre3 & H3).
    assert (Hp2 : pending s2 = pending s1) by (unfold pending; by rewrite Hi2).
    exists (remaining (input s) ++ w). split_and!; [by eapply wrote_trans|rewrite Hp, <- Hp2; by apply prefix_app|].
    destruct r; [|done]. by rewrite Hp, <- Hp2, H3.
  - apply wp_ret, wp_with_state, wp_copy_until_eof_loop; [by destruct (remaining (input s))|unfold left_over; lia].
Qed.

Lemma drain_loop_total fuel n c : (volume (inbound c) < fuel)%nat ->
  exists r c', drain_loop fuel n c = Some (r, c') /\ outbound c' = outbound c /\ closed c' = closed c.
Proof.
  revert n c. induction fuel as [|fuel IH]; intros n c Hf; [lia|]. cbn [drain_loop].
  destruct (n =? 0)%nat eqn:E; [by eexists _, _|]. bool_split.
  destruct (read (Nat.min n READ_BUFFER) c) as [[bytes|i] c1] eqn:Er.
  - apply read_Ok in Er as (Ho & Hc & _ & _ & _ & Hd). destruct bytes as [|b bytes]; [eexists _, _; split; [done|by split]|].
    destruct (Hd ltac:(done)) as [_ Hlt]. destruct (IH (n - length (b :: bytes))%nat c1 ltac:(lia)) as (r & c2 & Hd2 & Ho2 & Hc2).
    exists r, c2. split; [done|]. by rewrite Ho2, Hc2.
  - apply read_Err in Er as (Ho & Hc & _). destruct i; eexists _, _; (split; [done|by split]).
Qed.

Lemma wp_drain s : wp drain_available_client_input s (fun r s' =>
  input s' = input s /\ outbound (output s') = outbound (output s) /\ closed (output s') = closed (output s)).
Proof.
  unfold wp, drain_available_client_input.
  destruct (drain_loop_total (S (volume (inbound (output s)))) MAX_DISCARDED_PIPELINE_BYTES (output s) ltac:(lia))
    as (r & c & -> & Ho & Hc).
  eexists _, _. split; [reflexivity|]. done.
Qed.

Lemma wp_shutdown_client s : wp shutdown_client s (fun r s' =>
  outbound (output s') = outbound (output s) /\ match r with Ok _ => closed (output s') = true | Err _ => True end).
Proof.
  unfold wp, shutdown_client, shutdown. destruct (write_faults (output s)) as [|[[n|n e]|] faults];
    eexists _, _; (split; [reflexivity|]); cbn; done.
Qed.
(** ** What the client gets *)

(** A response body of the framing, with the rest of what the upstream delivers. *)
Definition response_body (framing : ResponseFraming) (limit : nat) (body rest : str) : Prop :=
  match framing with
  | ResponseNone => body = []
  | ResponseContentLength n => Z.of_nat (length body) = n
  | ResponseChunked => exists m, chunked_message m body /\ (m <= limit)%nat
  | CloseDelimited => rest = []
  end.

(** At most [attempts] heads, the last of them final, then the body: what the
    upstream delivers against what the client is sent. *)
Inductive relayed (request_method : str) (limit : nat) : nat -> str -> str -> Prop :=
  | relayed_informational attempts head response incoming outgoing :
      find_header_end head = Some (length head) -> ParsedResponse_parse head = Ok response ->
      is_informational response = true -> status response <> 101%Z ->
      relayed request_method limit attempts incoming outgoing ->
      relayed request_method limit (S attempts) (head ++ incoming) (response_forward_head response false ++ outgoing)
  | relayed_final attempts head response body rest :
      find_header_end head = Some (length head) -> ParsedResponse_parse head = Ok response ->
      is_informational response = false ->
      response_body (response_framing response request_method) limit body rest ->
      relayed request_method limit (S attempts) (head ++ body ++ rest) (response_forward_head response true ++ body).

Lemma response_length_nonneg head response m n : ParsedResponse_parse head = Ok response ->
  response_framing response m = ResponseContentLength n -> (0 <= n)%Z.
Proof.
  intros Hp Hf. unfold response_framing in Hf. destruct (_ || _); [done|].
  destruct (message_framing response) as [|k|] eqn:E; try done. injection Hf as ->.
  unfold ParsedResponse_parse in Hp. apply err_if_bind_Ok in Hp as [_ Hp]. apply err_if_bind_Ok in Hp as [_ Hp].
  apply err_if_bind_Ok in Hp as [_ Hp]. destruct (head_lines head) as [line lines]. destruct (splitn3 line) as [[v st] re].
  apply err_if_bind_Ok in Hp as [_ Hp]. apply bind_Ok in Hp as (code & _ & Hp). apply err_if_bind_Ok in Hp as [_ Hp].
  apply bind_Ok in Hp as (hs & _ & Hp). apply bind_Ok in Hp as (f & Hf & Hp). apply err_if_bind_Ok in Hp as [_ [= <-]].
  cbn in E. subst f. apply map_err_Ok in Hf. by eapply validate_framing_nonneg.
Qed.

Lemma wp_relay_body framing limit s : well_buffered s -> (forall n, framing = ResponseContentLength n -> (0 <= n)%Z) ->
  wp (relay_body framing limit) s (fun r s' => exists w, wrote s s' w /\
    match r with Ok _ => exists rest, pending s = w ++ rest /\ response_body framing limit w rest | Err _ => True end).
Proof.
  intros Hwf Hn. destruct framing as [|n| |]; cbn [relay_body].
  - apply wp_ret. exists []. split; [by apply wrote_nil|]. by exists (pending s).
  - eapply wp_mono; [apply wp_copy_exact_to; [by apply Hn|done]|]. cbv beta. intros r s' (_ & w & Hw & _ & _ & H).
    exists w. split; [done|]. destruct r; [|done]. destruct H as (_ & Hp & Hl & _). by eexists.
  - apply wp_with_state. eapply wp_mono; [apply wp_chunked_loop; [done|lia|lia]|]. cbv beta. intros r s' (_ & w & Hw & _ & H).
    exists w. split; [done|]. destruct r; [|done]. destruct H as (_ & Hp & m & Hm & Hle). eexists. split; [done|]. exists m. split; [done|lia].
  - eapply wp_mono; [by apply wp_copy_until_eof_to|]. cbv beta. intros r s' (w & Hw & _ & H). exists w. split; [done|].
    destruct r; [|done]. exists []. by rewrite app_nil_r.
Qed.

Lemma wp_relay_responses attempts m limit s : well_buffered s ->
  wp (relay_responses attempts m limit) s (fun r s' => exists out, outbound (output s') = outbound (output s) ++ out /\
    match r with Ok _ => relayed m limit attempts (pending s) out /\ closed (output s') = true | Err _ => True end).
Proof.
  revert s. induction attempts as [|attempts IH]; intros s Hwf; cbn [relay_responses].
  { apply wp_throw. exists []. by rewrite app_nil_r. }
  assert (Hstop : forall s', output s' = output s -> exists out, outbound (output s') = outbound (output s) ++ out /\ True)
    by (intros s' ->; exists []; by rewrite app_nil_r).
  apply wp_bind. eapply wp_mono; [by apply wp_read_http_head|]. cbv beta. intros r s1 (Ho & Hr).
  destruct r as [head|e]; [|by apply Hstop]. destruct Hr as (Hwf1 & Hp1 & Hhead & _).
  apply wp_bind, wp_lift. destruct (ParsedResponse_parse head) as [response|e] eqn:Eparse; [|by apply Hstop].
  apply wp_bind, wp_throw_if; intros H101; bool_split; [by apply Hstop|]. cbv zeta.
  set (fwd := response_forward_head response (negb (is_informational response))).
  apply wp_bind. eapply wp_mono; [apply wp_write_to|]. cbv beta. intros r s2 (Hi2 & w & (Ho2 & _) & _ & Hr). rewrite Ho in Ho2.
  destruct r as [[]|e]; [|by exists w]. subst w.
  assert (Hwf2 : well_buffered s2) by (unfold well_buffered; by rewrite Hi2).
  assert (Hp2 : pending s2 = pending s1) by (unfold pending; by rewrite Hi2).
  rewrite negb_involutive. destruct (is_informational response) eqn:Einfo; cbn [negb] in fwd.
  - eapply wp_mono; [by apply IH|]. cbv beta. intros r s3 (out & Ho3 & H3). exists (fwd ++ out).
    split; [by rewrite Ho3, Ho2, app_assoc|]. destruct r; [|done]. destruct H3 as [H3 Hc]. split; [|done].
    rewrite Hp1, <- Hp2. by econstructor.
  - apply wp_bind. eapply wp_mono; [apply wp_relay_body; [done|intros n; by eapply response_length_nonneg]|]. cbv beta.
    intros r s3 (w & (Ho3 & _) & H3).
    assert (Hout : outbound (output s3) = outbound (output s) ++ fwd ++ w) by (by rewrite Ho3, Ho2, app_assoc).
    destruct r as [[]|e]; [|by exists (fwd ++ w)]. destruct H3 as (rest & Hp3 & Hbody).
    assert (Hrel : relayed m limit (S attempts) (pending s) (fwd ++ w)) by (rewrite Hp1, <- Hp2, Hp3; by econstructor).
    apply wp_bind. eapply wp_mono; [apply wp_drain|]. cbv beta. intros r s4 (_ & Ho4 & _). rewrite Hout in Ho4.
    destruct r as [[]|e]; [|by exists (fwd ++ w)].
    eapply wp_mono; [apply wp_shutdown_client|]. cbv beta. intros r s5 (Ho5 & Hc5). exists (fwd ++ w).
    split; [congruence|]. by destruct r.
Qed.

(** Relaying the response always ends, and when it succeeds the client has got
    exactly one final response and nothing behind it: at most eight informational
    heads, the final head, each rewritten without hop-by-hop fields, then the body
    by its framing; bytes that the upstream sends after it are not relayed. *)
Theorem response_relay_exact request_method limit upstream client :
  exists r s',
    relay_one_response request_method limit (mkTransfer (BufferedStream_new upstream [] DirectionResponse) client) = Some (r, s') /\
    exists out, outbound (output s') = outbound client ++ out /\
      match r with
      | Ok _ => relayed request_method limit 9 (delivered (inbound upstream)) out /\ closed (output s') = true
      | Err _ => True
      end.
Proof.
  apply (wp_relay_responses 9 request_method limit (mkTransfer (BufferedStream_new upstream [] DirectionResponse) client)).
  unfold well_buffered. cbn. lia.
Qed.

(** ** The head, however it is cut *)

Lemma find_header_end_app a b n : find_header_end a = Some n -> find_header_end (a ++ b) = Some n /\ (n <= length a)%nat.
Proof.
  unfold find_header_end. intros ([w rest] & E & [= <-])%bind_Some.
  enough (split_once_str HEADER_END (a ++ b) = Some (w, rest ++ b)) as ->.
  { split; [done|]. apply split_once_str_sound in E as ->. rewrite !length_app. change (length HEADER_END) with 4%nat. lia. }
  revert w rest E. induction a as [|c a IH]; intros w rest E; [by vm_compute in E|].
  cbn [split_once_str] in E. destruct (strip_prefix HEADER_END (c :: a)) as [r|] eqn:Es.
  - injection E as <- ->. apply strip_prefix_Some in Es. rewrite Es, <- app_assoc.
    pose proof (strip_prefix_app HEADER_END (rest ++ b)) as Hs.
    change (HEADER_END ++ rest ++ b) with (CR :: LF :: CR :: LF :: rest ++ b) in *. cbn [split_once_str]. by rewrite Hs.
  - apply bind_Some in E as ([w' r'] & E & [= <- <-]). cbn [app].
    destruct (strip_prefix HEADER_END (c :: a ++ b)) as [r|] eqn:Es2.
    + exfalso. apply strip_prefix_Some in Es2. apply split_once_str_sound in E. subst a.
      set (X := c :: w' ++ HEADER_END ++ r') in *. change (X ++ b = HEADER_END ++ r) in Es2.
      assert (HX : take 4 X = HEADER_END).
      { apply (f_equal (take 4)) in Es2. rewrite take_app_le in Es2; [exact Es2|].
        unfold X. cbn [length]. rewrite !length_app. change (length HEADER_END) with 4%nat. lia. }
      rewrite <- (take_drop 4 X), HX, strip_prefix_app in Es. done.
    + rewrite split_once_str_cons by done. by rewrite (IH _ _ E).
Qed.

Lemma read_request_head_loop_spec fuel limit received c D : (volume (inbound c) < fuel)%nat ->
  D = received ++ delivered (inbound c) -> find_header_end received = None ->
  exists r c', read_request_head_loop fuel limit received c = Some (r, c') /\
    outbound c' = outbound c /\ closed c' = closed c /\ write_faults c' = write_faults c /\
    match r with
    | Ok got => find_header_end D = Some (length (received_head got)) /\ (length (received_head got) <= limit)%nat /\
        D = received_head got ++ remainder got ++ delivered (inbound c')
    | Err _ => forall n, find_header_end D = Some n -> (limit < n)%nat
    end.
Proof.
  revert received c. induction fuel as [|fuel IH]; intros received c Hf HD Hnone; [lia|]. cbn [read_request_head_loop].
  pose proof READ_BUFFER_pos as Hb. destruct (read READ_BUFFER c) as [[bytes|i] c1] eqn:Er.
  - destruct bytes as [|b bytes].
    { pose proof (read_end _ _ _ Hb Er) as Hd. apply read_Ok in Er as (? & ? & ? & _). eexists _, _. split; [done|].
      split_and!; [done..|]. rewrite HD, Hd, app_nil_r, Hnone. done. }
    apply read_Ok in Er as (Ho & Hc & Hw & _ & _ & Hd). destruct (Hd ltac:(done)) as [Hdel Hlt]. set (bs := b :: bytes) in *.
    assert (HD' : D = (received ++ bs) ++ delivered (inbound c1)) by (by rewrite HD, Hdel, app_assoc).
    destruct (find_header_end (received ++ bs)) as [n|] eqn:En.
    + destruct (find_header_end_app _ (delivered (inbound c1)) _ En) as [HDn Hle]. rewrite <- HD' in HDn.
      destruct (limit <? n)%nat eqn:El; bool_split; eexists _, _; (split; [reflexivity|]); do 3 (split; [done|]).
      * rewrite HDn. by intros ? [= <-].
      * cbn [received_head remainder]. rewrite length_take. replace (n `min` length (received ++ bs))%nat with n by lia.
        split_and!; [done..|]. by rewrite app_assoc, take_drop.
    + destruct (limit <? length (received ++ bs))%nat eqn:El; bool_split.
      * eexists _, _. split; [reflexivity|]. split_and!; [done..|]. intros n Hn.
        destruct (decide (n <= limit)%nat); [exfalso|lia]. 
        unfold find_header_end in Hn. apply bind_Some in Hn as ([w rest] & Hn & [= <-]).
        apply split_once_str_sound in Hn.
        assert (find_header_end (take (length (received ++ bs)) D) <> None) as Habs.
        { assert (w ++ HEADER_END `prefix_of` received ++ bs) as [k Hk].
          { destruct (prefix_weak_total (w ++ HEADER_END) (received ++ bs) D) as [Hp|Hp%prefix_length];
              [rewrite Hn, app_assoc; by apply prefix_app_r|rewrite HD'; by apply prefix_app_r|exact Hp|].
            rewrite !length_app in Hp. rewrite length_app in El. change (length HEADER_END) with 4%nat in Hp. lia. }
          unfold find_header_end. rewrite HD', take_app_length, Hk, <- app_assoc.
          destruct (split_once_str_complete HEADER_END w k) as [[x y] ->]. done. }
        by rewrite HD', take_app_length, En in Habs.
      * destruct (IH (received ++ bs) c1 ltac:(lia) HD' En) as (r & c2 & E & Ho2 & Hc2 & Hw2 & Hr).
        eexists _, _. split; [exact E|]. split_and!; [congruence..|done].
  - apply read_Err in Er as (Ho & Hc & Hw & _ & Hd). eexists _, _. split; [reflexivity|]. split_and!; [done..|].
    rewrite HD, Hd, app_nil_r, Hnone. done.
Qed.
Lemma read_request_head_spec client config :
  exists r client',
    read_request_head client config = Some (r, client') /\ outbound client' = outbound client /\
    match r with
    | Ok got =>
        find_header_end (delivered (inbound client)) = Some (length (received_head got)) /\
        (length (received_head got) <= max_header_bytes config)%nat /\
        delivered (inbound client) = received_head got ++ remainder got ++ delivered (inbound client')
    | Err _ => forall n, find_header_end (delivered (inbound client)) = Some n -> (max_header_bytes config < n)%nat
    end.
Proof.
  destruct (read_request_head_loop_spec (S (volume (inbound client))) (max_header_bytes config) [] client
    (delivered (inbound client)) ltac:(lia) eq_refl eq_refl) as (r & c' & E & Ho & _ & _ & H).
  by exists r, c'.
Qed.

(** However the network cuts it, the request head is the client's bytes up to
    the first blank line, if they come before any interruption and within the
    limit, and nothing else is ever taken for it; what follows is not lost. *)
Theorem request_head_exact client config :
  exists r client',
    read_request_head client config = Some (r, client') /\ outbound client' = outbound client /\
    match r with
    | Ok got =>
        find_header_end (delivered (inbound client)) = Some (length (received_head got)) /\
        (length (received_head got) <= max_header_bytes config)%nat /\
        delivered (inbound client) = received_head got ++ remainder got ++ delivered (inbound client')
    | Err _ => forall n, find_header_end (delivered (inbound client)) = Some n -> (max_header_bytes config < n)%nat
    end.
Proof. apply read_request_head_spec. Qed.

(** ** The buffered side is only read *)

Definition only_reads {A} (m : M A) : Prop :=
  forall s r s', m s = Some (r, s') -> outbound (stream (input s')) = outbound (stream (input s)).

Create HintDb source discriminated.
#[local] Hint Constants Opaque : source.

Lemma only_reads_bind {A B} (m : M A) (f : A -> M B) : only_reads m -> (forall a, only_reads (f a)) -> only_reads (m ≫= f).
Proof.
  intros Hm Hf s r s' H. unfold mbind, M_bind in H. destruct (m s) as [[[a|e] s1]|] eqn:E; [| |done].
  - rewrite (Hf a _ _ _ H). by eapply Hm.
  - simplify_eq. by eapply Hm.
Qed.
Lemma only_reads_ret {A} (a : A) : only_reads (mret a).
Proof. by intros s r s' [= <- <-]. Qed.
Lemma only_reads_lift {A} (x : result EgressError A) : only_reads (lift x).
Proof. by intros s r s' [= <- <-]. Qed.
Lemma only_reads_throw {A} e : only_reads (A := A) (throw e).
Proof. by intros s r s' [= <- <-]. Qed.
Lemma only_reads_fuel {A} : only_reads (A := A) out_of_fuel.
Proof. done. Qed.
Lemma only_reads_state {A} (f : Transfer -> M A) : (forall s, only_reads (f s)) -> only_reads (with_state f).
Proof. intros Hf s r s' H. by eapply Hf. Qed.
Lemma only_reads_get : only_reads get_remaining.
Proof. by intros s r s' [= <- <-]. Qed.
Lemma only_reads_set f : (forall b, stream (f b) = stream b) -> only_reads (set_input f).
Proof. intros Hf s r s' [= <- <-]. cbn. by rewrite Hf. Qed.
Lemma only_reads_read limit : only_reads (read_stream limit).
Proof.
  intros s r s' H. unfold read_stream in H. destruct (read limit (stream (input s))) as [[bytes|i] c] eqn:E; simplify_eq; cbn.
  - by apply read_Ok in E as (? & _).
  - by apply read_Err in E as (? & _).
Qed.
Lemma only_reads_write bytes : only_reads (write_to bytes).
Proof. intros s r s' H. unfold write_to in H. by destruct (write_all_within _ _); simplify_eq. Qed.
Lemma only_reads_drain : only_reads drain_available_client_input.
Proof.
  intros s r s' H. unfold drain_available_client_input in H. by destruct (drain_loop _ _ _) as [[]|]; simplify_eq/=.
Qed.
Lemma only_reads_shutdown : only_reads shutdown_client.
Proof. intros s r s' H. unfold shutdown_client in H. by destruct (shutdown _); simplify_eq. Qed.
Lemma only_reads_compact b : stream (compact b) = stream b.
Proof. unfold compact. by repeat case_match. Qed.

#[local] Hint Resolve only_reads_ret only_reads_lift only_reads_throw only_reads_fuel only_reads_get only_reads_read
  only_reads_write only_reads_drain only_reads_shutdown : source.

(** Walk through a computation, leaf by leaf. *)
Ltac only_reads :=
  repeat lazymatch goal with
    | |- only_reads (_ ≫= _) => apply only_reads_bind; [|intros]
    | |- only_reads (with_state _) => apply only_reads_state; intros
    | |- only_reads (set_input _) => apply only_reads_set; intros; first [apply only_reads_compact|reflexivity]
    | |- only_reads (match ?x with _ => _ end) => destruct x
    | |- only_reads (let _ := _ in _) => cbv zeta
    | |- _ => progress auto with source
    end.

Lemma only_reads_more : only_reads read_more.
Proof. unfold read_more. only_reads. Qed.
#[local] Hint Resolve only_reads_more : source.
Lemma only_reads_head limit : only_reads (read_http_head limit).
Proof.
  apply only_reads_state. intros s. generalize (S (left_over s)). induction n as [|n IH]; cbn [read_http_head_loop]; [auto with source|].
  unfold throw_if, advance. only_reads.
Qed.
Lemma only_reads_line limit : only_reads (read_crlf_line limit).
Proof.
  apply only_reads_state. intros s. generalize (S (left_over s)). induction n as [|n IH]; cbn [read_crlf_line_loop]; [auto with source|].
  unfold throw_if, advance. only_reads.
Qed.
Lemma only_reads_copy_loop fuel n : only_reads (copy_stream_loop fuel n).
Proof. revert n. induction fuel as [|fuel IH]; intros n; cbn [copy_stream_loop]; [auto with source|]. only_reads. Qed.
#[local] Hint Resolve only_reads_head only_reads_line only_reads_copy_loop : source.
Lemma only_reads_copy n : only_reads (copy_exact_to n).
Proof. unfold copy_exact_to, advance. only_reads. Qed.
#[local] Hint Resolve only_reads_copy : source.
Lemma only_reads_eof : only_reads copy_until_eof_to.
Proof.
  unfold copy_until_eof_to, advance. only_reads. generalize (S (left_over s)). intros fuel.
  induction fuel as [|fuel IH]; cbn [copy_until_eof_loop]; [auto with source|]. only_reads.
Qed.
Lemma only_reads_trailers limit meta : only_reads (forward_chunk_trailers limit meta).
Proof.
  apply only_reads_state. intros s. generalize (S (left_over s)). intros fuel. revert meta.
  induction fuel as [|fuel IH]; intros meta; cbn [forward_chunk_trailers_loop]; [auto with source|]. only_reads.
Qed.
#[local] Hint Resolve only_reads_eof only_reads_trailers : source.
Lemma only_reads_chunked limit : only_reads (forward_chunked_body limit).
Proof.
  apply only_reads_state. intros s. generalize (S (left_over s)). intros fuel. generalize 0%nat as meta.
  induction fuel as [|fuel IH]; intros meta; cbn [forward_chunked_body_loop]; [auto with source|].
  unfold throw_if. only_reads.
Qed.
#[local] Hint Resolve only_reads_chunked : source.
Lemma only_reads_response m limit : only_reads (relay_one_response m limit).
Proof.
  unfold relay_one_response. generalize 9%nat. intros attempts. induction attempts as [|attempts IH]; cbn [relay_responses]; [auto with source|].
  unfold throw_if, relay_body. only_reads.
Qed.
(** ** Sorted addresses *)

Lemma zs_compare_eq x y : zs_compare x y = Eq -> x = y.
Proof.
  revert y. induction x as [|a x IH]; intros [|b y]; cbn; try done. destruct (Z.compare_spec a b) as [->| |]; try done.
  intros H. f_equal. by apply IH.
Qed.
Lemma socket_compare_eq x y : socket_compare x y = Eq -> x = y.
Proof.
  destruct x as [[a|a] p], y as [[b|b] q]; unfold socket_compare; cbn; try done;
    destruct (zs_compare a b) eqn:E; try done; intros H%Z.compare_eq; apply zs_compare_eq in E; by subst.
Qed.
Lemma elem_of_insert_address a l x : x ∈ insert_address a l <-> x = a \/ x ∈ l.
Proof. induction l as [|b l IH]; cbn; [set_solver|]. case_match; rewrite ?elem_of_cons, ?IH; set_solver. Qed.
Lemma elem_of_sort_addresses l x : x ∈ sort_addresses l <-> x ∈ l.
Proof. induction l as [|a l IH]; cbn; [done|]. rewrite elem_of_insert_address, IH. set_solver. Qed.
Lemma elem_of_dedup_addresses l x : x ∈ dedup_addresses l <-> x ∈ l.
Proof.
  induction l as [|a [|b l] IH]; [done..|]. cbn [dedup_addresses].
  destruct (socket_compare a b) eqn:E; [|rewrite elem_of_cons, IH; set_solver..].
  apply socket_compare_eq in E as ->. rewrite IH. set_solver.
Qed.

(** ** The handler *)

Section handler_spec.
Context {I : Idna} {U : HttpUrlCrate} {H : Sha256} {N : Network}.

(** The addresses a destination may be contacted at. *)
Definition resolved_to (authority : Authority) (addresses : list SocketAddr) : Prop :=
  match auth_host authority with
  | Ip ip => addresses = [mkSocketAddr ip (auth_port authority)]
  | Domain domain => exists answer, lookup_host domain (auth_port authority) = Some (Ok answer) /\
      forall a, a ∈ addresses <-> a ∈ answer
  end.

Lemma connect_checked_Ok authority policy addresses upstream :
  connect_checked authority policy = Ok (addresses, upstream) ->
  resolved_to authority addresses /\ policy_validate policy authority addresses = Ok tt /\
  tcp_connect addresses = Some (Ok upstream).
Proof.
  unfold connect_checked, resolve_checked, resolved_to. intros Hc.
  destruct (auth_host authority) as [domain|ip]; cbn [mbind option_bind] in Hc.
  - destruct (lookup_host domain (auth_port authority)) as [[answer|e]|] eqn:El; cbn in Hc; try done.
    destruct (policy_validate _ _ _) as [[]|e] eqn:Ev; cbn in Hc; [|done].
    destruct (tcp_connect _) as [[c|e]|] eqn:Et; simplify_eq. split; [|done]. exists answer. split; [done|].
    intros a. by rewrite elem_of_dedup_addresses, elem_of_sort_addresses.
  - set (l := [mkSocketAddr ip (auth_port authority)]) in *. unfold result_bind in Hc.
    change (dedup_addresses (sort_addresses l)) with l in Hc.
    destruct (policy_validate policy authority l) as [[]|e] eqn:Ev; cbn in Hc; [|done].
    destruct (tcp_connect l) as [[c|e]|] eqn:Et; simplify_eq. done.
Qed.

Lemma parse_framing bytes r : ParsedRequest_parse bytes = Ok r -> validate_framing (headers r) = Ok (framing r).
Proof.
  unfold ParsedRequest_parse. intros [_ Hp]%err_if_bind_Ok. apply err_if_bind_Ok in Hp as [_ Hp].
  apply err_if_bind_Ok in Hp as [_ Hp]. destruct (head_lines bytes) as [line lines]. cbv zeta in Hp.
  apply err_if_bind_Ok in Hp as [_ Hp]. apply bind_Ok in Hp as (hs & _ & Hp). apply bind_Ok in Hp as (f & Hf & Hp).
  apply err_if_bind_Ok in Hp as [_ Hp]. apply err_if_bind_Ok in Hp as [_ Hp]. apply bind_Ok in Hp as (host & _ & Hp).
  apply bind_Ok in Hp as (t & _ & Hp). by apply err_if_bind_Ok in Hp as [_ [= <-]].
Qed.

(** What may have been written to an upstream for a request with [rest] behind its head. *)
Definition sent_for (request : ParsedRequest) (rest w : str) : Prop :=
  match target request with
  | TargetConnect _ => w `prefix_of` rest
  | TargetForward _ path =>
      let head := request_forward_head request path in
      w `prefix_of` (head ++ rest) /\ body_bound (framing request) (length w - length head)
  end.

(** An upstream that the handler was allowed to contact, with what it was sent. *)
Definition permitted (config : EgressConfig) (input : str) (addresses : list SocketAddr) (upstream : Conn) : Prop :=
  exists head rest request fresh w,
    input = head ++ rest /\ find_header_end head = Some (length head) /\
    ParsedRequest_parse head = Ok request /\ is_authorized request (auth_token config) = true /\
    allows (allowlist config) (authority request) = true /\ resolved_to (authority request) addresses /\
    policy_validate (address_policy config) (authority request) addresses = Ok tt /\
    tcp_connect addresses = Some (Ok fresh) /\
    outbound upstream = outbound fresh ++ w /\ sent_for request rest w.

Definition handled_safely (config : EgressConfig) (input : str) (h : Handled) : Prop :=
  match upstream_after h with None => True | Some (addresses, upstream) => permitted config input addresses upstream end.

Lemma refuse_safely config input client upstream error :
  match upstream with None => True | Some (addresses, conn) => permitted config input addresses conn end ->
  handled_safely config input (refuse client upstream error).
Proof. intros Hu. unfold refuse. destruct (send_proxy_error client error) as [r c]. exact Hu. Qed.

Lemma write_all_spec bytes c r c' : write_all bytes c = (r, c') ->
  exists w, outbound c' = outbound c ++ w /\ w `prefix_of` bytes.
Proof.
  unfold write_all, append. destruct (write_faults c) as [|[[n|n e]|] faults]; intros; simplify_eq; cbn;
    eexists; (split; [reflexivity|]); try apply prefix_take; done.
Qed.

Lemma find_header_end_self a b n : find_header_end (a ++ b) = Some n -> n = length a ->
  find_header_end a = Some n.
Proof.
  unfold find_header_end. intros ([w rest] & E & [= <-])%bind_Some Hn.
  pose proof (split_once_str_sound _ _ _ _ E) as Es. pose proof (split_once_str_cut _ _ _ _ E) as Ec.
  assert (a = w ++ HEADER_END) as ->.
  { apply (f_equal (take (length a))) in Es. rewrite take_app_length, app_assoc in Es.
    rewrite Es, <- Hn. rewrite take_app_length'; [done|]. by rewrite length_app. }
  by rewrite Ec.
Qed.

Lemma open_tunnel_spec client addresses upstream rest :
  exists w u, upstream_after (open_tunnel client addresses upstream rest) = Some (addresses, u) /\
    outbound u = outbound upstream ++ w /\ w `prefix_of` rest.
Proof.
  unfold open_tunnel.
  assert (Hnone : outbound upstream = outbound upstream ++ [] /\ [] `prefix_of` rest)
    by (split; [by rewrite app_nil_r|apply prefix_nil]).
  destruct (write_all _ client) as [[?|e] c]; [|by exists [], upstream].
  destruct (nonempty rest); [|by exists [], upstream].
  destruct (write_all rest upstream) as [[?|e] u] eqn:E; apply write_all_spec in E as (w & ? & ?); by exists w, u.
Qed.

Lemma forward_spec client config request path rest addresses upstream :
  validate_framing (headers request) = Ok (framing request) ->
  exists h u w, forward client config request path rest addresses upstream = Some h /\
    upstream_after h = Some (addresses, u) /\ outbound u = outbound upstream ++ w /\
    w `prefix_of` (request_forward_head request path ++ rest ++ delivered (inbound client)) /\
    body_bound (framing request) (length w - length (request_forward_head request path)).
Proof.
  intros Hf. unfold forward.
  destruct (request_forwarding_exact (request_forward_head request path) (framing request) (max_header_bytes config)
    (headers request) client rest upstream Hf) as (r & s1 & E & w & Ho & Hpre & Hb & _).
  rewrite E. cbn [mbind option_bind]. destruct r as [[]|e].
  - destruct (response_relay_exact (method request) (max_header_bytes config) (output s1) (stream (input s1)))
      as (r & s2 & E2 & _). rewrite E2. cbn [mbind option_bind]. eexists _, _, w. split; [reflexivity|].
    split; [reflexivity|]. split; [|done]. rewrite (only_reads_response _ _ _ _ _ E2). exact Ho.
  - eexists _, _, w. split; [reflexivity|]. unfold refuse. destruct (send_proxy_error _ e) as [r' c]. split; [reflexivity|]. done.
Qed.

Lemma handle_head_safe client config received input :
  input = received_head received ++ remainder received ++ delivered (inbound client) ->
  find_header_end (received_head received) = Some (length (received_head received)) ->
  exists h, handle_head client config received = Some h /\ handled_safely config input h.
Proof.
  intros Hin Hend. unfold handle_head.
  assert (Hstop : forall e, exists h, Some (refuse client None e) = Some h /\ handled_safely config input h)
    by (intros e; eexists; split; [reflexivity|by apply refuse_safely]).
  destruct (ParsedRequest_parse (received_head received)) as [request|e] eqn:Ep; [|apply Hstop].
  destruct (validate_buffered_prefix request (remainder received)) as [?|e]; [|apply Hstop].
  destruct (is_health_check request).
  { destruct (write_response _ _ _ _ _) as [r c]. eexists. split; [reflexivity|done]. }
  destruct (is_authorized request (auth_token config)) eqn:Ea; cbn [negb]; [|apply Hstop]. cbv zeta.
  destruct (allows (allowlist config) (authority request)) eqn:El; cbn [negb]; [|apply Hstop].
  destruct (connect_checked _ _) as [[addresses upstream]|e] eqn:Ec; [|apply Hstop].
  apply connect_checked_Ok in Ec as (Hr & Hv & Hc).
  destruct (target request) as [a0|a0 path] eqn:Et.
  - destruct (open_tunnel_spec client addresses upstream (remainder received)) as (w & u & Hu & Ho & Hpre).
    eexists. split; [reflexivity|]. unfold handled_safely. rewrite Hu.
    exists (received_head received), (remainder received ++ delivered (inbound client)), request, upstream, w.
    split_and!; try done. unfold sent_for. rewrite Et. by apply prefix_app_r.
  - destruct (forward_spec client config request path (remainder received) addresses upstream (parse_framing _ _ Ep))
      as (h & u & w & Ef & Hu & Ho & Hpre & Hb).
    exists h. split; [done|]. unfold handled_safely. rewrite Hu.
    exists (received_head received), (remainder received ++ delivered (inbound client)), request, upstream, w.
    split_and!; try done. unfold sent_for. by rewrite Et.
Qed.
End handler_spec.

(** C13: a client connection is always handled to an end, and an upstream is
    contacted for it only if the client's first head is a valid request, carries
    the configured token, names an allowed destination, and every address that the
    one lookup gave passes the address policy; the connection goes to exactly those
    addresses and receives nothing but the rewritten head and the bytes behind the
    client's head, at most the announced length of them. *)
Theorem egress_contacts_only_allowed `{Idna, HttpUrlCrate, Sha256, Network} client config :
  exists h, handle_client client config = Some h /\ handled_safely config (delivered (inbound client)) h.
Proof.
  unfold handle_client. destruct (read_request_head_spec client config) as (r & c & -> & _ & Hr).
  cbn [mbind option_bind]. destruct r as [received|e].
  - destruct Hr as (Hend & _ & Hin). apply handle_head_safe; [done|]. rewrite Hin in Hend. by eapply find_header_end_self.
  - eexists. split; [reflexivity|by apply refuse_safely].
Qed.
(** ** The listener

    [serve_egress] as a step relation: the semaphore holds one permit per client
    that is being handled, and a connection that finds none is answered at once. *)

Record Server := mkServer { active : nat; refused : list Conn }.

Inductive serve_step (config : EgressConfig) : Server -> Server -> Prop :=
  | accept_handled s : (active s < max_connections config)%nat ->
      serve_step config s (mkServer (S (active s)) (refused s))
  | accept_refused s stream : ~ (active s < max_connections config)%nat ->
      serve_step config s (mkServer (active s)
        ((write_response stream 503 "Service Unavailable" "proxy connection capacity reached" []).2 :: refused s))
  | task_completed s n : active s = S n -> serve_step config s (mkServer n (refused s)).

Definition serve_start : Server := mkServer 0 [].

(** The number of clients handled at once never passes the limit, and a client is
    refused only while that many are being handled. *)
Lemma serve_within_limit config s : rtc (serve_step config) serve_start s -> (active s <= max_connections config)%nat.
Proof.
  revert s. apply (rtc_ind_r (fun s => (active s <= max_connections config)%nat)); [cbn; lia|].
  intros s1 s2 _ Hstep IH. destruct Hstep; cbn; lia.
Qed.

(** ** An exchange *)

Definition public_address : SocketAddr := mkSocketAddr (V4 [93; 184; 216; 34]%Z) 80.
Definition one_upstream (answer : str) : Network := {|
  lookup_host := fun _ _ => Some (Ok [public_address; public_address]);
  tcp_connect := fun _ => Some (Ok (mkConn [Data answer] [] [] false)) |}.
Definition identity_digest : Sha256 := fun s => s.

Definition sample_config : EgressConfig :=
  mkEgressConfig [mkAllowRule (HostExact (Domain "example.com")) HttpDefaults] [] (Some ("secret" : str))
    256 DEFAULT_MAX_HEADER_BYTES 10000 10000 300000.
Definition browser : Conn := mkConn
  [Data (take 40 sample_request); Data (drop 40 sample_request ++ CRLF ++ "B"); Data ("OD" : str)] [] [] false.

Example exchange :
  (fun h => (outcome h, outbound (client_after h), (fun p => (p.1, outbound (p.2))) <$> upstream_after h)) <$>
    handle_client (I := plain_idna) (U := plain_url) (H := identity_digest)
      (N := one_upstream (lines ["HTTP/1.1 200 OK"; "Content-Length: 2"] ++ CRLF ++ "okEXTRA"))
      browser sample_config
  = Some (Ok Finished, lines ["HTTP/1.1 200 OK"; "content-length: 2"; "Connection: close"] ++ CRLF ++ "ok",
      Some ([public_address],
        lines ["POST /api HTTP/1.1"; "Host: example.com:80"; "content-length: 3"; "Connection: close"] ++ CRLF ++ "BOD")).
Proof. vm_compute. reflexivity. Qed.

(** Without a rule for the host nothing is contacted. *)
Example denied :
  (fun h => (outcome h, upstream_after h)) <$>
    handle_client (I := plain_idna) (U := plain_url) (H := identity_digest) (N := one_upstream [])
      browser (mkEgressConfig [] [] None 256 DEFAULT_MAX_HEADER_BYTES 10000 10000 300000)
  = Some (Err (DestinationDenied (mkAuthority (Domain "example.com") 80)), None).
Proof. vm_compute. reflexivity. Qed.
End Egress.
