(* ===== verification/HostError.v ===== *)
(** * Errors of the host ([codex-start-host/src/error.rs]) *)

From S2P Require Export RustStr.

(** The [Debug] form of an [OsString]. *)
Class DebugOsString := debug_os : str -> str.

Module HostError.

(** An [io::Error] or an [ExitStatus] is the text it prints as. *)
Inductive HostError :=
  | CommandIo (program source : str)
  | CommandFailed (program status stderr : str)
  | ExecutableMissing (program : str)
  | Config (message : str)
  | Runtime (message : str)
  | Git (message : str)
  | NotFound (message : str)
  | UnsafePath (path reason : str)
  | Io (path source : str)
  | Serialization (message : str)
  | Usage (message : str).

Definition exit_code (self : HostError) : Z :=
  match self with
  | Usage _ | Config _ => 2
  | Runtime _ | ExecutableMissing _ => 3
  | Git _ | UnsafePath _ _ => 4
  | _ => 1
  end.

(** The [Display] form. *)
Definition to_string `{DebugOsString} (self : HostError) : str :=
  match self with
  | CommandIo program source => "could not run " ++ debug_os program ++ ": " ++ source
  | CommandFailed program status stderr => debug_os program ++ " failed with " ++ status ++ ": " ++ stderr
  | ExecutableMissing program => "required executable is not available: " ++ program
  | Config message => "configuration error: " ++ message
  | Runtime message => "container runtime error: " ++ message
  | Git message => "Git error: " ++ message
  | NotFound message => "not found: " ++ message
  | UnsafePath path reason => "unsafe path " ++ path ++ ": " ++ reason
  | Io path source => "I/O error for " ++ path ++ ": " ++ source
  | Serialization message => "serialization error: " ++ message
  | Usage message => message
  end.
End HostError.
