(* ===== verification/StateErr.v ===== *)
(** * Computations with a state, errors and divergence

    Operations on a shared object: the state is kept when an operation fails, a
    transaction restores it, and [None] is a loop that does not end.  [runs] and
    [st_run] follow one run; [rel_m] states what every run of a computation keeps. *)

From S2P Require Export RustStr.

Definition ST (S E A : Type) : Type := S -> option (result E A * S).

Section monad.
Context {S E : Type}.

#[export] Instance ST_ret : MRet (ST S E) := fun A a s => Some (Ok a, s).
#[export] Instance ST_bind : MBind (ST S E) := fun A B f m s =>
  match m s with
  | Some (Ok a, s) => f a s
  | Some (Err e, s) => Some (Err e, s)
  | None => None
  end.

Definition throw {A} (error : E) : ST S E A := fun s => Some (Err error, s).
Definition diverge {A} : ST S E A := fun _ => None.
(** [?] on a pure result. *)
Definition lift {A} (r : result E A) : ST S E A := fun s => Some (r, s).
Definition throw_if (b : bool) (error : E) : ST S E unit := lift (err_if b error).
Definition gets {A} (f : S -> A) : ST S E A := fun s => Some (Ok (f s), s).
Definition modify (f : S -> S) : ST S E unit := fun s => Some (Ok tt, f s).
(** A result that is only looked at. *)
Definition attempt {A} (m : ST S E A) : ST S E (result E A) := fun s =>
  match m s with Some (r, s) => Some (Ok r, s) | None => None end.
(** All of the changes, or none: an error or an early return rolls back. *)
Definition transaction {A} (m : ST S E A) : ST S E A := fun s =>
  match m s with
  | Some (Ok a, s') => Some (Ok a, s')
  | Some (Err e, _) => Some (Err e, s)
  | None => None
  end.

(** ** One run *)

(** The equations of a run, for [st_run]. *)
Lemma run_bind {A B} (m : ST S E A) (f : A -> ST S E B) s :
  (m ≫= f) s = match m s with Some (Ok a, s) => f a s | Some (Err e, s) => Some (Err e, s) | None => None end.
Proof. done. Qed.
Lemma run_ret {A} (a : A) s : (mret a : ST S E A) s = Some (Ok a, s).
Proof. done. Qed.
Lemma run_throw {A} (e : E) s : (throw e : ST S E A) s = Some (Err e, s).
Proof. done. Qed.
Lemma run_lift {A} (r : result E A) s : lift r s = Some (r, s).
Proof. done. Qed.
Lemma run_throw_if b (e : E) s : throw_if b e s = Some (if b then Err e else Ok tt, s).
Proof. done. Qed.
Lemma run_gets {A} (f : S -> A) s : (gets f : ST S E A) s = Some (Ok (f s), s).
Proof. done. Qed.
Lemma run_modify (f : S -> S) s : (modify f : ST S E unit) s = Some (Ok tt, f s).
Proof. done. Qed.
Lemma run_transaction {A} (m : ST S E A) s :
  transaction m s = match m s with Some (Ok a, s') => Some (Ok a, s') | Some (Err e, _) => Some (Err e, s) | None => None end.
Proof. done. Qed.

(** [runs m s Q]: the run of [m] from [s] ends, in a result and a state with [Q]. *)
Definition runs {A} (m : ST S E A) (s : S) (Q : result E A -> S -> Prop) : Prop :=
  exists r s', m s = Some (r, s') /\ Q r s'.

Lemma runs_bind {A B} (m : ST S E A) (f : A -> ST S E B) s Q :
  runs m s (fun r s' => match r with Ok a => runs (f a) s' Q | Err e => Q (Err e) s' end) -> runs (m ≫= f) s Q.
Proof.
  intros (r & s' & Hm & H). unfold runs. rewrite run_bind, Hm. destruct r as [a|e]; [done|]. by eexists _, _.
Qed.
Lemma runs_mono {A} (m : ST S E A) s (P Q : result E A -> S -> Prop) :
  runs m s P -> (forall r s', P r s' -> Q r s') -> runs m s Q.
Proof. intros (r & s' & Hm & H) HPQ. exists r, s'. auto. Qed.
Lemma runs_ret {A} (a : A) s (Q : result E A -> S -> Prop) : Q (Ok a) s -> runs (mret a) s Q.
Proof. by eexists _, _. Qed.
Lemma runs_throw {A} e s (Q : result E A -> S -> Prop) : Q (Err e) s -> runs (throw e) s Q.
Proof. by eexists _, _. Qed.
Lemma runs_throw_if b e s (Q : result E unit -> S -> Prop) :
  (b = true -> Q (Err e) s) -> (b = false -> Q (Ok tt) s) -> runs (throw_if b e) s Q.
Proof. intros. destruct b; eexists _, _; (split; [done|]; auto). Qed.

(** A run of a sequence is a run of its first part and one of the rest. *)
Lemma bind_run {A B} (m : ST S E A) (f : A -> ST S E B) s r s' : (m ≫= f) s = Some (r, s') <->
  exists r1 s1, m s = Some (r1, s1) /\ match r1 with Ok a => f a s1 = Some (r, s') | Err e => r = Err e /\ s' = s1 end.
Proof. rewrite run_bind. destruct (m s) as [[[a|e] s1]|]; naive_solver. Qed.
(** One that succeeds is one of each part. *)
Lemma bind_run_Ok {A B} (m : ST S E A) (f : A -> ST S E B) s b s' : (m ≫= f) s = Some (Ok b, s') <->
  exists a s1, m s = Some (Ok a, s1) /\ f a s1 = Some (Ok b, s').
Proof. rewrite run_bind. destruct (m s) as [[[a|e] s1]|]; naive_solver. Qed.
Lemma lift_run_Ok {A} (r : result E A) s a s' : lift r s = Some (Ok a, s') <-> r = Ok a /\ s' = s.
Proof. unfold lift. naive_solver. Qed.
Lemma throw_if_run_Ok b e s u s' : throw_if b e s = Some (Ok u, s') <-> b = false /\ s' = s.
Proof. unfold throw_if. rewrite lift_run_Ok, err_if_Ok. done. Qed.

(** ** What every run keeps *)

(** [rel_m R m]: each run of [m] goes from a state to an [R]-related one. *)
Definition rel_m (R : S -> S -> Prop) {A} (m : ST S E A) : Prop :=
  forall s r s', m s = Some (r, s') -> R s s'.

Section rel.
Context (R : S -> S -> Prop) `{!PreOrder R}.
Lemma rel_ret {A} (a : A) : rel_m R (mret a).
Proof. intros s r s' [= _ <-]. reflexivity. Qed.
Lemma rel_bind {A B} (m : ST S E A) (f : A -> ST S E B) : rel_m R m -> (forall a, rel_m R (f a)) -> rel_m R (m ≫= f).
Proof.
  intros Hm Hf s r s'. unfold mbind, ST_bind. destruct (m s) as [[[a|e] s1]|] eqn:E1; [| |done].
  - intros H. etrans; [by eapply Hm|by eapply Hf].
  - intros [= _ <-]. by eapply Hm.
Qed.
Lemma rel_lift {A} (r : result E A) : rel_m R (lift r).
Proof. intros s r' s' [= _ <-]. reflexivity. Qed.
Lemma rel_throw {A} e : rel_m R (throw (A:=A) e).
Proof. intros s r' s' [= _ <-]. reflexivity. Qed.
Lemma rel_throw_if b e : rel_m R (throw_if b e).
Proof. apply rel_lift. Qed.
Lemma rel_gets {A} (f : S -> A) : rel_m R (gets f).
Proof. intros s r' s' [= _ <-]. reflexivity. Qed.
Lemma rel_modify f : (forall s, R s (f s)) -> rel_m R (modify f).
Proof. intros H s r' s' [= _ <-]. apply H. Qed.
Lemma rel_transaction {A} (m : ST S E A) : rel_m R m -> rel_m R (transaction m).
Proof.
  intros Hm s r s'. unfold transaction. destruct (m s) as [[[a|e] s1]|] eqn:E1; [| |done].
  - intros [= _ <-]. by eapply Hm.
  - intros [= _ <-]. reflexivity.
Qed.
Lemma rel_attempt {A} (m : ST S E A) : rel_m R m -> rel_m R (attempt m).
Proof. intros Hm s r s'. unfold attempt. destruct (m s) as [[r1 s1]|] eqn:E1; [|done]. intros [= _ <-]. by eapply Hm. Qed.
End rel.

(** An invariant of the state is the relation that implies it forwards. *)
Definition keeps (P : S -> Prop) : S -> S -> Prop := fun s s' => P s -> P s'.
#[export] Instance keeps_preorder P : PreOrder (keeps P).
Proof. unfold keeps. split; red; auto. Qed.
End monad.

(** Run the steps whose equations are known. *)
Ltac st_run :=
  repeat (first [ rewrite run_transaction | rewrite run_bind | rewrite run_ret | rewrite run_throw | rewrite run_lift
                | rewrite run_throw_if | rewrite run_gets | rewrite run_modify ]; cbv beta iota).

(** Take [H : (m ≫= f) s = Some (r, s')] apart, one statement. *)
Ltac run_step H r1 s1 H1 := apply bind_run in H as (r1 & s1 & H1 & H).

Create HintDb st discriminated.
#[export] Hint Constants Opaque : st.
#[export] Hint Resolve rel_ret rel_bind rel_lift rel_throw rel_throw_if rel_gets rel_transaction rel_attempt : st.

(** Take a computation apart into the statements that change the state. *)
Ltac st_rel :=
  repeat lazymatch goal with
  | |- rel_m ?R (mbind _ _) => apply (rel_bind R); [|intros ?]
  | |- rel_m ?R (transaction _) => apply (rel_transaction R)
  | |- rel_m ?R (attempt _) => apply (rel_attempt R)
  | |- rel_m ?R (mret _) => apply (rel_ret R)
  | |- rel_m ?R (throw _) => apply (rel_throw R)
  | |- rel_m ?R (throw_if _ _) => apply (rel_throw_if R)
  | |- rel_m ?R (lift _) => apply (rel_lift R)
  | |- rel_m ?R (gets _) => apply (rel_gets R)
  | |- rel_m ?R (modify _) => apply (rel_modify R); intros ?; try done
  | |- rel_m _ (if ?b then _ else _) => destruct b
  | |- rel_m _ (match ?x with _ => _ end) => destruct x
  end.

(** A computation that always ends. *)
Definition ends {S E A} (m : ST S E A) : Prop := forall s, is_Some (m s).
Lemma total_bind {S E A B} (m : ST S E A) (f : A -> ST S E B) : ends m -> (forall a, ends (f a)) -> ends (m ≫= f).
Proof. intros Hm Hf s. rewrite run_bind. destruct (Hm s) as [[[a|e] s'] ->]; [apply Hf|done]. Qed.
Lemma total_transaction {S E A} (m : ST S E A) : ends m -> ends (transaction m).
Proof. intros Hm s. rewrite run_transaction. destruct (Hm s) as [[[a|e] s'] ->]; done. Qed.
Ltac st_total :=
  repeat lazymatch goal with
  | |- ends (mbind _ _) => apply total_bind; [|intros ?]
  | |- ends (transaction _) => apply total_transaction
  | |- ends (mret _) => by (intros ?; eexists)
  | |- ends (throw _) => by (intros ?; eexists)
  | |- ends (throw_if _ _) => by (intros ?; eexists)
  | |- ends (lift _) => by (intros ?; eexists)
  | |- ends (gets _) => by (intros ?; eexists)
  | |- ends (modify _) => by (intros ?; eexists)
  | |- ends (if ?b then _ else _) => destruct b
  | |- ends (match ?x with _ => _ end) => destruct x
  end.
