(* ===== verification/Json.v ===== *)
(** * JSON values and their texts ([serde_json])

    The values the remote protocol and its store pass around.  Printing and parsing
    are an interface: a text printed from a value without floats and of limited
    depth reads back. *)

From S2P Require Export BMap.

Module Json.

(** [serde_json::Value]; a float is its 64 bits, an object its entries in the
    order of their keys. *)
Inductive Value :=
  | Null
  | Bool (b : bool)
  | PosInt (n : Z)
  | NegInt (n : Z)
  | Float (bits : Z)
  | String (s : str)
  | Array (values : list Value)
  | Object (entries : list (str * Value)).

(** [Value::get] with a key. *)
Definition get (key : str) (v : Value) : option Value :=
  match v with
  | Object entries => snd <$> List.find (fun kv => bool_decide (kv.1 = key)) entries
  | _ => None
  end.
(** [value["key"]]: null for a missing entry or another kind of value. *)
Definition index (v : Value) (key : str) : Value := default Null (get key v).
Definition as_str (v : Value) : option str := match v with String s => Some s | _ => None end.
(** [Value::pointer] with tokens that are not numbers. *)
Fixpoint pointer (tokens : list str) (v : Value) : option Value :=
  match tokens with
  | [] => Some v
  | token :: tokens => v ← get token v; pointer tokens v
  end.
(** [value == "text"]. *)
Definition is_str (v : Value) (s : str) : bool := bool_decide (as_str v = Some s).

(** Entries in the order of a [BTreeMap]. *)
Fixpoint sorted_keys {A} (entries : list (str * A)) : bool :=
  match entries with
  | (k, _) :: ((l, _) :: _) as rest => bool_decide (str_compare k l = Lt) && sorted_keys rest
  | _ => true
  end.

(** A value whose text reads back as itself: no floats, integers of 64 bits,
    at most [depth] levels, text in UTF-8, objects in key order. *)
Fixpoint plain (depth : nat) (v : Value) : bool :=
  match depth with
  | O => false
  | S depth =>
      match v with
      | Null | Bool _ => true
      | String s => utf8_valid s
      | PosInt n => (0 <=? n)%Z && (n <? 2 ^ 64)%Z
      | NegInt n => (- 2 ^ 63 <=? n)%Z && (n <? 0)%Z
      | Float _ => false
      | Array values => forallb (plain depth) values
      | Object entries => sorted_keys entries && forallb (fun kv => utf8_valid kv.1 && plain depth kv.2) entries
      end
  end.
(** [serde_json]'s limit of nesting. *)
Definition MAX_DEPTH : nat := 127.
End Json.

(** [serde_json::to_string] and [from_str] on values. *)
Class SerdeJson := {
  to_json : Json.Value -> str;
  from_json : str -> result str Json.Value }.
(** A plain value within the limit of nesting reads back. *)
Class SerdeJsonLaws (S : SerdeJson) : Prop :=
  json_round v : Json.plain Json.MAX_DEPTH v = true -> from_json (to_json v) = Ok v.
