(* ===== verification/Crypto.v ===== *)
(** * Keys, secrets and proofs ([codex-start-remote/src/crypto.rs], [lib.rs])

    Decoding of secrets, the message a device signs, and the code a person reads
    out.  Base64, hexadecimal, SHA-256 and Ed25519 are interfaces; their laws are
    what their crates document. *)

From S2P Require Export Auth.

(** [base64]'s [URL_SAFE_NO_PAD], [hex] and [data_encoding]'s [BASE32_NOPAD]. *)
Class Encodings := {
  b64_encode : str -> str;
  b64_decode : str -> option str;
  hex_encode : str -> str;
  hex_decode : str -> option str;
  b32_encode : str -> str;
  b32_decode : str -> option str }.
(** Decoding undoes encoding, base64 and base32 have one text per value, and
    hexadecimal is read in either case and written in lower case. *)
Class EncodingLaws (E : Encodings) : Prop := {
  b64_round b : b64_decode (b64_encode b) = Some b;
  b64_canonical s b : b64_decode s = Some b -> b64_encode b = s;
  hex_round b : hex_decode (hex_encode b) = Some b;
  hex_canonical s b : hex_decode s = Some b -> hex_encode b = to_ascii_lowercase s;
  b32_round b : b32_decode (b32_encode b) = Some b;
  b32_canonical s b : b32_decode s = Some b -> b32_encode b = s;
  b32_length b : (length (b32_encode b) <= 2 * length b)%nat }.

(** [ed25519_dalek]: keys and signatures are their bytes. *)
Class Ed25519 := {
  verifying_key : str -> str;
  key_from_bytes : str -> option str;
  signature_from_slice : str -> option str;
  ed_sign : str -> str -> str;
  ed_verify : str -> str -> str -> bool }.
Class Ed25519Laws (K : Ed25519) : Prop := {
  verifying_key_length s : length s = 32%nat -> length (verifying_key s) = 32%nat;
  verifying_key_valid s : length s = 32%nat -> key_from_bytes (verifying_key s) = Some (verifying_key s);
  signature_valid s m : length s = 32%nat -> signature_from_slice (ed_sign s m) = Some (ed_sign s m);
  signature_verifies s m : length s = 32%nat -> ed_verify (verifying_key s) m (ed_sign s m) = true }.

Module Crypto.

Inductive RemoteError :=
  | Invalid (message : str)
  | Unauthorized
  | Storage (error : str)
  | Json (error : str)
  | IoError (error : str).

Section crypto.
Context {E : Encodings} {H : Sha256} {K : Ed25519}.

Definition decode_password (value : str) : result RemoteError str :=
  ok_or (v ← b64_decode value; if (length v =? 16)%nat then Some v else None) (Invalid "invalid password").

Definition decode_secret (value : str) : result RemoteError str :=
  ok_or (v ← b64_decode value; if (length v =? 32)%nat then Some v else None) (Invalid "invalid secret").

Definition decode32 (value : str) : result RemoteError str :=
  ok_or (v ← hex_decode value; if (length v =? 32)%nat then Some v else None)
    (Invalid "invalid public key or fingerprint").

Definition digest (value : str) : str := hex_encode (sha256_digest value).

Definition public_key (secret : str) : result RemoteError str :=
  secret ← decode_secret secret; Ok (hex_encode (verifying_key secret)).

Definition proof_message (nonce fingerprint : str) : str :=
  "cs.fob.wtf/auth/v1" ++ NUL :: nonce ++ NUL :: fingerprint.

Definition sign (secret nonce fingerprint : str) : result RemoteError str :=
  secret ← decode_secret secret; Ok (hex_encode (ed_sign secret (proof_message nonce fingerprint))).

Definition verify (key signature nonce fingerprint : str) : result RemoteError unit :=
  key ← decode32 key;
  key ← ok_or (key_from_bytes key) Unauthorized;
  bytes ← ok_or (hex_decode signature) Unauthorized;
  signature ← ok_or (signature_from_slice bytes) Unauthorized;
  err_if (negb (ed_verify key (proof_message nonce fingerprint) signature)) Unauthorized.

(** The slices of the digest are of ASCII text, so they are on boundaries. *)
Definition approval_code (device_key fingerprint nonce : str) : str :=
  let hash := digest ("cs.fob.wtf/pair/v1" ++ NUL :: device_key ++ NUL :: fingerprint ++ NUL :: nonce) in
  to_ascii_uppercase (take 5 hash ++ "-" ++ take 5 (drop 5 hash) ++ "-" ++ take 5 (drop 10 hash)).

Lemma decode_password_Ok value v : decode_password value = Ok v <-> b64_decode value = Some v /\ length v = 16%nat.
Proof.
  unfold decode_password. rewrite ok_or_Ok, bind_Some. split.
  - intros (w & Hw & Hl). destruct (length w =? 16)%nat eqn:El; simplify_eq. bool_split. done.
  - intros [Hd Hl]. exists v. split; [done|]. by rewrite (proj2 (Nat.eqb_eq _ _) Hl).
Qed.
Lemma decode_secret_Ok value v : decode_secret value = Ok v <-> b64_decode value = Some v /\ length v = 32%nat.
Proof.
  unfold decode_secret. rewrite ok_or_Ok, bind_Some. split.
  - intros (w & Hw & Hl). destruct (length w =? 32)%nat eqn:El; simplify_eq. bool_split. done.
  - intros [Hd Hl]. exists v. split; [done|]. by rewrite (proj2 (Nat.eqb_eq _ _) Hl).
Qed.
Lemma decode32_Ok value v : decode32 value = Ok v <-> hex_decode value = Some v /\ length v = 32%nat.
Proof.
  unfold decode32. rewrite ok_or_Ok, bind_Some. split.
  - intros (w & Hw & Hl). destruct (length w =? 32)%nat eqn:El; simplify_eq. bool_split. done.
  - intros [Hd Hl]. exists v. split; [done|]. by rewrite (proj2 (Nat.eqb_eq _ _) Hl).
Qed.

(** What is signed says which challenge and which host it answers. *)
Lemma proof_message_injective nonce fingerprint nonce' fingerprint' :
  NUL ∉ nonce -> NUL ∉ nonce' ->
  proof_message nonce fingerprint = proof_message nonce' fingerprint' -> nonce = nonce' /\ fingerprint = fingerprint'.
Proof.
  unfold proof_message. intros H1 H2 Heq. apply app_inv_head in Heq. injection Heq as Heq.
  pose proof (proj2 (split_once_Some NUL (nonce ++ NUL :: fingerprint) nonce fingerprint) (conj eq_refl H1)) as S1.
  pose proof (proj2 (split_once_Some NUL (nonce' ++ NUL :: fingerprint') nonce' fingerprint') (conj eq_refl H2)) as S2.
  rewrite Heq, S2 in S1. by simplify_eq.
Qed.

(** A device's own proof is accepted. *)
Lemma verify_sign `{!EncodingLaws E, !Ed25519Laws K} secret key signature nonce fingerprint :
  public_key secret = Ok key -> sign secret nonce fingerprint = Ok signature ->
  verify key signature nonce fingerprint = Ok tt.
Proof.
  unfold public_key, sign. intros (s & Hs & [= <-])%bind_Ok. intros (s' & Hs' & [= <-])%bind_Ok.
  rewrite Hs in Hs'. injection Hs' as <-. apply decode_secret_Ok in Hs as [_ Hl]. unfold verify.
  rewrite (proj2 (decode32_Ok (hex_encode (verifying_key s)) (verifying_key s)))
    by (split; [apply hex_round|by apply verifying_key_length]).
  cbn [mbind result_bind]. rewrite verifying_key_valid by done. cbn [ok_or mbind result_bind].
  rewrite hex_round. cbn [ok_or mbind result_bind]. rewrite signature_valid by done. cbn [ok_or mbind result_bind].
  by rewrite signature_verifies.
Qed.
End crypto.

(** ** Concrete encodings for the witnesses *)

Definition nibble (n : Z) : ascii := byte_at (if n <? 10 then 48 + n else 87 + n)%Z.
Definition plain_hex_encode (b : str) : str := concat (map (fun c => [nibble (code c / 16); nibble (code c mod 16)]) b).
Definition nibble_value (c : ascii) : option Z :=
  if is_digit c then Some (code c - 48)%Z
  else if in_range 97 102 c then Some (code c - 87)%Z
  else if in_range 65 70 c then Some (code c - 55)%Z
  else None.
Fixpoint plain_hex_decode (s : str) : option str :=
  match s with
  | [] => Some []
  | a :: b :: s => x ← nibble_value a; y ← nibble_value b; rest ← plain_hex_decode s; Some (byte_at (x * 16 + y) :: rest)
  | [_] => None
  end.
(** Every text has the bytes it decodes to, when it is their lower-case text. *)
Definition strict_decode (s : str) : option str :=
  b ← plain_hex_decode s; if bool_decide (plain_hex_encode b = s) then Some b else None.

#[export] Instance plain_encodings : Encodings := {|
  b64_encode := plain_hex_encode; b64_decode := strict_decode;
  hex_encode := plain_hex_encode; hex_decode := plain_hex_decode;
  b32_encode := plain_hex_encode; b32_decode := strict_decode |}.

Lemma plain_hex_round b : plain_hex_decode (plain_hex_encode b) = Some b.
Proof.
  induction b as [|c b IH]; [done|]. change (plain_hex_encode (c :: b)) with
    ([nibble (code c / 16); nibble (code c mod 16)] ++ plain_hex_encode b). cbn [app plain_hex_decode]. rewrite IH.
  clear. destruct c as [[] [] [] [] [] [] [] []]; reflexivity.
Qed.

Lemma nibble_value_lower a x : nibble_value a = Some x -> nibble x = lower_byte a /\ (0 <= x < 16)%Z.
Proof. destruct a as [[] [] [] [] [] [] [] []]; vm_compute; intros H; try discriminate; injection H as <-; done. Qed.

Lemma plain_hex_canonical n s b : (length s <= n)%nat -> plain_hex_decode s = Some b -> plain_hex_encode b = to_ascii_lowercase s.
Proof.
  revert s b. induction n as [|n IH]; intros s b Hn.
  { destruct s; [|cbn in Hn; lia]. by intros [= <-]. }
  destruct s as [|x [|y s]]; cbn [plain_hex_decode]; [by intros [= <-]|done|].
  intros (vx & Hx & H)%bind_Some. apply bind_Some in H as (vy & Hy & H). apply bind_Some in H as (r & Hr & [= <-]).
  apply nibble_value_lower in Hx as [Hx Bx]. apply nibble_value_lower in Hy as [Hy By].
  change (plain_hex_encode (?c :: r)) with ([nibble (code c / 16); nibble (code c mod 16)] ++ plain_hex_encode r).
  rewrite code_byte_at by lia. rewrite (IH s r) by (cbn in Hn; done || lia).
  replace ((vx * 16 + vy) / 16)%Z with vx by (apply (Z.div_unique _ _ _ vy); lia).
  replace ((vx * 16 + vy) mod 16)%Z with vy by (apply (Z.mod_unique _ _ vx); lia).
  by rewrite Hx, Hy.
Qed.

Lemma plain_encodings_laws : EncodingLaws plain_encodings.
Proof.
  assert (Hs : forall b, strict_decode (plain_hex_encode b) = Some b)
    by (intros b; unfold strict_decode; rewrite plain_hex_round; cbn [mbind option_bind]; by rewrite bool_decide_eq_true_2).
  assert (Hc : forall s b, strict_decode s = Some b -> plain_hex_encode b = s).
  { intros s b (b' & _ & H)%bind_Some. destruct (bool_decide_reflect (plain_hex_encode b' = s)); by simplify_eq. }
  constructor; try done.
  - apply plain_hex_round.
  - intros s b H. by eapply plain_hex_canonical.
  - intros b. cbn [b32_encode plain_encodings]. unfold plain_hex_encode. induction b as [|c b IH]; [done|].
    cbn [map concat app length] in *. lia.
Qed.
End Crypto.
