(* ===== verification/Invitation.v ===== *)
(** * Invitations ([codex-start-remote/src/invitation.rs], [compact_invitation.rs])

    An invitation tells a new device how to reach a host and carries the password
    that admits it.  Its text is a URI with a compact binary form in Base32. *)

From S2P Require Export Allowlist Crypto.

Module Invitation.
Import IpAddr Allowlist Crypto.

Definition PROTOCOL_VERSION : Z := 1.
Definition DEFAULT_PORT : Z := 47321.
Definition INVITATION_PREFIX : str := "https://cs.fob.wtf/c#".
Definition INVITATION_ORIGIN : str := "https://cs.fob.wtf".

Inductive Connection :=
  | Direct (host : str) (port : Z)
  | Yggdrasil (public_key group_password : str) (port : Z).

Record Invitation := mkInvitation {
  version : Z;
  connection : Connection;
  connection_password : str;
  fingerprint : option str }.

(** ** Addresses as octets *)

Definition be_bytes (n : Z) : str := [byte_at (n / 256); byte_at (n mod 256)].
(** [Ipv4Addr::octets] is the list itself; [Ipv6Addr::octets] splits the segments. *)
Definition ip_octets (ip : IpAddr) : str :=
  match ip with
  | V4 octets => map byte_at octets
  | V6 segments => concat (map be_bytes segments)
  end.
(** [Ipv6Addr::from([u8; 16])]. *)
Fixpoint segments_of (bytes : str) : list Z :=
  match bytes with
  | a :: b :: bytes => (code a * 256 + code b)%Z :: segments_of bytes
  | _ => []
  end.

Section invitations.
Context {E : Encodings}.

Definition validate (self : Invitation) : result RemoteError unit :=
  err_if (negb (version self =? PROTOCOL_VERSION)%Z) (Invalid "unsupported invitation version or identity") ;;
  decode_password (connection_password self) ;;
  match connection self with
  | Direct host port =>
      fingerprint ← ok_or (fingerprint self) (Invalid "direct invitation requires a TLS fingerprint");
      decode32 fingerprint ;;
      err_if (negb (nonempty host) || (253 <? length host)%nat || contains_any "/?#@\" host || (port =? 0)%Z)
        (Invalid "invalid direct endpoint")
  | Yggdrasil public_key group_password port =>
      err_if (bool_decide (is_Some (fingerprint self)))
        (Invalid "Yggdrasil invitations use the host public key, not a TLS fingerprint") ;;
      decode32 public_key ;;
      decode_password group_password ;;
      err_if (port =? 0)%Z (Invalid "invalid port")
  end.

Definition invalid : RemoteError := Invalid "invalid compact invitation".

(** The flag bits and the bytes of the endpoint. *)
Definition compact_endpoint (connection : Connection) : result RemoteError (Z * Z * str) :=
  match connection with
  | Direct host port =>
      match parse_ip host with
      | Some (V4 octets) => Ok (2%Z, port, ip_octets (V4 octets))
      | Some (V6 segments) => Ok (3%Z, port, ip_octets (V6 segments))
      | None =>
          err_if (255 <? length host)%nat invalid ;;
          Ok (0%Z, port, byte_at (Z.of_nat (length host)) :: host)
      end
  | Yggdrasil public_key group_password port =>
      group ← decode_password group_password;
      endpoint ← decode32 public_key;
      Ok (1%Z, port, endpoint ++ group)
  end.

(** [compact_invitation::encode]. *)
Definition compact_encode (invite : Invitation) : result RemoteError str :=
  password ← decode_password (connection_password invite);
  '(flags, port, endpoint) ← compact_endpoint (connection invite);
  let bytes := [byte_at (Z.lor (Z.lor 0x10 flags) (if (port =? DEFAULT_PORT)%Z then 0 else 4))] in
  let bytes := if negb (port =? DEFAULT_PORT)%Z then bytes ++ be_bytes port else bytes in
  bytes ← match fingerprint invite with
          | Some fingerprint => fingerprint ← decode32 fingerprint; Ok (bytes ++ fingerprint)
          | None => Ok bytes
          end;
  Ok (INVITATION_PREFIX ++ b32_encode (bytes ++ password ++ endpoint)).

Definition take_bytes (bytes : str) (length : nat) : result RemoteError (str * str) :=
  err_if (List.length bytes <? length)%nat invalid ;;
  Ok (take length bytes, drop length bytes).

Definition take_text (bytes : str) : result RemoteError (str * str) :=
  '(length, bytes) ← take_bytes bytes 1;
  let length := match length with c :: _ => Z.to_nat (code c) | [] => 0%nat end in
  '(text, bytes) ← take_bytes bytes length;
  err_if (negb (utf8_valid text)) invalid ;;
  Ok (text, bytes).

Definition compact_connection (flags : Z) (port : Z) (bytes : str) : result RemoteError (Connection * str) :=
  let kind := Z.land flags 3 in
  if (kind =? 0)%Z then
    '(host, bytes) ← take_text bytes; Ok (Direct host port, bytes)
  else if (kind =? 1)%Z then
    '(public_key, bytes) ← take_bytes bytes 32;
    '(group_password, bytes) ← take_bytes bytes 16;
    Ok (Yggdrasil (hex_encode public_key) (b64_encode group_password) port, bytes)
  else if (kind =? 2)%Z then
    '(octets, bytes) ← take_bytes bytes 4; Ok (Direct (ip_to_string (V4 (map code octets))) port, bytes)
  else
    '(octets, bytes) ← take_bytes bytes 16; Ok (Direct (ip_to_string (V6 (segments_of octets))) port, bytes).

(** [compact_invitation::decode]. *)
Definition compact_decode (encoded : str) : result RemoteError Invitation :=
  bytes ← ok_or (b32_decode encoded) invalid;
  '(flags, bytes) ← take_bytes bytes 1;
  let flags := match flags with c :: _ => code c | [] => 0%Z end in
  err_if (negb (Z.land flags 0xf8 =? 0x10)%Z) invalid ;;
  '(port, bytes) ←
    (if (Z.land flags 4 =? 0)%Z then Ok (DEFAULT_PORT, bytes)
     else '(port, bytes) ← take_bytes bytes 2;
          Ok (match port with [a; b] => code a * 256 + code b | _ => 0 end, bytes)%Z);
  '(fingerprint, bytes) ←
    (if (Z.land flags 3 =? 1)%Z then Ok (None, bytes)
     else '(fingerprint, bytes) ← take_bytes bytes 32; Ok (Some (hex_encode fingerprint), bytes));
  '(password, bytes) ← take_bytes bytes 16;
  '(connection, bytes) ← compact_connection flags port bytes;
  err_if (nonempty bytes) invalid ;;
  Ok (mkInvitation PROTOCOL_VERSION connection (b64_encode password) fingerprint).

Definition encode (self : Invitation) : result RemoteError str :=
  validate self ;; compact_encode self.

Definition decode (uri : str) : result RemoteError Invitation :=
  err_if (8192 <? Z.of_nat (length uri))%Z (Invalid "invitation is too large") ;;
  '(_, encoded) ← ok_or
    ('(origin, encoded) ← split_once_str "/c#" uri;
     if eq_ignore_ascii_case origin INVITATION_ORIGIN then Some (origin, encoded) else None)
    (Invalid "unsupported invitation");
  result ← compact_decode encoded;
  validate result ;;
  Ok result.
End invitations.
(** ** Printed addresses *)

Definition ip_text_byte (c : ascii) : bool := is_hexdigit c || is_byte ":" c || is_byte "." c.

Lemma forall_join (P : ascii -> Prop) sep ws : Forall P sep -> Forall (Forall P) ws -> Forall P (join sep ws).
Proof.
  intros Hs. induction ws as [|w [|w2 ws] IH]; intros H; cbn [join]; [constructor|by apply Forall_cons in H as [? _]|].
  apply Forall_cons in H as [Hw H]. apply Forall_app; split; [done|]. apply Forall_app; split; [done|]. by apply IH.
Qed.
Lemma length_join_le k sep ws : Forall (fun w => length w <= k)%nat ws ->
  (length (join sep ws) <= length ws * (k + length sep))%nat.
Proof.
  induction ws as [|w ws IH]; intros H; [cbn; lia|]. apply Forall_cons in H as [Hw H]. specialize (IH H).
  destruct ws as [|w2 ws]; [cbn; lia|]. rewrite join_cons_cons, !length_app by done.
  remember (join sep (w2 :: ws)) as rest. cbn [length] in *. lia.
Qed.

(** A text of address bytes, at most [k] of them. *)
Definition ip_text (k : nat) (s : str) : Prop := Forall (fun c => ip_text_byte c = true) s /\ (length s <= k)%nat.

Lemma ip_text_dec k s : forallb ip_text_byte s && (length s <=? k)%nat = true -> ip_text k s.
Proof. intros H. bool_split. split; [by apply forallb_Forall|done]. Qed.
Lemma ip_text_app k l a b : ip_text k a -> ip_text l b -> ip_text (k + l) (a ++ b).
Proof. intros [H1 H2] [H3 H4]. split; [by apply Forall_app|rewrite length_app; lia]. Qed.
Lemma ip_text_weaken k l s : ip_text k s -> (k <= l)%nat -> ip_text l s.
Proof. intros [H1 H2] H. split; [done|lia]. Qed.

Lemma ip_text_join k n sep ws : ip_text 1 sep -> Forall (ip_text k) ws -> (length ws <= n)%nat ->
  ip_text (n * (k + 1)) (join sep ws).
Proof.
  intros [Hs Hl] Hws Hn. split.
  - apply forall_join; [done|]. eapply Forall_impl; [exact Hws|]. by intros w [? _].
  - etrans; [apply (length_join_le k); eapply Forall_impl; [exact Hws|]; by intros w [_ ?]|].
    apply Nat.mul_le_mono; lia.
Qed.

Lemma ip_text_hex n : (0 <= n)%Z -> ip_text 4 (hex n).
Proof.
  assert (Hd : forall d, (0 <= d < 16)%Z -> ip_text_byte (hex_digit d) = true).
  { intros d Hd. assert (Hin : d ∈ seqZ 0 16) by (apply elem_of_seqZ; lia). revert d Hd Hin.
    assert (HF : Forall (fun d => ip_text_byte (hex_digit d) = true) (seqZ 0 16)) by (vm_compute; repeat constructor).
    rewrite Forall_forall in HF. intros d _ Hin. by apply HF. }
  unfold hex. generalize 4%nat as fuel. intros fuel. revert n. induction fuel as [|fuel IH]; intros n Hn; [by split; [constructor|cbn; lia]|].
  cbn [hex_fuel]. destruct (n <? 16)%Z eqn:E; bool_split.
  - split; [constructor; [by apply Hd|constructor]|cbn; lia].
  - replace (S fuel) with (fuel + 1)%nat by lia. apply ip_text_app; [apply IH, Z.div_pos; lia|].
    split; [constructor; [|constructor]|cbn; lia]. apply Hd, Z.mod_pos_bound. lia.
Qed.

Lemma ip_text_octet n : (0 <= n <= 255)%Z -> ip_text 3 (dec n).
Proof.
  intros Hn. assert (Hin : n ∈ seqZ 0 256) by (apply elem_of_seqZ; lia). revert n Hn Hin.
  assert (HF : Forall (fun n => forallb ip_text_byte (dec n) && (length (dec n) <=? 3)%nat = true) (seqZ 0 256)).
  { apply Forall_forall. intros n Hn. revert n Hn. apply Forall_forall, forallb_Forall. vm_compute. reflexivity. }
  rewrite Forall_forall in HF. intros n _ Hin. specialize (HF n Hin). bool_split. split; [by apply forallb_Forall|done].
Qed.

Lemma ip_text_ipv4 o : is_octets o -> ip_text 16 (ipv4_to_string o).
Proof.
  intros [Hl Ho]. apply (ip_text_join 3 4); [by apply ip_text_dec| |by rewrite length_map, Hl].
  apply Forall_map. eapply Forall_impl; [exact Ho|]. apply ip_text_octet.
Qed.

Lemma ip_text_segments n l : Forall (fun g => 0 <= g)%Z l -> (length l <= n)%nat -> ip_text (n * 5) (join ":" (map hex l)).
Proof.
  intros Hl Hn. apply (ip_text_join 4 n); [by apply ip_text_dec| |by rewrite length_map].
  apply Forall_map. eapply Forall_impl; [exact Hl|]. apply ip_text_hex.
Qed.

Lemma ip_text_ip ip : well_formed ip -> ip_text 90 (ip_to_string ip) /\ ip_to_string ip <> [].
Proof.
  destruct ip as [o|g]; cbn [well_formed ip_to_string]; intros Hw.
  { split; [eapply ip_text_weaken; [by apply ip_text_ipv4|lia]|]. destruct Hw as [Hl _].
    destruct o as [|a [|b [|c [|d [|]]]]]; try done. unfold ipv4_to_string. cbn [map]. rewrite join_cons_cons by done.
    destruct (dec a); done. }
  destruct Hw as [Hl Hg]. assert (Hg0 : Forall (fun n => 0 <= n)%Z g) by (eapply Forall_impl; [exact Hg|]; cbn; lia).
  unfold ipv6_to_string. destruct (to_ipv4_mapped g) as [o|] eqn:Em.
  - split; [|done]. eapply (ip_text_weaken (7 + 16)); [|lia]. apply ip_text_app; [by apply ip_text_dec|].
    apply ip_text_ipv4. unfold to_ipv4_mapped in Em.
    destruct g as [|a [|b [|c [|d [|e [|f [|ab [|cd [|]]]]]]]]]; try done.
    destruct (bool_decide _); [|done]. injection Em as <-. repeat (apply Forall_cons in Hg as [? Hg]).
    split; [done|]. unfold U16_MAX in *. repeat constructor; try (apply Z.div_pos; lia);
      try (apply Z.mod_pos_bound; lia); try (apply Z.lt_succ_r, Z.div_lt_upper_bound; lia);
      match goal with |- (?x mod 256 <= _)%Z => pose proof (Z.mod_pos_bound x 256); lia end.
  - destruct (longest_zeroes _ _ _ _) as [start len]. destruct (1 <? len)%nat.
    + split; [|by destruct (join ":" (map hex (take start g)))].
      eapply (ip_text_weaken (8 * 5 + (2 + 8 * 5))); [|lia].
      apply ip_text_app; [apply ip_text_segments; [by apply Forall_take|rewrite length_take; lia]|].
      apply ip_text_app; [by apply ip_text_dec|].
      apply ip_text_segments; [by apply Forall_drop|rewrite length_drop; lia].
    + split; [eapply (ip_text_weaken (8 * 5)); [apply ip_text_segments; [done|lia]|lia]|].
      destruct g as [|a [|b g]]; try done. cbn [map]. rewrite join_cons_cons by done. by destruct (hex a).
Qed.

Lemma ip_text_host ip : well_formed ip ->
  negb (nonempty (ip_to_string ip)) || (253 <? length (ip_to_string ip))%nat || contains_any "/?#@\" (ip_to_string ip) = false.
Proof.
  intros Hw. destruct (ip_text_ip ip Hw) as [[Hb Hl] Hne]. rewrite !orb_false_iff. repeat split.
  - by destruct (ip_to_string ip).
  - apply Nat.ltb_ge. lia.
  - apply contains_any_false. intros c Hc Hin. rewrite Forall_forall in Hb. specialize (Hb c Hin).
    assert (HF : Forall (fun c => ip_text_byte c = false) ("/?#@\" : str)) by (by repeat constructor).
    rewrite Forall_forall in HF. by rewrite (HF c Hc) in Hb.
Qed.
(** ** Round trip *)

(** What the types of the source guarantee. *)
Definition well_typed (self : Invitation) : Prop :=
  match connection self with
  | Direct host port => utf8_valid host = true /\ (0 <= port <= U16_MAX)%Z
  | Yggdrasil _ _ port => (0 <= port <= U16_MAX)%Z
  end.

(** The invitation with its keys in lower case and an address in its usual form. *)
Definition normalize_connection (c : Connection) : Connection :=
  match c with
  | Direct host port => Direct (match parse_ip host with Some ip => ip_to_string ip | None => host end) port
  | Yggdrasil public_key group_password port => Yggdrasil (to_ascii_lowercase public_key) group_password port
  end.
Definition normalize (self : Invitation) : Invitation :=
  mkInvitation (version self) (normalize_connection (connection self)) (connection_password self)
    (to_ascii_lowercase <$> fingerprint self).

Lemma take_bytes_app a b n : length a = n -> take_bytes (a ++ b) n = Ok (a, b).
Proof.
  intros <-. unfold take_bytes. rewrite length_app. rewrite (proj2 (Nat.ltb_ge _ _)) by lia. cbn [err_if mbind result_bind].
  by rewrite take_app_length, drop_app_length.
Qed.
Lemma take_bytes_all a n : length a = n -> take_bytes a n = Ok (a, []).
Proof. intros H. rewrite <- (app_nil_r a) at 1. by apply take_bytes_app. Qed.

Lemma code_byte_octets o : Forall (fun b => 0 <= b <= 255)%Z o -> map code (map byte_at o) = o.
Proof.
  induction 1 as [|b o Hb _ IH]; [done|]. cbn [map]. rewrite IH, code_byte_at by lia. done.
Qed.

Lemma be_bytes_value n : (0 <= n <= U16_MAX)%Z ->
  (code (byte_at (n / 256)) * 256 + code (byte_at (n mod 256)))%Z = n.
Proof.
  unfold U16_MAX. intros Hn. pose proof (Z.mod_pos_bound n 256). pose proof (Z.div_mod n 256).
  assert (0 <= n / 256 < 256)%Z by (split; [apply Z.div_pos; lia|apply Z.div_lt_upper_bound; lia]).
  rewrite !code_byte_at by lia. lia.
Qed.

Lemma segments_of_octets g : Forall (fun n => 0 <= n <= U16_MAX)%Z g -> segments_of (concat (map be_bytes g)) = g.
Proof.
  induction 1 as [|n g Hn _ IH]; [done|]. change (concat (map be_bytes (n :: g))) with (be_bytes n ++ concat (map be_bytes g)).
  cbn [be_bytes app segments_of]. by rewrite be_bytes_value, IH.
Qed.
Lemma length_octets g : length (concat (map be_bytes g)) = (2 * length g)%nat.
Proof. induction g as [|n g IH]; [done|]. cbn [map concat be_bytes app length]. rewrite IH. lia. Qed.

(** The byte of flags and what decoding reads from it. *)
Definition flag_byte (flags port : Z) : ascii :=
  byte_at (Z.lor (Z.lor 0x10 flags) (if (port =? DEFAULT_PORT)%Z then 0 else 4)).
Lemma flag_byte_spec flags port : flags ∈ [0; 1; 2; 3]%Z ->
  Z.land (code (flag_byte flags port)) 0xf8 = 0x10%Z /\
  (Z.land (code (flag_byte flags port)) 4 =? 0)%Z = (port =? DEFAULT_PORT)%Z /\
  Z.land (code (flag_byte flags port)) 3 = flags.
Proof.
  intros Hf. unfold flag_byte. destruct (port =? DEFAULT_PORT)%Z;
    repeat (apply elem_of_cons in Hf as [->|Hf]; [vm_compute; done|]); by apply not_elem_of_nil in Hf.
Qed.

Section roundtrip.
Context {E : Encodings} {EL : EncodingLaws E}.

Lemma decode_password_length p v : decode_password p = Ok v -> length v = 16%nat /\ b64_encode v = p.
Proof. rewrite decode_password_Ok. intros [Hd Hl]. split; [done|by apply b64_canonical]. Qed.
Lemma decode32_length k v : decode32 k = Ok v -> length v = 32%nat /\ hex_encode v = to_ascii_lowercase k.
Proof. rewrite decode32_Ok. intros [Hd Hl]. split; [done|by apply hex_canonical]. Qed.

(** The endpoint is read back from its bytes, the flags and the port. *)
Lemma compact_endpoint_round c fp : 
  match c with
  | Direct host _ => utf8_valid host = true /\ (length host <= 253)%nat
  | Yggdrasil k g _ => is_ok (decode32 k) = true /\ is_ok (decode_password g) = true
  end ->
  exists flags port endpoint, compact_endpoint c = Ok (flags, port, endpoint) /\
    flags ∈ [0; 1; 2; 3]%Z /\ (length endpoint <= 254)%nat /\
    match c with Direct _ p | Yggdrasil _ _ p => port = p end /\
    (flags = 1%Z <-> match c with Yggdrasil _ _ _ => True | Direct _ _ => False end) /\
    compact_connection (code (flag_byte flags fp)) port endpoint = Ok (normalize_connection c, []).
Proof.
  destruct c as [host port|k g port]; cbn [compact_endpoint normalize_connection].
  - intros [Hutf Hlen]. destruct (parse_ip host) as [ip|] eqn:Eip.
    + apply parse_ip_well_formed in Eip. destruct ip as [o|gs]; cbn [well_formed] in Eip; destruct Eip as [Hl Hf];
        eexists _, _, _; (split; [reflexivity|]);
        (split; [set_solver|]); cbn [ip_octets]; rewrite ?length_octets, ?length_map, ?Hl; (split; [lia|]); (split; [done|]); (split; [done|]).
      * unfold compact_connection. rewrite (proj2 (proj2 (flag_byte_spec 2 fp ltac:(set_solver)))). cbn [Z.eqb Pos.eqb].
        rewrite take_bytes_all by (by rewrite length_map). cbn [mbind result_bind]. by rewrite code_byte_octets.
      * unfold compact_connection. rewrite (proj2 (proj2 (flag_byte_spec 3 fp ltac:(set_solver)))). cbn [Z.eqb Pos.eqb].
        rewrite take_bytes_all by (rewrite length_octets, Hl; done). cbn [mbind result_bind]. by rewrite segments_of_octets.
    + rewrite (proj2 (Nat.ltb_ge _ _)) by lia. cbn [err_if mbind result_bind]. eexists _, _, _. split; [reflexivity|].
      split; [set_solver|]. split; [cbn; lia|]. split; [done|]. split; [done|].
      unfold compact_connection. rewrite (proj2 (proj2 (flag_byte_spec 0 fp ltac:(set_solver)))). cbn [Z.eqb].
      unfold take_text. change (?c :: host) with ([c] ++ host). rewrite take_bytes_app by done. cbn [mbind result_bind].
      rewrite code_byte_at, Nat2Z.id by lia. rewrite take_bytes_all by done. cbn [mbind result_bind]. by rewrite Hutf.
  - intros [Hk Hg]. destruct (decode_password g) as [gv|] eqn:Eg; [|done]. destruct (decode32 k) as [kv|] eqn:Ek; [|done].
    apply decode_password_length in Eg as [Hgl Hgc]. apply decode32_length in Ek as [Hkl Hkc].
    cbn [mbind result_bind]. eexists _, _, _. split; [reflexivity|]. split; [set_solver|].
    split; [rewrite length_app; lia|]. split; [done|]. split; [done|].
    unfold compact_connection. rewrite (proj2 (proj2 (flag_byte_spec 1 fp ltac:(set_solver)))). cbn [Z.eqb Pos.eqb].
    rewrite take_bytes_app by done. cbn [mbind result_bind]. rewrite take_bytes_all by done. cbn [mbind result_bind].
    by rewrite Hkc, Hgc.
Qed.
Lemma validate_version self : validate self = Ok tt ->
  version self = PROTOCOL_VERSION /\ is_ok (decode_password (connection_password self)) = true.
Proof.
  unfold validate. intros [Hv H]%err_if_bind_Ok. apply bind_Ok in H as (p & Hp & _). bool_split. by rewrite Hp.
Qed.

Lemma validate_connection self : validate self = Ok tt ->
  match connection self with
  | Direct host port => exists fp, fingerprint self = Some fp /\ is_ok (decode32 fp) = true /\ (length host <= 253)%nat /\
      negb (nonempty host) || (253 <? length host)%nat || contains_any "/?#@\" host = false /\ port <> 0%Z
  | Yggdrasil k g port => fingerprint self = None /\ is_ok (decode32 k) = true /\ is_ok (decode_password g) = true /\ port <> 0%Z
  end.
Proof.
  unfold validate. intros [_ H]%err_if_bind_Ok. apply bind_Ok in H as (p & _ & H).
  destruct (connection self) as [host port|k g port].
  - apply bind_Ok in H as (fp & Hfp & H). apply ok_or_Ok in Hfp. apply bind_Ok in H as (v & Hv & H). apply err_if_Ok in H.
    apply orb_false_iff in H as [H Hp]. exists fp. rewrite Hv. assert (Hl := H). rewrite !orb_false_iff in Hl.
    destruct Hl as [[_ Hl%Nat.ltb_ge] _]. apply Z.eqb_neq in Hp. do 4 (split; [done|]). done.
  - apply err_if_bind_Ok in H as [Hf H]. apply bind_Ok in H as (kv & Hk & H). apply bind_Ok in H as (gv & Hg & H).
    apply err_if_Ok in H. rewrite Hk, Hg. bool_split. split_and!; try done. by destruct (fingerprint self); [destruct Hf; eexists|].
Qed.

Lemma decode32_hex v : length v = 32%nat -> decode32 (hex_encode v) = Ok v.
Proof. intros H. apply decode32_Ok. split; [apply hex_round|done]. Qed.

Lemma validate_normalize self : well_typed self -> validate self = Ok tt -> validate (normalize self) = Ok tt.
Proof.
  intros _ H. destruct (validate_version _ H) as [Hv Hp]. pose proof (validate_connection _ H) as Hc.
  unfold validate, normalize. cbn [version connection_password connection fingerprint]. rewrite Hv. cbn [err_if mbind result_bind].
  rewrite Z.eqb_refl. cbn [negb err_if mbind result_bind].
  destruct (decode_password (connection_password self)); [|done]. cbn [mbind result_bind].
  destruct (connection self) as [host port|k g port]; cbn [normalize_connection].
  - destruct Hc as (fp & -> & Hfp & _ & Hh & Hport). cbn [fmap option_fmap option_map ok_or mbind result_bind].
    destruct (decode32 fp) as [v|] eqn:Ev; [|done]. apply decode32_length in Ev as [Hl He]. rewrite <- He, decode32_hex by done.
    cbn [mbind result_bind]. apply Z.eqb_neq in Hport. rewrite Hport, orb_false_r.
    destruct (parse_ip host) as [ip|] eqn:Eip; [|by rewrite Hh]. apply parse_ip_well_formed in Eip. by rewrite ip_text_host.
  - destruct Hc as (-> & Hk & Hg & Hport). cbn [fmap option_fmap option_map]. rewrite bool_decide_eq_false_2 by (by intros [? ?]).
    cbn [err_if mbind result_bind]. destruct (decode32 k) as [v|] eqn:Ev; [|done]. apply decode32_length in Ev as [Hl He].
    rewrite <- He, decode32_hex by done. cbn [mbind result_bind]. destruct (decode_password g); [|done]. cbn [mbind result_bind].
    apply Z.eqb_neq in Hport. by rewrite Hport.
Qed.

(** The binary form, from the flags to the endpoint. *)
Lemma compact_round self : well_typed self -> validate self = Ok tt ->
  exists data, compact_encode self = Ok (INVITATION_PREFIX ++ b32_encode data) /\ (length data <= 305)%nat /\
    compact_decode (b32_encode data) = Ok (normalize self).
Proof.
  intros Ht H. destruct (validate_version _ H) as [Hver Hpw]. pose proof (validate_connection _ H) as Hc.
  destruct (decode_password (connection_password self)) as [pw|] eqn:Epw; [|done].
  pose proof (decode_password_length _ _ Epw) as [Hpl Hpc].
  set (port := match connection self with Direct _ p | Yggdrasil _ _ p => p end).
  assert (Hport : (0 <= port <= U16_MAX)%Z) by (unfold port, well_typed in *; destruct (connection self); [apply Ht|done]).
  destruct (compact_endpoint_round (connection self) port) as (flags & port' & endpoint & Hce & Hflags & Hlen & Hp & Hkind & Hcc).
  { unfold well_typed in Ht. destruct (connection self); [|by destruct Hc as (_ & ? & ? & _)].
    destruct Hc as (fp & _ & _ & ? & _). split; [apply Ht|done]. }
  assert (port' = port) as -> by (unfold port; destruct (connection self); exact Hp).
  destruct (flag_byte_spec flags port Hflags) as (Hf8 & Hf4 & Hf3).
  set (portb := if negb (port =? DEFAULT_PORT)%Z then be_bytes port else []).
  assert (Hfp : exists fpb, (length fpb <= 32)%nat /\
    (forall bytes, match fingerprint self with
                   | Some fingerprint => fingerprint ← decode32 fingerprint; Ok (bytes ++ fingerprint)
                   | None => Ok bytes end = (Ok (bytes ++ fpb) : result RemoteError str)) /\
    (forall rest, (if (flags =? 1)%Z then Ok (None, fpb ++ rest)
      else '(fingerprint, bytes) ← take_bytes (fpb ++ rest) 32; Ok (Some (hex_encode fingerprint), bytes))
      = (Ok (to_ascii_lowercase <$> fingerprint self, rest) : result RemoteError (option str * str)))).
  { destruct (connection self) as [host p0|k g p0].
    - destruct Hc as (fp & -> & Hfp & _). destruct (decode32 fp) as [v|] eqn:Ev; [|done].
      apply decode32_length in Ev as [Hl He]. exists v. split; [lia|]. split; [done|]. intros rest.
      destruct (flags =? 1)%Z eqn:E1; bool_split; [by apply Hkind in E1|]. rewrite take_bytes_app by done.
      cbn [mbind result_bind]. by rewrite He.
    - destruct Hc as (-> & _). exists []. split; [cbn; lia|]. split; [intros bytes; by rewrite app_nil_r|]. intros rest.
      by rewrite (proj2 (Z.eqb_eq _ _) (proj2 Hkind I)). }
  destruct Hfp as (fpb & Hfl & Hfe & Hfd).
  exists ([flag_byte flags port] ++ portb ++ fpb ++ pw ++ endpoint). split; [|split].
  - unfold compact_encode. rewrite Epw. cbn [mbind result_bind]. rewrite Hce. cbn [mbind result_bind]. cbv zeta.
    change (byte_at (Z.lor (Z.lor 16 flags) (if (port =? DEFAULT_PORT)%Z then 0%Z else 4%Z))) with (flag_byte flags port).
    rewrite Hfe. cbn [mbind result_bind]. do 3 f_equal. unfold portb. destruct (negb _); by rewrite <- ?app_assoc.
  - rewrite !length_app. assert (length portb <= 2)%nat by (unfold portb; destruct (negb _); cbn; lia). cbn [length]. lia.
  - unfold compact_decode. rewrite b32_round. cbn [ok_or mbind result_bind]. rewrite take_bytes_app by done.
    cbn [mbind result_bind]. cbv zeta. rewrite Hf8, Hf4, Hf3. cbn [Z.eqb Pos.eqb negb err_if mbind result_bind].
    assert (Hpd : forall rest, (if (port =? DEFAULT_PORT)%Z then Ok (DEFAULT_PORT, portb ++ rest)
      else '(port, bytes) ← take_bytes (portb ++ rest) 2;
           Ok (match port with [a; b] => code a * 256 + code b | _ => 0 end, bytes)%Z)
      = (Ok (port, rest) : result RemoteError (Z * str))).
    { intros rest. unfold portb. destruct (port =? DEFAULT_PORT)%Z eqn:Ed; cbn [negb]; [bool_split; by rewrite Ed|].
      rewrite take_bytes_app by done. cbn [mbind result_bind be_bytes]. by rewrite be_bytes_value. }
    rewrite Hpd. cbn [mbind result_bind]. rewrite Hfd. cbn [mbind result_bind]. rewrite take_bytes_app by done.
    cbn [mbind result_bind]. rewrite Hcc. cbn [mbind result_bind nonempty err_if]. rewrite Hpc. unfold normalize. by rewrite Hver.
Qed.
(** The text of a valid invitation is read back. *)
Lemma decode_encoded self : well_typed self -> validate self = Ok tt ->
  exists uri, encode self = Ok uri /\ decode uri = Ok (normalize self).
Proof.
  intros Ht Hv. destruct (compact_round self Ht Hv) as (data & He & Hl & Hd).
  exists (INVITATION_PREFIX ++ b32_encode data). unfold encode. rewrite Hv. split; [exact He|]. unfold decode.
  pose proof (b32_length data) as Hb. rewrite (proj2 (Z.ltb_ge _ _)).
  2: { rewrite length_app. change (length INVITATION_PREFIX) with 21%nat. lia. }
  cbn [err_if mbind result_bind].
  assert (split_once_str "/c#" (INVITATION_PREFIX ++ b32_encode data) = Some (INVITATION_ORIGIN, b32_encode data)) as -> by reflexivity.
  cbn [mbind option_bind]. change (eq_ignore_ascii_case INVITATION_ORIGIN INVITATION_ORIGIN) with true.
  cbn [ok_or mbind result_bind]. rewrite Hd. cbn [mbind result_bind]. by rewrite validate_normalize.
Qed.
End roundtrip.

(** C14: every valid invitation has a text, and a device that reads the text gets the
    same invitation: port, password, keys and host, with keys in lower case and an IP
    address in its canonical form; so a canonical invitation comes back unchanged. *)
Theorem invitation_roundtrip `{EncodingLaws} self :
  well_typed self -> validate self = Ok tt ->
  exists uri, encode self = Ok uri /\ decode uri = Ok (normalize self).
Proof. apply decode_encoded. Qed.

Definition sample_invitation : Invitation :=
  mkInvitation 1 (Direct "2001:DB8:0::1" 443) (plain_hex_encode (take 16 ("sixteen byte key!" : str)))
    (Some (plain_hex_encode (take 32 ("a fingerprint of thirty-two bytes" : str)))).
Lemma invitation_roundtrip_witness : exists uri,
  encode sample_invitation = Ok uri /\ decode uri = Ok (normalize sample_invitation) /\
  connection (normalize sample_invitation) = Direct "2001:db8::1" 443.
Proof.
  destruct (@invitation_roundtrip plain_encodings plain_encodings_laws sample_invitation) as (uri & He & Hd).
  - vm_compute. repeat split; discriminate.
  - vm_compute. reflexivity.
  - exists uri. split; [exact He|]. split; [exact Hd|]. vm_compute. reflexivity.
Defined.
End Invitation.
