(* ===== verification/Store.v ===== *)
(** * The store of a remote host and of its clients ([codex-start-remote/src/store.rs])

    The tables of the SQLite database as lists and maps, each statement as the
    change it makes to them, and each operation as the code composes them.  A row
    that breaks a key is refused as SQLite refuses it.  The clock, UUIDs and random
    secrets are arguments; the texts of JSON values and events, [json_extract],
    hashes and signatures are interfaces.  Failures of the disk are left out. *)

From S2P Require Export StateErr Json Invitation.

(** [codex-start-remote/src/protocol.rs] *)
Module Protocol.
Import Json.

Definition MAX_MESSAGE_BYTES : Z := 8 * 1024 * 1024.

Record Registration := mkRegistration {
  reg_name : str;
  reg_public_key : str;
  reg_connection_password : option str }.

Record RegistrationResult := mkRegistrationResult {
  result_device_id : str;
  result_code : option str;
  result_token : option str;
  result_expires_at : option Z;
  result_event_cursor : Z }.

Record Authentication := mkAuthentication {
  auth_device_id : str;
  auth_token : str;
  auth_signature : str }.

Record Event := mkEvent {
  sequence : Z;
  session_id : str;
  message : Value;
  created_at : Z }.
End Protocol.

(** The serialisation that [serde] derives for [Event]. *)
Class EventJson := {
  event_to_json : Protocol.Event -> str;
  event_from_json : str -> result str Protocol.Event }.

(** SQLite's [json_extract]; [None] is NULL, which equals nothing. *)
Class SqliteJson := {
  sql_value : Type;
  sql_text : str -> sql_value;
  sql_equal : sql_value -> sql_value -> bool;
  json_extract : str -> str -> option sql_value }.

(** [str::to_uppercase]. *)
Class Uppercase := to_uppercase : str -> str.

Module Store.
Import Crypto Protocol.

(** ** Tables *)

Record DeviceRow := mkDeviceRow {
  device_id : str;
  device_name : str;
  device_key : str;
  token_hash : str;
  device_created : Z;
  revoked : bool }.

Record PairingRow := mkPairingRow {
  pairing_id : str;
  pairing_code : str;
  pairing_name : str;
  pairing_key : str;
  expires_at : Z;
  approved : bool }.

Record EventRow := mkEventRow {
  row_sequence : Z;
  row_session : str;
  row_message : str;
  row_created : Z;
  row_dedup : option str }.

(** [last_rowid] is what AUTOINCREMENT remembers. *)
Record Store := mkStore {
  metadata : gmap str str;
  devices : list DeviceRow;
  pairing : list PairingRow;
  events : list EventRow;
  last_rowid : Z;
  event_keys : gset str;
  journal_bytes : Z;
  alerts : list (Z * str);
  requests : gmap (str * str) (str * option str) }.

Definition set_metadata (f : gmap str str -> gmap str str) (s : Store) : Store :=
  mkStore (f (metadata s)) (devices s) (pairing s) (events s) (last_rowid s) (event_keys s) (journal_bytes s) (alerts s) (requests s).
Definition set_devices (f : list DeviceRow -> list DeviceRow) (s : Store) : Store :=
  mkStore (metadata s) (f (devices s)) (pairing s) (events s) (last_rowid s) (event_keys s) (journal_bytes s) (alerts s) (requests s).
Definition set_pairing (f : list PairingRow -> list PairingRow) (s : Store) : Store :=
  mkStore (metadata s) (devices s) (f (pairing s)) (events s) (last_rowid s) (event_keys s) (journal_bytes s) (alerts s) (requests s).
Definition set_event_keys (f : gset str -> gset str) (s : Store) : Store :=
  mkStore (metadata s) (devices s) (pairing s) (events s) (last_rowid s) (f (event_keys s)) (journal_bytes s) (alerts s) (requests s).
Definition set_journal (events : list EventRow) (last_rowid journal_bytes : Z) (s : Store) : Store :=
  mkStore (metadata s) (devices s) (pairing s) events last_rowid (event_keys s) journal_bytes (alerts s) (requests s).
Definition set_alerts (f : list (Z * str) -> list (Z * str)) (s : Store) : Store :=
  mkStore (metadata s) (devices s) (pairing s) (events s) (last_rowid s) (event_keys s) (journal_bytes s) (f (alerts s)) (requests s).
Definition set_requests (f : gmap (str * str) (str * option str) -> gmap (str * str) (str * option str)) (s : Store) : Store :=
  mkStore (metadata s) (devices s) (pairing s) (events s) (last_rowid s) (event_keys s) (journal_bytes s) (alerts s) (f (requests s)).

Notation M := (ST Store RemoteError) (only parsing).

(** [ORDER BY created_at] *)
Definition created_before (a b : DeviceRow) : Prop := (device_created a <= device_created b)%Z.
#[export] Instance created_before_dec : RelDecision created_before.
Proof. intros a b. unfold created_before. apply _. Defined.

(** An unsigned integer bound to, or read from, a column of 64 signed bits. *)
Definition bind_u64 (n : Z) : M unit := throw_if (I64_MAX <? n)%Z (Storage "out of range integral type conversion attempted").
Definition read_u64 (n : Z) : M Z := throw_if (n <? 0)%Z (Storage "integer out of range") ;; mret n.

(** [CAST(value AS INTEGER)]: the longest prefix that is a number, within 64 bits. *)
Definition sql_space (c : ascii) : bool := is_byte " " c || in_range 9 13 c.
Fixpoint span (p : ascii -> bool) (s : str) : str * str :=
  match s with
  | c :: s' => if p c then let '(a, b) := span p s' in (c :: a, b) else ([], s)
  | [] => ([], [])
  end.
Definition cast_integer (value : str) : Z :=
  let value := snd (span sql_space value) in
  let '(negative, digits) :=
    match strip_prefix "-" value with
    | Some rest => (true, fst (span is_digit rest))
    | None => (false, fst (span is_digit (default value (strip_prefix "+" value))))
    end in
  if negative then Z.max I64_MIN (- dec_value digits) else Z.min I64_MAX (dec_value digits).

(** The bytes of the messages in a journal. *)
Definition row_bytes (row : EventRow) : Z := Z.of_nat (length (row_message row)).
Definition message_bytes (rows : list EventRow) : Z := foldr (fun row n => row_bytes row + n)%Z 0%Z rows.

Definition empty_store : Store := mkStore ∅ [] [] [] 0 ∅ 0 [] ∅.

Definition JOURNAL_COUNTER : str := "journal_byte_counter_v1".
(** [Store::open] on the tables of a database. *)
Definition open_store (db : Store) : Store :=
  if bool_decide (is_Some (metadata db !! JOURNAL_COUNTER)) then db
  else set_metadata <[JOURNAL_COUNTER := "1" : str]> (set_journal (events db) (last_rowid db) (message_bytes (events db)) db).

(** ** Secrets *)

Section store.
Context {E : Encodings} {HS : Sha256} {K : Ed25519} {SJ : SerdeJson} {EJ : EventJson} {SQ : SqliteJson} {U : Uppercase}.

(** [constant_equal] *)
Definition constant_equal (a b : str) : bool :=
  if negb (length a =? length b)%nat then false
  else (foldl (fun result '(a, b) => Z.lor result (Z.lxor (code a) (code b))) 0 (zip a b) =? 0)%Z.

Definition value (key : str) : M (option str) := gets (fun s => metadata s !! key).
Definition set_value (key value : str) : M unit := modify (set_metadata <[key := value]>).

Definition secret (key random_password random_secret : str) : M str :=
  if bool_decide (key = "connection_password") || bool_decide (key = "group_password") then
    current ← value key;
    match current with
    | Some v =>
        if is_ok (decode_password v) then mret v
        else transaction (set_value key random_password ;; modify (set_pairing (fun _ => [])) ;; mret random_password)
    | None => transaction (set_value key random_password ;; mret random_password)
    end
  else
    modify (set_metadata (fun m => match m !! key with Some _ => m | None => <[key := random_secret]> m end)) ;;
    gets (fun s => default [] (metadata s !! key)).

Definition rotate_password (random_password : str) : M unit :=
  transaction (set_value "connection_password" random_password ;; modify (set_pairing (fun _ => []))).

(** ** Devices *)

(** The first and the last sequence of the journal. *)
Definition bounds : M (Z * Z) := gets (fun s =>
  (default 0%Z (row_sequence <$> head (events s)), default 0%Z (row_sequence <$> last (events s)))).

(** [INSERT INTO devices], with its primary key. *)
Definition insert_device (id name key token : str) (now : Z) : M unit :=
  bind_u64 now ;;
  taken ← gets (fun s => existsb (fun d => bool_decide (device_id d = id)) (devices s));
  throw_if taken (Storage "UNIQUE constraint failed: devices.id") ;;
  modify (set_devices (fun l => l ++ [mkDeviceRow id name key (digest token) now false])).

Definition issue_device (name key : str) (uuid random_secret : str) (now : Z) : M RegistrationResult :=
  insert_device uuid name key random_secret now ;;
  '(_, latest) ← bounds;
  mret (mkRegistrationResult uuid None (Some random_secret) None latest).

(** [uuid], [random_password], [random_secret], [now] and [later] are what the
    generators and the clock give, in the order of the calls. *)
Definition register (request : Registration) (fingerprint nonce : str)
    (uuid random_password random_secret : str) (now later : Z) : M RegistrationResult :=
  lift (decode32 (reg_public_key request)) ;;
  throw_if (is_blank (reg_name request) || (128 <? length (reg_name request))%nat)
    (Invalid "device name must contain 1–128 bytes") ;;
  match reg_connection_password request with
  | Some password =>
      expected ← secret "connection_password" random_password [];
      throw_if (negb (constant_equal password expected)) Unauthorized ;;
      issue_device (reg_name request) (reg_public_key request) uuid random_secret now
  | None =>
      let code := approval_code (reg_public_key request) fingerprint nonce in
      let expires := (now + 600)%Z in
      bind_u64 later ;;
      modify (set_pairing (filter (fun p => later < expires_at p)%Z)) ;;
      count ← gets (fun s => length (pairing s));
      throw_if (64 <=? count)%nat (Invalid "too many pending registrations") ;;
      bind_u64 expires ;;
      taken ← gets (fun s => existsb (fun p => bool_decide (pairing_id p = uuid) || bool_decide (pairing_code p = code)) (pairing s));
      throw_if taken (Storage "UNIQUE constraint failed: pairing") ;;
      modify (set_pairing (fun l => l ++ [mkPairingRow uuid code (reg_name request) (reg_public_key request) expires false])) ;;
      '(_, latest) ← bounds;
      mret (mkRegistrationResult uuid (Some code) None (Some expires) latest)
  end.

Definition matches_code (code : str) (now : Z) (p : PairingRow) : bool :=
  bool_decide (pairing_code p = code) && (now <? expires_at p)%Z.
Definition approve_row (p : PairingRow) : PairingRow :=
  mkPairingRow (pairing_id p) (pairing_code p) (pairing_name p) (pairing_key p) (expires_at p) true.
Definition approve (code : str) (now : Z) : M unit :=
  bind_u64 now ;;
  let code := to_uppercase code in
  changed ← gets (fun s => length (filter (fun p => matches_code code now p = true) (pairing s)));
  modify (set_pairing (map (fun p => if matches_code code now p then approve_row p else p))) ;;
  throw_if (negb (changed =? 1)%nat) (Invalid "pairing code is unknown or expired").

Definition claim (id nonce fingerprint signature : str) (now : Z) (random_secret : str) (later : Z) : M (option RegistrationResult) :=
  bind_u64 now ;;
  row ← gets (fun s => List.find (fun p => bool_decide (pairing_id p = id) && (now <? expires_at p)%Z) (pairing s));
  row ← lift (ok_or row Unauthorized);
  lift (verify (pairing_key row) signature nonce fingerprint) ;;
  if negb (approved row) then mret None
  else
    transaction (
      insert_device id (pairing_name row) (pairing_key row) random_secret later ;;
      modify (set_pairing (filter (fun p => pairing_id p <> id)))) ;;
    '(_, latest) ← bounds;
    mret (Some (mkRegistrationResult id None (Some random_secret) None latest)).

Definition find_active (id : str) (l : list DeviceRow) : option DeviceRow :=
  List.find (fun d => bool_decide (device_id d = id) && negb (revoked d)) l.
Definition authenticate (auth : Authentication) (nonce fingerprint : str) : M unit :=
  row ← gets (fun s => find_active (auth_device_id auth) (devices s));
  row ← lift (ok_or row Unauthorized);
  throw_if (negb (constant_equal (token_hash row) (digest (auth_token auth)))) Unauthorized ;;
  lift (verify (device_key row) (auth_signature auth) nonce fingerprint).

(** [Store::devices], ordered by their creation. *)
Definition list_devices : M (list DeviceRow) := gets (fun s => merge_sort created_before (devices s)).

Definition revoke_row (id : str) (d : DeviceRow) : DeviceRow :=
  if bool_decide (device_id d = id)
  then mkDeviceRow (device_id d) (device_name d) (device_key d) (token_hash d) (device_created d) true else d.
Definition revoke (id : str) : M unit :=
  found ← gets (fun s => existsb (fun d => bool_decide (device_id d = id)) (devices s));
  modify (set_devices (map (revoke_row id))) ;;
  throw_if (negb found) (Invalid "unknown device").

Definition active (id : str) : M bool :=
  gets (fun s => default false ((fun d => negb (revoked d)) <$> List.find (fun d => bool_decide (device_id d = id)) (devices s))).

(** ** The journal of events *)

(** [DELETE FROM events WHERE ..], with the trigger that counts the bytes. *)
Definition delete_events (drop : EventRow -> bool) : M unit := modify (fun s =>
  let gone := filter (fun r => drop r = true) (events s) in
  set_journal (filter (fun r => drop r = false) (events s)) (last_rowid s) (journal_bytes s - message_bytes gone) s).

(** The loop deletes the first event while the counter is over its limit; it ends
    when there is no event that it could delete only if the counter is within. *)
Fixpoint prune_loop (rows : list EventRow) (bytes maximum_bytes : Z) : option (list EventRow * Z) :=
  if (bytes <=? maximum_bytes)%Z then Some (rows, bytes)
  else match rows with
       | [] => None
       | row :: rows => prune_loop rows (bytes - row_bytes row) maximum_bytes
       end.
Definition prune_journal (maximum_bytes : Z) : M unit := fun s =>
  match prune_loop (events s) (journal_bytes s) maximum_bytes with
  | Some (rows, bytes) => Some (Ok tt, set_journal rows (last_rowid s) bytes s)
  | None => None
  end.

(** [INSERT INTO events]: the next row number, the unique key, the trigger. *)
Definition insert_event (session encoded : str) (created : Z) (dedup : option str) : M Z :=
  bind_u64 created ;;
  taken ← gets (fun s => bool_decide (is_Some dedup) && existsb (fun r => bool_decide (row_dedup r = dedup)) (events s));
  throw_if taken (Storage "UNIQUE constraint failed: events.dedup") ;;
  rowid ← gets (fun s => last_rowid s + 1)%Z;
  throw_if (I64_MAX <? rowid)%Z (Storage "database or disk is full") ;;
  modify (fun s => set_journal (events s ++ [mkEventRow rowid session encoded created dedup]) rowid
    (journal_bytes s + Z.of_nat (length encoded)) s) ;;
  mret rowid.

Definition dedup_key (session : str) (message : Json.Value) : option str :=
  if Json.is_str (Json.index message "method") "turn/completed" then
    id ← (v ← Json.pointer ["params" : str; "turn" : str; "id" : str] message; Json.as_str v);
    Some (session ++ ":" ++ id ++ ":completed")
  else if Json.is_str (Json.index message "method") "job/exited" then Some (session ++ ":job:exited")
  else None.

Definition JOURNAL_AGE : Z := 7 * 86400.
Definition JOURNAL_LENGTH : Z := 100000.
Definition JOURNAL_BYTES : Z := 104857600.
(** The retention by age and by number. *)
Definition retention (created sequence : Z) (r : EventRow) : bool :=
  (row_created r <? Z.max 0 (created - JOURNAL_AGE))%Z || (row_sequence r <=? Z.max 0 (sequence - JOURNAL_LENGTH))%Z.

Definition append (session : str) (message : Json.Value) (now : Z) : M (option Event) :=
  let encoded := to_json message in
  throw_if (MAX_MESSAGE_BYTES <? Z.of_nat (length encoded))%Z (Invalid "event is too large") ;;
  let dedup := dedup_key session message in
  seen ← gets (fun s => match dedup with Some key => bool_decide (key ∈ event_keys s) | None => false end);
  if seen : bool then mret None
  else
    transaction (
      match dedup with Some key => modify (set_event_keys (union {[key]})) | None => mret tt end ;;
      sequence ← insert_event session encoded now dedup;
      delete_events (retention now sequence) ;;
      prune_journal JOURNAL_BYTES ;;
      mret (Some (mkEvent sequence session message now))).

(** The page within a megabyte of messages; the first event is always in it. *)
Definition PAGE_BYTES : Z := 1024 * 1024.
Fixpoint page_loop (rows : list EventRow) (first : bool) (bytes : Z) : result RemoteError (list Event) :=
  match rows with
  | [] => Ok []
  | row :: rows =>
      if negb first && (PAGE_BYTES <? bytes + row_bytes row)%Z then Ok []
      else
        message ← map_err Json (from_json (row_message row));
        page ← page_loop rows false (bytes + row_bytes row);
        Ok (mkEvent (row_sequence row) (row_session row) message (row_created row) :: page)
  end.
Definition list_events (after : Z) (limit : nat) : M (list Event) :=
  bind_u64 after ;;
  rows ← gets (fun s => take (limit `min` 512) (filter (fun r => after < row_sequence r)%Z (events s)));
  lift (page_loop rows true 0).

(** ** Recorded requests *)

Definition begin_request (device id : str) (payload : Json.Value) : M (option Json.Value) :=
  let hash := digest (to_json payload) in
  row ← gets (fun s => requests s !! (device, id));
  match row with
  | Some (prior, outcome) =>
      throw_if (negb (bool_decide (prior = hash))) (Invalid "request ID reused with different content") ;;
      match outcome with
      | Some value => lift (Some <$> map_err Json (from_json value))
      | None => throw (Invalid "delivery unknown; inspect task state before retrying")
      end
  | None =>
      modify (set_requests <[(device, id) := (hash, None)]>) ;;
      mret None
  end.

Definition finish_request (device id : str) (result : Json.Value) : M unit :=
  modify (set_requests (alter (fun '(hash, _) => (hash, Some (to_json result))) (device, id))).

(** ** Alerts of a client *)

Fixpoint insert_alert (sequence : Z) (event : str) (l : list (Z * str)) : list (Z * str) :=
  match l with
  | [] => [(sequence, event)]
  | (n, e) :: l' =>
      if (sequence <? n)%Z then (sequence, event) :: l
      else if (sequence =? n)%Z then l
      else (n, e) :: insert_alert sequence event l'
  end.

Definition ALERTS : nat := Z.to_nat 2048.
Arguments ALERTS : simpl never.

(** [WHERE json_extract(event, ..) = ..]: whether an alert asks for this request. *)
Definition asks_for (session : str) (id : Json.Value) (event : str) : bool :=
  match json_extract event "$.sessionId" with
  | Some v => sql_equal v (sql_text session)
  | None => false
  end &&
  match json_extract event "$.message.id", json_extract (to_json id) "$" with
  | Some v, Some w => sql_equal v w
  | _, _ => false
  end.

(** An event a user is told about. *)
Definition is_alert (message : Json.Value) : bool :=
  existsb (fun m => bool_decide (default [] (Json.as_str (Json.index message "method")) = m))
    ["turn/completed" : str; "job/exited" : str; "serverRequest/resolved" : str] || bool_decide (is_Some (Json.get "id" message)).

Definition CURSOR : str := "remote_cursor".
Definition read_cursor : M Z :=
  cursor ← gets (fun s => default 0%Z (cast_integer <$> metadata s !! CURSOR));
  read_u64 cursor.

Definition receive_event (event : Event) : M bool :=
  transaction (
    cursor ← read_cursor;
    if (sequence event <=? cursor)%Z then mret false
    else
      let method := default [] (Json.as_str (Json.index (message event) "method")) in
      (if is_alert (message event) then
         bind_u64 (sequence event) ;;
         modify (set_alerts (insert_alert (sequence event) (event_to_json event)))
       else mret tt) ;;
      (if bool_decide (method = "serverRequest/resolved") then
         let id := Json.index (Json.index (message event) "params") "requestId" in
         modify (set_alerts (filter (fun a => asks_for (session_id event) id a.2 = false)))
       else mret tt) ;;
      modify (set_alerts (fun l => drop (length l - ALERTS) l)) ;;
      set_value CURSOR (dec (sequence event)) ;;
      mret true).

Definition list_alerts : M (list Event) :=
  rows ← gets (fun s => take 64 (alerts s));
  lift (collect_results (fun a => map_err Json (event_from_json a.2)) rows).

Definition acknowledge_alert (sequence : Z) : M unit :=
  bind_u64 sequence ;; modify (set_alerts (filter (fun a => a.1 <> sequence))).
End store.
End Store.
