(* ===== verification/Concrete.v ===== *)
(** * Concrete interfaces for the witnesses of the remote part

    Simple functions that satisfy what the interfaces promise: a hash, signatures that
    contain their key and message, and JSON texts that encode a value in binary. *)

From S2P Require Export Store.
From stdpp Require Import countable.

Module Concrete.
Import Json Crypto Protocol Store.

#[export] Instance plain_sha : Sha256 := fun s => take 32 (s ++ replicate 32 "0"%char).

#[export] Instance plain_ed25519 : Ed25519 := {|
  verifying_key := fun s => s;
  key_from_bytes := fun b => if (length b =? 32)%nat then Some b else None;
  signature_from_slice := Some;
  ed_sign := fun s m => s ++ m;
  ed_verify := fun k m signature => bool_decide (signature = k ++ m) |}.
Lemma plain_ed25519_laws : Ed25519Laws plain_ed25519.
Proof.
  constructor; cbn; try done.
  - intros s Hs. by rewrite Hs.
  - intros s m Hs. by apply bool_decide_eq_true_2.
Qed.

(** ** JSON texts *)

Section Value_induction.
Variable P : Value -> Prop.
Hypothesis HNull : P Null.
Hypothesis HBool : forall b, P (Bool b).
Hypothesis HPosInt : forall n, P (PosInt n).
Hypothesis HNegInt : forall n, P (NegInt n).
Hypothesis HFloat : forall n, P (Float n).
Hypothesis HString : forall s, P (String s).
Hypothesis HArray : forall vs, Forall P vs -> P (Array vs).
Hypothesis HObject : forall es : list (str * Value), Forall (fun kv => P kv.2) es -> P (Object es).
Fixpoint Value_nested_ind (v : Value) : P v :=
  match v with
  | Null => HNull
  | Bool b => HBool b
  | PosInt n => HPosInt n
  | NegInt n => HNegInt n
  | Float n => HFloat n
  | String s => HString s
  | Array vs => HArray vs ((fix go vs : Forall P vs :=
      match vs with [] => Forall_nil_2 _ | v :: vs' => Forall_cons_2 _ _ _ (Value_nested_ind v) (go vs') end) vs)
  | Object es => HObject es ((fix go (es : list (str * Value)) : Forall (fun kv => P kv.2) es :=
      match es with
      | [] => Forall_nil_2 _
      | kv :: es' => Forall_cons_2 (fun kv => P kv.2) _ _ (Value_nested_ind kv.2) (go es')
      end) es)
  end.
End Value_induction.

Notation tree := (gen_tree (str + Z)).
Fixpoint to_tree (v : Value) : tree :=
  match v with
  | Null => GenNode 0 []
  | Bool b => GenNode 1 [GenLeaf (inr (if b then 1 else 0)%Z)]
  | PosInt n => GenNode 2 [GenLeaf (inr n)]
  | NegInt n => GenNode 3 [GenLeaf (inr n)]
  | Float n => GenNode 4 [GenLeaf (inr n)]
  | String s => GenNode 5 [GenLeaf (inl s)]
  | Array vs => GenNode 6 (map to_tree vs)
  | Object es => GenNode 7 (map (fun kv => GenNode 8 [GenLeaf (inl kv.1); to_tree kv.2]) es)
  end.
Fixpoint of_tree (t : tree) : Value :=
  match t with
  | GenNode 1 [GenLeaf (inr n)] => Bool (n =? 1)%Z
  | GenNode 2 [GenLeaf (inr n)] => PosInt n
  | GenNode 3 [GenLeaf (inr n)] => NegInt n
  | GenNode 4 [GenLeaf (inr n)] => Float n
  | GenNode 5 [GenLeaf (inl s)] => String s
  | GenNode 6 ts => Array (map of_tree ts)
  | GenNode 7 ts => Object (map (fun t => match t with GenNode _ [GenLeaf (inl k); t] => (k, of_tree t) | _ => ([], Null) end) ts)
  | _ => Null
  end.
Lemma of_to_tree v : of_tree (to_tree v) = v.
Proof.
  induction v as [|b|n|n|n|s|vs IH|es IH] using Value_nested_ind; cbn [to_tree of_tree]; try done; [by destruct b|..]; f_equal; rewrite map_map.
  - induction IH as [|v vs Hv _ IH]; [done|]. cbn. by rewrite Hv, IH.
  - induction IH as [|[k v] es Hv _ IH]; [done|]. cbn in *. by rewrite Hv, IH.
Qed.

(** The bits of a number as text. *)
Fixpoint bits (p : positive) : str :=
  match p with xH => [] | xO p => "0"%char :: bits p | xI p => "1"%char :: bits p end.
Fixpoint of_bits (s : str) : positive :=
  match s with [] => xH | c :: s => if bool_decide (c = "1"%char) then xI (of_bits s) else xO (of_bits s) end.
Lemma of_bits_bits p : of_bits (bits p) = p.
Proof. induction p as [p IH|p IH|]; cbn; [by rewrite IH..|done]. Qed.

#[export] Instance plain_json : SerdeJson := {|
  to_json := fun v => bits (encode (to_tree v));
  from_json := fun s => match decode (of_bits s) with Some t => Ok (of_tree t) | None => Err ("expected value" : str) end |}.
Lemma plain_json_laws : SerdeJsonLaws plain_json.
Proof. intros v _. cbn. by rewrite of_bits_bits, decode_encode, of_to_tree. Qed.

#[export] Instance plain_event_json : EventJson := {|
  event_to_json := fun e => to_json (Object [("message" : str, message e); ("sequence" : str, PosInt (sequence e))]);
  event_from_json := fun s =>
    v ← from_json s;
    match index v "sequence" with
    | PosInt n => Ok (mkEvent n [] (index v "message") 0)
    | _ => Err ("missing field" : str)
    end |}.

#[export] Instance plain_sqlite : SqliteJson := {|
  sql_value := str; sql_text := fun s => s; sql_equal := fun a b => bool_decide (a = b); json_extract := fun _ _ => None |}.
#[export] Instance plain_uppercase : Uppercase := to_ascii_uppercase.
#[export] Existing Instance plain_encodings.

(** ** A device and a host *)

Definition sample_secret : str := plain_hex_encode (replicate 32 "k"%char).
Definition sample_key : str := plain_hex_encode (replicate 32 "k"%char).
Definition sample_password : str := plain_hex_encode (replicate 16 "p"%char).
Definition other_password : str := plain_hex_encode (replicate 16 "q"%char).
Definition sample_registration (password : option str) : Registration := mkRegistration "phone" sample_key password.
Definition sample_message : Value := Object [("method" : str, String "turn/started")].
Definition sample_authentication (nonce fingerprint : str) : Authentication :=
  mkAuthentication "device-1" "token" (hex_encode (ed_sign (replicate 32 "k"%char) (proof_message nonce fingerprint))).
End Concrete.
