(* ===== verification/StoreJournal.v ===== *)
(** * The journal of the store

    What appending keeps and drops, and what a device that reads the journal page
    by page gets. *)

From S2P Require Export Store Concrete.

Module StoreJournal.
Import Crypto Protocol Store.

(** ** The journal *)

Lemma message_bytes_cons r rows : message_bytes (r :: rows) = (row_bytes r + message_bytes rows)%Z.
Proof. done. Qed.
Lemma message_bytes_app a b : message_bytes (a ++ b) = (message_bytes a + message_bytes b)%Z.
Proof. induction a as [|r a IH]; [done|]. cbn [app]. rewrite !message_bytes_cons, IH. lia. Qed.
Lemma row_bytes_nonneg r : (0 <= row_bytes r)%Z.
Proof. unfold row_bytes. lia. Qed.
Lemma message_bytes_nonneg rows : (0 <= message_bytes rows)%Z.
Proof. induction rows as [|r rows IH]; [done|]. rewrite message_bytes_cons. pose proof (row_bytes_nonneg r). lia. Qed.
Lemma message_bytes_filter (p : EventRow -> bool) rows :
  (message_bytes rows - message_bytes (filter (fun r => p r = true) rows))%Z = message_bytes (filter (fun r => p r = false) rows).
Proof.
  induction rows as [|r rows IH]; [done|]. rewrite !filter_cons, message_bytes_cons.
  destruct (p r); repeat case_decide; try done; rewrite message_bytes_cons; lia.
Qed.

(** Pruning drops the fewest oldest rows that bring the journal within its limit. *)
Definition pruned (maximum : Z) (rows rows' : list EventRow) : Prop :=
  exists k, rows' = drop k rows /\ (message_bytes rows' <= maximum)%Z /\
    forall j, (j < k)%nat -> (maximum < message_bytes (drop j rows))%Z.

Lemma prune_loop_spec maximum rows : (0 <= maximum)%Z ->
  exists rows', prune_loop rows (message_bytes rows) maximum = Some (rows', message_bytes rows') /\ pruned maximum rows rows'.
Proof.
  intros Hm. induction rows as [|r rows IH]; cbn [prune_loop].
  - rewrite (proj2 (Z.leb_le _ _)) by done. exists []. split; [done|]. exists 0%nat. split; [done|]. split; [done|lia].
  - destruct (message_bytes (r :: rows) <=? maximum)%Z eqn:E; bool_split.
    + exists (r :: rows). split; [done|]. exists 0%nat. split; [done|]. split; [done|lia].
    + rewrite message_bytes_cons in *.
      replace (row_bytes r + message_bytes rows - row_bytes r)%Z with (message_bytes rows) by lia.
      destruct IH as (rows' & -> & k & -> & Hle & Hmin). eexists. split; [reflexivity|]. exists (S k). split; [done|]. split; [done|].
      intros [|j] Hj; [exact E|]. apply Hmin. lia.
Qed.

(** Strictly increasing numbers of an interval are no more than its length. *)
Lemma sorted_length a b l : StronglySorted Z.lt l -> Forall (fun n => a < n <= b)%Z l -> (a <= b)%Z ->
  (Z.of_nat (length l) <= b - a)%Z.
Proof.
  revert a. induction l as [|n l IH]; intros a Hs Hf Hab; [cbn; lia|].
  apply StronglySorted_inv in Hs as [Hs Hn]. apply Forall_cons in Hf as [Hn0 Hf]. specialize (IH n Hs).
  rewrite !Forall_forall in *. cbn [length]. assert (Z.of_nat (length l) <= b - n)%Z; [|lia].
  apply IH; [|lia]. intros m Hm. specialize (Hn m Hm). specialize (Hf m Hm). lia.
Qed.

Lemma sorted_sublist {A} (R : A -> A -> Prop) l l' : l `sublist_of` l' -> StronglySorted R l' -> StronglySorted R l.
Proof.
  induction 1 as [|x l l' Hsub IH|x l l' Hsub IH]; intros Hs; [done|..]; apply StronglySorted_inv in Hs as [Hs Hx]; [|by auto].
  constructor; [by auto|]. rewrite Forall_forall in *. intros y Hy. apply Hx. by eapply elem_of_sublist.
Qed.
Lemma sublist_map {A B} (f : A -> B) l l' : l `sublist_of` l' -> map f l `sublist_of` map f l'.
Proof. induction 1; cbn; by constructor. Qed.
Lemma sorted_snoc {A} (R : A -> A -> Prop) l x : StronglySorted R l -> Forall (fun y => R y x) l -> StronglySorted R (l ++ [x]).
Proof.
  intros Hs. induction Hs as [|y l Hs IH Hy]; intros Hf; cbn [app]; [by repeat constructor|].
  apply Forall_cons in Hf as [Hyx Hf]. constructor; [by auto|]. apply Forall_app; by repeat constructor.
Qed.

Record journal_ok (s : Store) : Prop := {
  journal_sorted : StronglySorted Z.lt (map row_sequence (events s));
  journal_range : Forall (fun r => 0 < row_sequence r <= last_rowid s)%Z (events s);
  journal_rowid : (0 <= last_rowid s <= I64_MAX)%Z;
  journal_counter : journal_bytes s = message_bytes (events s);
  journal_keys : Forall (fun r => forall key, row_dedup r = Some key -> key ∈ event_keys s) (events s);
  journal_distinct : NoDup (omap row_dedup (events s));
  journal_length : (Z.of_nat (length (events s)) <= JOURNAL_LENGTH)%Z;
  journal_size : (message_bytes (events s) <= JOURNAL_BYTES)%Z }.

(** A new row in the journal: the retention by age and number, then by size. *)
Definition add_key (dedup : option str) (keys : gset str) : gset str :=
  match dedup with Some key => {[key]} ∪ keys | None => keys end.
Definition appended (row : EventRow) (s s' : Store) : Prop := exists rows,
  pruned JOURNAL_BYTES (filter (fun r => retention (row_created row) (row_sequence row) r = false) (events s ++ [row])) rows /\
  s' = set_journal rows (row_sequence row) (message_bytes rows) (set_event_keys (add_key (row_dedup row)) s).

(** The new row is always kept. *)
Lemma pruned_keeps_last maximum rows row rows' : (row_bytes row <= maximum)%Z -> pruned maximum (rows ++ [row]) rows' ->
  exists k, (k <= length rows)%nat /\ rows' = drop k rows ++ [row].
Proof.
  intros Hrow (k & -> & Hle & Hmin). destruct (decide (k <= length rows)%nat) as [Hk|Hk].
  - exists k. split; [done|]. by apply drop_app_le.
  - exfalso. specialize (Hmin (length rows) ltac:(lia)). rewrite drop_app_length in Hmin. cbn in Hmin. lia.
Qed.

Lemma retention_new row : (0 <= row_created row)%Z -> (0 < row_sequence row)%Z ->
  retention (row_created row) (row_sequence row) row = false.
Proof. intros. unfold retention, JOURNAL_AGE, JOURNAL_LENGTH. rewrite orb_false_iff, Z.ltb_ge, Z.leb_gt. lia. Qed.

Lemma appended_rows row s s' : journal_ok s -> appended row s s' ->
  (0 <= row_created row)%Z -> row_sequence row = (last_rowid s + 1)%Z -> (row_bytes row <= JOURNAL_BYTES)%Z ->
  exists old, old `sublist_of` events s /\ events s' = old ++ [row] /\
    Forall (fun r => last_rowid s + 1 - JOURNAL_LENGTH < row_sequence r)%Z old /\ (message_bytes (events s') <= JOURNAL_BYTES)%Z.
Proof.
  intros Hok (rows & Hp & ->) Hc Hseq Hb. pose proof (journal_rowid _ Hok) as Hid. cbn [events set_journal].
  rewrite filter_app in Hp. unfold filter at 2 in Hp. cbn [list_filter] in Hp.
  rewrite decide_True in Hp by (apply retention_new; lia).
  pose proof Hp as (k0 & _ & Hle & _). apply pruned_keeps_last in Hp as (k & _ & ->); [|done]. eexists. split; [|split; [reflexivity|split; [|done]]].
  - etrans; [apply sublist_drop|apply sublist_filter].
  - apply Forall_drop, Forall_forall. intros r [Hr _]%list_elem_of_filter. unfold retention in Hr. bool_split.
    unfold JOURNAL_LENGTH in *. lia.
Qed.

Lemma appended_ok row s s' : journal_ok s -> appended row s s' ->
  (0 <= row_created row)%Z -> row_sequence row = (last_rowid s + 1)%Z -> (last_rowid s < I64_MAX)%Z ->
  (row_bytes row <= JOURNAL_BYTES)%Z -> (forall key, row_dedup row = Some key -> key ∉ event_keys s) -> journal_ok s'.
Proof.
  intros Hok Happ Hc Hseq Hmax Hb Hnew. destruct (appended_rows _ _ _ Hok Happ Hc Hseq Hb) as (old & Hsub & Hev & Hlow & Hsize).
  destruct Happ as (rows & Hp & ->). cbn [events set_journal] in Hev, Hsize. subst rows. destruct Hok as [Hs Hr Hid Hcnt Hk Hd _ _].
  assert (Hold : Forall (fun r => 0 < row_sequence r <= last_rowid s)%Z old)
    by (rewrite Forall_forall in *; intros r Hin; apply Hr; by eapply elem_of_sublist).
  assert (Hsorted : StronglySorted Z.lt (map row_sequence (old ++ [row]))).
  { rewrite map_app. apply sorted_snoc; [by eapply sorted_sublist; [by apply sublist_map|]|].
    apply Forall_map. eapply Forall_impl; [exact Hold|]. cbn. lia. }
  constructor; cbn [events last_rowid event_keys journal_bytes set_journal set_event_keys]; try done.
  - apply Forall_app. split; [eapply Forall_impl; [exact Hold|]; cbn; lia|]. repeat constructor; lia.
  - lia.
  - apply Forall_app. unfold add_key. split.
    + rewrite Forall_forall in *. intros r Hin key Hkey. assert (key ∈ event_keys s) by (eapply Hk; [by eapply elem_of_sublist|done]).
      destruct (row_dedup row); set_solver.
    + repeat constructor. intros key ->. set_solver.
  - assert (Hoo : forall key, key ∈ omap row_dedup old -> key ∈ event_keys s).
    { intros key (r & Hin & Hkey)%list_elem_of_omap. rewrite Forall_forall in Hk. eapply Hk; [by eapply elem_of_sublist|done]. }
    assert (Hnd : NoDup (omap row_dedup old)).
    { clear - Hsub Hd. induction Hsub as [|x l l' Hsub IH|x l l' Hsub IH]; [done|..]; cbn in Hd |- *;
        destruct (row_dedup x) as [kx|] eqn:Ex; try (apply NoDup_cons in Hd as [Hx Hd]); auto.
      apply NoDup_cons. split; [|by auto]. intros (r & Hin & Hkey)%list_elem_of_omap. apply Hx, list_elem_of_omap.
      exists r. split; [by eapply elem_of_sublist|done]. }
    rewrite omap_app. cbn. destruct (row_dedup row) as [key|] eqn:Ek; cbn; [|by rewrite app_nil_r].
    apply NoDup_app. split; [done|]. split; [|apply NoDup_singleton]. intros k Hk1 ->%list_elem_of_singleton.
    by apply (Hnew key), Hoo.
  - rewrite <- (length_map row_sequence (old ++ [row])). etrans; [apply (sorted_length (last_rowid s + 1 - JOURNAL_LENGTH) (last_rowid s + 1))|].
    + done.
    + apply Forall_map, Forall_app. unfold JOURNAL_LENGTH in *. split.
      * rewrite Forall_forall in *. intros r Hin. specialize (Hlow r Hin). specialize (Hold r Hin). cbn. lia.
      * repeat constructor; cbn; lia.
    + unfold JOURNAL_LENGTH. lia.
    + lia.
Qed.

Section store.
Context {E : Encodings} {HS : Sha256} {K : Ed25519} {SJ : SerdeJson} {EJ : EventJson} {SQ : SqliteJson} {U : Uppercase}.

Definition key_seen (dedup : option str) (s : Store) : bool :=
  match dedup with Some key => bool_decide (key ∈ event_keys s) | None => false end.

Lemma delete_events_spec drop s : journal_bytes s = message_bytes (events s) ->
  delete_events drop s = Some (Ok tt, let rows := filter (fun r => drop r = false) (events s) in
    set_journal rows (last_rowid s) (message_bytes rows) s).
Proof. intros H. unfold delete_events, modify. by rewrite H, message_bytes_filter. Qed.

Lemma insert_event_spec session encoded now dedup s : journal_ok s -> (now <= I64_MAX)%Z -> key_seen dedup s = false ->
  insert_event session encoded now dedup (set_event_keys (add_key dedup) s) =
  if (I64_MAX <? last_rowid s + 1)%Z then Some (Err (Storage "database or disk is full"), set_event_keys (add_key dedup) s)
  else let row := mkEventRow (last_rowid s + 1) session encoded now dedup in
    Some (Ok (last_rowid s + 1)%Z, set_journal (events s ++ [row]) (row_sequence row) (message_bytes (events s ++ [row]))
      (set_event_keys (add_key dedup) s)).
Proof.
  intros Hok Hnow Hseen. unfold insert_event, bind_u64. rewrite (proj2 (Z.ltb_ge _ _)) by done. st_run.
  assert (Ht : bool_decide (is_Some dedup) && existsb (fun r => bool_decide (row_dedup r = dedup)) (events s) = false).
  { destruct dedup as [key|]; [|done]. rewrite bool_decide_eq_true_2 by done. cbn [andb].
    apply not_true_is_false. intros (r & Hr & Hk)%existsb_exists. apply list_elem_of_In in Hr. bool_split.
    cbn [key_seen] in Hseen. bool_split. apply Hseen. pose proof (journal_keys _ Hok) as Hkeys. rewrite Forall_forall in Hkeys. by eapply Hkeys. }
  cbn [events set_event_keys]. rewrite Ht. st_run. cbn [last_rowid set_event_keys].
  destruct (I64_MAX <? last_rowid s + 1)%Z; [done|]. st_run.
  cbn [events journal_bytes set_event_keys]. rewrite (journal_counter _ Hok), message_bytes_app, message_bytes_cons.
  unfold row_bytes. cbn [row_message]. change (message_bytes []) with 0%Z. by rewrite Z.add_0_r.
Qed.

(** C15: appending to the journal always ends, and does exactly this: an event that
    is too large is refused, a repeated notification is dropped, and any other gets
    the next number and is kept, while the retention removes only the oldest events:
    those past the age or number, then the fewest that bring the journal within its
    bytes.  The tables stay well-formed. *)
Theorem append_exact session message now s : journal_ok s -> (0 <= now <= I64_MAX)%Z ->
  exists r s', append session message now s = Some (r, s') /\ journal_ok s' /\
    let row := mkEventRow (last_rowid s + 1) session (to_json message) now (dedup_key session message) in
    if (MAX_MESSAGE_BYTES <? row_bytes row)%Z then r = Err (Invalid "event is too large") /\ s' = s
    else if key_seen (row_dedup row) s then r = Ok None /\ s' = s
    else if (I64_MAX <=? last_rowid s)%Z then is_ok r = false /\ s' = s
    else r = Ok (Some (mkEvent (row_sequence row) session message now)) /\ appended row s s' /\
      exists old, old `sublist_of` events s /\ events s' = old ++ [row].
Proof.
  intros Hok Hnow. set (row := mkEventRow _ _ _ _ _). unfold append. change (Z.of_nat (length (to_json message))) with (row_bytes row).
  destruct (MAX_MESSAGE_BYTES <? row_bytes row)%Z eqn:Elarge; [by eexists _, _|].
  st_run. fold (key_seen (dedup_key session message) s). change (dedup_key session message) with (row_dedup row).
  destruct (key_seen (row_dedup row) s) eqn:Eseen; [by eexists _, _|].
  assert (Hkeys : (match row_dedup row with Some key => modify (set_event_keys (union {[key]})) | None => mret tt end : M unit) s
    = Some (Ok tt, set_event_keys (add_key (row_dedup row)) s)) by (unfold add_key; destruct (row_dedup row); [done|by destruct s]).
  rewrite run_transaction, run_bind, Hkeys. cbv beta iota. rewrite run_bind. change (to_json message) with (row_message row).
  rewrite insert_event_spec by (done || lia).
  destruct (I64_MAX <=? last_rowid s)%Z eqn:Emax; bool_split.
  { rewrite (proj2 (Z.ltb_lt _ _)) by lia. by eexists _, _. }
  rewrite (proj2 (Z.ltb_ge _ _)) by lia. cbv beta iota zeta.
  change (mkEventRow (last_rowid s + 1) session (row_message row) now (row_dedup row)) with row.
  rewrite run_bind, delete_events_spec by done.
  cbv beta iota zeta. rewrite run_bind. unfold prune_journal. cbn [events journal_bytes set_journal last_rowid].
  destruct (prune_loop_spec JOURNAL_BYTES (filter (fun r => retention now (last_rowid s + 1) r = false) (events s ++ [row])) ltac:(done))
    as (rows & -> & Hp).
  assert (Hrow : (row_bytes row <= JOURNAL_BYTES)%Z) by (unfold MAX_MESSAGE_BYTES, JOURNAL_BYTES in *; lia).
  assert (Happ : appended row s (set_journal rows (row_sequence row) (message_bytes rows) (set_event_keys (add_key (row_dedup row)) s)))
    by (by exists rows).
  eexists _, _. split; [reflexivity|]. split; [|split; [done|split; [exact Happ|]]].
  - eapply (appended_ok row); [done|exact Happ|cbn; lia|done|lia|done|].
    intros key Hk. unfold key_seen in Eseen. rewrite Hk in Eseen. by bool_split.
  - edestruct (appended_rows row) as (old & Hsub & Hev & _); [done|exact Happ|cbn; lia|done|done|]. by exists old.
Qed.
End store.

Lemma empty_journal_ok : journal_ok empty_store.
Proof. constructor; cbn; unfold I64_MAX, JOURNAL_LENGTH, JOURNAL_BYTES; first [by constructor|lia]. Qed.

(** ** Witness *)
Import Concrete.

Lemma append_exact_witness : exists s', append "s" sample_message 10 empty_store =
    Some (Ok (Some (mkEvent 1 "s" sample_message 10)), s') /\ journal_ok s'.
Proof.
  destruct (append_exact "s" sample_message 10 empty_store empty_journal_ok ltac:(done)) as (r & s' & Hr & Hok & H).
  exists s'. split; [|exact Hok]. rewrite Hr. cbv zeta in H. set (b := (MAX_MESSAGE_BYTES <? _)%Z) in H.
  assert (b = false) as Hb by (vm_compute; reflexivity). rewrite Hb in H. destruct H as [-> _]. reflexivity.
Defined.
End StoreJournal.
