(* ===== verification/StoreDevices.v ===== *)
(** * Devices of the store: admission, revocation and the invariant of the tables *)

From S2P Require Export StoreJournal.

Module StoreDevices.
Import Crypto Protocol Store StoreJournal.

(** ** Histories of a store *)

(** The operations that can change a store, with what the clock and the
    generators of random values gave them. *)
Inductive operation :=
  | Open
  | Receive (event : Event)
  | Acknowledge (sequence : Z)
  | Secret (key random_password random_secret : str)
  | SetValue (key value : str)
  | RotatePassword (random_password : str)
  | Register (request : Registration) (fingerprint nonce uuid random_password random_secret : str) (now later : Z)
  | Approve (code : str) (now : Z)
  | Claim (id nonce fingerprint signature : str) (now : Z) (random_secret : str) (later : Z)
  | Revoke (id : str)
  | Append (session : str) (message : Json.Value) (now : Z)
  | BeginRequest (device id : str) (payload : Json.Value)
  | FinishRequest (device id : str) (result : Json.Value).

(** How two versions of the table of devices are related: rows are added at the end,
    and a row changes at most to revoked. *)
Definition same_device (d d' : DeviceRow) : Prop :=
  device_id d' = device_id d /\ device_name d' = device_name d /\ device_key d' = device_key d /\
  token_hash d' = token_hash d /\ device_created d' = device_created d /\ (revoked d = true -> revoked d' = true).
#[export] Instance same_device_preorder : PreOrder same_device.
Proof. split; [by intros d|]. intros d d' d''. unfold same_device. intuition congruence. Qed.
Definition devices_le (s s' : Store) : Prop :=
  exists rows extra, devices s' = rows ++ extra /\ Forall2 same_device (devices s) rows.
#[export] Instance devices_le_preorder : PreOrder devices_le.
Proof.
  split.
  - intros s. exists (devices s), []. by rewrite app_nil_r.
  - intros s s' s'' (rows & extra & H1 & H2) (rows' & extra' & H3 & H4). rewrite H1 in H4.
    apply Forall2_app_inv_l in H4 as (r1 & r2 & H4 & H5 & ->). exists r1, (r2 ++ extra'). rewrite app_assoc. split; [done|].
    by etrans.
Qed.

Section store.
Context {E : Encodings} {HS : Sha256} {K : Ed25519} {SJ : SerdeJson} {EJ : EventJson} {SQ : SqliteJson} {U : Uppercase}.

Definition perform (op : operation) : M unit :=
  match op with
  | Open => modify open_store
  | Receive event => receive_event event ;; mret tt
  | Acknowledge sequence => acknowledge_alert sequence
  | Secret key random_password random_secret => secret key random_password random_secret ;; mret tt
  | SetValue key value => set_value key value
  | RotatePassword random_password => rotate_password random_password
  | Register request fingerprint nonce uuid random_password random_secret now later =>
      register request fingerprint nonce uuid random_password random_secret now later ;; mret tt
  | Approve code now => approve code now
  | Claim id nonce fingerprint signature now random_secret later =>
      claim id nonce fingerprint signature now random_secret later ;; mret tt
  | Revoke id => revoke id
  | Append session message now => throw_if (now <? 0)%Z (Storage "clock before the epoch") ;; append session message now ;; mret tt
  | BeginRequest device id payload => begin_request device id payload ;; mret tt
  | FinishRequest device id result => finish_request device id result
  end.
(** One operation, successful or not. *)
Definition step (s s' : Store) : Prop := exists op r, perform op s = Some (r, s').
Definition reachable : Store -> Prop := rtc step empty_store.
Lemma reachable_ind (P : Store -> Prop) : P empty_store ->
  (forall s s', reachable s -> step s s' -> P s -> P s') -> forall s, reachable s -> P s.
Proof. intros H0 Hstep s Hr. refine (rtc_ind_r P empty_store H0 _ s Hr). intros y z Hy Hz HP. by eapply Hstep. Qed.

Lemma rel_step R `{!PreOrder R} : (forall op, rel_m R (perform op)) -> forall s s', step s s' -> R s s'.
Proof. intros H s s' (op & r & Hp). by eapply H. Qed.
Lemma rel_steps R `{!PreOrder R} : (forall op, rel_m R (perform op)) -> forall s s', rtc step s s' -> R s s'.
Proof. intros H. induction 1; [done|]. etrans; [by eapply rel_step|done]. Qed.

(** ** The table of devices only grows *)

Lemma devices_le_same s s' : devices s' = devices s -> devices_le s s'.
Proof. intros H. exists (devices s), []. by rewrite app_nil_r. Qed.
Lemma devices_le_add d s : devices_le s (set_devices (fun l => l ++ [d]) s).
Proof. by exists (devices s), [d]. Qed.
Lemma devices_le_revoke id s : devices_le s (set_devices (map (revoke_row id)) s).
Proof.
  exists (map (revoke_row id) (devices s)), []. cbn. rewrite app_nil_r. split; [done|].
  induction (devices s) as [|d l IH]; cbn [map]; constructor; [|done]. unfold revoke_row. by case_bool_decide.
Qed.
Local Hint Resolve devices_le_same devices_le_add devices_le_revoke : st.

Lemma prune_journal_rel (R : Store -> Store -> Prop) maximum :
  (forall rows bytes s, R s (set_journal rows (last_rowid s) bytes s)) -> rel_m R (prune_journal maximum).
Proof. intros H s r s'. unfold prune_journal. destruct (prune_loop _ _ _) as [[rows bytes]|]; [|done]. intros [= _ <-]. apply H. Qed.

Lemma perform_devices_le op : rel_m devices_le (perform op).
Proof.
  assert (Hd : forall id name key token now, rel_m devices_le (insert_device id name key token now))
    by (intros; unfold insert_device, bind_u64; st_rel; apply devices_le_add).
  assert (Hs : forall key rp rs, rel_m devices_le (secret key rp rs))
    by (intros; unfold secret, value, set_value; st_rel; by apply devices_le_same).
  destruct op; cbn [perform]; st_rel; try done; try apply Hs;
    unfold receive_event, acknowledge_alert, rotate_password, set_value, register, issue_device, approve, claim, revoke, append, begin_request,
      finish_request, read_cursor, read_u64, insert_event, delete_events, bind_u64, bounds;
    st_rel; try apply Hd; try apply Hs; try (by apply devices_le_same); try apply devices_le_revoke.
  - unfold open_store. case_bool_decide; by apply devices_le_same.
  - apply prune_journal_rel. intros. by apply devices_le_same.
Qed.

(** ** Alerts *)

Definition cursor_of (s : Store) : Z := default 0%Z (cast_integer <$> metadata s !! CURSOR).
(** What an accepted event does to the alerts: it is added, the request it resolves
    is dismissed, and the oldest alerts make room. *)
Definition next_alerts (event : Event) (l : list (Z * str)) : list (Z * str) :=
  let added := if is_alert (message event) then insert_alert (sequence event) (event_to_json event) l else l in
  let kept :=
    if bool_decide (default [] (Json.as_str (Json.index (message event) "method")) = "serverRequest/resolved") then
      filter (fun a => asks_for (session_id event) (Json.index (Json.index (message event) "params") "requestId") a.2 = false) added
    else added in
  drop (length kept - ALERTS) kept.

Lemma receive_event_run event s : receive_event event s =
  if (cursor_of s <? 0)%Z then Some (Err (Storage "integer out of range"), s)
  else if (sequence event <=? cursor_of s)%Z then Some (Ok false, s)
  else if is_alert (message event) && (I64_MAX <? sequence event)%Z
  then Some (Err (Storage "out of range integral type conversion attempted"), s)
  else Some (Ok true, set_metadata <[CURSOR := dec (sequence event)]> (set_alerts (next_alerts event) s)).
Proof.
  unfold receive_event, read_cursor, read_u64, bind_u64. st_run. fold (cursor_of s).
  destruct (cursor_of s <? 0)%Z; [done|]. st_run. destruct (sequence event <=? cursor_of s)%Z; [done|]. st_run. unfold next_alerts.
  destruct (is_alert (message event)); st_run; cbn [andb].
  1: destruct (I64_MAX <? sequence event)%Z; [done|]; st_run.
  all: destruct (bool_decide _); st_run; unfold set_value; st_run; by destruct s.
Qed.

Definition alerts_ok (l : list (Z * str)) : Prop := StronglySorted Z.lt (map fst l) /\ (length l <= ALERTS)%nat.

Lemma insert_alert_elem n e l m : m ∈ map fst (insert_alert n e l) <-> m = n \/ m ∈ map fst l.
Proof.
  induction l as [|[k d] l IH]; cbn [insert_alert map]; [set_solver|].
  destruct (n <? k)%Z; [cbn; set_solver|]. destruct (n =? k)%Z eqn:Ek; bool_split; cbn [map fst]; set_solver.
Qed.
Lemma insert_alert_sorted n e l : StronglySorted Z.lt (map fst l) -> StronglySorted Z.lt (map fst (insert_alert n e l)).
Proof.
  induction l as [|[k d] l IH]; intros Hs; cbn [insert_alert map]; [by repeat constructor|].
  pose proof Hs as Hs0. cbn [map fst] in Hs. apply StronglySorted_inv in Hs as [Hs Hk].
  destruct (n <? k)%Z eqn:E1; bool_split.
  - cbn [map fst]. constructor; [done|]. constructor; [done|]. eapply Forall_impl; [exact Hk|]. cbn. lia.
  - destruct (n =? k)%Z eqn:E2; bool_split; [done|]. cbn [map fst]. constructor; [by auto|]. rewrite Forall_forall in *.
    intros m [->|Hm]%insert_alert_elem; [lia|by auto].
Qed.
Lemma alerts_drop_ok l : StronglySorted Z.lt (map fst l) -> alerts_ok (drop (length l - ALERTS) l).
Proof. intros Hs. split; [eapply sorted_sublist; [apply sublist_map, sublist_drop|done]|]. rewrite length_drop. lia. Qed.

Lemma next_alerts_ok event l : alerts_ok l -> alerts_ok (next_alerts event l).
Proof.
  intros [Hs _]. unfold next_alerts. cbv zeta. apply alerts_drop_ok.
  assert (Ha : StronglySorted Z.lt (map fst (if is_alert (message event) then insert_alert (sequence event) (event_to_json event) l else l)))
    by (destruct (is_alert _); [by apply insert_alert_sorted|done]).
  case_bool_decide; [|done]. eapply sorted_sublist; [apply sublist_map, sublist_filter|done].
Qed.

(** ** The invariant of the tables *)

Record pairing_ok (l : list PairingRow) : Prop := {
  pairing_ids : NoDup (map pairing_id l);
  pairing_codes : NoDup (map pairing_code l);
  pairing_count : (length l <= 64)%nat }.

Record store_ok (s : Store) : Prop := {
  ok_journal : journal_ok s;
  ok_devices : NoDup (map device_id (devices s));
  ok_pairing : pairing_ok (pairing s);
  ok_alerts : alerts_ok (alerts s) }.

(** Statements that change one table. *)
Lemma store_ok_metadata f s : store_ok s -> store_ok (set_metadata f s).
Proof. intros [[] ? ? ?]. by constructor. Qed.
Lemma store_ok_requests f s : store_ok s -> store_ok (set_requests f s).
Proof. intros [[] ? ? ?]. by constructor. Qed.
Lemma store_ok_devices f s : NoDup (map device_id (f (devices s))) -> store_ok s -> store_ok (set_devices f s).
Proof. intros ? [[] ? ? ?]. by constructor. Qed.
Lemma store_ok_pairing f s : pairing_ok (f (pairing s)) -> store_ok s -> store_ok (set_pairing f s).
Proof. intros ? [[] ? ? ?]. by constructor. Qed.
Lemma store_ok_alerts f s : alerts_ok (f (alerts s)) -> store_ok s -> store_ok (set_alerts f s).
Proof. intros ? [[] ? ? ?]. by constructor. Qed.
Lemma store_ok_journal s s' : journal_ok s' -> devices s' = devices s -> pairing s' = pairing s -> alerts s' = alerts s ->
  store_ok s -> store_ok s'.
Proof. intros ? Hd Hp Ha [_ ? ? ?]. constructor; by rewrite ?Hd, ?Hp, ?Ha. Qed.

Lemma pairing_ok_nil : pairing_ok [].
Proof. constructor; [constructor..|cbn; lia]. Qed.
Lemma NoDup_map_sublist {A B} (f : A -> B) l l' : l `sublist_of` l' -> NoDup (map f l') -> NoDup (map f l).
Proof. intros Hs Hd. eapply sublist_NoDup; [done|by apply sublist_map]. Qed.
Lemma pairing_ok_sublist l l' : l `sublist_of` l' -> pairing_ok l' -> pairing_ok l.
Proof.
  intros Hs [H1 H2 H3]. constructor; [by eapply NoDup_map_sublist..|]. apply sublist_length in Hs. lia.
Qed.
Lemma pairing_ok_approve code now l : pairing_ok l -> pairing_ok (map (fun p => if matches_code code now p then approve_row p else p) l).
Proof.
  intros [H1 H2 H3]. constructor; rewrite ?map_map, ?length_map; [| |done].
  - erewrite map_ext; [exact H1|]. intros p. by destruct (matches_code code now p).
  - erewrite map_ext; [exact H2|]. intros p. by destruct (matches_code code now p).
Qed.
Lemma NoDup_map_snoc {A B} (f : A -> B) l x : f x ∉ map f l -> NoDup (map f l) -> NoDup (map f (l ++ [x])).
Proof. intros Hx Hl. rewrite map_app. apply NoDup_app. split; [done|]. split; [set_solver|apply NoDup_singleton]. Qed.
Lemma existsb_map_not_elem {A B} `{EqDecision B} (f : A -> B) l y : existsb (fun x => bool_decide (f x = y)) l = false -> y ∉ map f l.
Proof.
  intros H (x & -> & Hx)%list_elem_of_fmap. apply not_true_iff_false in H. apply H, existsb_exists. exists x.
  split; [by apply list_elem_of_In|by apply bool_decide_eq_true_2].
Qed.

Lemma pairing_ok_add p l : (length l < 64)%nat ->
  existsb (fun q => bool_decide (pairing_id q = pairing_id p) || bool_decide (pairing_code q = pairing_code p)) l = false ->
  pairing_ok l -> pairing_ok (l ++ [p]).
Proof.
  intros Hlen Hno [H1 H2 H3]. constructor; [apply NoDup_map_snoc; [|done]..|rewrite length_app; cbn; lia];
    apply existsb_map_not_elem, not_true_is_false; intros (q & Hq & Hd)%existsb_exists;
    apply not_true_iff_false in Hno; apply Hno, existsb_exists; exists q; (split; [done|]); rewrite Hd; [done|by rewrite orb_true_r].
Qed.

(** ** Every operation keeps the invariant *)

Lemma insert_device_run id name key token now s r s' : insert_device id name key token now s = Some (r, s') ->
  (is_ok r = false /\ s' = s) \/
  (r = Ok tt /\ id ∉ map device_id (devices s) /\
   s' = set_devices (fun l => l ++ [mkDeviceRow id name key (digest token) now false]) s).
Proof.
  unfold insert_device, bind_u64. st_run. destruct (I64_MAX <? now)%Z; [intros [= <- <-]; by left|]. st_run.
  destruct (existsb _ _) eqn:Ex; [intros [= <- <-]; by left|]. st_run. intros [= <- <-]. right.
  apply existsb_map_not_elem in Ex. done.
Qed.
Lemma insert_device_ok id name key token now : rel_m (keeps store_ok) (insert_device id name key token now).
Proof.
  intros s r s' [[_ ->]|(_ & Hid & ->)]%insert_device_run Hok; [done|].
  apply store_ok_devices; [|done]. apply NoDup_map_snoc; [done|apply Hok].
Qed.

Lemma append_run session message now s : journal_ok s -> (0 <= now)%Z ->
  exists r s', append session message now s = Some (r, s') /\ journal_ok s' /\
    devices s' = devices s /\ pairing s' = pairing s /\ alerts s' = alerts s /\ metadata s' = metadata s /\ requests s' = requests s.
Proof.
  intros Hok Hnow. destruct (I64_MAX <? now)%Z eqn:Emax; bool_split.
  - unfold append, transaction, insert_event, bind_u64. rewrite (proj2 (Z.ltb_lt _ _)) by done. st_run.
    destruct (MAX_MESSAGE_BYTES <? _)%Z; [by eexists _, _|]. st_run. destruct (match dedup_key _ _ with Some _ => _ | None => _ end); st_run; [by eexists _, _|].
    destruct (dedup_key session message); st_run; by eexists _, _.
  - destruct (append_exact session message now s Hok ltac:(lia)) as (r & s' & Hrun & Hok' & H). exists r, s'. split; [done|]. split; [done|].
    cbv zeta in H. destruct (MAX_MESSAGE_BYTES <? _)%Z; [by destruct H as [_ ->]|]. destruct (key_seen _ _); [by destruct H as [_ ->]|].
    destruct (I64_MAX <=? _)%Z; [by destruct H as [_ ->]|]. by destruct H as (_ & (rows & _ & ->) & _).
Qed.

Lemma register_ok request fingerprint nonce uuid random_password random_secret now later :
  (forall key rp rs, rel_m (keeps store_ok) (secret key rp rs)) ->
  rel_m (keeps store_ok) (register request fingerprint nonce uuid random_password random_secret now later).
Proof.
  intros Hs. unfold register, bind_u64. do 2 (apply (rel_bind (keeps store_ok)); [st_rel|intros ?]).
  destruct (reg_connection_password request) as [password|].
  - unfold issue_device, bounds. st_rel; [apply Hs|apply insert_device_ok].
  - do 2 (apply (rel_bind (keeps store_ok)); [st_rel|intros ?]).
    { intros Hok. apply store_ok_pairing; [|done]. eapply pairing_ok_sublist; [apply sublist_filter|]. by apply ok_pairing. }
    intros s r s' H Hok. revert H. unfold bounds. st_run. destruct (64 <=? length (pairing s))%nat eqn:Elen; [by intros [= <- <-]|].
    st_run. destruct (I64_MAX <? now + 600)%Z; [by intros [= <- <-]|]. st_run. destruct (existsb _ (pairing s)) eqn:Ex; [by intros [= <- <-]|].
    st_run. intros [= <- <-]. bool_split. apply store_ok_pairing; [|done]. apply pairing_ok_add; [done|exact Ex|by apply ok_pairing].
Qed.

Lemma append_ok session message now : rel_m (keeps store_ok) (perform (Append session message now)).
Proof.
  intros s r s'. cbn [perform]. st_run. destruct (now <? 0)%Z eqn:Enow; [by intros [= <- <-]|]. intros Hrun Hok. bool_split.
  destruct (append_run session message now s) as (r1 & s1 & Hr & Hj & Hd & Hp & Ha & _); [apply Hok|done|].
  rewrite Hr in Hrun. assert (store_ok s1) by (by eapply store_ok_journal). by destruct r1; injection Hrun as <- <-.
Qed.

Lemma perform_ok op : rel_m (keeps store_ok) (perform op).
Proof.
  assert (Hs : forall key rp rs, rel_m (keeps store_ok) (secret key rp rs)).
  { intros; unfold secret, value, set_value; st_rel; intros Hok;
      first [by apply store_ok_metadata|apply store_ok_pairing; [apply pairing_ok_nil|by try apply store_ok_metadata]]. }
  assert (Hx : forall (p : PairingRow -> Prop) `{!forall x, Decision (p x)} s, store_ok s -> store_ok (set_pairing (filter p) s)).
  { intros. apply store_ok_pairing; [|done]. eapply pairing_ok_sublist; [apply sublist_filter|]. by apply ok_pairing. }
  destruct op; try apply append_ok; cbn [perform]; st_rel; try done; try apply Hs.
  - intros Hok. unfold open_store. case_bool_decide; [done|]. apply store_ok_metadata.
    apply (store_ok_journal s); [|done..]. destruct Hok as [[] _ _ _]. by constructor.
  - intros s r s'. rewrite receive_event_run. destruct (_ <? 0)%Z; [by intros [= <- <-]|]. destruct (_ <=? _)%Z; [by intros [= <- <-]|].
    destruct (_ && _); intros [= <- <-] Hok; [done|]. apply store_ok_metadata, store_ok_alerts; [|done]. apply next_alerts_ok, Hok.
  - unfold acknowledge_alert, bind_u64. st_rel. intros Hok. apply store_ok_alerts; [|done]. destruct (ok_alerts _ Hok) as [H1 H2].
    split; [eapply sorted_sublist; [apply sublist_map, sublist_filter|done]|]. etrans; [apply sublist_length, sublist_filter|done].
  - unfold set_value. st_rel. intros Hok. by apply store_ok_metadata.
  - unfold rotate_password, set_value. st_rel; intros Hok; [by apply store_ok_metadata|]. apply store_ok_pairing; [apply pairing_ok_nil|done].
  - apply register_ok, Hs.
  - unfold approve, bind_u64. st_rel. intros Hok. apply store_ok_pairing; [|done]. by apply pairing_ok_approve, Hok.
  - unfold claim, bind_u64, bounds. st_rel; [apply insert_device_ok|]. intros Hok. by apply Hx.
  - unfold revoke. st_rel. intros Hok. apply store_ok_devices; [|done]. rewrite map_map. erewrite map_ext; [apply Hok|].
    intros d. unfold revoke_row. by case_bool_decide.
  - unfold begin_request. st_rel. intros Hok. by apply store_ok_requests.
  - unfold finish_request. st_rel. intros Hok. by apply store_ok_requests.
Qed.

Lemma empty_store_ok : store_ok empty_store.
Proof. constructor; cbn; [apply empty_journal_ok|constructor|apply pairing_ok_nil|split; [constructor|cbn; lia]]. Qed.
Lemma reachable_ok s : reachable s -> store_ok s.
Proof. intros H. by apply (rel_steps (keeps store_ok) perform_ok _ _ H), empty_store_ok. Qed.
End store.
End StoreDevices.
