(* ===== verification/StoreAdmission.v ===== *)
(** * Who the store lets in

    The claims about devices: how a device gets into the table, what its later
    connections need, and that a revoked device stays out. *)

From S2P Require Export StoreDevices.

Module StoreAdmission.
Import Crypto Protocol Store StoreJournal StoreDevices.

Section store.
Context {E : Encodings} {HS : Sha256} {K : Ed25519} {SJ : SerdeJson} {EJ : EventJson} {SQ : SqliteJson} {U : Uppercase}.

(** ** The operations end *)

Lemma perform_total op s : journal_ok s -> is_Some (perform op s).
Proof.
  intros Hj. assert (Hs : forall key rp rs, ends (secret key rp rs)) by (intros; unfold secret, value, set_value; st_total).
  assert (Hd : forall id name key token now, ends (insert_device id name key token now)) by (intros; unfold insert_device, bind_u64; st_total).
  assert (Ht : (forall session message now, op <> Append session message now) -> ends (perform op)).
  { intros Hne. destruct op; try (by edestruct Hne); cbn [perform]; st_total; try apply Hs;
      unfold receive_event, acknowledge_alert, rotate_password, set_value, register, issue_device, approve, claim, revoke, begin_request,
        finish_request, read_cursor, read_u64, bind_u64, bounds; st_total; try apply Hs; apply Hd. }
  destruct op as [| | | | | | | | | |session m now| |]; try (by apply Ht). cbn [perform]. st_run. destruct (now <? 0)%Z eqn:Enow; [done|]. bool_split.
  destruct (append_run session m now s Hj Enow) as (r & s' & -> & _). by destruct r.
Qed.

(** C16: however a store has been used, its tables are well-formed: the journal is
    numbered in order, counted to the byte and within its limits, notifications are
    not repeated, devices and codes are unique, at most 64 devices wait for approval
    and at most 2048 alerts wait for delivery; and every further operation ends. *)
Theorem store_invariant s op : reachable s ->
  store_ok s /\ exists r s', perform op s = Some (r, s') /\ reachable s'.
Proof.
  intros Hr. pose proof (reachable_ok s Hr) as Hok. split; [done|].
  destruct (perform_total op s (ok_journal _ Hok)) as [[r s'] Hp]. exists r, s'. split; [done|].
  eapply rtc_r; [exact Hr|]. by exists op, r.
Qed.

(** ** Authentication *)

Lemma constant_equal_spec a b : constant_equal a b = true <-> a = b.
Proof.
  unfold constant_equal. rewrite <- Auth.constant_time_eq_spec. unfold Auth.constant_time_eq.
  by destruct (length a =? length b)%nat.
Qed.

Lemma find_ext {A} (p q : A -> bool) l : (forall x, p x = q x) -> List.find p l = List.find q l.
Proof. intros H. induction l as [|x l IH]; [done|]. cbn. by rewrite H, IH. Qed.
Lemma find_unique {A B} `{EqDecision B} (f : A -> B) (p : A -> bool) l y : NoDup (map f l) ->
  match List.find (fun x => bool_decide (f x = y) && p x) l with
  | Some x => x ∈ l /\ f x = y /\ p x = true
  | None => forall x, x ∈ l -> f x = y -> p x = false
  end.
Proof.
  intros Hnd. destruct (List.find _ l) as [x|] eqn:Ef.
  - apply find_some in Ef as [Hin Hx]. apply list_elem_of_In in Hin. bool_split. done.
  - intros x Hin Hx. apply list_elem_of_In in Hin. eapply find_none in Ef; [|exact Hin]. apply andb_false_iff in Ef as [Hf|Hf]; [|done].
    by bool_split.
Qed.
Lemma NoDup_map_eq {A B} (f : A -> B) l x y : NoDup (map f l) -> x ∈ l -> y ∈ l -> f x = f y -> x = y.
Proof.
  induction l as [|z l IH]; [by intros _ Hx%not_elem_of_nil|]. cbn [map]. intros [Hz Hnd]%NoDup_cons Hx Hy He.
  apply elem_of_cons in Hx as [->|Hx]; apply elem_of_cons in Hy as [->|Hy]; [done|..|by auto];
    exfalso; apply Hz; [rewrite He|rewrite <- He]; apply list_elem_of_fmap; eexists; (split; [reflexivity|done]).
Qed.

(** A device that the store lets in. *)
Definition admits (s : Store) (auth : Authentication) (nonce fingerprint : str) : Prop :=
  exists d, d ∈ devices s /\ device_id d = auth_device_id auth /\ revoked d = false /\
    token_hash d = digest (auth_token auth) /\ verify (device_key d) (auth_signature auth) nonce fingerprint = Ok tt.

Lemma authenticate_spec auth nonce fingerprint s : store_ok s ->
  exists r, authenticate auth nonce fingerprint s = Some (r, s) /\ (r = Ok tt <-> admits s auth nonce fingerprint).
Proof.
  intros Hok. unfold authenticate, find_active. st_run. pose proof (ok_devices _ Hok) as Hnd.
  pose proof (find_unique device_id (fun d => negb (revoked d)) (devices s) (auth_device_id auth) Hnd) as Hf.
  destruct (List.find _ _) as [d|]; cbn [ok_or].
  - destruct Hf as (Hin & Hid & Hrev). bool_split. st_run.
    assert (Had : admits s auth nonce fingerprint <-> token_hash d = digest (auth_token auth) /\
      verify (device_key d) (auth_signature auth) nonce fingerprint = Ok tt).
    { split; [|intros [? ?]; by exists d]. intros (d' & Hin' & Hid' & _ & H). assert (d = d') as -> by (apply (NoDup_map_eq device_id _ d d' Hnd Hin Hin'); congruence). done. }
    destruct (constant_equal _ _) eqn:Ec; cbn [negb].
    + apply constant_equal_spec in Ec. st_run. eexists. split; [reflexivity|]. rewrite Had. tauto.
    + eexists. split; [reflexivity|]. rewrite Had. split; [done|].
      intros [He _]. apply constant_equal_spec in He. congruence.
  - eexists. split; [reflexivity|]. split; [done|]. intros (d & Hin & Hid & Hrev & _). specialize (Hf d Hin Hid). by rewrite Hrev in Hf.
Qed.

(** Once a device is revoked, no later history of the store lets it in again:
    every authentication under its identifier is refused, and it stays inactive. *)
Theorem revocation_is_final id s s1 s2 : reachable s -> revoke id s = Some (Ok tt, s1) -> rtc step s1 s2 ->
  active id s2 = Some (Ok false, s2) /\
  forall auth nonce fingerprint, auth_device_id auth = id -> authenticate auth nonce fingerprint s2 = Some (Err Unauthorized, s2).
Proof.
  intros Hr Hrev H12. assert (Hstep : step s s1) by (by exists (Revoke id), (Ok tt)).
  assert (Hok2 : store_ok s2) by (apply reachable_ok; unfold reachable in *; etrans; [exact Hr|]; by eapply rtc_l).
  revert Hrev. unfold revoke. st_run. destruct (existsb _ _) eqn:Ex; [|done]. intros [= Hs1].
  apply existsb_exists in Ex as (d & Hin & Hid). apply list_elem_of_In in Hin. bool_split.
  pose proof (rel_steps devices_le perform_devices_le _ _ H12) as (rows & extra & Hd2 & Hle). rewrite <- Hs1 in Hle. cbn [devices set_devices] in Hle.
  assert (Hin1 : revoke_row id d ∈ map (revoke_row id) (devices s)) by (apply list_elem_of_fmap; eexists; split; [reflexivity|done]).
  apply list_elem_of_lookup in Hin1 as [i Hi]. eapply Forall2_lookup_l in Hle as (d2 & Hi2 & Hsame); [|exact Hi].
  apply list_elem_of_lookup_2 in Hi2. destruct Hsame as (Hid2 & _ & _ & _ & _ & Hrv).
  unfold revoke_row in Hid2, Hrv. rewrite bool_decide_eq_true_2 in Hid2, Hrv by done. cbn in Hid2, Hrv. specialize (Hrv eq_refl).
  assert (Hin2 : d2 ∈ devices s2) by (rewrite Hd2; set_solver). split.
  - unfold active. st_run. do 3 f_equal. pose proof (find_unique device_id (fun _ => true) (devices s2) id (ok_devices _ Hok2)) as Hf.
    rewrite (find_ext _ (fun d => bool_decide (device_id d = id) && true)) by (intros; by rewrite andb_true_r).
    destruct (List.find _ _) as [d3|]; [|done]. destruct Hf as (Hin3 & Hid3 & _). cbn.
    rewrite (NoDup_map_eq device_id _ d3 d2 (ok_devices _ Hok2) Hin3 Hin2) by congruence. by rewrite Hrv.
  - intros auth nonce fingerprint Hauth. unfold authenticate, find_active. st_run. rewrite Hauth.
    pose proof (find_unique device_id (fun d => negb (revoked d)) (devices s2) id (ok_devices _ Hok2)) as Hf.
    destruct (List.find _ _) as [d3|]; [|done]. destruct Hf as (Hin3 & Hid3 & Hr3).
    rewrite (NoDup_map_eq device_id _ d3 d2 (ok_devices _ Hok2) Hin3 Hin2) in Hr3 by congruence. by rewrite Hrv in Hr3.
Qed.

(** ** Admission *)

Definition PASSWORD : str := "connection_password".

(** A host's user entered the code of the pairing while it was valid. *)
Definition approval (s : Store) (row : PairingRow) : Prop := exists code t sa sb,
  reachable sa /\ perform (Approve code t) sa = Some (Ok tt, sb) /\ rtc step sb s /\
  to_uppercase code = pairing_code row /\ (t < expires_at row)%Z.

(** The operation that put a device into the table: a registration with the
    connection password, or a claim, signed with the device's key, of a pairing
    that was approved. *)
Definition admission (op : operation) (s0 s1 : Store) (d : DeviceRow) : Prop :=
  match op with
  | Register request _ _ uuid _ random_secret _ _ =>
      reg_public_key request = device_key d /\ reg_name request = device_name d /\ uuid = device_id d /\
      token_hash d = digest random_secret /\
      exists password, reg_connection_password request = Some password /\ metadata s1 !! PASSWORD = Some password
  | Claim id nonce fingerprint signature now random_secret _ =>
      id = device_id d /\ token_hash d = digest random_secret /\
      exists row, row ∈ pairing s0 /\ pairing_id row = id /\ approved row = true /\ (now < expires_at row)%Z /\
        pairing_key row = device_key d /\ pairing_name row = device_name d /\
        verify (device_key d) signature nonce fingerprint = Ok tt
  | _ => False
  end.

Definition devices_from (s s' : Store) : Prop :=
  forall d', d' ∈ devices s' -> exists d, d ∈ devices s /\ same_device d d'.
#[local] Instance devices_from_preorder : PreOrder devices_from.
Proof.
  split; [by intros s d Hd; exists d|]. intros s s' s'' H1 H2 d'' (d' & Hd' & Hs')%H2. apply H1 in Hd' as (d & Hd & Hs).
  exists d. split; [done|]. by etrans.
Qed.
Lemma devices_from_same s s' : devices s' = devices s -> devices_from s s'.
Proof. intros H d Hd. rewrite H in Hd. by exists d. Qed.

Lemma secret_password_run rp rs s : exists v s1, secret PASSWORD rp rs s = Some (Ok v, s1) /\
  metadata s1 !! PASSWORD = Some v /\ devices s1 = devices s.
Proof.
  unfold secret, value, set_value. change (bool_decide (PASSWORD = "connection_password")) with true. cbn [orb]. st_run.
  destruct (metadata s !! PASSWORD) as [v|] eqn:Ev.
  - destruct (is_ok (decode_password v)); st_run; [by eexists _, _|]. eexists _, _. split; [reflexivity|].
    split; [apply lookup_insert_eq|done].
  - st_run. eexists _, _. split; [reflexivity|]. split; [apply lookup_insert_eq|done].
Qed.

Lemma secret_valid v rp rs s : metadata s !! PASSWORD = Some v -> is_ok (decode_password v) = true ->
  secret PASSWORD rp rs s = Some (Ok v, s).
Proof.
  intros Hv Hok. unfold secret, value. change (bool_decide (PASSWORD = "connection_password")) with true. cbn [orb]. st_run.
  rewrite Hv. by rewrite Hok.
Qed.

Lemma insert_device_from id name key token now s r s' d : insert_device id name key token now s = Some (r, s') -> d ∈ devices s' ->
  d ∈ devices s \/ r = Ok tt /\ d = mkDeviceRow id name key (digest token) now false.
Proof.
  intros [[_ ->]|(-> & _ & ->)]%insert_device_run Hd; [by left|]. apply elem_of_app in Hd as [Hd|Hd%list_elem_of_singleton]; [by left|by right].
Qed.

Lemma register_devices request fingerprint nonce uuid rp rs now later s r s' d :
  perform (Register request fingerprint nonce uuid rp rs now later) s = Some (r, s') -> d ∈ devices s' ->
  d ∈ devices s \/ admission (Register request fingerprint nonce uuid rp rs now later) s s' d.
Proof.
  cbn [perform]. unfold register. st_run. destruct (decode32 _); [|by intros [= _ <-]; left]. st_run.
  destruct (is_blank _ || _); [by intros [= _ <-]; left|]. st_run. destruct (reg_connection_password request) as [password|] eqn:Ep.
  - destruct (secret_password_run rp [] s) as (v & s1 & Hrun & Hv & Hd1). fold PASSWORD. rewrite run_bind, Hrun. cbv beta iota. st_run.
    destruct (constant_equal password v) eqn:Ec; cbn [negb]; [|by intros [= _ <-]; rewrite Hd1; left].
    apply constant_equal_spec in Ec as <-. unfold issue_device, bounds. st_run.
    destruct (insert_device _ _ _ _ _ s1) as [[[[]|e] s2]|] eqn:Ei; [| |done].
    + st_run. intros [= <- <-] Hin. pose proof Ei as Ei'. eapply insert_device_from in Ei as [?|[_ ->]]; [left; by rewrite <- Hd1|right|done].
      cbn. do 4 (split; [done|]). exists password. split; [done|]. apply insert_device_run in Ei' as [[[=] _]|(_ & _ & ->)]. done.
    + intros [= _ <-] Hin. eapply insert_device_from in Ei as [?|[[=] _]]; [left; by rewrite <- Hd1|done].
  - unfold bind_u64, bounds. st_run. destruct (I64_MAX <? later)%Z; [by intros [= _ <-]; left|]. st_run.
    destruct (64 <=? _)%nat; [by intros [= _ <-]; left|]. st_run. destruct (I64_MAX <? now + 600)%Z; [by intros [= _ <-]; left|]. st_run.
    destruct (existsb _ _); [by intros [= _ <-]; left|]. st_run. by intros [= _ <-]; left.
Qed.

Lemma claim_devices id nonce fingerprint signature now rs later s r s' d :
  perform (Claim id nonce fingerprint signature now rs later) s = Some (r, s') -> d ∈ devices s' ->
  d ∈ devices s \/ admission (Claim id nonce fingerprint signature now rs later) s s' d.
Proof.
  cbn [perform]. unfold claim, bind_u64. st_run. destruct (I64_MAX <? now)%Z; [by intros [= _ <-]; left|]. st_run.
  destruct (List.find _ _) as [row|] eqn:Ef; cbn [ok_or]; [|by intros [= _ <-]; left]. apply find_some in Ef as [Hrow Hm].
  apply list_elem_of_In in Hrow. bool_split. st_run. destruct (verify _ _ _ _) as [[]|] eqn:Ev; [|by intros [= _ <-]; left].
  destruct (approved row) eqn:Ea; cbn [negb]; [|st_run; by intros [= _ <-]; left]. unfold bounds. st_run.
  destruct (insert_device _ _ _ _ _ s) as [[[[]|e] s2]|] eqn:Ei; [| |done].
  - st_run. intros [= <- <-] Hin. eapply insert_device_from in Ei as [?|[_ ->]]; [by left|right|done].
    cbn. do 2 (split; [done|]). exists row. do 6 (split; [done|]). done.
  - intros [= _ <-]. by left.
Qed.

(** Operations that admit nobody. *)
Definition admits_nobody (op : operation) : bool :=
  match op with Register _ _ _ _ _ _ _ _ | Claim _ _ _ _ _ _ _ => false | _ => true end.
Lemma perform_devices_from op : admits_nobody op = true -> rel_m devices_from (perform op).
Proof.
  assert (Hs : forall key rp rs, rel_m devices_from (secret key rp rs))
    by (intros; unfold secret, value, set_value; st_rel; by apply devices_from_same).
  destruct op; intros Hop; try discriminate Hop; cbn [perform]; st_rel; try done; try apply Hs;
    unfold receive_event, acknowledge_alert, rotate_password, set_value, approve, revoke, append, begin_request,
      finish_request, read_cursor, read_u64, insert_event, delete_events, bind_u64;
    st_rel; try (by apply devices_from_same).
  - unfold open_store. case_bool_decide; by apply devices_from_same.
  - intros d (d0 & -> & Hd)%list_elem_of_fmap. exists d0. split; [done|]. unfold revoke_row. by case_bool_decide.
  - apply prune_journal_rel. intros. by apply devices_from_same.
Qed.

Lemma perform_devices op s r s' d : perform op s = Some (r, s') -> d ∈ devices s' ->
  (exists d0, d0 ∈ devices s /\ same_device d0 d) \/ admission op s s' d.
Proof.
  intros Hp Hd. destruct (admits_nobody op) eqn:Hop; [left; by eapply perform_devices_from|].
  destruct op; try discriminate Hop;
    [destruct (register_devices _ _ _ _ _ _ _ _ _ _ _ _ Hp Hd)|destruct (claim_devices _ _ _ _ _ _ _ _ _ _ _ Hp Hd)];
    first [by right|left; by exists d].
Qed.

(** ** Approvals *)

Definition pairing_from (s s' : Store) : Prop := forall row, row ∈ pairing s' -> approved row = true -> row ∈ pairing s.
#[local] Instance pairing_from_preorder : PreOrder pairing_from.
Proof. split; [by intros s row|]. intros s s' s'' H1 H2 row Hrow Ha. by apply H1, Ha; apply H2. Qed.
Lemma pairing_from_same s s' : pairing s' = pairing s -> pairing_from s s'.
Proof. intros H row Hrow _. by rewrite H in Hrow. Qed.

Definition is_approve (op : operation) : bool := match op with Approve _ _ => true | _ => false end.
Lemma perform_pairing_from op : is_approve op = false -> rel_m pairing_from (perform op).
Proof.
  assert (Hs : forall key rp rs, rel_m pairing_from (secret key rp rs)).
  { intros; unfold secret, value, set_value; st_rel; first [by apply pairing_from_same|by intros row Hrow%not_elem_of_nil]. }
  assert (Hd : forall id name key token now, rel_m pairing_from (insert_device id name key token now))
    by (intros; unfold insert_device, bind_u64; st_rel; by apply pairing_from_same).
  destruct op; intros Hop; try discriminate Hop; cbn [perform]; st_rel; try done; try apply Hs;
    unfold receive_event, acknowledge_alert, rotate_password, set_value, register, issue_device, claim, revoke, append, begin_request,
      finish_request, read_cursor, read_u64, insert_event, delete_events, bind_u64, bounds;
    st_rel; try apply Hd; try apply Hs; try (by apply pairing_from_same);
    try (by intros row [_ Hrow]%list_elem_of_filter _); try (by intros row Hrow%not_elem_of_nil).
  - unfold open_store. case_bool_decide; by apply pairing_from_same.
  - intros row [Hrow|Hrow%list_elem_of_singleton]%elem_of_app Ha; [done|by rewrite Hrow in Ha].
  - apply prune_journal_rel. intros. by apply pairing_from_same.
Qed.

Lemma filter_unique {A B} (f : A -> B) (p : A -> bool) l x c : NoDup (map f l) -> x ∈ l -> p x = true ->
  (forall y, p y = true -> f y = c) -> length (filter (fun y => p y = true) l) = 1%nat.
Proof.
  intros Hnd Hx Hp Hc. assert (Hf : NoDup (map f (filter (fun y => p y = true) l))) by (eapply NoDup_map_sublist; [apply sublist_filter|done]).
  assert (Hin : x ∈ filter (fun y => p y = true) l) by (by apply list_elem_of_filter).
  assert (Hall : forall y, y ∈ filter (fun y => p y = true) l -> f y = c) by (intros y [Hy _]%list_elem_of_filter; by apply Hc).
  destruct (filter _ l) as [|y [|z rest]]; [by apply not_elem_of_nil in Hin|done|]. exfalso. cbn in Hf. apply NoDup_cons in Hf as [Hy _].
  apply Hy. rewrite (Hall y), (Hall z) by set_solver. set_solver.
Qed.

Lemma approve_run code now s r s' row : pairing_ok (pairing s) -> perform (Approve code now) s = Some (r, s') ->
  row ∈ pairing s' -> approved row = true ->
  row ∈ pairing s \/ r = Ok tt /\ to_uppercase code = pairing_code row /\ (now < expires_at row)%Z.
Proof.
  intros [_ Hcodes _]. cbn [perform]. unfold approve, bind_u64. st_run. destruct (I64_MAX <? now)%Z; [by intros [= _ <-]; left|]. st_run.
  intros [= <- <-] (row0 & -> & Hrow)%list_elem_of_fmap Ha. destruct (matches_code _ now row0) eqn:Em; [|by left]. right. cbn.
  rewrite (filter_unique pairing_code _ _ row0 (to_uppercase code) Hcodes Hrow Em).
  - unfold matches_code in Em. by bool_split.
  - intros y Hy. unfold matches_code in Hy. by bool_split.
Qed.

Lemma approval_later s s' row : rtc step s s' -> approval s row -> approval s' row.
Proof. intros Hs (code & t & sa & sb & H1 & H2 & H3 & H4). exists code, t, sa, sb. do 2 (split; [done|]). split; [by etrans|done]. Qed.

Lemma approved_history s : reachable s -> forall row, row ∈ pairing s -> approved row = true -> approval s row.
Proof.
  revert s. refine (reachable_ind (fun s => _) _ _); [|intros s s' Hr Hstep IH]; intros row Hrow Ha; [by apply not_elem_of_nil in Hrow|].
  assert (Hone : rtc step s s') by (by apply rtc_once). destruct Hstep as (op & r & Hp). destruct (is_approve op) eqn:Eop.
  - destruct op; try discriminate Eop. pose proof (ok_pairing _ (reachable_ok s Hr)) as Hok.
    destruct (approve_run _ _ _ _ _ _ Hok Hp Hrow Ha) as [?|(-> & Hcode & Hnow)]; [eapply approval_later; [done|by apply IH]|].
    by exists code, now, s, s'.
  - eapply approval_later; [done|]. apply IH; [|done]. by eapply (perform_pairing_from op Eop).
Qed.

(** C17: every device in the store, in any history, got there by one of two ways: a
    registration that presented the connection password in force, or a claim, signed
    with the device's own key, of a pairing whose code was approved before it
    expired.  Its key and its token are those of that operation. *)
Theorem device_admission s d : reachable s -> d ∈ devices s ->
  exists op s0 r s1 d0, reachable s0 /\ perform op s0 = Some (r, s1) /\ rtc step s1 s /\ same_device d0 d /\ admission op s0 s1 d0 /\
    match op with
    | Claim id _ _ _ _ _ _ => exists row, row ∈ pairing s0 /\ pairing_id row = id /\ approval s0 row
    | _ => True
    end.
Proof.
  intros Hr. revert d. revert s Hr. refine (reachable_ind (fun s => _) _ _); [|intros s s' Hr Hstep IH]; intros d Hd; [by apply not_elem_of_nil in Hd|].
  assert (Hone : rtc step s s') by (by apply rtc_once). destruct Hstep as (op & r & Hp).
  destruct (perform_devices _ _ _ _ _ Hp Hd) as [(d0 & Hd0 & Hs)|Hadm].
  - destruct (IH d0 Hd0) as (op0 & s0 & r0 & s1 & d1 & H1 & H2 & H3 & H4 & H5 & H6).
    exists op0, s0, r0, s1, d1. do 2 (split; [done|]). split; [by etrans|]. split; [by etrans|]. done.
  - exists op, s, r, s', d. do 5 (split; [done|]). destruct op; try done. destruct Hadm as (_ & _ & row & Hrow & Hid & Ha & _).
    exists row. do 2 (split; [done|]). by apply approved_history.
Qed.

(** Rotating the password closes every way in that was open: registrations with
    another password are refused, no earlier code can be approved or claimed, and
    devices in the table keep their access. *)
Theorem rotation_closes random_password s s1 : rotate_password random_password s = Some (Ok tt, s1) ->
  is_ok (decode_password random_password) = true ->
  (forall auth nonce fingerprint, admits s1 auth nonce fingerprint <-> admits s auth nonce fingerprint) /\
  (forall request fingerprint nonce uuid rp rs now later password,
     reg_connection_password request = Some password -> password <> random_password ->
     exists e, register request fingerprint nonce uuid rp rs now later s1 = Some (Err e, s1)) /\
  (forall code now, exists e, approve code now s1 = Some (Err e, s1)) /\
  (forall id nonce fingerprint signature now rs later, exists e, claim id nonce fingerprint signature now rs later s1 = Some (Err e, s1)).
Proof.
  unfold rotate_password, set_value. st_run. intros [= <-] Hpw. split; [done|]. split; [|split].
  - intros request fingerprint nonce uuid rp rs now later password Hreq Hne. unfold register. st_run.
    destruct (decode32 _); [|by eexists]. st_run. destruct (is_blank _ || _); [by eexists|]. st_run. rewrite Hreq.
    fold PASSWORD. rewrite run_bind, (secret_valid random_password) by (done || apply lookup_insert_eq). cbv beta iota. st_run.
    destruct (constant_equal password random_password) eqn:Ec; [by apply constant_equal_spec in Ec|]. by eexists.
  - intros code now. unfold approve, bind_u64. st_run. destruct (I64_MAX <? now)%Z; [by eexists|]. st_run. by eexists.
  - intros id nonce fingerprint signature now rs later. unfold claim, bind_u64. st_run. destruct (I64_MAX <? now)%Z; [by eexists|]. st_run. by eexists.
Qed.
End store.

(** ** Witnesses: a device registers with the password *)
Import Concrete.

Definition register_phone : operation :=
  Register (sample_registration (Some sample_password)) "fp" "nonce" "device-1" sample_password "token" 10 10.
Definition after {A} (m : ST Store RemoteError A) (s : Store) : Store := match m s with Some (_, s) => s | None => s end.
Definition with_phone : Store := after (perform register_phone) empty_store.
Lemma with_phone_reachable : reachable with_phone.
Proof. apply rtc_once. exists register_phone, (Ok tt). vm_compute. reflexivity. Qed.

Lemma store_invariant_witness : store_ok with_phone /\
  exists r s', perform (Append "s" sample_message 20) with_phone = Some (r, s') /\ reachable s'.
Proof. exact (store_invariant with_phone (Append "s" sample_message 20) with_phone_reachable). Defined.

Lemma revocation_is_final_witness :
  revoke "device-1" with_phone = Some (Ok tt, after (revoke "device-1") with_phone) /\
  authenticate (sample_authentication "n" "fp") "n" "fp" with_phone = Some (Ok tt, with_phone) /\
  authenticate (sample_authentication "n" "fp") "n" "fp" (after (revoke "device-1") with_phone)
    = Some (Err Unauthorized, after (revoke "device-1") with_phone).
Proof.
  assert (Hr : revoke "device-1" with_phone = Some (Ok tt, after (revoke "device-1") with_phone)) by (vm_compute; reflexivity).
  split; [exact Hr|]. split; [vm_compute; reflexivity|].
  destruct (revocation_is_final "device-1" with_phone _ _ with_phone_reachable Hr (rtc_refl _ _)) as [_ H]. by apply H.
Defined.

Definition phone_row : DeviceRow := mkDeviceRow "device-1" "phone" sample_key (digest "token") 10 false.
Lemma device_admission_witness : exists op s0 r s1 d0, perform op s0 = Some (r, s1) /\ same_device d0 phone_row /\ admission op s0 s1 d0.
Proof.
  destruct (device_admission with_phone phone_row with_phone_reachable) as (op & s0 & r & s1 & d0 & _ & H1 & _ & H2 & H3 & _).
  - replace (devices with_phone) with [phone_row] by (vm_compute; reflexivity). apply list_elem_of_here.
  - by exists op, s0, r, s1, d0.
Defined.

Lemma rotation_closes_witness :
  (exists e, register (sample_registration (Some sample_password)) "fp" "nonce" "device-2" [] "t" 10 10
     (after (rotate_password other_password) with_phone) = Some (Err e, after (rotate_password other_password) with_phone)) /\
  admits (after (rotate_password other_password) with_phone) (sample_authentication "n" "fp") "n" "fp".
Proof.
  destruct (rotation_closes other_password with_phone (after (rotate_password other_password) with_phone)) as (H1 & H2 & _).
  - vm_compute. reflexivity.
  - vm_compute. reflexivity.
  - split; [apply (H2 (sample_registration (Some sample_password)) "fp" "nonce" "device-2" [] "t" 10%Z 10%Z sample_password); [reflexivity|]|].
    + vm_compute. intros H. discriminate H.
    + apply H1. exists phone_row. split; [|vm_compute; repeat split; reflexivity].
      replace (devices with_phone) with [phone_row] by (vm_compute; reflexivity). apply list_elem_of_here.
Defined.
End StoreAdmission.
