(* ===== verification/Gateway.v ===== *)
(** * The gateway of a remote host ([codex-start-host/src/remote/server.rs], [state.rs])

    One connection as a state machine over its messages, requests that are recorded
    in the store, the subscription that replays the journal, and the invitation a
    host gives out.  The operations behind the gateway (projects, sessions, files,
    terminals) are an interface; the transport and its limits are left out. *)

From S2P Require Export StoreAdmission HostError.

Module Gateway.
Import Json Crypto Invitation Protocol Store HostError.

(** ** Messages *)

Record Discovery := mkDiscovery {
  protocol_version : Z;
  daemon_id : str;
  host_name : str;
  host_fingerprint : str;
  capabilities : list str }.

Inductive ClientMessage :=
  | Authenticate (auth : Authentication)
  | Request (id method : str) (params : Value)
  | Subscribe (after : Z)
  | Ping.

Inductive ServerMessage :=
  | Challenge (nonce fingerprint : str) (discovery : Discovery)
  | Authenticated (device_id : str)
  | Response (id : str) (result : Value)
  | ErrorMessage (id : option str) (code message : str)
  | EventMessage (event : Event)
  | Reset (oldest latest : Z)
  | Pong.

(** [serde_json::to_value] of a record: its entries in key order. *)
Definition option_value {A} (f : A -> Value) (o : option A) : Value := match o with Some a => f a | None => Null end.
Definition result_to_value (r : RegistrationResult) : Value :=
  Object [("code" : str, option_value String (result_code r)); ("deviceId" : str, String (result_device_id r));
    ("eventCursor" : str, PosInt (result_event_cursor r)); ("expiresAt" : str, option_value PosInt (result_expires_at r));
    ("token" : str, option_value String (result_token r))].
Definition device_to_value (d : DeviceRow) : Value :=
  Object [("createdAt" : str, PosInt (device_created d)); ("id" : str, String (device_id d)); ("name" : str, String (device_name d));
    ("publicKey" : str, String (device_key d)); ("revoked" : str, Bool (revoked d))].

Definition error_text (e : RemoteError) : str :=
  match e with
  | Invalid message => message
  | Unauthorized => "device authentication failed"
  | Storage error => "storage error: " ++ error
  | Crypto.Json error => "invalid protocol message: " ++ error
  | IoError error => "I/O error: " ++ error
  end.
(** [error] *)
Definition error (message : str) : HostError := Runtime message.

(** [serde_json::from_value::<Registration>], and everything behind the gateway:
    its own state and operations, which may use the store. *)
Class Backends := {
  registration_from_value : Value -> result str Registration;
  World : Type;
  backend : str -> str -> Value -> ST (Store * World) HostError Value }.

(** What the generators of random values and the clock give, in the order of use. *)
Record Draws := mkDraws { uuid : str; random_password : str; random_secret : str; now : Z; later : Z }.

Section gateway.
Context {E : Encodings} {HS : Sha256} {K : Ed25519} {SJ : SerdeJson} {EJ : EventJson} {SQ : SqliteJson} {U : Uppercase}.
Context {DO : DebugOsString} {B : Backends}.

Notation G := (ST (Store * World) HostError).

(** [State::db] *)
Definition db {A} (m : ST Store RemoteError A) : G A := fun g =>
  match m g.1 with
  | Some (r, s) => Some (map_err (fun e => error (error_text e)) r, (s, g.2))
  | None => None
  end.

(** [State::publish] *)
Definition publish (session : str) (message : Value) (now : Z) : G unit := db (append session message now) ;; mret tt.

(** ** Requests *)

Definition object (entries : list (str * Value)) : Value := Object entries.
Definition starts_with_any (prefixes : list str) (s : str) : bool := existsb (fun p => starts_with p s) prefixes.
Definition one_of (methods : list string) (method : str) : bool :=
  existsb (fun m => bool_decide (list_ascii_of_string m = method)) methods.

(** The operations of other parts of the host. *)
Definition backend_methods : list string :=
  ["launcher/list"; "launcher/read"; "launcher/write"; "project/list"; "history/list"; "project/add"; "project/createWork";
   "project/open"; "directory/list"; "transport/peers"; "session/list"; "task/active/list"; "session/create"; "session/stop";
   "session/restart"; "session/logs"; "codex/rpc"; "codex/reply"; "workspace/diff"; "transport/status"]%string.

Definition dispatch (device method : str) (params : Value) (draws : Draws) : G Value :=
  if starts_with "file/" method then backend device method params
  else if one_of backend_methods method then backend device method params
  else if bool_decide (method = "device/list") then
    devices ← db list_devices; mret (object [("data" : str, Array (map device_to_value devices))])
  else if bool_decide (method = "device/revoke") then
    db (revoke (default [] (as_str (index params "deviceId")))) ;; mret (object [])
  else if bool_decide (method = "connectionPassword/rotate") then
    db (rotate_password (random_password draws)) ;; mret (object [])
  else throw (error "unsupported gateway method").

(** Snapshot reads, which are not recorded. *)
Definition snapshot_methods : list string :=
  ["file/download/chunk"; "file/status"; "session/list"; "task/active/list"; "device/list"; "project/list"; "history/list";
   "directory/list"; "transport/peers"; "launcher/list"; "launcher/read"]%string.

Definition decode_outcome (outcome : Value) : result HostError Value :=
  if is_str (index outcome "status") "completed" then Ok (index outcome "value")
  else Err (error (default ("delivery unknown" : str) (as_str (index outcome "message")))).

Definition outcome_value (r : result HostError Value) : Value :=
  match r with
  | Ok value => object [("status" : str, String "completed"); ("value" : str, value)]
  | Err failure => object [("message" : str, String (to_string failure)); ("status" : str, String "failed")]
  end.
Definition recorded_value (method : str) (outcome : Value) : Value :=
  if bool_decide (method = "launcher/write") && is_str (index outcome "status") "failed"
  then object [("message" : str, String "Settings could not be saved. Reload them before retrying."); ("status" : str, String "failed")]
  else outcome.
Definition request_payload (method : str) (params : Value) : Value :=
  object [("method" : str, String method); ("params" : str, params)].

Definition notification (method : str) : option str :=
  if one_of ["project/add"; "project/open"; "project/createWork"]%string method then Some ("project/changed" : str)
  else if one_of ["session/create"; "session/stop"; "session/restart"]%string method then Some ("session/changed" : str)
  else if bool_decide (method = "device/revoke") then Some ("device/changed" : str)
  else if bool_decide (method = "connectionPassword/rotate") then Some ("connectionPassword/changed" : str)
  else if bool_decide (method = "launcher/write") then Some ("launcher/changed" : str)
  else None.

Definition dispatch_recorded (device id method : str) (params : Value) (draws : Draws) : G Value :=
  allowed ← db (active device);
  throw_if (negb allowed) (error "device was revoked") ;;
  if starts_with "terminal/" method then backend device method params
  else if one_of snapshot_methods method then dispatch device method params draws
  else
    prior ← db (begin_request device id (request_payload method params));
    match prior with
    | Some result => lift (decode_outcome result)
    | None =>
        r ← attempt (dispatch device method params draws);
        let outcome := outcome_value r in
        db (finish_request device id (recorded_value method outcome)) ;;
        (if is_str (index outcome "status") "completed" then
           match notification method with
           | Some n => attempt (publish [] (object [("method" : str, String n); ("params" : str, object [])]) (now draws)) ;; mret tt
           | None => mret tt
           end
         else mret tt) ;;
        lift (decode_outcome outcome)
    end.

(** ** One connection *)

(** The state of [connection] between messages. *)
Record Session := mkSession {
  challenge : str;
  server_fingerprint : str;
  session_device : option str;
  registration_attempts : Z }.

(** What the handler does with a message: it closes the connection, answers, or
    starts a task for a request or a subscription. *)
Inductive Reaction :=
  | Close
  | Reply (message : ServerMessage)
  | SpawnRequest (device id method : str) (params : Value)
  | SpawnSubscription (device : str) (after : Z).

(** Registration, before a device is known. *)
Definition registration_request (session : Session) (method : str) (params : Value) (draws : Draws) : Session * G Value :=
  if bool_decide (method = "device/register") && (registration_attempts session <? 5)%Z then
    (mkSession (challenge session) (server_fingerprint session) (session_device session) (registration_attempts session + 1),
     request ← lift (map_err error (registration_from_value params));
     value ← db (register request (server_fingerprint session) (challenge session) (uuid draws) (random_password draws)
       (random_secret draws) (now draws) (later draws));
     mret (result_to_value value))
  else if bool_decide (method = "device/claim") then
    (session,
     value ← db (claim (default [] (as_str (index params "deviceId"))) (challenge session) (server_fingerprint session)
       (default [] (as_str (index params "signature"))) (now draws) (random_secret draws) (later draws));
     mret (option_value result_to_value value))
  else (session, throw (error "device authentication required")).

Definition on_message (session : Session) (message : ClientMessage) (slot_free : bool) (draws : Draws) : G (Session * Reaction) :=
  match message with
  | Authenticate auth =>
      if bool_decide (is_Some (session_device session)) then mret (session, Close)
      else
        r ← attempt (db (authenticate auth (challenge session) (server_fingerprint session)));
        if is_ok r then
          mret (mkSession (challenge session) (server_fingerprint session) (Some (auth_device_id auth)) (registration_attempts session),
                Reply (Authenticated (auth_device_id auth)))
        else mret (session, Close)
  | Request id method params =>
      match session_device session with
      | None =>
          let '(session, m) := registration_request session method params draws in
          result ← attempt m;
          mret (session, Reply (match result with
                                | Ok result => Response id result
                                | Err e => ErrorMessage (Some id) "registrationFailed" (to_string e)
                                end))
      | Some device =>
          if negb slot_free then
            mret (session, Reply (ErrorMessage (Some id) "overloaded" "too many requests; retry later"))
          else mret (session, SpawnRequest device id method params)
      end
  | Subscribe after =>
      match session_device session with
      | None => mret (session, Close)
      | Some device => mret (session, SpawnSubscription device after)
      end
  | Ping => mret (session, Reply Pong)
  end.

(** The check each second: [false] closes the connection. *)
Definition on_tick (session : Session) (elapsed_seconds : Z) : G bool :=
  match session_device session with
  | Some device => r ← attempt (db (active device)); mret (match r with Ok b => b | Err _ => false end)
  | None => mret (elapsed_seconds <=? 600)%Z
  end.

(** The task of a request: its answer. *)
Definition request_task (device id method : str) (params : Value) (draws : Draws) : G ServerMessage :=
  result ← attempt (dispatch_recorded device id method params draws);
  mret (match result with
        | Ok result => Response id result
        | Err e => ErrorMessage (Some id) "requestFailed" (to_string e)
        end).

(** ** Subscriptions *)

(** One turn of [subscribe]: [None] ends it; else the messages it sends, the cursor
    it goes on with, and whether it waits for a new event first. *)
Definition subscribe_turn (device : str) (after : Z) : ST Store RemoteError (option (list ServerMessage * Z * bool)) :=
  r ← attempt (active device);
  if negb (match r with Ok b => b | Err _ => false end) then mret None
  else
    r ← attempt bounds;
    match r with
    | Err _ => mret None
    | Ok (oldest, latest) =>
        let '(reset, after) :=
          if (latest <? after)%Z || ((0 <? after)%Z && (Z.min (after + 1) U64_MAX <? oldest)%Z)
          then ([Reset oldest latest], Z.max 0 (oldest - 1)) else ([], after) in
        r ← attempt (list_events after 16);
        match r with
        | Err _ => mret None
        | Ok page =>
            if nonempty page
            then mret (Some (reset ++ map EventMessage page, default after (sequence <$> last page), false))
            else mret (Some (reset, after, true))
        end
    end.

(** ** Identity and invitations ([State::open], [State::invitation]) *)

Record DaemonOptions := mkDaemonOptions {
  bind : Allowlist.SocketAddr;
  no_yggdrasil : bool;
  advertise_host : option str }.

(** The part of [State::open] that prepares the store: an identifier and the secrets. *)
Definition open_state (new_id password yggdrasil group : str) : ST Store RemoteError str :=
  modify open_store ;;
  id ← value "daemon_id";
  id ← match id with
       | Some id => mret id
       | None => set_value "daemon_id" new_id ;; mret new_id
       end;
  secret "connection_password" password [] ;;
  secret "yggdrasil_key" [] yggdrasil ;;
  secret "group_password" group [] ;;
  mret id.

Definition is_unspecified (ip : IpAddr.IpAddr) : bool :=
  match ip with
  | IpAddr.V4 octets => bool_decide (octets = [0; 0; 0; 0]%Z)
  | IpAddr.V6 segments => bool_decide (segments = [0; 0; 0; 0; 0; 0; 0; 0]%Z)
  end.

Definition or_else {A} (a b : option A) : option A := match a with Some _ => a | None => b end.
Definition invitation (options : DaemonOptions) (fingerprint : str) (host : option str) (password yggdrasil group : str) : G Invitation :=
  connection ←
    (if no_yggdrasil options then
       host ← lift (ok_or
         (or_else (or_else host (advertise_host options))
           (if negb (is_unspecified (Allowlist.socket_ip (bind options)))
            then Some (Allowlist.ip_to_string (Allowlist.socket_ip (bind options))) else None))
         (error "direct QR needs --host HOST or daemon --advertise-host HOST"));
       mret (Direct host (Allowlist.socket_port (bind options)))
     else
       public_key ← db (key ← secret "yggdrasil_key" [] yggdrasil; lift (Crypto.public_key key));
       group_password ← db (secret "group_password" group []);
       mret (Yggdrasil public_key group_password (Allowlist.socket_port (bind options))));
  connection_password ← db (secret "connection_password" password []);
  mret (mkInvitation PROTOCOL_VERSION connection connection_password
    (if no_yggdrasil options then Some fingerprint else None)).

(** ** Local control ([admin_loop]) *)

(** The answer to one request on the control socket, and whether it stops the host.
    [status] is the state of the overlay and the identity of the host. *)
Definition admin_request (options : DaemonOptions) (fingerprint : str) (status : Value) (request : Value)
    (draws : Draws) (password yggdrasil group : str) : G (Value * bool) :=
  let method := default [] (as_str (index request "method")) in
  result ← attempt (
    if bool_decide (method = "status") then mret status
    else if bool_decide (method = "stop") then mret (object [("status" : str, String "stopping")])
    else if bool_decide (method = "invitation") then
      i ← invitation options fingerprint (as_str (index request "host")) password yggdrasil group;
      uri ← lift (map_err (fun e => error (error_text e)) (encode i));
      mret (object [("uri" : str, String uri)])
    else if bool_decide (method = "approve") then
      db (approve (default [] (as_str (index request "code"))) (now draws)) ;; mret (object [("approved" : str, Bool true)])
    else if bool_decide (method = "devices") then
      devices ← db list_devices; mret (object [("data" : str, Array (map device_to_value devices))])
    else if bool_decide (method = "revoke") then
      db (revoke (default [] (as_str (index request "id")))) ;; mret (object [("revoked" : str, Bool true)])
    else if bool_decide (method = "rotate") then
      db (rotate_password (random_password draws)) ;; mret (object [("rotated" : str, Bool true)])
    else throw (error "unknown local control method"));
  mret (match result with Ok v => v | Err e => object [("error" : str, String (to_string e))] end,
        is_str (index request "method") "stop").
End gateway.
End Gateway.
