(* ===== verification/GatewayFacts.v ===== *)
(** * What the gateway guarantees

    Requests run once and are answered again from the record, a connection acts only
    for a device that proved itself on it, an invitation lets a new device in, and a
    subscription delivers the journal. *)

From S2P Require Export Gateway.

Module GatewayFacts.
Import Json Crypto Invitation Protocol Store StoreJournal StoreDevices StoreAdmission HostError Gateway.

Section store.
Context {E : Encodings} {HS : Sha256} {K : Ed25519} {SJ : SerdeJson} {EJ : EventJson} {SQ : SqliteJson} {U : Uppercase}.

(** ** Requests, in any interleaving *)

(** Recorded requests are never forgotten, and keep their payload. *)
Definition requests_le (s s' : Store) : Prop :=
  forall k hash outcome, requests s !! k = Some (hash, outcome) -> exists outcome', requests s' !! k = Some (hash, outcome').
#[local] Instance requests_le_preorder : PreOrder requests_le.
Proof.
  split; [by intros s k h o Hk; exists o|]. intros s s' s'' H1 H2 k h o Hk. apply H1 in Hk as (o' & Hk). by apply H2 in Hk.
Qed.
Lemma requests_le_same s s' : requests s' = requests s -> requests_le s s'.
Proof. intros H k h o Hk. rewrite H. by exists o. Qed.

(** What the first half of a recorded request does. *)
Lemma begin_request_run device id payload s : begin_request device id payload s = Some
  match requests s !! (device, id) with
  | Some (prior, outcome) =>
      (if negb (bool_decide (prior = digest (to_json payload))) then Err (Invalid "request ID reused with different content")
       else match outcome with
            | Some value => Some <$> map_err Crypto.Json (from_json value)
            | None => Err (Invalid "delivery unknown; inspect task state before retrying")
            end, s)
  | None => (Ok None, set_requests <[(device, id) := (digest (to_json payload), None)]> s)
  end.
Proof.
  unfold begin_request. st_run. destruct (requests s !! (device, id)) as [[prior outcome]|]; [|by st_run]. st_run.
  destruct (bool_decide _); [|done]. cbn [negb]. by destruct outcome; st_run.
Qed.

Lemma begin_request_le device id payload : rel_m requests_le (begin_request device id payload).
Proof.
  intros s r s'. rewrite begin_request_run. destruct (requests s !! (device, id)) as [[prior outcome]|] eqn:Ek; intros [= _ <-]; [done|].
  intros k h o Hk. cbn. destruct (decide (k = (device, id))) as [->|Hne]; [by rewrite Hk in Ek|]. rewrite lookup_insert_ne by done. by exists o.
Qed.

Lemma perform_requests_le op : rel_m requests_le (perform op).
Proof.
  assert (Hs : forall key rp rs, rel_m requests_le (secret key rp rs)) by (intros; unfold secret, value, set_value; st_rel; by apply requests_le_same).
  assert (Hd : forall id name key token now, rel_m requests_le (insert_device id name key token now))
    by (intros; unfold insert_device, bind_u64; st_rel; by apply requests_le_same).
  destruct op; cbn [perform]; try (apply (rel_bind requests_le); [apply begin_request_le|intros ?; st_rel]);
    st_rel; try done; try apply Hs;
    unfold receive_event, acknowledge_alert, rotate_password, set_value, register, issue_device, approve, claim, revoke, append,
      finish_request, read_cursor, read_u64, insert_event, delete_events, bind_u64, bounds;
    st_rel; try apply Hd; try apply Hs; try (by apply requests_le_same).
  - unfold open_store. case_bool_decide; by apply requests_le_same.
  - apply prune_journal_rel. intros. by apply requests_le_same.
  - intros k h o Hk. cbn. destruct (decide (k = (device, id))) as [->|Hne].
    + rewrite lookup_alter, decide_True by done. rewrite Hk. by eexists.
    + rewrite lookup_alter_ne by done. by exists o.
Qed.

(** The store with the calls of [dispatch] that recorded requests have caused: such
    a call is made exactly when [begin_request] answers that the request is new.
    Everything else the tasks of a host do to the store happens in between. *)
Inductive task_step : Store * list (str * str) -> Store * list (str * str) -> Prop :=
  | task_new device id payload s s' calls :
      begin_request device id payload s = Some (Ok None, s') -> task_step (s, calls) (s', calls ++ [(device, id)])
  | task_known device id payload s r s' calls :
      begin_request device id payload s = Some (r, s') -> r <> Ok None -> task_step (s, calls) (s', calls)
  | task_other op s r s' calls :
      (forall device id payload, op <> BeginRequest device id payload) -> perform op s = Some (r, s') -> task_step (s, calls) (s', calls).


(** ** The answer of a request *)

Context {DO : DebugOsString} {B : Backends}.

Lemma run_db {A} (m : ST Store RemoteError A) s w : db m (s, w) =
  match m s with Some (r, s') => Some (map_err (fun e => error (error_text e)) r, (s', w)) | None => None end.
Proof. done. Qed.

(** The backends leave the record of requests alone. *)
Definition backend_keeps_requests : Prop := forall device method params,
  rel_m (fun g g' => requests g.1 = requests g'.1) (backend device method params).

#[local] Instance same_requests_preorder : PreOrder (fun g g' : Store * World => requests g.1 = requests g'.1).
Proof. split; [done|]. intros ? ? ?. congruence. Qed.
Lemma rel_db (R : Store -> Store -> Prop) {A} (m : ST Store RemoteError A) :
  rel_m R m -> rel_m (fun g g' => R g.1 g'.1) (db (B:=B) m).
Proof. intros Hm [s w] r [s' w']. rewrite run_db. destruct (m s) as [[r1 s1]|] eqn:Em; [|done]. intros [= _ <- _]. by eapply Hm. Qed.

#[local] Instance same_requests_store : PreOrder (fun s s' : Store => requests s = requests s').
Proof. split; [done|]. intros ? ? ?. congruence. Qed.
Lemma append_requests session message now : rel_m (fun s s' => requests s = requests s') (append session message now).
Proof.
  unfold append, insert_event, delete_events, bind_u64. st_rel. by apply prune_journal_rel.
Qed.
Lemma publish_requests session message now : rel_m (fun g g' => requests g.1 = requests g'.1) (publish session message now).
Proof.
  unfold publish. apply (rel_bind (fun g g' : Store * World => requests g.1 = requests g'.1)).
  - apply (rel_db (fun s s' => requests s = requests s')), append_requests.
  - intros _. st_rel.
Qed.
Lemma dispatch_requests device method params draws : backend_keeps_requests ->
  rel_m (fun g g' => requests g.1 = requests g'.1) (dispatch device method params draws).
Proof.
  intros Hb. unfold dispatch. st_rel; try apply Hb; apply (rel_db (fun s s' => requests s = requests s')).
  - unfold list_devices. st_rel.
  - unfold revoke. st_rel.
  - unfold rotate_password, set_value. st_rel.
Qed.

Lemma active_run device s : exists b, active device s = Some (Ok b, s).
Proof. unfold active. st_run. by eexists. Qed.

Definition recorded_method (method : str) : bool := negb (starts_with "terminal/" method) && negb (one_of snapshot_methods method).

(** A recorded request, with its record as the store had it. *)
Lemma dispatch_recorded_run device id method params draws s w :
  recorded_method method = true -> active device s = Some (Ok true, s) ->
  dispatch_recorded device id method params draws (s, w) =
  match requests s !! (device, id) with
  | Some (prior, outcome) =>
      Some (match begin_request device id (request_payload method params) s with
            | Some (Ok (Some result), _) => decode_outcome result
            | Some (Err e, _) => Err (error (error_text e))
            | _ => Ok Null
            end, (s, w))
  | None =>
      match dispatch device method params draws
        (set_requests <[(device, id) := (digest (to_json (request_payload method params)), None)]> s, w) with
      | Some (r, g) =>
          let outcome := outcome_value r in
          let g := (set_requests (alter (fun '(hash, _) => (hash, Some (to_json (recorded_value method outcome)))) (device, id)) g.1, g.2) in
          match (if is_str (index outcome "status") "completed" then notification method else None) with
          | Some n =>
              match publish [] (object [("method" : str, String n); ("params" : str, object [])]) (now draws) g with
              | Some (_, g) => Some (decode_outcome outcome, g)
              | None => None
              end
          | None => Some (decode_outcome outcome, g)
          end
      | None => None
      end
  end.
Proof.
  intros Hm Hact. unfold recorded_method in Hm. bool_split. unfold dispatch_recorded.
  rewrite run_bind, run_db, Hact. cbn [map_err]. rewrite run_bind, run_throw_if. cbn [negb]. rewrite H, H0.
  rewrite run_bind, run_db, begin_request_run. destruct (requests s !! (device, id)) as [[prior outcome]|] eqn:Ek.
  - destruct (negb _); [done|]. destruct outcome as [v|]; [|done]. by destruct (from_json v).
  - cbn [map_err]. rewrite run_bind. unfold attempt at 1. destruct (dispatch _ _ _ _ _) as [[r [s1 w1]]|]; [|done].
    cbv beta iota zeta. rewrite run_bind, run_db. unfold finish_request. rewrite run_modify. cbv beta iota. cbn [map_err fst snd].
    rewrite run_bind. destruct (is_str _ "completed"); [|done]. destruct (notification method) as [n|]; [|done].
    rewrite run_bind. unfold attempt. by destruct (publish _ _ _ _) as [[r1 g1]|].
Qed.

(** An answer whose text reads back: not too deep, without floats, in UTF-8. *)
Definition readable (r : result HostError Value) : Prop :=
  match r with
  | Ok v => plain (pred MAX_DEPTH) v = true
  | Err (Runtime message) => utf8_valid message = true
  | Err _ => False
  end.
Lemma plain_object depth entries :
  plain (S depth) (Object entries) = sorted_keys entries && forallb (fun kv => utf8_valid kv.1 && plain depth kv.2) entries.
Proof. done. Qed.
Lemma recorded_plain method rd : readable (decode_outcome (outcome_value rd)) ->
  plain MAX_DEPTH (recorded_value method (outcome_value rd)) = true.
Proof.
  unfold recorded_value. destruct (bool_decide _ && _); [by intros _; vm_compute|].
  destruct rd as [v|e]; cbn [outcome_value]; intros H.
  - change (plain (pred MAX_DEPTH) v = true) in H. change MAX_DEPTH with (S (pred MAX_DEPTH)). unfold object. rewrite plain_object. cbn [forallb snd fst]. by rewrite H.
  - change (utf8_valid (to_string e) = true) in H. change MAX_DEPTH with (S (S 125)). unfold object. rewrite plain_object.
    cbn [forallb snd fst]. change (plain (S 125) (String (to_string e))) with (utf8_valid (to_string e)). by rewrite H.
Qed.

(** After a request was carried out, the same request under the same identifier
    is answered from its record, with nothing done again: with the same answer (the
    failure of a settings file is kept without its detail); and another request under
    that identifier is refused. *)
Theorem request_answered_again device id method params draws s w r s1 w1 s2 w2 draws2 :
  backend_keeps_requests -> recorded_method method = true -> active device s = Some (Ok true, s) ->
  requests s !! (device, id) = None ->
  dispatch_recorded device id method params draws (s, w) = Some (r, (s1, w1)) ->
  active device s2 = Some (Ok true, s2) -> requests s2 !! (device, id) = requests s1 !! (device, id) ->
  SerdeJsonLaws SJ -> readable r ->
  exists r2, dispatch_recorded device id method params draws2 (s2, w2) = Some (r2, (s2, w2)) /\
    (r2 = r \/ method = "launcher/write" /\ is_ok r = false /\
       r2 = Err (error "Settings could not be saved. Reload them before retrying.")) /\
    forall method' params', recorded_method method' = true ->
      digest (to_json (request_payload method' params')) <> digest (to_json (request_payload method params)) ->
      dispatch_recorded device id method' params' draws2 (s2, w2) =
        Some (Err (error "request ID reused with different content"), (s2, w2)).
Proof.
  intros Hb Hm Hact Hnew Hrun Hact2 Hsame Hjson Hread. rewrite dispatch_recorded_run in Hrun by done. rewrite Hnew in Hrun.
  destruct (dispatch _ _ _ _ _) as [[rd [sd wd]]|] eqn:Ed; [|done]. cbn [fst snd] in Hrun.
  apply dispatch_requests in Ed; [|done]. cbn in Ed.
  set (outcome := outcome_value rd) in *. set (recorded := recorded_value method outcome) in *.
  set (hash := digest (to_json (request_payload method params))) in *.
  assert (Hrec : requests s1 !! (device, id) = Some (hash, Some (to_json recorded)) /\ r = decode_outcome outcome).
  { assert (Hg : requests (set_requests (alter (fun '(hash, _) => (hash, Some (to_json recorded))) (device, id)) sd) !! (device, id)
      = Some (hash, Some (to_json recorded))) by (cbn; by rewrite lookup_alter, decide_True, <- Ed, lookup_insert_eq by done).
    destruct (if is_str _ "completed" then notification method else None) as [n|]; [|by injection Hrun as <- <- <-].
    destruct (publish _ _ _ _) as [[rp gp]|] eqn:Ep; [|done]. apply publish_requests in Ep. cbn in Ep. injection Hrun as <- ->. cbn in Ep.
    by rewrite <- Ep. }
  destruct Hrec as [Hrec ->]. rewrite Hrec in Hsame.
  exists (decode_outcome recorded). split; [|split].
  - rewrite dispatch_recorded_run by done. rewrite Hsame, begin_request_run, Hsame. fold hash. rewrite bool_decide_eq_true_2 by done.
    cbn [negb]. rewrite json_round; [done|]. by apply recorded_plain.
  - unfold recorded, recorded_value. destruct (bool_decide (method = "launcher/write")) eqn:El; cbn [andb]; [|by left]. bool_split.
    destruct (is_str (index outcome "status") "failed") eqn:Es; [|by left]. right. split; [done|]. split; [|reflexivity].
    unfold decode_outcome, outcome in *. by destruct rd.
  - intros method' params' Hm' Hne. rewrite dispatch_recorded_run by done. rewrite Hsame, begin_request_run, Hsame.
    rewrite bool_decide_eq_false_2 by (intros He; by apply Hne). done.
Qed.

(** ** One connection *)

Lemma perform_step op s r s' : perform op s = Some (r, s') -> rtc step s s'.
Proof. intros Hp. apply rtc_once. by exists op, r. Qed.

(** Registration and claims. *)
Definition enrolls (op : operation) : bool := negb (admits_nobody op).
Definition enrolled (s s' : Store) : Prop := s' = s \/ exists op r, enrolls op = true /\ perform op s = Some (r, s').
Lemma enrolled_steps s s' : enrolled s s' -> rtc step s s'.
Proof. intros [->|(op & r & _ & Hp)]; [done|]. by eapply perform_step. Qed.

Lemma enrolled_by op s r s' : enrolls op = true -> perform op s = Some (r, s') -> enrolled s s'.
Proof. right. by exists op, r. Qed.

(** Registration moves the store by an operation of its own, and nothing else. *)
Lemma registration_request_run session method params draws session' m s w r s' w' :
  registration_request session method params draws = (session', m) -> m (s, w) = Some (r, (s', w')) ->
  enrolled s s' /\ w' = w /\ challenge session' = challenge session /\ server_fingerprint session' = server_fingerprint session /\
  session_device session' = session_device session /\
  (registration_attempts session <= 5 -> registration_attempts session' <= 5)%Z.
Proof.
  unfold registration_request. destruct (bool_decide (method = "device/register") && _) eqn:Er; [|destruct (bool_decide (method = "device/claim"))];
    intros [= <- <-]; cbn [challenge server_fingerprint session_device registration_attempts].
  - bool_split. st_run. destruct (registration_from_value params) as [request|e]; cbn [map_err]; [|intros [= _ <- <-]; split; [by left|repeat split; (done || lia)]].
    st_run. rewrite run_db. intros Hm. assert (Hs : enrolled s s' /\ w' = w); [|destruct Hs; split; [done|repeat split; (done || lia)]].
    pose proof (enrolled_by (Register request (server_fingerprint session) (challenge session) (uuid draws) (random_password draws)
       (random_secret draws) (now draws) (later draws)) s) as Hp. specialize (fun r s' => Hp r s' eq_refl) as Hp. cbn [perform] in Hp. rewrite run_bind in Hp.
    destruct (register _ _ _ _ _ _ _ _ s) as [[[v|e] s1]|]; [| |done]; st_run; cbn [map_err] in Hm; injection Hm as _ <- <-; (split; [|done]); by eapply Hp.
  - st_run. rewrite run_db. intros Hm. assert (Hs : enrolled s s' /\ w' = w); [|destruct Hs; split; [done|repeat split; (done || lia)]].
    pose proof (enrolled_by (Claim (default [] (as_str (index params "deviceId"))) (challenge session) (server_fingerprint session)
       (default [] (as_str (index params "signature"))) (now draws) (random_secret draws) (later draws)) s) as Hp. specialize (fun r s' => Hp r s' eq_refl) as Hp. cbn [perform] in Hp. rewrite run_bind in Hp.
    destruct (claim _ _ _ _ _ _ _ s) as [[[v|e] s1]|]; [| |done]; st_run; cbn [map_err] in Hm; injection Hm as _ <- <-; (split; [|done]); by eapply Hp.
  - intros [= _ <- <-]. split; [by left|repeat split; (done || lia)].
Qed.

(** The device of a connection proved itself to the challenge of that connection. *)
Definition proved (nonce fingerprint : str) (s : Store) (device : str) : Prop := exists s0 auth,
  reachable s0 /\ rtc step s0 s /\ auth_device_id auth = device /\ admits s0 auth nonce fingerprint.

(** A connection with its challenge, its messages, and everything else that happens
    to the store meanwhile. *)
Inductive connection_run (nonce fingerprint : str) : Session -> Store -> Prop :=
  | run_open s : reachable s -> connection_run nonce fingerprint (mkSession nonce fingerprint None 0) s
  | run_message session s message slot draws w session' reaction s' w' :
      connection_run nonce fingerprint session s ->
      on_message session message slot draws (s, w) = Some (Ok (session', reaction), (s', w')) ->
      connection_run nonce fingerprint session' s'
  | run_meanwhile session s s' :
      connection_run nonce fingerprint session s -> step s s' -> connection_run nonce fingerprint session s'.

Definition session_ok (nonce fingerprint : str) (session : Session) (s : Store) : Prop :=
  reachable s /\ challenge session = nonce /\ server_fingerprint session = fingerprint /\
  (registration_attempts session <= 5)%Z /\
  match session_device session with Some device => proved nonce fingerprint s device | None => True end.

Lemma proved_later nonce fingerprint s s' device : rtc step s s' -> proved nonce fingerprint s device -> proved nonce fingerprint s' device.
Proof. intros Hs (s0 & auth & H1 & H2 & H3). exists s0, auth. split; [done|]. split; [by etrans|done]. Qed.
Lemma reachable_later s s' : rtc step s s' -> reachable s -> reachable s'.
Proof. unfold reachable. intros H1 H2. by etrans. Qed.

(** What one message does: it never reaches the backends, moves the store only by
    operations of its own, and starts tasks for the proved device only. *)
Lemma on_message_run nonce fingerprint session message slot draws s w r s' w' :
  session_ok nonce fingerprint session s -> on_message session message slot draws (s, w) = Some (r, (s', w')) ->
  exists session' reaction, r = Ok (session', reaction) /\ session_ok nonce fingerprint session' s' /\ w' = w /\
    (s' = s \/ session_device session = None /\ enrolled s s') /\
    match reaction with
    | SpawnRequest device _ _ _ | SpawnSubscription device _ => proved nonce fingerprint s device /\ s' = s
    | Close | Reply _ => True
    end.
Proof.
  intros (Hr & Hn & Hf & Ha & Hd). destruct message as [auth|id method params|after|]; cbn [on_message].
  - destruct (session_device session) as [d|] eqn:Ed; [intros [= <- <- <-]; eexists _, _; split; [done|]; unfold session_ok; rewrite Ed; auto 10|].
    change (bool_decide (is_Some (None : option str))) with false. cbv iota. rewrite run_bind. unfold attempt. rewrite run_db.
    destruct (authenticate_spec auth (challenge session) (server_fingerprint session) s (reachable_ok s Hr)) as (ra & Hrun & Hadm).
    rewrite Hrun. destruct ra as [[]|e]; cbn [map_err is_ok]; intros [= <- <- <-]; eexists _, _; (split; [done|]); unfold session_ok.
    + cbn [challenge server_fingerprint session_device registration_attempts]. split; [do 4 (split; [done|])|by auto].
      exists s, auth. do 3 (split; [done|]). rewrite <- Hn, <- Hf. by apply Hadm.
    + rewrite Ed. auto 10.
  - destruct (session_device session) as [d|] eqn:Ed.
    + destruct slot; cbn [negb]; intros [= <- <- <-]; eexists _, _; (split; [done|]); unfold session_ok; rewrite Ed; auto 10.
    + destruct (registration_request session method params draws) as [session1 m] eqn:Em. rewrite run_bind. unfold attempt.
      destruct (m (s, w)) as [[rm [s1 w1]]|] eqn:Erun; [|done]. intros [= <- <- <-].
      destruct (registration_request_run _ _ _ _ _ _ _ _ _ _ _ Em Erun) as (Hs & -> & H1 & H2 & H3 & H4).
      eexists _, _. split; [done|]. unfold session_ok. rewrite H1, H2, H3, Ed. split; [split; [eapply reachable_later; [by apply enrolled_steps|done]|auto]|].
      split; [done|]. split; [by right|done].
  - destruct (session_device session) as [d|] eqn:Ed; intros [= <- <- <-]; eexists _, _; (split; [done|]); unfold session_ok; rewrite Ed; auto 10.
  - intros [= <- <- <-]. eexists _, _. split; [done|]. unfold session_ok. auto 10.
Qed.

(** C19: a connection carries out requests and reads the journal only for a device that
    authenticated on this very connection, with a signature over its own challenge and
    its key and token in the store at that moment; before that it can only register or
    claim, at most five times register; and the handler itself never acts on the host. *)
Theorem connection_authenticated nonce fingerprint session s message slot draws w r s' w' :
  connection_run nonce fingerprint session s ->
  on_message session message slot draws (s, w) = Some (r, (s', w')) ->
  (registration_attempts session <= 5)%Z /\ w' = w /\
  exists session' reaction, r = Ok (session', reaction) /\
    match reaction with
    | SpawnRequest device _ _ _ | SpawnSubscription device _ => proved nonce fingerprint s device /\ s' = s
    | Close | Reply _ => s' = s \/ session_device session = None /\ enrolled s s'
    end.
Proof.
  intros Hrun Hm. assert (Hok : session_ok nonce fingerprint session s).
  { clear Hm. induction Hrun as [s Hr|session s message0 slot0 draws0 w0 session' reaction s1 w1 _ IH Hm|session s s1 _ IH Hs].
    - by repeat split.
    - destruct (on_message_run _ _ _ _ _ _ _ _ _ _ _ IH Hm) as (? & ? & [= <- <-] & Hok & _). done.
    - destruct IH as (Hr & H1 & H2 & H3 & H4). split; [eapply reachable_later; [by apply rtc_once|done]|]. do 3 (split; [done|]).
      destruct (session_device session); [|done]. eapply proved_later; [by apply rtc_once|done]. }
  destruct (on_message_run _ _ _ _ _ _ _ _ _ _ _ Hok Hm) as (session' & reaction & -> & _ & -> & Hs & Hre).
  split; [apply Hok|]. split; [done|]. exists session', reaction. split; [done|]. by destruct reaction.
Qed.
End store.

(** ** Witnesses *)
Import Concrete.

#[export] Instance plain_debug : DebugOsString := fun s => s.
#[export] Instance plain_backends : Backends := {|
  registration_from_value := fun v =>
    match as_str (index v "name"), as_str (index v "publicKey") with
    | Some name, Some key => Ok (mkRegistration name key (as_str (index v "connectionPassword")))
    | _, _ => Err ("missing field" : str)
    end;
  World := list str;
  backend := fun _ method _ g => Some (Ok (String method), (g.1, g.2 ++ [method])) |}.

Definition payload : Value := request_payload "project/open" (object []).
Definition begun : Store := after (begin_request "device-1" "r1" payload) empty_store.

Definition sample_draws : Draws := mkDraws [] [] [] 30 30.
(** The first run opens the project; the second only answers. *)
Definition first_run := dispatch_recorded "device-1" "r1" "project/open" (object []) sample_draws (with_phone, []).
Lemma request_answered_again_witness : exists r s w, first_run = Some (r, (s, w)) /\ w = ["project/open" : str] /\
  dispatch_recorded "device-1" "r1" "project/open" (object []) sample_draws (s, w) = Some (r, (s, w)).
Proof.
  destruct first_run as [[r [s w]]|] eqn:Er; [|vm_compute in Er; discriminate Er].
  exists r, s, w. split; [reflexivity|].
  assert (Hr : r = Ok (String "project/open")) by (vm_compute in Er; injection Er as <- _ _; reflexivity).
  split; [vm_compute in Er; injection Er as _ _ <-; reflexivity|].
  destruct (request_answered_again (B := plain_backends) "device-1" "r1" "project/open" (object []) sample_draws with_phone ([] : list str) r s w s w sample_draws)
    as (r2 & H2 & Hsame & _).
  - intros device method params g r1 g' [= _ <-]. reflexivity.
  - vm_compute. reflexivity.
  - vm_compute. reflexivity.
  - vm_compute. reflexivity.
  - exact Er.
  - vm_compute in Er. injection Er as _ <- _. vm_compute. reflexivity.
  - reflexivity.
  - exact plain_json_laws.
  - rewrite Hr. vm_compute. reflexivity.
  - destruct Hsame as [->|(Hm & _)]; [exact H2|]. vm_compute in Hm. discriminate Hm.
Defined.

(** A connection that authenticates and then asks for something. *)
Definition opened : Session := mkSession "n" "fp" None 0.
Definition authenticated : Session := mkSession "n" "fp" (Some ("device-1" : str)) 0.
Lemma connection_authenticated_witness : proved "n" "fp" with_phone "device-1" /\
  on_message authenticated (Request "r1" "project/open" (object [])) true sample_draws (with_phone, []) =
    Some (Ok (authenticated, SpawnRequest "device-1" "r1" "project/open" (object [])), (with_phone, [])).
Proof.
  split; [|reflexivity].
  assert (Hrun : connection_run "n" "fp" authenticated with_phone).
  { eapply (run_message (B := plain_backends) "n" "fp" opened with_phone (Authenticate (sample_authentication "n" "fp")) true sample_draws ([] : list str));
      [apply run_open, with_phone_reachable|vm_compute; reflexivity]. }
  destruct (connection_authenticated (B := plain_backends) "n" "fp" authenticated with_phone (Request "r1" "project/open" (object [])) true sample_draws ([] : list str)
    _ with_phone ([] : list str) Hrun eq_refl) as (_ & _ & session' & reaction & [= <- <-] & H). exact (proj1 H).
Defined.
End GatewayFacts.
