(* ===== verification/Subscription.v ===== *)
(** * Subscriptions ([subscribe] of [codex-start-host/src/remote/server.rs])

    A device that reads the journal page by page gets each event after its cursor
    once and in order, and a device whose cursor the journal no longer covers is told
    so and gets everything that is left. *)

From S2P Require Export GatewayFacts.

Module Subscription.
Import Json Crypto Protocol Store StoreJournal StoreDevices StoreAdmission Gateway GatewayFacts.

Section store.
Context {E : Encodings} {HS : Sha256} {K : Ed25519} {SJ : SerdeJson} {EJ : EventJson} {SQ : SqliteJson} {U : Uppercase}.

(** ** Pages *)

(** The event of a row whose message parses. *)
Definition row_event (row : EventRow) : Event :=
  mkEvent (row_sequence row) (row_session row) (default Null (ok (from_json (row_message row)))) (row_created row).
Definition parses (row : EventRow) : Prop := is_ok (from_json (row_message row)) = true.

Lemma page_loop_prefix rows first bytes : Forall parses rows ->
  exists k, (k <= length rows)%nat /\ page_loop rows first bytes = Ok (map row_event (take k rows)) /\
    (first = true -> rows <> [] -> (0 < k)%nat).
Proof.
  revert first bytes. induction rows as [|row rows IH]; intros first bytes Hp; [by exists 0%nat|].
  apply Forall_cons in Hp as [Hrow Hp]. cbn [page_loop]. destruct (negb first && _) eqn:Eb.
  - exists 0%nat. split; [cbn; lia|]. split; [done|]. by destruct first.
  - unfold parses in Hrow. destruct (from_json (row_message row)) as [m|] eqn:Em; [|done]. cbn [map_err mbind result_bind].
    destruct (IH false (bytes + row_bytes row)%Z Hp) as (k & Hk & -> & _). exists (S k). split; [cbn; lia|]. split; [|lia].
    cbn [mbind result_bind take map]. unfold row_event at 2. by rewrite Em.
Qed.

(** The rows after a cursor. *)
Definition rows_after (after : Z) (rows : list EventRow) : list EventRow := filter (fun r => after < row_sequence r)%Z rows.

Lemma rows_after_all after rows : Forall (fun r => after < row_sequence r)%Z rows -> rows_after after rows = rows.
Proof.
  induction 1 as [|r rows Hr _ IH]; [done|]. unfold rows_after in *. rewrite filter_cons, decide_True by done. by rewrite IH.
Qed.
Lemma rows_after_none after rows : Forall (fun r => row_sequence r <= after)%Z rows -> rows_after after rows = [].
Proof.
  induction 1 as [|r rows Hr _ IH]; [done|]. unfold rows_after in *. rewrite filter_cons, decide_False by lia. by rewrite IH.
Qed.
Lemma rows_after_app after a b : rows_after after (a ++ b) = rows_after after a ++ rows_after after b.
Proof. apply filter_app. Qed.
Lemma sorted_app_inv (a b : list EventRow) : StronglySorted Z.lt (map row_sequence (a ++ b)) ->
  StronglySorted Z.lt (map row_sequence a) /\ StronglySorted Z.lt (map row_sequence b) /\
  forall x y, x ∈ a -> y ∈ b -> (row_sequence x < row_sequence y)%Z.
Proof.
  induction a as [|r a IH]; cbn [app map]; intros Hs.
  { split; [constructor|]. split; [done|]. by intros x y Hx%not_elem_of_nil. }
  apply StronglySorted_inv in Hs as [Hs Hr]. destruct (IH Hs) as (H1 & H2 & H3). rewrite map_app in Hr. apply Forall_app in Hr as [Hra Hrb].
  split; [by constructor|]. split; [done|]. intros x y [->|Hx]%elem_of_cons Hy; [|by apply H3].
  rewrite Forall_forall in Hrb. apply Hrb. apply list_elem_of_fmap. eexists; split; [reflexivity|done].
Qed.

(** Going on after the last row of a page. *)
Lemma rows_after_page after a x b : StronglySorted Z.lt (map row_sequence (a ++ [x] ++ b)) ->
  rows_after after (a ++ [x] ++ b) = a ++ [x] ++ b -> rows_after (row_sequence x) (a ++ [x] ++ b) = b.
Proof.
  intros Hs _. rewrite !rows_after_app. destruct (sorted_app_inv _ _ Hs) as (_ & Hxb & Hax).
  destruct (sorted_app_inv [x] b Hxb) as (_ & _ & Hx). rewrite (rows_after_none _ a), (rows_after_none _ [x]), rows_after_all; [done|..].
  - apply Forall_forall. intros y Hy. apply Hx; [set_solver|done].
  - repeat constructor; lia.
  - apply Forall_forall. intros y Hy. specialize (Hax y x Hy ltac:(set_solver)). lia.
Qed.
Lemma rows_after_trans a b rows : (a <= b)%Z -> rows_after b (rows_after a rows) = rows_after b rows.
Proof.
  intros Hab. unfold rows_after. induction rows as [|r rows IH]; [done|]. rewrite !(filter_cons _ r). repeat case_decide; try lia.
  - rewrite filter_cons, decide_True by done. by rewrite IH.
  - rewrite filter_cons, decide_False by lia. done.
  - done.
Qed.

Lemma last_map {A B} (f : A -> B) l : last (map f l) = f <$> last l.
Proof. induction l as [|x [|y l] IH]; [done..|]. exact IH. Qed.

(** ** Turns *)

(** Turns until the subscription waits for new events. *)
Fixpoint replay (fuel : nat) (device : str) (after : Z) (s : Store) : option (list ServerMessage * Z) :=
  match fuel with
  | O => None
  | S fuel =>
      match subscribe_turn device after s with
      | Some (Ok (Some (messages, after, true)), _) => Some (messages, after)
      | Some (Ok (Some (messages, after, false)), s) =>
          '(rest, after) ← replay fuel device after s; Some (messages ++ rest, after)
      | _ => None
      end
  end.

Definition oldest_of (s : Store) : Z := default 0%Z (row_sequence <$> head (events s)).
Definition latest_of (s : Store) : Z := default 0%Z (row_sequence <$> last (events s)).
(** The cursor lies outside of what the journal covers. *)
Definition stale (after : Z) (s : Store) : bool :=
  (latest_of s <? after)%Z || ((0 <? after)%Z && (after + 1 <? oldest_of s)%Z).

Lemma subscribe_turn_run device after s : active device s = Some (Ok true, s) -> Forall parses (events s) ->
  (0 <= after <= U64_MAX)%Z -> (oldest_of s <= I64_MAX)%Z -> (0 <= latest_of s <= I64_MAX)%Z ->
  let start := if stale after s then Z.max 0 (oldest_of s - 1) else after in
  exists k, let page := take k (rows_after start (events s)) in
    (rows_after start (events s) = [] \/ (0 < k)%nat) /\ (k <= length (rows_after start (events s)))%nat /\
    subscribe_turn device after s = Some (Ok (Some
      ((if stale after s then [Reset (oldest_of s) (latest_of s)] else []) ++ map EventMessage (map row_event page),
       default start (row_sequence <$> last page), negb (nonempty page))), s).
Proof.
  intros Hact Hp Hafter Hold Hlat start. unfold subscribe_turn. rewrite run_bind. unfold attempt at 1. rewrite Hact. cbn [negb].
  unfold bounds. rewrite run_bind. unfold attempt at 1. rewrite run_gets. fold (oldest_of s) (latest_of s).
  replace (Z.min (after + 1) U64_MAX <? oldest_of s)%Z with (after + 1 <? oldest_of s)%Z
    by (apply eq_true_iff_eq; rewrite !Z.ltb_lt; unfold U64_MAX, I64_MAX in *; lia).
  fold (stale after s). set (reset := if stale after s then [Reset (oldest_of s) (latest_of s)] else []).
  assert (Hpair : (if stale after s then ([Reset (oldest_of s) (latest_of s)], Z.max 0 (oldest_of s - 1)) else ([], after))
    = (reset, start)) by (unfold reset, start; by destruct (stale after s)).
  rewrite Hpair. cbv beta iota zeta. rewrite run_bind. unfold attempt, list_events, bind_u64. st_run.
  assert (Hstart : (start <= I64_MAX)%Z).
  { unfold start. destruct (stale after s) eqn:Es; [unfold I64_MAX in *; lia|]. unfold stale in Es. bool_split. lia. }
  rewrite (proj2 (Z.ltb_ge _ _)) by done. st_run. fold (rows_after start (events s)).
  assert (Hpp : Forall parses (take (16 `min` 512) (rows_after start (events s)))).
  { apply Forall_take. rewrite Forall_forall in *. intros r [_ Hr]%list_elem_of_filter. by apply Hp. }
  destruct (page_loop_prefix _ true 0 Hpp) as (k & Hk & -> & Hpos). rewrite take_take in *. rewrite length_take in Hk.
  exists (k `min` (16 `min` 512)). split; [|split; [lia|]].
  - destruct (rows_after start (events s)) as [|r rows]; [by left|right]. assert (0 < k)%nat by (by apply Hpos). lia.
  - destruct (take (k `min` (16 `min` 512)) (rows_after start (events s))) as [|r page] eqn:Epage.
    + cbn [map nonempty]. by rewrite app_nil_r.
    + change (row_event r :: map row_event page) with (map row_event (r :: page)). rewrite last_map, <- option_fmap_compose. reflexivity.
Qed.

Lemma journal_bounds s : journal_ok s -> (oldest_of s <= I64_MAX)%Z /\ (0 <= latest_of s <= I64_MAX)%Z.
Proof.
  intros Hok. pose proof (journal_range _ Hok) as Hr. pose proof (journal_rowid _ Hok) as Hid. rewrite Forall_forall in Hr.
  unfold oldest_of, latest_of. split.
  - destruct (events s) as [|r rows]; cbn; [done|]. specialize (Hr r ltac:(set_solver)). lia.
  - destruct (last (events s)) as [x|] eqn:El; cbn; [|done]. apply last_Some_elem_of in El. specialize (Hr x El). lia.
Qed.

(** The cursor of a row that is in the journal is not stale. *)
Lemma row_not_stale s x : journal_ok s -> x ∈ events s -> stale (row_sequence x) s = false.
Proof.
  intros Hok Hx. unfold stale, oldest_of, latest_of. pose proof (journal_sorted _ Hok) as Hs.
  apply list_elem_of_split in Hx as (a & b & Hx). rewrite Hx in Hs |- *. apply orb_false_iff. split.
  - destruct (sorted_app_inv _ _ Hs) as (_ & Hxb & _). destruct (sorted_app_inv [x] b Hxb) as (_ & _ & H). apply Z.ltb_ge.
    rewrite last_app. destruct b as [|y b]; [cbn; lia|].
    destruct (last (x :: y :: b)) as [z|] eqn:El; [|by apply last_None in El]. cbn [fmap option_fmap option_map default].
    change (last (x :: y :: b)) with (last (y :: b)) in El. apply last_Some_elem_of in El. specialize (H x z ltac:(set_solver) El). cbn. lia.
  - apply andb_false_iff. right. apply Z.ltb_ge. destruct a as [|y a]; [cbn; lia|]. cbn [app head fmap option_fmap option_map default].
    destruct (sorted_app_inv _ _ Hs) as (_ & _ & H). specialize (H y x ltac:(set_solver) ltac:(set_solver)). cbn. lia.
Qed.

Definition start_of (after : Z) (s : Store) : Z := if stale after s then Z.max 0 (oldest_of s - 1) else after.
Definition reset_of (after : Z) (s : Store) : list ServerMessage := if stale after s then [Reset (oldest_of s) (latest_of s)] else [].

Lemma replay_S n device after s : replay (S n) device after s =
  match subscribe_turn device after s with
  | Some (Ok (Some (messages, after, true)), _) => Some (messages, after)
  | Some (Ok (Some (messages, after, false)), s) => '(rest, after) ← replay n device after s; Some (messages ++ rest, after)
  | _ => None
  end.
Proof. done. Qed.
Lemma replay_run n device after s : journal_ok s -> Forall parses (events s) -> active device s = Some (Ok true, s) ->
  (0 <= after <= U64_MAX)%Z -> (length (rows_after (start_of after s) (events s)) <= n)%nat ->
  replay (S n) device after s = Some
    (reset_of after s ++ map EventMessage (map row_event (rows_after (start_of after s) (events s))),
     default (start_of after s) (row_sequence <$> last (rows_after (start_of after s) (events s)))).
Proof.
  intros Hok Hp Hact. destruct (journal_bounds s Hok) as [Hold Hlat]. revert after.
  induction n as [|n IH]; intros after Hafter Hlen; rewrite replay_S;
    destruct (subscribe_turn_run device after s Hact Hp Hafter Hold Hlat) as (k & Hk & Hkl & ->);
    fold (start_of after s) (reset_of after s) in *; set (rows := rows_after (start_of after s) (events s)) in *.
  { destruct rows as [|r rows']; [|cbn in Hlen; lia]. by rewrite take_nil. }
  destruct (take k rows) as [|r0 page0] eqn:Epage; cbn [nonempty negb].
  { destruct Hk as [->|Hk]; [done|]. destruct rows as [|r rows']; [done|]. destruct k; [lia|done]. }
  destruct (last (r0 :: page0)) as [x|] eqn:El; [|by apply last_None in El]. pose proof El as El'. apply last_Some in El' as [page Hpage].
  rewrite <- (take_drop k rows), Epage. set (b := drop k rows) in *.
  assert (Hrows : rows = page ++ [x] ++ b) by (rewrite <- (take_drop k rows), Epage, Hpage, <- app_assoc; done).
  assert (Hx : x ∈ rows) by (rewrite Hrows; set_solver). pose proof Hx as [Hxa Hxe]%list_elem_of_filter.
  assert (Hnext : rows_after (row_sequence x) (events s) = b).
  { rewrite <- (rows_after_trans (start_of after s)) by lia. fold rows. rewrite Hrows. apply (rows_after_page (start_of after s)).
    - rewrite <- Hrows. eapply sorted_sublist; [apply sublist_map, sublist_filter|]. apply Hok.
    - rewrite <- Hrows. unfold rows. by apply rows_after_trans. }
  assert (Hst : start_of (row_sequence x) s = row_sequence x) by (unfold start_of; by rewrite row_not_stale).
  pose proof (journal_range _ Hok) as Hr. rewrite Forall_forall in Hr. specialize (Hr x Hxe). pose proof (journal_rowid _ Hok) as Hid.
  change (default (start_of after s) (row_sequence <$> Some x)) with (row_sequence x). assert (Hb : (length b <= n)%nat).
  { assert (length rows = length page + S (length b))%nat by (rewrite Hrows, length_app; cbn; lia). lia. }
  pose proof (IH (row_sequence x)) as Hrun. rewrite Hst, Hnext in Hrun. rewrite Hrun by (done || unfold U64_MAX, I64_MAX in *; lia).
  assert (reset_of (row_sequence x) s = []) as -> by (unfold reset_of; by rewrite row_not_stale). cbn [mbind option_bind]. rewrite app_nil_l, !map_app, <- app_assoc.
  do 2 f_equal. rewrite last_app. destruct (last b) as [y|]; [done|]. by rewrite El.
Qed.

(** A subscription first sends every event of the journal after its cursor, once,
    in order, page by page, and then waits, with the last of them as its cursor; when
    the journal no longer covers the cursor, a reset comes first and everything that
    is left follows. *)
Theorem replay_complete device after s : journal_ok s -> Forall parses (events s) ->
  active device s = Some (Ok true, s) -> (0 <= after <= U64_MAX)%Z ->
  let start := if stale after s then Z.max 0 (oldest_of s - 1) else after in
  replay (S (length (events s))) device after s = Some
    ((if stale after s then [Reset (oldest_of s) (latest_of s)] else []) ++ map EventMessage (map row_event (rows_after start (events s))),
     default start (row_sequence <$> last (rows_after start (events s)))) /\
  (stale after s = true -> rows_after start (events s) = events s).
Proof.
  intros Hok Hp Hact Hafter start. split.
  - apply (replay_run (length (events s)) device after s Hok Hp Hact Hafter). apply sublist_length, sublist_filter.
  - intros Hst. unfold start. rewrite Hst. apply rows_after_all. apply Forall_forall. intros r Hr.
    pose proof (journal_range _ Hok) as Hrange. rewrite Forall_forall in Hrange. specialize (Hrange r Hr). unfold oldest_of.
    pose proof (journal_sorted _ Hok) as Hs. destruct (events s) as [|r0 rows]; [by apply not_elem_of_nil in Hr|]. cbn.
    apply elem_of_cons in Hr as [->|Hr]; [lia|]. destruct (sorted_app_inv [r0] rows Hs) as (_ & _ & H).
    specialize (H r0 r ltac:(set_solver) Hr). lia.
Qed.
End store.
End Subscription.
