(* ===== verification/Onboarding.v ===== *)
(** * From an invitation to an authenticated device

    The parts composed: the host's invitation, its text, the registration of a device
    with the password in it, and the device's first proof; and the delivery of events
    to a client that keeps its own store. *)

From S2P Require Export Subscription.

Module Onboarding.
Import Json Crypto Invitation Protocol Store StoreJournal StoreDevices StoreAdmission HostError Gateway GatewayFacts.

Section store.
Context {E : Encodings} {HS : Sha256} {K : Ed25519} {SJ : SerdeJson} {EJ : EventJson} {SQ : SqliteJson} {U : Uppercase}.
Context {DO : DebugOsString} {B : Backends}.

(** An invitation carries the password of the store. *)
Lemma invitation_password options fingerprint host password yggdrasil group s w inv s1 w1 :
  invitation options fingerprint host password yggdrasil group (s, w) = Some (Ok inv, (s1, w1)) ->
  metadata s1 !! PASSWORD = Some (connection_password inv).
Proof.
  unfold invitation. rewrite run_bind.
  match goal with |- context [match ?m with Some _ => _ | None => _ end] => destruct m as [[[c|e] [s0 w0]]|] end; [|done..].
  rewrite run_bind, run_db. destruct (secret_password_run password [] s0) as (v & s2 & Hrun & Hv & _). fold PASSWORD. rewrite Hrun.
  cbn [map_err]. by intros [= <- <- <-].
Qed.

(** Registration with the password in force. *)
Lemma register_password name key password fingerprint nonce uuid rp rs now later s :
  metadata s !! PASSWORD = Some password -> is_ok (decode_password password) = true -> is_ok (decode32 key) = true ->
  is_blank name = false -> (length name <= 128)%nat -> uuid ∉ map device_id (devices s) -> (now <= I64_MAX)%Z ->
  exists result, register (mkRegistration name key (Some password)) fingerprint nonce uuid rp rs now later s =
    Some (Ok result, set_devices (fun l => l ++ [mkDeviceRow uuid name key (digest rs) now false]) s) /\ result_token result = Some rs /\
    result_device_id result = uuid.
Proof.
  intros Hp Hok Hkey Hblank Hlen Hid Hnow. unfold register. st_run. cbn [reg_public_key reg_name reg_connection_password].
  destruct (decode32 key); [|done]. st_run. rewrite Hblank. cbn [orb]. rewrite (proj2 (Nat.ltb_ge _ _)) by done. st_run.
  fold PASSWORD. rewrite (secret_valid password) by done. cbv beta iota. st_run.
  rewrite (proj2 (constant_equal_spec password password) eq_refl). cbn [negb]. unfold issue_device, insert_device, bind_u64, bounds. st_run.
  rewrite (proj2 (Z.ltb_ge _ _)) by done. st_run.
  assert (existsb (fun d => bool_decide (device_id d = uuid)) (devices s) = false) as ->.
  { apply not_true_iff_false. intros (d & Hd & Hdid)%existsb_exists. bool_split. apply Hid. apply list_elem_of_fmap.
    exists d. split; [done|by apply list_elem_of_In]. }
  st_run. eexists. split; [reflexivity|]. done.
Qed.

(** C20: the invitation of a host lets a new device in: its text reads back; as long as
    the password is not rotated, registering with the password in it gives the device
    a token; and with that token and a signature by its key the device is
    authenticated, on any connection. *)
Theorem invitation_lets_in `{!EncodingLaws E, !Ed25519Laws K}
    options fingerprint host password yggdrasil group s w inv s1 w1 :
  invitation options fingerprint host password yggdrasil group (s, w) = Some (Ok inv, (s1, w1)) ->
  well_typed inv -> validate inv = Ok tt ->
  exists uri inv', encode inv = Ok uri /\ decode uri = Ok inv' /\
    forall s2 secret key name nonce uuid rp rs now later,
      store_ok s2 -> metadata s2 !! PASSWORD = metadata s1 !! PASSWORD ->
      public_key secret = Ok key -> is_blank name = false -> (length name <= 128)%nat ->
      uuid ∉ map device_id (devices s2) -> (now <= I64_MAX)%Z ->
      exists result s3,
        register (mkRegistration name key (Some (connection_password inv'))) fingerprint nonce uuid rp rs now later s2 = Some (Ok result, s3) /\
        result_token result = Some rs /\ store_ok s3 /\
        forall nonce' fingerprint' signature, sign secret nonce' fingerprint' = Ok signature ->
          authenticate (mkAuthentication (result_device_id result) rs signature) nonce' fingerprint' s3 = Some (Ok tt, s3).
Proof.
  intros Hinv Ht Hv. apply invitation_password in Hinv.
  destruct (validate_version inv Hv) as [_ Hpw]. destruct (decode_encoded inv Ht Hv) as (uri & He & Hd).
  exists uri, (normalize inv). do 2 (split; [done|]). intros s2 secret key name nonce uuid rp rs now later Hok Hmeta Hkey Hblank Hlen Hid Hnow.
  rewrite Hinv in Hmeta. cbn [normalize connection_password].
  assert (Hk : is_ok (decode32 key) = true).
  { revert Hkey. unfold public_key. intros (v & Hs & [= <-])%bind_Ok. apply decode_secret_Ok in Hs as [_ Hlv].
    rewrite (proj2 (decode32_Ok (hex_encode (verifying_key v)) (verifying_key v))); [done|]. split; [apply hex_round|by apply verifying_key_length]. }
  destruct (register_password name key _ fingerprint nonce uuid rp rs now later s2 Hmeta Hpw Hk Hblank Hlen Hid Hnow) as (result & Hreg & Htok & Hdev).
  eexists result, _. split; [exact Hreg|]. split; [done|]. set (s3 := set_devices _ s2) in *.
  assert (Hok3 : store_ok s3) by (apply store_ok_devices; [|done]; apply NoDup_map_snoc; [done|apply Hok]). split; [done|].
  intros nonce' fingerprint' signature Hsign.
  destruct (authenticate_spec (mkAuthentication (result_device_id result) rs signature) nonce' fingerprint' s3 Hok3) as (r & Hrun & Hadm).
  rewrite Hrun. do 2 f_equal. apply Hadm. exists (mkDeviceRow uuid name key (digest rs) now false).
  split; [unfold s3; cbn; set_solver|]. cbn [device_id auth_device_id revoked token_hash auth_token device_key auth_signature].
  split; [done|]. split; [done|]. split; [done|]. by apply (verify_sign secret).
Qed.
End store.

(** ** Witness: a host that listens on one address *)
Import Concrete.

Definition sample_options : DaemonOptions := mkDaemonOptions (Allowlist.mkSocketAddr (IpAddr.V4 [192; 0; 2; 7]%Z) 47321) true None.
Definition sample_fingerprint : str := plain_hex_encode (replicate 32 "f"%char).
Definition sample_invite : Invitation := mkInvitation 1 (Direct "192.0.2.7" 47321) sample_password (Some sample_fingerprint).

Lemma invitation_lets_in_witness : exists uri inv result s3,
  encode sample_invite = Ok uri /\ decode uri = Ok inv /\
  register (mkRegistration "tablet" sample_key (Some (connection_password inv))) sample_fingerprint "nonce" "device-2" [] "second" 20 20 with_phone
    = Some (Ok result, s3) /\ store_ok s3.
Proof.
  destruct (@invitation_lets_in _ plain_sha plain_ed25519 plain_backends
    plain_encodings_laws plain_ed25519_laws
    sample_options sample_fingerprint None [] [] [] with_phone ([] : list str) sample_invite with_phone ([] : list str)) as (uri & inv & He & Hd & H).
  - vm_compute. reflexivity.
  - vm_compute. repeat split; discriminate.
  - vm_compute. reflexivity.
  - destruct (H with_phone sample_secret sample_key "tablet" "nonce" "device-2" [] "second" 20%Z 20%Z) as (result & s3 & Hreg & _ & Hok & _).
    + apply reachable_ok, with_phone_reachable.
    + reflexivity.
    + vm_compute. reflexivity.
    + vm_compute. reflexivity.
    + apply Nat.leb_le. reflexivity.
    + apply (bool_decide_unpack _). vm_compute. exact I.
    + vm_compute. discriminate.
    + exists uri, inv, result, s3. split; [exact He|]. split; [exact Hd|]. split; [exact Hreg|exact Hok].
Defined.
End Onboarding.
