(* ===== verification/Client.v ===== *)
(** * The client of a remote host ([codex-start-client/src/client.rs])

    What a client checks of the host it reaches, what it saves, and what it does with
    each message: answers go to the request that waits for them, events pass through
    the client's own store before anyone sees them.  The transport is left out. *)

From S2P Require Export Onboarding.

Module Client.
Import Json Crypto Invitation Protocol Store StoreJournal StoreDevices StoreAdmission Gateway GatewayFacts Subscription.

Inductive ClientError :=
  | Message (message : str)
  | Remote (error : RemoteError)
  | Other (message : str).

Record SavedServer := mkSavedServer {
  discovery : Discovery;
  server_connection : Connection;
  device_secret : str;
  saved_device : option str;
  saved_token : option str;
  initial_cursor : Z }.

Definition set_discovery (discovery : Discovery) (saved : SavedServer) : SavedServer :=
  mkSavedServer discovery (server_connection saved) (device_secret saved) (saved_device saved) (saved_token saved) (initial_cursor saved).

Section client.
Context {E : Encodings} {HS : Sha256} {K : Ed25519} {SJ : SerdeJson} {EJ : EventJson} {SQ : SqliteJson}.

(** ** Saved hosts *)

(** What [Client::invitation] starts from, and the password it keeps. *)
Definition from_invitation (uri random_secret : str) : result ClientError (SavedServer * str) :=
  invitation ← map_err Remote (decode uri);
  Ok (mkSavedServer (mkDiscovery (version invitation) [] [] (default [] (fingerprint invitation)) [])
        (connection invitation) random_secret None None 0,
      connection_password invitation).

(** [Client::direct] *)
Definition from_address (host : str) (port : Z) (random_secret : str) : SavedServer :=
  mkSavedServer (mkDiscovery PROTOCOL_VERSION [] host [] []) (Direct host port) random_secret None None 0.

(** The fingerprint that TLS is pinned to. *)
Definition tls_pin (saved : SavedServer) (pinned : bool) : option str :=
  if pinned && match server_connection saved with Direct _ _ => true | Yggdrasil _ _ _ => false end
  then Some (host_fingerprint (discovery saved)) else None.

Definition daemon_id_byte (c : ascii) : bool := is_alphanumeric c || is_byte "-" c.
Definition valid_daemon_id (id : str) : bool := forallb daemon_id_byte id && (length id =? 36)%nat.

(** [authenticate_socket] up to the authentication: [fingerprint] is that of the TLS
    connection, [challenge] the first message of the host. *)
Definition check_challenge (saved : SavedServer) (pinned : bool) (fingerprint : str) (challenge : ServerMessage)
    : result ClientError (SavedServer * str) :=
  match challenge with
  | Challenge nonce advertised offered =>
      err_if (negb (bool_decide (advertised = fingerprint)) || negb (bool_decide (host_fingerprint offered = fingerprint))
              || negb (protocol_version offered =? PROTOCOL_VERSION)%Z
              || (pinned && nonempty (daemon_id (discovery saved)) && negb (bool_decide (daemon_id (discovery saved) = daemon_id offered))))
        (Message "server identity or protocol does not match") ;;
      err_if (negb (valid_daemon_id (daemon_id offered))) (Message "invalid daemon identity") ;;
      Ok (set_discovery offered saved, nonce)
  | _ => Err (Message "missing server challenge")
  end.

(** The proof a paired device sends. *)
Definition authentication (saved : SavedServer) (nonce fingerprint : str) : result ClientError (option Authentication) :=
  match saved_device saved, saved_token saved with
  | Some id, Some token =>
      signature ← map_err Remote (sign (device_secret saved) nonce fingerprint);
      Ok (Some (mkAuthentication id token signature))
  | _, _ => Ok None
  end.

(** The cursor a paired device subscribes from. *)
Definition start_cursor (inbox : Store) (saved : SavedServer) : Z :=
  default (initial_cursor saved) (v ← metadata inbox !! CURSOR; parse_u64 v).

(** The name of the client's store for a host. *)
Definition cache_file (saved : SavedServer) : str := daemon_id (discovery saved) ++ ".db".

(** ** Registration *)

Definition registration (saved : SavedServer) (name : str) (invitation_password : option str) : result ClientError Registration :=
  key ← map_err Remote (public_key (device_secret saved));
  Ok (mkRegistration name key invitation_password).

Definition accept_registration (result : RegistrationResult) (saved : SavedServer) : SavedServer :=
  mkSavedServer (discovery saved) (server_connection saved) (device_secret saved) (Some (result_device_id result))
    (match result_token result with Some token => Some token | None => saved_token saved end) (result_event_cursor result).

(** What [enroll] does with the answer. *)
Definition enrolled_with (saved : SavedServer) (nonce : str) (result : RegistrationResult) : Prelude.result ClientError SavedServer :=
  key ← map_err Remote (public_key (device_secret saved));
  match result_code result with
  | Some code =>
      err_if (negb (bool_decide (code = approval_code key (host_fingerprint (discovery saved)) nonce)))
        (Message "pairing identity does not match")
  | None => Ok tt
  end ;;
  Ok (accept_registration result saved).

(** The parameters of [device/claim]. *)
Definition claim_parameters (saved : SavedServer) (nonce : str) : Prelude.result ClientError Value :=
  id ← ok_or (saved_device saved) (Message "start registration first");
  signature ← map_err Remote (sign (device_secret saved) nonce (host_fingerprint (discovery saved)));
  Ok (object [("deviceId" : str, String id); ("signature" : str, String signature)]).

(** ** Messages ([read_socket]) *)

(** The requests that wait for an answer, what they were answered, the client's
    store, what was handed on, and the subscriptions that were sent. *)
Record Inbox := mkInbox {
  pending : gset str;
  answers : list (str * Prelude.result ClientError Value);
  inbox : Store;
  forwarded : list ServerMessage;
  subscriptions : list Z }.

Definition answer (id : str) (r : Prelude.result ClientError Value) (i : Inbox) : Inbox :=
  if bool_decide (id ∈ pending i)
  then mkInbox (pending i ∖ {[id]}) (answers i ++ [(id, r)]) (inbox i) (forwarded i) (subscriptions i)
  else i.
Definition forward (m : ServerMessage) (i : Inbox) : Inbox :=
  mkInbox (pending i) (answers i) (inbox i) (forwarded i ++ [m]) (subscriptions i).
Definition set_inbox (s : Store) (i : Inbox) : Inbox :=
  mkInbox (pending i) (answers i) s (forwarded i) (subscriptions i).

(** One message, while someone listens to the events: [false] ends the loop. *)
Definition read_one (m : ServerMessage) (i : Inbox) : Inbox * bool :=
  match m with
  | Response id result => (answer id (Ok result) i, true)
  | ErrorMessage (Some id) _ message => (answer id (Err (Message message)) i, true)
  | EventMessage event =>
      match receive_event event (inbox i) with
      | Some (Ok true, s) => (forward m (set_inbox s i), true)
      | Some (Ok false, s) => (set_inbox s i, true)
      | Some (Err _, s) => (set_inbox s i, false)
      | None => (i, false)
      end
  | Reset oldest latest =>
      let cursor := Z.max 0 (oldest - 1) in
      let s := match set_value CURSOR (dec cursor) (inbox i) with Some (_, s) => s | None => inbox i end in
      (mkInbox (pending i) (answers i) s (forwarded i ++ [m]) (subscriptions i ++ [cursor]), true)
  | _ => (forward m i, true)
  end.

Fixpoint read_all (messages : list ServerMessage) (i : Inbox) : Inbox * bool :=
  match messages with
  | [] => (i, true)
  | m :: messages =>
      let '(i, continue) := read_one m i in
      if continue : bool then read_all messages i else (i, false)
  end.

(** The end of the loop: every request that still waits loses its connection. *)
Definition disconnected (i : Inbox) : Inbox :=
  mkInbox ∅ (answers i) (inbox i)
    (forwarded i ++ [ErrorMessage None "disconnected" "connection lost; reconnect to recover session state"]) (subscriptions i).
End client.

(** ** Exactly once *)

Lemma span_all p s : Forall (fun c => p c = true) s -> span p s = (s, []).
Proof. induction 1 as [|c s Hc _ IH]; [done|]. cbn [span]. by rewrite Hc, IH. Qed.
Lemma span_none p c s : p c = false -> span p (c :: s) = ([], c :: s).
Proof. intros H. cbn [span]. by rewrite H. Qed.
Lemma cast_integer_dec n : (0 <= n <= I64_MAX)%Z -> cast_integer (dec n) = n.
Proof.
  intros Hn. pose proof (all_digits_dec n ltac:(lia)) as Hd. destruct (digits_no_sign _ Hd) as [Hp Hm].
  assert (Hv : dec_value (dec n) = n) by (unfold dec; rewrite (proj2 (Z.ltb_ge _ _)) by lia; apply dec_nonneg_spec; lia).
  pose proof (proj1 (all_digits_spec _) Hd) as [Hne HF]. unfold cast_integer.
  assert (Hs : snd (span sql_space (dec n)) = dec n).
  { destruct (dec n) as [|c s]; [done|]. apply Forall_cons in HF as [Hc _]. rewrite span_none; [done|].
    unfold sql_space, is_byte. apply in_range_spec in Hc. apply orb_false_iff. split.
    - apply bool_decide_eq_false. intros <-. destruct Hc as [Hc _]. by apply Hc.
    - apply not_true_iff_false. rewrite in_range_spec. lia. }
  rewrite Hs, Hm, Hp. cbn [default from_option]. rewrite span_all by done. cbn [fst]. rewrite Hv. lia.
Qed.

Section facts.
Context {E : Encodings} {HS : Sha256} {K : Ed25519} {SJ : SerdeJson} {EJ : EventJson} {SQ : SqliteJson} {U : Uppercase}.

(** An event after the cursor is recorded, handed on, and becomes the cursor. *)
Lemma read_new_event event i : (0 <= cursor_of (inbox i) < sequence event)%Z -> (sequence event <= I64_MAX)%Z ->
  exists i', read_one (EventMessage event) i = (i', true) /\ forwarded i' = forwarded i ++ [EventMessage event] /\
    cursor_of (inbox i') = sequence event /\ pending i' = pending i /\ answers i' = answers i /\ subscriptions i' = subscriptions i.
Proof.
  intros Hc Hs. cbn [read_one]. rewrite receive_event_run. rewrite (proj2 (Z.ltb_ge _ _)), (proj2 (Z.leb_gt _ _)) by lia.
  rewrite (proj2 (Z.ltb_ge I64_MAX _)) by lia. rewrite andb_false_r. eexists. split; [reflexivity|]. split; [done|]. split; [|done].
  unfold cursor_of. cbn. rewrite lookup_insert_eq. cbn. apply cast_integer_dec. lia.
Qed.
(** Any other event is dropped. *)
Lemma read_old_event event i : (0 <= cursor_of (inbox i))%Z -> (sequence event <= cursor_of (inbox i))%Z ->
  read_one (EventMessage event) i = (i, true).
Proof.
  intros Hc Hs. cbn [read_one]. rewrite receive_event_run. rewrite (proj2 (Z.ltb_ge _ _)), (proj2 (Z.leb_le _ _)) by lia. by destruct i.
Qed.

Lemma read_all_events rows i : StronglySorted Z.lt (map row_sequence rows) ->
  Forall (fun r => cursor_of (inbox i) < row_sequence r <= I64_MAX)%Z rows -> (0 <= cursor_of (inbox i))%Z ->
  exists i', read_all (map EventMessage (map row_event rows)) i = (i', true) /\
    forwarded i' = forwarded i ++ map EventMessage (map row_event rows) /\
    cursor_of (inbox i') = default (cursor_of (inbox i)) (row_sequence <$> last rows) /\
    pending i' = pending i /\ answers i' = answers i /\ subscriptions i' = subscriptions i.
Proof.
  revert i. induction rows as [|r rows IH]; intros i Hs Hf Hc.
  { exists i. by rewrite app_nil_r. }
  cbn [map] in *. apply StronglySorted_inv in Hs as [Hs Hr]. apply Forall_cons in Hf as [Hr0 Hf].
  destruct (read_new_event (row_event r) i) as (i1 & H1 & H2 & H3 & H4 & H5 & H6); [cbn; lia|cbn; lia|].
  cbn [read_all]. rewrite H1. destruct (IH i1) as (i2 & H7 & H8 & H9 & H10 & H11 & H12); [done| |rewrite H3; cbn; lia|].
  { rewrite H3. cbn. apply Forall_forall. intros y Hy. rewrite Forall_forall in Hf. rewrite Forall_forall in Hr.
    specialize (Hf y Hy). specialize (Hr (row_sequence y) ltac:(apply list_elem_of_fmap; by eexists)). lia. }
  exists i2. split; [done|]. rewrite H8, H2, <- app_assoc. split; [done|]. split; [|by rewrite H10, H11, H12].
  rewrite H9, H3. change (last (r :: rows)) with (last ([r] ++ rows)). rewrite last_app. by destruct (last rows).
Qed.

Lemma read_all_app a b i : read_all (a ++ b) i = let '(i, continue) := read_all a i in if continue : bool then read_all b i else (i, false).
Proof.
  revert i. induction a as [|m a IH]; intros i; [done|]. cbn [app read_all]. destruct (read_one m i) as [i1 [|]]; [apply IH|done].
Qed.
Lemma read_all_old rows i : (0 <= cursor_of (inbox i))%Z -> Forall (fun r => row_sequence r <= cursor_of (inbox i))%Z rows ->
  read_all (map EventMessage (map row_event rows)) i = (i, true).
Proof.
  intros Hc. induction 1 as [|r rows Hr _ IH]; [done|]. cbn [map read_all]. by rewrite read_old_event by done.
Qed.

(** C21: between a host and a client that subscribes from its own cursor, every event of
    the host's journal after that cursor is handed on exactly once, in order, whatever
    is sent again: after the replay the client's cursor is the last event, and
    reading any of it a second time changes nothing.  A client whose cursor the
    journal no longer covers first hands on the reset, and then everything left. *)
Theorem delivered_exactly_once device s i : journal_ok s -> Forall parses (events s) ->
  active device s = Some (Ok true, s) -> (0 <= cursor_of (inbox i) <= I64_MAX)%Z ->
  let after := cursor_of (inbox i) in
  exists messages after' i',
    replay (S (length (events s))) device after s = Some (messages, after') /\
    read_all messages i = (i', true) /\
    forwarded i' = forwarded i ++ messages /\
    messages = reset_of after s ++ map EventMessage (map row_event (rows_after (start_of after s) (events s))) /\
    cursor_of (inbox i') = after' /\ (stale after s = false -> subscriptions i' = subscriptions i) /\
    forall rows, rows `sublist_of` events s -> read_all (map EventMessage (map row_event rows)) i' = (i', true).
Proof.
  intros Hok Hp Hact Hc after. pose proof (journal_bounds s Hok) as [Hold Hlat].
  set (rows := rows_after (start_of after s) (events s)).
  assert (Hrows : StronglySorted Z.lt (map row_sequence rows)) by (eapply sorted_sublist; [apply sublist_map, sublist_filter|apply Hok]).
  pose proof (journal_range _ Hok) as Hrange. pose proof (journal_rowid _ Hok) as Hid. rewrite Forall_forall in Hrange.
  (* the client after the reset, if there is one *)
  assert (Hreset : exists i0, read_all (reset_of after s) i = (i0, true) /\ forwarded i0 = forwarded i ++ reset_of after s /\
    cursor_of (inbox i0) = start_of after s /\ (stale after s = false -> i0 = i)).
  { unfold reset_of, start_of. destruct (stale after s) eqn:Es.
    - eexists. split; [reflexivity|]. split; [done|]. split; [|done]. unfold cursor_of, set_value. rewrite run_modify. cbn.
      rewrite lookup_insert_eq. cbn. apply cast_integer_dec. lia.
    - exists i. by rewrite app_nil_r. }
  destruct Hreset as (i0 & Hr0 & Hf0 & Hc0 & Hi0).
  assert (Hstart : (0 <= start_of after s)%Z) by (unfold start_of; destruct (stale after s); lia).
  destruct (read_all_events rows i0) as (i' & Hr1 & Hf1 & Hc1 & _ & _ & Hs1); [done| |by rewrite Hc0|].
  { rewrite Hc0. apply Forall_forall. intros r [Hr Hin]%list_elem_of_filter. specialize (Hrange r Hin). lia. }
  exists (reset_of after s ++ map EventMessage (map row_event rows)), (default (start_of after s) (row_sequence <$> last rows)), i'.
  split; [apply (replay_run (length (events s)) device after s Hok Hp Hact); [unfold U64_MAX, I64_MAX in *; lia|apply sublist_length, sublist_filter]|].
  split; [by rewrite read_all_app, Hr0|]. split; [by rewrite Hf1, Hf0, app_assoc|]. split; [done|]. rewrite Hc0 in Hc1. split; [done|].
  split; [intros Hst; by rewrite Hs1, Hi0|].
  intros rows' Hsub. apply read_all_old; rewrite Hc1.
  - destruct (last rows) as [x|] eqn:El; cbn; [|done]. apply last_Some_elem_of in El. unfold rows in El.
    apply list_elem_of_filter in El as [_ Hx]. specialize (Hrange x Hx). lia.
  - apply Forall_forall. intros r Hr. assert (Hin : r ∈ events s) by (by eapply elem_of_sublist).
    destruct (decide (start_of after s < row_sequence r)%Z) as [Hlt|Hge].
    + assert (Hrin : r ∈ rows) by (by apply list_elem_of_filter). apply list_elem_of_split in Hrin as (a & b & Hab). rewrite Hab in Hrows |- *.
      destruct (sorted_app_inv _ _ Hrows) as (_ & Hrb & _). destruct (sorted_app_inv [r] b Hrb) as (_ & _ & H).
      rewrite last_app. destruct (last (r :: b)) as [z|] eqn:El; [|by apply last_None in El]. cbn.
      destruct b as [|y b]; [injection El as <-; lia|]. change (last (r :: y :: b)) with (last (y :: b)) in El.
      apply last_Some_elem_of in El. specialize (H r z ltac:(set_solver) El). lia.
    + destruct (last rows) as [x|] eqn:El; cbn; [|lia]. apply last_Some_elem_of in El. unfold rows in El.
      apply list_elem_of_filter in El as [Hx _]. lia.
Qed.
End facts.

(** ** Witness: one event from a host to a new client *)
Import Concrete.

Definition host_journal : Store := after (append "s" sample_message 20) with_phone.
Definition new_client : Inbox := mkInbox ∅ [] empty_store [] [].
Lemma delivered_exactly_once_witness : exists messages after' i',
  replay (S (length (events host_journal))) "device-1" 0 host_journal = Some (messages, after') /\
  read_all messages new_client = (i', true) /\ forwarded i' = messages /\ cursor_of (inbox i') = 1%Z.
Proof.
  destruct (delivered_exactly_once "device-1" host_journal new_client) as (messages & after' & i' & H1 & H2 & H3 & _ & H5 & _).
  - apply ok_journal, reachable_ok. eapply rtc_r; [apply with_phone_reachable|].
    exists (Append "s" sample_message 20), (Ok tt). vm_compute. reflexivity.
  - vm_compute. repeat constructor.
  - vm_compute. reflexivity.
  - vm_compute. split; discriminate.
  - exists messages, after', i'. split; [exact H1|]. split; [exact H2|]. split; [exact H3|]. rewrite H5.
    change (cursor_of (inbox new_client)) with 0%Z in H1. assert (Hrun : snd <$> replay (S (length (events host_journal))) "device-1" 0 host_journal = Some 1%Z)
      by (vm_compute; reflexivity). rewrite H1 in Hrun. injection Hrun as ->. reflexivity.
Defined.
End Client.
