(* ===== verification/Handshake.v ===== *)
(** * The relay's handshake ([codex-start-proxy/src/relay.rs])

    Limits of the relays, the file that names a Unix socket, and the exchange by
    which a relay tells its own clients from others: a magic, the length of the
    token in two bytes, the token; the answer is one byte. *)

From S2P Require Export Auth StateErr.

(** What the relay asks of a file system: [symlink_metadata] without following
    links, and the bytes of a file. *)
Record NodeMetadata := mkNodeMetadata { is_symlink : bool; is_file : bool; node_mode : Z; node_len : Z }.
Class TargetFiles := {
  target_metadata : str -> result Streams.io_error NodeMetadata;
  target_read : str -> result Streams.io_error str }.

(** The parsed text as [serde] buffers it for an untagged enum: the entries of a
    map in their order, repeated keys included. *)
Inductive JsonContent :=
  | ContentString (value : str)
  | ContentMap (entries : list (str * JsonContent))
  | ContentSeq (values : list JsonContent)
  | ContentOther.
Class ContentJson := content_from_slice : str -> option JsonContent.
(** [base64]'s [STANDARD] engine. *)
Class StandardBase64 := standard_decode : str -> option str.

Module Handshake.
Import Streams Auth.

Definition HANDSHAKE_MAGIC : str := "CDXSRLY1".
Definition AUTH_OK : ascii := byte_at 1.
Definition AUTH_DENIED : ascii := byte_at 0.

(** Durations in nanoseconds. *)
Record RelayConfig := mkRelayConfig {
  max_connections : nat;
  connect_timeout : Z;
  handshake_timeout : Z;
  idle_timeout : Z }.
Definition seconds (n : Z) : Z := (n * 1000000000)%Z.
Definition RelayConfig_default : RelayConfig := mkRelayConfig 128 (seconds 10) (seconds 5) (seconds 300).

Inductive RelayError :=
  | InvalidConfig (message : str)
  | Accept (source : io_error)
  | ConnectTimeout (target : str)
  | Connect (target : str) (source : io_error)
  | UnsupportedTarget (target : str)
  | HandshakeTimeout
  | InvalidHandshake
  | AuthenticationDenied
  | IdleTimeout
  | Io (source : io_error)
  | BindUnix (path : str) (source : io_error)
  | RefuseReplace (path : str)
  | InvalidTargetFile (path : str)
  | TargetFile (path : str) (source : io_error).

Definition validate (self : RelayConfig) : result RelayError unit :=
  err_if (max_connections self =? 0)%nat (InvalidConfig "max_connections must be non-zero") ;;
  err_if ((connect_timeout self =? 0)%Z || (handshake_timeout self =? 0)%Z || (idle_timeout self =? 0)%Z)
    (InvalidConfig "relay timeouts must be non-zero").

(** ** Destinations *)

Inductive RelayTarget :=
  | Tcp (target : str)
  | Unix (path : str)
  | UnixTargetFile (path : str).

Inductive TargetRepresentation :=
  | Utf8 (value : str)
  | UnixBase64 (unix_base64 : str).

(** The derived [Deserialize]: a string, a map with the one field, or a sequence
    of one string. *)
Definition target_representation (c : JsonContent) : option TargetRepresentation :=
  match c with
  | ContentString value => Some (Utf8 value)
  | ContentMap [(key, ContentString value)] => if key =s? "unix_base64" then Some (UnixBase64 value) else None
  | ContentSeq [ContentString value] => Some (UnixBase64 value)
  | _ => None
  end.

Definition MAX_TARGET_BYTES : Z := 16 * 1024.

Definition load_unix_target_file `{TargetFiles, ContentJson, StandardBase64} (path : str) : result RelayError str :=
  metadata ← map_err (TargetFile path) (target_metadata path);
  err_if (is_symlink metadata || negb (is_file metadata) || (MAX_TARGET_BYTES <? node_len metadata)%Z)
    (InvalidTargetFile path) ;;
  err_if (negb (Z.land (node_mode metadata) 0x3f =? 0)%Z) (InvalidTargetFile path) ;;
  bytes ← map_err (TargetFile path) (target_read path);
  target ← ok_or (c ← content_from_slice bytes; target_representation c) (InvalidTargetFile path);
  target ← match target with
           | Utf8 value => Ok value
           | UnixBase64 encoded => ok_or (standard_decode encoded) (InvalidTargetFile path)
           end;
  err_if (negb (nonempty target) || contains_byte NUL target) (InvalidTargetFile path) ;;
  Ok target.

(** ** The exchange

    The whole exchange is under one time limit: an operation that makes no
    progress before it ends the exchange. *)

Notation M := (ST Conn RelayError) (only parsing).

Definition interrupted (i : Interruption) : RelayError :=
  match i with Elapsed => HandshakeTimeout | IoFailed error => Io error end.

Definition read_some (limit : nat) : M str := fun s => let '(r, s) := read limit s in Some (map_err interrupted r, s).
Definition write_bytes (bytes : str) : M unit := fun s =>
  let '(r, s) := write_all_within bytes s in Some (map_err interrupted r, s).

(** [read_exact], one [read] at a time. *)
Fixpoint read_exact_loop (fuel wanted : nat) (got : str) (eof : io_error) : M str :=
  if (wanted =? 0)%nat then mret got
  else match fuel with
       | O => diverge
       | S fuel =>
           bytes ← read_some wanted;
           if negb (nonempty bytes) then throw (Io eof)
           else read_exact_loop fuel (wanted - length bytes) (got ++ bytes) eof
       end.
Definition read_exact (wanted : nat) : M str := read_exact_loop wanted wanted [] "early eof".
(** [read_u16] and [read_u8]. *)
Definition read_u16 : M nat :=
  bytes ← read_exact_loop 2 2 [] "unexpected end of file";
  mret (match bytes with [hi; lo] => Z.to_nat (code hi * 256 + code lo) | _ => 0%nat end).
Definition read_u8 : M ascii :=
  bytes ← read_exact_loop 1 1 [] "unexpected end of file";
  mret (match bytes with [b] => b | _ => NUL end).

Definition u16_bytes (n : nat) : str := [byte_at (Z.of_nat n / 256); byte_at (Z.of_nat n mod 256)].

Definition authenticate_server `{Sha256} (expected : AuthToken) : M unit :=
  magic ← read_exact (length HANDSHAKE_MAGIC);
  if negb (magic =s? HANDSHAKE_MAGIC) then write_bytes [AUTH_DENIED] ;; throw InvalidHandshake
  else
    length ← read_u16;
    if (length =? 0)%nat || (MAX_TOKEN_BYTES <? length)%nat then write_bytes [AUTH_DENIED] ;; throw InvalidHandshake
    else
      candidate ← read_exact length;
      if negb (token_matches expected candidate) then write_bytes [AUTH_DENIED] ;; throw AuthenticationDenied
      else write_bytes [AUTH_OK].

Definition authenticate_client (token : AuthToken) : M unit :=
  throw_if (U16_MAX <? Z.of_nat (length token))%Z InvalidHandshake ;;
  write_bytes HANDSHAKE_MAGIC ;;
  write_bytes (u16_bytes (length token)) ;;
  write_bytes token ;;
  answer ← read_u8;
  if is_byte answer AUTH_OK then mret tt
  else if is_byte answer AUTH_DENIED then throw AuthenticationDenied
  else throw InvalidHandshake.

(** ** What the exchange reads and writes *)

(** Reading moves the stream forward and touches nothing else. *)
Definition same_output (c c' : Conn) : Prop :=
  outbound c' = outbound c /\ closed c' = closed c /\ write_faults c' = write_faults c.
#[local] Instance same_output_preorder : PreOrder same_output.
Proof. unfold same_output. split; red; intuition congruence. Qed.

(** The errors of a stream, as opposed to those of the protocol. *)
Definition transport_error (e : RelayError) : Prop := e = HandshakeTimeout \/ exists source, e = Io source.
Lemma transport_interrupted i : transport_error (interrupted i).
Proof. destruct i; cbn; [by left|right; by eexists]. Qed.

Lemma runs_read_some limit c Q :
  (forall bytes c', same_output c c' -> (length bytes <= limit)%nat -> (bytes <> [] -> delivered (inbound c) = bytes ++ delivered (inbound c')) ->
     (limit <> 0%nat -> bytes = [] -> delivered (inbound c) = []) -> Q (Ok bytes) c') ->
  (forall e c', transport_error e -> same_output c c' -> delivered (inbound c) = [] -> Q (Err e) c') ->
  runs (read_some limit) c Q.
Proof.
  intros HOk HErr. unfold runs, read_some. destruct (read limit c) as [[bytes|e] c'] eqn:E; eexists _, _; (split; [reflexivity|]).
  - destruct (read_Ok _ _ _ _ E) as (Ho & Hc & Hf & _ & Hlen & Hne). apply HOk; [done|done|by intros; apply Hne|].
    intros Hl ->. revert E. unfold read. destruct (inbound c) as [|[[|b bs]| |] ev]; cbn; try done.
    destruct limit; [done|]. case_match; intros; simplify_eq.
  - destruct (read_Err _ _ _ _ E) as (Ho & Hc & Hf & _ & Hd). apply HErr; [apply transport_interrupted|done..].
Qed.

Lemma runs_read_exact_loop fuel wanted got eof c Q : (wanted <= fuel)%nat ->
  (forall bytes c', same_output c c' -> length bytes = wanted -> delivered (inbound c) = bytes ++ delivered (inbound c') -> Q (Ok (got ++ bytes)) c') ->
  (forall e c', transport_error e -> same_output c c' -> (length (delivered (inbound c)) < wanted)%nat -> Q (Err e) c') ->
  runs (read_exact_loop fuel wanted got eof) c Q.
Proof.
  revert wanted got c Q. induction fuel as [|fuel IH]; intros wanted got c Q Hf HOk HErr.
  all: cbn [read_exact_loop]; destruct (wanted =? 0)%nat eqn:Ew; bool_split; try lia.
  1, 2: subst; apply runs_ret; rewrite <- (app_nil_r got); apply HOk; done || reflexivity.
  apply runs_bind, runs_read_some.
  - intros bytes c1 Hs Hlen Hd Hnil. destruct bytes as [|b bytes].
    + cbn. apply runs_throw. apply HErr; [right; by eexists|done|]. rewrite (Hnil Ew eq_refl). cbn. lia.
    + cbn [nonempty negb]. specialize (Hd ltac:(done)). set (bs := b :: bytes) in *.
      assert (0 < length bs)%nat by (cbn; lia). apply IH; [lia|..].
      * intros rest c2 Hs2 Hr Hd2. rewrite <- app_assoc. apply HOk.
        { by trans c1. }
        { rewrite length_app. lia. }
        by rewrite Hd, Hd2, app_assoc.
      * intros e c2 He Hs2 Hr. apply HErr; [done|by trans c1|].
        rewrite Hd, length_app. lia.
  - intros e c1 He Hs Hd. apply HErr; [done..|]. rewrite Hd. cbn. lia.
Qed.

Lemma runs_write_bytes bytes c Q :
  (forall c', inbound c' = inbound c -> outbound c' = outbound c ++ bytes -> (write_faults c = [] -> write_faults c' = []) -> Q (Ok tt) c') ->
  (forall e c' w, inbound c' = inbound c -> outbound c' = outbound c ++ w -> w `prefix_of` bytes -> write_faults c <> [] -> Q (Err e) c') ->
  runs (write_bytes bytes) c Q.
Proof.
  intros HOk HErr. unfold runs, write_bytes. destruct (write_all_within bytes c) as [r c'] eqn:E.
  eexists _, _. split; [reflexivity|].
  assert (Hf : write_faults c = [] -> write_faults c' = [] /\ is_ok r = true).
  { revert E. unfold write_all_within. intros E Hn. rewrite Hn in E. by simplify_eq. }
  destruct (write_all_within_spec _ _ _ _ E) as (Hi & _ & w & Ho & Hp & Hw). destruct r as [[]|e].
  - rewrite (Hw eq_refl) in Ho. apply HOk; [done|done|]. naive_solver.
  - apply (HErr _ _ w); [done|done|done|]. naive_solver.
Qed.

(** What a client sends. *)
Definition hello (token : str) : str := HANDSHAKE_MAGIC ++ u16_bytes (length token) ++ token.

Lemma u16_bytes_value hi lo : u16_bytes (Z.to_nat (code hi * 256 + code lo)) = [hi; lo].
Proof.
  pose proof (code_bounds hi). pose proof (code_bounds lo). unfold u16_bytes. rewrite Z2Nat.id by lia.
  rewrite Z.div_add_l, Z.div_small, Z.add_0_r, (Z.add_comm (code hi * 256)), Z.mod_add, Z.mod_small by lia.
  by rewrite !byte_at_code.
Qed.
Lemma u16_bytes_inj m n : (Z.of_nat m <= U16_MAX)%Z -> (Z.of_nat n <= U16_MAX)%Z -> u16_bytes m = u16_bytes n -> m = n.
Proof.
  unfold U16_MAX. intros Hm Hn [= H1 H2].
  assert (forall k, Z.of_nat k <= 2 ^ 16 - 1 -> 0 <= Z.of_nat k / 256 < 256)%Z as Hq.
  { intros k Hk. split; [apply Z.div_pos; lia|apply Z.div_lt_upper_bound; lia]. }
  apply (f_equal code) in H1, H2. rewrite !code_byte_at in H1 by auto.
  rewrite !code_byte_at in H2 by (apply Z.mod_pos_bound; lia).
  pose proof (Z.div_mod (Z.of_nat m) 256). pose proof (Z.div_mod (Z.of_nat n) 256). lia.
Qed.

Lemma runs_read_u16 c Q :
  (forall n c', same_output c c' -> delivered (inbound c) = u16_bytes n ++ delivered (inbound c') -> (Z.of_nat n <= U16_MAX)%Z -> Q (Ok n) c') ->
  (forall e c', transport_error e -> same_output c c' -> (length (delivered (inbound c)) < 2)%nat -> Q (Err e) c') ->
  runs read_u16 c Q.
Proof.
  intros HOk HErr. apply runs_bind, runs_read_exact_loop; [lia| |done].
  intros [|hi [|lo [|]]] c' Hs Hlen Hd; try done. cbn [app]. apply runs_ret, HOk; [done|rewrite u16_bytes_value; exact Hd|].
  unfold U16_MAX. pose proof (code_bounds hi). pose proof (code_bounds lo). lia.
Qed.

(** A greeting with a token of a permitted length at the front of a stream. *)
Definition greeting (d token rest : str) : Prop :=
  d = hello token ++ rest /\ token <> [] /\ (length token <= MAX_TOKEN_BYTES)%nat.

Lemma greeting_magic d token rest : greeting d token rest ->
  exists d1, d = HANDSHAKE_MAGIC ++ d1 /\ d1 = u16_bytes (length token) ++ token ++ rest.
Proof. intros [-> _]. eexists. unfold hello. by rewrite <- !app_assoc. Qed.
Lemma greeting_length d token rest : greeting d token rest ->
  (Z.of_nat (length token) <= U16_MAX)%Z /\ (length token <> 0)%nat.
Proof. intros (_ & Hne & Hl). unfold U16_MAX, MAX_TOKEN_BYTES in *. split; [lia|]. by destruct token. Qed.

Lemma runs_deny e c (Q : result RelayError unit -> Conn -> Prop) :
  (forall c' w, outbound c' = outbound c ++ w -> inbound c' = inbound c -> (write_faults c = [] -> w = [AUTH_DENIED]) ->
     forall e', (write_faults c = [] -> e' = e) -> Q (Err e') c') ->
  runs (write_bytes [AUTH_DENIED] ;; throw e) c Q.
Proof.
  intros HQ. apply runs_bind, runs_write_bytes.
  - intros c' Hi Ho _. apply runs_throw. by eapply HQ.
  - intros e' c' w Hi Ho _ Hf. eapply HQ; [done|done|naive_solver..].
Qed.

Lemma greeting_unique d token rest token' rest' : greeting d token rest -> greeting d token' rest' -> token = token' /\ rest = rest'.
Proof.
  intros Hg Hg'. destruct (greeting_length _ _ _ Hg) as [Hl _], (greeting_length _ _ _ Hg') as [Hl' _].
  destruct Hg as [-> _], Hg' as [E _]. unfold hello in E. rewrite <- !app_assoc in E. apply app_inv_head in E.
  apply app_inj_1 in E as [Hu E]; [|done]. apply u16_bytes_inj in Hu; [|done..]. by apply app_inj_1 in E.
Qed.

(** What the server makes of the bytes [d]: it accepts exactly a greeting with a
    matching token, and answers with one byte. *)
Definition answered `{Sha256} (expected : AuthToken) (d : str) (c : Conn) (r : result RelayError unit) (c' : Conn) : Prop :=
  exists w, outbound c' = outbound c ++ w /\
    match r with
    | Ok _ => w = [AUTH_OK] /\ exists token, greeting d token (delivered (inbound c')) /\ token_matches expected token = true
    | Err e => forall token rest, greeting d token rest -> write_faults c = [] ->
        token_matches expected token = false /\ e = AuthenticationDenied /\ w = [AUTH_DENIED] /\ delivered (inbound c') = rest
    end.

Lemma answered_later `{Sha256} expected d c1 c r c' : same_output c c1 -> answered expected d c1 r c' -> answered expected d c r c'.
Proof. intros (Ho & _ & Hf) (w & Hw & Hr). exists w. rewrite <- Ho, <- Hf. done. Qed.
Lemma not_answered `{Sha256} expected d c e c' : same_output c c' -> (forall token rest, ~ greeting d token rest) ->
  answered expected d c (Err e) c'.
Proof. intros (Ho & _) Hno. exists []. rewrite app_nil_r. split; [done|]. intros ? ? Hg. by apply Hno in Hg. Qed.
Lemma runs_denied `{Sha256} expected d c e : (forall token rest, ~ greeting d token rest) ->
  runs (write_bytes [AUTH_DENIED] ;; throw e) c (answered expected d c).
Proof.
  intros Hno. apply runs_deny. intros c' w Ho _ _ e' _. exists w. split; [done|]. intros ? ? Hg. by apply Hno in Hg.
Qed.

(** The token, after the magic and its length. *)
Lemma runs_candidate `{Sha256} expected d n c : (0 < n <= MAX_TOKEN_BYTES)%nat ->
  (forall token rest, greeting d token rest <-> length token = n /\ delivered (inbound c) = token ++ rest) ->
  runs (candidate ← read_exact n;
        if negb (token_matches expected candidate) then write_bytes [AUTH_DENIED] ;; throw AuthenticationDenied
        else write_bytes [AUTH_OK]) c (answered expected d c).
Proof.
  intros Hn Hg. apply runs_bind, runs_read_exact_loop; [lia| |].
  2:{ intros e c' _ Hs Hlen. apply not_answered; [done|]. intros token rest [Hl Hd]%Hg. rewrite Hd, length_app in Hlen. lia. }
  intros token c1 Hs Hl Hd. cbn [app]. destruct (token_matches expected token) eqn:Em; cbn [negb].
  - apply runs_write_bytes.
    + intros c2 Hi Ho _. apply (answered_later _ _ c1); [done|]. exists [AUTH_OK]. split; [done|]. split; [done|].
      exists token. split; [|done]. apply Hg. rewrite Hi. done.
    + intros e c2 w Hi Ho _ Hf. apply (answered_later _ _ c1); [done|]. exists w. split; [done|]. done.
  - apply runs_deny. intros c2 w Ho Hi Hw e He. apply (answered_later _ _ c1); [done|]. exists w. split; [done|].
    intros token' rest [Hl' Hd']%Hg Hf. rewrite Hd in Hd'. apply app_inj_1 in Hd' as [<- Hr]; [|congruence].
    specialize (Hw Hf). specialize (He Hf). rewrite Hi. done.
Qed.

Lemma runs_authenticate_server `{Sha256} expected c :
  runs (authenticate_server expected) c (answered expected (delivered (inbound c)) c).
Proof.
  unfold authenticate_server. apply runs_bind, runs_read_exact_loop; [lia| |].
  2:{ intros e c1 _ Hs Hlen. apply not_answered; [done|]. intros token rest (d1 & Hd & _)%greeting_magic.
      rewrite Hd, length_app in Hlen. lia. }
  intros magic c1 Hs1 Hm Hd1. cbn [app].
  refine (runs_mono _ _ _ _ _ (fun r s' => answered_later _ _ c1 _ r s' Hs1)). destruct (magic =s? HANDSHAKE_MAGIC) eqn:Em; cbn [negb].
  2:{ apply runs_denied. intros token rest (d1 & Hd & _)%greeting_magic. apply str_eqb_neq in Em. rewrite Hd1 in Hd.
      by apply app_inj_1 in Hd as [-> _]. }
  apply str_eqb_eq in Em as ->. apply runs_bind, runs_read_u16.
  2:{ intros e c2 _ Hs2 Hlen. apply not_answered; [done|]. intros token rest (d1 & Hd & Hd')%greeting_magic.
      rewrite Hd1 in Hd. apply app_inv_head in Hd. rewrite Hd, Hd' in Hlen. cbn in Hlen. lia. }
  intros n c2 Hs2 Hd2 Hn. refine (runs_mono _ _ _ _ _ (fun r s' => answered_later _ _ c2 _ r s' Hs2)).
  assert (Hg2 : forall token rest, greeting (delivered (inbound c)) token rest <->
    length token = n /\ delivered (inbound c2) = token ++ rest /\ token <> [] /\ (length token <= MAX_TOKEN_BYTES)%nat).
  { intros token rest. split.
    - intros Hg. pose proof (greeting_length _ _ _ Hg) as [Hl _]. destruct (greeting_magic _ _ _ Hg) as (d1 & Hd & Hd').
      rewrite Hd1 in Hd. apply app_inv_head in Hd. rewrite Hd2, Hd' in Hd. apply app_inj_1 in Hd as [Hu Hr]; [|done].
      apply u16_bytes_inj in Hu; [|lia..]. by destruct Hg as (_ & ? & ?).
    - intros (Hl & Hd & ? & ?). split; [|done]. unfold hello. rewrite <- !app_assoc. congruence. }
  destruct ((n =? 0)%nat || (MAX_TOKEN_BYTES <? n)%nat) eqn:En.
  - apply runs_denied. intros token rest (Hl & _ & Hne & Hmax)%Hg2. apply orb_true_iff in En as [E|E]; bool_split; [|lia].
    destruct token; [done|]. cbn in Hl. lia.
  - bool_split. apply runs_candidate; [lia|]. intros token rest. rewrite Hg2. split; [naive_solver|].
    intros [Hl Hd]. split_and!; [done|done| |lia]. intros ->. cbn in Hl. lia.
Qed.

(** The client's side: it sends the greeting and believes the one byte. *)
Lemma runs_authenticate_client token c : (length token <= MAX_TOKEN_BYTES)%nat -> write_faults c = [] ->
  runs (authenticate_client token) c (fun r c' => outbound c' = outbound c ++ hello token /\
    (r = Ok tt <-> exists rest, delivered (inbound c) = AUTH_OK :: rest) /\
    (r = Err AuthenticationDenied <-> exists rest, delivered (inbound c) = AUTH_DENIED :: rest)).
Proof.
  intros Hl Hf. apply runs_bind, runs_throw_if.
  { intros Hlt. bool_split. unfold MAX_TOKEN_BYTES, U16_MAX in *. lia. }
  intros _.
  apply runs_bind, runs_write_bytes; [|done]. intros c1 Hi1 Ho1 Hf1. specialize (Hf1 Hf).
  apply runs_bind, runs_write_bytes; [|done]. intros c2 Hi2 Ho2 Hf2. specialize (Hf2 Hf1).
  apply runs_bind, runs_write_bytes; [|done]. intros c3 Hi3 Ho3 Hf3. specialize (Hf3 Hf2).
  assert (Ho : outbound c3 = outbound c ++ hello token) by (unfold hello; rewrite Ho3, Ho2, Ho1, <- !app_assoc; done).
  assert (Hi : inbound c3 = inbound c) by congruence. clear - Ho Hi.
  apply runs_bind, runs_bind, runs_read_exact_loop; [lia| |].
  - intros [|b [|]] c4 (Ho4 & _) Hlen Hd; try done. rewrite Hi in Hd. cbn [app]. apply runs_ret.
    destruct (is_byte b AUTH_OK) eqn:E1; [|destruct (is_byte b AUTH_DENIED) eqn:E2].
    all: repeat match goal with
      | H : is_byte _ _ = true |- _ => apply is_byte_true in H as ->
      | H : is_byte _ _ = false |- _ => apply is_byte_false in H
      end; (apply runs_ret || apply runs_throw); rewrite Hd, Ho4; naive_solver.
  - intros e c4 He (Ho4 & _) Hlen. rewrite Hi in Hlen. rewrite Ho4. destruct (delivered (inbound c)); [|cbn in Hlen; lia].
    split; [done|]. split; (split; [|by intros []]); [done|]. by destruct He as [->|[? ->]].
Qed.
(** C22: a relay lets in exactly the clients with its token.  Whatever arrives on a
    connection, in whatever pieces, the server's side ends, and accepts only a
    complete greeting whose token matches, with nothing read behind it; and a
    client that presents a token to the server is accepted, by its own account and
    by the server's, exactly when the token matches. *)
Theorem relay_handshake `{Sha256} expected server :
  runs (authenticate_server expected) server (fun r server' =>
    (r = Ok tt -> outbound server' = outbound server ++ [AUTH_OK] /\
       exists token, greeting (delivered (inbound server)) token (delivered (inbound server')) /\ token_matches expected token = true) /\
    forall token rest client,
      AuthToken_new token = Ok token -> delivered (inbound server) = hello token ++ rest ->
      outbound server = [] -> write_faults server = [] ->
      delivered (inbound client) = outbound server' -> write_faults client = [] ->
      runs (authenticate_client token) client (fun r' client' =>
        outbound client' = outbound client ++ hello token /\ delivered (inbound server') = rest /\
        (r = Ok tt <-> token_matches expected token = true) /\ (r' = Ok tt <-> r = Ok tt) /\
        (r' = Err AuthenticationDenied <-> r = Err AuthenticationDenied))).
Proof.
  refine (runs_mono _ _ _ _ (runs_authenticate_server expected server) _). intros r server' (w & Hw & Hr). split.
  { intros ->. destruct Hr as [-> Hr]. done. }
  intros token rest client (_ & Hne & Hl)%AuthToken_new_Ok Hd Ho Hf Hcd Hcf. rewrite Ho in Hw. cbn in Hw.
  refine (runs_mono _ _ _ _ (runs_authenticate_client token client Hl Hcf) _). intros r' client' (Hco & Hok & Hden).
  rewrite Hcd, Hw in Hok, Hden. split; [done|]. assert (Hg : greeting (delivered (inbound server)) token rest) by done.
  destruct r as [[]|e].
  - destruct Hr as [-> (token' & Hg' & Hm)]. destruct (greeting_unique _ _ _ _ _ Hg Hg') as [-> ->]. naive_solver.
  - destruct (Hr _ _ Hg Hf) as (Hm & -> & -> & <-). rewrite Hm. naive_solver.
Qed.

Definition relay_server : Conn := mkConn [Data (take 9 (hello "secret")); Data (drop 9 (hello "secret") ++ "data")] [] [] false.
Lemma relay_handshake_witness :
  let digest : Sha256 := fun s => s in
  exists r server', authenticate_server (H := digest) "secret" relay_server = Some (r, server') /\
    runs (authenticate_client "secret") (mkConn [Data (outbound server')] [] [] false) (fun r' _ => r' = Ok tt) /\ r = Ok tt.
Proof.
  intros digest. destruct (relay_handshake (H := digest) "secret" relay_server) as (r & server' & Hrun & _ & Hclient).
  exists r, server'. split; [done|]. assert (Hr : r = Ok tt).
  { vm_compute in Hrun. by injection Hrun. }
  split; [|done].
  refine (runs_mono _ _ _ _ (Hclient "secret" "data" (mkConn [Data (outbound server')] [] [] false) _ _ _ _ _ _) _).
  1-4: vm_compute; reflexivity.
  - vm_compute in Hrun. injection Hrun as _ <-. reflexivity.
  - reflexivity.
  - intros r' c' (_ & _ & _ & H & _). by apply H.
Defined.
End Handshake.
