(* ===== verification/Relay.v ===== *)
(** * Relays ([codex-start-proxy/src/relay.rs])

    The pumps that copy each direction, the two ways they are combined, the idle
    timer, the accept loops, and the handler that opens the destination only
    after the handshake.  The tasks of a relay run interleaved: what they wait for
    is a list of events in the order in which the runtime delivers them, and the
    clock is one of them. *)

From S2P Require Export Handshake.

(** [TcpStream::connect] and [UnixStream::connect] under a time limit. *)
Class RelayNetwork := {
  connect_tcp : str -> result Streams.Interruption unit;
  connect_unix : str -> result Streams.Interruption unit }.

Module Relay.
Import Streams Auth Handshake.

(** ** One direction *)

(** What a pump waits for. *)
Inductive Phase :=
  | Reading
  | Writing (pending : str) (count : nat)
  | ShuttingDown
  | Finished.

(** [received] and [sent] are what has passed the reader and the writer. *)
Record Pump := mkPump { phase : Phase; received : str; sent : str; writer_closed : bool; copied : Z }.
Definition pump_start : Pump := mkPump Reading [] [] false 0.

(** The end of the operation a pump waits for; [Wrote] is one [write] inside
    [write_all]. *)
Inductive Completion :=
  | ReadReturned (bytes : str)
  | ReadFailed (error : io_error)
  | Wrote (count : nat)
  | WriteFailed (error : io_error)
  | ShutdownReturned
  | ShutdownFailed (error : io_error).

Definition BUFFER : nat := Z.to_nat (32 * 1024).
Arguments BUFFER : simpl never.
Definition saturating_add (x y : Z) : Z := Z.min U64_MAX (x + y).

(** One turn of [pump]: [None] when it does not wait for this, and a flag for
    [activity.send]. *)
Definition pump (self : Pump) (event : Completion) : option (result RelayError (Pump * bool)) :=
  match phase self, event with
  | Reading, ReadReturned [] => Some (Ok (mkPump ShuttingDown (received self) (sent self) (writer_closed self) (copied self), false))
  | Reading, ReadReturned bytes =>
      if (BUFFER <? length bytes)%nat then None
      else Some (Ok (mkPump (Writing bytes (length bytes)) (received self ++ bytes) (sent self) (writer_closed self) (copied self), false))
  | Reading, ReadFailed error => Some (Err (Io error))
  | Writing pending count, Wrote n =>
      if (n =? 0)%nat then Some (Err (Io "failed to write whole buffer"))
      else if (length pending <? n)%nat then None
      else
        let sent := sent self ++ take n pending in
        match drop n pending with
        | [] => Some (Ok (mkPump Reading (received self) sent (writer_closed self) (saturating_add (copied self) (Z.of_nat count)), true))
        | pending => Some (Ok (mkPump (Writing pending count) (received self) sent (writer_closed self) (copied self), false))
        end
  | Writing _ _, WriteFailed error => Some (Err (Io error))
  | ShuttingDown, ShutdownReturned => Some (Ok (mkPump Finished (received self) (sent self) true (copied self), false))
  | ShuttingDown, ShutdownFailed error => Some (Err (Io error))
  | _, _ => None
  end.
Definition finished (self : Pump) : bool := match phase self with Finished => true | _ => false end.

(** ** Both directions *)

Record RelayStats := mkRelayStats { first_to_second : Z; second_to_first : Z }.

(** The pumps from the first to the second stream and back, the clock and the
    start of the idle timer; in [relay_stdio] the first stream is the process's
    own and [draining] is the end of the wait for it. *)
Record Relay := mkRelay { forward : Pump; backward : Pump; now : Z; last_activity : Z; draining : option Z }.
Definition relay_start : Relay := mkRelay pump_start pump_start 0 0 None.
Definition stats (self : Relay) : RelayStats := mkRelayStats (copied (forward self)) (copied (backward self)).

Inductive Event :=
  | Forward (event : Completion)
  | Backward (event : Completion)
  | Tick (nanoseconds : Z).

Inductive Turn :=
  | Running (self : Relay)
  | Ended (self : Relay) (outcome : result RelayError RelayStats).
Definition relay_of (t : Turn) : Relay := match t with Running r | Ended r _ => r end.

Definition set_forward (p : Pump) (active : bool) (self : Relay) : Relay :=
  mkRelay p (backward self) (now self) (if active then now self else last_activity self) (draining self).
Definition set_backward (p : Pump) (active : bool) (self : Relay) : Relay :=
  mkRelay (forward self) p (now self) (if active then now self else last_activity self) (draining self).

(** [transfer_both]: the first error ends it, or the end of both pumps. *)
Definition join (self : Relay) : Turn :=
  if finished (forward self) && finished (backward self) then Ended self (Ok (stats self)) else Running self.

Definition wait_until_idle (idle_timeout now : Z) (self : Relay) : Turn :=
  let later := mkRelay (forward self) (backward self) now (last_activity self) (draining self) in
  if (last_activity self + idle_timeout <=? now)%Z then Ended later (Err IdleTimeout) else Running later.

Definition transfer_both (idle_timeout : Z) (self : Relay) (event : Event) : option Turn :=
  match event with
  | Forward event =>
      r ← pump (forward self) event;
      Some (match r with Ok (p, active) => join (set_forward p active self) | Err e => Ended self (Err e) end)
  | Backward event =>
      r ← pump (backward self) event;
      Some (match r with Ok (p, active) => join (set_backward p active self) | Err e => Ended self (Err e) end)
  | Tick nanoseconds => if (0 <? nanoseconds)%Z then Some (wait_until_idle idle_timeout (now self + nanoseconds) self) else None
  end.

(** The wait for buffered input after the end of the remote output. *)
Definition DRAIN : Z := 50000000.

(** [transfer_stdio]: the end of the remote side ends the relay after that wait,
    with a count of zero when it runs out. *)
Definition transfer_stdio (idle_timeout : Z) (self : Relay) (event : Event) : option Turn :=
  match event with
  | Backward event =>
      r ← pump (backward self) event;
      Some (match r with
            | Ok (p, active) =>
                let next := set_backward p active self in
                if finished p then
                  if finished (forward self) then Ended next (Ok (stats next))
                  else Running (mkRelay (forward next) p (now next) (last_activity next) (Some (now next + DRAIN)%Z))
                else Running next
            | Err e => Ended self (Err e)
            end)
  | Forward event =>
      r ← pump (forward self) event;
      Some (match r with
            | Ok (p, active) =>
                let next := set_forward p active self in
                if finished p && finished (backward self) then Ended next (Ok (stats next)) else Running next
            | Err e => Ended self (Err e)
            end)
  | Tick nanoseconds =>
      let later := (now self + nanoseconds)%Z in
      if negb (0 <? nanoseconds)%Z then None
      else match draining self with
           | Some deadline =>
               if (deadline <=? later)%Z && (deadline <=? last_activity self + idle_timeout)%Z then
                 Some (Ended (mkRelay (forward self) (backward self) later (last_activity self) (draining self))
                         (Ok (mkRelayStats 0 (copied (backward self)))))
               else Some (wait_until_idle idle_timeout later self)
           | None => Some (wait_until_idle idle_timeout later self)
           end
  end.

(** A relay over the events that come; [None] when one of them cannot. *)
Fixpoint run (step : Relay -> Event -> option Turn) (self : Relay) (events : list Event) : option Turn :=
  match events with
  | [] => Some (Running self)
  | event :: events =>
      match step self event with
      | Some (Running self) => run step self events
      | Some turn => match events with [] => Some turn | _ => None end
      | None => None
      end
  end.

Definition refuse_zero (idle_timeout : Z) : result RelayError unit :=
  err_if (idle_timeout =? 0)%Z (InvalidConfig "idle_timeout must be non-zero").
(** [relay_halves], and [relay_bidirectional] on the halves of two streams. *)
Definition relay_halves (idle_timeout : Z) (events : list Event) : option Turn :=
  match refuse_zero idle_timeout with
  | Ok _ => run (transfer_both idle_timeout) relay_start events
  | Err e => Some (Ended relay_start (Err e))
  end.
Definition relay_bidirectional := relay_halves.
Definition relay_stdio (idle_timeout : Z) (events : list Event) : option Turn :=
  match refuse_zero idle_timeout with
  | Ok _ => run (transfer_stdio idle_timeout) relay_start events
  | Err e => Some (Ended relay_start (Err e))
  end.

(** ** The accept loops *)

(** The permits in use and the connections turned away. *)
Record Accepting := mkAccepting { active : nat; denied : nat }.
Inductive ServeEvent :=
  | Shutdown
  | Accepted
  | AcceptFailed (error : io_error)
  | Completed.

(** One turn of [serve_authenticated_tcp] and [serve_client_bridge]. *)
Definition serve_turn (config : RelayConfig) (self : Accepting) (event : ServeEvent) : option (Accepting + result RelayError unit) :=
  match event with
  | Shutdown => Some (inr (Ok tt))
  | AcceptFailed error => Some (inr (Err (Accept error)))
  | Accepted =>
      Some (inl (if (active self <? max_connections config)%nat then mkAccepting (S (active self)) (denied self)
                 else mkAccepting (active self) (S (denied self))))
  | Completed => match active self with S n => Some (inl (mkAccepting n (denied self))) | O => None end
  end.
Fixpoint serve_loop (config : RelayConfig) (self : Accepting) (events : list ServeEvent) : option (Accepting + result RelayError unit) :=
  match events with
  | [] => Some (inl self)
  | event :: events =>
      match serve_turn config self event with
      | Some (inl self) => serve_loop config self events
      | turn => match events with [] => turn | _ => None end
      end
  end.
Definition serve (config : RelayConfig) (events : list ServeEvent) : option (Accepting + result RelayError unit) :=
  match validate config with
  | Ok _ => serve_loop config (mkAccepting 0 0) events
  | Err e => Some (inr (Err e))
  end.

(** ** Handlers *)

Inductive Endpoint := TcpEndpoint (target : str) | UnixEndpoint (path : str).
Definition connect_error (target : str) (i : Interruption) : RelayError :=
  match i with Elapsed => ConnectTimeout target | IoFailed source => Connect target source end.
Definition dial `{RelayNetwork} (endpoint : Endpoint) : result RelayError unit :=
  match endpoint with
  | TcpEndpoint target => map_err (connect_error target) (connect_tcp target)
  | UnixEndpoint path => map_err (connect_error path) (connect_unix path)
  end.

(** How a handler ends, the connection it was given as it left it, the endpoint
    it dialled and the bytes it relayed there. *)
Record Handled := mkHandled {
  outcome : result RelayError RelayStats;
  stream_after : Conn;
  dialled : option Endpoint;
  transfer : option Relay }.

Definition endpoint_of `{TargetFiles, ContentJson, StandardBase64} (target : RelayTarget) : result RelayError Endpoint :=
  match target with
  | Tcp target => Ok (TcpEndpoint target)
  | Unix path => Ok (UnixEndpoint path)
  | UnixTargetFile target_file => UnixEndpoint <$> load_unix_target_file target_file
  end.

(** The relaying of a handler, over the events that come once it has started. *)
Definition relaying (idle_timeout : Z) (events : list Event) (stream : Conn) (endpoint : option Endpoint) : option Handled :=
  match relay_bidirectional idle_timeout events with
  | Some (Ended r outcome) => Some (mkHandled outcome stream endpoint (Some r))
  | _ => None
  end.

Definition handle_authenticated_server `{Sha256, TargetFiles, ContentJson, StandardBase64, RelayNetwork}
    (inbound : Conn) (target : RelayTarget) (token : AuthToken) (config : RelayConfig) (events : list Event) : option Handled :=
  match authenticate_server token inbound with
  | Some (Err e, inbound) => Some (mkHandled (Err e) inbound None None)
  | Some (Ok _, inbound) =>
      match endpoint_of target with
      | Err e => Some (mkHandled (Err e) inbound None None)
      | Ok endpoint =>
          match dial endpoint with
          | Err e => Some (mkHandled (Err e) inbound (Some endpoint) None)
          | Ok _ => relaying (idle_timeout config) events inbound (Some endpoint)
          end
      end
  | None => None
  end.

(** The bridge dials first, then presents its token; [outbound] is the connection
    it gets. *)
Definition handle_client_bridge `{RelayNetwork} (remote : str) (outbound : Conn) (token : AuthToken) (config : RelayConfig)
    (events : list Event) : option Handled :=
  match dial (TcpEndpoint remote) with
  | Err e => Some (mkHandled (Err e) outbound (Some (TcpEndpoint remote)) None)
  | Ok _ =>
      match authenticate_client token outbound with
      | Some (Err e, outbound) => Some (mkHandled (Err e) outbound (Some (TcpEndpoint remote)) None)
      | Some (Ok _, outbound) => relaying (idle_timeout config) events outbound (Some (TcpEndpoint remote))
      | None => None
      end
  end.

(** ** The listening socket *)

Inductive Node := SocketNode (mode : Z) | OtherNode.
(** The faults of the calls, none for a call that succeeds where it can. *)
Record Faults := mkFaults {
  metadata_fault : option io_error;
  remove_fault : option io_error;
  bind_fault : option io_error;
  chmod_fault : option io_error }.

Section bind.
Context (faults : Faults) (umask_mode : Z).

(** 0x180 is the octal 600; [umask_mode] is what [bind] gives a new node. *)
Definition bind_unix_listener (path : str) : ST (gmap str Node) RelayError unit :=
  let call (fault : option io_error) : ST (gmap str Node) RelayError unit :=
    lift (match fault with Some source => Err (BindUnix path source) | None => Ok tt end) in
  call (metadata_fault faults) ;;
  node ← gets (lookup path);
  match node with
  | Some (SocketNode _) => call (remove_fault faults) ;; modify (delete path)
  | Some OtherNode => throw (RefuseReplace path)
  | None => mret tt
  end ;;
  call (bind_fault faults) ;;
  modify <[path := SocketNode umask_mode]> ;;
  call (chmod_fault faults) ;;
  modify <[path := SocketNode 0x180]>.
End bind.

(** ** What a pump keeps *)

Definition pending (self : Pump) : str := match phase self with Writing pending _ => pending | _ => [] end.
(** The bytes of the chunks that have been written completely. *)
Definition transferred (self : Pump) : nat :=
  length (received self) - match phase self with Writing _ count => count | _ => 0 end.

Record pump_ok (self : Pump) : Prop := {
  pump_order : received self = sent self ++ pending self;
  pump_count : copied self = Z.min U64_MAX (Z.of_nat (transferred self));
  pump_closed : writer_closed self = finished self;
  pump_chunk : match phase self with
               | Writing rest count => rest <> [] /\ (length rest <= count <= length (received self))%nat
               | _ => True
               end }.

Lemma pump_start_ok : pump_ok pump_start.
Proof. by split. Qed.

(** What has been read so far. *)
Definition arrival (event : Completion) : str := match event with ReadReturned bytes => bytes | _ => [] end.

Lemma pump_step self event p active : pump self event = Some (Ok (p, active)) -> pump_ok self ->
  pump_ok p /\ received p = received self ++ arrival event /\
  (if active then transferred self < transferred p else transferred p = transferred self)%nat.
Proof.
  intros H [Ho Hc Hcl Hch]. unfold pump in H. destruct self as [ph rcv snt cl cp], ph as [|rest count| |], event as [bytes|e|n|e| |e]; try done; cbn [phase received sent writer_closed copied] in H.
  - destruct bytes as [|b bytes]; [|destruct (BUFFER <? length (b :: bytes))%nat; [done|]]; simplify_eq; cbn in *.
    + rewrite app_nil_r. by repeat split.
    + rewrite app_nil_r in Ho. subst. unfold transferred in *. cbn in *. rewrite length_app. cbn.
      repeat split; cbn; rewrite ?length_app; cbn; try done; try lia.
  - destruct (n =? 0)%nat eqn:En; [done|]. destruct (length rest <? n)%nat eqn:El; [done|]. bool_split.
    destruct (drop n rest) as [|d ds] eqn:Ed; simplify_eq; cbn in *; rewrite ?app_nil_r.
    + assert (take n rest = rest) as Et by (rewrite <- (take_drop n rest) at 2; by rewrite Ed, app_nil_r).
      destruct Hch as [Hne Hlen]. assert (0 < length rest)%nat by (destruct rest; [done|cbn; lia]).
      unfold transferred in *. cbn in *. rewrite Et. repeat split; cbn; rewrite ?app_nil_r; try done; try lia.
      rewrite Hc. unfold saturating_add, transferred. cbn. unfold U64_MAX. lia.
    + destruct Hch as [Hne Hlen]. assert (length (d :: ds) <= length rest)%nat by (rewrite <- Ed, length_drop; lia).
      repeat split; cbn; try done; try (cbn in *; lia). by rewrite Ho, <- app_assoc, <- Ed, take_drop.
  - simplify_eq. cbn in *. rewrite app_nil_r. by repeat split.
Qed.

(** ** What a relay keeps *)

Definition elapsed_by (event : Event) : Z := match event with Tick nanoseconds => nanoseconds | _ => 0 end.
Definition elapsed (events : list Event) : Z := foldr (fun event n => elapsed_by event + n)%Z 0%Z events.
(** What the events bring to each reader. *)
Definition forward_arrivals (events : list Event) : str :=
  concat (map (fun event => match event with Forward event => arrival event | _ => [] end) events).
Definition backward_arrivals (events : list Event) : str :=
  concat (map (fun event => match event with Backward event => arrival event | _ => [] end) events).
Definition moved (self : Relay) : nat := transferred (forward self) + transferred (backward self).

Record relay_ok (self : Relay) : Prop := {
  forward_ok : pump_ok (forward self);
  backward_ok : pump_ok (backward self);
  activity_past : (last_activity self <= now self)%Z }.

(** One turn of the relays, whatever the event. *)
Record step_ok (self : Relay) (event : Event) (next : Relay) : Prop := {
  next_ok : relay_ok next;
  next_forward : received (forward next) = received (forward self) ++ forward_arrivals [event];
  next_backward : received (backward next) = received (backward self) ++ backward_arrivals [event];
  next_now : now next = (now self + elapsed_by event)%Z;
  next_activity :
    (moved next = moved self /\ last_activity next = last_activity self) \/
    (moved self < moved next /\ last_activity next = now next)%nat }.

Lemma step_forward self event p act : pump (forward self) event = Some (Ok (p, act)) -> relay_ok self ->
  step_ok self (Forward event) (set_forward p act self).
Proof.
  intros Hp [Hf Hb Ha]. destruct (pump_step _ _ _ _ Hp Hf) as (Hok & Hr & Ht). unfold set_forward.
  split; cbn; rewrite ?app_nil_r; try done; [split; cbn; try done; by destruct act|lia|].
  unfold moved. cbn. destruct act; [right|left]; (split; [lia|done]).
Qed.
Lemma step_backward self event p act : pump (backward self) event = Some (Ok (p, act)) -> relay_ok self ->
  step_ok self (Backward event) (set_backward p act self).
Proof.
  intros Hp [Hf Hb Ha]. destruct (pump_step _ _ _ _ Hp Hb) as (Hok & Hr & Ht). unfold set_backward.
  split; cbn; rewrite ?app_nil_r; try done; [split; cbn; try done; by destruct act|lia|].
  unfold moved. cbn. destruct act; [right|left]; (split; [lia|done]).
Qed.
Lemma step_tick self d : (0 < d)%Z -> relay_ok self ->
  step_ok self (Tick d) (mkRelay (forward self) (backward self) (now self + d) (last_activity self) (draining self)).
Proof. intros Hd [Hf Hb Ha]. split; cbn; rewrite ?app_nil_r; try done; [split; cbn; try done; lia|by left]. Qed.
(** A failed operation leaves what was moved as it was; it is never a read that
    brought something. *)
Lemma pump_failed self event e : pump self event = Some (Err e) -> arrival event = [] /\ exists source, e = Io source.
Proof.
  unfold pump. destruct (phase self), event as [[]| | | | |]; try done; repeat case_match; intros Hp; simplify_eq; (split; [done|by eexists]).
Qed.
Lemma step_failed self event : elapsed_by event = 0%Z -> forward_arrivals [event] = [] -> backward_arrivals [event] = [] -> relay_ok self ->
  step_ok self event self.
Proof. intros He Hf Hb Hok. split; rewrite ?Hf, ?Hb, ?app_nil_r, ?He; try done; [lia|by left]. Qed.
Lemma step_draining self event next d : step_ok self event next ->
  step_ok self event (mkRelay (forward next) (backward next) (now next) (last_activity next) d).
Proof. intros [[? ? ?] ? ? ? ?]. split; [by split|assumption..]. Qed.

(** The timer: a tick that is survived ends before the limit, and the relay is
    called idle behind it only. *)
Definition timer_ok (idle_timeout : Z) (event : Event) (turn : Turn) : Prop :=
  match turn with
  | Running r => elapsed_by event = 0%Z \/ (now r < last_activity r + idle_timeout)%Z
  | Ended r (Err IdleTimeout) => (last_activity r + idle_timeout <= now r)%Z
  | Ended _ _ => True
  end.
(** An end without an error, in both kinds of relay. *)
Definition steps_well (step : Relay -> Event -> option Turn) (idle_timeout : Z) : Prop :=
  forall self event turn, step self event = Some turn -> relay_ok self ->
    step_ok self event (relay_of turn) /\ timer_ok idle_timeout event turn.

Lemma wait_until_idle_ok idle_timeout self d : (0 < d)%Z -> relay_ok self ->
  step_ok self (Tick d) (relay_of (wait_until_idle idle_timeout (now self + d) self)) /\
  timer_ok idle_timeout (Tick d) (wait_until_idle idle_timeout (now self + d) self).
Proof.
  intros Hd Hok. unfold wait_until_idle. case_match; bool_split; (split; [by apply step_tick|]); cbn; [lia|right; lia].
Qed.
Lemma failed_ok idle_timeout self event e : (elapsed_by event = 0)%Z -> forward_arrivals [event] = [] -> backward_arrivals [event] = [] ->
  (exists source, e = Io source) -> relay_ok self ->
  step_ok self event (relay_of (Ended self (Err e))) /\ timer_ok idle_timeout event (Ended self (Err e)).
Proof. intros He Hf Hb [s ->] Hok. split; [by apply step_failed|done]. Qed.

Lemma transfer_both_steps idle_timeout : steps_well (transfer_both idle_timeout) idle_timeout.
Proof.
  intros self event turn H Hok. destruct event as [event|event|d]; cbn in H.
  1, 2: apply bind_Some in H as ([[p act]|e] & Hp & [= <-]);
    [|apply pump_failed in Hp as [Ha He]; apply failed_ok; cbn; rewrite ?Ha; done].
  - pose proof (step_forward _ _ _ _ Hp Hok). unfold join. case_match; (split; [done|]); cbn; auto.
  - pose proof (step_backward _ _ _ _ Hp Hok). unfold join. case_match; (split; [done|]); cbn; auto.
  - destruct (0 <? d)%Z eqn:Ed; simplify_eq. bool_split. by apply wait_until_idle_ok.
Qed.
Lemma transfer_stdio_steps idle_timeout : steps_well (transfer_stdio idle_timeout) idle_timeout.
Proof.
  intros self event turn H Hok. destruct event as [event|event|d]; cbn in H.
  1, 2: apply bind_Some in H as ([[p act]|e] & Hp & [= <-]);
    [|apply pump_failed in Hp as [Ha He]; apply failed_ok; cbn; rewrite ?Ha; done].
  - pose proof (step_forward _ _ _ _ Hp Hok). case_match; (split; [done|]); cbn; auto.
  - pose proof (step_backward _ _ _ _ Hp Hok) as Hs. destruct (finished p); [destruct (finished (forward self))|].
    all: split; [done || by apply (step_draining _ _ _ _ Hs)|cbn; auto].
  - destruct (0 <? d)%Z eqn:Ed; cbn in H; [|done]. bool_split. destruct (draining self) as [deadline|]; [case_match|];
      simplify_eq; try by apply wait_until_idle_ok.
    split; [|done]. by apply (step_draining _ _ _ (Some deadline) (step_tick _ _ Ed Hok)).
Qed.

(** ** A whole run *)

Section runs.
Context (step : Relay -> Event -> option Turn) (idle_timeout : Z) (Hstep : steps_well step idle_timeout).

Lemma run_app self pre r post : run step self pre = Some (Running r) -> run step self (pre ++ post) = run step r post.
Proof.
  revert self. induction pre as [|event pre IH]; intros self H; cbn in *; [by simplify_eq|].
  destruct (step self event) as [[next|]|]; [by apply IH|by destruct pre|done].
Qed.

(** The state at the end, in terms of the one at the start. *)
Lemma run_spec self events turn : run step self events = Some turn -> relay_ok self ->
  let r := relay_of turn in
  relay_ok r /\
  received (forward r) = received (forward self) ++ forward_arrivals events /\
  received (backward r) = received (backward self) ++ backward_arrivals events /\
  now r = (now self + elapsed events)%Z /\
  (moved self <= moved r)%nat /\ (moved r = moved self -> last_activity r = last_activity self).
Proof.
  revert self. induction events as [|event events IH]; intros self H Hok; cbn in H.
  { simplify_eq. cbn. rewrite !app_nil_r, Z.add_0_r. by repeat split; try apply Hok. }
  destruct (step self event) as [turn1|] eqn:E1; [|done]. destruct (Hstep _ _ _ E1 Hok) as [[Hok1 Hf1 Hb1 Hn1 Ha1] _].
  change (forward_arrivals (event :: events)) with ((match event with Forward e => arrival e | _ => [] end) ++ forward_arrivals events).
  change (backward_arrivals (event :: events)) with ((match event with Backward e => arrival e | _ => [] end) ++ backward_arrivals events).
  cbn in Hf1, Hb1. rewrite app_nil_r in Hf1, Hb1. cbn [elapsed foldr]. fold (elapsed events).
  destruct turn1 as [next|next out].
  - destruct (IH _ H Hok1) as (Hok2 & Hf2 & Hb2 & Hn2 & Hm2 & Ha2). cbn in *. rewrite !app_assoc, <- Hf1, <- Hb1.
    split; [done|]. split; [done|]. split; [done|]. split; [lia|]. split; [lia|]. intros Hm.
    rewrite Ha2 by lia. destruct Ha1 as [[_ ?]|[? _]]; [done|lia].
  - destruct events; [|done]. simplify_eq. cbn in *. rewrite !app_nil_r. split; [done|]. split; [done|]. split; [done|].
    split; [lia|]. split; [lia|]. intros Hm. destruct Ha1 as [[_ ?]|[? _]]; [done|lia].
Qed.

(** The start of the timer is the start of the run or the end of a write. *)
Lemma run_last_activity self events turn : run step self events = Some turn -> relay_ok self ->
  (moved (relay_of turn) = moved self /\ last_activity (relay_of turn) = last_activity self) \/
  (exists pre post r, events = pre ++ post /\ run step self pre = Some (Running r) /\
     moved r = moved (relay_of turn) /\ now r = last_activity (relay_of turn)) \/
  (exists out, turn = Ended (relay_of turn) out /\ last_activity (relay_of turn) = now (relay_of turn)).
Proof.
  revert self. induction events as [|event events IH]; intros self H Hok; cbn in H.
  { simplify_eq. by left. }
  destruct (step self event) as [turn1|] eqn:E1; [|done]. destruct (Hstep _ _ _ E1 Hok) as [[Hok1 _ _ _ Ha1] _].
  destruct turn1 as [next|next out].
  2:{ destruct events; [|done]. simplify_eq. cbn in *. destruct Ha1 as [?|[_ Ha]]; [by left|].
      right; right. by exists out. }
  cbn in *. destruct (IH _ H Hok1) as [[Hm Ha]|[(pre & post & r & -> & Hr & Hm & Hn)|Hend]].
  - destruct Ha1 as [[Hm1 Hl1]|[Hm1 Hl1]]; [left; split; congruence|].
    right; left. exists [event], events, next. cbn. rewrite E1. split; [done|]. split; [done|]. split; congruence.
  - right; left. exists (event :: pre), post, r. cbn. by rewrite E1.
  - by right; right.
Qed.

Lemma run_running self events r : run step self events = Some (Running r) -> (0 < idle_timeout)%Z -> relay_ok self ->
  (now self < last_activity self + idle_timeout)%Z -> (now r < last_activity r + idle_timeout)%Z.
Proof.
  revert self. induction events as [|event events IH]; intros self H Hidle Hok Hnow; cbn in H; [by simplify_eq|].
  destruct (step self event) as [turn1|] eqn:E1; [|done]. destruct (Hstep _ _ _ E1 Hok) as [[Hok1 _ _ Hn1 Ha1] Ht].
  destruct turn1 as [next|next out]; [|by destruct events]. apply (IH next); try done. cbn in *.
  destruct Ht as [He|?]; [|done]. destruct Ha1 as [[_ ->]|[_ ->]]; lia.
Qed.

Lemma run_idle self events r : run step self events = Some (Ended r (Err IdleTimeout)) -> relay_ok self ->
  (last_activity r + idle_timeout <= now r)%Z.
Proof.
  revert self. induction events as [|event events IH]; intros self H Hok; cbn in H; [done|].
  destruct (step self event) as [turn1|] eqn:E1; [|done]. destruct (Hstep _ _ _ E1 Hok) as [[Hok1 _ _ _ _] Ht].
  destruct turn1 as [next|next out]; [by eapply IH|]. destruct events; [|done]. by simplify_eq.
Qed.

(** Nothing has been written completely for the whole of the limit. *)
Definition quiet (events : list Event) (turn : Turn) : Prop :=
  exists pre post r, events = pre ++ post /\ run step relay_start pre = Some (Running r) /\
    moved r = moved (relay_of turn) /\ (idle_timeout <= elapsed post)%Z.

Lemma relay_start_ok : relay_ok relay_start.
Proof. split; [apply pump_start_ok..|done]. Qed.

Lemma idle_is_quiet events r : (0 < idle_timeout)%Z -> run step relay_start events = Some (Ended r (Err IdleTimeout)) -> quiet events (Ended r (Err IdleTimeout)).
Proof.
  intros Hidle H. pose proof (run_idle _ _ _ H relay_start_ok) as Hi.
  destruct (run_spec _ _ _ H relay_start_ok) as (_ & _ & _ & Hn & _). cbn in Hn.
  destruct (run_last_activity _ _ _ H relay_start_ok) as [[Hm Ha]|[(pre & post & r1 & -> & Hr & Hm & Hn1)|(out & _ & Ha)]]; cbn in *.
  - exists [], events, relay_start. cbn. split; [done|]. split; [done|]. split; [done|]. lia.
  - exists pre, post, r1. split; [done|]. split; [done|]. split; [done|]. rewrite (run_app _ _ _ _ Hr) in H.
    destruct (run_spec _ _ _ Hr relay_start_ok) as (Hok1 & _). destruct (run_spec _ _ _ H Hok1) as (_ & _ & _ & Hn2 & _).
    cbn in *. lia.
  - lia.
Qed.
Lemma running_not_quiet events r : (0 < idle_timeout)%Z -> run step relay_start events = Some (Running r) -> ~ quiet events (Running r).
Proof.
  intros Hidle H (pre & post & r1 & -> & Hr & Hm & He). cbn in Hm.
  pose proof (run_running _ _ _ H Hidle relay_start_ok ltac:(cbn; lia)) as Hnow. rewrite (run_app _ _ _ _ Hr) in H.
  destruct (run_spec _ _ _ Hr relay_start_ok) as (Hok1 & _). destruct (run_spec _ _ _ H Hok1) as (_ & _ & _ & Hn2 & _ & Ha).
  cbn in *. specialize (Ha ltac:(lia)). destruct Hok1. lia.
Qed.
End runs.

Lemma run_ended step self events r out : run step self events = Some (Ended r out) ->
  exists pre last event, events = pre ++ [event] /\ run step self pre = Some (Running last) /\ step last event = Some (Ended r out).
Proof.
  revert self. induction events as [|event events IH]; intros self H; cbn in H; [done|].
  destruct (step self event) as [[next|next out1]|] eqn:E1; [| |done].
  - destruct (IH _ H) as (pre & last & e & -> & Hr & He). exists (event :: pre), last, e. cbn. by rewrite E1.
  - destruct events; [|done]. simplify_eq. by exists [], self, event.
Qed.

Lemma finished_all p : pump_ok p -> finished p = true ->
  sent p = received p /\ writer_closed p = true /\ copied p = Z.min U64_MAX (Z.of_nat (length (received p))).
Proof.
  intros [Ho Hc Hcl _] Hf. rewrite Hcl, Hc, Ho. unfold finished, pending, transferred in *. destruct (phase p); try done.
  rewrite !app_nil_r, Nat.sub_0_r. by rewrite Ho, app_nil_r.
Qed.

(** What has left is a prefix of what has come, whole once the end has been passed on. *)
Lemma sent_prefix p : pump_ok p -> sent p `prefix_of` received p.
Proof. intros [-> _ _ _]. apply prefix_app_r. done. Qed.

(** The count of a direction, in 64 bits. *)
Definition counted (bytes : str) : Z := Z.min U64_MAX (Z.of_nat (length bytes)).

Lemma transfer_both_Ok idle_timeout self event r s : transfer_both idle_timeout self event = Some (Ended r (Ok s)) ->
  finished (forward r) = true /\ finished (backward r) = true /\ s = stats r.
Proof.
  destruct event as [event|event|d]; cbn; intros H.
  1, 2: apply bind_Some in H as ([[p act]|e] & Hp & H); simplify_eq; unfold join in *; case_match; simplify_eq; bool_split; done.
  destruct (0 <? d)%Z; [|done]. unfold wait_until_idle in H. by case_match; simplify_eq.
Qed.

(** C23: a relay is faithful in both directions.  Whatever the order in which the
    two directions and the clock advance, what has been sent to either side is a
    prefix of what has come from the other; a relay that ends well has passed on
    everything and the end of it, and reports the right counts; and it is given up
    as idle exactly when no chunk has been written in either direction for the
    whole limit. *)
Theorem relay_faithful idle_timeout events turn :
  (0 < idle_timeout)%Z -> relay_halves idle_timeout events = Some turn ->
  let r := relay_of turn in
  sent (forward r) `prefix_of` forward_arrivals events /\ sent (backward r) `prefix_of` backward_arrivals events /\
  match turn with
  | Running _ => ~ quiet (transfer_both idle_timeout) idle_timeout events turn
  | Ended _ (Ok s) =>
      sent (forward r) = forward_arrivals events /\ sent (backward r) = backward_arrivals events /\
      writer_closed (forward r) = true /\ writer_closed (backward r) = true /\
      s = mkRelayStats (counted (forward_arrivals events)) (counted (backward_arrivals events))
  | Ended _ (Err IdleTimeout) => quiet (transfer_both idle_timeout) idle_timeout events turn
  | Ended _ (Err _) => True
  end.
Proof.
  intros Hidle H. unfold relay_halves, refuse_zero in H. rewrite (proj2 (Z.eqb_neq _ _)) in H by lia. cbn in H.
  pose proof (transfer_both_steps idle_timeout) as Hstep.
  destruct (run_spec _ _ Hstep _ _ _ H relay_start_ok) as ([Hfo Hbo _] & Hf & Hb & _). cbn in Hf, Hb. cbn zeta.
  rewrite <- Hf, <- Hb. split; [by apply sent_prefix|]. split; [by apply sent_prefix|].
  destruct turn as [r|r [s|e]]; cbn in *.
  - by eapply running_not_quiet.
  - destruct (run_ended _ _ _ _ _ H) as (_ & last & event & _ & _ & (Hff & Hbf & ->)%transfer_both_Ok).
    destruct (finished_all _ Hfo Hff) as (-> & -> & Hcf), (finished_all _ Hbo Hbf) as (-> & -> & Hcb).
    repeat split. unfold stats, counted. by rewrite Hcf, Hcb.
  - destruct e; try done. by eapply idle_is_quiet.
Qed.

(** Ten bytes one way in two chunks, an answer, and both ends. *)
Definition both_ways : list Event :=
  [Forward (ReadReturned "hello "); Tick 5; Forward (Wrote 2); Backward (ReadReturned "hi"); Forward (Wrote 4);
   Forward (ReadReturned "host"); Forward (Wrote 4); Backward (Wrote 2); Forward (ReadReturned []); Forward ShutdownReturned;
   Tick 99; Backward (ReadReturned []); Backward ShutdownReturned].
Lemma relay_faithful_witness :
  exists r, relay_halves 100 both_ways = Some (Ended r (Ok (mkRelayStats 10 2))) /\
    sent (forward r) = forward_arrivals both_ways /\ sent (backward r) = ("hi" : str).
Proof.
  destruct (relay_halves 100 both_ways) as [turn|] eqn:E; [|by vm_compute in E].
  pose proof (relay_faithful 100 both_ways turn ltac:(lia) E) as (Hf & Hb & H).
  vm_compute in E. injection E as <-. cbn in H. destruct H as (H1 & H2 & _). eexists. split; [reflexivity|]. split; [exact H1|].
  exact H2.
Defined.

(** ** The process's own streams *)

(** Once the remote side has ended, the relay waits for buffered input only. *)
Definition drains (self : Relay) : Prop :=
  match draining self with
  | Some deadline =>
      finished (backward self) = true /\ finished (forward self) = false /\ (now self < deadline <= now self + DRAIN)%Z
  | None => finished (backward self) = false
  end.

Lemma finished_stops p event r : pump p event = Some r -> finished p = false.
Proof. unfold pump, finished. by destruct (phase p), event. Qed.
Lemma drains_backward self : drains self -> finished (backward self) = false -> draining self = None.
Proof. unfold drains. destruct (draining self); [|done]. by intros [-> _]. Qed.

Lemma transfer_stdio_drains idle_timeout self event next :
  transfer_stdio idle_timeout self event = Some (Running next) -> drains self -> drains next.
Proof.
  intros H Hd. destruct event as [event|event|d]; cbn in H.
  - apply bind_Some in H as ([[p act]|e] & Hp & H); [|done]. case_match eqn:E; simplify_eq.
    unfold drains in *. cbn. destruct (draining self); [|done]. destruct Hd as (Hb & _ & Hd).
    rewrite Hb, andb_true_r in E. done.
  - apply bind_Some in H as ([[p act]|e] & Hp & H); [|done]. pose proof (drains_backward _ Hd (finished_stops _ _ _ Hp)) as Hdr.
    destruct (finished p) eqn:Ep; [case_match eqn:Ef|]; simplify_eq; unfold drains; cbn.
    + unfold DRAIN. split; [done|]. split; [done|]. lia.
    + by rewrite Hdr.
  - destruct (0 <? d)%Z eqn:Ed; cbn in H; [|done]. bool_split. unfold drains in *. destruct (draining self) as [deadline|] eqn:Edr.
    + case_match eqn:E; [done|]. unfold wait_until_idle in H. case_match; simplify_eq. bool_split. cbn. rewrite Edr.
      destruct Hd as (? & ? & ?). split; [done|]. split; [done|]. apply andb_false_iff in E as [E|E]; bool_split; lia.
    + unfold wait_until_idle in H. case_match; simplify_eq. cbn. by rewrite Edr.
Qed.

Lemma run_stdio_drains idle_timeout self events r : run (transfer_stdio idle_timeout) self events = Some (Running r) ->
  drains self -> drains r.
Proof.
  revert self. induction events as [|event events IH]; intros self H Hd; cbn in H; [by simplify_eq|].
  destruct (transfer_stdio idle_timeout self event) as [[next|]|] eqn:E1; [|by destruct events|done].
  apply (IH next); [done|]. by eapply transfer_stdio_drains.
Qed.

Lemma transfer_stdio_Ok idle_timeout self event r s : transfer_stdio idle_timeout self event = Some (Ended r (Ok s)) ->
  drains self ->
  finished (backward r) = true /\ second_to_first s = copied (backward r) /\
  ((finished (forward r) = true /\ first_to_second s = copied (forward r)) \/
   (finished (forward r) = false /\ first_to_second s = 0%Z)).
Proof.
  intros H Hd. destruct event as [event|event|d]; cbn in H.
  - apply bind_Some in H as ([[p act]|e] & Hp & H); simplify_eq; case_match; simplify_eq; bool_split; auto.
  - apply bind_Some in H as ([[p act]|e] & Hp & H); simplify_eq. case_match; [case_match|]; simplify_eq. auto.
  - destruct (0 <? d)%Z; cbn in H; [|done]. unfold wait_until_idle in H. unfold drains in Hd.
    destruct (draining self) as [deadline|]; [|by case_match; simplify_eq].
    case_match; [|by case_match; simplify_eq]. simplify_eq. cbn. destruct Hd as (? & ? & _). auto.
Qed.

(** A relay between a process's own streams and a remote one ends with the
    remote side.  What is sent is a prefix of what has come, in both directions; an
    end without an error means that the whole remote output has been passed on and
    counted; after the remote end the relay goes on for at most the fifty
    milliseconds that buffered input may take, and if that runs out the count of
    the input is reported as zero. *)
Theorem stdio_ends_with_remote idle_timeout events turn :
  (0 < idle_timeout)%Z -> relay_stdio idle_timeout events = Some turn ->
  let r := relay_of turn in
  sent (forward r) `prefix_of` forward_arrivals events /\ sent (backward r) `prefix_of` backward_arrivals events /\
  match turn with
  | Running _ =>
      ~ quiet (transfer_stdio idle_timeout) idle_timeout events turn /\
      (finished (backward r) = true -> exists deadline, draining r = Some deadline /\ now r < deadline <= now r + DRAIN)%Z
  | Ended _ (Ok s) =>
      sent (backward r) = backward_arrivals events /\ writer_closed (backward r) = true /\
      second_to_first s = counted (backward_arrivals events) /\
      ((sent (forward r) = forward_arrivals events /\ writer_closed (forward r) = true /\
          first_to_second s = counted (forward_arrivals events)) \/
       (writer_closed (forward r) = false /\ first_to_second s = 0%Z))
  | Ended _ (Err IdleTimeout) => quiet (transfer_stdio idle_timeout) idle_timeout events turn
  | Ended _ (Err _) => True
  end.
Proof.
  intros Hidle H. unfold relay_stdio, refuse_zero in H. rewrite (proj2 (Z.eqb_neq _ _)) in H by lia. cbn in H.
  pose proof (transfer_stdio_steps idle_timeout) as Hstep.
  destruct (run_spec _ _ Hstep _ _ _ H relay_start_ok) as ([Hfo Hbo _] & Hf & Hb & _). cbn in Hf, Hb. cbn zeta.
  rewrite <- Hf, <- Hb. split; [by apply sent_prefix|]. split; [by apply sent_prefix|].
  destruct turn as [r|r [s|e]]; cbn in *.
  - split; [by eapply running_not_quiet|]. intros Hbf. pose proof (run_stdio_drains _ _ _ _ H ltac:(done)) as Hd.
    unfold drains in Hd. destruct (draining r) as [deadline|]; [|congruence]. exists deadline. tauto.
  - destruct (run_ended _ _ _ _ _ H) as (pre & last & event & _ & Hpre & Hlast).
    destruct (transfer_stdio_Ok _ _ _ _ _ Hlast) as (Hbf & -> & Hff); [by eapply run_stdio_drains|].
    destruct (finished_all _ Hbo Hbf) as (-> & -> & ->). split; [done|]. split; [done|]. split; [done|].
    destruct Hff as [[Hff ->]|[Hff ->]]; [left|right].
    + destruct (finished_all _ Hfo Hff) as (-> & -> & ->). done.
    + split; [|done]. destruct Hfo as [_ _ -> _]. done.
  - destruct e; try done. by eapply idle_is_quiet.
Qed.

(** The remote side answers and ends while the process keeps its input open. *)
Definition remote_leaves : list Event :=
  [Forward (ReadReturned "ask"); Forward (Wrote 3); Backward (ReadReturned "answer"); Backward (Wrote 6);
   Backward (ReadReturned []); Backward ShutdownReturned; Tick DRAIN].
Lemma stdio_ends_with_remote_witness :
  exists r, relay_stdio (seconds 300) remote_leaves = Some (Ended r (Ok (mkRelayStats 0 6))) /\
    sent (backward r) = backward_arrivals remote_leaves /\ sent (forward r) = ("ask" : str).
Proof.
  destruct (relay_stdio (seconds 300) remote_leaves) as [turn|] eqn:E; [|by vm_compute in E].
  pose proof (stdio_ends_with_remote (seconds 300) remote_leaves turn eq_refl E) as (Hf & Hb & H).
  vm_compute in E. injection E as <-. cbn in H. destruct H as (H1 & _). eexists. split; [reflexivity|]. split; [exact H1|].
  reflexivity.
Defined.

(** ** Who is dialled, and when *)

(** A relay server dials nothing for a client that has not presented the
    token, and for one that has, the destination it was configured with; what the
    client sent behind its greeting is left for the relay. *)
Theorem relay_dials_after_handshake `{Sha256, TargetFiles, ContentJson, StandardBase64, RelayNetwork} inbound0 target token config events h :
  handle_authenticated_server inbound0 target token config events = Some h ->
  (is_Some (dialled h) \/ is_ok (outcome h) = true) ->
  exists candidate, greeting (delivered (inbound inbound0)) candidate (delivered (inbound (stream_after h))) /\
    token_matches token candidate = true /\ outbound (stream_after h) = outbound inbound0 ++ [AUTH_OK] /\
    exists endpoint, dialled h = Some endpoint /\ endpoint_of target = Ok endpoint.
Proof.
  unfold handle_authenticated_server.
  destruct (runs_authenticate_server token inbound0) as (r & c & -> & w & Hw & Hr). destruct r as [[]|e].
  2:{ intros Hh. simplify_eq. cbn. by intros [[? ?]|?]. }
  destruct Hr as [-> (candidate & Hg & Hm)]. destruct (endpoint_of target) as [endpoint|e].
  2:{ intros Hh. simplify_eq. cbn. by intros [[? ?]|?]. }
  intros Hh _. assert (Hc : stream_after h = c /\ dialled h = Some endpoint).
  { unfold relaying in Hh. repeat case_match; by simplify_eq. }
  destruct Hc as [-> ->]. exists candidate. split; [done|]. split; [done|]. split; [done|]. by exists endpoint.
Qed.

#[local] Instance no_files : TargetFiles := {|
  target_metadata := fun path => Ok (mkNodeMetadata false true 0x180 40);
  target_read := fun path => Ok ("unused" : str) |}.
#[local] Instance agent_json : ContentJson := fun bytes => Some (ContentMap [("unix_base64" : str, ContentString ("/run/agent" : str))]).
#[local] Instance same_base64 : StandardBase64 := fun s => Some s.
#[local] Instance open_network : RelayNetwork := {| connect_tcp := fun _ => Ok tt; connect_unix := fun _ => Ok tt |}.
#[local] Instance same_digest : Sha256 := fun s => s.

Lemma relay_dials_after_handshake_witness :
  exists h, handle_authenticated_server relay_server (UnixTargetFile "/state/target") "secret" RelayConfig_default
              [Forward (ReadReturned []); Forward ShutdownReturned; Backward (ReadReturned []); Backward ShutdownReturned] = Some h /\
    dialled h = Some (UnixEndpoint "/run/agent") /\ exists candidate, token_matches "secret" candidate = true.
Proof.
  set (events := [Forward _; _; _; _]).
  destruct (handle_authenticated_server relay_server (UnixTargetFile "/state/target") "secret" RelayConfig_default events) as [h|] eqn:E;
    [|by vm_compute in E].
  exists h. split; [done|]. destruct (relay_dials_after_handshake _ _ _ _ _ _ E) as (candidate & _ & Hm & _ & endpoint & Hd & He).
  { right. vm_compute in E. injection E as <-. reflexivity. }
  split; [|by exists candidate]. rewrite Hd. vm_compute in He. injection He as <-. reflexivity.
Defined.

(** ** The accept loop *)

Lemma serve_loop_within config self events self' : serve_loop config self events = Some (inl self') ->
  (active self <= max_connections config -> active self' <= max_connections config)%nat.
Proof.
  revert self. induction events as [|event events IH]; intros self Hrun Hle; cbn in Hrun; [by simplify_eq|].
  destruct (serve_turn config self event) as [[next|]|] eqn:E; [| |by destruct events].
  - apply (IH _ Hrun). destruct event; unfold serve_turn in E; simplify_eq; [case_match; bool_split; cbn; lia|].
    destruct (active self); [done|]. simplify_eq. cbn. lia.
  - by destruct events.
Qed.
(** The clients served at once never pass the limit, which is not zero. *)
Lemma serve_within config events self : serve config events = Some (inl self) ->
  (active self <= max_connections config)%nat /\ (0 < max_connections config)%nat.
Proof.
  unfold serve. destruct (validate config) as [[]|] eqn:E; [|done]. intros H. split; [|].
  - eapply serve_loop_within; [done|]. cbn. lia.
  - unfold validate in E. ok_inv E. bool_split. lia.
Qed.

(** Binding replaces a socket only, and leaves every other node alone. *)
Lemma bind_unix_listener_spec faults umask path nodes r nodes' :
  bind_unix_listener faults umask path nodes = Some (r, nodes') ->
  delete path nodes' = delete path nodes /\
  (nodes !! path = Some OtherNode -> nodes' = nodes /\ is_ok r = false) /\
  (r = Ok tt -> nodes' !! path = Some (SocketNode 0x180)).
Proof.
  unfold bind_unix_listener. st_run. destruct (metadata_fault faults) as [e|]; [by intros [= <- <-]|].
  st_run. destruct (nodes !! path) as [[mode|]|]; st_run.
  2:{ by intros [= <- <-]. }
  1: destruct (remove_fault faults) as [e|]; st_run; [by intros [= <- <-]|].
  all: destruct (bind_fault faults) as [e|]; st_run; [intros [= <- <-]; by rewrite ?delete_delete_eq|].
  all: destruct (chmod_fault faults) as [e|]; st_run; intros [= <- <-].
  all: rewrite ?delete_insert_eq, ?delete_delete_eq, ?lookup_insert_eq; done.
Qed.
End Relay.
