(* ===== verification/FileSystem.v ===== *)
(** * A Unix file system, as the programs see it

    A tree of nodes under their absolute paths, the kernel's walk along a path with
    its symbolic links, and the calls of [std::fs] as computations that may fail:
    besides the errors that follow from the tree, each call takes one entry of a
    list of faults (none left: no fault).  There are no hard links and nobody else
    changes the tree during a call. *)

From S2P Require Export RustPath StateErr.

(** The order in which a directory gives its entries. *)
Class DirectoryOrder := directory_order : list str -> list str -> list str.
Class DirectoryOrderLaw (O : DirectoryOrder) : Prop :=
  directory_order_permutes key names : Permutation (directory_order key names) names.

Module FileSystem.

(** The kinds of [io::Error] the sources tell apart. *)
Inductive IoError :=
  | NotFound
  | AlreadyExists
  | OtherError (text : str).
#[export] Instance IoError_eq_dec : EqDecision IoError.
Proof. solve_decision. Defined.
(** [io::Error] as text. *)
Definition io_text (error : IoError) : str :=
  match error with
  | NotFound => "No such file or directory (os error 2)"
  | AlreadyExists => "File exists (os error 17)"
  | OtherError text => text
  end.

Inductive Kind :=
  | Dir
  | Regular (content : str)
  | Symlink (target : str)
  | Socket
  | Special.
Record Node := mkNode { kind : Kind; mode : Z; owner : Z * Z; device : Z }.

Definition is_dir (n : Node) : bool := match kind n with Dir => true | _ => false end.
Definition is_regular (n : Node) : bool := match kind n with Regular _ => true | _ => false end.
Definition is_link (n : Node) : bool := match kind n with Symlink _ => true | _ => false end.
Definition is_socket (n : Node) : bool := match kind n with Socket => true | _ => false end.
(** [metadata.len()] of a regular file. *)
Definition len (n : Node) : Z := match kind n with Regular content => Z.of_nat (length content) | _ => 0 end.

(** The absolute path of a node, as the names on the way. *)
Notation Key := (list str) (only parsing).
Record Fs := mkFs {
  nodes : gmap Key Node;
  working : Key;
  umask : Z;
  identity : Z * Z;
  faults : list (option IoError) }.

(** ** The walk along a path *)

Definition LINKS : nat := 40.
(** [next] is a symbolic link in the middle of a path, or at its end if it is
    followed; everything else in the middle has to be a directory. *)
Fixpoint walk (links : nat) (tree : gmap Key Node) (follow : bool) : Key -> list component -> result IoError Key :=
  fix go (here : Key) (path : list component) : result IoError Key :=
    match path with
    | [] => Ok here
    | RootDir :: path => go [] path
    | CurDir :: path => go here path
    | ParentDir :: path => go (removelast here) path
    | Normal name :: path =>
        let next := here ++ [name] in
        match tree !! next with
        | None => if nonempty path then Err NotFound else Ok next
        | Some node =>
            match kind node with
            | Dir => go next path
            | Symlink target =>
                if nonempty path || follow then
                  match links with
                  | O => Err (OtherError "Too many levels of symbolic links")
                  | S links => walk links tree follow here (components target ++ path)
                  end
                else Ok next
            | _ => if nonempty path then Err (OtherError "Not a directory") else Ok next
            end
        end
    end.

(** The empty path is of nothing.  A path that ends in a separator is one of a
    directory: a link there is followed. *)
Definition resolve (follow : bool) (path : str) (fs : Fs) : result IoError Key :=
  if negb (nonempty path) then Err NotFound else
  walk LINKS (nodes fs) (follow || ends_with "/" path) (if is_absolute path then [] else working fs) (components path).

(** ** Calls *)

Notation IO := (ST Fs IoError) (only parsing).

Definition set_nodes (f : gmap Key Node -> gmap Key Node) (fs : Fs) : Fs :=
  mkFs (f (nodes fs)) (working fs) (umask fs) (identity fs) (faults fs).
(** The fault of a call, if it has one. *)
Definition may_fault : IO unit := fun fs =>
  let rest := mkFs (nodes fs) (working fs) (umask fs) (identity fs) (tail (faults fs)) in
  match faults fs with
  | Some error :: _ => Some (Err error, rest)
  | _ => Some (Ok tt, rest)
  end.

(** The node at the end of a path. *)
Definition stat (follow : bool) (path : str) : IO (Key * Node) :=
  may_fault ;;
  key ← (fs ← gets id; lift (resolve follow path fs));
  node ← gets (fun fs => nodes fs !! key);
  match node with Some node => mret (key, node) | None => throw NotFound end.
Definition symlink_metadata (path : str) : IO Node := '(_, node) ← stat false path; mret node.
(** The absolute path of a node. *)
Definition key_path (key : Key) : str := "/" ++ render (map Normal key).
Definition canonicalize (path : str) : IO str := '(key, _) ← stat true path; mret (key_path key).
Definition read (path : str) : IO str :=
  '(_, node) ← stat true path;
  match kind node with
  | Regular content => mret content
  | Dir => throw (OtherError "Is a directory")
  | _ => throw (OtherError "not readable")
  end.

(** [metadata] follows links, as [read] does. *)
Definition metadata (path : str) : IO Node := '(_, node) ← stat true path; mret node.

(** The names in a directory, in an order of the kernel's own. *)
Definition children (tree : gmap Key Node) (key : Key) : list str :=
  omap (fun kv => name ← last kv.1; if bool_decide (kv.1 = key ++ [name]) then Some name else None) (map_to_list tree).
Definition read_dir `{DirectoryOrder} (path : str) : IO (list str) :=
  '(key, node) ← stat true path;
  if is_dir node then fs ← gets id; mret (directory_order key (children (nodes fs) key))
  else throw (OtherError "Not a directory").

(** The device of a new node is that of its directory. *)
Definition device_at (key : Key) (tree : gmap Key Node) : Z :=
  match tree !! removelast key with Some parent => device parent | None => 0 end.
Definition insert_node (key : Key) (kind : Kind) (mode : Z) : IO unit :=
  modify (fun fs => set_nodes <[key := mkNode kind (Z.land mode (Z.lnot (umask fs))) (identity fs) (device_at key (nodes fs))]> fs).
Definition update_node (key : Key) (f : Node -> Node) : IO unit := modify (set_nodes (alter f key)).

(** [mkdir] and [open] with [O_EXCL] do not follow a link at the end. *)
Definition create_new (path : str) (kind : Kind) (mode : Z) : IO Key :=
  may_fault ;;
  key ← (fs ← gets id; lift (resolve false path fs));
  node ← gets (fun fs => nodes fs !! key);
  match node with
  | Some _ => throw AlreadyExists
  | None => insert_node key kind mode ;; mret key
  end.
(** The octal 777. *)
Definition create_dir (path : str) : IO unit := create_new path Dir 0x1ff ;; mret tt.

Definition set_owner (ids : Z * Z) (node : Node) : Node := mkNode (kind node) (mode node) ids (device node).
Definition set_mode (mode : Z) (node : Node) : Node := mkNode (kind node) mode (owner node) (device node).
Definition set_content (content : str) (node : Node) : Node := mkNode (Regular content) (mode node) (owner node) (device node).

Definition lchown (path : str) (ids : Z * Z) : IO unit := '(key, _) ← stat false path; update_node key (set_owner ids).
Definition chown (path : str) (ids : Z * Z) : IO unit := '(key, _) ← stat true path; update_node key (set_owner ids).
Definition set_permissions (path : str) (mode : Z) : IO unit := '(key, _) ← stat true path; update_node key (set_mode mode).

(** Calls on an open file: the path no longer matters. *)
Definition write_file (key : Key) (content : str) : IO unit := may_fault ;; update_node key (set_content content).
Definition file_permissions (key : Key) (mode : Z) : IO unit := may_fault ;; update_node key (set_mode mode).
Definition sync_all : IO unit := may_fault.

Definition remove_file (path : str) : IO unit :=
  '(key, node) ← stat false path;
  if is_dir node then throw (OtherError "Is a directory") else modify (set_nodes (delete key)).
(** [rename] of a file: what was at the destination is gone in the same step. *)
Definition rename (from to : str) : IO unit :=
  '(key, node) ← stat false from;
  target ← (fs ← gets id; lift (resolve false to fs));
  present ← gets (fun fs => nodes fs !! target);
  if is_dir node || match present with Some other => is_dir other | None => false end then throw (OtherError "Is a directory")
  else modify (set_nodes (fun tree => <[target := node]> (delete key tree))).
(** [std::fs::copy]: the content and the permission bits, into a new file or over
    an existing one, which is emptied first. *)
Definition copy (from to : str) : IO unit :=
  '(from, source) ← stat true from;
  if negb (is_regular source) then throw (OtherError "the source path is neither a regular file nor a symlink to a regular file")
  else
    may_fault ;;
    key ← (fs ← gets id; lift (resolve true to fs));
    present ← gets (fun fs => nodes fs !! key);
    match present with
    | Some other =>
        if is_regular other then update_node key (set_content []) else throw (OtherError "not a regular file")
    | None => insert_node key (Regular []) (mode source)
    end ;;
    modify (set_nodes (fun tree =>
      match tree !! from with
      | Some node =>
          match kind node with
          | Regular content => alter (fun node => set_mode (mode source) (set_content content node)) key tree
          | _ => tree
          end
      | None => tree
      end)).

(** [map_err] on a call. *)
Definition map_error {E F A} (f : E -> F) (m : ST Fs E A) : ST Fs F A := fun fs =>
  match m fs with Some (r, fs) => Some (map_err f r, fs) | None => None end.

(** A call whose result is looked at. *)
Definition tried {E F A} (m : ST Fs E A) : ST Fs F (result E A) := fun fs =>
  match m fs with Some (r, fs) => Some (Ok r, fs) | None => None end.

(** ** Well-formed trees *)

(** A name of a directory entry. *)
Definition is_name (name : str) : Prop := is_segment (Normal name).
(** The root is a directory, every node is in one, under a name. *)
Record tree_ok (tree : gmap Key Node) : Prop := {
  tree_root : exists n, tree !! [] = Some n /\ is_dir n = true;
  tree_parent key name : is_Some (tree !! (key ++ [name])) -> exists n, tree !! key = Some n /\ is_dir n = true;
  tree_names key : is_Some (tree !! key) -> Forall is_name key }.

(** ** Facts *)

(** A new file at a path that was free changes no successful walk. *)
Lemma walk_insert links tree key node follow here path r :
  tree !! key = None -> is_regular node = true ->
  walk links tree follow here path = Ok r -> walk links (<[key := node]> tree) follow here path = Ok r.
Proof.
  intros Hk Hn. revert here path. induction links as [|links IHl]; intros here path; revert here.
  all: induction path as [|[| | |name] path IHp]; intros here; cbn; try done; try apply IHp.
  all: destruct (decide (here ++ [name] = key)) as [E|Hne].
  1, 3: rewrite E, Hk, lookup_insert_eq; destruct path; [|done]; unfold is_regular in Hn; by destruct (kind node).
  all: rewrite lookup_insert_ne by done; destruct (tree !! (here ++ [name])) as [other|]; [|done]; destruct (kind other); try done; try apply IHp.
  all: destruct (nonempty path || follow); try done; apply IHl.
Qed.

(** Another content changes no walk. *)
Lemma walk_update links tree key old node follow here path :
  tree !! key = Some old -> is_regular old = true -> is_regular node = true ->
  walk links (<[key := node]> tree) follow here path = walk links tree follow here path.
Proof.
  intros Hk Ho Hn. revert here path. induction links as [|links IHl]; intros here path; revert here.
  all: induction path as [|[| | |name] path IHp]; intros here; cbn; try done; try apply IHp.
  all: destruct (decide (here ++ [name] = key)) as [E|Hne].
  1, 3: rewrite E, Hk, lookup_insert_eq; unfold is_regular in *; by destruct (kind node), (kind old).
  all: rewrite lookup_insert_ne by done; destruct (tree !! (here ++ [name])) as [other|]; [|done]; destruct (kind other); try done; try apply IHp.
  all: destruct (nonempty path || follow); try done; apply IHl.
Qed.
(** A path that does not end in a link is the same with and without following. *)
Lemma walk_follow links tree here path key node : walk links tree false here path = Ok key ->
  tree !! key = Some node -> is_link node = false -> walk links tree true here path = Ok key.
Proof.
  intros H Hk Hl. revert here path H. induction links as [|links IHl]; intros here path; revert here.
  all: induction path as [|[| | |name] path IHp]; intros here; cbn; try done; try apply IHp.
  all: destruct (tree !! (here ++ [name])) as [other|] eqn:E; [|done]; destruct (kind other) eqn:Ek; try done; try apply IHp.
  all: destruct path; cbn [nonempty orb]; try done; try apply IHl.
  all: intros [= E2]; rewrite E2, Hk in E; injection E as ->; unfold is_link in Hl; by rewrite Ek in Hl.
Qed.

Lemma map_error_run {E F A} (f : E -> F) (m : ST Fs E A) fs r fs' : map_error f m fs = Some (r, fs') <->
  exists r1, m fs = Some (r1, fs') /\ r = map_err f r1.
Proof. unfold map_error. destruct (m fs) as [[r1 s1]|]; naive_solver. Qed.
Lemma tried_run {E F A} (m : ST Fs E A) fs (r : result F (result E A)) fs' : tried m fs = Some (r, fs') <->
  exists r1, m fs = Some (r1, fs') /\ r = Ok r1.
Proof. unfold tried. destruct (m fs) as [[r1 s1]|]; naive_solver. Qed.

(** What a program cannot change. *)
Definition same_place (fs fs' : Fs) : Prop := working fs' = working fs /\ umask fs' = umask fs /\ identity fs' = identity fs.
#[export] Instance same_place_preorder : PreOrder same_place.
Proof. unfold same_place. split; red; intuition congruence. Qed.
Lemma resolve_same follow path fs fs' : nodes fs' = nodes fs -> working fs' = working fs -> resolve follow path fs' = resolve follow path fs.
Proof. unfold resolve. by intros -> ->. Qed.

Lemma may_fault_spec fs r fs' : may_fault fs = Some (r, fs') -> nodes fs' = nodes fs /\ same_place fs fs'.
Proof. unfold may_fault. repeat case_match; intros; simplify_eq; by repeat split. Qed.
Lemma sync_all_spec fs r fs' : sync_all fs = Some (r, fs') -> nodes fs' = nodes fs /\ same_place fs fs'.
Proof. apply may_fault_spec. Qed.

Lemma stat_spec follow path fs r fs' : stat follow path fs = Some (r, fs') -> nodes fs' = nodes fs /\ same_place fs fs' /\
  match r with Ok (key, node) => resolve follow path fs = Ok key /\ nodes fs !! key = Some node | Err _ => True end.
Proof.
  unfold stat. intros H. run_step H r1 fs1 H1. apply may_fault_spec in H1 as [Hn Hp].
  destruct r1 as [_|e]; [|by destruct H as [-> ->]].
  revert H. st_run. unfold id. rewrite (resolve_same _ _ fs) by (done || apply Hp). rewrite <- Hn.
  destruct (resolve follow path fs) as [key|e] eqn:E; [|by intros [= <- <-]]. st_run.
  destruct (nodes fs1 !! key) as [node|] eqn:En; st_run; intros [= <- <-]; done.
Qed.
Lemma stat_gets {A} follow path (f : str -> Node -> A) fs r fs' :
  ('(key, node) ← stat follow path; mret (f [] node)) fs = Some (r, fs') -> nodes fs' = nodes fs /\ same_place fs fs' /\
  match r with Ok a => exists key node, resolve follow path fs = Ok key /\ nodes fs !! key = Some node /\ a = f [] node | Err _ => True end.
Proof.
  intros H. run_step H r1 fs1 H1. apply stat_spec in H1 as (Hn & Hp & Hr). destruct r1 as [[key node]|e]; [|by destruct H as [-> ->]].
  injection H as <- <-. destruct Hr as [? ?]. split; [done|]. split; [done|]. by exists key, node.
Qed.
Lemma symlink_metadata_spec path fs r fs' : symlink_metadata path fs = Some (r, fs') -> nodes fs' = nodes fs /\ same_place fs fs' /\
  match r with Ok node => exists key, resolve false path fs = Ok key /\ nodes fs !! key = Some node | Err _ => True end.
Proof.
  intros (Hn & Hp & Hr)%(stat_gets false path (fun _ node => node)). split; [done|]. split; [done|]. destruct r; naive_solver.
Qed.
Lemma read_spec path fs r fs' : read path fs = Some (r, fs') -> nodes fs' = nodes fs /\ same_place fs fs' /\
  match r with
  | Ok content => exists key node, resolve true path fs = Ok key /\ nodes fs !! key = Some node /\ kind node = Regular content
  | Err _ => True
  end.
Proof.
  unfold read. intros H. run_step H r1 fs1 H1. apply stat_spec in H1 as (Hn & Hp & Hr).
  destruct r1 as [[key node]|e]; [|by destruct H as [-> ->]]. destruct Hr as [Hr Hk].
  destruct (kind node) eqn:Ek; injection H as <- <-; (split; [done|split; [done|]]); try done. by exists key, node.
Qed.

Lemma create_new_spec path k m fs r fs' : create_new path k m fs = Some (r, fs') -> same_place fs fs' /\
  match r with
  | Ok key => resolve false path fs = Ok key /\ nodes fs !! key = None /\
      exists node, nodes fs' = <[key := node]> (nodes fs) /\ kind node = k /\ owner node = identity fs /\ device node = device_at key (nodes fs)
  | Err _ => nodes fs' = nodes fs
  end.
Proof.
  unfold create_new. intros H. run_step H r1 fs1 H1. apply may_fault_spec in H1 as [Hn Hp].
  destruct r1 as [_|e]; [|by destruct H as [-> ->]].
  revert H. st_run. unfold id. rewrite (resolve_same _ _ fs) by (done || apply Hp).
  destruct (resolve false path fs) as [key|e] eqn:E; [|by intros [= <- <-]]. st_run. rewrite Hn.
  destruct (nodes fs !! key) as [node|] eqn:En; st_run; [by intros [= <- <-]|]. unfold insert_node. st_run.
  intros [= <- <-]. split; [by destruct Hp as (? & ? & ?)|]. split; [done|]. split; [done|]. eexists. split; [cbn; by rewrite Hn|].
  by destruct Hp as (_ & _ & <-).
Qed.

(** A change of one node. *)
Lemma update_node_run (m : IO unit) key f fs r fs' : (forall fs r fs', m fs = Some (r, fs') -> nodes fs' = nodes fs /\ same_place fs fs') ->
  (m ;; update_node key f) fs = Some (r, fs') ->
  same_place fs fs' /\ nodes fs' = match r with Ok _ => alter f key (nodes fs) | Err _ => nodes fs end.
Proof.
  intros Hm H. run_step H r1 fs1 H1. apply Hm in H1 as [Hn Hp]. destruct r1 as [_|e]; [|by destruct H as [-> ->]].
  injection H as <- <-. split; [done|]. cbn. by rewrite Hn.
Qed.
Lemma write_file_spec key content fs r fs' : write_file key content fs = Some (r, fs') ->
  same_place fs fs' /\ nodes fs' = match r with Ok _ => alter (set_content content) key (nodes fs) | Err _ => nodes fs end.
Proof. apply update_node_run, may_fault_spec. Qed.
Lemma file_permissions_spec key m fs r fs' : file_permissions key m fs = Some (r, fs') ->
  same_place fs fs' /\ nodes fs' = match r with Ok _ => alter (set_mode m) key (nodes fs) | Err _ => nodes fs end.
Proof. apply update_node_run, may_fault_spec. Qed.

Lemma remove_file_spec path fs r fs' : remove_file path fs = Some (r, fs') -> same_place fs fs' /\
  match r with
  | Ok _ => exists key, resolve false path fs = Ok key /\ nodes fs' = delete key (nodes fs)
  | Err _ => nodes fs' = nodes fs
  end.
Proof.
  unfold remove_file. intros H. run_step H r1 fs1 H1. apply stat_spec in H1 as (Hn & Hp & Hr).
  destruct r1 as [[key node]|e]; [|by destruct H as [-> ->]]. destruct (is_dir node); injection H as <- <-; [done|].
  split; [done|]. exists key. split; [apply Hr|]. cbn. by rewrite Hn.
Qed.
Lemma rename_spec from to fs r fs' : rename from to fs = Some (r, fs') -> same_place fs fs' /\
  match r with
  | Ok _ => exists key node target, resolve false from fs = Ok key /\ nodes fs !! key = Some node /\ resolve false to fs = Ok target /\
      nodes fs' = <[target := node]> (delete key (nodes fs))
  | Err _ => nodes fs' = nodes fs
  end.
Proof.
  unfold rename. intros H. run_step H r1 fs1 H1. apply stat_spec in H1 as (Hn & Hp & Hr).
  destruct r1 as [[key node]|e]; [|by destruct H as [-> ->]]. destruct Hr as [Hr Hk].
  revert H. st_run. unfold id. rewrite (resolve_same _ to fs) by (done || apply Hp).
  destruct (resolve false to fs) as [target|e] eqn:E; [|by intros [= <- <-]]. st_run.
  case_match; st_run; intros [= <- <-]; [done|]. split; [done|]. exists key, node, target. cbn. by rewrite Hn.
Qed.

Lemma resolve_update follow path fs fs' key old node : nodes fs !! key = Some old -> is_regular old = true -> is_regular node = true ->
  nodes fs' = <[key := node]> (nodes fs) -> same_place fs fs' -> resolve follow path fs' = resolve follow path fs.
Proof.
  intros Hk Ho Hn Hf (Hw & _). unfold resolve. rewrite Hf, Hw. destruct (negb _); [done|]. by eapply walk_update.
Qed.
Lemma resolve_follow path fs key node : resolve false path fs = Ok key -> nodes fs !! key = Some node -> is_link node = false ->
  resolve true path fs = Ok key.
Proof. unfold resolve. cbn [orb]. destruct (negb _); [done|]. destruct (ends_with "/" path); [done|]. apply walk_follow. Qed.

(** ** Paths without links *)

(** All directories above a node are real ones. *)
Definition dirs_above (tree : gmap Key Node) (key : Key) : Prop :=
  forall above name below, key = above ++ name :: below -> exists n, tree !! above = Some n /\ is_dir n = true.
Lemma walk_real links tree follow here names : dirs_above tree (here ++ names) ->
  (follow = false \/ forall n, tree !! (here ++ names) = Some n -> is_link n = false) ->
  walk links tree follow here (map Normal names) = Ok (here ++ names).
Proof.
  revert here. induction names as [|name names IH]; intros here Hd Hl; [destruct links; cbn; by rewrite app_nil_r|].
  assert (E : here ++ name :: names = (here ++ [name]) ++ names) by by rewrite <- app_assoc.
  assert (Hnext : names <> [] -> exists n, tree !! (here ++ [name]) = Some n /\ is_dir n = true).
  { intros Hne. destruct names as [|next names]; [done|]. by apply (Hd _ next names). }
  rewrite E in Hd, Hl. specialize (IH _ Hd Hl). rewrite E. destruct names as [|next names].
  - rewrite app_nil_r in *. clear Hnext IH. destruct links as [|links]; cbn; destruct (tree !! (here ++ [name])) as [n|] eqn:En; try done.
    all: destruct (kind n) eqn:Ek; try done; destruct Hl as [-> |Hl]; try done; specialize (Hl _ eq_refl); unfold is_link in Hl; by rewrite Ek in Hl.
  - destruct (Hnext ltac:(done)) as (n & Hn & Hdir). unfold is_dir in Hdir. destruct (kind n) eqn:Ek; try done.
    rewrite <- IH. destruct links; cbn; rewrite Hn, Ek; done.
Qed.

(** The path of a key. *)
Definition path_of (path : str) (key : Key) : Prop := is_absolute path = true /\ components path = RootDir :: map Normal key.
Lemma resolve_real follow path key fs : path_of path key -> dirs_above (nodes fs) key ->
  (follow || ends_with "/" path = false \/ forall n, nodes fs !! key = Some n -> is_link n = false) -> resolve follow path fs = Ok key.
Proof.
  intros [Ha Hc] Hd Hl. unfold resolve. rewrite Ha, Hc. assert (negb (nonempty path) = false) as -> by by destruct path. rewrite <- (app_nil_l key) at 2.
  change (walk LINKS (nodes fs) (follow || ends_with "/" path) [] (RootDir :: map Normal key)) with
    (walk LINKS (nodes fs) (follow || ends_with "/" path) [] (map Normal key)). by apply walk_real.
Qed.

Lemma tree_above tree key : tree_ok tree -> is_Some (tree !! key) -> dirs_above tree key.
Proof.
  intros Ht. induction key as [|name key IH] using rev_ind; intros Hs above n below E; [by destruct above|].
  destruct (tree_parent _ Ht key name Hs) as (p & Hp & Hd). destruct below as [|b below] using rev_ind.
  - apply app_inj_tail in E as [<- _]. by exists p.
  - clear IHbelow. change (above ++ n :: below ++ [b]) with (above ++ (n :: below) ++ [b]) in E. rewrite app_assoc in E.
    apply app_inj_tail in E as [-> _]. eapply IH; [by eexists|done].
Qed.
Lemma tree_prefix tree key above : tree_ok tree -> is_Some (tree !! key) -> above `prefix_of` key -> is_Some (tree !! above).
Proof.
  intros Ht Hs [[|name below] ->]; [by rewrite app_nil_r in Hs|]. destruct (tree_above _ _ Ht Hs above name below eq_refl) as (n & -> & _). by eexists.
Qed.

Lemma children_spec tree key name : name ∈ children tree key <-> is_Some (tree !! (key ++ [name])).
Proof.
  unfold children. rewrite list_elem_of_omap. split.
  - intros ([k n] & Hin & H). cbn in H. apply elem_of_map_to_list in Hin. destruct (last k) as [l|]; [|done]. cbn in H.
    case_bool_decide; [|done]. injection H as ->. subst k. by exists n.
  - intros [n Hn]. exists (key ++ [name], n). split; [by apply elem_of_map_to_list|]. cbn. rewrite last_snoc. cbn.
    by rewrite bool_decide_eq_true_2.
Qed.

Lemma read_dir_spec `{DirectoryOrder} path fs r fs' : read_dir path fs = Some (r, fs') -> nodes fs' = nodes fs /\ same_place fs fs' /\
  match r with
  | Ok names => exists key node, resolve true path fs = Ok key /\ nodes fs !! key = Some node /\ is_dir node = true /\
      names = directory_order key (children (nodes fs) key)
  | Err _ => True
  end.
Proof.
  unfold read_dir. intros Hrun. run_step Hrun r1 fs1 H1. apply stat_spec in H1 as (Hn & Hp & Hr).
  destruct r1 as [[key node]|e]; [|by destruct Hrun as [-> ->]]. destruct (is_dir node) eqn:Ed; revert Hrun; st_run; intros [= <- <-]; [|done].
  split; [done|]. split; [done|]. unfold id. rewrite Hn. exists key, node. naive_solver.
Qed.
Lemma lchown_spec path ids fs r fs' : lchown path ids fs = Some (r, fs') -> same_place fs fs' /\
  match r with
  | Ok _ => exists key, resolve false path fs = Ok key /\ nodes fs' = alter (set_owner ids) key (nodes fs)
  | Err _ => nodes fs' = nodes fs
  end.
Proof.
  unfold lchown. intros H. run_step H r1 fs1 H1. apply stat_spec in H1 as (Hn & Hp & Hr).
  destruct r1 as [[key node]|e]; [|by destruct H as [-> ->]]. injection H as <- <-. split; [done|]. exists key. split; [apply Hr|].
  cbn. by rewrite Hn.
Qed.

(** Joining a name to a path. *)
Lemma name_relative name : "/"%char ∉ name -> is_absolute name = false.
Proof.
  intros Hn. unfold is_absolute. destruct (starts_with "/" name) eqn:E; [|done]. apply starts_with_spec in E as [r ->]. set_solver.
Qed.
Lemma join_name base name : is_name name -> exists sep, path_join base name = base ++ sep ++ name.
Proof.
  intros (_ & _ & _ & Hs). unfold path_join. rewrite (name_relative _ Hs).
  destruct (last base) as [c|] eqn:E; [destruct (is_byte "/" c)|].
  - by exists [].
  - by exists "/".
  - apply last_None in E as ->. by exists [].
Qed.
Lemma path_of_join path key name : path_of path key -> is_name name ->
  path_of (path_join path name) (key ++ [name]) /\ ends_with "/" (path_join path name) = false.
Proof.
  intros [Ha Hc] Hn. assert (Hs : Forall is_segment [Normal name]) by by constructor.
  pose proof (components_join path [Normal name] Ha Hs) as Hj. cbn [render map render_component join] in Hj.
  destruct (join_name path name Hn) as [sep Hp]. destruct Hn as (Hne & _ & _ & Hslash). split; [split|].
  - rewrite Hp. unfold is_absolute in *. apply starts_with_spec in Ha as [r ->]. apply starts_with_spec. exists (r ++ sep ++ name). done.
  - rewrite Hj, Hc, map_app. done.
  - rewrite Hp, app_assoc. destruct (ends_with "/" ((path ++ sep) ++ name)) eqn:E; [|done]. apply ends_with_spec in E as [r Hr].
    destruct name as [|c name] using rev_ind; [done|]. rewrite app_assoc in Hr. apply app_inj_tail in Hr as [_ ->]. set_solver.
Qed.
Lemma root_path_of : path_of "/" [].
Proof. done. Qed.
Lemma path_of_key key : Forall is_name key -> path_of (key_path key) key.
Proof.
  intros H. assert (Hs : Forall is_segment (map Normal key)) by (by apply Forall_map).
  pose proof (components_join "/" (map Normal key) eq_refl Hs) as E. unfold path_join in E.
  destruct (render_segments _ Hs) as (_ & _ & Ha & _). rewrite Ha in E. split; [done|exact E].
Qed.

Lemma join_last sep parts last : exists pre, join sep (parts ++ [last]) = pre ++ last.
Proof.
  induction parts as [|part parts [pre IH]]; [by exists []|]. exists (part ++ sep ++ pre). cbn [app].
  destruct (parts ++ [last]) as [|next rest] eqn:E; [by destruct parts|]. cbn [join] in *. rewrite IH. by rewrite !app_assoc.
Qed.
(** The path of a node other than the root does not end in a separator. *)
Lemma key_path_end key : Forall is_name key -> key <> [] -> ends_with "/" (key_path key) = false.
Proof.
  intros Hn Hne. destruct key as [|name key _] using rev_ind; [done|].
  assert (Hs : Forall is_segment (map Normal (key ++ [name]))) by (by apply Forall_map).
  apply Forall_app in Hn as [_ Hn]. apply (Forall_singleton is_name) in Hn. destruct Hn as (Hnil & _ & _ & Hslash).
  unfold key_path. destruct (render_segments _ Hs) as [-> _]. rewrite !map_app. destruct (join_last "/" (map render_component (map Normal key)) name) as [pre E].
  cbn [map render_component] in *. rewrite E. destruct (ends_with _ _) eqn:He; [|done]. apply ends_with_spec in He as [r Hr].
  destruct name as [|c name _] using rev_ind; [done|]. rewrite !app_assoc in Hr. apply app_inj_tail in Hr as [_ ->]. set_solver.
Qed.

(** A new directory in a directory. *)
Lemma tree_ok_insert tree key name node : tree_ok tree -> is_name name -> tree !! (key ++ [name]) = None ->
  (exists n, tree !! key = Some n /\ is_dir n = true) -> tree_ok (<[key ++ [name] := node]> tree).
Proof.
  intros [Hroot Hparent Hnames] Hname Hnone (p & Hp & Hd).
  assert (Hkeep : forall k n, tree !! k = Some n -> <[key ++ [name] := node]> tree !! k = Some n).
  { intros k n Hk. rewrite lookup_insert_ne; [done|]. intros <-. by rewrite Hnone in Hk. }
  split.
  - destruct Hroot as (n & Hn & Hdn). exists n. split; [by apply Hkeep|done].
  - intros k nm Hs. destruct (decide (key ++ [name] = k ++ [nm])) as [E|Hne].
    + apply app_inj_tail in E as [<- <-]. exists p. split; [by apply Hkeep|done].
    + rewrite lookup_insert_ne in Hs by done. destruct (Hparent _ _ Hs) as (n & Hn & Hdn). exists n. split; [by apply Hkeep|done].
  - intros k Hs. destruct (decide (key ++ [name] = k)) as [<-|Hne].
    + apply Forall_app. split; [apply Hnames; by eexists|by constructor].
    + rewrite lookup_insert_ne in Hs by done. by apply Hnames.
Qed.
(** A change that keeps the kinds. *)
Lemma tree_ok_alter tree key f : (forall n, kind (f n) = kind n) -> tree_ok tree -> tree_ok (alter f key tree).
Proof.
  intros Hf [Hroot Hparent Hnames].
  assert (Hsame : forall k, is_Some (alter f key tree !! k) <-> is_Some (tree !! k)) by (intros k; apply lookup_alter_is_Some).
  assert (Hdir : forall k n, tree !! k = Some n -> is_dir n = true -> exists n', alter f key tree !! k = Some n' /\ is_dir n' = true).
  { intros k n Hk Hd. destruct (decide (key = k)) as [<-|Hne].
    - exists (f n). rewrite lookup_alter_eq, Hk. split; [done|]. unfold is_dir in *. by rewrite Hf.
    - exists n. by rewrite lookup_alter_ne. }
  split.
  - destruct Hroot as (n & Hn & Hd). by eapply Hdir.
  - intros k name (n & Hn & Hd)%Hsame%Hparent. by eapply Hdir.
  - intros k ?%Hsame. by apply Hnames.
Qed.

(** ** Calls end *)

Lemma may_fault_ends : ends may_fault.
Proof. intros fs. unfold may_fault. repeat case_match; by eexists. Qed.
Lemma map_error_ends {E F A} (f : E -> F) (m : ST Fs E A) : ends m -> ends (map_error f m).
Proof. intros Hm fs. unfold map_error. destruct (Hm fs) as [[? ?] ->]. by eexists. Qed.
Lemma tried_ends {E F A} (m : ST Fs E A) : ends m -> ends (tried (F := F) m).
Proof. intros Hm fs. unfold tried. destruct (Hm fs) as [[? ?] ->]. by eexists. Qed.
Lemma step_ends {E A} (f : Fs -> result E A * Fs) : ends (fun fs => Some (f fs)).
Proof. intros fs. by eexists. Qed.
Lemma ret_ends {E A} (a : A) : ends (mret a : ST Fs E A).
Proof. intros fs. by eexists. Qed.
Lemma throw_ends {E A} (e : E) : ends (throw e : ST Fs E A).
Proof. intros fs. by eexists. Qed.
Lemma lift_ends {E A} (r : result E A) : ends (lift r : ST Fs E A).
Proof. intros fs. by eexists. Qed.
Lemma throw_if_ends {E} (b : bool) (e : E) : ends (throw_if b e : ST Fs E unit).
Proof. intros fs. by eexists. Qed.
Lemma gets_ends {E A} (f : Fs -> A) : ends (gets f : ST Fs E A).
Proof. intros fs. by eexists. Qed.
Lemma modify_ends {E} (f : Fs -> Fs) : ends (modify f : ST Fs E unit).
Proof. intros fs. by eexists. Qed.
Create HintDb ends discriminated.
#[export] Hint Constants Opaque : ends.
#[export] Hint Resolve may_fault_ends map_error_ends tried_ends ret_ends throw_ends lift_ends throw_if_ends gets_ends modify_ends : ends.
(** A program of steps that end. *)
Ltac ends_step :=
  match goal with
  | |- ends (mbind _ _) => apply total_bind; [|intros ?]
  | |- ends (map_error _ _) => apply map_error_ends
  | |- ends (tried _) => apply tried_ends
  | |- ends (match ?x with _ => _ end) => destruct x
  | |- ends _ => solve [auto with ends nocore]
  end.
Ltac solve_ends := repeat ends_step.

Lemma stat_ends follow path : ends (stat follow path).
Proof. unfold stat. solve_ends. Qed.
#[export] Hint Resolve stat_ends : ends.
Lemma symlink_metadata_ends path : ends (symlink_metadata path).
Proof. unfold symlink_metadata. solve_ends. Qed.
Lemma metadata_ends path : ends (metadata path).
Proof. unfold metadata. solve_ends. Qed.
Lemma canonicalize_ends path : ends (canonicalize path).
Proof. unfold canonicalize. solve_ends. Qed.
Lemma read_ends path : ends (read path).
Proof. unfold read. solve_ends. Qed.
Lemma create_new_ends path kind mode : ends (create_new path kind mode).
Proof. unfold create_new, insert_node. solve_ends. Qed.
#[export] Hint Resolve create_new_ends : ends.
Lemma create_dir_ends path : ends (create_dir path).
Proof. unfold create_dir. solve_ends. Qed.
Lemma read_dir_ends `{DirectoryOrder} path : ends (read_dir path).
Proof. unfold read_dir. solve_ends. Qed.
Lemma lchown_ends path ids : ends (lchown path ids).
Proof. unfold lchown, update_node. solve_ends. Qed.
Lemma chown_ends path ids : ends (chown path ids).
Proof. unfold chown, update_node. solve_ends. Qed.
Lemma set_permissions_ends path mode : ends (set_permissions path mode).
Proof. unfold set_permissions, update_node. solve_ends. Qed.
Lemma copy_ends from to : ends (copy from to).
Proof. unfold copy, update_node, insert_node. solve_ends. Qed.
Lemma remove_file_ends path : ends (remove_file path).
Proof. unfold remove_file. solve_ends. Qed.
Lemma rename_ends from to : ends (rename from to).
Proof. unfold rename. solve_ends. Qed.
Lemma write_file_ends key content : ends (write_file key content).
Proof. unfold write_file, update_node. solve_ends. Qed.
Lemma file_permissions_ends key mode : ends (file_permissions key mode).
Proof. unfold file_permissions, update_node. solve_ends. Qed.
Lemma sync_all_ends : ends sync_all.
Proof. apply may_fault_ends. Qed.
#[export] Hint Resolve symlink_metadata_ends metadata_ends canonicalize_ends read_ends create_dir_ends read_dir_ends lchown_ends
  chown_ends set_permissions_ends copy_ends remove_file_ends rename_ends write_file_ends file_permissions_ends sync_all_ends : ends.
End FileSystem.
