(* ===== verification/InitSpec.v ===== *)
(** * Specifications of a container's start ([codex-start-proxy/src/container_init.rs])

    The document that says how a container is prepared: identity, environment,
    secrets, writable roots, helper services and the final command; its parts that
    have their own JSON form; and the validation that everything later relies on. *)

From S2P Require Export FileSystem Handshake Allowlist BMap.

(** The other half of the [STANDARD] engine of [base64]. *)
Class StandardBase64Encoder := standard_encode : str -> str.
Class StandardBase64Laws (D : StandardBase64) (E : StandardBase64Encoder) : Prop :=
  standard_round bytes : standard_decode (standard_encode bytes) = Some bytes.

Module InitSpec.
Import IpAddr Allowlist FileSystem.

(** ** Data *)

Record CommandSpec := mkCommandSpec {
  program : str;
  args : list str;
  env : bmap str;
  cwd : option str }.

(** A Unix string: any bytes. *)
Definition OsValue := str.
Record ExecSpec := mkExecSpec {
  exec_program : OsValue;
  exec_args : list OsValue;
  exec_env : bmap str;
  exec_cwd : option str }.

Record SshSetup := mkSshSetup { source : str; destination : str }.

(** The four fields every service but the direct one has. *)
Record ServiceLimits := mkServiceLimits {
  max_connections : Z;
  connect_timeout_seconds : Z;
  handshake_timeout_seconds : Z;
  idle_timeout_seconds : Z }.

Record ConnectServiceSpec := mkConnectServiceSpec {
  connect_listen : SocketAddr;
  connect_proxy : str;
  connect_target : str;
  auth_token_file : option str;
  connect_limits : ServiceLimits }.
Record HttpProxyServiceSpec := mkHttpProxyServiceSpec {
  http_listen : SocketAddr;
  http_proxy : str;
  http_auth_token_file : str;
  http_limits : ServiceLimits;
  max_header_bytes : Z }.
Record TcpForwardServiceSpec := mkTcpForwardServiceSpec {
  forward_listen : SocketAddr;
  forward_target : str;
  forward_max_connections : Z;
  forward_connect_timeout_seconds : Z;
  forward_idle_timeout_seconds : Z }.
Record TcpBridgeServiceSpec := mkTcpBridgeServiceSpec {
  tcp_listen : SocketAddr;
  tcp_remote : str;
  tcp_token_file : str;
  tcp_proxy : option str;
  tcp_proxy_auth_token_file : option str;
  tcp_limits : ServiceLimits }.
Record UnixBridgeServiceSpec := mkUnixBridgeServiceSpec {
  unix_listen : str;
  unix_remote : str;
  unix_token_file : str;
  unix_proxy : option str;
  unix_proxy_auth_token_file : option str;
  unix_limits : ServiceLimits }.
Record OAuthTargetServiceSpec := mkOAuthTargetServiceSpec {
  oauth_listen : SocketAddr;
  callback : SocketAddr;
  oauth_token_file : str;
  oauth_limits : ServiceLimits }.

Inductive InitServiceSpec :=
  | HttpProxy (service : HttpProxyServiceSpec)
  | Connect (service : ConnectServiceSpec)
  | TcpForward (service : TcpForwardServiceSpec)
  | TcpBridge (service : TcpBridgeServiceSpec)
  | UnixBridge (service : UnixBridgeServiceSpec)
  | OauthTarget (service : OAuthTargetServiceSpec).

Definition default_service_connections : Z := 64.
Definition default_connect_timeout_seconds : Z := 10.
Definition default_handshake_timeout_seconds : Z := 10.
Definition default_idle_timeout_seconds : Z := 300.
Definition default_proxy_header_bytes : Z := 65536.

Record InitSpec := mkInitSpec {
  version : Z;
  uid : option Z;
  gid : option Z;
  account : option str;
  spec_cwd : option str;
  clear_environment : bool;
  spec_env : bmap str;
  secret_map : option str;
  secret_root : str;
  allow_insecure_secret_permissions : bool;
  ownership_paths : list str;
  ssh : option SshSetup;
  prepare : list CommandSpec;
  services : list InitServiceSpec;
  command : ExecSpec }.

Record DirectInitOptions := mkDirectInitOptions {
  direct_uid : option Z;
  direct_gid : option Z;
  direct_cwd : option str;
  direct_secret_map : option str;
  direct_ssh : option SshSetup;
  direct_prepare : list CommandSpec;
  direct_allow_insecure_secret_permissions : bool;
  direct_clear_environment : bool;
  direct_ownership_paths : list str }.

Definition default_secret_root : str := "/run/codex-start/secrets".

(** An exit status is its text, errors of [serde_json] theirs. *)
Inductive InitError :=
  | UnsupportedVersion (version : Z)
  | UidGidPairRequired
  | AccountRequiresIdentity
  | InvalidAccountName
  | AccountNotFound (account : str)
  | DuplicateAccount (account : str)
  | DuplicateGroup (account : str)
  | UidConflict (uid : Z) (account : str)
  | InvalidAccountDatabase (path reason : str)
  | AccountIo (path : str) (source : IoError)
  | OwnershipRequiresIdentity
  | InvalidOwnershipPath (message : str)
  | OwnershipLimit (maximum : Z)
  | OwnershipDepth (path : str) (maximum : Z)
  | OwnershipIo (path : str) (source : IoError)
  | InvalidCommand
  | InvalidEnvironmentName (name : str)
  | InvalidService (message : str)
  | InvalidSecretRoot (path : str)
  | Read (path : str) (source : IoError)
  | NotRegularFile (path : str)
  | FileTooLarge (path : str) (length maximum : Z)
  | InsecurePermissions (path : str) (mode : Z)
  | ParseSpec (path source : str)
  | ParseSecretMap (path source : str)
  | Canonicalize (path : str) (source : IoError)
  | SecretOutsideRoot (name path : str)
  | SecretContainsNul (name : str)
  | UnsafeSshPath (path : str)
  | PrepareSsh (path : str) (source : IoError)
  | SpawnPrepare (program : str) (source : IoError)
  | PrepareFailed (program status : str)
  | Exec (program : str) (source : IoError)
  | ParsePrepareArgument (source : str)
  | CurrentExecutable (source : IoError)
  | SpawnService (endpoint : str) (source : IoError)
  | ServiceStatus (source : IoError)
  | ServiceExited (endpoint status : str)
  | ServiceReadinessTimeout (endpoint : str).

(** [path.display()]. *)
Definition display (path : str) : str := from_utf8_lossy path.
(** Two paths are equal when their components are. *)
Definition same_path (a b : str) : bool := bool_decide (components a = components b).

(** ** Unix strings in JSON *)

Section osvalue.
Context `{StandardBase64, StandardBase64Encoder}.

(** [Serialize for OsValue], as what it writes. *)
Definition OsValue_serialize (self : OsValue) : JsonContent :=
  if utf8_valid self then ContentString self
  else ContentMap [("unix_base64" : str, ContentString (standard_encode self))].
(** [Deserialize for OsValue] reads the representation of a relay's target. *)
Definition OsValue_deserialize (content : JsonContent) : option OsValue :=
  representation ← Handshake.target_representation content;
  match representation with
  | Handshake.Utf8 value => Some value
  | Handshake.UnixBase64 encoded => standard_decode encoded
  end.
End osvalue.

(** ** Commands *)

Definition starts_name (c : ascii) : bool := is_alphabetic c || is_byte c "_".
Definition validate_environment_name (name : str) : result InitError unit :=
  err_if (negb match name with
               | first :: rest => starts_name first && forallb (fun c => is_alphanumeric c || is_byte c "_") rest
               | [] => false
               end)
    (InvalidEnvironmentName name).

Definition validate_command (command : CommandSpec) : result InitError unit :=
  err_if (negb (nonempty (program command)) || contains_byte NUL (program command)) InvalidCommand ;;
  for_each validate_environment_name (bkeys (env command)).

Definition validate_exec (command : ExecSpec) : result InitError unit :=
  err_if (negb (nonempty (exec_program command)) || contains_byte NUL (exec_program command)
          || existsb (contains_byte NUL) (exec_args command)) InvalidCommand ;;
  for_each validate_environment_name (bkeys (exec_env command)).

Definition from_argv (argv : list str) : result InitError ExecSpec :=
  match argv with
  | [] => Err InvalidCommand
  | program :: args =>
      let command := mkExecSpec program args [] None in
      validate_exec command ;; Ok command
  end.
Definition argv (self : ExecSpec) : list str := exec_program self :: exec_args self.

(** [parse_prepare_json], after [serde_json] has read the array of strings. *)
Definition parse_prepare_json (parsed : result str (list str)) : result InitError CommandSpec :=
  argv ← map_err ParsePrepareArgument parsed;
  match argv with
  | [] => Err InvalidCommand
  | program :: args =>
      let command := mkCommandSpec program args [] None in
      validate_command command ;; Ok command
  end.

Definition MAX_ACCOUNT_NAME_BYTES : nat := 32.
Definition validate_account_name (account : str) : result InitError unit :=
  let first_is_valid := match account with first :: _ => starts_name first | [] => false end in
  let rest_is_valid := match account with
                       | _ :: rest => forallb (fun c => is_alphanumeric c || is_byte c "_" || is_byte c "-") rest
                       | [] => false
                       end in
  err_if ((MAX_ACCOUNT_NAME_BYTES <? length account)%nat || negb first_is_valid || negb rest_is_valid) InvalidAccountName.

(** ** Writable roots *)

Definition MAX_OWNERSHIP_ROOTS : nat := 64.
Definition is_dot (c : component) : bool := match c with CurDir | ParentDir => true | _ => false end.
Definition denied : list str :=
  strs ["/bin"; "/dev"; "/etc"; "/lib"; "/lib64"; "/proc"; "/run"; "/sbin"; "/sys"; "/usr"].
Definition unsafe_root (path : str) : bool :=
  negb (is_absolute path) || existsb is_dot (components path) || same_path path "/"
  || existsb (fun denied => path_starts_with denied path) denied.

(** The second loop, with the roots it has passed. *)
Fixpoint distinct_roots (passed paths : list str) : result InitError unit :=
  match paths with
  | [] => Ok tt
  | path :: paths =>
      err_if (existsb (same_path path) passed) (InvalidOwnershipPath ("ownership root is duplicated at " ++ display path)) ;;
      distinct_roots (passed ++ [path]) paths
  end.
Definition validate_ownership_paths (paths : list str) : result InitError unit :=
  err_if (MAX_OWNERSHIP_ROOTS <? length paths)%nat
    (InvalidOwnershipPath ("at most " ++ dec (Z.of_nat MAX_OWNERSHIP_ROOTS) ++ " ownership roots are permitted")) ;;
  for_each (fun path => err_if (unsafe_root path) (InvalidOwnershipPath (display path))) paths ;;
  distinct_roots [] paths.

(** ** Services *)

Definition ip_is_loopback (ip : IpAddr) : bool :=
  match ip with
  | V4 (first :: _) => (first =? 127)%Z
  | V4 [] => false
  | V6 segments => bool_decide (segments = [0; 0; 0; 0; 0; 0; 0; 1]%Z)
  end.
Definition ip_is_unspecified (ip : IpAddr) : bool :=
  match ip with
  | V4 octets => forallb (Z.eqb 0) octets
  | V6 segments => forallb (Z.eqb 0) segments
  end.
Definition to_string := socket_addr_to_string.
(** The guard of the loopback listeners. *)
Definition open_listener (listen : SocketAddr) : bool :=
  negb (ip_is_loopback (socket_ip listen)) || (socket_port listen =? 0)%Z.
Definition listener_message (listen : SocketAddr) : str :=
  "listener " ++ to_string listen ++ " must use a loopback address and non-zero port".

Definition INTERNAL_SECRET_ROOT : str := "/run/codex-start/secrets".
Definition under (path root : str) : bool := path_starts_with root path && negb (same_path path root).
Definition validate_service_token (path secret_root : str) : result InitError unit :=
  err_if (negb (is_absolute path) || (negb (under path secret_root) && negb (under path INTERNAL_SECRET_ROOT)))
    (InvalidService ("service token file must be under " ++ display secret_root ++ " or " ++ INTERNAL_SECRET_ROOT)).

Definition validate_service_limits (max_connections connect_timeout handshake_timeout idle_timeout : Z) : result InitError unit :=
  err_if ((max_connections =? 0)%Z || (connect_timeout =? 0)%Z || (handshake_timeout =? 0)%Z || (idle_timeout =? 0)%Z)
    (InvalidService "service limits and timeouts must be non-zero").
Definition validate_limits (limits : ServiceLimits) : result InitError unit :=
  validate_service_limits (max_connections limits) (connect_timeout_seconds limits) (handshake_timeout_seconds limits)
    (idle_timeout_seconds limits).

Definition safe_prefixes : list str := strs ["/tmp"; "/var/tmp"; "/run/codex-start"; "/home"].
Definition unsafe_socket (listen : str) : bool :=
  negb (is_absolute listen) || existsb is_dot (components listen)
  || negb (existsb (fun prefix => path_starts_with prefix listen) safe_prefixes)
  || match file_name listen with Some _ => false | None => true end.

Section validate.
Context {I : Idna}.

Definition host_port_error (label value : str) (error : AllowlistError) : InitError :=
  InvalidService ("invalid " ++ label ++ " " ++ value ++ ": " ++ AllowlistError_to_string error).

Definition validate_host_port_text (value label : str) : result InitError unit :=
  err_if (negb (nonempty value) || existsb (fun byte => is_ascii_whitespace byte || is_ascii_control byte) value)
    (InvalidService (label ++ " must be a non-empty host:port")) ;;
  map_err (host_port_error label value) (Authority_parse value None) ;;
  Ok tt.

Definition validate_http_proxy_service (service : HttpProxyServiceSpec) (secret_root : str) : result InitError unit :=
  err_if (open_listener (http_listen service))
    (InvalidService ("HTTP proxy listener " ++ to_string (http_listen service) ++ " must use loopback and a non-zero port")) ;;
  validate_host_port_text (http_proxy service) "proxy" ;;
  validate_service_token (http_auth_token_file service) secret_root ;;
  validate_limits (http_limits service) ;;
  err_if (max_header_bytes service <? 1024)%Z (InvalidService "HTTP proxy max_header_bytes must be at least 1024").

Definition validate_connect_service (service : ConnectServiceSpec) (secret_root : str) : result InitError unit :=
  err_if (open_listener (connect_listen service)) (InvalidService (listener_message (connect_listen service))) ;;
  validate_host_port_text (connect_proxy service) "proxy" ;;
  map_err (host_port_error "target" (connect_target service)) (Authority_parse (connect_target service) None) ;;
  validate_limits (connect_limits service) ;;
  match auth_token_file service with
  | Some path => validate_service_token path secret_root
  | None => Ok tt
  end.

Definition validate_tcp_forward_service (service : TcpForwardServiceSpec) : result InitError unit :=
  err_if (open_listener (forward_listen service)) (InvalidService (listener_message (forward_listen service))) ;;
  validate_host_port_text (forward_target service) "direct target" ;;
  validate_service_limits (forward_max_connections service) (forward_connect_timeout_seconds service) 1
    (forward_idle_timeout_seconds service).

Definition validate_authenticated_bridge (remote token_file : str) (proxy proxy_auth_token_file : option str)
    (limits : ServiceLimits) (secret_root : str) : result InitError unit :=
  validate_host_port_text remote "authenticated relay" ;;
  map_err (host_port_error "relay" remote) (Authority_parse remote None) ;;
  validate_service_token token_file secret_root ;;
  match proxy with Some proxy => validate_host_port_text proxy "proxy" | None => Ok tt end ;;
  match proxy_auth_token_file with
  | Some path =>
      err_if (bool_decide (proxy = None)) (InvalidService "proxy_auth_token_file requires proxy") ;;
      validate_service_token path secret_root
  | None => Ok tt
  end ;;
  validate_limits limits.

Definition validate_tcp_bridge_service (service : TcpBridgeServiceSpec) (secret_root : str) : result InitError unit :=
  err_if (open_listener (tcp_listen service)) (InvalidService (listener_message (tcp_listen service))) ;;
  validate_authenticated_bridge (tcp_remote service) (tcp_token_file service) (tcp_proxy service)
    (tcp_proxy_auth_token_file service) (tcp_limits service) secret_root.

Definition validate_unix_service (service : UnixBridgeServiceSpec) (secret_root : str) : result InitError unit :=
  err_if (unsafe_socket (unix_listen service)) (InvalidService ("unsafe Unix listener " ++ display (unix_listen service))) ;;
  validate_authenticated_bridge (unix_remote service) (unix_token_file service) (unix_proxy service)
    (unix_proxy_auth_token_file service) (unix_limits service) secret_root.

Definition validate_oauth_service (service : OAuthTargetServiceSpec) (secret_root : str) : result InitError unit :=
  err_if (socket_port (oauth_listen service) =? 0)%Z (InvalidService "OAuth relay listener requires a non-zero port") ;;
  err_if (open_listener (callback service))
    (InvalidService ("OAuth callback " ++ to_string (callback service) ++ " must use loopback and a non-zero port")) ;;
  validate_service_token (oauth_token_file service) secret_root ;;
  validate_limits (oauth_limits service).

Definition validate_service (service : InitServiceSpec) (secret_root : str) : result InitError unit :=
  match service with
  | HttpProxy service => validate_http_proxy_service service secret_root
  | Connect service => validate_connect_service service secret_root
  | TcpForward service => validate_tcp_forward_service service
  | TcpBridge service => validate_tcp_bridge_service service secret_root
  | UnixBridge service => validate_unix_service service secret_root
  | OauthTarget service => validate_oauth_service service secret_root
  end.

(** What the set of listeners holds for a service, and how the service is named. *)
Definition listener_text (service : InitServiceSpec) : str :=
  match service with
  | HttpProxy service => to_string (http_listen service)
  | Connect service => to_string (connect_listen service)
  | TcpForward service => to_string (forward_listen service)
  | TcpBridge service => to_string (tcp_listen service)
  | UnixBridge service => display (unix_listen service)
  | OauthTarget service => to_string (oauth_listen service)
  end.
Definition listener_key (service : InitServiceSpec) : str :=
  match service with
  | UnixBridge _ => "unix:" ++ listener_text service
  | _ => "tcp:" ++ listener_text service
  end.

Fixpoint validate_services (seen : list str) (services : list InitServiceSpec) (secret_root : str) : result InitError unit :=
  match services with
  | [] => Ok tt
  | service :: services =>
      validate_service service secret_root ;;
      err_if (memb (listener_key service) seen) (InvalidService ("duplicate listener " ++ listener_text service)) ;;
      validate_services (listener_key service :: seen) services secret_root
  end.

Definition validate_spec (spec : InitSpec) : result InitError unit :=
  err_if (negb (version spec =? 1)%Z) (UnsupportedVersion (version spec)) ;;
  err_if (negb (Bool.eqb (bool_decide (is_Some (uid spec))) (bool_decide (is_Some (gid spec))))) UidGidPairRequired ;;
  match account spec with
  | Some account => validate_account_name account ;; err_if (bool_decide (uid spec = None)) AccountRequiresIdentity
  | None => Ok tt
  end ;;
  err_if (nonempty (ownership_paths spec) && bool_decide (uid spec = None)) OwnershipRequiresIdentity ;;
  validate_ownership_paths (ownership_paths spec) ;;
  validate_exec (command spec) ;;
  for_each validate_command (prepare spec) ;;
  for_each validate_environment_name (bkeys (spec_env spec)) ;;
  validate_services [] (services spec) (secret_root spec) ;;
  err_if (negb (nonempty (secret_root spec)) || negb (is_absolute (secret_root spec))) (InvalidSecretRoot (secret_root spec)).

Definition direct_spec (options : DirectInitOptions) (command : list str) : result InitError InitSpec :=
  command ← from_argv command;
  let spec := mkInitSpec 1 (direct_uid options) (direct_gid options) None (direct_cwd options)
                (direct_clear_environment options) [] (direct_secret_map options) default_secret_root
                (direct_allow_insecure_secret_permissions options) (direct_ownership_paths options)
                (direct_ssh options) (direct_prepare options) [] command in
  validate_spec spec ;;
  Ok spec.
End validate.

(** ** What a valid specification is *)

(** An address only the container itself can reach. *)
Definition local_address (address : SocketAddr) : Prop := ip_is_loopback (socket_ip address) = true /\ socket_port address <> 0%Z.
(** The addresses a service may only offer to the container, or call in it. *)
Definition private_addresses (service : InitServiceSpec) : list SocketAddr :=
  match service with
  | HttpProxy service => [http_listen service]
  | Connect service => [connect_listen service]
  | TcpForward service => [forward_listen service]
  | TcpBridge service => [tcp_listen service]
  | UnixBridge _ => []
  | OauthTarget service => [callback service]
  end.
Definition token_files (service : InitServiceSpec) : list str :=
  match service with
  | HttpProxy service => [http_auth_token_file service]
  | Connect service => option_list (auth_token_file service)
  | TcpForward _ => []
  | TcpBridge service => tcp_token_file service :: option_list (tcp_proxy_auth_token_file service)
  | UnixBridge service => unix_token_file service :: option_list (unix_proxy_auth_token_file service)
  | OauthTarget service => [oauth_token_file service]
  end.
Definition limits_of (limits : ServiceLimits) : list Z :=
  [max_connections limits; connect_timeout_seconds limits; handshake_timeout_seconds limits; idle_timeout_seconds limits].
Definition bounds (service : InitServiceSpec) : list Z :=
  match service with
  | HttpProxy service => limits_of (http_limits service)
  | Connect service => limits_of (connect_limits service)
  | TcpForward service => [forward_max_connections service; forward_connect_timeout_seconds service; forward_idle_timeout_seconds service]
  | TcpBridge service => limits_of (tcp_limits service)
  | UnixBridge service => limits_of (unix_limits service)
  | OauthTarget service => limits_of (oauth_limits service)
  end.
(** Strictly below a root, as it is written. *)
Definition written_below (root path : str) : Prop := exists rest, rest <> [] /\ components path = components root ++ rest.
Definition unix_socket_ok (service : InitServiceSpec) : Prop :=
  match service with
  | UnixBridge service => is_absolute (unix_listen service) = true /\ Forall (fun c => is_dot c = false) (components (unix_listen service)) /\
      exists prefix, prefix ∈ safe_prefixes /\ components prefix `prefix_of` components (unix_listen service)
  | _ => True
  end.
Record service_ok (secret_root : str) (service : InitServiceSpec) : Prop := {
  service_private : Forall local_address (private_addresses service);
  service_tokens : Forall (fun path => is_absolute path = true /\
    (written_below secret_root path \/ written_below INTERNAL_SECRET_ROOT path)) (token_files service);
  service_bounds : Forall (fun bound => bound <> 0%Z) (bounds service);
  service_socket : unix_socket_ok service }.

Lemma open_listener_local address : open_listener address = false -> local_address address.
Proof. unfold open_listener, local_address. intros H. bool_split. done. Qed.
Lemma path_starts_with_prefix base path : path_starts_with base path = true <-> components base `prefix_of` components path.
Proof.
  unfold path_starts_with. rewrite bool_decide_eq_true. split.
  - intros [rest H%strip_components_Some]. by exists rest.
  - intros [rest H]. exists rest. by apply strip_components_Some.
Qed.
Lemma under_written path root : under path root = true -> written_below root path.
Proof.
  unfold under. intros [[rest E]%path_starts_with_prefix Hne%negb_true_iff]%andb_true_iff. exists rest. split; [|done].
  intros ->. rewrite app_nil_r in E. unfold same_path in Hne. by apply bool_decide_eq_false in Hne.
Qed.
Lemma validate_service_token_Ok path root u : validate_service_token path root = Ok u ->
  is_absolute path = true /\ (written_below root path \/ written_below INTERNAL_SECRET_ROOT path).
Proof.
  unfold validate_service_token. intros [Ha H]%err_if_Ok%orb_false_iff. apply negb_false_iff in Ha. split; [done|].
  apply andb_false_iff in H as [H|H]; apply negb_false_iff, under_written in H; auto.
Qed.
Lemma validate_limits_Ok limits u : validate_limits limits = Ok u -> Forall (fun bound => bound <> 0%Z) (limits_of limits).
Proof. unfold validate_limits, validate_service_limits. intros H%err_if_Ok. bool_split. repeat constructor; done. Qed.

Section valid.
Context {I : Idna}.
Lemma validate_bridge_Ok remote token_file proxy proxy_token limits root u :
  validate_authenticated_bridge remote token_file proxy proxy_token limits root = Ok u ->
  Forall (fun path => is_absolute path = true /\ (written_below root path \/ written_below INTERNAL_SECRET_ROOT path))
    (token_file :: option_list proxy_token) /\ Forall (fun bound => bound <> 0%Z) (limits_of limits).
Proof.
  unfold validate_authenticated_bridge. intros [_ H]%bind_unit_Ok. apply bind_Ok in H as (a & _ & H). apply bind_unit_Ok in H as [Ht H].
  apply bind_unit_Ok in H as [_ H]. apply bind_unit_Ok in H as [Hp H]. apply validate_limits_Ok in H. split; [|done].
  constructor; [by eapply validate_service_token_Ok|]. destruct proxy_token as [path|]; [|constructor].
  apply err_if_bind_Ok in Hp as [_ Hp]. constructor; [by eapply validate_service_token_Ok|constructor].
Qed.
Lemma validate_service_Ok service root u : validate_service service root = Ok u -> service_ok root service.
Proof.
  destruct service as [s|s|s|s|s|s]; cbn [validate_service]; intros H.
  - unfold validate_http_proxy_service in H. apply err_if_bind_Ok in H as [Hl%open_listener_local H]. apply bind_unit_Ok in H as [_ H].
    apply bind_unit_Ok in H as [Ht%validate_service_token_Ok H]. apply bind_unit_Ok in H as [Hb%validate_limits_Ok _].
    split; [by constructor|by constructor|done|done].
  - unfold validate_connect_service in H. apply err_if_bind_Ok in H as [Hl%open_listener_local H]. apply bind_unit_Ok in H as [_ H].
    apply bind_Ok in H as (a & _ & H). apply bind_unit_Ok in H as [Hb%validate_limits_Ok H].
    split; [by constructor| |done|done]. cbn. destruct (auth_token_file s) as [path|]; [|constructor].
    constructor; [by eapply validate_service_token_Ok|constructor].
  - unfold validate_tcp_forward_service, validate_service_limits in H. apply err_if_bind_Ok in H as [Hl%open_listener_local H].
    apply bind_unit_Ok in H as [_ H%err_if_Ok]. bool_split. split; [by constructor|constructor| |done]. repeat constructor; done.
  - unfold validate_tcp_bridge_service in H. apply err_if_bind_Ok in H as [Hl%open_listener_local H]. apply validate_bridge_Ok in H as [Ht Hb].
    split; [by constructor|done|done|done].
  - unfold validate_unix_service in H. apply err_if_bind_Ok in H as [Hl H]. apply validate_bridge_Ok in H as [Ht Hb].
    split; [constructor|done|done|]. unfold unsafe_socket in Hl. rewrite !orb_false_iff, !negb_false_iff in Hl. destruct Hl as [[[Ha Hd] Hp] _].
    split; [done|]. split.
    + apply Forall_forall. intros c Hc%list_elem_of_In. destruct (is_dot c) eqn:E; [|done].
      assert (existsb is_dot (components (unix_listen s)) = true); [|congruence]. apply existsb_exists. by exists c.
    + apply existsb_exists in Hp as (prefix & Hin%list_elem_of_In & Hp%path_starts_with_prefix). by exists prefix.
  - unfold validate_oauth_service in H. apply err_if_bind_Ok in H as [_ H]. apply err_if_bind_Ok in H as [Hl%open_listener_local H].
    apply bind_unit_Ok in H as [Ht%validate_service_token_Ok Hb%validate_limits_Ok]. split; [by constructor|by constructor|done|done].
Qed.
Lemma validate_services_Ok seen services root u : validate_services seen services root = Ok u ->
  Forall (service_ok root) services /\ NoDup (map listener_key services) /\ Forall (fun service => listener_key service ∉ seen) services.
Proof.
  revert seen. induction services as [|service services IH]; intros seen H; cbn [validate_services map] in *.
  { split; [constructor|]. split; constructor. }
  apply bind_unit_Ok in H as [Hs%validate_service_Ok H]. apply err_if_bind_Ok in H as [Hm H]. apply IH in H as (Hall & Hnd & Hseen).
  rewrite Forall_forall in Hseen. split; [by constructor|]. split.
  - constructor; [|done]. intros (other & E & Hin)%list_elem_of_fmap. apply (Hseen _ Hin). rewrite <- E. by left.
  - constructor; [intros Hin%memb_true; congruence|]. apply Forall_forall. intros other Hin Hin2. apply (Hseen _ Hin). by right.
Qed.

(** A root the workload may be given. *)
Definition root_ok (path : str) : Prop :=
  is_absolute path = true /\ Forall (fun c => is_dot c = false) (components path) /\ components path <> components "/" /\
  forall prefix, prefix ∈ denied -> ~ components prefix `prefix_of` components path.
Lemma unsafe_root_ok path : unsafe_root path = false -> root_ok path.
Proof.
  unfold unsafe_root, root_ok. rewrite !orb_false_iff, negb_false_iff. intros [[[Ha Hd] Hr] Hp]. split; [done|]. split; [|split].
  - apply Forall_forall. intros c Hc%list_elem_of_In. destruct (is_dot c) eqn:E; [|done].
    assert (existsb is_dot (components path) = true); [|congruence]. apply existsb_exists. by exists c.
  - unfold same_path in Hr. by apply bool_decide_eq_false in Hr.
  - intros prefix Hin%list_elem_of_In Hpre%path_starts_with_prefix.
    assert (existsb (fun denied => path_starts_with denied path) denied = true); [|congruence]. apply existsb_exists. by exists prefix.
Qed.
Lemma distinct_roots_Ok passed paths u : distinct_roots passed paths = Ok u ->
  NoDup (map components paths) /\ Forall (fun path => components path ∉ map components passed) paths.
Proof.
  revert passed. induction paths as [|path paths IH]; intros passed H; cbn [distinct_roots map] in *; [by split; constructor|].
  apply err_if_bind_Ok in H as [Hp H]. apply IH in H as [Hnd Hall]. rewrite Forall_forall in Hall. split.
  - constructor; [|done]. intros (other & E & Hin)%list_elem_of_fmap. apply (Hall _ Hin). rewrite <- E, map_app. apply elem_of_app. right. by left.
  - constructor.
    + intros (other & E & Hin)%list_elem_of_fmap. assert (existsb (same_path path) passed = true); [|congruence].
      apply existsb_exists. exists other. split; [by apply list_elem_of_In|]. unfold same_path. by apply bool_decide_eq_true.
    + apply Forall_forall. intros other Hin Hin2. apply (Hall _ Hin). rewrite map_app. apply elem_of_app. by left.
Qed.

(** A shell identifier. *)
Definition environment_name (name : str) : Prop :=
  exists first rest, name = first :: rest /\ (is_alphabetic first = true \/ first = "_"%char) /\
    Forall (fun c => is_alphanumeric c = true \/ c = "_"%char) rest.
Lemma validate_environment_name_Ok name : validate_environment_name name = Ok tt <-> environment_name name.
Proof.
  unfold validate_environment_name, environment_name, starts_name. rewrite err_if_Ok, negb_false_iff. destruct name as [|first rest].
  { split; [done|]. by intros (? & ? & ? & _). }
  rewrite andb_true_iff, orb_true_iff, is_byte_true, forallb_forall. split.
  - intros [Hf Hr]. exists first, rest. split; [done|]. split; [naive_solver|]. apply Forall_forall. intros c Hc%list_elem_of_In%Hr.
    apply orb_true_iff in Hc as [?|?%is_byte_true]; auto.
  - intros (f & r & [= <- <-] & Hf & Hr). rewrite Forall_forall in Hr. split; [naive_solver|]. intros c Hc%list_elem_of_In%Hr.
    apply orb_true_iff. rewrite is_byte_true. naive_solver.
Qed.

End valid.

(** A Unix string survives its JSON form.  What is written for any bytes,
    text or not, is read back as the same bytes. *)
Theorem osvalue_roundtrip {D : StandardBase64} {E : StandardBase64Encoder} {L : StandardBase64Laws D E} (value : OsValue) :
  OsValue_deserialize (OsValue_serialize value) = Some value.
Proof. unfold OsValue_serialize, OsValue_deserialize. destruct (utf8_valid value); cbn; [done|]. apply standard_round. Qed.

Lemma osvalue_roundtrip_witness : exists (D : StandardBase64) (E : StandardBase64Encoder),
  @OsValue_deserialize D (@OsValue_serialize E ["255"%char; "a"%char]) = Some ["255"%char; "a"%char].
Proof.
  assert (L : @StandardBase64Laws Some (fun bytes => bytes)) by (intros bytes; reflexivity).
  exists Some, (fun bytes => bytes). exact (@osvalue_roundtrip Some (fun bytes => bytes) L ["255"%char; "a"%char]).
Defined.

(** ** A specification *)

Definition sample_init : InitSpec :=
  mkInitSpec 1 (Some 501%Z) (Some 20%Z) (Some ("dev" : str)) None false [("HOME" : str, "/home/dev" : str)] None default_secret_root false
    (strs ["/home/dev"; "/work"]) None []
    [TcpForward (mkTcpForwardServiceSpec (mkSocketAddr (V4 [127; 0; 0; 1]%Z) 8080) "10.0.0.2:80" 4 5 6)]
    (mkExecSpec "codex" [] [] None).

(** The text of a token's path decides, not the file it leads to. *)
Example token_outside_passes : validate_service_token "/run/codex-start/secrets/../../etc/shadow" default_secret_root = Ok tt.
Proof. vm_compute. reflexivity. Qed.
End InitSpec.
