(* ===== verification/Accounts.v ===== *)
(** * Account databases ([remap_account] of [container_init.rs])

    The rewriting of the passwd and group files that gives the workload's account
    the host's ids, and the atomic replacement of the files. *)

From S2P Require Export InitSpec.

Module Accounts.
Import FileSystem InitSpec.

(** ** Records *)

(** [bytes.split_inclusive(|byte| *byte == b'\n')]. *)
Fixpoint split_inclusive (bytes : str) : list str :=
  match bytes with
  | [] => []
  | c :: bytes =>
      if is_byte LF c then [c] :: split_inclusive bytes
      else match split_inclusive bytes with
           | [] => [[c]]
           | segment :: segments => (c :: segment) :: segments
           end
  end.

Definition line_of (segment : str) : str := default segment (strip_suffix [LF] segment).

Definition at_line (line_number : Z) (reason : str) (path : str) : InitError :=
  InvalidAccountDatabase path (reason ++ dec line_number).

Definition parse_database_record (segment path : str) (line_number : Z) (expected_fields : nat) : result InitError (option (list str)) :=
  let line := line_of segment in
  if negb (nonempty line) || starts_with "#" line then Ok None
  else
    let fields := split ":" line in
    err_if (negb (length fields =? expected_fields)%nat || negb (nonempty (default [] (fields !! 0%nat))))
      (at_line line_number "malformed record at line " path) ;;
    Ok (Some fields).

Definition parse_database_id (field path : str) (line_number : Z) : result InitError Z :=
  ok_or (if utf8_valid field then parse_u32 field else None)
    (at_line line_number "invalid numeric identifier at line " path).

(** [fields[i]]; a record has the expected number of them. *)
Definition field (fields : list str) (i : nat) : str := default [] (fields !! i).

Definition append_field (output field : str) : str := output ++ field ++ ":".
(** The fields behind the ids, with separators between them. *)
Fixpoint append_rest (output : str) (fields : list str) : str :=
  match fields with
  | [] => output
  | field :: [] => output ++ field
  | field :: rest => append_rest (output ++ field ++ ":") rest
  end.
Definition append_fields_with_ids (output : str) (fields : list str) (uid gid : Z) : str :=
  let output := append_field output (field fields 0) in
  let output := append_field output (field fields 1) in
  let output := append_field output (dec uid) in
  let output := append_field output (dec gid) in
  append_rest output (drop 4 fields).

(** [replace] appends the new record, or says that there is none. *)
Fixpoint rewrite_segments (line_number : Z) (segments : list str) (path : str) (expected_fields : nat)
    (replace : list str -> str -> option str) (output : str) : result InitError str :=
  match segments with
  | [] => Ok output
  | segment :: segments =>
      fields ← parse_database_record segment path line_number expected_fields;
      let output := match fields with
                    | None => output ++ segment
                    | Some fields =>
                        match replace fields output with
                        | None => output ++ segment
                        | Some output => if ends_with [LF] segment then output ++ [LF] else output
                        end
                    end in
      rewrite_segments (line_number + 1) segments path expected_fields replace output
  end.
Definition rewrite_database (bytes path : str) (expected_fields : nat) (replace : list str -> str -> option str) : result InitError str :=
  rewrite_segments 1 (split_inclusive bytes) path expected_fields replace [].

(** The first loop of [rewrite_passwd]: the number of records of the account. *)
Fixpoint scan_passwd (line_number : Z) (segments : list str) (path account : str) (uid : Z) (matching_records : nat) : result InitError nat :=
  match segments with
  | [] => Ok matching_records
  | segment :: segments =>
      fields ← parse_database_record segment path line_number 7;
      match fields with
      | None => scan_passwd (line_number + 1) segments path account uid matching_records
      | Some fields =>
          record_uid ← parse_database_id (field fields 2) path line_number;
          if field fields 0 =s? account then scan_passwd (line_number + 1) segments path account uid (S matching_records)
          else if (record_uid =? uid)%Z then Err (UidConflict uid (from_utf8_lossy (field fields 0)))
          else scan_passwd (line_number + 1) segments path account uid matching_records
      end
  end.

Definition rewrite_passwd (bytes path account : str) (uid gid : Z) : result InitError str :=
  matching_records ← scan_passwd 1 (split_inclusive bytes) path account uid 0;
  match matching_records with
  | 0%nat => Err (AccountNotFound account)
  | 1%nat => Ok tt
  | _ => Err (DuplicateAccount account)
  end ;;
  rewrite_database bytes path 7 (fun fields output =>
    if field fields 0 =s? account then Some (append_fields_with_ids output fields uid gid) else None).

(** The first loop of [rewrite_group]: the records of the group, and whether
    another one has the id. *)
Fixpoint scan_group (line_number : Z) (segments : list str) (path account : str) (gid : Z) (matching_records : nat) (gid_conflict : bool)
    : result InitError (nat * bool) :=
  match segments with
  | [] => Ok (matching_records, gid_conflict)
  | segment :: segments =>
      fields ← parse_database_record segment path line_number 4;
      match fields with
      | None => scan_group (line_number + 1) segments path account gid matching_records gid_conflict
      | Some fields =>
          record_gid ← parse_database_id (field fields 2) path line_number;
          if field fields 0 =s? account then scan_group (line_number + 1) segments path account gid (S matching_records) gid_conflict
          else scan_group (line_number + 1) segments path account gid matching_records (gid_conflict || (record_gid =? gid)%Z)
      end
  end.

Definition group_record (output : str) (fields : list str) (gid : Z) : str :=
  append_field (append_field output (field fields 0)) (field fields 1) ++ dec gid ++ ":" ++ field fields 3.

Definition rewrite_group (bytes path account : str) (gid : Z) : result InitError str :=
  '(matching_records, gid_conflict) ← scan_group 1 (split_inclusive bytes) path account gid 0 false;
  err_if (1 <? matching_records)%nat (DuplicateGroup account) ;;
  if (matching_records =? 0)%nat || gid_conflict then Ok bytes
  else rewrite_database bytes path 4 (fun fields output =>
         if field fields 0 =s? account then Some (group_record output fields gid) else None).

(** ** Files *)

Notation M := (ST Fs InitError) (only parsing).
Definition account_io {A} (path : str) (m : ST Fs IoError A) : M A := map_error (AccountIo path) m.

Definition MAX_ACCOUNT_DATABASE_BYTES : Z := 1024 * 1024.
Record AccountDatabase := mkAccountDatabase { bytes : str; permissions : Z }.

Definition read_account_database (path : str) : M AccountDatabase :=
  metadata ← account_io path (symlink_metadata path);
  throw_if (negb (is_regular metadata)) (InvalidAccountDatabase path "not a regular file") ;;
  throw_if (MAX_ACCOUNT_DATABASE_BYTES <? len metadata)%Z
    (InvalidAccountDatabase path
       ("file is " ++ dec (len metadata) ++ " bytes; maximum is " ++ dec MAX_ACCOUNT_DATABASE_BYTES)) ;;
  bytes ← account_io path (read path);
  mret (mkAccountDatabase bytes (mode metadata)).

Section replace.
Context (process_id : Z).

(** [ACCOUNT_TEMP_SEQUENCE] starts at [sequence]; the call gives the path, the
    open file and the next number. *)
Fixpoint allocate_temporary (attempts : nat) (parent file_name path : str) (sequence : Z) : M (str * Key * Z) :=
  match attempts with
  | O => throw (InvalidAccountDatabase path "could not allocate a private temporary file")
  | S attempts =>
      let candidate := path_join parent
        ("." ++ file_name ++ ".codex-start-" ++ dec process_id ++ "-" ++ dec sequence ++ ".tmp") in
      file ← tried (create_new candidate (Regular []) 0x180);
      match file with
      | Ok file => mret (candidate, file, (sequence + 1)%Z)
      | Err AlreadyExists => allocate_temporary attempts parent file_name path (sequence + 1)
      | Err source => throw (AccountIo candidate source)
      end
  end.
Definition create_account_temporary (path : str) (sequence : Z) : M (str * Key * Z) :=
  parent ← lift (ok_or (path_parent path) (InvalidAccountDatabase path "database has no parent directory"));
  file_name ← lift (ok_or (name ← file_name path; if utf8_valid name then Some name else None)
                      (InvalidAccountDatabase path "database has an invalid file name"));
  allocate_temporary 128 parent file_name path sequence.

Definition atomic_replace_account_database (path bytes : str) (permissions sequence : Z) : M Z :=
  '(temporary_path, temporary, sequence) ← create_account_temporary path sequence;
  result ← tried (
    account_io temporary_path (write_file temporary bytes ;; file_permissions temporary permissions ;; sync_all) ;;
    account_io path (rename temporary_path path));
  match result with
  | Ok _ => mret sequence
  | Err error => tried (remove_file temporary_path) ;; throw error
  end.

Definition remap_account_files (passwd_path group_path account : str) (uid gid sequence : Z) : M Z :=
  lift (validate_account_name account) ;;
  passwd ← read_account_database passwd_path;
  group ← read_account_database group_path;
  rewritten_passwd ← lift (rewrite_passwd (bytes passwd) passwd_path account uid gid);
  rewritten_group ← lift (rewrite_group (bytes group) group_path account gid);
  sequence ← (if negb (rewritten_group =s? bytes group)
              then atomic_replace_account_database group_path rewritten_group (permissions group) sequence
              else mret sequence);
  if negb (rewritten_passwd =s? bytes passwd)
  then atomic_replace_account_database passwd_path rewritten_passwd (permissions passwd) sequence
  else mret sequence.

Definition PASSWD_PATH : str := "/etc/passwd".
Definition GROUP_PATH : str := "/etc/group".
Definition remap_account (account : str) (uid gid sequence : Z) : M Z :=
  remap_account_files PASSWD_PATH GROUP_PATH account uid gid sequence.
End replace.

(** ** Lines *)

(** What [split_inclusive] gives: lines that end, and perhaps a last one that does not. *)
Fixpoint is_lines (segments : list str) : Prop :=
  match segments with
  | [] => True
  | segment :: [] => exists line, LF ∉ line /\ (segment = line ++ [LF] \/ (segment = line /\ line <> []))
  | segment :: segments => (exists line, LF ∉ line /\ segment = line ++ [LF]) /\ is_lines segments
  end.

Lemma split_inclusive_concat bytes : concat (split_inclusive bytes) = bytes.
Proof.
  induction bytes as [|c bytes IH]; [done|]. cbn [split_inclusive]. destruct (is_byte LF c).
  - cbn. by rewrite IH.
  - destruct (split_inclusive bytes) as [|segment segments]; cbn in *; by rewrite <- IH.
Qed.

Lemma split_inclusive_line line rest : LF ∉ line -> split_inclusive (line ++ LF :: rest) = (line ++ [LF]) :: split_inclusive rest.
Proof.
  induction line as [|c line IH]; intros Hl; [done|]. cbn [app split_inclusive].
  rewrite not_elem_of_cons in Hl. destruct Hl as [Hc Hl]. rewrite (proj2 (is_byte_false _ _) Hc). by rewrite IH.
Qed.
Lemma split_inclusive_last line : LF ∉ line -> line <> [] -> split_inclusive line = [line].
Proof.
  induction line as [|c line IH]; intros Hl Hne; [done|]. cbn [split_inclusive].
  rewrite not_elem_of_cons in Hl. destruct Hl as [Hc Hl]. rewrite (proj2 (is_byte_false _ _) Hc).
  destruct line; [done|]. by rewrite IH.
Qed.
Lemma split_inclusive_lines bytes : is_lines (split_inclusive bytes).
Proof.
  induction bytes as [|c bytes IH]; [done|]. cbn [split_inclusive]. destruct (is_byte LF c) eqn:Ec.
  - apply is_byte_true in Ec as <-. destruct (split_inclusive bytes) as [|segment segments]; cbn.
    + exists []. split; [set_solver|by left].
    + split; [|done]. exists []. split; [set_solver|done].
  - apply is_byte_false in Ec. destruct (split_inclusive bytes) as [|segment [|next segments]]; cbn in *.
    + exists [c]. split; [set_solver|by right].
    + destruct IH as (line & Hl & [->|[-> Hne]]); exists (c :: line); (split; [set_solver|]); [by left|by right].
    + destruct IH as [(line & Hl & ->) IH]. split; [|done]. exists (c :: line). split; [set_solver|done].
Qed.
Lemma split_inclusive_unique segments : is_lines segments -> split_inclusive (concat segments) = segments.
Proof.
  induction segments as [|segment segments IH]; [done|]. destruct segments as [|next segments].
  - intros (line & Hl & [->|[-> Hne]]); cbn; rewrite app_nil_r; [by rewrite split_inclusive_line|by apply split_inclusive_last].
  - intros [(line & Hl & ->) Hls]. cbn [concat]. rewrite <- app_assoc. cbn [app]. rewrite split_inclusive_line by done.
    f_equal. by apply IH.
Qed.

(** A line may be replaced by one that ends in the same way. *)
Lemma is_lines_replace before line line' ending after : LF ∉ line' -> line' <> [] -> LF ∉ line ->
  is_lines (before ++ (line ++ ending) :: after) -> ending = [] \/ ending = [LF] ->
  is_lines (before ++ (line' ++ ending) :: after).
Proof.
  intros Hl' Hne' Hl H Hend. induction before as [|segment before IH]; cbn [app] in *.
  - destruct after as [|next after]; cbn in *.
    + exists line'. split; [done|]. destruct Hend as [-> | ->]; [right; by rewrite app_nil_r|by left].
    + destruct H as [(l & Hll & E) H]. split; [|done]. exists line'. split; [done|].
      destruct Hend as [-> | ->]; [|done]. rewrite app_nil_r in E. subst. set_solver.
  - destruct before as [|next before]; cbn [app] in *; (destruct H as [H1 H2]; split; [done|by apply IH]).
Qed.

Lemma line_of_spec segment : exists ending, segment = line_of segment ++ ending /\ (ending = [] \/ ending = [LF]) /\
  (ends_with [LF] segment = bool_decide (ending = [LF])).
Proof.
  unfold line_of. destruct (strip_suffix [LF] segment) as [line|] eqn:E; cbn.
  - apply strip_suffix_Some in E as ->. exists [LF]. split; [done|]. split; [by right|]. apply ends_with_spec. by eexists.
  - exists []. rewrite app_nil_r. split; [done|]. split; [by left|]. destruct (ends_with [LF] segment) eqn:Ee; [|done].
    apply ends_with_spec in Ee as [r Hr]. rewrite (proj2 (strip_suffix_Some _ _ _) Hr) in E. done.
Qed.

(** ** Records *)

(** A line that holds no record, or the fields of one. *)
Definition record (expected_fields : nat) (segment : str) : result unit (option (list str)) :=
  map_err (fun _ => tt) (parse_database_record segment [] 0 expected_fields).

Lemma parse_record segment path n k fields : parse_database_record segment path n k = Ok fields <-> record k segment = Ok fields.
Proof.
  unfold record, parse_database_record. destruct (_ || starts_with _ _); [naive_solver|].
  destruct (negb _ || negb _); cbn; naive_solver.
Qed.

Lemma record_Some k segment fields : record k segment = Ok (Some fields) <->
  length fields = k /\ fields = split ":" (line_of segment) /\ starts_with "#" (line_of segment) = false /\
  line_of segment <> [] /\ field fields 0 <> [].
Proof.
  unfold record, parse_database_record, field. generalize (line_of segment). intros line.
  destruct (negb (nonempty line) || starts_with "#" line) eqn:E.
  - apply orb_true_iff in E. split; [done|]. intros (_ & _ & Hs & Hne & _). destruct E as [E|E]; [|congruence]. by destruct line.
  - apply orb_false_iff in E as [E1 E2]. set (fields' := split ":" line).
    assert (Hne : line <> []) by (intros Hl; by rewrite Hl in E1).
    destruct (negb (length fields' =? k)%nat || negb (nonempty (default [] (fields' !! 0%nat)))) eqn:Ek; cbn.
    + split; [done|]. intros (Hl & -> & _ & _ & H0). apply orb_true_iff in Ek as [Ek|Ek]; bool_split; [done|].
      by destruct (default [] (fields' !! 0%nat)).
    + apply orb_false_iff in Ek as [Ek1 Ek2]. bool_split. split.
      * intros [= <-]. repeat split; try done. intros Hf. by rewrite Hf in Ek2.
      * intros (_ & -> & _). done.
Qed.

(** The fields joined again are a record with these fields. *)
Lemma record_join k fields ending : length fields = k -> Forall (fun f => ":"%char ∉ f /\ LF ∉ f) fields ->
  field fields 0 <> [] -> starts_with "#" (field fields 0) = false -> (ending = [] \/ ending = [LF]) -> (0 < k)%nat ->
  record k (join ":" fields ++ ending) = Ok (Some fields) /\ LF ∉ join ":" fields /\ join ":" fields <> [] /\
  line_of (join ":" fields ++ ending) = join ":" fields.
Proof.
  intros Hk Hf H0 Hs He Hpos. destruct fields as [|f fields]; [cbn in Hk; lia|]. cbn in H0, Hs.
  assert (Hj : exists rest, join ":" (f :: fields) = f ++ rest).
  { destruct fields; [exists []; by rewrite app_nil_r|]. eexists. by rewrite join_cons_cons. }
  destruct Hj as [rest Hj].
  assert (HLF : LF ∉ join ":" (f :: fields)).
  { clear -Hf. induction Hf as [|f' fs [_ H] Hfs IH]; [set_solver|]. destruct fs as [|g fs]; [done|].
    rewrite join_cons_cons by done. rewrite !elem_of_app. intros [?|[?|?]]; [done| |by apply IH]. set_solver. }
  assert (Hne : join ":" (f :: fields) <> []) by (rewrite Hj; by destruct f).
  assert (Hl : line_of (join ":" (f :: fields) ++ ending) = join ":" (f :: fields)).
  { unfold line_of. destruct He as [-> | ->].
    - rewrite app_nil_r. destruct (strip_suffix [LF] (join ":" (f :: fields))) as [l|] eqn:E; [|done].
      apply strip_suffix_Some in E. rewrite E in HLF. set_solver.
    - by rewrite (proj2 (strip_suffix_Some _ _ _) eq_refl). }
  split; [|done]. apply record_Some. rewrite Hl. split; [done|]. split; [|split; [|split; [done|done]]].
  - symmetry. apply (split_join ":"%char); [done|]. eapply Forall_impl; [exact Hf|]. by intros ? [? _].
  - rewrite Hj. destruct f as [|c f]; [done|]. destruct (starts_with "#" ((c :: f) ++ rest)) eqn:E; [|done].
    apply starts_with_spec in E as [r [= -> _]]. by vm_compute in Hs.
Qed.

(** ** Rewriting *)

Definition id_of (field : str) : option Z := if utf8_valid field then parse_u32 field else None.
Lemma parse_id field path n id : parse_database_id field path n = Ok id <-> id_of field = Some id.
Proof. unfold parse_database_id, id_of. apply ok_or_Ok. Qed.
Lemma id_of_dec n : (0 <= n <= U32_MAX)%Z -> id_of (dec n) = Some n.
Proof.
  intros Hn. unfold id_of. rewrite utf8_valid_ascii; [by apply parse_uint_dec|].
  eapply Forall_impl; [apply dec_bytes|]. intros c Hc. unfold is_ascii. apply Z.ltb_lt.
  destruct Hc as [Hd| ->]; [|done]. apply in_range_spec in Hd. lia.
Qed.

(** A line of a database whose records have [k] fields, the third of them an id. *)
Definition sound_line (k : nat) (segment : str) : Prop :=
  match record k segment with
  | Ok (Some fields) => is_Some (id_of (field fields 2))
  | Ok None => True
  | Err _ => False
  end.
Definition named (k : nat) (account segment : str) : bool :=
  match record k segment with Ok (Some fields) => field fields 0 =s? account | _ => false end.
(** A record of another account with the id. *)
Definition taken (k : nat) (account : str) (id : Z) (segment : str) : bool :=
  match record k segment with
  | Ok (Some fields) => negb (field fields 0 =s? account) && bool_decide (id_of (field fields 2) = Some id)
  | _ => false
  end.
Definition count (p : str -> bool) (segments : list str) : nat := length (List.filter p segments).
Lemma count_cons p segment segments : count p (segment :: segments) = ((if p segment then 1 else 0) + count p segments)%nat.
Proof. unfold count. cbn. by destruct (p segment). Qed.
Lemma named_eq k account segment :
  named k account segment = match record k segment with Ok (Some fields) => field fields 0 =s? account | _ => false end.
Proof. done. Qed.
Lemma taken_eq k account id segment : taken k account id segment =
  match record k segment with
  | Ok (Some fields) => negb (field fields 0 =s? account) && bool_decide (id_of (field fields 2) = Some id)
  | _ => false
  end.
Proof. done. Qed.
Lemma sound_line_eq k segment : sound_line k segment =
  match record k segment with Ok (Some fields) => is_Some (id_of (field fields 2)) | Ok None => True | Err _ => False end.
Proof. done. Qed.

Lemma scan_passwd_spec n segments path account uid m r :
  scan_passwd n segments path account uid m = Ok r <->
  Forall (sound_line 7) segments /\ forallb (fun s => negb (taken 7 account uid s)) segments = true /\
  r = (m + count (named 7 account) segments)%nat.
Proof.
  revert n m. induction segments as [|segment segments IH]; intros n m; cbn [scan_passwd forallb].
  { unfold count. cbn. rewrite Nat.add_0_r. naive_solver. }
  rewrite bind_Ok, Forall_cons, andb_true_iff. setoid_rewrite parse_record. rewrite count_cons, (sound_line_eq _ segment), (taken_eq _ _ _ segment), (named_eq _ _ segment).
  destruct (record 7 segment) as [[fields|]|e] eqn:E.
  - destruct (field fields 0 =s? account) eqn:En; cbn [negb andb].
    + split.
      * intros (a & [= <-] & (id & Hid%parse_id & H)%bind_Ok). rewrite En in H. apply IH in H as (? & ? & ->). rewrite Hid. split; [by split|]. split; [done|lia].
      * intros ([[id Hid] Hs] & [_ Ht] & ->). eexists. split; [done|]. apply bind_Ok. exists id. split; [by apply parse_id|]. rewrite En. apply IH.
        split; [done|]. split; [done|lia].
    + split.
      * intros (a & [= <-] & (id & Hid%parse_id & H)%bind_Ok). rewrite En in H. destruct (id =? uid)%Z eqn:Eu; [done|]. bool_split.
        apply IH in H as (? & ? & ->). rewrite Hid. repeat split; try done. rewrite negb_true_iff, bool_decide_eq_false. congruence.
      * intros ([[id Hid] Hs] & [Hu Ht] & ->). eexists. split; [done|]. apply bind_Ok. exists id. split; [by apply parse_id|]. rewrite En.
        rewrite negb_true_iff, bool_decide_eq_false in Hu. destruct (id =? uid)%Z eqn:Eu; bool_split; [congruence|]. apply IH. done.
  - split.
    + intros (a & [= <-] & H). apply IH in H as (? & ? & ->). done.
    + intros ([_ ?] & [_ ?] & ->). eexists. split; [done|]. by apply IH.
  - split; [by intros (a & ? & _)|by intros [[] _]].
Qed.

Lemma scan_group_spec n segments path account gid m c r c' :
  scan_group n segments path account gid m c = Ok (r, c') <->
  Forall (sound_line 4) segments /\ r = (m + count (named 4 account) segments)%nat /\
  c' = c || existsb (taken 4 account gid) segments.
Proof.
  revert n m c. induction segments as [|segment segments IH]; intros n m c; cbn [scan_group existsb].
  { unfold count. cbn. rewrite Nat.add_0_r, orb_false_r. naive_solver. }
  rewrite bind_Ok, Forall_cons. setoid_rewrite parse_record. rewrite count_cons, (sound_line_eq _ segment), (taken_eq _ _ _ segment), (named_eq _ _ segment).
  destruct (record 4 segment) as [[fields|]|e] eqn:E.
  - destruct (field fields 0 =s? account) eqn:En; cbn [negb andb orb].
    + split.
      * intros (a & [= <-] & (id & Hid%parse_id & H)%bind_Ok). rewrite En in H. apply IH in H as (? & -> & ->). rewrite Hid.
        split; [by split|]. split; [lia|done].
      * intros ([[id Hid] Hs] & -> & ->). eexists. split; [done|]. apply bind_Ok. exists id. split; [by apply parse_id|]. rewrite En. apply IH.
        split; [done|]. split; [lia|done].
    + assert (Hb : forall id, id_of (field fields 2) = Some id -> bool_decide (id_of (field fields 2) = Some gid) = (id =? gid)%Z).
      { intros id Hid. rewrite Hid. case_bool_decide as Hd; [injection Hd as ->; by rewrite Z.eqb_refl|].
        symmetry. apply Z.eqb_neq. congruence. }
      split.
      * intros (a & [= <-] & (id & Hid%parse_id & H)%bind_Ok). rewrite En in H. apply IH in H as (? & -> & ->). rewrite (Hb _ Hid), orb_assoc, Hid. by repeat split.
      * intros ([[id Hid] Hs] & -> & ->). eexists. split; [done|]. apply bind_Ok. exists id. split; [by apply parse_id|]. rewrite En. apply IH.
        by rewrite (Hb _ Hid), orb_assoc.
  - split.
    + intros (a & [= <-] & H). apply IH in H as (? & -> & ->). done.
    + intros ([_ ?] & -> & ->). eexists. split; [done|]. by apply IH.
  - split; [by intros (a & ? & _)|by intros [[] _]].
Qed.

(** A line with the record of [new] in the place of its own. *)
Definition rewritten (k : nat) (new : list str -> option (list str)) (segment : str) : str :=
  match record k segment with
  | Ok (Some fields) =>
      match new fields with
      | Some fields => join ":" fields ++ (if ends_with [LF] segment then [LF] else [])
      | None => segment
      end
  | _ => segment
  end.

Lemma rewrite_segments_spec n segments path k replace new output :
  Forall (sound_line k) segments ->
  (forall fields output, length fields = k -> replace fields output = (fun fs => output ++ join ":" fs) <$> new fields) ->
  rewrite_segments n segments path k replace output = Ok (output ++ concat (map (rewritten k new) segments)).
Proof.
  intros Hs Hnew. revert n output. induction Hs as [|segment segments Hseg Hs IH]; intros n output; cbn [rewrite_segments map concat].
  { by rewrite app_nil_r. }
  unfold sound_line in Hseg. destruct (record k segment) as [fields|] eqn:E; [|done].
  pose proof (proj2 (parse_record segment path n k fields) E) as ->. cbn [mbind result_bind]. rewrite IH, app_assoc. f_equal. f_equal.
  unfold rewritten. rewrite E. destruct fields as [fields|]; [|done].
  rewrite Hnew by (by apply record_Some in E as [? _]). destruct (new fields); cbn; [|done].
  destruct (ends_with [LF] segment); by rewrite ?app_nil_r, ?app_assoc.
Qed.

(** ** One record is replaced *)

Lemma count_zero p segments : count p segments = 0%nat <-> Forall (fun s => p s = false) segments.
Proof.
  induction segments as [|s l IH]; [by split|]. rewrite count_cons, Forall_cons, <- IH. destruct (p s); (split; [intros ?|intros [? ?]]); try done; try lia; by split.
Qed.
Lemma count_one p segments : count p segments = 1%nat ->
  exists before segment after, segments = before ++ segment :: after /\ p segment = true /\
    Forall (fun s => p s = false) (before ++ after).
Proof.
  induction segments as [|s l IH]; [done|]. rewrite count_cons. destruct (p s) eqn:E.
  - intros Hc. exists [], s, l. split; [done|]. split; [done|]. apply count_zero. by injection Hc.
  - intros Hc. destruct (IH Hc) as (before & seg & after & -> & Hp & Hf). exists (s :: before), seg, after.
    split; [done|]. split; [done|]. by constructor.
Qed.
Lemma count_middle p before segment after : p segment = true -> Forall (fun s => p s = false) (before ++ after) ->
  count p (before ++ segment :: after) = 1%nat.
Proof.
  intros Hp [Hb Ha]%Forall_app. unfold count. rewrite List.filter_app, length_app. cbn. rewrite Hp. cbn.
  apply count_zero in Hb, Ha. unfold count in *. lia.
Qed.
Lemma named_Some k account segment : named k account segment = true <->
  exists fields, record k segment = Ok (Some fields) /\ field fields 0 = account.
Proof.
  rewrite named_eq. destruct (record k segment) as [[fields|]|]; [rewrite str_eqb_eq|..]; naive_solver.
Qed.

Lemma line_of_no_LF segment bytes : segment ∈ split_inclusive bytes -> LF ∉ line_of segment.
Proof.
  intros Hin. pose proof (split_inclusive_lines bytes) as Hl. revert Hl Hin. generalize (split_inclusive bytes). clear. intros l.
    assert (Hbase : forall line, LF ∉ line -> line_of (line ++ [LF]) = line).
    { intros line _. unfold line_of. by rewrite (proj2 (strip_suffix_Some [LF] (line ++ [LF]) line)). }
    induction l as [|s [|s' l] IH]; intros Hl Hin; [by apply not_elem_of_nil in Hin|..].
    - apply list_elem_of_singleton in Hin as ->. destruct Hl as (line & Hl & [-> |[-> _]]); [by rewrite Hbase|].
      unfold line_of. destruct (strip_suffix [LF] line) as [r|] eqn:E; [|done]. apply strip_suffix_Some in E as ->. set_solver.
    - destruct Hl as [(line & Hl & ->) Hls]. apply elem_of_cons in Hin as [-> |Hin]; [by rewrite Hbase|by apply IH].
Qed.

(** The fields of a record have no separators in them. *)
Lemma record_fields k segment fields bytes : record k segment = Ok (Some fields) -> segment ∈ split_inclusive bytes ->
  Forall (fun f => ":"%char ∉ f /\ LF ∉ f) fields /\ field fields 0 <> [] /\ starts_with "#" (field fields 0) = false.
Proof.
  intros (_ & -> & Hs & Hne & H0)%record_Some Hin.
  pose proof (line_of_no_LF _ _ Hin) as Hline.
  split; [|split; [done|]].
  - rewrite Forall_forall. intros f Hf. split; [|intros Hlf; apply Hline; by eapply elem_of_split_inv].
    pose proof (split_by_no_sep (is_byte ":") (line_of segment)) as Hn. rewrite Forall_forall in Hn. intros Hc.
    specialize (Hn _ Hf). rewrite Forall_forall in Hn. by specialize (Hn _ Hc).
  - destruct (split ":" (line_of segment)) as [|f fs] eqn:E; [done|]. unfold field. cbn. destruct f as [|c f]; [done|].
    destruct (starts_with "#" (c :: f)) eqn:Eh; [|done]. apply starts_with_spec in Eh as [r [= -> ->]].
    rewrite <- (join_split ":"%char (line_of segment)), E in Hs. destruct fs; by vm_compute in Hs.
Qed.

(** The new fields of the account's records. *)
Definition renumber (account : str) (ids : list str -> list str) (fields : list str) : option (list str) :=
  if field fields 0 =s? account then Some (ids fields) else None.

Section one.
Context (k : nat) (account : str) (ids : list str -> list str).
Notation new := (renumber account ids).
Context (Hids : forall fields, length fields = k -> Forall (fun f => ":"%char ∉ f /\ LF ∉ f) fields ->
  length (ids fields) = k /\ field (ids fields) 0 = field fields 0 /\ Forall (fun f => ":"%char ∉ f /\ LF ∉ f) (ids fields)).

Lemma rewritten_other segment : named k account segment = false -> rewritten k new segment = segment.
Proof.
  rewrite named_eq. unfold rewritten, renumber. destruct (record k segment) as [[fields|]|]; [|done..]. by intros ->.
Qed.
Lemma rewritten_others segments : Forall (fun s => named k account s = false) segments -> map (rewritten k new) segments = segments.
Proof. induction 1 as [|s l Hs _ IH]; [done|]. cbn. by rewrite rewritten_other, IH. Qed.

(** The lines of the rewritten database: all but one are as they were. *)
Lemma rewritten_lines bytes before segment after fields :
  split_inclusive bytes = before ++ segment :: after -> Forall (fun s => named k account s = false) (before ++ after) ->
  record k segment = Ok (Some fields) -> field fields 0 = account ->
  exists segment', split_inclusive (concat (map (rewritten k new) (split_inclusive bytes))) = before ++ segment' :: after /\
    record k segment' = Ok (Some (ids fields)) /\ field (ids fields) 0 = account /\
    ends_with [LF] segment' = ends_with [LF] segment /\ segment' = rewritten k new segment.
Proof.
  intros Hb [Hbef Haft]%Forall_app Hr Hacc. pose proof Hr as (Hk & _)%record_Some.
  assert (Hpos : (0 < k)%nat) by (subst k; destruct fields; [|cbn; lia]; apply record_Some in Hr as (_ & _ & _ & _ & ?); done).
  assert (Hin : segment ∈ split_inclusive bytes) by (rewrite Hb; set_solver).
  destruct (record_fields _ _ _ _ Hr Hin) as (Hff & H0 & Hh). destruct (Hids _ Hk Hff) as (Hk' & H0' & Hff').
  destruct (line_of_spec segment) as (ending & Hseg & Hend & Hew). rewrite <- H0' in H0, Hh.
  destruct (record_join _ _ ending Hk' Hff' H0 Hh Hend Hpos) as (Hrec & HLF & Hne & Hline).
  assert (Hnew : rewritten k new segment = join ":" (ids fields) ++ ending).
  { unfold rewritten, renumber. rewrite Hr, Hacc, (proj2 (str_eqb_eq _ _) eq_refl), Hew. f_equal. destruct Hend as [-> | ->]; done. }
  exists (join ":" (ids fields) ++ ending). rewrite Hb, map_app. cbn [map]. rewrite !rewritten_others, Hnew by done.
  split; [|split; [done|split; [congruence|split; [|done]]]].
  - apply split_inclusive_unique. apply (is_lines_replace before (line_of segment)); [done|done| |by rewrite <- Hseg, <- Hb; apply split_inclusive_lines|done].
    by eapply line_of_no_LF.
  - rewrite Hew. destruct Hend as [-> | ->].
    + rewrite app_nil_r. destruct (ends_with [LF] (join ":" (ids fields))) eqn:E; [|done]. apply ends_with_spec in E as [r E]. rewrite E in HLF. set_solver.
    + rewrite (proj2 (ends_with_spec _ _)); [done|]. by eexists.
Qed.

(** Rewriting once more changes nothing. *)
Lemma rewritten_again bytes before segment segment' after fields : ids (ids fields) = ids fields ->
  split_inclusive bytes = before ++ segment' :: after -> Forall (fun s => named k account s = false) (before ++ after) ->
  record k segment = Ok (Some fields) -> field fields 0 = account -> record k segment' = Ok (Some (ids fields)) ->
  field (ids fields) 0 = account -> ends_with [LF] segment' = ends_with [LF] segment -> segment' = rewritten k new segment ->
  concat (map (rewritten k new) (split_inclusive bytes)) = bytes.
Proof.
  intros Hids2 Hb [Hbef Haft]%Forall_app Hr Ha Hr' Ha' He Hnew. rewrite <- (split_inclusive_concat bytes) at 2.
  rewrite Hb, map_app. cbn [map]. rewrite !rewritten_others by done. f_equal. f_equal. f_equal.
  rewrite Hnew at 2. unfold rewritten, renumber. by rewrite Hr, Hr', Ha, Ha', (proj2 (str_eqb_eq _ _) eq_refl), Hids2, He.
Qed.
End one.

(** ** What the databases say afterwards *)

Definition passwd_ids (uid gid : Z) (fields : list str) : list str :=
  [field fields 0; field fields 1; dec uid; dec gid] ++ drop 4 fields.
Definition group_ids (gid : Z) (fields : list str) : list str := [field fields 0; field fields 1; dec gid; field fields 3].

Definition plain_field (f : str) : Prop := ":"%char ∉ f /\ LF ∉ f.
Lemma plain_dec n : plain_field (dec n).
Proof. split; by apply dec_no_byte. Qed.

Lemma passwd_ids_spec uid gid fields : length fields = 7%nat -> Forall plain_field fields ->
  length (passwd_ids uid gid fields) = 7%nat /\ field (passwd_ids uid gid fields) 0 = field fields 0 /\
  Forall plain_field (passwd_ids uid gid fields).
Proof.
  intros Hl Hf. do 8 (destruct fields as [|? fields]; try done). split; [done|]. split; [done|].
  rewrite !Forall_cons in Hf. unfold passwd_ids, group_ids, field. cbn. rewrite !Forall_cons. naive_solver auto using plain_dec.
Qed.
Lemma group_ids_spec gid fields : length fields = 4%nat -> Forall plain_field fields ->
  length (group_ids gid fields) = 4%nat /\ field (group_ids gid fields) 0 = field fields 0 /\
  Forall plain_field (group_ids gid fields).
Proof.
  intros Hl Hf. do 5 (destruct fields as [|? fields]; try done). split; [done|]. split; [done|].
  rewrite !Forall_cons in Hf. unfold passwd_ids, group_ids, field. cbn. rewrite !Forall_cons. naive_solver auto using plain_dec.
Qed.
Lemma passwd_record uid gid fields output : length fields = 7%nat ->
  append_fields_with_ids output fields uid gid = output ++ join ":" (passwd_ids uid gid fields).
Proof.
  intros Hl. do 8 (destruct fields as [|? fields]; try done). unfold append_fields_with_ids, append_field, field, passwd_ids. cbn.
  by rewrite <- !app_assoc.
Qed.
Lemma group_record_join gid fields output : length fields = 4%nat -> group_record output fields gid = output ++ join ":" (group_ids gid fields).
Proof.
  intros Hl. do 5 (destruct fields as [|? fields]; try done). unfold group_record, append_field, field, group_ids. cbn.
  by rewrite <- !app_assoc.
Qed.

Lemma replace_passwd account uid gid fields output : length fields = 7%nat ->
  (if field fields 0 =s? account then Some (append_fields_with_ids output fields uid gid) else None) =
  (fun fs => output ++ join ":" fs) <$> renumber account (passwd_ids uid gid) fields.
Proof. intros Hl. unfold renumber. case_match; [by rewrite passwd_record|done]. Qed.
Lemma replace_group account gid fields output : length fields = 4%nat ->
  (if field fields 0 =s? account then Some (group_record output fields gid) else None) =
  (fun fs => output ++ join ":" fs) <$> renumber account (group_ids gid) fields.
Proof. intros Hl. unfold renumber. case_match; [by rewrite group_record_join|done]. Qed.

(** The rewriting succeeds when all lines are sound and one is the account's, and
    it gives the lines of [rewritten]. *)
Lemma rewrite_passwd_spec bytes path account uid gid out :
  rewrite_passwd bytes path account uid gid = Ok out <->
  Forall (sound_line 7) (split_inclusive bytes) /\ Forall (fun s => taken 7 account uid s = false) (split_inclusive bytes) /\
  count (named 7 account) (split_inclusive bytes) = 1%nat /\
  out = concat (map (rewritten 7 (renumber account (passwd_ids uid gid))) (split_inclusive bytes)).
Proof.
  unfold rewrite_passwd, rewrite_database. rewrite bind_Ok. setoid_rewrite bind_unit_Ok.
  assert (Ht : forall l, forallb (fun s => negb (taken 7 account uid s)) l = true <-> Forall (fun s => taken 7 account uid s = false) l).
  { intros l. rewrite forallb_Forall. apply Forall_iff. intros s. apply negb_true_iff. }
  pose proof (fun Hs => rewrite_segments_spec 1 (split_inclusive bytes) path 7 _ (renumber account (passwd_ids uid gid)) [] Hs
    (replace_passwd account uid gid)) as Hrw.
  split.
  - intros (m & (Hs & Htk%Ht & ->)%scan_passwd_spec & Hm & H). split; [done|]. split; [done|]. cbn [Nat.add] in Hm.
    split; [destruct (count _ _) as [|[|]]; done|]. rewrite Hrw in H by done. by injection H as <-.
  - intros (Hs & Htk & Hc & ->). exists 1%nat. split; [|split; [done|]].
    + apply scan_passwd_spec. rewrite Ht. split; [done|]. split; [done|]. by rewrite Hc.
    + by rewrite Hrw.
Qed.

Lemma Forall_middle {A} (P : A -> Prop) before x after : Forall P (before ++ x :: after) <-> P x /\ Forall P (before ++ after).
Proof. rewrite !Forall_app, Forall_cons. naive_solver. Qed.

(** C29: giving the workload's account the host's ids changes one record and nothing
    else.  When the rewriting of the passwd file succeeds, exactly one line held a
    record of the account; all other lines stay as they were, byte for byte, and
    none of them has the new uid; the account's record keeps every field but its
    two ids; and doing it again changes nothing. *)
Theorem account_remap_exact passwd path account uid gid out :
  (0 <= uid <= U32_MAX)%Z -> rewrite_passwd passwd path account uid gid = Ok out ->
  exists before segment segment' after fields,
    split_inclusive passwd = before ++ segment :: after /\ split_inclusive out = before ++ segment' :: after /\
    record 7 segment = Ok (Some fields) /\ field fields 0 = account /\
    record 7 segment' = Ok (Some (passwd_ids uid gid fields)) /\ ends_with [LF] segment' = ends_with [LF] segment /\
    Forall (fun other => forall others, record 7 other = Ok (Some others) ->
      field others 0 <> account /\ id_of (field others 2) <> Some uid) (before ++ after) /\
    rewrite_passwd out path account uid gid = Ok out.
Proof.
  intros Huid (Hs & Ht & Hc & ->)%rewrite_passwd_spec.
  destruct (count_one _ _ Hc) as (before & segment & after & Hb & (fields & Hr & Ha)%named_Some & Hothers).
  destruct (rewritten_lines 7 account (passwd_ids uid gid) (passwd_ids_spec uid gid) _ _ _ _ _ Hb Hothers Hr Ha)
    as (segment' & Hb' & Hr' & Ha' & He & Hnew).
  set (out := concat _) in *. exists before, segment, segment', after, fields. do 6 (split; [done|]).
  rewrite Hb, Forall_middle in Hs, Ht. destruct Hs as [_ Hs], Ht as [_ Ht].
  assert (Hn' : named 7 account segment' = true) by (apply named_Some; by eexists).
  split.
  - rewrite Forall_forall in *. intros other Hin others Ho. specialize (Hothers _ Hin). specialize (Ht _ Hin).
    rewrite named_eq, Ho in Hothers. rewrite taken_eq, Ho, Hothers in Ht. cbn in Ht. by apply str_eqb_neq in Hothers; bool_split.
  - apply rewrite_passwd_spec. rewrite Hb', !Forall_middle. split; [split; [|done]|split; [split; [|done]|split]].
    + rewrite sound_line_eq, Hr'. exists uid. by apply id_of_dec.
    + rewrite taken_eq, Hr', Ha', (proj2 (str_eqb_eq _ _) eq_refl). done.
    + by apply count_middle.
    + rewrite <- Hb'. symmetry. apply (rewritten_again 7 account (passwd_ids uid gid) out before segment segment' after fields); try done.
Qed.

Definition database (records : list string) : str := concat (map (fun record => record ++ [LF]) (strs records)).
Definition sample_passwd : str :=
  database ["root:x:0:0:root:/root:/bin/bash"; "# people"; "dev:x:1000:1000:Dev,,,:/home/dev:/bin/sh"] ++ "last:x:7:7::/:/bin/false".
Lemma account_remap_exact_witness :
  exists out, rewrite_passwd sample_passwd PASSWD_PATH "dev" 501 20 = Ok out /\
    rewrite_passwd out PASSWD_PATH "dev" 501 20 = Ok out /\
    out = database ["root:x:0:0:root:/root:/bin/bash"; "# people"; "dev:x:501:20:Dev,,,:/home/dev:/bin/sh"] ++ "last:x:7:7::/:/bin/false".
Proof.
  destruct (rewrite_passwd sample_passwd PASSWD_PATH "dev" 501 20) as [out|] eqn:E; [|by vm_compute in E].
  exists out. destruct (account_remap_exact _ _ _ 501 20 _ ltac:(unfold U32_MAX; lia) E)
    as (_ & _ & _ & _ & _ & _ & _ & _ & _ & _ & _ & _ & Hagain).
  split; [done|]. split; [exact Hagain|]. vm_compute in E. injection E as <-. reflexivity.
Defined.

(** The group of the account follows, unless there is none or its new id is another
    group's; then the file stays as it is. *)
Lemma rewrite_group_spec bytes path account gid out : rewrite_group bytes path account gid = Ok out ->
  Forall (sound_line 4) (split_inclusive bytes) /\ (count (named 4 account) (split_inclusive bytes) <= 1)%nat /\
  out = (if (count (named 4 account) (split_inclusive bytes) =? 0)%nat || existsb (taken 4 account gid) (split_inclusive bytes)
         then bytes else concat (map (rewritten 4 (renumber account (group_ids gid))) (split_inclusive bytes))).
Proof.
  unfold rewrite_group, rewrite_database. intros ([m c] & (Hs & -> & ->)%scan_group_spec & H)%bind_Ok. cbn [Nat.add orb] in H.
  apply err_if_bind_Ok in H as [Hm H]. bool_split. split; [done|]. split; [lia|].
  destruct ((count _ _ =? 0)%nat || existsb _ _); [by injection H as <-|].
  rewrite (rewrite_segments_spec 1 _ path 4 _ (renumber account (group_ids gid)) [] Hs (replace_group account gid)) in H. by injection H as <-.
Qed.

(** ** Files are replaced whole *)

Lemma allocate_temporary_spec process_id attempts parent name path sequence fs r fs' :
  allocate_temporary process_id attempts parent name path sequence fs = Some (r, fs') -> same_place fs fs' /\
  match r with
  | Ok (candidate, key, _) => resolve false candidate fs = Ok key /\ nodes fs !! key = None /\
      exists node, nodes fs' = <[key := node]> (nodes fs) /\ kind node = Regular []
  | Err _ => nodes fs' = nodes fs
  end.
Proof.
  revert sequence fs. induction attempts as [|attempts IH]; intros sequence fs H; cbn in H; [injection H as <- <-; done|].
  run_step H r1 fs1 H1. apply tried_run in H1 as (r2 & [Hp H2]%create_new_spec & ->).
  destruct r2 as [key|[| |text]].
  - destruct H2 as (Hr & Hk & node & Hn & Hkind & _). injection H as <- <-. split; [done|]. split; [done|]. split; [done|]. by exists node.
  - injection H as <- <-. done.
  - apply IH in H as [Hp2 H]. split; [by trans fs1|]. destruct Hp as (Hw & _).
    destruct r as [[[candidate key] s]|e]; [|by rewrite H]. rewrite (resolve_same _ _ fs) in H by done. by rewrite H2 in H.
  - injection H as <- <-. done.
Qed.

Lemma create_account_temporary_spec process_id path sequence fs r fs' :
  create_account_temporary process_id path sequence fs = Some (r, fs') -> same_place fs fs' /\
  match r with
  | Ok (candidate, key, _) => resolve false candidate fs = Ok key /\ nodes fs !! key = None /\
      exists node, nodes fs' = <[key := node]> (nodes fs) /\ kind node = Regular []
  | Err _ => nodes fs' = nodes fs
  end.
Proof.
  unfold create_account_temporary. intros H. revert H. st_run. destruct (ok_or (path_parent path) _); [|by intros [= <- <-]]. st_run.
  destruct (ok_or _ _); [|by intros [= <- <-]]. apply allocate_temporary_spec.
Qed.

(** While only the temporary file changes, walks end where they did. *)
Lemma resolve_insert follow path fs fs' key node r : nodes fs !! key = None -> is_regular node = true ->
  nodes fs' = <[key := node]> (nodes fs) -> same_place fs fs' -> resolve follow path fs = Ok r -> resolve follow path fs' = Ok r.
Proof. intros Hk Hn Hf (Hw & _). unfold resolve. rewrite Hf, Hw. destruct (negb _); [done|]. by apply walk_insert. Qed.

Lemma write_temporary_spec temporary bytes permissions fs r fs' node : nodes fs !! temporary = Some node -> is_regular node = true ->
  (write_file temporary bytes ;; file_permissions temporary permissions ;; sync_all) fs = Some (r, fs') ->
  same_place fs fs' /\ exists node', nodes fs' = <[temporary := node']> (nodes fs) /\ is_regular node' = true /\
    (r = Ok tt -> kind node' = Regular bytes /\ mode node' = permissions).
Proof.
  intros Hn Hreg H.
  assert (Halter : forall f, alter f temporary (nodes fs) = <[temporary := f node]> (nodes fs)).
  { intros f. apply map_eq. intros k. destruct (decide (temporary = k)) as [<-|Hne]; [by rewrite lookup_alter_eq, Hn, lookup_insert_eq|].
    by rewrite lookup_alter_ne, lookup_insert_ne. }
  run_step H r1 fs1 H1. apply write_file_spec in H1 as [Hp1 H1]. destruct r1 as [_|e].
  2:{ destruct H as [-> ->]. split; [done|]. exists node. rewrite H1, insert_id by done. by repeat split. }
  rewrite Halter in H1. run_step H r2 fs2 H2. apply file_permissions_spec in H2 as [Hp2 H2]. destruct r2 as [_|e].
  2:{ destruct H as [-> ->]. split; [by trans fs1|]. eexists. rewrite H2, H1. by repeat split. }
  apply sync_all_spec in H as [H3 Hp3]. split; [by trans fs1; [|trans fs2]|]. rewrite H3, H2, H1.
  exists (set_mode permissions (set_content bytes node)). split; [|by repeat split].
  apply map_eq. intros k. destruct (decide (temporary = k)) as [<-|Hne]; [by rewrite lookup_alter_eq, !lookup_insert_eq|].
  by rewrite lookup_alter_ne, !lookup_insert_ne.
Qed.

Lemma atomic_replace_spec process_id path bytes permissions sequence fs r fs' key :
  atomic_replace_account_database process_id path bytes permissions sequence fs = Some (r, fs') ->
  resolve false path fs = Ok key -> is_Some (nodes fs !! key) -> same_place fs fs' /\
  match r with
  | Ok _ => exists node, nodes fs' = <[key := node]> (nodes fs) /\ kind node = Regular bytes /\ mode node = permissions
  | Err _ => nodes fs ⊆ nodes fs'
  end.
Proof.
  unfold atomic_replace_account_database. intros H Hkey Hsome. run_step H r1 fs1 H1. apply create_account_temporary_spec in H1 as [Hp1 H1].
  destruct r1 as [[[temporary_path temporary] sequence1]|e]; [|destruct H as [-> ->]; by rewrite H1].
  destruct H1 as (Htmp & Hfree & node & Hn1 & Hk1). assert (Hreg : is_regular node = true) by (unfold is_regular; by rewrite Hk1).
  run_step H r2 fs2 H2. apply tried_run in H2 as (r2' & H2 & ->). run_step H2 r3 fs3 H3.
  apply map_error_run in H3 as (r3' & H3 & ->). apply (write_temporary_spec _ _ _ _ _ _ node) in H3 as (Hp3 & node3 & Hn3 & Hreg3 & Hok); [|by rewrite Hn1, lookup_insert_eq|done].
  rewrite Hn1, insert_insert_eq in Hn3. assert (Hp13 : same_place fs fs3) by by trans fs1.
  assert (Hfail : forall e fs2', nodes fs2' = nodes fs3 -> same_place fs3 fs2' ->
    (tried (remove_file temporary_path) ;; throw (A := Z) e) fs2' = Some (r, fs') -> same_place fs fs' /\ match r with Ok _ => False | Err _ => nodes fs ⊆ nodes fs' end).
  { intros e fs2' Hnn Hpp Hr. run_step Hr r4 fs4 H4. apply tried_run in H4 as (r4' & [Hp4 H4]%remove_file_spec & ->). injection Hr as <- <-.
    split; [by trans fs3; [|trans fs2']|]. destruct r4' as [_|e'].
    - destruct H4 as (k & Hk & ->). rewrite (resolve_insert _ _ fs fs2' temporary node3 temporary) in Hk; [|done|done|congruence|by trans fs3|done]. injection Hk as <-.
      rewrite Hnn, Hn3, delete_insert_eq, delete_id by done. done.
    - rewrite H4, Hnn, Hn3. by apply insert_subseteq. }
  destruct r3' as [[]|e]; cbn [map_err] in H2.
  2:{ destruct H2 as [-> ->]. apply Hfail in H as [? ?]; [|done|done]. by destruct r. }
  apply map_error_run in H2 as (r4 & [Hp4 H4]%rename_spec & ->). destruct r4 as [[]|e]; cbn [map_err] in H.
  2:{ apply Hfail in H as [? ?]; [|congruence|done]. by destruct r. }
  injection H as <- <-. destruct (Hok eq_refl) as [Hkind Hmode]. destruct H4 as (k & n & target & Hk & Hnk & Ht & ->).
  rewrite (resolve_insert _ _ fs fs3 temporary node3 temporary) in Hk by done. injection Hk as <-.
  rewrite (resolve_insert _ _ fs fs3 temporary node3 key) in Ht by done. injection Ht as <-.
  rewrite Hn3, lookup_insert_eq in Hnk. injection Hnk as <-. split; [by trans fs3|].
  exists node3. split; [|done]. by rewrite Hn3, delete_insert_eq, delete_id.
Qed.

Lemma regular_content n : is_regular n = true -> exists content, kind n = Regular content.
Proof. unfold is_regular. destruct (kind n) as [|content| | |]; try done. by exists content. Qed.

Lemma read_account_database_spec path fs r fs' key node content : read_account_database path fs = Some (r, fs') ->
  resolve false path fs = Ok key -> nodes fs !! key = Some node -> kind node = Regular content ->
  nodes fs' = nodes fs /\ same_place fs fs' /\ (forall db, r = Ok db -> bytes db = content).
Proof.
  intros H Hr Hn Hk. unfold read_account_database in H. run_step H r1 fs1 H1.
  apply map_error_run in H1 as (r1' & (Hn1 & Hp1 & _)%symlink_metadata_spec & ->).
  destruct r1' as [n|e]; [|by destruct H as [-> ->]]. cbn [map_err] in H.
  rewrite run_bind, run_throw_if in H. destruct (negb (is_regular n)); [by injection H as <- <-|]. cbv beta iota in H.
  rewrite run_bind, run_throw_if in H. destruct (_ <? _)%Z; [by injection H as <- <-|]. cbv beta iota in H.
  run_step H r2 fs2 H2. apply map_error_run in H2 as (r2' & (Hn2 & Hp2 & Hc)%read_spec & ->).
  destruct r2' as [c|e]; [|destruct H as [-> ->]; split; [congruence|split; [by trans fs1|done]]]. injection H as <- <-.
  split; [congruence|]. split; [by trans fs1|]. intros db [= <-]. destruct Hc as (key2 & node2 & Hk2 & Hnode2 & Hreg2).
  rewrite (resolve_same _ _ fs) in Hk2 by (done || apply Hp1). rewrite (resolve_follow _ _ key node) in Hk2; [|done|done|unfold is_link; by rewrite Hk].
  injection Hk2 as <-. cbn. congruence.
Qed.

(** The two databases as they are on disk. *)
Definition on_disk (fs : Fs) (key : list str) (content : str) : Prop := exists node, nodes fs !! key = Some node /\ kind node = Regular content.
(** Nothing but the databases is touched. *)
Definition others_kept (keys : list (list str)) (fs fs' : Fs) : Prop :=
  forall key node, key ∉ keys -> nodes fs !! key = Some node -> nodes fs' !! key = Some node.

Lemma on_disk_subseteq fs fs' key content : nodes fs ⊆ nodes fs' -> on_disk fs key content -> on_disk fs' key content.
Proof. intros Hs (node & Hn & Hk). exists node. split; [by eapply lookup_weaken|done]. Qed.

(** One conditional replacement. *)
Lemma replace_if_spec process_id path old new permissions sequence fs r fs' key :
  (if negb (new =s? old) then atomic_replace_account_database process_id path new permissions sequence else mret sequence) fs = Some (r, fs') ->
  resolve false path fs = Ok key -> on_disk fs key old ->
  same_place fs fs' /\ others_kept [key] fs fs' /\
  (exists content, on_disk fs' key content /\ (is_ok r = true -> content = new) /\ (content = old \/ content = new)) /\
  (is_ok r = true -> forall p, resolve false p fs' = resolve false p fs).
Proof.
  intros H Hkey Hold. destruct (new =s? old) eqn:E; cbn [negb] in H.
  { apply str_eqb_eq in E as ->. injection H as <- <-. split; [done|]. split; [by intros ????|]. split; [|done]. exists old. auto. }
  destruct Hold as (node & Hn & Hk). destruct (atomic_replace_spec _ _ _ _ _ _ _ _ _ H Hkey ltac:(by eexists)) as [Hp Hr].
  split; [done|]. destruct r as [s|e].
  - destruct Hr as (node' & Hn' & Hk' & _). split; [|split].
    + intros k n Hk2%not_elem_of_cons Hkn. rewrite Hn', lookup_insert_ne by naive_solver. done.
    + exists new. split; [|auto]. exists node'. by rewrite Hn', lookup_insert_eq.
    + intros _ p. apply (resolve_update _ _ fs fs' key node node'); try done; unfold is_regular; [by rewrite Hk|by rewrite Hk'].
  - split; [|split].
    + intros k n _ Hkn. by eapply lookup_weaken.
    + exists old. split; [|by split; [|left]]. exists node. split; [by eapply lookup_weaken|done].
    + discriminate 1.
Qed.

(** C30: the account databases are replaced whole or not at all.  Whatever call
    fails, each of the two files holds afterwards either what it held before or all
    of the new database, the passwd file the new one only after the group file does,
    and no other file has changed; a run without an error leaves both new. *)
Theorem account_files_atomic process_id passwd_path group_path account uid gid sequence fs r fs' pk gk passwd group :
  remap_account_files process_id passwd_path group_path account uid gid sequence fs = Some (r, fs') ->
  resolve false passwd_path fs = Ok pk -> resolve false group_path fs = Ok gk -> pk <> gk ->
  on_disk fs pk passwd -> on_disk fs gk group ->
  others_kept [pk; gk] fs fs' /\
  exists passwd' group', on_disk fs' pk passwd' /\ on_disk fs' gk group' /\
    (passwd' = passwd \/ rewrite_passwd passwd passwd_path account uid gid = Ok passwd' /\ rewrite_group group group_path account gid = Ok group') /\
    (group' = group \/ rewrite_group group group_path account gid = Ok group') /\
    (is_ok r = true -> rewrite_passwd passwd passwd_path account uid gid = Ok passwd' /\ rewrite_group group group_path account gid = Ok group').
Proof.
  unfold remap_account_files. intros H Hpk Hgk Hne Hp Hg.
  assert (Hstay : forall fs2, nodes fs2 = nodes fs -> is_ok r = false -> others_kept [pk; gk] fs fs2 /\
    exists passwd' group', on_disk fs2 pk passwd' /\ on_disk fs2 gk group' /\
    (passwd' = passwd \/ rewrite_passwd passwd passwd_path account uid gid = Ok passwd' /\ rewrite_group group group_path account gid = Ok group') /\
    (group' = group \/ rewrite_group group group_path account gid = Ok group') /\
    (is_ok r = true -> rewrite_passwd passwd passwd_path account uid gid = Ok passwd' /\ rewrite_group group group_path account gid = Ok group')).
  { intros fs2 Hn ->. split; [intros ????; by rewrite Hn|]. exists passwd, group. unfold on_disk. rewrite Hn.
    do 2 (split; [done|]). split; [by left|]. split; [by left|discriminate 1]. }
  assert (Hpg : pk ∉ [gk]) by by rewrite list_elem_of_singleton. assert (Hgp : gk ∉ [pk]) by by rewrite list_elem_of_singleton.
  pose proof Hp as (pn & Hpn & Hpc). pose proof Hg as (gn & Hgn & Hgc).
  rewrite run_bind, run_lift in H. destruct (validate_account_name account); [|injection H as <- <-; by apply Hstay]. cbv beta iota in H.
  run_step H r1 fs1 H1. eapply read_account_database_spec in H1 as (Hn1 & Hp1 & Hdb1); [|done..].
  destruct r1 as [pdb|e]; [|destruct H as [-> ->]; by apply Hstay]. specialize (Hdb1 _ eq_refl).
  run_step H r2 fs2 H2. eapply read_account_database_spec in H2 as (Hn2 & Hp2 & Hdb2);
    [|by rewrite (resolve_same _ _ fs) by (done || apply Hp1)|by rewrite Hn1|done]. rewrite Hn1 in Hn2.
  destruct r2 as [gdb|e]; [|destruct H as [-> ->]; by apply Hstay]. specialize (Hdb2 _ eq_refl). rewrite Hdb1, Hdb2 in H.
  rewrite run_bind, run_lift in H. destruct (rewrite_passwd passwd _ _ _ _) as [p'|e]; [|injection H as <- <-; by apply Hstay]. cbv beta iota in H.
  rewrite run_bind, run_lift in H. destruct (rewrite_group group _ _ _) as [g'|e]; [|injection H as <- <-; by apply Hstay]. cbv beta iota in H.
  assert (Hp02 : same_place fs fs2) by by trans fs1.
  assert (Hres : forall p, resolve false p fs2 = resolve false p fs) by (intros p; apply resolve_same; [done|apply Hp02]).
  run_step H r3 fs3 H3. apply (replace_if_spec _ _ _ _ _ _ _ _ _ gk) in H3 as (Hp3 & Hk3 & (c3 & Hc3 & Hok3 & Hor3) & Hres3); [|by rewrite Hres|unfold on_disk; by rewrite Hn2].
  assert (Hp3' : on_disk fs3 pk passwd) by (exists pn; split; [|done]; apply Hk3; [exact Hpg|by rewrite Hn2]).
  assert (Hkept : others_kept [pk; gk] fs fs3) by (intros k n [_ Hk]%not_elem_of_cons Hkn; apply Hk3; [done|by rewrite Hn2]).
  destruct r3 as [s3|e].
  2:{ destruct H as [-> ->]. split; [done|]. exists passwd, c3. split; [done|]. split; [done|]. split; [by left|]. split; [|discriminate 1].
      destruct Hor3 as [-> | ->]; [by left|by right]. }
  specialize (Hok3 eq_refl). subst c3.
  apply (replace_if_spec _ _ _ _ _ _ _ _ _ pk) in H as (Hp4 & Hk4 & (c4 & Hc4 & Hok4 & Hor4) & _); [|by rewrite Hres3, Hres|done].
  split; [intros k n Hk Hkn; apply Hk4; [|by apply Hkept]; rewrite list_elem_of_singleton; intros ->; apply Hk; by left|]. exists c4, g'. split; [done|]. split.
  { destruct Hc3 as (n & Hn & Hk). exists n. split; [|done]. by apply Hk4. }
  split; [destruct Hor4 as [-> | ->]; [by left|by right]|]. split; [by right|]. intros Hr. split; [|done]. by rewrite Hok4.
Qed.

(** A file system with the two databases, whose last call fails. *)
Definition key_of (names : list string) : list str := strs names.
Definition plain_dir : Node := mkNode Dir 0x1ed (0, 0)%Z 1.
Definition plain_file (content : str) : Node := mkNode (Regular content) 0x1a4 (0, 0)%Z 1.
Definition sample_group : str := database ["root:x:0:"; "dev:x:1000:"].
Definition sample_tree : gmap (list str) Node := list_to_map
  [([], plain_dir); (key_of ["etc"], plain_dir); (key_of ["etc"; "passwd"], plain_file sample_passwd);
   (key_of ["etc"; "group"], plain_file sample_group)]%string.
Definition failing_disk : Fs := mkFs sample_tree [] 0x12 (0, 0)%Z (replicate 13 None ++ [Some (OtherError "I/O error")]).
Lemma account_files_atomic_witness :
  exists r fs', remap_account_files 7 PASSWD_PATH GROUP_PATH "dev" 501 20 0 failing_disk = Some (r, fs') /\ is_ok r = false /\
    on_disk fs' (key_of ["etc"; "passwd"]%string) sample_passwd /\
    on_disk fs' (key_of ["etc"; "group"]%string) (database ["root:x:0:"; "dev:x:20:"]) /\
    others_kept [key_of ["etc"; "passwd"]%string; key_of ["etc"; "group"]%string] failing_disk fs'.
Proof.
  destruct (remap_account_files 7 PASSWD_PATH GROUP_PATH "dev" 501 20 0 failing_disk) as [[r fs']|] eqn:E; [|by vm_compute in E].
  exists r, fs'. split; [done|].
  destruct (account_files_atomic _ _ _ _ _ _ _ _ _ _ (key_of ["etc"; "passwd"]%string) (key_of ["etc"; "group"]%string) sample_passwd sample_group E)
    as (Hkept & _).
  1, 2: vm_compute; reflexivity.
  1: by vm_compute.
  1, 2: eexists; split; vm_compute; reflexivity.
  vm_compute in E. injection E as <- <-. split; [reflexivity|]. split; [|split; [|exact Hkept]].
  all: eexists; split; vm_compute; reflexivity.
Defined.

(** ** The calls end *)

Lemma atomic_replace_ends process_id path bytes permissions sequence :
  ends (atomic_replace_account_database process_id path bytes permissions sequence).
Proof.
  assert (Ha : forall attempts parent name seq, ends (allocate_temporary process_id attempts parent name path seq)).
  { induction attempts as [|attempts IH]; intros parent name seq; cbn [allocate_temporary]; solve_ends; apply IH. }
  unfold atomic_replace_account_database, create_account_temporary, account_io. solve_ends; apply Ha.
Qed.
Lemma remap_account_ends process_id account uid gid sequence : ends (remap_account process_id account uid gid sequence).
Proof.
  assert (Hread : forall path, ends (read_account_database path)) by (intros path; unfold read_account_database, account_io; solve_ends).
  unfold remap_account, remap_account_files. repeat (ends_step || apply Hread || apply atomic_replace_ends).
Qed.
End Accounts.
