(* ===== verification/Ownership.v ===== *)
(** * Writable roots of a container ([prepare_ownership] of [container_init.rs])

    The bounded walk that gives the workload's directories to its user: no links
    are followed, no other file system is entered, and the work is limited. *)

From S2P Require Export InitSpec.

Module Ownership.
Import FileSystem InitSpec.

Notation M := (ST Fs InitError) (only parsing).

Definition MAX_OWNERSHIP_ENTRIES : Z := 100000.
Definition MAX_OWNERSHIP_DEPTH : Z := 64.

Record OwnershipReport := mkOwnershipReport { changed : Z; skipped_symlinks : Z; skipped_filesystems : Z }.
Definition total (self : OwnershipReport) : Z := (changed self + skipped_symlinks self + skipped_filesystems self)%Z.
Definition no_entries : OwnershipReport := mkOwnershipReport 0 0 0.

Definition ownership_io {A} (path : str) (m : ST Fs IoError A) : M A := map_error (OwnershipIo path) m.

(** The directories on the way to a root are made where they are missing;
    [current] is the path so far. *)
Fixpoint create_components (current : str) (path : list component) : M unit :=
  match path with
  | [] => mret tt
  | Normal component :: path =>
      let current := path_join current component in
      found ← tried (symlink_metadata current);
      match found with
      | Ok metadata =>
          if is_dir metadata && negb (is_link metadata) then mret tt
          else throw (InvalidOwnershipPath (display current ++ " is not a real directory"))
      | Err NotFound => ownership_io current (create_dir current)
      | Err source => throw (OwnershipIo current source)
      end ;;
      create_components current path
  | _ :: path => create_components current path
  end.
Definition create_ownership_root (root : str) : M unit := create_components "/" (components root).

Section prepare.
Context `{DirectoryOrder} (uid gid : Z).

(** Each entry of a directory may fail to be read. *)
Fixpoint push_entries (path root : str) (depth : Z) (names : list str) (pending : list (str * Z)) : M (list (str * Z)) :=
  match names with
  | [] => mret pending
  | name :: names =>
      ownership_io path may_fault ;;
      let child := path_join path name in
      throw_if (negb (path_starts_with root child)) (InvalidOwnershipPath (display child)) ;;
      push_entries path root depth names ((child, (depth + 1)%Z) :: pending)
  end.

(** One turn of the loop; [pending] is a stack, its top first. *)
Definition visit (root : str) (root_device : Z) (path : str) (depth : Z) (pending : list (str * Z)) (report : OwnershipReport)
    : M (list (str * Z) * OwnershipReport) :=
  throw_if (MAX_OWNERSHIP_ENTRIES <=? total report)%Z (OwnershipLimit MAX_OWNERSHIP_ENTRIES) ;;
  throw_if (MAX_OWNERSHIP_DEPTH <? depth)%Z (OwnershipDepth path MAX_OWNERSHIP_DEPTH) ;;
  metadata ← ownership_io path (symlink_metadata path);
  if is_link metadata then
    mret (pending, mkOwnershipReport (changed report) (skipped_symlinks report + 1) (skipped_filesystems report))
  else if negb (device metadata =? root_device)%Z then
    mret (pending, mkOwnershipReport (changed report) (skipped_symlinks report) (skipped_filesystems report + 1))
  else
    pending ← (if is_dir metadata then
                 names ← ownership_io path (read_dir path);
                 push_entries path root depth names pending
               else mret pending);
    ownership_io path (lchown path (uid, gid)) ;;
    mret (pending, mkOwnershipReport (changed report + 1) (skipped_symlinks report) (skipped_filesystems report)).

Fixpoint traverse (fuel : nat) (root : str) (root_device : Z) (pending : list (str * Z)) (report : OwnershipReport) : M OwnershipReport :=
  match pending with
  | [] => mret report
  | (path, depth) :: pending =>
      match fuel with
      | O => diverge
      | S fuel =>
          '(pending, report) ← visit root root_device path depth pending report;
          traverse fuel root root_device pending report
      end
  end.

(** Every turn counts one entry, up to the limit. *)
Definition turns (report : OwnershipReport) : nat := S (Z.to_nat (MAX_OWNERSHIP_ENTRIES - total report)).

Definition prepare_root (root : str) (report : OwnershipReport) : M OwnershipReport :=
  metadata ← ownership_io root (symlink_metadata root);
  throw_if (negb (is_dir metadata) || is_link metadata) (InvalidOwnershipPath (display root ++ " is not a real directory")) ;;
  traverse (turns report) root (device metadata) [(root, 0%Z)] report.

Fixpoint prepare_roots (paths : list str) (report : OwnershipReport) : M OwnershipReport :=
  match paths with
  | [] => mret report
  | root :: paths => report ← prepare_root root report; prepare_roots paths report
  end.

Fixpoint create_roots (paths : list str) : M unit :=
  match paths with
  | [] => mret tt
  | root :: paths => create_ownership_root root ;; create_roots paths
  end.

Definition prepare_ownership (paths : list str) : M OwnershipReport :=
  lift (validate_ownership_paths paths) ;;
  create_roots paths ;;
  prepare_roots paths no_entries.
End prepare.

(** ** Roots *)

(** The names of a path without dots. *)
Definition root_key (path : str) : list str := omap (fun c => match c with Normal name => Some name | _ => None end) (components path).

Lemma safe_root_key path : unsafe_root path = false -> path_of path (root_key path) /\ Forall is_name (root_key path) /\ root_key path <> [].
Proof.
  unfold unsafe_root. intros H. apply orb_false_iff in H as [H _]. apply orb_false_iff in H as [H Hsame].
  apply orb_false_iff in H as [Habs Hdots]. bool_split. destruct (components_absolute path) as (cs & Ec & Hcs); [done|].
  unfold path_of, root_key, same_path in *. rewrite Ec in *. cbn [existsb is_dot orb] in *. cbn [omap list_omap].
  assert (Hnames : map Normal (omap (fun c => match c with Normal name => Some name | _ => None end) cs) = cs /\
    Forall is_name (omap (fun c => match c with Normal name => Some name | _ => None end) cs)).
  { clear Ec Hsame. induction Hcs as [|c cs Hc Hcs IH]; [done|]. cbn [existsb] in Hdots. apply orb_false_iff in Hdots as [Hdot Hdots].
    destruct (IH Hdots) as [E F]. destruct c as [| | |name]; try done. cbn [omap list_omap map]. rewrite E. split; [done|by constructor]. }
  destruct Hnames as [E F]. rewrite E. split; [done|]. split; [done|]. intros Hnil. rewrite Hnil in E. cbn in E. subst cs. by bool_split.
Qed.

(** What making the roots adds: directories on the way to them. *)
Definition grown (roots : list (list str)) (tree tree' : gmap (list str) Node) : Prop :=
  tree ⊆ tree' /\
  forall key n, tree !! key = None -> tree' !! key = Some n -> is_dir n = true /\ exists root, root ∈ roots /\ key `prefix_of` root.
Lemma grown_refl roots tree : grown roots tree tree.
Proof. split; [done|]. intros key n Hn Hs. congruence. Qed.
Lemma grown_trans roots tree1 tree2 tree3 : grown roots tree1 tree2 -> grown roots tree2 tree3 -> grown roots tree1 tree3.
Proof.
  intros [Hs1 Hn1] [Hs2 Hn2]. split; [by trans tree2|]. intros key n H1 H3. destruct (tree2 !! key) as [n2|] eqn:H2; [|by apply Hn2].
  rewrite (lookup_weaken _ _ _ _ H2 Hs2) in H3. injection H3 as <-. by apply Hn1.
Qed.
Lemma grown_more roots roots' tree tree' : (forall root, root ∈ roots -> root ∈ roots') -> grown roots tree tree' -> grown roots' tree tree'.
Proof. intros Hin [Hs Hn]. split; [done|]. intros key n H1 H2. destruct (Hn _ _ H1 H2) as (Hd & root & Hr & Hp). eauto 10. Qed.
Lemma grown_insert key root tree node : tree !! key = None -> is_dir node = true -> key `prefix_of` root -> grown [root] tree (<[key := node]> tree).
Proof.
  intros Hnone Hd Hp. split; [by apply insert_subseteq|]. intros k n Hk Hn.
  destruct (decide (key = k)) as [<-|Hne]; [|by rewrite lookup_insert_ne, Hk in Hn].
  rewrite lookup_insert_eq in Hn. injection Hn as <-. split; [done|]. exists root. split; [by left|done].
Qed.

Definition directory_at (tree : gmap (list str) Node) (key : list str) : Prop := exists n, tree !! key = Some n /\ is_dir n = true.
Lemma directory_below tree key name : tree_ok tree -> directory_at tree key -> dirs_above tree (key ++ [name]).
Proof.
  intros Ht (n & Hn & Hd) above nm below E. destruct below as [|b below _] using rev_ind.
  - apply app_inj_tail in E as [<- _]. by exists n.
  - change (above ++ nm :: below ++ [b]) with (above ++ (nm :: below) ++ [b]) in E. rewrite app_assoc in E.
    apply app_inj_tail in E as [E _]. apply (tree_above _ _ Ht (mk_is_Some _ _ Hn) above nm below E).
Qed.

Lemma create_components_spec current key names fs r fs' : create_components current (map Normal names) fs = Some (r, fs') ->
  path_of current key -> tree_ok (nodes fs) -> directory_at (nodes fs) key -> Forall is_name names ->
  tree_ok (nodes fs') /\ same_place fs fs' /\ grown [key ++ names] (nodes fs) (nodes fs') /\
  (r = Ok tt -> directory_at (nodes fs') (key ++ names)).
Proof.
  revert current key fs. induction names as [|name names IH]; intros current key fs H Hpath Htree Hdir Hnames; cbn [map create_components] in H.
  { injection H as <- <-. rewrite app_nil_r. split; [done|]. split; [done|]. split; [apply grown_refl|done]. }
  apply Forall_cons in Hnames as [Hname Hnames]. destruct (path_of_join _ _ _ Hpath Hname) as [Hpath' Hslash].
  set (current' := path_join current name) in *. set (key' := key ++ [name]) in *.
  assert (Hres : forall fs1, nodes fs1 = nodes fs -> same_place fs fs1 -> resolve false current' fs1 = Ok key').
  { intros fs1 Hn [Hw _]. rewrite (resolve_same _ _ fs) by done. apply resolve_real; [done|by apply directory_below|left; by rewrite Hslash]. }
  assert (Ekey : key ++ name :: names = key' ++ names) by (unfold key'; by rewrite <- app_assoc). rewrite Ekey.
  assert (Hpre : key' `prefix_of` key' ++ names) by by apply prefix_app_r.
  run_step H r1 fs1 H1. apply tried_run in H1 as (found & (Hn1 & Hp1 & Hfound)%symlink_metadata_spec & ->).
  run_step H r2 fs2 H2.
  assert (Hstep : tree_ok (nodes fs2) /\ same_place fs fs2 /\ grown [key' ++ names] (nodes fs) (nodes fs2) /\ (r2 = Ok tt -> directory_at (nodes fs2) key')).
  { assert (Hstop : nodes fs2 = nodes fs -> same_place fs fs2 -> r2 <> Ok tt -> tree_ok (nodes fs2) /\ same_place fs fs2 /\
      grown [key' ++ names] (nodes fs) (nodes fs2) /\ (r2 = Ok tt -> directory_at (nodes fs2) key')).
    { intros -> Hp Hr. split; [done|]. split; [done|]. split; [apply grown_refl|done]. }
    destruct found as [metadata|[| |text]].
    - destruct (is_dir metadata && negb (is_link metadata)) eqn:Ed; injection H2 as <- <-; [|by apply Hstop].
      bool_split. destruct Hfound as (k & Hk & Hm). rewrite Hres in Hk by done. injection Hk as <-. rewrite Hn1.
      split; [done|]. split; [done|]. split; [apply grown_refl|]. intros _. by exists metadata.
    - apply map_error_run in H2 as (r3 & H2 & ->). unfold create_dir in H2. run_step H2 r4 fs4 H4. apply create_new_spec in H4 as [Hp4 H4].
      destruct r4 as [k|e]; [|destruct H2 as [-> ->]; apply Hstop; [congruence|by trans fs1|done]].
      injection H2 as <- <-. destruct H4 as (Hk & Hnone & node & Hn4 & Hkind & _). rewrite Hres in Hk by done. injection Hk as <-.
      rewrite Hn1 in Hnone, Hn4. assert (Hd : is_dir node = true) by (unfold is_dir; by rewrite Hkind). rewrite Hn4.
      split; [by apply tree_ok_insert|]. split; [by trans fs1|]. split; [by apply grown_insert|]. intros _. exists node. by rewrite lookup_insert_eq.
    - injection H2 as <- <-. by apply Hstop.
    - injection H2 as <- <-. by apply Hstop. }
  destruct Hstep as (Ht2 & Hp2 & Hg2 & Hd2). destruct r2 as [[]|e]; [|by destruct H as [-> ->]].
  destruct (IH _ _ _ H Hpath' Ht2 (Hd2 eq_refl) Hnames) as (Ht3 & Hp3 & Hg3 & Hd3).
  split; [done|]. split; [by trans fs2|]. split; [by eapply grown_trans|done].
Qed.

#[local] Instance Normal_inj : Inj (=) (=) Normal.
Proof. by intros ? ? [=]. Qed.
Lemma path_of_unique path key key' : path_of path key -> path_of path key' -> key = key'.
Proof. intros [_ E] [_ E']. rewrite E in E'. injection E' as E'. by apply (inj (fmap Normal)) in E'. Qed.

(** ** The walk *)

Section walk.
Context {O : DirectoryOrder} {L : DirectoryOrderLaw O} (uid gid : Z) (root : list str) (dev : Z).
Notation ids := (uid, gid).

(** What a change of owners leaves alone. *)
Definition shape (n : Node) : Kind * Z := (kind n, device n).
Definition same_shape (tree tree' : gmap (list str) Node) : Prop := forall key, shape <$> tree !! key = shape <$> tree' !! key.
Lemma same_shape_Some tree tree' key n : same_shape tree tree' -> tree !! key = Some n ->
  exists n', tree' !! key = Some n' /\ kind n' = kind n /\ device n' = device n.
Proof.
  intros Hs Hn. specialize (Hs key). rewrite Hn in Hs. destruct (tree' !! key) as [n'|]; [|done]. injection Hs as Hk Hd. by exists n'.
Qed.
Lemma same_shape_sym tree tree' : same_shape tree tree' -> same_shape tree' tree.
Proof. intros Hs key. by rewrite Hs. Qed.

(** Below the root, without a link or another file system on the way. *)
Definition inside (tree : gmap (list str) Node) (key : list str) : Prop :=
  exists n, tree !! key = Some n /\ is_link n = false /\ device n = dev.
Definition covered (tree : gmap (list str) Node) (key : list str) : Prop :=
  root `prefix_of` key /\ forall above, root `prefix_of` above -> above `prefix_of` key -> inside tree above.

(** [tree'] differs from [tree] in the owners of some nodes with [P]. *)
Definition chowned (P : list str -> Prop) (tree tree' : gmap (list str) Node) : Prop :=
  forall key, tree' !! key = tree !! key \/ (P key /\ tree' !! key = set_owner ids <$> tree !! key).
Definition owned (tree : gmap (list str) Node) (key : list str) : Prop := exists n, tree !! key = Some n /\ owner n = ids.

Lemma chowned_refl P tree : chowned P tree tree.
Proof. intros key. by left. Qed.
Lemma chowned_trans P tree1 tree2 tree3 : chowned P tree1 tree2 -> chowned P tree2 tree3 -> chowned P tree1 tree3.
Proof.
  intros H12 H23 key. destruct (H12 key) as [E12|[HP E12]], (H23 key) as [E23|[HP' E23]]; rewrite E23, E12; auto.
  right. split; [done|]. by destruct (tree1 !! key).
Qed.
Lemma chowned_mono (P Q : list str -> Prop) tree tree' : (forall key, P key -> Q key) -> chowned P tree tree' -> chowned Q tree tree'.
Proof. intros HPQ Hc key. destruct (Hc key) as [?|[? ?]]; auto. Qed.
Lemma chowned_shape P tree tree' : chowned P tree tree' -> same_shape tree tree'.
Proof. intros Hc key. destruct (Hc key) as [-> |[_ ->]]; [done|]. by destruct (tree !! key). Qed.
Lemma chowned_owned P tree tree' key : chowned P tree tree' -> owned tree key -> owned tree' key.
Proof.
  intros Hc (n & Hn & Ho). destruct (Hc key) as [E|[_ E]]; unfold owned; rewrite E, Hn; eexists; (split; [reflexivity|done]).
Qed.
Lemma chowned_one (P : list str -> Prop) tree key : P key -> chowned P tree (alter (set_owner ids) key tree).
Proof.
  intros HP k. destruct (decide (key = k)) as [<-|Hne]; [right; by rewrite lookup_alter_eq|left; by rewrite lookup_alter_ne].
Qed.

Lemma inside_shape tree tree' key : same_shape tree tree' -> inside tree key -> inside tree' key.
Proof.
  intros Hs (n & Hn & Hl & Hd). destruct (same_shape_Some _ _ _ _ Hs Hn) as (n' & Hn' & Hk & Hd'). exists n'. split; [done|].
  unfold is_link in *. by rewrite Hk, Hd'.
Qed.
Lemma covered_shape tree tree' key : same_shape tree tree' -> covered tree key -> covered tree' key.
Proof. intros Hs [Hr Hc]. split; [done|]. intros above H1 H2. eapply inside_shape; [done|by apply Hc]. Qed.
Lemma directory_shape tree tree' key : same_shape tree tree' -> directory_at tree key -> directory_at tree' key.
Proof.
  intros Hs (n & Hn & Hd). destruct (same_shape_Some _ _ _ _ Hs Hn) as (n' & Hn' & Hk & _). exists n'. split; [done|].
  unfold is_dir in *. by rewrite Hk.
Qed.
Lemma tree_ok_shape tree tree' : same_shape tree tree' -> tree_ok tree -> tree_ok tree'.
Proof.
  intros Hs [Hroot Hparent Hnames]. assert (Hback : forall key, is_Some (tree' !! key) -> is_Some (tree !! key)).
  { intros key [n Hn]. destruct (same_shape_Some _ _ _ _ (same_shape_sym _ _ Hs) Hn) as (n' & -> & _). by eexists. }
  split; [by apply (directory_shape tree)|intros key name Hk; apply (directory_shape tree); [done|]; eapply Hparent; by apply Hback|].
  intros key Hk. by apply Hnames, Hback.
Qed.

(** An entry of the stack: a node below the root whose directories are inside. *)
Record waiting (tree : gmap (list str) Node) (path : str) (key : list str) : Prop := {
  waiting_path : path_of path key;
  waiting_plain : ends_with "/" path = false \/ directory_at tree key;
  waiting_below : root `prefix_of` key;
  waiting_there : is_Some (tree !! key);
  waiting_above above : root `prefix_of` above -> above `prefix_of` key -> above <> key -> inside tree above }.
Definition all_waiting (tree : gmap (list str) Node) (pending : list (str * Z)) : Prop :=
  Forall (fun entry => exists key, waiting tree entry.1 key) pending.
Lemma waiting_shape tree tree' path key : same_shape tree tree' -> waiting tree path key -> waiting tree' path key.
Proof.
  intros Hs [Hp Hpl Hb [n Hn] Ha]. split; [done| |done| |].
  - destruct Hpl as [?|?]; [by left|right; by eapply directory_shape].
  - destruct (same_shape_Some _ _ _ _ Hs Hn) as (n' & -> & _). by eexists.
  - intros above H1 H2 H3. eapply inside_shape; [done|by apply Ha].
Qed.
Lemma all_waiting_shape tree tree' pending : same_shape tree tree' -> all_waiting tree pending -> all_waiting tree' pending.
Proof. intros Hs H. eapply Forall_impl; [exact H|]. intros entry (key & Hk). exists key. by eapply waiting_shape. Qed.

Lemma waiting_resolve tree path key fs : tree = nodes fs -> tree_ok tree -> waiting tree path key -> resolve false path fs = Ok key.
Proof.
  intros -> Ht [Hp Hpl _ Hs _]. apply resolve_real; [done|by apply tree_above|]. destruct Hpl as [Hpl|(n & Hn & Hd)]; [by left|right].
  intros n' Hn'. rewrite Hn in Hn'. injection Hn' as <-. unfold is_dir, is_link in *. by destruct (kind n).
Qed.
Lemma waiting_covered tree path key : waiting tree path key -> inside tree key -> covered tree key.
Proof.
  intros [_ _ Hb _ Ha] Hi. split; [done|]. intros above H1 H2. destruct (decide (above = key)) as [-> |Hne]; [done|by apply Ha].
Qed.

(** The entries of a directory wait once it has been entered. *)
Lemma waiting_child tree path key name : tree_ok tree -> waiting tree path key -> inside tree key -> is_Some (tree !! (key ++ [name])) ->
  waiting tree (path_join path name) (key ++ [name]).
Proof.
  intros Ht Hw Hi Hs. pose proof (waiting_covered _ _ _ Hw Hi) as [Hb Hc].
  assert (Hn : is_name name) by (apply (tree_names _ Ht) in Hs; apply Forall_app in Hs as [_ Hs]; by apply Forall_cons in Hs as [? _]).
  destruct (path_of_join path key name (waiting_path _ _ _ Hw) Hn) as [Hp Hsl].
  split; [done|by left|by apply prefix_app_r|done|]. intros above H1 H2 H3. apply Hc; [done|].
  destruct H2 as [[|x rest] E]; [rewrite app_nil_r in E; by subst|]. destruct (x :: rest) as [|y l _] eqn:Er using rev_ind; [done|].
  rewrite app_assoc in E. apply app_inj_tail in E as [-> _]. by apply prefix_app_r.
Qed.

Lemma push_entries_spec path r depth names pending fs out fs' : push_entries path r depth names pending fs = Some (out, fs') ->
  nodes fs' = nodes fs /\ same_place fs fs' /\
  (forall pending', out = Ok pending' -> pending' = reverse (map (fun name => (path_join path name, (depth + 1)%Z)) names) ++ pending).
Proof.
  revert pending fs. induction names as [|name names IH]; intros pending fs Hrun; cbn [push_entries] in Hrun.
  { injection Hrun as <- <-. split; [done|]. split; [done|]. by intros ? [= <-]. }
  run_step Hrun r1 fs1 H1. apply map_error_run in H1 as (r1' & [Hn1 Hp1]%may_fault_spec & ->).
  destruct r1' as [[]|e]; [|by destruct Hrun as [-> ->]]. cbn [map_err] in Hrun. rewrite run_bind, run_throw_if in Hrun.
  destruct (negb _); [by injection Hrun as <- <-|]. cbv beta iota in Hrun. destruct (IH _ _ Hrun) as (Hn & Hp & Hout).
  split; [congruence|]. split; [by trans fs1|]. intros pending' E. rewrite (Hout _ E). cbn [map]. by rewrite reverse_cons, <- app_assoc.
Qed.

(** Every node below the entries that is not yet its user's waits to become it. *)
Definition accounted (tree : gmap (list str) Node) (pending : list (str * Z)) (key : list str) : Prop :=
  exists path depth above, (path, depth) ∈ pending /\ waiting tree path above /\ above `prefix_of` key.
Lemma accounted_shape tree tree' pending key : same_shape tree tree' -> accounted tree pending key -> accounted tree' pending key.
Proof. intros Hs (p & d & a & Hin & Hw & Hp). exists p, d, a. split; [done|]. split; [by eapply waiting_shape|done]. Qed.

Lemma prefix_snoc {A} (a b : list A) : a `prefix_of` b -> a = b \/ exists x, (a ++ [x]) `prefix_of` b.
Proof.
  intros [[|x rest] ->]; [left; by rewrite app_nil_r|right]. exists x. exists rest. by rewrite <- app_assoc.
Qed.

(** Entering a directory pushes all of its entries; nothing else has any. *)
Lemma enter_spec r path depth pending metadata fs out fs' key :
  (if is_dir metadata then names ← ownership_io path (read_dir path); push_entries path r depth names pending else mret pending) fs = Some (out, fs') ->
  tree_ok (nodes fs) -> waiting (nodes fs) path key -> all_waiting (nodes fs) pending -> inside (nodes fs) key -> nodes fs !! key = Some metadata ->
  nodes fs' = nodes fs /\ same_place fs fs' /\ forall pending', out = Ok pending' ->
    (forall entry, entry ∈ pending -> entry ∈ pending') /\ all_waiting (nodes fs) pending' /\
    (forall name, is_Some (nodes fs !! (key ++ [name])) -> (path_join path name, (depth + 1)%Z) ∈ pending').
Proof.
  intros Hrun Ht Hw Hall Hin Hmeta. destruct (is_dir metadata) eqn:Ed.
  2:{ injection Hrun as <- <-. split; [done|]. split; [done|]. intros pending' [= <-]. split; [done|]. split; [done|].
      intros name Hs. destruct (tree_parent _ Ht _ _ Hs) as (n & Hn & Hd). congruence. }
  run_step Hrun r1 fs1 H1. apply map_error_run in H1 as (r1' & (Hn1 & Hp1 & Hr1)%read_dir_spec & ->).
  destruct r1' as [names|e]; [|by destruct Hrun as [-> ->]]. destruct Hr1 as (k & n & Hk & _ & _ & ->).
  assert (Hkey : resolve true path fs = Ok key).
  { apply resolve_real; [apply Hw|apply tree_above; [done|by eexists]|right]. intros n' Hn'. destruct Hin as (n2 & Hn2 & Hl & _). congruence. }
  rewrite Hkey in Hk. injection Hk as <-. apply push_entries_spec in Hrun as (Hn2 & Hp2 & Hout).
  split; [congruence|]. split; [by trans fs1|]. intros pending' E. rewrite (Hout _ E). clear Hout E.
  assert (Hnames : forall name, name ∈ directory_order key (children (nodes fs) key) <-> is_Some (nodes fs !! (key ++ [name]))).
  { intros name. rewrite (directory_order_permutes key). apply children_spec. }
  split; [intros entry He; apply elem_of_app; by right|]. split.
  - apply Forall_app. split; [|done]. apply Forall_reverse, Forall_fmap, Forall_forall. intros name Hs%Hnames. exists (key ++ [name]).
    by apply waiting_child.
  - intros name Hs. apply elem_of_app. left. rewrite elem_of_reverse. apply list_elem_of_fmap. exists name. split; [done|]. by apply Hnames.
Qed.

Lemma visit_spec r path depth pending report fs out fs' key :
  visit uid gid r dev path depth pending report fs = Some (out, fs') ->
  tree_ok (nodes fs) -> waiting (nodes fs) path key -> all_waiting (nodes fs) pending ->
  same_place fs fs' /\ chowned (covered (nodes fs)) (nodes fs) (nodes fs') /\
  match out with
  | Ok (pending', report') =>
      total report' = (total report + 1)%Z /\ (total report < MAX_OWNERSHIP_ENTRIES)%Z /\ all_waiting (nodes fs) pending' /\
      (forall k, accounted (nodes fs) pending k -> accounted (nodes fs) pending' k) /\
      (forall k, key `prefix_of` k -> covered (nodes fs) k -> owned (nodes fs') k \/ accounted (nodes fs) pending' k)
  | Err _ => True
  end.
Proof.
  intros Hrun Ht Hw Hall. unfold visit in Hrun. rewrite run_bind, run_throw_if in Hrun.
  destruct (_ <=? _)%Z eqn:El; [injection Hrun as <- <-; split; [done|split; [apply chowned_refl|done]]|]. bool_split. cbv beta iota in Hrun.
  rewrite run_bind, run_throw_if in Hrun. destruct (_ <? _)%Z; [injection Hrun as <- <-; split; [done|split; [apply chowned_refl|done]]|].
  cbv beta iota in Hrun. run_step Hrun r1 fs1 H1. apply map_error_run in H1 as (r1' & (Hn1 & Hp1 & Hm)%symlink_metadata_spec & ->).
  assert (Hsame1 : chowned (covered (nodes fs)) (nodes fs) (nodes fs1)) by (rewrite Hn1; apply chowned_refl).
  destruct r1' as [metadata|e]; [|by destruct Hrun as [-> ->]]. destruct Hm as (k & Hk & Hmeta).
  rewrite (waiting_resolve (nodes fs) path key) in Hk by done. injection Hk as <-. cbn [map_err] in Hrun.
  assert (Hskip : forall k, key `prefix_of` k -> covered (nodes fs) k -> inside (nodes fs) key).
  { intros k Hkk [Hrk Hc]. apply Hc; [apply Hw|done]. }
  assert (Htotal : forall a b c, total (mkOwnershipReport a b c) = (a + b + c)%Z) by done.
  destruct (is_link metadata) eqn:Elink.
  { injection Hrun as <- <-. split; [done|]. split; [done|]. rewrite Htotal. split; [unfold total; lia|]. split; [done|]. split; [done|]. split; [done|].
    intros k Hkk Hc. destruct (Hskip _ Hkk Hc) as (n & Hn & Hl & _). congruence. }
  destruct (negb (device metadata =? dev)%Z) eqn:Edev.
  { injection Hrun as <- <-. split; [done|]. split; [done|]. rewrite Htotal. split; [unfold total; lia|]. split; [done|]. split; [done|]. split; [done|].
    intros k Hkk Hc. destruct (Hskip _ Hkk Hc) as (n & Hn & _ & Hd). bool_split. congruence. }
  bool_split. assert (Hin : inside (nodes fs) key) by by exists metadata. pose proof (waiting_covered _ _ _ Hw Hin) as Hcov.
  run_step Hrun r2 fs2 H2.
  apply (enter_spec _ _ _ _ _ _ _ _ key) in H2 as (Hn2 & Hp2 & Hpend); rewrite ?Hn1; try done. rewrite Hn1 in Hn2, Hpend.
  assert (Hp02 : same_place fs fs2) by by trans fs1. destruct r2 as [pending'|e].
  2:{ destruct Hrun as [-> ->]. split; [done|]. rewrite Hn2. split; [apply chowned_refl|done]. }
  destruct (Hpend _ eq_refl) as (Hkeep & Hall' & Hchild). run_step Hrun r3 fs3 H3.
  apply map_error_run in H3 as (r3' & [Hp3 H3]%lchown_spec & ->). assert (Hp03 : same_place fs fs3) by by trans fs2.
  destruct r3' as [[]|e]; cbn [map_err] in Hrun.
  2:{ destruct Hrun as [-> ->]. split; [done|]. rewrite H3, Hn2. split; [apply chowned_refl|done]. }
  injection Hrun as <- <-. destruct H3 as (k & Hk & H3). rewrite (resolve_same _ _ fs) in Hk by (done || apply Hp02).
  rewrite (waiting_resolve (nodes fs) path key) in Hk by done. injection Hk as <-. rewrite Hn2 in H3.
  split; [done|]. split; [rewrite H3; by apply chowned_one|]. rewrite Htotal. split; [unfold total; lia|]. split; [done|]. split; [done|].
  split; [intros k (p & d & a & Hin' & Hrest); exists p, d, a; split; [by apply Hkeep|done]|].
  intros k Hkk Hc. destruct (prefix_snoc _ _ Hkk) as [<-|[name Hname]].
  - left. exists (set_owner ids metadata). by rewrite H3, lookup_alter_eq, Hmeta.
  - right. assert (Hs : is_Some (nodes fs !! (key ++ [name]))).
    { destruct Hc as [_ Hc]. destruct (Hc (key ++ [name])) as (n & Hn & _); [|done|by eexists]. trans key; [apply Hw|by apply prefix_app_r]. }
    exists (path_join path name), (depth + 1)%Z, (key ++ [name]). split; [by apply Hchild|]. split; [by apply waiting_child|done].
Qed.

Lemma visit_ends r path depth pending report : ends (visit uid gid r dev path depth pending report).
Proof.
  assert (Hpush : forall names d pend, ends (push_entries path r d names pend)).
  { induction names as [|name names IH]; intros d pend; cbn [push_entries]; unfold ownership_io; solve_ends. }
  unfold visit, ownership_io. solve_ends.
Qed.

(** The walk ends, changes the owners of covered nodes only, and when it succeeds
    of all that were waiting. *)
Lemma traverse_spec r fuel pending report fs : (Z.to_nat (MAX_OWNERSHIP_ENTRIES - total report) < fuel)%nat ->
  tree_ok (nodes fs) -> all_waiting (nodes fs) pending ->
  exists out fs', traverse uid gid fuel r dev pending report fs = Some (out, fs') /\
    same_place fs fs' /\ chowned (covered (nodes fs)) (nodes fs) (nodes fs') /\
    (is_ok out = true -> forall key, accounted (nodes fs) pending key -> covered (nodes fs) key -> owned (nodes fs') key).
Proof.
  revert pending report fs. induction fuel as [|fuel IH]; intros pending report fs Hf Ht Hall; [lia|]. cbn [traverse].
  destruct pending as [|[path depth] pending].
  { eexists _, _. split; [reflexivity|]. split; [done|]. split; [apply chowned_refl|]. intros _ key (p & d & a & Hin & _). by apply not_elem_of_nil in Hin. }
  apply Forall_cons in Hall as [[key Hw] Hall]. rewrite run_bind.
  destruct (visit_ends r path depth pending report fs) as [[out fs1] Hv]. rewrite Hv.
  destruct (visit_spec _ _ _ _ _ _ _ _ key Hv Ht Hw Hall) as (Hp1 & Hc1 & Hout). destruct out as [[pending' report']|e].
  2:{ eexists _, _. split; [reflexivity|]. by split; [|split]. }
  destruct Hout as (Htot & Hlt & Hall' & Hkeep & Hsub). pose proof (chowned_shape _ _ _ Hc1) as Hshape.
  destruct (IH pending' report' fs1) as (out & fs2 & -> & Hp2 & Hc2 & Hdone); [lia|by eapply tree_ok_shape|by eapply all_waiting_shape|].
  eexists _, _. split; [reflexivity|]. split; [by trans fs1|]. split.
  { eapply chowned_trans; [done|]. eapply chowned_mono; [|done]. intros k. apply covered_shape, same_shape_sym, Hshape. }
  intros Hok k (p & d & a & Hin & Hwa & Hpa) Hc.
  assert (Hacc : accounted (nodes fs) pending' k -> owned (nodes fs2) k).
  { intros Hac. apply Hdone; [done|by eapply accounted_shape|by eapply covered_shape]. }
  apply elem_of_cons in Hin as [[= -> ->]|Hin].
  - assert (a = key) as -> by (eapply path_of_unique; by eapply waiting_path).
    destruct (Hsub _ Hpa Hc) as [Ho|Hac]; [by eapply chowned_owned|by apply Hacc].
  - apply Hacc, Hkeep. by exists p, d, a.
Qed.
End walk.

(** ** All roots *)

Section prepare_facts.
Context {O : DirectoryOrder} {L : DirectoryOrderLaw O} (uid gid : Z).
Notation ids := (uid, gid).

(** What the walk from a root is about: nodes below it that are reached through
    real directories of its own file system, and are no links. *)
Definition below (tree : gmap (list str) Node) (root key : list str) : Prop :=
  exists n, tree !! root = Some n /\ covered root (device n) tree key.
Lemma below_shape tree tree' root key : same_shape tree tree' -> below tree root key -> below tree' root key.
Proof.
  intros Hs (n & Hn & Hc). destruct (same_shape_Some _ _ _ _ Hs Hn) as (n' & Hn' & _ & Hd). exists n'. split; [done|].
  rewrite Hd. by eapply covered_shape.
Qed.

(** Every turn is counted, so the walk ends on any tree. *)
Lemma visit_counts r root_device path depth pending report fs pending' report' fs' :
  visit uid gid r root_device path depth pending report fs = Some (Ok (pending', report'), fs') ->
  (total report < MAX_OWNERSHIP_ENTRIES)%Z /\ total report' = (total report + 1)%Z.
Proof.
  unfold visit. rewrite run_bind, run_throw_if. destruct (Z.leb_spec MAX_OWNERSHIP_ENTRIES (total report)); [done|]. intros H'.
  split; [lia|]. revert H'. rewrite run_bind, run_throw_if. destruct (_ <? _)%Z; [done|]. intros H'. run_step H' r1 fs1 H1.
  destruct r1 as [node|e]; [|by destruct H']. destruct (is_link node); [injection H' as <- <- <-; unfold total; cbn; lia|].
  destruct (negb _); [injection H' as <- <- <-; unfold total; cbn; lia|]. run_step H' r2 fs2 H2. destruct r2 as [pend|e]; [|by destruct H'].
  run_step H' r3 fs3 H3. destruct r3 as [u|e]; [|by destruct H']. injection H' as <- <- <-. unfold total. cbn. lia.
Qed.
Lemma traverse_ends r root_device fuel pending report :
  (Z.to_nat (MAX_OWNERSHIP_ENTRIES - total report) < fuel)%nat -> ends (traverse uid gid fuel r root_device pending report).
Proof.
  revert pending report. induction fuel as [|fuel IH]; intros pending report Hf; [lia|]. intros fs. cbn [traverse].
  destruct pending as [|[path depth] pending]; [by eexists|]. rewrite run_bind.
  destruct (visit_ends uid gid root_device r path depth pending report fs) as [[out fs1] Hv]. rewrite Hv.
  destruct out as [[pending' report']|e]; [|by eexists]. apply visit_counts in Hv as [? ?]. apply IH. lia.
Qed.

Lemma below_root tree root : directory_at tree root -> below tree root root.
Proof.
  intros (n & Hn & Hd). exists n. split; [done|]. split; [done|]. intros above H1 H2.
  assert (above = root) as -> by (by apply (anti_symm prefix)). exists n. split; [done|]. split; [|done].
  unfold is_dir, is_link in *. by destruct (kind n).
Qed.

Lemma create_roots_spec paths fs r fs' : create_roots paths fs = Some (r, fs') -> tree_ok (nodes fs) ->
  Forall (fun path => unsafe_root path = false) paths ->
  tree_ok (nodes fs') /\ same_place fs fs' /\ grown (map root_key paths) (nodes fs) (nodes fs') /\
  (r = Ok tt -> Forall (fun path => directory_at (nodes fs') (root_key path)) paths).
Proof.
  intros H Ht Hs. revert fs H Ht. induction Hs as [|path paths Hsafe Hs IH]; intros fs H Ht; cbn [create_roots] in H.
  { injection H as <- <-. split; [done|]. split; [done|]. split; [apply grown_refl|done]. }
  destruct (safe_root_key _ Hsafe) as ([Ha Hc] & Hnames & _).
  run_step H r1 fs1 H1. unfold create_ownership_root in H1. rewrite Hc in H1. cbn [create_components] in H1.
  apply (create_components_spec "/" []) in H1 as (Ht1 & Hp1 & Hg1 & Hd1); [|apply root_path_of|done|apply (tree_root _ Ht)|done].
  cbn [app] in Hg1, Hd1. destruct r1 as [[]|e].
  2:{ destruct H as [-> ->]. split; [done|]. split; [done|]. split; [|done]. eapply grown_more; [|done]. intros root. cbn. set_solver. }
  destruct (IH _ H Ht1) as (Ht2 & Hp2 & Hg2 & Hd2). split; [done|]. split; [by trans fs1|]. split.
  - eapply grown_trans; (eapply grown_more; [|done]); cbn; set_solver.
  - intros Hr. constructor; [|by apply Hd2]. destruct (Hd1 eq_refl) as (n & Hn & Hdn). exists n. split; [|done].
    eapply lookup_weaken; [done|apply Hg2].
Qed.

Lemma create_roots_ends paths : ends (create_roots paths).
Proof.
  assert (Hc : forall path current, ends (create_components current path)).
  { induction path as [|c path IH]; intros current; cbn [create_components]; unfold ownership_io; [solve_ends|].
    destruct c; solve_ends; apply IH. }
  induction paths as [|path paths IH]; cbn [create_roots]; [solve_ends|]. unfold create_ownership_root. apply total_bind; [apply Hc|by intros []].
Qed.

Lemma prepare_ownership_ends paths : ends (prepare_ownership uid gid paths).
Proof.
  assert (Hr : forall ps report, ends (prepare_roots uid gid ps report)).
  { induction ps as [|p ps IH]; intros report; cbn [prepare_roots]; [solve_ends|]. apply total_bind; [|intros rep; apply IH].
    unfold prepare_root, ownership_io. solve_ends. apply traverse_ends. unfold turns. lia. }
  unfold prepare_ownership. apply total_bind; [solve_ends|intros _]. apply total_bind; [apply create_roots_ends|intros _]. apply Hr.
Qed.

Lemma prepare_root_spec path report fs : unsafe_root path = false -> tree_ok (nodes fs) -> directory_at (nodes fs) (root_key path) ->
  exists out fs', prepare_root uid gid path report fs = Some (out, fs') /\ same_place fs fs' /\
    chowned uid gid (below (nodes fs) (root_key path)) (nodes fs) (nodes fs') /\
    (is_ok out = true -> forall key, below (nodes fs) (root_key path) key -> owned uid gid (nodes fs') key).
Proof.
  intros Hsafe Ht Hd. destruct (safe_root_key _ Hsafe) as (Hpath & _). destruct Hd as (n & Hn & Hdn).
  assert (Hres : resolve false path fs = Ok (root_key path)).
  { apply resolve_real; [done|apply tree_above; [done|by eexists]|right]. intros n' Hn'. rewrite Hn in Hn'. injection Hn' as <-.
    unfold is_dir, is_link in *. by destruct (kind n). }
  unfold prepare_root. rewrite run_bind.
  assert (Hm : exists out fs1, ownership_io path (symlink_metadata path) fs = Some (out, fs1) /\ nodes fs1 = nodes fs /\ same_place fs fs1 /\
    (forall m, out = Ok m -> m = n)).
  { unfold ownership_io, map_error. destruct (symlink_metadata path fs) as [[out fs1]|] eqn:E.
    - apply symlink_metadata_spec in E as (Hn1 & Hp1 & Hout). eexists _, _. split; [reflexivity|]. split; [done|]. split; [done|].
      destruct out as [m|e]; [|done]. destruct Hout as (k & Hk & Hm). intros m' [= <-]. rewrite Hres in Hk. injection Hk as <-. congruence.
    - destruct (symlink_metadata_ends path fs) as [? ?]. congruence. }
  destruct Hm as (out & fs1 & -> & Hn1 & Hp1 & Hout). destruct out as [m|e].
  2:{ eexists _, _. split; [reflexivity|]. split; [done|]. rewrite Hn1. split; [apply chowned_refl|done]. }
  rewrite (Hout _ eq_refl), run_bind, run_throw_if. assert (Hl : is_link n = false) by (unfold is_dir, is_link in *; by destruct (kind n)).
  rewrite Hdn, Hl. cbn [negb orb].
  destruct (traverse_spec uid gid (root_key path) (device n) path (turns report) [(path, 0%Z)] report fs1)
    as (out2 & fs2 & -> & Hp2 & Hc2 & Hdone); [unfold turns; lia|by rewrite Hn1| |].
  { rewrite Hn1. constructor; [|constructor]. exists (root_key path). split; [done|right; by exists n|done|by eexists|].
    intros above H1 H2 Hne. destruct Hne. by apply (anti_symm prefix). }
  rewrite Hn1 in Hc2, Hdone. eexists _, _. split; [reflexivity|]. split; [by trans fs1|]. split.
  - eapply chowned_mono; [|done]. intros k Hk. by exists n.
  - intros Hok key (n' & Hn' & Hc). rewrite Hn in Hn'. injection Hn' as <-. apply Hdone; [done| |done].
    exists path, 0%Z, (root_key path). split; [by left|]. split; [|apply Hc].
    split; [done|right; by exists n|done|by eexists|]. intros above H1 H2 Hne. destruct Hne. by apply (anti_symm prefix).
Qed.

Definition below_any (tree : gmap (list str) Node) (paths : list str) (key : list str) : Prop :=
  exists path, path ∈ paths /\ below tree (root_key path) key.
Lemma prepare_roots_spec paths report fs : Forall (fun path => unsafe_root path = false) paths -> tree_ok (nodes fs) ->
  Forall (fun path => directory_at (nodes fs) (root_key path)) paths ->
  exists out fs', prepare_roots uid gid paths report fs = Some (out, fs') /\ same_place fs fs' /\
    chowned uid gid (below_any (nodes fs) paths) (nodes fs) (nodes fs') /\
    (is_ok out = true -> forall key, below_any (nodes fs) paths key -> owned uid gid (nodes fs') key).
Proof.
  intros Hs. revert report fs. induction Hs as [|path paths Hsafe Hs IH]; intros report fs Ht Hd; cbn [prepare_roots].
  { eexists _, _. split; [reflexivity|]. split; [done|]. split; [apply chowned_refl|]. intros _ key (p & Hin & _). by apply not_elem_of_nil in Hin. }
  apply Forall_cons in Hd as [Hdir Hd]. rewrite run_bind. destruct (prepare_root_spec path report fs Hsafe Ht Hdir) as (out & fs1 & -> & Hp1 & Hc1 & Hdone1).
  assert (Hc1' : chowned uid gid (below_any (nodes fs) (path :: paths)) (nodes fs) (nodes fs1)).
  { eapply chowned_mono; [|done]. intros k Hk. exists path. split; [by left|done]. }
  destruct out as [report1|e]; [|eexists _, _; split; [reflexivity|]; by split; [|split]]. cbv beta iota.
  pose proof (chowned_shape _ _ _ _ _ Hc1) as Hshape.
  destruct (IH report1 fs1) as (out2 & fs2 & -> & Hp2 & Hc2 & Hdone2).
  { by eapply tree_ok_shape. } { eapply Forall_impl; [done|]. intros p. by apply directory_shape. }
  eexists _, _. split; [reflexivity|]. split; [by trans fs1|]. split.
  - eapply chowned_trans; [done|]. eapply chowned_mono; [|done]. intros k (p & Hin & Hb). exists p. split; [by right|].
    eapply below_shape; [|done]. by apply same_shape_sym.
  - intros Hok key (p & [-> |Hin]%elem_of_cons & Hb).
    + eapply chowned_owned; [done|]. by apply Hdone1.
    + apply Hdone2; [done|]. exists p. split; [done|]. by eapply below_shape.
Qed.
End prepare_facts.

(** C28: preparing the writable roots touches nothing else.  On any well-formed tree,
    whatever fails on the way, it ends; it adds only missing directories on the way
    to the roots; it changes only owners, to the workload's ids, and only of nodes
    reached from a root through real directories of the root's own file system,
    never of a link or through one; and when it succeeds, all of those belong to
    the workload. *)
Theorem ownership_exact {O : DirectoryOrder} {L : DirectoryOrderLaw O} uid gid paths fs : tree_ok (nodes fs) ->
  exists out fs' tree, prepare_ownership uid gid paths fs = Some (out, fs') /\
    grown (map root_key paths) (nodes fs) tree /\
    chowned uid gid (below_any tree paths) tree (nodes fs') /\
    (is_ok out = true ->
       (forall path, path ∈ paths -> directory_at tree (root_key path)) /\
       (forall key, below_any tree paths key -> owned uid gid (nodes fs') key)).
Proof.
  intros Ht. unfold prepare_ownership. rewrite run_bind, run_lift. destruct (validate_ownership_paths paths) as [[]|e] eqn:Ev.
  2:{ eexists _, _, (nodes fs). split; [reflexivity|]. split; [apply grown_refl|]. split; [apply chowned_refl|done]. }
  assert (Hsafe : Forall (fun path => unsafe_root path = false) paths).
  { unfold validate_ownership_paths in Ev. apply err_if_bind_Ok in Ev as [_ Ev]. apply bind_unit_Ok in Ev as [Ev _].
    apply for_each_Ok in Ev. eapply Forall_impl; [done|]. intros path. apply err_if_Ok. }
  rewrite run_bind. destruct (create_roots_ends paths fs) as [[r1 fs1] E1]. rewrite E1.
  destruct (create_roots_spec _ _ _ _ E1 Ht Hsafe) as (Ht1 & Hp1 & Hg1 & Hd1). destruct r1 as [[]|e].
  2:{ eexists _, _, (nodes fs1). split; [reflexivity|]. split; [done|]. split; [apply chowned_refl|done]. }
  destruct (prepare_roots_spec uid gid paths no_entries fs1 Hsafe Ht1 (Hd1 eq_refl)) as (out & fs2 & -> & Hp2 & Hc2 & Hdone).
  eexists _, _, (nodes fs1). split; [reflexivity|]. split; [done|]. split; [done|]. intros Hok. split; [|by apply Hdone].
  specialize (Hd1 eq_refl). rewrite Forall_forall in Hd1. done.
Qed.

(** A run: the file and the directory below the root change hands, the link there
    does too little to be followed, and another file system is not entered. *)
Instance listed_order : DirectoryOrder := fun _ names => names.
Instance listed_order_law : DirectoryOrderLaw listed_order.
Proof. intros key names. reflexivity. Qed.

Definition key_of (names : list string) : list str := strs names.
Definition node_of (k : Kind) : Node := mkNode k 0x1ed (0, 0)%Z 1.
Definition sample_nodes : list (list str * Node) :=
  [([], node_of Dir); (key_of ["etc"], node_of Dir); (key_of ["etc"; "shadow"], node_of (Regular "x"));
   (key_of ["work"], node_of Dir); (key_of ["work"; "notes"], node_of (Regular "y"));
   (key_of ["work"; "out"], node_of (Symlink "/etc"));
   (key_of ["work"; "disk"], mkNode Dir 0x1ed (0, 0)%Z 2)]%string.
Definition sample_disk : Fs := mkFs (list_to_map sample_nodes) [] 0x12 (0, 0)%Z [].
Definition owner_of (fs : Fs) (names : list string) : option (Z * Z) := owner <$> nodes fs !! key_of names.

Definition name_ok (name : str) : bool := nonempty name && bool_decide (name <> "." /\ name <> ".." /\ "/"%char ∉ name).
Definition listed_ok (l : list (list str * Node)) : bool :=
  let tree := list_to_map l : gmap (list str) Node in
  match tree !! [] with Some n => is_dir n | None => false end &&
  forallb (fun kv => forallb name_ok kv.1 && match tree !! removelast kv.1 with Some n => is_dir n | None => false end) l.
Lemma name_ok_spec name : name_ok name = true -> is_name name.
Proof. unfold name_ok. intros [Hne Hb%bool_decide_eq_true]%andb_true_iff. split; [by destruct name|exact Hb]. Qed.
Lemma tree_ok_list l : listed_ok l = true -> tree_ok (list_to_map l).
Proof.
  unfold listed_ok. intros [Hroot Hall]%andb_true_iff. rewrite forallb_forall in Hall. split.
  - case_match eqn:E; [|done]. by eexists.
  - intros key name [n Hn]. apply elem_of_list_to_map_2, list_elem_of_In, Hall, andb_true_iff in Hn as [_ Hn]. cbn [fst] in Hn.
    rewrite removelast_last in Hn. case_match eqn:E; [|done]. by eexists.
  - intros key [n Hn]. apply elem_of_list_to_map_2, list_elem_of_In, Hall, andb_true_iff in Hn as [Hn _]. cbn [fst] in Hn.
    rewrite forallb_forall in Hn. apply Forall_forall. intros name Hin%list_elem_of_In%Hn. by apply name_ok_spec.
Qed.

Lemma ownership_exact_witness :
  exists fs', prepare_ownership 501 20 ["/work" : str] sample_disk = Some (Ok (mkOwnershipReport 2 1 1), fs') /\
    owned 501 20 (nodes fs') (key_of ["work"]%string) /\
    owner_of fs' ["work"; "notes"]%string = Some (501, 20)%Z /\
    map (owner_of fs') [["etc"]; ["etc"; "shadow"]; ["work"; "out"]; ["work"; "disk"]]%string = replicate 4 (Some (0, 0)%Z).
Proof.
  assert (Ht : tree_ok (nodes sample_disk)).
  { apply tree_ok_list. vm_compute. reflexivity. }
  destruct (ownership_exact 501 20 ["/work" : str] sample_disk Ht) as (out & fs' & tree & Hrun & (Hsub & _) & _ & Hdone).
  pose proof Hrun as Hout. vm_compute in Hout. injection Hout as <- Hfs. exists fs'. split; [exact Hrun|].
  destruct (Hdone eq_refl) as (Hdir & Hall). split.
  - apply Hall. exists ("/work" : str). split; [by left|]. apply (below_root tree (root_key "/work")), Hdir. by left.
  - rewrite <- Hfs. split; vm_compute; reflexivity.
Defined.
End Ownership.
