(* ===== verification/InitFiles.v ===== *)
(** * Files read and written at a container's start ([container_init.rs])

    The bounded reading of configuration and secrets, the map of secret variables
    with the directory they may come from, and the copy of the SSH configuration. *)

From S2P Require Export Ownership.

Module InitFiles.
Import FileSystem InitSpec Ownership.

Notation M := (ST Fs InitError) (only parsing).

Definition MAX_SPEC_BYTES : Z := 1048576.
Definition MAX_SECRET_BYTES : Z := 1048576.
Definition SSH_FILES : list str := strs ["config"; "known_hosts"; "known_hosts2"; "allowed_signers"].

(** 0x3f is the octal 077, 0x1ff is 777. *)
Definition read_bounded_regular_file (path : str) (maximum : Z) (allow_insecure_permissions : bool) : M str :=
  metadata ← map_error (InitSpec.Read path) (symlink_metadata path);
  throw_if (negb (is_regular metadata)) (NotRegularFile path) ;;
  throw_if (maximum <? len metadata)%Z (FileTooLarge path (len metadata) maximum) ;;
  throw_if (negb allow_insecure_permissions && negb (Z.land (mode metadata) 0x3f =? 0)%Z)
    (InitSpec.InsecurePermissions path (Z.land (mode metadata) 0x1ff)) ;;
  map_error (InitSpec.Read path) (read path).

(** ** The specification and the secrets *)

(** [Vec<(String, Zeroizing<Vec<u8>>)>]. *)
Definition SecretEnvironment := list (str * str).

Definition without_newline (value : str) : str :=
  if ends_with CRLF value then take (length value - 2) value
  else if ends_with [LF] value then take (length value - 1) value
  else value.
Definition NUL : ascii := zero.

Section documents.
(** [serde_json::from_slice] into the derived readers. *)
Context `{Idna} (parse_spec : str -> result str InitSpec) (parse_secret_map : str -> result str (bmap str)).

Definition load_init_spec (path : str) : M InitSpec :=
  bytes ← read_bounded_regular_file path MAX_SPEC_BYTES true;
  spec ← lift (map_err (ParseSpec path) (parse_spec bytes));
  lift (validate_spec spec) ;;
  mret spec.

Definition load_secret (canonical_root : str) (allow_insecure_permissions : bool) (name path : str) : M (str * str) :=
  lift (validate_environment_name name) ;;
  throw_if (negb (is_absolute path)) (SecretOutsideRoot name path) ;;
  canonical_path ← map_error (Canonicalize path) (canonicalize path);
  throw_if (negb (path_starts_with canonical_root canonical_path) || same_path canonical_path canonical_root)
    (SecretOutsideRoot name canonical_path) ;;
  value ← read_bounded_regular_file canonical_path MAX_SECRET_BYTES allow_insecure_permissions;
  let value := without_newline value in
  throw_if (contains_byte NUL value) (SecretContainsNul name) ;;
  mret (name, value).
Fixpoint load_secrets (canonical_root : str) (allow_insecure_permissions : bool) (mappings : bmap str) : M SecretEnvironment :=
  match mappings with
  | [] => mret []
  | (name, path) :: mappings =>
      secret ← load_secret canonical_root allow_insecure_permissions name path;
      secrets ← load_secrets canonical_root allow_insecure_permissions mappings;
      mret (secret :: secrets)
  end.
Definition load_secret_map (map_path secret_root : str) (allow_insecure_permissions : bool) : M SecretEnvironment :=
  bytes ← read_bounded_regular_file map_path MAX_SPEC_BYTES allow_insecure_permissions;
  mappings ← lift (map_err (ParseSecretMap map_path) (parse_secret_map bytes));
  canonical_root ← map_error (Canonicalize secret_root) (canonicalize secret_root);
  load_secrets canonical_root allow_insecure_permissions mappings.
End documents.

(** ** The SSH configuration *)

Definition real_directory (node : Node) : bool := is_dir node && negb (is_link node).
Definition real_file (node : Node) : bool := is_regular node && negb (is_link node).

Definition ensure_safe_destination_directory (path : str) : M unit :=
  found ← tried (symlink_metadata path);
  match found with
  | Ok metadata => throw_if (negb (real_directory metadata)) (UnsafeSshPath path)
  | Err NotFound =>
      match path_parent path with
      | None => throw (UnsafeSshPath path)
      | Some parent =>
          parent_metadata ← map_error (PrepareSsh parent) (symlink_metadata parent);
          throw_if (negb (real_directory parent_metadata)) (UnsafeSshPath parent) ;;
          map_error (PrepareSsh path) (create_dir path)
      end
  | Err source => throw (PrepareSsh path source)
  end.

(** [chown] when there is an identity. *)
Definition give (uid_gid : option (Z * Z)) (path : str) : M unit :=
  match uid_gid with Some ids => map_error (PrepareSsh path) (chown path ids) | None => mret tt end.

(** 0x180 is the octal 600, 0x1c0 is 700. *)
Definition prepare_ssh_file (setup : SshSetup) (uid_gid : option (Z * Z)) (filename : str) : M unit :=
  let source := path_join (source setup) filename in
  found ← tried (symlink_metadata source);
  match found with
  | Err NotFound => mret tt
  | Err source_error => throw (PrepareSsh source source_error)
  | Ok metadata =>
      throw_if (negb (real_file metadata)) (UnsafeSshPath source) ;;
      throw_if (MAX_SPEC_BYTES <? len metadata)%Z (FileTooLarge source (len metadata) MAX_SPEC_BYTES) ;;
      let destination := path_join (destination setup) filename in
      existing ← tried (symlink_metadata destination);
      throw_if (match existing with Ok existing => negb (real_file existing) | Err _ => false end) (UnsafeSshPath destination) ;;
      map_error (PrepareSsh destination) (copy source destination) ;;
      map_error (PrepareSsh destination) (set_permissions destination 0x180) ;;
      give uid_gid destination
  end.
Fixpoint prepare_ssh_files (setup : SshSetup) (uid_gid : option (Z * Z)) (filenames : list str) : M unit :=
  match filenames with
  | [] => mret tt
  | filename :: filenames => prepare_ssh_file setup uid_gid filename ;; prepare_ssh_files setup uid_gid filenames
  end.

Definition prepare_ssh_config (setup : SshSetup) (uid_gid : option (Z * Z)) : M unit :=
  source_metadata ← map_error (PrepareSsh (source setup)) (symlink_metadata (source setup));
  throw_if (negb (real_directory source_metadata)) (UnsafeSshPath (source setup)) ;;
  ensure_safe_destination_directory (destination setup) ;;
  map_error (PrepareSsh (destination setup)) (set_permissions (destination setup) 0x1c0) ;;
  give uid_gid (destination setup) ;;
  prepare_ssh_files setup uid_gid SSH_FILES.

(** ** Facts *)

Lemma read_bounded_spec path maximum allow fs r fs' : read_bounded_regular_file path maximum allow fs = Some (r, fs') ->
  nodes fs' = nodes fs /\ same_place fs fs' /\
  match r with
  | Ok content => exists key node, resolve false path fs = Ok key /\ nodes fs !! key = Some node /\ kind node = Regular content /\
      (Z.of_nat (length content) <= maximum)%Z /\ (allow = false -> Z.land (mode node) 0x3f = 0%Z)
  | Err _ => True
  end.
Proof.
  unfold read_bounded_regular_file. intros H. run_step H r1 fs1 H1. apply map_error_run in H1 as (r2 & H1 & ->).
  apply symlink_metadata_spec in H1 as (Hn1 & Hp1 & Hr). destruct r2 as [node|e]; cbn [map_err] in H; [|by destruct H as [-> ->]].
  destruct Hr as (key & Hk & Hnode). revert H. st_run. destruct (is_regular node) eqn:Er; cbn [negb]; [|by intros [= <- <-]].
  destruct (Z.ltb_spec maximum (len node)) as [|Hlen]; [by intros [= <- <-]|].
  destruct (negb allow && _) eqn:Ep; [by intros [= <- <-]|]. intros H. apply map_error_run in H as (r2 & H & ->).
  apply read_spec in H as (Hn2 & Hp2 & Hr). split; [congruence|]. split; [by trans fs1|]. destruct r2 as [content|e]; [|done]. cbn [map_err].
  destruct Hr as (key' & node' & Hk' & Hnode' & Hkind). rewrite (resolve_same _ _ fs) in Hk' by (done || apply Hp1).
  assert (Hl : is_link node = false) by (unfold is_regular, is_link in *; by destruct (kind node)).
  rewrite (resolve_follow _ _ _ _ Hk Hnode Hl) in Hk'. injection Hk' as <-. rewrite Hn1, Hnode in Hnode'. injection Hnode' as <-.
  exists key, node. split; [done|]. split; [done|]. split; [done|]. unfold len in Hlen. rewrite Hkind in Hlen. split; [lia|].
  intros ->. cbn [negb andb] in Ep. by apply negb_false_iff, Z.eqb_eq in Ep.
Qed.

Lemma canonicalize_spec path fs r fs' : canonicalize path fs = Some (r, fs') -> nodes fs' = nodes fs /\ same_place fs fs' /\
  match r with
  | Ok canonical => exists key, resolve true path fs = Ok key /\ is_Some (nodes fs !! key) /\ canonical = key_path key
  | Err _ => True
  end.
Proof.
  unfold canonicalize. intros H. run_step H r1 fs1 H1. apply stat_spec in H1 as (Hn & Hp & Hr).
  destruct r1 as [[key node]|e]; [|by destruct H as [-> ->]]. injection H as <- <-. destruct Hr as [Hk Hnode].
  split; [done|]. split; [done|]. exists key. split; [done|]. by split; [eexists|].
Qed.

(** A secret comes from a regular file strictly below the root, whatever links are
    on the way to it. *)
Definition below_root_strictly (root key : list str) : Prop := root `prefix_of` key /\ key <> root.
Definition secret_file (fs : Fs) (root : list str) (allow : bool) (path value : str) : Prop :=
  exists key node raw, resolve true path fs = Ok key /\ below_root_strictly root key /\
    nodes fs !! key = Some node /\ kind node = Regular raw /\ (Z.of_nat (length raw) <= MAX_SECRET_BYTES)%Z /\
    (allow = false -> Z.land (mode node) 0x3f = 0%Z) /\ value = without_newline raw /\ NUL ∉ value.
Lemma secret_file_same fs fs' root allow path value : nodes fs' = nodes fs -> same_place fs fs' ->
  secret_file fs' root allow path value -> secret_file fs root allow path value.
Proof. intros Hn Hp (key & node & raw & H). rewrite (resolve_same _ _ fs), Hn in H by (done || apply Hp). by exists key, node, raw. Qed.

Lemma normal_prefix root key rest : map Normal key = map Normal root ++ rest -> root `prefix_of` key.
Proof.
  revert key. induction root as [|name root IH]; intros [|name' key]; cbn; intros E; try done; [apply prefix_nil..|].
  injection E as -> E. by apply prefix_cons, IH.
Qed.
Lemma load_secret_spec rkey allow name path fs r fs' : tree_ok (nodes fs) -> Forall is_name rkey ->
  load_secret (key_path rkey) allow name path fs = Some (r, fs') -> nodes fs' = nodes fs /\ same_place fs fs' /\
  match r with
  | Ok (name', value) => name' = name /\ validate_environment_name name = Ok tt /\ is_absolute path = true /\ secret_file fs rkey allow path value
  | Err _ => True
  end.
Proof.
  intros Ht Hroot. unfold load_secret. st_run. destruct (validate_environment_name name) as [[]|e] eqn:Ev; [|by intros [= <- <-]].
  destruct (is_absolute path) eqn:Ea; cbn [negb]; [|by intros [= <- <-]]. intros H. run_step H r1 fs1 H1.
  apply map_error_run in H1 as (r2 & H1 & ->). apply canonicalize_spec in H1 as (Hn1 & Hp1 & Hr).
  destruct r2 as [canonical|e]; cbn [map_err] in H; [|by destruct H as [-> ->]]. destruct Hr as (key & Hk & Hs & ->).
  revert H. st_run. destruct (path_of_key _ Hroot) as [_ Hcr]. destruct (path_of_key _ (tree_names _ Ht _ Hs)) as [Hak Hck].
  destruct (_ || _) eqn:Eb; [by intros [= <- <-]|]. apply orb_false_iff in Eb as [Hst%negb_false_iff Hne].
  assert (Hbelow : below_root_strictly rkey key).
  { unfold path_starts_with in Hst. apply bool_decide_eq_true in Hst as [rest Hrest%strip_components_Some]. rewrite Hck, Hcr in Hrest.
    unfold same_path in Hne. apply bool_decide_eq_false in Hne. rewrite Hck, Hcr in Hne. injection Hrest as Hrest. split; [|congruence].
    by eapply normal_prefix. }
  intros H. run_step H r1 fs2 H1. apply read_bounded_spec in H1 as (Hn2 & Hp2 & Hr).
  destruct r1 as [raw|e]; [|destruct H as [-> ->]; split; [congruence|by split; [trans fs1|]]].
  revert H. st_run. destruct (contains_byte NUL (without_newline raw)) eqn:Enul; intros [= <- <-].
  all: split; [congruence|]; split; [by trans fs1|]; try done. split; [done|]. split; [done|]. split; [done|].
  destruct Hr as (key' & node & Hk' & Hnode & Hkind & Hlen & Hperm). rewrite Hn1 in Hnode.
  assert (Hres : resolve false (key_path key) fs1 = Ok key).
  { apply resolve_real; [by split|rewrite Hn1; by apply tree_above|left]. apply key_path_end; [by apply (tree_names _ Ht)|].
    intros ->. destruct Hbelow as [Hpre Hneq]. apply Hneq. symmetry. by apply prefix_nil_inv. }
  rewrite Hres in Hk'. injection Hk' as <-. exists key, node, raw. split; [done|]. split; [done|]. split; [done|]. split; [done|].
  split; [done|]. split; [done|]. split; [done|]. by apply contains_byte_false.
Qed.

Definition secret_of (fs : Fs) (root : list str) (allow : bool) (mapping secret : str * str) : Prop :=
  secret.1 = mapping.1 /\ validate_environment_name secret.1 = Ok tt /\ is_absolute mapping.2 = true /\
  secret_file fs root allow mapping.2 secret.2.
Lemma load_secrets_spec rkey allow mappings fs r fs' : tree_ok (nodes fs) -> Forall is_name rkey ->
  load_secrets (key_path rkey) allow mappings fs = Some (r, fs') -> nodes fs' = nodes fs /\
  match r with Ok secrets => Forall2 (secret_of fs rkey allow) mappings secrets | Err _ => True end.
Proof.
  intros Ht Hroot. revert r fs' fs Ht. induction mappings as [|[name path] mappings IH]; intros r fs' fs Ht H; cbn [load_secrets] in H.
  { injection H as <- <-. by split; [|constructor]. }
  run_step H r1 fs1 H1. apply load_secret_spec in H1 as (Hn1 & Hp1 & Hr); [|done|done].
  destruct r1 as [[name' value]|e]; [|by destruct H as [-> ->]]. destruct Hr as (-> & Hv & Ha & Hf).
  run_step H r2 fs2 H2. apply IH in H2 as [Hn2 Hr2]; [|by rewrite Hn1].
  destruct r2 as [secrets|e]; [|destruct H as [-> ->]; split; [congruence|done]]. injection H as <- <-. split; [congruence|].
  constructor; [done|]. eapply Forall2_impl; [done|]. intros m s (E & Hv' & Ha' & Hf'). split; [done|]. split; [done|]. split; [done|].
  by eapply secret_file_same.
Qed.

Lemma load_secret_map_ends parse map_path root allow : ends (load_secret_map parse map_path root allow).
Proof.
  unfold load_secret_map, read_bounded_regular_file. solve_ends.
  match goal with |- ends (load_secrets ?c _ ?m) => generalize m as mappings end. clear.
  induction mappings as [|[name path] mappings IH]; cbn [load_secrets]; unfold load_secret, read_bounded_regular_file; solve_ends.
Qed.

Lemma prepare_ssh_config_ends setup ids : ends (prepare_ssh_config setup ids).
Proof.
  assert (Hf : forall names, ends (prepare_ssh_files setup ids names)).
  { induction names as [|name names IH]; cbn [prepare_ssh_files]; [solve_ends|]. apply total_bind; [|by intros _].
    unfold prepare_ssh_file, give. solve_ends. }
  unfold prepare_ssh_config, ensure_safe_destination_directory, give. repeat (ends_step || apply Hf).
Qed.

(** C27: secrets come from where they may.  Loading the map of secret variables
    ends and changes nothing; when it succeeds, there is one variable per entry of
    the map, in its order, whose name is a shell identifier and whose value is the
    content, less one final line break and without a NUL, of a regular file of at
    most 1 MiB strictly below the secret root, after all links are followed, which
    nobody but its owner may access unless the specification allows it. *)
Theorem secrets_confined parse_secret_map map_path secret_root allow fs : tree_ok (nodes fs) ->
  exists r fs', load_secret_map parse_secret_map map_path secret_root allow fs = Some (r, fs') /\ nodes fs' = nodes fs /\
    match r with
    | Ok secrets => exists bytes mappings root, parse_secret_map bytes = Ok mappings /\ resolve true secret_root fs = Ok root /\
        (exists key node, resolve false map_path fs = Ok key /\ nodes fs !! key = Some node /\ kind node = Regular bytes) /\
        Forall2 (secret_of fs root allow) mappings secrets
    | Err _ => True
    end.
Proof.
  intros Ht. destruct (load_secret_map_ends parse_secret_map map_path secret_root allow fs) as [[r fs'] H]. exists r, fs'. split; [done|].
  unfold load_secret_map in H. run_step H r1 fs1 H1. apply read_bounded_spec in H1 as (Hn1 & Hp1 & Hr).
  destruct r1 as [bytes|e]; [|by destruct H as [-> ->]]. revert H. st_run.
  destruct (parse_secret_map bytes) as [mappings|e] eqn:Eparse; cbn [map_err]; [|by intros [= <- <-]]. intros H.
  run_step H r1 fs2 H1. apply map_error_run in H1 as (r2 & H1 & ->). apply canonicalize_spec in H1 as (Hn2 & Hp2 & Hroot).
  destruct r2 as [canonical|e]; cbn [map_err] in H; [|destruct H as [-> ->]; split; [congruence|done]].
  destruct Hroot as (root & Hres & Hs & ->). rewrite (resolve_same _ _ fs) in Hres by (done || apply Hp1). rewrite Hn1 in Hs.
  apply load_secrets_spec in H as [Hn3 Hsecrets]; [|by rewrite Hn2, Hn1|by apply (tree_names _ Ht)]. split; [congruence|].
  destruct r as [secrets|e]; [|done]. exists bytes, mappings, root. split; [done|]. split; [done|]. split.
  { destruct Hr as (key & node & Hkey & Hnode & Hkind & _). by exists key, node. }
  eapply Forall2_impl; [done|]. intros m s (E & Hv & Ha & Hf). split; [done|]. split; [done|]. split; [done|].
  eapply secret_file_same; [| |done]; [congruence|by trans fs1].
Qed.

(** ** A run without faults of the calls on real paths *)

Definition quiet (fs : Fs) : Prop := faults fs = [].
Lemma fs_eta fs : quiet fs -> mkFs (nodes fs) (working fs) (umask fs) (identity fs) (tail (faults fs)) = fs.
Proof. destruct fs as [n w u i f]. unfold quiet. cbn. by intros ->. Qed.
Lemma may_fault_quiet fs : quiet fs -> may_fault fs = Some (Ok tt, fs).
Proof. intros H. unfold may_fault. rewrite (fs_eta _ H). by rewrite H. Qed.
Lemma stat_quiet follow path key fs : quiet fs -> resolve follow path fs = Ok key ->
  stat follow path fs = Some (from_option (fun n => Ok (key, n)) (Err NotFound) (nodes fs !! key), fs).
Proof.
  intros Hq Hr. unfold stat. rewrite run_bind, (may_fault_quiet _ Hq). cbv beta iota. st_run. unfold id. rewrite Hr. st_run.
  by destruct (nodes fs !! key); st_run.
Qed.

(** A path with no links or dots, not written as a directory's. *)
Record real_path (tree : gmap (list str) Node) (path : str) (key : list str) : Prop := {
  real_key : path_of path key;
  real_above : dirs_above tree key;
  real_end : ends_with "/" path = false }.
Lemma real_lstat fs path key : quiet fs -> real_path (nodes fs) path key ->
  symlink_metadata path fs = Some (from_option Ok (Err NotFound) (nodes fs !! key), fs).
Proof.
  intros Hq [Hk Ha He]. unfold symlink_metadata. rewrite run_bind, (stat_quiet _ _ key) by (done || (apply resolve_real; [done|done|by left])).
  by destruct (nodes fs !! key).
Qed.
Lemma real_stat fs path key node : quiet fs -> real_path (nodes fs) path key -> nodes fs !! key = Some node -> is_link node = false ->
  stat true path fs = Some (Ok (key, node), fs).
Proof.
  intros Hq [Hk Ha He] Hn Hl. rewrite (stat_quiet _ _ key); [by rewrite Hn|done|]. apply resolve_real; [done|done|right]. congruence.
Qed.
Lemma real_update fs path key node f : quiet fs -> real_path (nodes fs) path key -> nodes fs !! key = Some node -> is_link node = false ->
  ('(key, _) ← stat true path; update_node key f) fs = Some (Ok tt, set_nodes (alter f key) fs).
Proof. intros Hq Hp Hn Hl. rewrite run_bind, (real_stat _ _ _ _ Hq Hp Hn Hl). done. Qed.
Lemma real_copy fs from to skey dkey source content : quiet fs -> real_path (nodes fs) from skey -> real_path (nodes fs) to dkey ->
  skey <> dkey -> nodes fs !! skey = Some source -> kind source = Regular content ->
  (forall n, nodes fs !! dkey = Some n -> is_regular n = true) ->
  exists node, copy from to fs = Some (Ok tt, set_nodes <[dkey := node]> fs) /\ kind node = Regular content.
Proof.
  intros Hq Hf Ht Hne Hs Hk Hd. unfold copy.
  rewrite run_bind, (real_stat _ _ _ _ Hq Hf Hs) by (unfold is_link; by rewrite Hk). unfold is_regular at 1. rewrite Hk. cbn [negb].
  rewrite run_bind, (may_fault_quiet _ Hq). cbv beta iota. st_run. unfold id. destruct Ht as [Htk Hta Hte].
  rewrite (resolve_real true to dkey) by (done || (right; intros n Hn; specialize (Hd n Hn); unfold is_regular, is_link in *; by destruct (kind n))).
  st_run. destruct (nodes fs !! dkey) as [other|] eqn:En.
  - rewrite (Hd _ eq_refl). unfold update_node. st_run. eexists. split; [|].
    + do 2 f_equal. unfold set_nodes. cbn. f_equal. rewrite lookup_alter_ne by done. rewrite Hs, Hk.
      apply map_eq. intros k. destruct (decide (dkey = k)) as [<-|Hk2].
      * rewrite lookup_insert_eq, !lookup_alter_eq, En. cbn. reflexivity.
      * by rewrite lookup_insert_ne, !lookup_alter_ne.
    + done.
  - unfold insert_node. st_run. eexists. split; [|].
    + do 2 f_equal. unfold set_nodes. cbn. f_equal. rewrite lookup_insert_ne by done. rewrite Hs, Hk.
      rewrite alter_insert_eq. reflexivity.
    + done.
Qed.

(** ** The copied files *)

Lemma real_mkdir fs path key : quiet fs -> real_path (nodes fs) path key -> nodes fs !! key = None ->
  exists node, create_dir path fs = Some (Ok tt, set_nodes <[key := node]> fs) /\ is_dir node = true.
Proof.
  intros Hq [Hk Ha He] Hn. unfold create_dir, create_new. rewrite !run_bind, (may_fault_quiet _ Hq). cbv beta iota. st_run. unfold id.
  rewrite (resolve_real false path key) by (done || by left). st_run. rewrite Hn. unfold insert_node. st_run. by eexists.
Qed.
Lemma give_real fs path key node ids : quiet fs -> real_path (nodes fs) path key -> nodes fs !! key = Some node -> is_link node = false ->
  give ids path fs = Some (Ok tt, match ids with Some ids => set_nodes (alter (set_owner ids) key) fs | None => fs end).
Proof.
  intros Hq Hp Hn Hl. destruct ids as [ids|]; [|done]. unfold give, map_error, chown. by rewrite (real_update _ _ _ _ _ Hq Hp Hn Hl).
Qed.
Definition owned_by (ids : option (Z * Z)) (node : Node) : Prop := forall pair, ids = Some pair -> owner node = pair.

(** The mode and the owner of a node that is in place. *)
Lemma dress fs path key node m ids : quiet fs -> real_path (nodes fs) path key -> nodes fs !! key = Some node -> is_link node = false ->
  exists node', (map_error (PrepareSsh path) (set_permissions path m) ;; give ids path) fs = Some (Ok tt, set_nodes <[key := node']> fs) /\
    kind node' = kind node /\ mode node' = m /\ owned_by ids node'.
Proof.
  intros Hq Hp Hn Hl. rewrite run_bind. unfold map_error at 1, set_permissions. rewrite (real_update _ _ _ _ _ Hq Hp Hn Hl). cbn [map_err].
  assert (E : alter (set_mode m) key (nodes fs) = <[key := set_mode m node]> (nodes fs)).
  { apply map_eq. intros k. destruct (decide (key = k)) as [<-|Hne]; [by rewrite lookup_alter_eq, lookup_insert_eq, Hn|].
    by rewrite lookup_alter_ne, lookup_insert_ne. }
  assert (Hk1 : nodes (set_nodes (alter (set_mode m) key) fs) !! key = Some (set_mode m node)) by (cbn; by rewrite E, lookup_insert_eq).
  rewrite (give_real _ _ key (set_mode m node)); [|done| |done|done].
  2:{ destruct Hp as [Hk Ha He]. split; [done| |done]. cbn. rewrite E. intros above name below Eq.
      destruct (Ha above name below Eq) as (n & Hn' & Hd). exists n. split; [|done]. rewrite lookup_insert_ne; [done|].
      intros ->. apply (f_equal length) in Eq. rewrite length_app in Eq. cbn in Eq. lia. }
  destruct ids as [pair|].
  - exists (set_owner pair (set_mode m node)). split; [|split; [done|split; [done|by intros ? [= ->]]]].
    do 2 f_equal. unfold set_nodes. cbn. f_equal. rewrite E. by rewrite alter_insert_eq.
  - exists (set_mode m node). split; [|split; [done|split; [done|by intros ?]]]. unfold set_nodes. by rewrite E.
Qed.

(** A step that changes one node, and no directory. *)
Record one_node (key : list str) (fs fs' : Fs) : Prop := {
  one_quiet : quiet fs -> quiet fs';
  one_tree : tree_ok (nodes fs) -> tree_ok (nodes fs');
  one_frame k : k <> key -> nodes fs' !! k = nodes fs !! k;
  one_dirs k n : nodes fs !! k = Some n -> is_dir n = true -> nodes fs' !! k = Some n }.
Lemma one_node_refl key fs : one_node key fs fs.
Proof. by split. Qed.
Lemma one_node_insert above name fs node : is_name name -> directory_at (nodes fs) above -> is_dir node = false ->
  (forall n, nodes fs !! (above ++ [name]) = Some n -> is_dir n = false) ->
  one_node (above ++ [name]) fs (set_nodes <[above ++ [name] := node]> fs).
Proof.
  intros Hname (d & Hd & Hdir) Hnode Hold. split; cbn; [done| | |].
  - intros Ht. destruct (nodes fs !! (above ++ [name])) as [n|] eqn:En; [|apply tree_ok_insert; [done|done|done|by exists d]].
    specialize (Hold n eq_refl). destruct Ht as [Hr Hp Hn].
    assert (Hkeep : forall k n, nodes fs !! k = Some n -> is_dir n = true -> <[above ++ [name] := node]> (nodes fs) !! k = Some n).
    { intros k n' Hk Hk2. rewrite lookup_insert_ne; [done|]. intros <-. congruence. }
    assert (Hsome : forall k, is_Some (<[above ++ [name] := node]> (nodes fs) !! k) -> is_Some (nodes fs !! k)).
    { intros k. destruct (decide (above ++ [name] = k)) as [<-|Hne]; [by rewrite En|]. by rewrite lookup_insert_ne. }
    split.
    + destruct Hr as (n' & Hn' & Hdn). exists n'. split; [by apply Hkeep|done].
    + intros k nm (n' & Hn' & Hdn)%Hsome%Hp. exists n'. split; [by apply Hkeep|done].
    + intros k ?%Hsome. by apply Hn.
  - intros k Hk. by rewrite lookup_insert_ne.
  - intros k n Hk Hn. rewrite lookup_insert_ne; [done|]. intros <-. apply Hold in Hk. congruence.
Qed.
Lemma one_directory key fs fs' above : one_node key fs fs' -> directory_at (nodes fs) above -> directory_at (nodes fs') above.
Proof. intros [_ _ _ Hd] (n & Hn & Hdir). exists n. auto. Qed.

Lemma real_join tree path key name : tree_ok tree -> path_of path key -> directory_at tree key -> is_name name ->
  real_path tree (path_join path name) (key ++ [name]).
Proof. intros Ht Hp Hd Hn. destruct (path_of_join path key name Hp Hn) as [Hj He]. split; [done|by apply directory_below|done]. Qed.

Section copied.
Context (setup : SshSetup) (uid_gid : option (Z * Z)) (skey dkey : list str).
Hypotheses (Hsource : path_of (source setup) skey) (Hdest : path_of (destination setup) dkey) (Hne : skey <> dkey).

(** What has become of one file: [tree] is before, [tree'] after. *)
Definition ssh_copied (tree tree' : gmap (list str) Node) (filename : str) : Prop :=
  match tree !! (skey ++ [filename]) with
  | None => tree' !! (dkey ++ [filename]) = tree !! (dkey ++ [filename])
  | Some original => exists content copy, kind original = Regular content /\ (Z.of_nat (length content) <= MAX_SPEC_BYTES)%Z /\
      tree' !! (dkey ++ [filename]) = Some copy /\ kind copy = Regular content /\ mode copy = 0x180%Z /\ owned_by uid_gid copy
  end.

Lemma real_file_kind node : real_file node = true -> exists content, kind node = Regular content.
Proof. unfold real_file, is_regular. destruct (kind node); [done|by eexists|done..]. Qed.
Lemma prepare_ssh_file_spec fs filename : is_name filename -> quiet fs -> tree_ok (nodes fs) ->
  directory_at (nodes fs) skey -> directory_at (nodes fs) dkey ->
  exists r fs', prepare_ssh_file setup uid_gid filename fs = Some (r, fs') /\ one_node (dkey ++ [filename]) fs fs' /\
    (r = Ok tt -> ssh_copied (nodes fs) (nodes fs') filename).
Proof.
  intros Hname Hq Ht Hsd Hdd. pose proof (real_join _ _ _ _ Ht Hsource Hsd Hname) as Hs. pose proof (real_join _ _ _ _ Ht Hdest Hdd Hname) as Hd.
  unfold prepare_ssh_file, ssh_copied. rewrite run_bind. unfold tried at 1. rewrite (real_lstat _ _ _ Hq Hs).
  destruct (nodes fs !! (skey ++ [filename])) as [original|] eqn:Eo; cbn [from_option].
  2:{ eexists _, _. split; [reflexivity|]. by split; [apply one_node_refl|]. }
  assert (Hfail : forall e, exists r fs', Some (Err e : result InitError unit, fs) = Some (r, fs') /\ one_node (dkey ++ [filename]) fs fs' /\
    (r = Ok tt -> exists content copy, kind original = Regular content /\ (Z.of_nat (length content) <= MAX_SPEC_BYTES)%Z /\
      nodes fs' !! (dkey ++ [filename]) = Some copy /\ kind copy = Regular content /\ mode copy = 0x180%Z /\ owned_by uid_gid copy)).
  { intros e. eexists _, _. split; [reflexivity|]. by split; [apply one_node_refl|]. }
  rewrite run_bind, run_throw_if. destruct (real_file original) eqn:Er; cbn [negb]; [|apply Hfail].
  destruct (real_file_kind _ Er) as [content Hkind]. rewrite run_bind, run_throw_if.
  destruct (Z.ltb_spec MAX_SPEC_BYTES (len original)) as [|Hlen]; [apply Hfail|]. unfold len in Hlen. rewrite Hkind in Hlen.
  rewrite run_bind. unfold tried at 1. rewrite (real_lstat _ _ _ Hq Hd). rewrite run_bind, run_throw_if. 
  match goal with |- context [if ?b then Err (UnsafeSshPath _) else Ok tt] => destruct b eqn:Eold end; [apply Hfail|].
  assert (Hold : forall n, nodes fs !! (dkey ++ [filename]) = Some n -> is_regular n = true).
  { intros n Hn. rewrite Hn in Eold. cbn in Eold. unfold real_file in Eold. by destruct (is_regular n). }
  rewrite run_bind. unfold map_error at 1.
  destruct (real_copy fs _ _ _ _ original content Hq Hs Hd ltac:(by intros [? _]%app_inj_tail) Eo Hkind Hold) as (node & -> & Hnode). cbn [map_err].
  assert (Hnl : is_link node = false) by (unfold is_link; by rewrite Hnode).
  set (fs1 := set_nodes <[dkey ++ [filename] := node]> fs).
  assert (H1 : one_node (dkey ++ [filename]) fs fs1).
  { apply one_node_insert; [done|done|unfold is_dir; by rewrite Hnode|]. intros n Hn. apply Hold in Hn. unfold is_dir, is_regular in *. by destruct (kind n). }
  destruct (dress fs1 (path_join (destination setup) filename) (dkey ++ [filename]) node 0x180 uid_gid) as (node' & -> & Hk' & Hm' & Ho').
  - by apply H1. - apply real_join; [by apply H1|done|by eapply one_directory|done]. - cbn. by rewrite lookup_insert_eq. - done.
  - assert (E : set_nodes <[dkey ++ [filename] := node']> fs1 = set_nodes <[dkey ++ [filename] := node']> fs).
    { unfold fs1, set_nodes. cbn. f_equal. apply insert_insert_eq. }
    rewrite E. eexists _, _. split; [reflexivity|]. rewrite Hnode in Hk'. split.
    + apply one_node_insert; [done|done|unfold is_dir; by rewrite Hk'|]. intros n Hn. apply Hold in Hn. unfold is_dir, is_regular in *. by destruct (kind n).
    + intros _. exists content, node'. cbn. rewrite lookup_insert_eq. auto 10.
Qed.

Lemma ssh_copied_later tree tree1 tree2 filename : ssh_copied tree tree1 filename ->
  tree2 !! (dkey ++ [filename]) = tree1 !! (dkey ++ [filename]) -> ssh_copied tree tree2 filename.
Proof. unfold ssh_copied. intros H ->. done. Qed.
Lemma ssh_copied_earlier tree tree1 tree2 filename : ssh_copied tree1 tree2 filename ->
  tree1 !! (skey ++ [filename]) = tree !! (skey ++ [filename]) ->
  (tree !! (skey ++ [filename]) = None -> tree1 !! (dkey ++ [filename]) = tree !! (dkey ++ [filename])) -> ssh_copied tree tree2 filename.
Proof. unfold ssh_copied. intros H E1 E2. rewrite E1 in H. case_match; [done|]. by rewrite <- E2. Qed.

Definition ssh_places (filenames : list str) (k : list str) : Prop := exists filename, filename ∈ filenames /\ k = dkey ++ [filename].
Lemma prepare_ssh_files_spec filenames fs : Forall is_name filenames -> NoDup filenames -> quiet fs -> tree_ok (nodes fs) ->
  directory_at (nodes fs) skey -> directory_at (nodes fs) dkey ->
  exists r fs', prepare_ssh_files setup uid_gid filenames fs = Some (r, fs') /\
    (forall k, ~ ssh_places filenames k -> nodes fs' !! k = nodes fs !! k) /\
    (r = Ok tt -> Forall (ssh_copied (nodes fs) (nodes fs')) filenames).
Proof.
  intros Hn. revert fs. induction Hn as [|filename filenames Hname Hn IH]; intros fs Hnd Hq Ht Hs Hd; cbn [prepare_ssh_files].
  { eexists _, _. split; [reflexivity|]. split; [done|]. constructor. }
  apply NoDup_cons in Hnd as [Hnew Hnd]. rewrite run_bind.
  destruct (prepare_ssh_file_spec fs filename Hname Hq Ht Hs Hd) as (r1 & fs1 & -> & H1 & Hdone).
  assert (Hframe1 : forall k, ~ ssh_places (filename :: filenames) k -> nodes fs1 !! k = nodes fs !! k).
  { intros k Hk. apply H1. intros ->. apply Hk. exists filename. split; [by left|done]. }
  destruct r1 as [[]|e]; [|eexists _, _; split; [reflexivity|]; by split]. cbv beta iota.
  destruct (IH fs1 Hnd (one_quiet _ _ _ H1 Hq) (one_tree _ _ _ H1 Ht) (one_directory _ _ _ _ H1 Hs) (one_directory _ _ _ _ H1 Hd))
    as (r & fs2 & -> & Hframe2 & Hdone2). eexists _, _. split; [reflexivity|]. split.
  - intros k Hk. rewrite Hframe2; [by apply Hframe1|]. intros (f & Hf & ->). apply Hk. exists f. split; [by right|done].
  - intros ->. constructor.
    + eapply ssh_copied_later; [by apply Hdone|]. apply Hframe2. intros (f & Hf & E). apply app_inj_tail in E as [_ ->]. done.
    + specialize (Hdone2 eq_refl). rewrite Forall_forall in Hdone2 |- *. intros f Hf.
      eapply ssh_copied_earlier; [by apply Hdone2| |]; intros; apply H1; intros E; apply app_inj_tail in E as [E1 E2]; [done|]. by subst f.
Qed.
End copied.

Lemma render_key key : render (RootDir :: map Normal key) = key_path key.
Proof. unfold key_path. destruct key as [|name key]; [done|]. reflexivity. Qed.
Lemma parent_of path above name : path_of path (above ++ [name]) -> path_parent path = Some (key_path above).
Proof.
  intros [_ Hc]. unfold path_parent. rewrite Hc, map_app. cbn [map]. rewrite app_comm_cons, last_snoc.
  rewrite length_app. cbn [length]. replace (pred _) with (length (RootDir :: map Normal above)) by (cbn; lia).
  by rewrite take_app_length, render_key.
Qed.

(** The destination is made, if it is missing, in its directory. *)
Lemma ensure_destination_spec path key fs : quiet fs -> tree_ok (nodes fs) -> real_path (nodes fs) path key ->
  exists r fs', ensure_safe_destination_directory path fs = Some (r, fs') /\ quiet fs' /\ tree_ok (nodes fs') /\
    (forall k, k <> key -> nodes fs' !! k = nodes fs !! k) /\ (nodes fs !! key = None \/ fs' = fs) /\
    (r = Ok tt -> directory_at (nodes fs') key /\ real_path (nodes fs') path key).
Proof.
  intros Hq Ht Hp. unfold ensure_safe_destination_directory. rewrite run_bind. unfold tried at 1. rewrite (real_lstat _ _ _ Hq Hp).
  destruct (nodes fs !! key) as [node|] eqn:En; cbn [from_option].
  - rewrite run_throw_if. unfold real_directory. eexists _, _. split; [reflexivity|]. split; [done|]. split; [done|]. split; [done|]. split; [by right|].
    destruct (is_dir node) eqn:Ed; [|done]. intros _. split; [by exists node|done].
  - destruct key as [|name above _] using rev_ind.
    { destruct (tree_root _ Ht) as (n & Hn & _). congruence. }
    rewrite (parent_of _ _ _ (real_key _ _ _ Hp)). destruct (real_above _ _ _ Hp above name [] eq_refl) as (parent & Hparent & Hdir).
    assert (Hab : Forall is_name above) by (apply (tree_names _ Ht); by eexists).
    assert (Hl : is_link parent = false) by (unfold is_dir, is_link in *; by destruct (kind parent)).
    assert (Hst : symlink_metadata (key_path above) fs = Some (Ok parent, fs)).
    { unfold symlink_metadata. rewrite run_bind, (stat_quiet _ _ above); [by rewrite Hparent|done|]. apply resolve_real; [by apply path_of_key| |right; congruence].
      apply tree_above; [done|by eexists]. }
    rewrite run_bind. unfold map_error at 1. rewrite Hst. cbn [map_err]. rewrite run_bind, run_throw_if.
    unfold real_directory at 1. rewrite Hdir, Hl. cbn [negb andb].
    destruct (real_mkdir _ _ _ Hq Hp En) as (node & Hmk & Hnode). unfold map_error. rewrite Hmk. cbn [map_err].
    assert (Hname : is_name name).
    { destruct (real_key _ _ _ Hp) as [Hpa Hpc]. pose proof (components_absolute _ Hpa) as (cs & Hcs & Hseg). rewrite Hpc in Hcs. injection Hcs as <-.
      rewrite map_app in Hseg. apply Forall_app in Hseg as [_ Hseg]. by apply Forall_cons in Hseg as [? _]. }
    eexists _, _. split; [reflexivity|]. split; [done|]. split; [apply tree_ok_insert; [done|done|done|by exists parent]|].
    split; [intros k Hk; cbn; by rewrite lookup_insert_ne|]. split; [by left|]. intros _.
    split; [exists node; cbn; by rewrite lookup_insert_eq|]. destruct Hp as [Hk Ha He]. split; [done| |done].
    intros a n b E. destruct (Ha a n b E) as (x & Hx & Hxd). exists x. split; [|done]. cbn. rewrite lookup_insert_ne; [done|]. intros <-. congruence.
Qed.

Lemma run_assoc {A B C} (m : M A) (n : M B) (k : M C) fs : (m ;; n ;; k) fs = ((m ;; n) ;; k) fs.
Proof. rewrite !run_bind. by destruct (m fs) as [[[a|e] fs1]|]. Qed.
Lemma tree_ok_replace tree key node node' : tree_ok tree -> tree !! key = Some node -> kind node' = kind node -> tree_ok (<[key := node']> tree).
Proof.
  intros Ht Hn Hk. replace (<[key := node']> tree) with (alter (fun n => mkNode (kind n) (mode node') (owner node') (device node')) key tree).
  { by apply tree_ok_alter. }
  apply map_eq. intros k. destruct (decide (key = k)) as [<-|Hne].
  - rewrite lookup_alter_eq, lookup_insert_eq, Hn. cbn. rewrite <- Hk. by destruct node'.
  - by rewrite lookup_alter_ne, lookup_insert_ne.
Qed.
Lemma ssh_files_names : Forall is_name SSH_FILES /\ NoDup SSH_FILES.
Proof.
  split; [|by apply (bool_decide_unpack (NoDup SSH_FILES)); vm_compute].
  assert (H : forallb name_ok SSH_FILES = true) by (by vm_compute). rewrite forallb_forall in H. apply Forall_forall.
  intros name Hin%list_elem_of_In%H. by apply name_ok_spec.
Qed.

(** The SSH configuration is copied, not linked.  With no other fault of the
    file system, preparing it ends; it changes the destination and the four files in
    it and nothing else, links included; and when it succeeds, the destination is a
    directory of mode 700 of the workload's, and of the four files those the source
    has are regular files there with their content, at most 1 MiB, mode 600 and the
    workload's ids, and the others are as they were. *)
Theorem ssh_config_exact setup uid_gid skey dkey fs : quiet fs -> tree_ok (nodes fs) ->
  real_path (nodes fs) (source setup) skey -> real_path (nodes fs) (destination setup) dkey -> skey <> dkey ->
  exists r fs', prepare_ssh_config setup uid_gid fs = Some (r, fs') /\
    (forall k, k <> dkey -> ~ ssh_places dkey SSH_FILES k -> nodes fs' !! k = nodes fs !! k) /\
    (r = Ok tt ->
       (exists d, nodes fs' !! dkey = Some d /\ kind d = Dir /\ mode d = 0x1c0%Z /\ owned_by uid_gid d) /\
       Forall (ssh_copied uid_gid skey dkey (nodes fs) (nodes fs')) SSH_FILES).
Proof.
  intros Hq Ht Hs Hd Hne. unfold prepare_ssh_config. rewrite run_bind. unfold map_error at 1. rewrite (real_lstat _ _ _ Hq Hs).
  destruct (nodes fs !! skey) as [snode|] eqn:Es; cbn [from_option map_err]; [|eexists _, _; split; [reflexivity|]; by split].
  rewrite run_bind, run_throw_if. unfold real_directory at 1. destruct (is_dir snode) eqn:Esd; [|eexists _, _; split; [reflexivity|]; by split].
  replace (negb (true && negb (is_link snode))) with false by (unfold is_dir, is_link in *; by destruct (kind snode)). rewrite run_bind.
  destruct (ensure_destination_spec _ _ _ Hq Ht Hd) as (r1 & fs1 & -> & Hq1 & Ht1 & Hframe1 & Hnew & Hok1).
  destruct r1 as [[]|e]; [|eexists _, _; split; [reflexivity|]; split; [intros k Hk _; by apply Hframe1|done]].
  destruct (Hok1 eq_refl) as ((d & Hdn & Hdd) & Hd1). assert (Hl : is_link d = false) by (unfold is_dir, is_link in *; by destruct (kind d)).
  rewrite run_assoc, run_bind. destruct (dress _ _ _ _ 0x1c0 uid_gid Hq1 Hd1 Hdn Hl) as (d' & -> & Hk' & Hm' & Ho').
  set (fs2 := set_nodes <[dkey := d']> fs1). assert (Ht2 : tree_ok (nodes fs2)) by by eapply tree_ok_replace.
  assert (Hframe2 : forall k, k <> dkey -> nodes fs2 !! k = nodes fs !! k) by (intros k Hk; cbn; rewrite lookup_insert_ne; auto).
  assert (Hd2 : nodes fs2 !! dkey = Some d') by (cbn; by rewrite lookup_insert_eq).
  assert (Hdir' : kind d' = Dir) by (rewrite Hk'; unfold is_dir in Hdd; by destruct (kind d)).
  destruct ssh_files_names as [Hnames Hnodup].
  destruct (prepare_ssh_files_spec setup uid_gid skey dkey (real_key _ _ _ Hs) (real_key _ _ _ Hd) Hne SSH_FILES fs2 Hnames Hnodup)
    as (r & fs' & -> & Hframe & Hdone); [done|done|by exists snode; rewrite Hframe2|by exists d'; unfold is_dir; rewrite Hdir'|].
  eexists _, _. split; [reflexivity|]. split; [intros k Hk Hp; rewrite Hframe, Hframe2; done|]. intros Hr. split.
  - exists d'. split; [|done]. rewrite Hframe; [done|]. intros (f & _ & E). apply (f_equal length) in E. rewrite length_app in E. cbn in E. lia.
  - specialize (Hdone Hr). rewrite Forall_forall in Hdone |- *. intros f Hf. specialize (Hdone f Hf).
    destruct (decide (skey ++ [f] = dkey)) as [Esd'|Hnd].
    { unfold ssh_copied in Hdone. rewrite Esd', Hd2 in Hdone. destruct Hdone as (content & copy & Hc & _). congruence. }
    eapply ssh_copied_earlier; [done|by apply Hframe2|]. intros _. apply Hframe2. intros E.
    apply (f_equal length) in E. rewrite length_app in E. cbn in E. lia.
Qed.

(** ** Runs *)

Definition private (content : str) : Node := mkNode (Regular content) 0x180 (0, 0)%Z 1.
Definition secret_nodes : list (list str * Node) :=
  [([], node_of Dir); (key_of ["secrets"], node_of Dir); (key_of ["map"], private "{}");
   (key_of ["secrets"; "v1"], private ("hunter2" ++ [LF])); (key_of ["secrets"; "key"], node_of (Symlink "v1"))]%string.
Definition secret_disk : Fs := mkFs (list_to_map secret_nodes) [] 0x12 (0, 0)%Z [].
Definition parse_sample (bytes : str) : result str (bmap str) :=
  if bool_decide (bytes = ("{}" : str)) then Ok [(("TOKEN" : str), ("/secrets/key" : str))] else Err ("no such document" : str).

Lemma secrets_confined_witness : exists fs', load_secret_map parse_sample "/map" "/secrets" false secret_disk
    = Some (Ok [(("TOKEN" : str), ("hunter2" : str))], fs') /\ nodes fs' = nodes secret_disk /\
  secret_file secret_disk (key_of ["secrets"]%string) false "/secrets/key" "hunter2".
Proof.
  assert (Ht : tree_ok (nodes secret_disk)) by (apply tree_ok_list; vm_compute; reflexivity).
  destruct (secrets_confined parse_sample "/map" "/secrets" false secret_disk Ht) as (r & fs' & Hrun & Hn & Hr).
  assert (E : r = Ok [(("TOKEN" : str), ("hunter2" : str))]) by (vm_compute in Hrun; by injection Hrun as <- _).
  exists fs'. split; [by rewrite <- E|]. split; [done|]. rewrite E in Hr. destruct Hr as (bytes & mappings & root & Hp & Hroot & _ & Hall).
  vm_compute in Hroot. injection Hroot as <-. unfold parse_sample in Hp. case_bool_decide; [|done]. injection Hp as <-.
  apply Forall2_cons in Hall as [(_ & _ & _ & Hf) _]. exact Hf.
Defined.

Definition ssh_nodes : list (list str * Node) :=
  [([], node_of Dir); (key_of ["host"], node_of Dir); (key_of ["home"], node_of Dir);
   (key_of ["host"; "config"], node_of (Regular "Host *")); (key_of ["host"; "id_rsa"], node_of (Regular "key"))]%string.
Definition ssh_disk : Fs := mkFs (list_to_map ssh_nodes) [] 0x12 (0, 0)%Z [].
Lemma ssh_config_exact_witness : exists fs', prepare_ssh_config (mkSshSetup "/host" "/home/.ssh") (Some (501, 20)%Z) ssh_disk = Some (Ok tt, fs') /\
  (exists copy, nodes fs' !! key_of ["home"; ".ssh"; "config"]%string = Some copy /\ kind copy = Regular ("Host *" : str) /\ mode copy = 0x180%Z /\
     owner copy = (501, 20)%Z) /\
  nodes fs' !! key_of ["home"; ".ssh"; "id_rsa"]%string = None.
Proof.
  assert (Ht : tree_ok (nodes ssh_disk)) by (apply tree_ok_list; vm_compute; reflexivity).
  assert (Hs : real_path (nodes ssh_disk) "/host" (key_of ["host"]%string)).
  { split; [done| |done]. apply (directory_below _ [] "host" Ht). apply (tree_root _ Ht). }
  assert (Hd : real_path (nodes ssh_disk) "/home/.ssh" (key_of ["home"; ".ssh"]%string)).
  { split; [done| |done]. apply (directory_below _ (key_of ["home"]%string) ".ssh" Ht). exists (node_of Dir). split; [vm_compute; reflexivity|done]. }
  destruct (ssh_config_exact (mkSshSetup "/host" "/home/.ssh") (Some (501, 20)%Z) _ _ ssh_disk eq_refl Ht Hs Hd ltac:(discriminate 1))
    as (r & fs' & Hrun & Hframe & Hdone).
  assert (E : r = Ok tt) by (vm_compute in Hrun; by injection Hrun as <- _). subst r.
  exists fs'. split; [done|]. destruct (Hdone eq_refl) as [_ Hall]. split.
  - rewrite Forall_forall in Hall. specialize (Hall "config" ltac:(by left)). unfold ssh_copied in Hall.
    assert (En : nodes ssh_disk !! (key_of ["host"]%string ++ [("config" : str)]) = Some (node_of (Regular "Host *"))) by (vm_compute; reflexivity).
    rewrite En in Hall. destruct Hall as (content & copy & [= <-] & _ & Hc & Hk & Hm & Ho). exists copy. auto.
  - rewrite Hframe; [vm_compute; reflexivity|discriminate 1|]. intros (f & Hf & E). change (key_of ["home"; ".ssh"; "id_rsa"]%string) with
      (key_of ["home"; ".ssh"]%string ++ [("id_rsa" : str)]) in E. apply app_inj_tail in E as [_ <-].
    revert Hf. apply (bool_decide_unpack (("id_rsa" : str) ∉ SSH_FILES)). vm_compute. reflexivity.
Defined.
End InitFiles.
