(* ===== verification/InitRun.v ===== *)
(** * Running a container's start ([container_init.rs])

    The commands that are started, with their environment and identity; the helper
    services, each awaited before the next; the preparation commands; and the final
    command that replaces the process.  What the kernel answers may depend on
    everything that has happened so far. *)

From S2P Require Export Accounts InitFiles Auth.

Module InitRun.
Import Auth IpAddr Allowlist FileSystem InitSpec Accounts Ownership InitFiles.

(** ** Commands *)

Inductive Stdio := Inherit | Null | Stderr.
(** [std::process::Command]. *)
Record Command := mkCommand {
  cmd_program : str;
  cmd_args : list str;
  cmd_clear : bool;
  cmd_envs : bmap str;
  cmd_dir : option str;
  cmd_identity : option (Z * Z);
  cmd_stdin : Stdio;
  cmd_stdout : Stdio }.
Definition Command_new (program : str) : Command := mkCommand program [] false [] None None Inherit Inherit.
Definition add_args (args : list str) (c : Command) : Command :=
  mkCommand (cmd_program c) (cmd_args c ++ args) (cmd_clear c) (cmd_envs c) (cmd_dir c) (cmd_identity c) (cmd_stdin c) (cmd_stdout c).
(** [env_clear] forgets what was set too. *)
Definition env_clear (c : Command) : Command :=
  mkCommand (cmd_program c) (cmd_args c) true [] (cmd_dir c) (cmd_identity c) (cmd_stdin c) (cmd_stdout c).
Definition set_envs (entries : list (str * str)) (c : Command) : Command :=
  mkCommand (cmd_program c) (cmd_args c) (cmd_clear c) (bextend (cmd_envs c) entries) (cmd_dir c) (cmd_identity c) (cmd_stdin c) (cmd_stdout c).
Definition current_dir (dir : str) (c : Command) : Command :=
  mkCommand (cmd_program c) (cmd_args c) (cmd_clear c) (cmd_envs c) (Some dir) (cmd_identity c) (cmd_stdin c) (cmd_stdout c).
Definition set_stdio (stdin stdout : Stdio) (c : Command) : Command :=
  mkCommand (cmd_program c) (cmd_args c) (cmd_clear c) (cmd_envs c) (cmd_dir c) (cmd_identity c) stdin stdout.
(** The variable of a name in the process that is started. *)
Definition child_variable (inherited : bmap str) (c : Command) (name : str) : option str :=
  match bget name (cmd_envs c) with
  | Some value => Some value
  | None => if cmd_clear c then None else bget name inherited
  end.

Definition secrets_apply (secrets : SecretEnvironment) (c : Command) : Command := set_envs secrets c.
Definition apply_identity (identity : option (Z * Z)) (c : Command) : Command :=
  match identity with
  | Some ids => mkCommand (cmd_program c) (cmd_args c) (cmd_clear c) (cmd_envs c) (cmd_dir c) (Some ids) (cmd_stdin c) (cmd_stdout c)
  | None => c
  end.
(** [spec.uid.zip(spec.gid)]. *)
Definition spec_identity (spec : InitSpec) : option (Z * Z) :=
  match uid spec, gid spec with Some uid, Some gid => Some (uid, gid) | _, _ => None end.
Definition or_else {A} (a b : option A) : option A := match a with Some _ => a | None => b end.
Definition optionally {A} (f : A -> Command -> Command) (a : option A) (c : Command) : Command :=
  match a with Some a => f a c | None => c end.

Definition build_command (spec : InitSpec) (command : CommandSpec) (secrets : SecretEnvironment) : Command :=
  let process := add_args (args command) (Command_new (program command)) in
  let process := if clear_environment spec then env_clear process else process in
  let process := set_envs (env command) (set_envs (spec_env spec) process) in
  let process := secrets_apply secrets process in
  let process := optionally current_dir (or_else (cwd command) (spec_cwd spec)) process in
  apply_identity (spec_identity spec) process.
Definition build_exec_command (spec : InitSpec) (command : ExecSpec) (secrets : SecretEnvironment) : Command :=
  let process := add_args (exec_args command) (Command_new (exec_program command)) in
  let process := if clear_environment spec then env_clear process else process in
  let process := set_envs (exec_env command) (set_envs (spec_env spec) process) in
  let process := secrets_apply secrets process in
  let process := optionally current_dir (or_else (exec_cwd command) (spec_cwd spec)) process in
  apply_identity (spec_identity spec) process.

(** ** Services *)

Inductive ServiceReadiness := Tcp (listen : SocketAddr) | Unix (path : str).
Definition readiness_display (self : ServiceReadiness) : str :=
  match self with Tcp address => to_string address | Unix path => display path end.

Definition HTTP_PROXY_TOKEN_ENV : str := "CODEX_START_HTTP_PROXY_TOKEN".

Definition append_service_limits (limits : ServiceLimits) : Command -> Command :=
  add_args [("--max-connections" : str); dec (max_connections limits); ("--connect-timeout-seconds" : str); dec (connect_timeout_seconds limits);
            ("--handshake-timeout-seconds" : str); dec (handshake_timeout_seconds limits);
            ("--idle-timeout-seconds" : str); dec (idle_timeout_seconds limits)].

Definition http_proxy_service_command (executable : str) (service : HttpProxyServiceSpec) : Command * ServiceReadiness :=
  (append_service_limits (http_limits service)
     (add_args [("http-proxy" : str); ("--listen" : str); to_string (http_listen service); ("--proxy" : str); http_proxy service;
                ("--token-env" : str); HTTP_PROXY_TOKEN_ENV; ("--max-header-bytes" : str); dec (max_header_bytes service)] (Command_new executable)),
   Tcp (http_listen service)).
Definition connect_service_command (executable : str) (service : ConnectServiceSpec) : Command * ServiceReadiness :=
  let command := add_args [("connect-bridge" : str); ("--listen" : str); to_string (connect_listen service); ("--proxy" : str); connect_proxy service;
                           ("--target" : str); connect_target service] (Command_new executable) in
  let command := optionally (fun token_file => add_args [("--token-file" : str); token_file]) (auth_token_file service) command in
  (append_service_limits (connect_limits service) command, Tcp (connect_listen service)).
Definition tcp_forward_service_command (executable : str) (service : TcpForwardServiceSpec) : Command * ServiceReadiness :=
  (add_args [("tcp-forward" : str); ("--listen" : str); to_string (forward_listen service); ("--target" : str); forward_target service;
             ("--max-connections" : str); dec (forward_max_connections service);
             ("--connect-timeout-seconds" : str); dec (forward_connect_timeout_seconds service);
             ("--idle-timeout-seconds" : str); dec (forward_idle_timeout_seconds service)] (Command_new executable),
   Tcp (forward_listen service)).
Definition authenticated_bridge_command (executable subcommand listen remote token_file : str) (proxy proxy_token_file : option str) : Command :=
  let command := add_args [subcommand; ("--listen" : str); listen; ("--remote" : str); remote; ("--token-file" : str); token_file]
                   (Command_new executable) in
  let command := optionally (fun proxy => add_args [("--proxy" : str); proxy]) proxy command in
  optionally (fun token_file => add_args [("--proxy-token-file" : str); token_file]) proxy_token_file command.
Definition tcp_bridge_service_command (executable : str) (service : TcpBridgeServiceSpec) : Command * ServiceReadiness :=
  (append_service_limits (tcp_limits service)
     (authenticated_bridge_command executable "tcp-bridge" (to_string (tcp_listen service)) (tcp_remote service) (tcp_token_file service)
        (tcp_proxy service) (tcp_proxy_auth_token_file service)),
   Tcp (tcp_listen service)).
Definition unix_bridge_service_command (executable : str) (service : UnixBridgeServiceSpec) : Command * ServiceReadiness :=
  (append_service_limits (unix_limits service)
     (authenticated_bridge_command executable "unix-bridge" (unix_listen service) (unix_remote service) (unix_token_file service)
        (unix_proxy service) (unix_proxy_auth_token_file service)),
   Unix (unix_listen service)).
(** The address on which a listener on all addresses is asked for. *)
Definition readiness_address (listen : SocketAddr) : SocketAddr :=
  if negb (ip_is_unspecified (socket_ip listen)) then listen
  else match socket_ip listen with
       | V4 _ => mkSocketAddr (V4 [127; 0; 0; 1]%Z) (socket_port listen)
       | V6 _ => mkSocketAddr (V6 [0; 0; 0; 0; 0; 0; 0; 1]%Z) (socket_port listen)
       end.
Definition oauth_service_command (executable : str) (service : OAuthTargetServiceSpec) : Command * ServiceReadiness :=
  (append_service_limits (oauth_limits service)
     (add_args [("oauth-target" : str); ("--listen" : str); to_string (oauth_listen service); ("--callback" : str); to_string (callback service);
                ("--token-file" : str); oauth_token_file service] (Command_new executable)),
   Tcp (readiness_address (oauth_listen service))).
Definition service_command (executable : str) (service : InitServiceSpec) : Command * ServiceReadiness :=
  match service with
  | HttpProxy service => http_proxy_service_command executable service
  | Connect service => connect_service_command executable service
  | TcpForward service => tcp_forward_service_command executable service
  | TcpBridge service => tcp_bridge_service_command executable service
  | UnixBridge service => unix_bridge_service_command executable service
  | OauthTarget service => oauth_service_command executable service
  end.

(** ** The kernel *)

Inductive Event :=
  | Spawned (c : Command)
  | Slept
  | Ran (c : Command)
  | Killed (pid : nat)
  | Waited (pid : nat)
  | Executed (c : Command).
(** The file system, and what has happened, the latest first.  Children are
    numbered in the order they were spawned. *)
Record World := mkWorld { disk : Fs; events : list Event }.

(** What the kernel answers, and what the other processes do to the files while
    this one waits.  An exit status is its text, [None] a success. *)
Class Kernel := {
  current_exe : result IoError str;
  spawn_answer : World -> Command -> option IoError;
  try_wait_answer : World -> nat -> result IoError (option str);
  address_in_use : World -> SocketAddr -> bool;
  status_answer : World -> Command -> result IoError (option str);
  exec_answer : World -> Command -> option IoError;
  meanwhile : World -> gmap (list str) Node -> gmap (list str) Node }.

Notation MW := (ST World InitError) (only parsing).

Section run.
Context `{Kernel}.

Definition on_fs {A} (m : ST Fs InitError A) : MW A := fun w =>
  match m (disk w) with Some (r, fs) => Some (r, mkWorld fs (events w)) | None => None end.
Definition happens (event : Event) : MW unit := modify (fun w => mkWorld (set_nodes (meanwhile w) (disk w)) (event :: events w)).
Definition is_spawned (event : Event) : bool := match event with Spawned _ => true | _ => false end.
Definition spawned (w : World) : nat := length (List.filter is_spawned (events w)).

Definition spawn (failed : IoError -> InitError) (command : Command) : MW nat :=
  answer ← gets (fun w => spawn_answer w command);
  match answer with
  | Some source => throw (failed source)
  | None => pid ← gets spawned; happens (Spawned command) ;; mret pid
  end.

Record ServiceChild := mkServiceChild { child : nat; readiness : ServiceReadiness }.

Definition is_socket_at (path : str) : MW bool :=
  found ← on_fs (tried (symlink_metadata path));
  mret (match found with Ok metadata => is_socket metadata | Err _ => false end).
(** A socket that can be bound is closed again. *)
Definition tcp_listener_is_bound (address : SocketAddr) : MW bool := gets (fun w => address_in_use w address).
Definition is_ready (readiness : ServiceReadiness) : MW bool :=
  match readiness with
  | Tcp listen => tcp_listener_is_bound listen
  | Unix path => is_socket_at path
  end.

Fixpoint await_turns (turns : nat) (service : ServiceChild) : MW unit :=
  match turns with
  | O => throw (ServiceReadinessTimeout (readiness_display (readiness service)))
  | S turns =>
      status ← gets (fun w => try_wait_answer w (child service));
      status ← lift (map_err ServiceStatus status);
      match status with
      | Some status => throw (ServiceExited (readiness_display (readiness service)) status)
      | None =>
          ready ← is_ready (readiness service);
          if ready : bool then mret tt else happens Slept ;; await_turns turns service
      end
  end.
(** The last child was just pushed. *)
Definition wait_for_service (children : list ServiceChild) : MW unit :=
  match last children with Some service => await_turns 40 service | None => diverge end.

Definition remove_socket (path : str) : MW unit :=
  found ← is_socket_at path;
  if found : bool then on_fs (tried (remove_file path)) ;; mret tt else mret tt.
Fixpoint terminate_services (children : list ServiceChild) : MW unit :=
  match children with
  | [] => mret tt
  | service :: children =>
      happens (Killed (child service)) ;;
      happens (Waited (child service)) ;;
      match readiness service with Unix path => remove_socket path | Tcp _ => mret tt end ;;
      terminate_services children
  end.

(** *** Tokens from the disk *)

Fixpoint octal (digits : nat) (n : Z) : str :=
  match digits with
  | O => []
  | S digits => (if (n <? 8)%Z then [] else octal digits (n / 8)) ++ [ascii_of_nat (Z.to_nat (48 + n mod 8))]
  end.
Definition token_error_text (error : AuthTokenError) : str :=
  match error with
  | Empty => "authentication token is empty"
  | TooLong length maximum => "authentication token is " ++ dec length ++ " bytes; maximum is " ++ dec (Z.of_nat maximum)
  | Auth.Read path source => "failed to read authentication token " ++ display path ++ ": " ++ source
  | NotRegular path => "authentication token " ++ display path ++ " is not a regular file"
  | Auth.InsecurePermissions path mode => "authentication token " ++ display path ++ " has insecure mode " ++ octal 11 mode
  end.
Definition token_failure (error : AuthTokenError) : InitError :=
  InvalidService ("failed to load HTTP proxy authentication token: " ++ token_error_text error).
(** [AuthToken::from_file] with the files as they are; asking for them changes nothing. *)
Definition disk_token (path : str) : ST Fs InitError AuthToken :=
  metadata ← tried (symlink_metadata path);
  content ← tried (read path);
  lift (map_err token_failure
    (@AuthToken_from_file
       {| token_metadata := fun _ => map_err io_text ((fun n => mkFileMetadata (is_regular n) (mode n) (len n)) <$> metadata);
          token_read := fun _ => map_err io_text content |} path)).

(** *** Services, preparation, and the end of the program *)

Definition spawn_failed (readiness : ServiceReadiness) (source : IoError) : InitError := SpawnService (readiness_display readiness) source.
(** The command of a service, the token of the proxy included. *)
Definition prepared_service (spec : InitSpec) (service : InitServiceSpec) (command : Command) : MW Command :=
  let command := set_stdio Null Null command in
  command ← match service with
            | HttpProxy service =>
                token ← on_fs (disk_token (http_auth_token_file service));
                mret (set_envs [(HTTP_PROXY_TOKEN_ENV, token)] command)
            | _ => mret command
            end;
  mret (apply_identity (spec_identity spec) command).
Fixpoint spawn_each (spec : InitSpec) (executable : str) (children : list ServiceChild) (services : list InitServiceSpec) : MW (list ServiceChild) :=
  match services with
  | [] => mret children
  | service :: services =>
      let '(command, readiness) := service_command executable service in
      command ← prepared_service spec service command;
      spawned ← attempt (spawn (spawn_failed readiness) command);
      match spawned with
      | Err error => terminate_services children ;; throw error
      | Ok child =>
          let children := children ++ [mkServiceChild child readiness] in
          waited ← attempt (wait_for_service children);
          match waited with
          | Err error => terminate_services children ;; throw error
          | Ok _ => spawn_each spec executable children services
          end
      end
  end.
Definition spawn_services (spec : InitSpec) : MW (list ServiceChild) :=
  executable ← lift (map_err CurrentExecutable current_exe);
  spawn_each spec executable [] (services spec).

Definition prepare_process (spec : InitSpec) (secrets : SecretEnvironment) (command : CommandSpec) : Command :=
  set_stdio Null Stderr (build_command spec command secrets).
Fixpoint run_prepare (spec : InitSpec) (secrets : SecretEnvironment) (commands : list CommandSpec) : MW unit :=
  match commands with
  | [] => mret tt
  | command :: commands =>
      let process := prepare_process spec secrets command in
      status ← gets (fun w => status_answer w process);
      status ← lift (map_err (SpawnPrepare (program command)) status);
      happens (Ran process) ;;
      match status with Some status => throw (PrepareFailed (program command) status) | None => mret tt end ;;
      run_prepare spec secrets commands
  end.
Definition run_prepare_commands (spec : InitSpec) (secrets : SecretEnvironment) : MW unit := run_prepare spec secrets (prepare spec).

(** [exec]: the error, or the program is another one from here on. *)
Definition exec (command : Command) : MW (option IoError) :=
  answer ← gets (fun w => exec_answer w command);
  match answer with
  | Some source => mret (Some source)
  | None => happens (Executed command) ;; mret None
  end.

Context `{Idna, DirectoryOrder} (parse_secret_map : str -> result str (bmap str)) (process_id : Z).

(** The preparation of the files, and the secrets. *)
Definition prepare_files (spec : InitSpec) : ST Fs InitError SecretEnvironment :=
  lift (validate_spec spec) ;;
  secrets ← match secret_map spec with
            | Some map => load_secret_map parse_secret_map map (secret_root spec) (allow_insecure_secret_permissions spec)
            | None => mret []
            end;
  match account spec, spec_identity spec with
  | Some account, Some (uid, gid) => remap_account process_id account uid gid 0 ;; mret tt
  | _, _ => mret tt
  end ;;
  match spec_identity spec with
  | Some (uid, gid) => prepare_ownership uid gid (ownership_paths spec) ;; mret tt
  | None => mret tt
  end ;;
  match ssh spec with Some ssh => prepare_ssh_config ssh (spec_identity spec) | None => mret tt end ;;
  mret secrets.

(** [Ok] when the final command has replaced the program. *)
Definition run_and_exec (spec : InitSpec) : MW unit :=
  secrets ← on_fs (prepare_files spec);
  services ← spawn_services spec;
  prepared ← attempt (run_prepare_commands spec secrets);
  match prepared with
  | Err error => terminate_services services ;; throw error
  | Ok _ =>
      failed ← exec (build_exec_command spec (command spec) secrets);
      match failed with
      | None => mret tt
      | Some source => terminate_services services ;; throw (Exec (display (exec_program (command spec))) source)
      end
  end.
End run.

(** ** What has happened *)

Section facts.
Context {K : Kernel}.

(** [w'] comes after [w] with [evs], the earliest first. *)
Definition after (evs : list Event) (w w' : World) : Prop := events w' = rev evs ++ events w.
Lemma events_nil w : after [] w w.
Proof. done. Qed.
Lemma events_app evs1 evs2 w1 w2 w3 : after evs1 w1 w2 -> after evs2 w2 w3 -> after (evs1 ++ evs2) w1 w3.
Proof. unfold after. intros -> ->. by rewrite rev_app_distr, app_assoc. Qed.
Lemma happens_after event w : exists w', happens event w = Some (Ok tt, w') /\ after [event] w w'.
Proof. eexists. by split. Qed.
Lemma on_fs_after {A} (m : ST Fs InitError A) w : ends m -> exists r w', on_fs m w = Some (r, w') /\ after [] w w'.
Proof. intros Hm. unfold on_fs. destruct (Hm (disk w)) as [[r fs] ->]. by eexists _, _. Qed.

Lemma spawned_after evs w w' : after evs w w' -> spawned w' = (length (List.filter is_spawned evs) + spawned w)%nat.
Proof. unfold after, spawned. intros ->. by rewrite List.filter_app, length_app, List.filter_rev, length_rev. Qed.

Definition all_waited (w : World) : Prop := forall pid, (pid < spawned w)%nat -> Waited pid ∈ events w.
Definition ending (service : ServiceChild) : list Event := [Killed (child service); Waited (child service)].

Lemma remove_socket_after path w : exists w', remove_socket path w = Some (Ok tt, w') /\ after [] w w'.
Proof.
  unfold remove_socket, is_socket_at. rewrite !run_bind.
  destruct (on_fs_after (tried (symlink_metadata path)) w) as (r & w1 & E1 & H1); [solve_ends|]. rewrite E1.
  assert (Hok : exists found, r = Ok found).
  { unfold on_fs, tried in E1. destruct (symlink_metadata path (disk w)) as [[x fs]|]; [|done]. injection E1 as <- _. by eexists. }
  destruct Hok as [found ->]. st_run. destruct (match found with Ok _ => _ | Err _ => _ end); [|by eexists].
  rewrite run_bind. destruct (on_fs_after (tried (remove_file path)) w1) as (r2 & w2 & E2 & H2); [solve_ends|]. rewrite E2.
  unfold on_fs, tried in E2. destruct (remove_file path (disk w1)) as [[x fs]|]; [|done]. injection E2 as <- <-.
  eexists. split; [reflexivity|]. exact (events_app _ _ _ _ _ H1 H2).
Qed.
Lemma terminate_after children w : exists w', terminate_services children w = Some (Ok tt, w') /\ after (flat_map ending children) w w'.
Proof.
  revert w. induction children as [|service children IH]; intros w; cbn [terminate_services flat_map]; [by eexists|].
  rewrite !run_bind. destruct (happens_after (Killed (child service)) w) as (w1 & -> & H1). cbv beta iota. rewrite run_bind.
  destruct (happens_after (Waited (child service)) w1) as (w2 & -> & H2). cbv beta iota. rewrite run_bind.
  assert (Hs : exists w3, match readiness service with Unix path => remove_socket path | Tcp _ => mret tt end w2 = Some (Ok tt, w3) /\ after [] w2 w3).
  { destruct (readiness service); [by eexists|apply remove_socket_after]. }
  destruct Hs as (w3 & -> & H3). cbv beta iota. destruct (IH w3) as (w4 & -> & H4). eexists. split; [reflexivity|].
  exact (events_app _ _ _ _ _ (events_app _ _ _ _ _ H1 H2) (events_app _ _ _ _ _ H3 H4)).
Qed.

Lemma await_after turns service w : exists r w' naps, await_turns turns service w = Some (r, w') /\ after (replicate naps Slept) w w' /\
  (r = Ok tt -> (naps < turns)%nat).
Proof.
  revert w. induction turns as [|turns IH]; intros w; cbn [await_turns]; [by exists (Err (ServiceReadinessTimeout (readiness_display (readiness service)))), w, 0%nat|].
  rewrite !run_bind. cbn [gets]. st_run. destruct (try_wait_answer w (child service)) as [status|e]; cbn [map_err];
    [|by eexists _, w, 0%nat; split]. destruct status as [status|]; [by eexists _, w, 0%nat; split|].
  rewrite run_bind.
  assert (Hr : exists b w1, is_ready (readiness service) w = Some (Ok b, w1) /\ after [] w w1).
  { destruct (readiness service) as [listen|path]; [by eexists _, w|]. unfold is_ready, is_socket_at. rewrite run_bind.
    destruct (on_fs_after (tried (symlink_metadata path)) w) as (r & w1 & E1 & H1); [solve_ends|]. rewrite E1.
    unfold on_fs, tried in E1. destruct (symlink_metadata path (disk w)) as [[x fs]|]; [|done]. injection E1 as <- <-. by eexists _, _. }
  destruct Hr as (b & w1 & -> & H1). destruct b; [exists (Ok tt), w1, 0%nat; split; [done|split; [done|lia]]|].
  rewrite run_bind. destruct (happens_after Slept w1) as (w2 & -> & H2). cbv beta iota.
  destruct (IH w2) as (r & w3 & naps & -> & H3 & Hn). exists r, w3, (S naps). split; [done|]. split; [|intros Hr; specialize (Hn Hr); lia].
  exact (events_app _ _ _ _ _ H1 (events_app _ _ _ _ _ H2 H3)).
Qed.

(** ** Services in order *)

Context (spec : InitSpec) (executable : str).
(** The command a service is started with. *)
Definition started_as (service : InitServiceSpec) (c : Command) : Prop :=
  let plain := set_stdio Null Null (service_command executable service).1 in
  c = apply_identity (spec_identity spec) plain \/
  exists token, c = apply_identity (spec_identity spec) (set_envs [(HTTP_PROXY_TOKEN_ENV, token)] plain) /\
    exists proxy, service = HttpProxy proxy.
Definition token_failed (e : InitError) : Prop := exists error, e = token_failure error.
Lemma prepared_service_after service w : exists r w', prepared_service spec service (service_command executable service).1 w = Some (r, w') /\ after [] w w' /\
  match r with Ok c => started_as service c | Err e => token_failed e end.
Proof.
  unfold prepared_service, started_as. rewrite run_bind. destruct service as [proxy|c|c|c|c|c].
  2-6: eexists _, w; split; [reflexivity|]; by split; [|left].
  rewrite run_bind. destruct (on_fs_after (disk_token (http_auth_token_file proxy)) w) as (r & w1 & E & H1); [unfold disk_token; solve_ends|]. rewrite E.
  destruct r as [token|e]; [|eexists _, w1; split; [reflexivity|]; split; [done|]].
  - eexists _, w1. split; [reflexivity|]. split; [done|]. right. eauto.
  - unfold on_fs, disk_token in E. rewrite run_bind in E. unfold tried at 1 in E. destruct (symlink_metadata _ (disk w)) as [[x fs]|]; [|done].
    rewrite run_bind in E. unfold tried at 1 in E. destruct (read _ fs) as [[y fs2]|]; [|done]. rewrite run_lift in E.
    injection E as E _. destruct (AuthToken_from_file _) as [t|error]; [done|]. injection E as <-. by exists error.
Qed.

Lemma spawn_after failed command w : exists r w', attempt (E := InitError) (spawn failed command) w = Some (Ok r, w') /\
  match r with Ok pid => after [Spawned command] w w' /\ pid = spawned w | Err _ => after [] w w' end.
Proof.
  unfold attempt, spawn. rewrite run_bind. cbn [gets]. unfold gets at 1. destruct (spawn_answer w command); [by eexists _, _|].
  rewrite run_bind. unfold gets. rewrite run_bind. destruct (happens_after (Spawned command) w) as (w1 & -> & H1). by eexists _, _.
Qed.
Lemma last_waited children service w : exists r w' naps, attempt (E := InitError) (wait_for_service (children ++ [service])) w = Some (Ok r, w') /\
  after (replicate naps Slept) w w' /\ (r = Ok tt -> (naps < 40)%nat).
Proof.
  unfold attempt, wait_for_service. rewrite last_snoc. destruct (await_after 40 service w) as (r & w' & naps & -> & Hn). by eexists _, _, _.
Qed.

(** One service after the other, with the naps until it was ready. *)
Definition start_events (cks : list (Command * nat)) : list Event := flat_map (fun ck => Spawned ck.1 :: replicate ck.2 Slept) cks.
Definition started (services : list InitServiceSpec) (cks : list (Command * nat)) : Prop :=
  Forall2 (fun service ck => started_as service ck.1 /\ (ck.2 < 40)%nat) services cks.
(** A start that is cut short: no command but services of the specification. *)
Definition only_services (services : list InitServiceSpec) (event : Event) : Prop :=
  match event with
  | Spawned c => exists service, service ∈ services /\ started_as service c
  | Slept | Killed _ | Waited _ => True
  | Ran _ | Executed _ => False
  end.
Lemma only_services_mono services services' event : (forall service, service ∈ services -> service ∈ services') ->
  only_services services event -> only_services services' event.
Proof. intros Hs. destruct event; cbn; naive_solver. Qed.
Lemma only_naps services naps : Forall (only_services services) (replicate naps Slept).
Proof. by apply Forall_replicate. Qed.
Lemma only_ending services children : Forall (only_services services) (flat_map ending children).
Proof. induction children as [|c children IH]; cbn; repeat constructor. done. Qed.

Lemma naps_spawned naps w w' : after (replicate naps Slept) w w' -> spawned w' = spawned w.
Proof. intros ->%spawned_after. induction naps; done. Qed.
Lemma ending_spawned children w w' : after (flat_map ending children) w w' -> spawned w' = spawned w.
Proof. intros ->%spawned_after. induction children; done. Qed.
(** Ending all children that were ever spawned waits for all of them. *)
Lemma ending_all children w w' : map child children = seq 0 (spawned w) -> after (flat_map ending children) w w' -> all_waited w'.
Proof.
  intros Hc H pid Hp. rewrite (ending_spawned _ _ _ H) in Hp. unfold after in H. rewrite H. apply elem_of_app. left.
  apply list_elem_of_In. rewrite <- in_rev. assert (Hin : pid ∈ map child children) by (rewrite Hc; apply elem_of_seq; lia).
  apply list_elem_of_fmap in Hin as (service & -> & Hin). apply in_flat_map. exists service. split; [by apply list_elem_of_In|]. right. by left.
Qed.

Lemma pushed_child children readiness w w' c : map child children = seq 0 (spawned w) -> after [Spawned c] w w' ->
  map child (children ++ [mkServiceChild (spawned w) readiness]) = seq 0 (spawned w').
Proof.
  intros Hc H. rewrite (spawned_after _ _ _ H). cbn [List.filter is_spawned length Nat.add]. rewrite map_app, Hc, seq_S. done.
Qed.
Lemma spawn_each_after services children w : map child children = seq 0 (spawned w) ->
  exists r w', spawn_each spec executable children services w = Some (r, w') /\
    match r with
    | Ok children' => exists cks, started services cks /\ after (start_events cks) w w' /\ map child children' = seq 0 (spawned w')
    | Err e => exists evs, after evs w w' /\ Forall (only_services services) evs /\ (token_failed e \/ all_waited w')
    end.
Proof.
  revert children w. induction services as [|service services IH]; intros children w Hc; cbn [spawn_each].
  { exists (Ok children), w. split; [done|]. exists []. by split; [constructor|]. }
  destruct (service_command executable service) as [command ready] eqn:Ecmd. rewrite run_bind.
  destruct (prepared_service_after service w) as (r0 & w0 & E0 & H0 & Hp). rewrite Ecmd in E0. cbn [fst] in E0. rewrite E0.
  destruct r0 as [c|e]; [|exists (Err e), w0; split; [done|]; exists []; by split; [|split; [constructor|left]]].
  pose proof (spawned_after _ _ _ H0) as Hs0. cbn in Hs0. rewrite run_bind.
  assert (Hin : service ∈ service :: services) by by left.
  destruct (spawn_after (spawn_failed ready) c w0) as (r1 & w1 & -> & H1). destruct r1 as [pid|e].
  2:{ rewrite run_bind. destruct (terminate_after children w1) as (w2 & -> & H2). exists (Err e), w2. split; [done|].
      pose proof (events_app _ _ _ _ _ H0 (events_app _ _ _ _ _ H1 H2)) as H. exists (flat_map ending children). split; [exact H|].
      split; [apply only_ending|right]. eapply ending_all; [|exact H2]. rewrite Hc. f_equal. rewrite (spawned_after _ _ _ H1). cbn. congruence. }
  destruct H1 as [H1 ->]. assert (Hc1 : map child (children ++ [mkServiceChild (spawned w0) ready]) = seq 0 (spawned w1)).
  { eapply pushed_child; [|done]. by rewrite Hs0. }
  rewrite run_bind. destruct (last_waited children (mkServiceChild (spawned w0) ready) w1) as (r2 & w2 & naps & -> & H2 & Hn).
  pose proof (naps_spawned _ _ _ H2) as Hs2. pose proof (events_app _ _ _ _ _ H0 (events_app _ _ _ _ _ H1 H2)) as H012. cbn [app] in H012.
  assert (Hstart : Forall (only_services (service :: services)) (Spawned c :: replicate naps Slept)) by (constructor; [by exists service|apply only_naps]).
  destruct r2 as [[]|e].
  2:{ rewrite run_bind. destruct (terminate_after (children ++ [mkServiceChild (spawned w0) ready]) w2) as (w3 & -> & H3). exists (Err e), w3.
      split; [done|]. eexists. split; [exact (events_app _ _ _ _ _ H012 H3)|]. split; [apply Forall_app; split; [done|apply only_ending]|right].
      eapply ending_all; [|exact H3]. by rewrite Hs2. }
  destruct (IH (children ++ [mkServiceChild (spawned w0) ready]) w2) as (r3 & w3 & -> & H3); [by rewrite Hs2|].
  exists r3, w3. split; [done|]. destruct r3 as [children'|e].
  - destruct H3 as (cks & Hst & H3 & Hc3). exists ((c, naps) :: cks). split; [constructor; [split; [done|by apply Hn]|done]|].
    split; [exact (events_app _ _ _ _ _ H012 H3)|done].
  - destruct H3 as (evs & H3 & Honly & Hend). eexists. split; [exact (events_app _ _ _ _ _ H012 H3)|]. split; [|done].
    apply Forall_app. split; [done|]. eapply Forall_impl; [done|]. intros event. apply only_services_mono. by right.
Qed.

(** ** Preparation in order *)

Lemma run_prepare_after secrets commands w : exists r w' n, run_prepare spec secrets commands w = Some (r, w') /\
  after (map (fun command => Ran (prepare_process spec secrets command)) (take n commands)) w w' /\
  (r = Ok tt -> n = length commands).
Proof.
  revert w. induction commands as [|command commands IH]; intros w; cbn [run_prepare]; [by exists (Ok tt), w, 0%nat|].
  rewrite run_bind. unfold gets. rewrite run_bind, run_lift. destruct (status_answer w _) as [status|e]; cbn [map_err]; [|by eexists _, w, 0%nat].
  rewrite run_bind. destruct (happens_after (Ran (prepare_process spec secrets command)) w) as (w1 & -> & H1). cbv beta iota.
  destruct status as [status|]; rewrite run_bind; [by exists (Err (PrepareFailed (program command) status)), w1, 1%nat|].
  st_run. destruct (IH w1) as (r & w2 & n & -> & H2 & Hn). exists r, w2, (S n). split; [done|].
  split; [exact (events_app _ _ _ _ _ H1 H2)|]. intros Hr. cbn. by rewrite (Hn Hr).
Qed.
Lemma ran_spawned secrets commands w w' : after (map (fun command => Ran (prepare_process spec secrets command)) commands) w w' ->
  spawned w' = spawned w.
Proof. intros ->%spawned_after. induction commands; done. Qed.
End facts.

(** ** The whole start *)

Section start.
Context {K : Kernel} {I : Idna} {O : DirectoryOrder} (parse_secret_map : str -> result str (bmap str)) (process_id : Z).

Lemma prepare_files_ends spec : ends (prepare_files parse_secret_map process_id spec).
Proof.
  unfold prepare_files.
  repeat (ends_step || apply load_secret_map_ends || apply remap_account_ends || apply prepare_ownership_ends || apply prepare_ssh_config_ends).
Qed.
Definition prepare_events (spec : InitSpec) (secrets : SecretEnvironment) : list Event :=
  map (fun command => Ran (prepare_process spec secrets command)) (prepare spec).
Definition not_executed (event : Event) : bool := match event with Executed _ => false | _ => true end.
Lemma only_not_executed services spec executable evs : Forall (only_services spec executable services) evs -> Forall not_executed evs.
Proof. intros H. eapply Forall_impl; [done|]. intros []; done. Qed.
Lemma start_not_executed cks : Forall not_executed (start_events cks).
Proof. induction cks as [|[c n] cks IH]; cbn; [constructor|]. constructor; [done|]. apply Forall_app. split; [by apply Forall_replicate|done]. Qed.
Lemma ran_not_executed spec secrets commands : Forall not_executed (map (fun command => Ran (prepare_process spec secrets command)) commands).
Proof. apply Forall_fmap, Forall_true. by intros. Qed.
Lemma ending_not_executed children : Forall not_executed (flat_map ending children).
Proof. induction children as [|c children IH]; cbn; repeat constructor. done. Qed.
Lemma not_executed_events evs w' c : events w' = rev evs -> Forall not_executed evs -> Executed c ∉ events w'.
Proof. intros -> H Hin. rewrite list_elem_of_In, <- in_rev, <- list_elem_of_In in Hin. rewrite Forall_forall in H. by apply H in Hin. Qed.

End start.

(** ** Privileges and environments *)

Section privileges.
Context {K : Kernel} {I : Idna} {O : DirectoryOrder} (parse_secret_map : str -> result str (bmap str)) (process_id : Z).

(** What may be started. *)
Definition privileged_right (spec : InitSpec) (event : Event) : Prop :=
  match event with
  | Spawned c => cmd_identity c = spec_identity spec /\ cmd_stdin c = Null /\ cmd_stdout c = Null /\
      forall name value, (name, value) ∈ cmd_envs c -> name = HTTP_PROXY_TOKEN_ENV
  | Ran c => cmd_identity c = spec_identity spec /\ cmd_stdin c = Null /\ cmd_stdout c = Stderr
  | Executed c => cmd_identity c = spec_identity spec
  | _ => True
  end.
Lemma apply_identity_fields ids c : cmd_identity (apply_identity ids c) = or_else ids (cmd_identity c) /\
  cmd_stdin (apply_identity ids c) = cmd_stdin c /\ cmd_stdout (apply_identity ids c) = cmd_stdout c /\ cmd_envs (apply_identity ids c) = cmd_envs c.
Proof. by destruct ids. Qed.
(** A service's command has no identity and no variables of its own. *)
Lemma service_plain executable service : cmd_identity (service_command executable service).1 = None /\
  cmd_envs (service_command executable service).1 = [].
Proof.
  destruct service as [s|s|s|s|s|s]; cbn; try done.
  - by destruct (auth_token_file s).
  - unfold authenticated_bridge_command. by destruct (tcp_proxy s), (tcp_proxy_auth_token_file s).
  - unfold authenticated_bridge_command. by destruct (unix_proxy s), (unix_proxy_auth_token_file s).
Qed.
Lemma started_right spec executable service c : started_as spec executable service c -> privileged_right spec (Spawned c).
Proof.
  destruct (service_plain executable service) as [Hi He]. unfold started_as.
  intros [-> |(token & -> & _)]; cbn [privileged_right]; match goal with |- context [apply_identity ?ids ?c] => destruct (apply_identity_fields ids c) as (-> & -> & -> & ->) end;
    cbn [set_stdio set_envs cmd_identity cmd_stdin cmd_stdout cmd_envs]; rewrite Hi, He;
    (split; [by destruct (spec_identity spec)|split; [done|split; [done|]]]).
  - intros name value Hin. by apply not_elem_of_nil in Hin.
  - cbn. intros name value [[= -> _]|Hin]%elem_of_cons; [done|by apply not_elem_of_nil in Hin].
Qed.
Lemma identity_optionally {A} (f : A -> Command -> Command) a c : (forall x c, cmd_identity (f x c) = cmd_identity c) ->
  cmd_identity (optionally f a c) = cmd_identity c.
Proof. destruct a; [|done]. intros H. apply H. Qed.
Lemma build_identity spec command secrets : cmd_identity (build_command spec command secrets) = spec_identity spec.
Proof.
  unfold build_command. destruct (apply_identity_fields (spec_identity spec)
    (optionally current_dir (or_else (cwd command) (spec_cwd spec)) (secrets_apply secrets (set_envs (env command) (set_envs (spec_env spec)
      (if clear_environment spec then env_clear (add_args (args command) (Command_new (program command))) else add_args (args command) (Command_new (program command)))))))) as (-> & _).
  rewrite identity_optionally by done. destruct (spec_identity spec), (clear_environment spec); done.
Qed.
Lemma build_exec_identity spec command secrets : cmd_identity (build_exec_command spec command secrets) = spec_identity spec.
Proof.
  exact (build_identity spec (mkCommandSpec (exec_program command) (exec_args command) (exec_env command) (exec_cwd command)) secrets).
Qed.

Definition adds_right (spec : InitSpec) (w w' : World) : Prop := exists evs, events w' = evs ++ events w /\ Forall (privileged_right spec) evs.
Instance adds_right_preorder spec : PreOrder (adds_right spec).
Proof.
  split; [intros w; by exists []|]. intros w1 w2 w3 (evs1 & E1 & H1) (evs2 & E2 & H2). exists (evs2 ++ evs1).
  rewrite E2, E1, app_assoc. split; [done|]. by apply Forall_app.
Qed.
Lemma happens_right spec event : privileged_right spec event -> rel_m (adds_right spec) (happens event).
Proof. intros He w r w' [= _ <-]. exists [event]. split; [done|by constructor]. Qed.
Lemma on_fs_right spec {A} (m : ST Fs InitError A) : rel_m (adds_right spec) (on_fs m).
Proof. intros w r w'. unfold on_fs. destruct (m (disk w)) as [[x fs]|]; [|done]. intros [= _ <-]. by exists []. Qed.
Lemma spawn_right spec failed c : privileged_right spec (Spawned c) -> rel_m (adds_right spec) (spawn failed c).
Proof. intros Hc. unfold spawn. st_rel. by apply happens_right. Qed.
Lemma remove_socket_right spec path : rel_m (adds_right spec) (remove_socket path).
Proof. unfold remove_socket, is_socket_at. st_rel; apply on_fs_right. Qed.
Lemma terminate_right spec children : rel_m (adds_right spec) (terminate_services children).
Proof.
  induction children as [|service children IH]; cbn [terminate_services]; st_rel; try done; try (by apply happens_right); apply remove_socket_right.
Qed.
Lemma await_right spec turns service : rel_m (adds_right spec) (await_turns turns service).
Proof.
  induction turns as [|turns IH]; cbn [await_turns]; unfold is_ready, is_socket_at, tcp_listener_is_bound; st_rel; try done; try (by apply happens_right); apply on_fs_right.
Qed.
Lemma spawn_each_right spec executable children services : rel_m (adds_right spec) (spawn_each spec executable children services).
Proof.
  revert children. induction services as [|service services IH]; intros children; cbn [spawn_each]; [st_rel|].
  destruct (service_command executable service) as [command ready] eqn:Ecmd. intros w r w' Hrun. apply bind_run in Hrun as (r0 & w0 & H0 & Hrun).
  destruct (prepared_service_after spec executable service w) as (r1 & w1 & E1 & H1 & Hp). rewrite Ecmd in E1. cbn [fst] in E1. rewrite E1 in H0.
  injection H0 as <- <-. etrans; [exists []; by split|]. destruct r1 as [c|e]; [|destruct Hrun as [-> ->]; reflexivity].
  apply started_right in Hp. revert Hrun. generalize w1 r w'. clear -IH Hp K. match goal with |- forall w1 r w', ?m w1 = _ -> _ => change (rel_m (adds_right spec) m) end.
  st_rel; try apply terminate_right; try apply IH; [by apply spawn_right|]. unfold wait_for_service. destruct (last _); [apply await_right|].
  intros w1 r w' [=].
Qed.
Lemma run_prepare_right spec secrets commands : rel_m (adds_right spec) (run_prepare spec secrets commands).
Proof.
  induction commands as [|command commands IH]; cbn [run_prepare]; st_rel; try done. apply happens_right. cbn. by rewrite build_identity.
Qed.

End privileges.

Lemma bget_reverse {V} k (es : bmap V) : NoDup (bkeys es) -> bget k (reverse es) = bget k es.
Proof.
  intros Hn. assert (Hr : NoDup (bkeys (reverse es))) by (unfold bkeys; change (map fst (reverse es)) with (fst <$> reverse es); rewrite fmap_reverse; by rewrite reverse_Permutation).
  apply option_eq. intros v. by rewrite <- !elem_of_bget, elem_of_reverse.
Qed.
Lemma set_envs_variable entries c name : NoDup (bkeys entries) -> bget name (cmd_envs (set_envs entries c)) = or_else (bget name entries) (bget name (cmd_envs c)).
Proof. intros Hn. cbn. rewrite bget_bextend, bget_reverse by done. by destruct (bget name entries). Qed.

(** Secrets have the last word.  In the process of a preparation command (and the
    final command is built the same way) a variable is the secret of its name; if
    there is none, the command's own; then the specification's; and only then, when
    the environment is not cleared, the one init was started with. *)
Theorem command_environment spec (command : CommandSpec) secrets inherited name :
  NoDup (bkeys secrets) -> bsorted (env command) -> bsorted (spec_env spec) ->
  let process := build_command spec command secrets in
  let final := build_exec_command spec (mkExecSpec (program command) (args command) (env command) (cwd command)) secrets in
  child_variable inherited process name =
    or_else (bget name secrets) (or_else (bget name (env command)) (or_else (bget name (spec_env spec))
      (if clear_environment spec then None else bget name inherited))) /\
  process = final /\ cmd_args process = args command /\ cmd_program process = program command /\
  cmd_dir process = or_else (cwd command) (spec_cwd spec).
Proof.
  intros Hs He%bsorted_NoDup Hg%bsorted_NoDup. cbv zeta. split; [|split; [done|]].
  - unfold child_variable, build_command. destruct (apply_identity_fields (spec_identity spec)
      (optionally current_dir (or_else (cwd command) (spec_cwd spec)) (secrets_apply secrets (set_envs (env command) (set_envs (spec_env spec)
      (if clear_environment spec then env_clear (add_args (args command) (Command_new (program command))) else add_args (args command) (Command_new (program command)))))))) as (_ & _ & _ & ->).
    assert (Hc : forall c, cmd_clear (apply_identity (spec_identity spec) c) = cmd_clear c) by by destruct (spec_identity spec).
    rewrite Hc. assert (Hd : forall d c, cmd_envs (optionally current_dir d c) = cmd_envs c /\ cmd_clear (optionally current_dir d c) = cmd_clear c) by by intros [].
    destruct (Hd (or_else (cwd command) (spec_cwd spec)) (secrets_apply secrets (set_envs (env command) (set_envs (spec_env spec)
      (if clear_environment spec then env_clear (add_args (args command) (Command_new (program command))) else add_args (args command) (Command_new (program command))))))) as [-> ->].
    unfold secrets_apply. rewrite !set_envs_variable by done.
    destruct (bget name secrets), (bget name (env command)), (bget name (spec_env spec)), (clear_environment spec); done.
  - unfold build_command. destruct (spec_identity spec), (or_else (cwd command) (spec_cwd spec)), (clear_environment spec); done.
Qed.

(** ** Runs *)

(** A kernel on which everything works, and what is started is ready at once. *)
Definition willing : Kernel := {|
  current_exe := Ok ("/init" : str); spawn_answer _ _ := None; try_wait_answer _ _ := Ok None; address_in_use _ _ := true;
  status_answer _ _ := Ok None; exec_answer _ _ := None; meanwhile _ tree := tree |}.
Definition sample_forward : InitServiceSpec :=
  TcpForward (mkTcpForwardServiceSpec (mkSocketAddr (V4 [127; 0; 0; 1]%Z) 8080) "10.0.0.2:80" 4 5 6).
Definition sample_proxy : InitServiceSpec :=
  HttpProxy (mkHttpProxyServiceSpec (mkSocketAddr (V4 [127; 0; 0; 1]%Z) 3128) "10.0.0.2:3128" "/run/codex-start/secrets/token"
               (mkServiceLimits 4 5 6 7) 65536).
Definition sample_prepare : CommandSpec := mkCommandSpec "setup" (strs ["--now"]) [("A" : str, "1" : str)] None.
Definition sample_spec (services : list InitServiceSpec) : InitSpec :=
  mkInitSpec 1 None None None (Some ("/work" : str)) true [("A" : str, "0" : str); ("B" : str, "2" : str)] None default_secret_root false [] None
    [sample_prepare] services (mkExecSpec "codex" [] [] None).
Definition empty_world : World := mkWorld (mkFs ∅ [] 0x12 (0, 0)%Z []) [].
Definition no_map (bytes : str) : result str (bmap str) := Ok [].



Lemma command_environment_witness :
  child_variable [("PATH" : str, "/bin" : str)] (build_command (sample_spec []) sample_prepare [("B" : str, "secret" : str)]) "B" = Some ("secret" : str) /\
  child_variable [("PATH" : str, "/bin" : str)] (build_command (sample_spec []) sample_prepare [("B" : str, "secret" : str)]) "PATH" = None.
Proof.
  assert (Hn : NoDup (bkeys [("B" : str, "secret" : str)])) by apply NoDup_singleton.
  assert (He : bsorted (env sample_prepare)) by (repeat constructor).
  assert (Hg : bsorted (spec_env (sample_spec []))) by (repeat constructor).
  split; [rewrite (proj1 (command_environment (sample_spec []) sample_prepare _ _ "B" Hn He Hg))
         |rewrite (proj1 (command_environment (sample_spec []) sample_prepare _ _ "PATH" Hn He Hg))]; reflexivity.
Defined.

(** A second service whose token cannot be loaded: the first is left running. *)
Example token_failure_leaves_services : exists w',
  @run_and_exec willing plain_idna listed_order no_map 7 (sample_spec [sample_forward; sample_proxy]) empty_world =
    Some (Err (token_failure (Auth.Read "/run/codex-start/secrets/token" "No such file or directory (os error 2)")), w') /\
  map (fun event => match event with Spawned c => cmd_args c !! 0%nat | _ => None end) (events w') = [Some ("tcp-forward" : str)].
Proof. eexists. split; [vm_compute; reflexivity|reflexivity]. Qed.
End InitRun.
