(* ===== verification/HostPaths.v ===== *)
(** * Application paths and private files ([codex-start-host/src/paths.rs])

    The directories of the application, and the helpers that make files and
    directories that only the user can read, on a Unix host.  Temporary files are
    those of the [tempfile] crate, an interface. *)

From S2P Require Export FileSystem HostError ContainerPath Project.

(** [NamedTempFile]: made in a directory, renamed to its place, or dropped. *)
Class TempFiles := {
  temp_new_in : str -> ST FileSystem.Fs FileSystem.IoError str;
  temp_write : str -> str -> ST FileSystem.Fs FileSystem.IoError unit;
  temp_persist : str -> str -> ST FileSystem.Fs FileSystem.IoError unit;
  temp_drop : str -> ST FileSystem.Fs FileSystem.IoError unit }.
(** The [Debug] form of a string. *)
Class DebugStr := debug_str : str -> str.
(** [std::env::var_os]. *)
Class EnvironmentVariables := var_os : str -> option str.

Module HostPaths.
Import FileSystem HostError.

Record AppPaths := mkAppPaths { config : str; data : str; cache : str }.
Notation M := (ST Fs HostError) (only parsing).

(** [HostError::io]. *)
Definition io (path : str) (source : IoError) : HostError := Io path (io_text source).
Definition with_path {A} (path : str) (m : ST Fs IoError A) : M A := map_error (io path) m.

(** ** Files and directories *)

(** [Path::is_dir]. *)
Definition path_is_dir (path : str) : ST Fs IoError bool :=
  found ← tried (E := IoError) (metadata path);
  mret match found with Ok node => is_dir node | Err _ => false end.
Definition unless_dir (path : str) (error : IoError) : ST Fs IoError unit :=
  there ← path_is_dir path; if (there : bool) then mret tt else throw error.
(** [std::fs::create_dir_all], from a path of at most [depth] components. *)
Fixpoint create_dir_all_from (depth : nat) (path : str) : ST Fs IoError unit :=
  if negb (nonempty path) then mret tt
  else
    first ← tried (F := IoError) (create_dir path);
    match first with
    | Ok _ => mret tt
    | Err FileSystem.NotFound =>
        match depth, path_parent path with
        | S depth, Some parent =>
            create_dir_all_from depth parent ;;
            again ← tried (F := IoError) (create_dir path);
            match again with
            | Ok _ => mret tt
            | Err error => unless_dir path error
            end
        | _, _ => throw (OtherError "failed to create whole tree")
        end
    | Err error => unless_dir path error
    end.
Definition create_dir_all (path : str) : ST Fs IoError unit := create_dir_all_from (length (components path)) path.

(** The octal 700 and 600. *)
Definition create_private_dir (path : str) : M unit :=
  found ← tried (symlink_metadata path);
  lift match found with
       | Ok metadata => err_if (is_link metadata || negb (is_dir metadata))
                          (UnsafePath path "expected a directory that is not a symbolic link")
       | Err FileSystem.NotFound => Ok tt
       | Err source => Err (io path source)
       end ;;
  with_path path (create_dir_all path) ;;
  metadata ← with_path path (symlink_metadata path);
  throw_if (is_link metadata || negb (is_dir metadata)) (UnsafePath path "directory creation resolved to an unsafe file type") ;;
  with_path path (set_permissions path 0x1c0).
Definition set_private_file (path : str) : M unit :=
  metadata ← with_path path (symlink_metadata path);
  throw_if (is_link metadata || negb (is_regular metadata))
    (UnsafePath path "expected a regular file that is not a symbolic link") ;;
  with_path path (set_permissions path 0x180).
Definition ensure_regular_file_or_missing (path : str) : M bool :=
  found ← tried (symlink_metadata path);
  lift match found with
       | Ok metadata =>
           if is_link metadata || negb (is_regular metadata)
           then Err (UnsafePath path "expected a regular file that is not a symbolic link") else Ok true
       | Err FileSystem.NotFound => Ok false
       | Err source => Err (io path source)
       end.
(** The temporary file goes when it has not reached its place. *)
Definition atomic_write `{TempFiles} (path contents : str) : M unit :=
  parent ← lift (ok_or (path_parent path) (UnsafePath path "file has no parent directory"));
  create_private_dir parent ;;
  ensure_regular_file_or_missing path ;;
  temporary ← with_path parent (temp_new_in parent);
  written ← tried (with_path temporary (temp_write temporary contents) ;;
                   with_path temporary sync_all ;;
                   set_private_file temporary ;;
                   with_path path (temp_persist temporary path));
  match written with
  | Ok _ => mret tt
  | Err error => tried (temp_drop temporary) ;; throw error
  end.

(** ** The directories of the application *)

(** [AppPaths::discover] on Unix. *)
Definition discover `{EnvironmentVariables} : result HostError AppPaths :=
  home ← ok_or (var_os "HOME") (Config "HOME is not set");
  let root (variable fallback : str) := path_join (default (path_join home fallback) (var_os variable)) "codex-start" in
  Ok (mkAppPaths (root "XDG_CONFIG_HOME" ".config") (root "XDG_DATA_HOME" ".local/share") (root "XDG_CACHE_HOME" ".cache")).
Definition config_file (self : AppPaths) : str := path_join (config self) "config.toml".
Definition environments_dir (self : AppPaths) : str := path_join (config self) "environments".
Definition projects_dir (self : AppPaths) : str := path_join (config self) "projects".
Definition homes_dir (self : AppPaths) : str := path_join (data self) "homes".
Definition worktrees_dir (self : AppPaths) : str := path_join (data self) "worktrees".
Definition sessions_dir (self : AppPaths) : str := path_join (data self) "sessions".
Definition runtime_dir (self : AppPaths) : str := path_join (cache self) "runtime".
Definition non_git_project_file `{Blake3} (self : AppPaths) (canonical_root : str) : str :=
  path_join (projects_dir self) (Project.canonical_path_hash canonical_root ++ ".toml").
Fixpoint each_private (paths : list str) : M unit :=
  match paths with [] => mret tt | path :: paths => create_private_dir path ;; each_private paths end.
Definition ensure (self : AppPaths) : M unit :=
  each_private [config self; data self; cache self] ;;
  each_private [environments_dir self; projects_dir self; homes_dir self; worktrees_dir self; sessions_dir self; runtime_dir self].

(** *** Container paths of the host *)

Definition ContainerPathError_to_string (error : ContainerPath.ContainerPathError) : str :=
  match error with
  | ContainerPath.NotUnicode => "container path is not Unicode"
  | ContainerPath.NotAbsolute => "container path must start with `/`"
  | ContainerPath.Nul => "container path contains a NUL byte"
  | ContainerPath.Backslash => "container path contains a host-style backslash"
  | ContainerPath.Traversal => "container path contains `.` or `..` traversal"
  | ContainerPath.NotNormalized => "container path contains repeated or trailing separators"
  | ContainerPath.InvalidComponent => "container path component is empty, absolute, or contains a separator"
  end.
Definition container_path_error (path : str) (error : ContainerPath.ContainerPathError) : HostError :=
  Config ("invalid container path " ++ from_utf8_lossy path ++ ": " ++ ContainerPathError_to_string error).
Definition container_path (path : str) : result HostError ContainerPath.ContainerPath :=
  map_err (container_path_error path) (ContainerPath.new path).

Fixpoint join_each `{DebugStr} (path : ContainerPath.ContainerPath) (components : list str) : result HostError ContainerPath.ContainerPath :=
  match components with
  | [] => Ok path
  | component :: components =>
      path ← map_err (fun error => Config ("invalid container path component " ++ debug_str component ++ ": " ++ ContainerPathError_to_string error))
               (ContainerPath.join_component path component);
      join_each path components
  end.
Definition join_container_components `{DebugStr} (base : str) (components : list str) : result HostError str :=
  path ← container_path base;
  path ← join_each path components;
  Ok (ContainerPath.as_str path).
Definition join_container_relative (base relative : str) : result HostError str :=
  map_err (fun error => Config ("cannot append " ++ from_utf8_lossy relative ++ " to container path " ++ from_utf8_lossy base ++ ": "
                           ++ ContainerPathError_to_string error))
    (path ← ContainerPath.new base; path ← ContainerPath.join_relative path relative; Ok (ContainerPath.as_str path)).
Definition container_parent (path : str) : result HostError str :=
  path ← container_path path;
  '(parent, _) ← ok_or (rsplit_once "/" (ContainerPath.as_str path))
                   (Config ("container path " ++ ContainerPath.as_str path ++ " has no parent"));
  let parent := if nonempty parent then parent else "/" in
  map_err (fun error => Config ("invalid container parent " ++ parent ++ ": " ++ ContainerPathError_to_string error))
    (ContainerPath.as_str <$> ContainerPath.parse parent).

(** ** Private files and directories *)

(** The walk only looks at the kinds of the nodes. *)
Lemma walk_kinds links t1 t2 follow here path :
  (forall k : Key, kind <$> t1 !! k = kind <$> t2 !! k) -> walk links t1 follow here path = walk links t2 follow here path.
Proof.
  intros Hk. revert here path. induction links as [|links IHl]; intros here path; revert here.
  all: induction path as [|[| | |name] path IHp]; intros here; cbn; try done; try apply IHp.
  all: specialize (Hk (here ++ [name])); destruct (t1 !! (here ++ [name])) as [n1|], (t2 !! (here ++ [name])) as [n2|]; try done.
  all: injection Hk as ->; destruct (kind n2); try done; try apply IHp.
  destruct (nonempty path || follow); [apply IHl|done].
Qed.
Lemma set_permissions_spec path m fs r fs' : set_permissions path m fs = Some (r, fs') -> same_place fs fs' /\
  match r with
  | Ok _ => exists key, resolve true path fs = Ok key /\ nodes fs' = alter (set_mode m) key (nodes fs)
  | Err _ => nodes fs' = nodes fs
  end.
Proof.
  unfold set_permissions. intros H. run_step H r1 fs1 H1. apply stat_spec in H1 as (Hn & Hp & Hr).
  destruct r1 as [[key node]|e]; [|by destruct H as [-> ->]]. injection H as <- <-. split; [done|]. exists key. split; [apply Hr|].
  cbn. by rewrite Hn.
Qed.
Lemma resolve_set_mode follow path fs fs' m key :
  same_place fs fs' -> nodes fs' = alter (set_mode m) key (nodes fs) -> resolve follow path fs' = resolve follow path fs.
Proof.
  intros (Hw & _) Hn. unfold resolve. rewrite Hw, Hn. destruct (negb _); [done|]. apply walk_kinds.
  intros k. destruct (decide (k = key)) as [->|Hne]; [|by rewrite lookup_alter_ne].
  rewrite lookup_alter_eq. by destruct (nodes fs !! key).
Qed.

(** What the two helpers leave at a path: a node of its own that only its owner can use. *)
Definition only_owner (path : str) (m : Z) (is_kind : Node -> bool) (fs : Fs) : Prop :=
  exists key node, resolve false path fs = Ok key /\ nodes fs !! key = Some node /\ is_kind node = true /\ is_link node = false /\ mode node = m.
Lemma restrict_spec path m (is_kind : Node -> bool) (reason : str) fs fs' :
  (forall node, is_kind (set_mode m node) = is_kind node) ->
  (metadata ← with_path path (symlink_metadata path);
   throw_if (is_link metadata || negb (is_kind metadata)) (UnsafePath path reason) ;;
   with_path path (set_permissions path m)) fs = Some (Ok tt, fs') ->
  only_owner path m is_kind fs'.
Proof.
  intros Hkind H. apply bind_run_Ok in H as (node & fs1 & H1 & H). unfold with_path in H1.
  apply map_error_run in H1 as (r1 & H1 & Er). destruct r1 as [n|]; [|done]. injection Er as ->.
  apply symlink_metadata_spec in H1 as (Hn & Hp & key & Hres & Hk).
  apply bind_run_Ok in H as ([] & fs2 & [Hb ->]%throw_if_run_Ok & H). bool_split.
  unfold with_path in H. apply map_error_run in H as (r2 & H2 & Er). destruct r2 as [[]|]; [|done].
  apply set_permissions_spec in H2 as (Hp2 & key2 & Hres2 & Hn2). rewrite <- Hn in Hk.
  rewrite <- (resolve_same false path fs fs1) in Hres by (done || apply Hp).
  rewrite (resolve_follow _ _ _ _ Hres Hk) in Hres2 by done. injection Hres2 as <-.
  exists key, (set_mode m n). rewrite (resolve_set_mode _ _ _ _ _ _ Hp2 Hn2), Hn2, lookup_alter_eq, Hk. by rewrite Hkind.
Qed.

(** When the helpers succeed, what they leave at the path is not a symbolic link
    and belongs to its owner alone: a directory of mode 700, a regular file of mode
    600, whatever was there before and whichever calls failed on the way. *)
Theorem private_paths (path : str) (fs fs' : Fs) :
  (create_private_dir path fs = Some (Ok tt, fs') -> only_owner path 0x1c0 is_dir fs') /\
  (set_private_file path fs = Some (Ok tt, fs') -> only_owner path 0x180 is_regular fs').
Proof.
  split; intros H.
  - apply bind_run_Ok in H as (found & fs1 & _ & H). apply bind_run_Ok in H as ([] & fs2 & _ & H).
    apply bind_run_Ok in H as ([] & fs3 & _ & H). by apply restrict_spec in H.
  - by apply restrict_spec in H.
Qed.

(** The parent of a container path is the path without its last component, and a
    container path itself. *)
Lemma container_parent_spec path parent :
  container_parent path = Ok parent ->
  exists before name, ContainerPath.new path = Ok (ContainerPath.mkContainerPath (before ++ ("/" : str) ++ name)) /\ "/"%char ∉ name
    /\ parent = (if nonempty before then before else "/") /\ ContainerPath.parse parent = Ok (ContainerPath.mkContainerPath parent).
Proof.
  unfold container_parent, container_path. intros ([p] & Hp%map_err_Ok & H)%bind_Ok.
  apply bind_Ok in H as ([before name] & Hs%ok_or_Ok & H). cbn [ContainerPath.as_str] in Hs, H. apply rsplit_once_Some in Hs as [-> Hname].
  apply map_err_Ok, fmap_Ok in H as (q & Hq & ->). exists before, name. split; [done|]. split; [done|].
  assert (Eq : q = ContainerPath.mkContainerPath (if nonempty before then before else "/")).
  { unfold ContainerPath.parse in Hq. ok_inv Hq. done. }
  by subst q.
Qed.
End HostPaths.
