(* ===== verification/HostCommand.v ===== *)
(** * Commands of the host ([codex-start-host/src/command.rs])

    Shell-free descriptions of external commands, what the host does with their
    results, and the run of one.  What a command does and prints is an interface
    that may depend on all commands run before. *)

From S2P Require Export HostPaths BMap.


Module HostCommand.
Import HostError.

(** ** Descriptions *)

Inductive IoMode := Capture | Inherit | Diagnostic | Null.
Record CommandSpec := mkCommandSpec {
  program : str;
  args : list str;
  env : bmap str;
  env_remove : list str;
  cwd : option str;
  io : IoMode }.
Definition new (program : str) : CommandSpec := mkCommandSpec program [] [] [] None Capture.
Definition with_args (more : list str) (self : CommandSpec) : CommandSpec :=
  mkCommandSpec (program self) (args self ++ more) (env self) (env_remove self) (cwd self) (io self).
Definition arg (one : str) : CommandSpec -> CommandSpec := with_args [one].
Definition with_io (mode : IoMode) (self : CommandSpec) : CommandSpec :=
  mkCommandSpec (program self) (args self) (env self) (env_remove self) (cwd self) mode.

(** What a process's three streams are connected to. *)
Inductive Stream := FromParent | Discarded | Piped.
Record Process := mkProcess {
  process_program : str;
  process_args : list str;
  process_env : bmap str;
  process_env_removed : list str;
  process_cwd : option str;
  process_stdin : Stream;
  process_stdout : Stream;
  process_stderr : Stream }.
(** A variable that is set and removed is removed. *)
Definition to_command (self : CommandSpec) : Process :=
  let '(stdin, stdout, stderr) :=
    match io self with
    | Capture => (Discarded, Piped, Piped)
    | Inherit => (FromParent, FromParent, FromParent)
    | Diagnostic => (Discarded, Piped, FromParent)
    | Null => (Discarded, Discarded, Discarded)
    end in
  mkProcess (program self) (args self) (fold_left (fun env key => bremove key env) (env_remove self) (env self))
    (env_remove self) (cwd self) stdin stdout stderr.

(** ** Results *)

(** An exit status: its code, unless a signal ended the process, and its text. *)
Record ExitStatus := mkExitStatus { status_code : option Z; status_text : str }.
Definition success (self : ExitStatus) : bool := bool_decide (status_code self = Some 0%Z).
Definition exit_code (status : ExitStatus) : Z :=
  match status_code status with
  | Some value => if (0 <=? value)%Z && (value <=? 255)%Z then value else 1
  | None => 1
  end.
Record CommandOutput := mkCommandOutput { status : ExitStatus; stdout : str; stderr : str }.
Definition stdout_text (self : CommandOutput) : str := trim (from_utf8_lossy (stdout self)).

(** [str::is_char_boundary]. *)
Definition is_char_boundary (text : str) (index : nat) : bool :=
  match text !! index with
  | Some byte => negb (is_continuation byte)
  | None => (index =? length text)%nat
  end.
Definition ELLIPSIS : str := map byte_at [226; 128; 166]%Z.
Definition LIMIT : nat := Z.to_nat 8192.
(** [None] is the panic of [String::truncate] within a character. *)
Definition sanitize_stderr (stderr : str) : option str :=
  let text := trim (from_utf8_lossy stderr) in
  if (LIMIT <? length text)%nat then
    if is_char_boundary text LIMIT then Some (take LIMIT text ++ ELLIPSIS) else None
  else Some text.

(** ** Runs *)

(** What a command answers after the commands before it: an error when it cannot
    be started.  [diagnose] is a child that was spawned: what copying its output
    to the diagnostics gave, and its end. *)
Class Engine := {
  answer : list CommandSpec -> CommandSpec -> result str CommandOutput;
  diagnose : list CommandSpec -> CommandSpec -> result str (result str unit * result str ExitStatus) }.

(** The commands run so far, the latest first. *)
Notation History := (list CommandSpec) (only parsing).
Notation M := (ST (list CommandSpec) HostError) (only parsing).

(** A panic ends the program; it has no result. *)
Definition or_panic {A} (value : option A) : M A :=
  match value with Some value => mret value | None => diverge end.
Definition require_success (program : str) (self : CommandOutput) : M CommandOutput :=
  if success (status self) then mret self
  else
    text ← or_panic (sanitize_stderr (stderr self));
    throw (CommandFailed program (status_text (status self)) text).

Section runs.
Context `{Engine}.

Definition run_capture (spec : CommandSpec) : M CommandOutput :=
  result ← gets (fun before => answer before spec);
  modify (cons spec) ;;
  lift (map_err (CommandIo (program spec)) result).
Definition run_checked (spec : CommandSpec) : M CommandOutput :=
  output ← run_capture spec;
  require_success (program spec) output.
Definition run_interactive (spec : CommandSpec) : M Z :=
  output ← run_capture (with_io Inherit spec);
  mret (exit_code (status output)).
Definition run_diagnostic (spec : CommandSpec) : M Z :=
  let diagnostic := with_io Diagnostic spec in
  spawned ← gets (fun before => diagnose before diagnostic);
  modify (cons diagnostic) ;;
  child ← lift (map_err (CommandIo (program diagnostic)) spawned);
  lift (map_err (CommandIo (program diagnostic)) child.1) ;;
  status ← lift (map_err (CommandIo (program diagnostic)) child.2);
  mret (exit_code status).
End runs.

(** ** Facts *)

Lemma rel_or_panic {A} (R : list CommandSpec -> list CommandSpec -> Prop) `{!PreOrder R} (value : option A) : rel_m R (or_panic value).
Proof. destruct value; [apply rel_ret; apply _|]. intros s r s' [=]. Qed.

Lemma exit_code_byte status : (0 <= exit_code status <= 255)%Z.
Proof. unfold exit_code. destruct (status_code status) as [v|]; [|lia]. destruct (_ && _) eqn:E; [bool_split; lia|lia]. Qed.
Lemma exit_code_zero status : exit_code status = 0%Z <-> success status = true.
Proof.
  unfold exit_code, success. rewrite bool_decide_eq_true. destruct (status_code status) as [v|]; [|split; [lia|done]].
  destruct (_ && _) eqn:E; bool_split; split; [congruence|by intros [= ->]|lia|]. intros [= ->]. done.
Qed.

(** Long diagnostics whose 8192nd byte is inside a character. *)
Definition long_diagnostics : str := replicate (Z.to_nat 8191) "x"%char ++ map byte_at [195; 169; 33]%Z.
Example sanitize_panics : sanitize_stderr long_diagnostics = None.
Proof. vm_compute. reflexivity. Qed.
End HostCommand.
