(* ===== verification/Engines.v ===== *)
(** * Docker and Podman ([codex-start-host/src/runtime.rs])

    The exact command lines of the container engines, what is read from their
    answers, and the operations of the host as sequences of commands. *)

From S2P Require Export HostCommand ConfigTypes Json Allowlist.

(** [serde_json::from_str] on a container's state: its error or the fields. *)
Class StateJson (State : Type) := parse_state : str -> result str State.

Module Engines.
Import ConfigTypes IpAddr Allowlist HostError HostCommand Json.

Definition LABEL_NAMESPACE : str := "cs.fob.wtf.".
Definition LEGACY_LABEL_NAMESPACE : str := "io.codex-start.".
Definition legacy_label (value : str) : option str :=
  suffix ← strip_prefix LABEL_NAMESPACE value; Some (LEGACY_LABEL_NAMESPACE ++ suffix).

(** ** Requests *)

Inductive MountKind := Bind | Volume | Tmpfs.
#[export] Instance MountKind_eq_dec : EqDecision MountKind.
Proof. solve_decision. Defined.
Record MountRequest := mkMountRequest {
  mount_kind : MountKind;
  mount_source : option str;
  mount_target : str;
  mount_read_only : bool }.
Record PublishRequest := mkPublishRequest {
  host_ip : IpAddr;
  host_port : Z;
  container_port : Z;
  protocol : str }.
Record RunRequest := mkRunRequest {
  name : str;
  image : str;
  entrypoint : option str;
  command : list str;
  workdir : option str;
  env : bmap str;
  labels : bmap str;
  mounts : list MountRequest;
  publish : list PublishRequest;
  resources : Limits.ResourceValues;
  network : option str;
  network_alias : option str;
  user_namespace : option str;
  add_hosts : bmap str;
  tty : bool;
  interactive : bool;
  detach : bool;
  remove : bool;
  read_only : bool;
  drop_all_capabilities : bool;
  add_capabilities : list str;
  no_new_privileges : bool;
  user : option str;
  extra_args : list str }.
Record BuildRequest := mkBuildRequest {
  build_image : str;
  build_context : str;
  dockerfile : str;
  build_target : option str;
  build_args : bmap str;
  no_cache : bool }.

(** [ContainerRuntimeState]. *)
Record ContainerRuntimeState := mkContainerRuntimeState {
  running : bool;
  restarting : bool;
  state_exit_code : Z;
  restart_count : Z;
  oom_killed : bool;
  state_error : str }.
Record DeepCapabilityReport := mkDeepCapabilityReport { host_gateway_checked : bool; rootless_keep_id_checked : bool }.

Record Runtime := mkRuntime { kind : RuntimeKind; engine_program : str }.
Record RuntimeDetails := mkRuntimeDetails { server_version : str; rootless : option bool; remote : option bool }.
Inductive WorkloadIdentityMode := EngineDefault | RootlessPodmanKeepId.
#[export] Instance WorkloadIdentityMode_eq_dec : EqDecision WorkloadIdentityMode.
Proof. solve_decision. Defined.

(** [RuntimeDetails::summary]. *)
Definition details_summary (self : RuntimeDetails) : str :=
  let rootless : str := match rootless self with None => "rootless mode unknown" | Some true => "rootless" | Some false => "rootful" end in
  let remote : str := match remote self with None => "transport unknown" | Some true => "remote" | Some false => "local" end in
  "server " ++ server_version self ++ " (" ++ rootless ++ ", " ++ remote ++ ")".

(** [DeepCapabilityReport::summary]. *)
Definition probe_summary (self : DeepCapabilityReport) : str :=
  match host_gateway_checked self, rootless_keep_id_checked self with
  | true, _ => "internal network, labels and filters, named-volume mount, hardened run flags, and Docker host-gateway mapping succeeded"
  | false, true => "internal network, labels and filters, named-volume mount, hardened run flags, and rootless Podman keep-id mapping succeeded"
  | false, false => "internal network, labels and filters, named-volume mount, and hardened run flags succeeded (Podman provides its host gateway name)"
  end.

(** ** Rendering *)

(** A value that a comma or a quote would break is quoted, as a CSV field. *)
Definition append_mount_value (value : str) : str :=
  if existsb (fun byte => is_byte "," byte || is_byte DQUOTE byte) value
  then [DQUOTE] ++ flat_map (fun byte => if is_byte DQUOTE byte then [byte; DQUOTE] else [byte]) value ++ [DQUOTE]
  else value.
Definition kind_text (kind : MountKind) : str :=
  match kind with Bind => "bind" | Volume => "volume" | Tmpfs => "tmpfs" end.
Definition render_mount (mount : MountRequest) : str :=
  "type=" ++ kind_text (mount_kind mount)
  ++ match mount_source mount with Some source => ",src=" ++ append_mount_value source | None => [] end
  ++ ",dst=" ++ append_mount_value (mount_target mount)
  ++ (if mount_read_only mount then ",readonly" else []).
Definition prefixed_os_value (prefix : str) (separator : ascii) (value : str) : str := prefix ++ [separator] ++ value.
Definition format_publish_address (host_ip : IpAddr) (host_port container_port : Z) (protocol : str) : str :=
  match host_ip with
  | V4 address => ipv4_to_string address
  | V6 address => "[" ++ ipv6_to_string address ++ "]"
  end ++ ":" ++ dec host_port ++ ":" ++ dec container_port ++ "/" ++ protocol.

(** An argument or a pair that is there on a condition. *)
Definition flag (b : bool) (word : str) : list str := if b then [word] else [].
Definition valued (word : str) (value : option str) : list str :=
  match value with Some value => [word; value] | None => [] end.
Definition each {A} (word : str) (render : A -> str) (values : list A) : list str :=
  flat_map (fun value => [word; render value]) values.

Definition resource_args (resources : Limits.ResourceValues) : list str :=
  valued "--cpus" (Limits.cpu_value <$> Limits.cpus resources)
  ++ valued "--cpu-shares" (dec <$> Limits.cpu_shares resources)
  ++ valued "--cpuset-cpus" (Limits.cpuset_cpus resources)
  ++ valued "--memory" (Limits.ms_value <$> Limits.memory resources)
  ++ valued "--memory-reservation" (Limits.ms_value <$> Limits.memory_reservation resources)
  ++ valued "--memory-swap" (Limits.MemorySwapLimit_as_engine_value <$> Limits.memory_swap resources)
  ++ valued "--pids-limit" (dec <$> Limits.pids_limit resources)
  ++ valued "--shm-size" (Limits.ms_value <$> Limits.shm_size resources)
  ++ each "--ulimit" (fun entry => entry.1 ++ "=" ++ Limits.Ulimit_as_engine_value entry.2) (Limits.ulimits resources).
Definition append_resource_args (command : CommandSpec) (resources : Limits.ResourceValues) : CommandSpec :=
  with_args (resource_args resources) command.

Definition assignment (entry : str * str) : str := entry.1 ++ "=" ++ entry.2.
(** Everything between [run] and the image, but the expert arguments. *)
Definition run_options (request : RunRequest) : list str :=
  flag (remove request) "--rm"
  ++ flag (detach request) "--detach"
  ++ flag (tty request) "--tty"
  ++ flag (interactive request) "--interactive"
  ++ [("--name" : str); name request]
  ++ valued "--network" (network request)
  ++ valued "--network-alias" (network_alias request)
  ++ valued "--userns" (user_namespace request)
  ++ each "--add-host" (fun entry : str * str => entry.1 ++ ":" ++ entry.2) (add_hosts request)
  ++ valued "--workdir" (workdir request)
  ++ valued "--entrypoint" (entrypoint request)
  ++ valued "--user" (user request)
  ++ flag (read_only request) "--read-only"
  ++ valued "--cap-drop" (if drop_all_capabilities request then Some ("ALL" : str) else None)
  ++ each "--cap-add" (fun capability => capability) (add_capabilities request)
  ++ valued "--security-opt" (if no_new_privileges request then Some ("no-new-privileges" : str) else None)
  ++ each "--label" assignment (labels request)
  ++ each "--env" (fun entry : str * str => prefixed_os_value entry.1 "=" entry.2) (env request)
  ++ each "--mount" render_mount (mounts request)
  ++ each "--publish" (fun publish => format_publish_address (host_ip publish) (host_port publish) (container_port publish) (protocol publish))
       (publish request)
  ++ resource_args (resources request).
Definition run_command (self : Runtime) (request : RunRequest) : CommandSpec :=
  with_io (if detach request then Capture else Inherit)
    (with_args (run_options request ++ extra_args request ++ image request :: command request)
      (arg "run" (new (engine_program self)))).

Definition build_command (self : Runtime) (request : BuildRequest) : CommandSpec :=
  with_io Diagnostic
    (with_args ([("--tag" : str); build_image request; ("--file" : str); dockerfile request]
       ++ valued "--target" (build_target request) ++ flag (no_cache request) "--no-cache"
       ++ each "--build-arg" assignment (build_args request) ++ [build_context request])
      (arg "build" (new (engine_program self)))).
Definition pull_command (self : Runtime) (image : str) : CommandSpec :=
  with_io Diagnostic (with_args [("pull" : str); image] (new (engine_program self))).

(** ** Reading the engines' answers *)

Fixpoint take_while (p : ascii -> bool) (s : str) : str :=
  match s with c :: s => if p c then c :: take_while p s else [] | [] => [] end.
Definition parse_runtime_version (value : str) : option (Z * Z) :=
  let components := split "." (trim_start_by (is_byte "v") (trim value)) in
  major ← (component ← components !! 0%nat; parse_u64 component);
  minor ← (component ← components !! 1%nat; parse_u64 (take_while is_digit component));
  Some (major, minor).
(** Versions are ordered by their parts. *)
Definition version_below (found minimum : Z * Z) : bool :=
  (found.1 <? minimum.1)%Z || ((found.1 =? minimum.1)%Z && (found.2 <? minimum.2)%Z).

Definition option_bracket (c : ascii) : bool :=
  is_byte "," c || is_byte "[" c || is_byte "]" c || is_byte "(" c || is_byte ")" c.
Definition help_has_option (help expected : str) : bool :=
  existsb (fun token =>
      let token := trim_matches option_bracket token in
      match split_once "=" token with Some (option, _) => option | None => token end =s? expected)
    (List.filter nonempty (split_by is_ascii_whitespace help)).

Fixpoint find_bool_key (value : Value) (expected : str) : option bool :=
  match value with
  | Object entries =>
      (fix find entries := match entries with
       | [] => None
       | (key, value) :: entries =>
           match (if eq_ignore_ascii_case key expected then match value with Bool b => Some b | _ => None end
                  else find_bool_key value expected) with
           | Some b => Some b
           | None => find entries
           end
       end) entries
  | Array values =>
      (fix find values := match values with
       | [] => None
       | value :: values => match find_bool_key value expected with Some b => Some b | None => find values end
       end) values
  | _ => None
  end.
Fixpoint contains_string_fragment (value : Value) (expected : str) : bool :=
  match value with
  | String value => contains_str (to_ascii_lowercase expected) (to_ascii_lowercase value)
  | Object entries => existsb (fun entry => contains_string_fragment entry.2 expected) entries
  | Array values => existsb (fun value => contains_string_fragment value expected) values
  | _ => false
  end.

Definition identity_options : list str := strs ["--user"; "--userns"; "--uidmap"; "--gidmap"; "--subuidname"; "--subgidname"].
Definition identity_option (argument : str) : bool :=
  existsb (fun option => (argument =s? option)
      || match strip_prefix option argument with Some suffix => starts_with "=" suffix | None => false end) identity_options
  || (argument =s? "-u") || (starts_with "-u" argument && (2 <? length argument)%nat).

Definition infer_kind (program : str) : RuntimeKind :=
  let name := to_ascii_lowercase (from_utf8_lossy (default program (file_name program))) in
  if contains_str "podman" name then RuntimeKind_Podman else RuntimeKind_Docker.

(** The longest prefix of at most [LIMIT] bytes that ends with a character. *)
Fixpoint boundary_below (text : str) (index : nat) : nat :=
  match index with
  | O => O
  | S below => if is_char_boundary text index then index else boundary_below text below
  end.
Definition DIAGNOSTIC_LIMIT : nat := Z.to_nat 2048.
Definition diagnostic_text (output : CommandOutput) : str :=
  let bytes := if nonempty (stderr output) then stderr output else stdout output in
  let value := trim (from_utf8_lossy bytes) in
  let value := if (DIAGNOSTIC_LIMIT <? length value)%nat
               then take (boundary_below value DIAGNOSTIC_LIMIT) value ++ ELLIPSIS else value in
  if nonempty value then value
  else "command exited " ++ status_text (status output) ++ " without diagnostics".

(** ** Operations *)

Notation M := (ST (list CommandSpec) HostError) (only parsing).

Record HelpCapability := mkHelpCapability { operation : str; help_argv : list str; required : list str }.
Definition HELP_CAPABILITIES : list HelpCapability := [
  mkHelpCapability "container run" (strs ["run"; "--help"])
    (strs ["--add-host"; "--cap-add"; "--cap-drop"; "--label"; "--mount"; "--network"; "--network-alias"; "--read-only";
           "--security-opt"; "--userns"]);
  mkHelpCapability "network create" (strs ["network"; "create"; "--help"]) (strs ["--internal"; "--label"]);
  mkHelpCapability "network connect" (strs ["network"; "connect"; "--help"]) (strs ["--alias"]);
  mkHelpCapability "network list" (strs ["network"; "ls"; "--help"]) (strs ["--filter"; "--format"]);
  mkHelpCapability "volume create" (strs ["volume"; "create"; "--help"]) (strs ["--label"]);
  mkHelpCapability "volume list" (strs ["volume"; "ls"; "--help"]) (strs ["--filter"; "--format"])].

Definition kind_debug (kind : RuntimeKind) : str :=
  match kind with RuntimeKind_Auto => "Auto" | RuntimeKind_Docker => "Docker" | RuntimeKind_Podman => "Podman" end.
Definition is_podman (kind : RuntimeKind) : bool := bool_decide (kind = RuntimeKind_Podman).
Definition rendered_invocation (program : str) (argv : list str) : str := join " " (from_utf8_lossy program :: argv).

Section operations.
Context `{Engine, DebugStr, DebugOsString, SerdeJson, EnvironmentVariables}.

Definition invoke (self : Runtime) (args : list str) : CommandSpec := with_args args (new (engine_program self)).

Definition host_gateway_name (self : Runtime) : str :=
  if is_podman (kind self) then "host.containers.internal" else "host.docker.internal".
Definition host_gateway_mapping (self : Runtime) : bmap str :=
  if is_podman (kind self) then [] else [("host.docker.internal" : str, "host-gateway" : str)].

(** [version]. *)
Definition engine_version (self : Runtime) : M str :=
  output ← run_checked (invoke self (strs ["version"]));
  mret (stdout_text output).

Fixpoint try_templates (self : Runtime) (templates : list str) : M (option str) :=
  match templates with
  | [] => mret None
  | template :: templates =>
      output ← run_capture (invoke self (strs ["version"; "--format"] ++ [template]));
      let value := stdout_text output in
      if success (status output) && bool_decide (is_Some (parse_runtime_version value)) then mret (Some value)
      else try_templates self templates
  end.
Definition query_server_version (self : Runtime) : M str :=
  found ← try_templates self (if is_podman (kind self) then strs ["{{.Server.Version}}"; "{{.Version}}"] else strs ["{{.Server.Version}}"]);
  match found with
  | Some value => mret value
  | None => throw (HostError.Runtime ("could not query a healthy " ++ kind_debug (kind self) ++ " server through "
                     ++ from_utf8_lossy (engine_program self)))
  end.

Fixpoint check_capabilities (self : Runtime) (capabilities : list HelpCapability) (checked_options : nat) : M nat :=
  match capabilities with
  | [] => mret checked_options
  | capability :: capabilities =>
      output ← run_capture (invoke self (help_argv capability));
      throw_if (negb (success (status output)))
        (HostError.Runtime ("could not inspect " ++ kind_debug (kind self) ++ " " ++ operation capability ++ " capabilities with `"
           ++ rendered_invocation (engine_program self) (help_argv capability) ++ "`: " ++ diagnostic_text output)) ;;
      let help := from_utf8_lossy (stdout output) in
      let missing := List.filter (fun option => negb (help_has_option help option)) (required capability) in
      throw_if (nonempty missing)
        (HostError.Runtime (kind_debug (kind self) ++ " " ++ operation capability ++ " lacks required option(s) " ++ join ", " missing
           ++ "; install a compatible Docker 27+ or Podman 5.4+ runtime")) ;;
      check_capabilities self capabilities (checked_options + length (required capability))
  end.
Definition capability_report (self : Runtime) : M nat := check_capabilities self HELP_CAPABILITIES 0.

Definition minimum_version (kind : RuntimeKind) : Z * Z := (if is_podman kind then (5, 4) else (27, 0))%Z.
Definition require_healthy (self : Runtime) : M unit :=
  version ← query_server_version self;
  found ← lift (ok_or (parse_runtime_version version)
             (HostError.Runtime ("could not parse " ++ kind_debug (kind self) ++ " server version " ++ debug_str version)));
  let minimum := minimum_version (kind self) in
  throw_if (version_below found minimum)
    (HostError.Runtime (kind_debug (kind self) ++ " server " ++ version ++ " is unsupported; version " ++ dec minimum.1 ++ "."
       ++ dec minimum.2 ++ " or newer is required")) ;;
  capability_report self ;;
  mret tt.

Definition from_program (kind : RuntimeKind) (program : str) : M Runtime :=
  require_healthy (mkRuntime kind program) ;; mret (mkRuntime kind program).
Definition detect (kind : RuntimeKind) (override_program : option str) : M Runtime :=
  match override_program with
  | Some program => from_program (if bool_decide (kind = RuntimeKind_Auto) then infer_kind program else kind) program
  | None =>
      match kind with
      | RuntimeKind_Docker => from_program RuntimeKind_Docker "docker"
      | RuntimeKind_Podman => from_program RuntimeKind_Podman "podman"
      | RuntimeKind_Auto =>
          docker ← attempt (from_program RuntimeKind_Docker "docker");
          match docker with
          | Ok runtime => mret runtime
          | Err docker_error =>
              podman ← attempt (from_program RuntimeKind_Podman "podman");
              match podman with
              | Ok runtime => mret runtime
              | Err podman_error =>
                  throw (HostError.Runtime ("no compatible Docker or Podman runtime was found; Docker: " ++ to_string docker_error
                           ++ "; Podman: " ++ to_string podman_error))
              end
          end
      end
  end.

Definition remote_environment_indicator (kind : RuntimeKind) : option bool :=
  if is_some_and (var_os "CONTAINER_CONNECTION") nonempty then Some true
  else
    value ← var_os (if is_podman kind then "CONTAINER_HOST" else "DOCKER_HOST");
    if nonempty value then Some (is_podman kind || negb (starts_with "unix://" (from_utf8_lossy value))) else None.
(** [.ok()?] on the command. *)
Definition docker_context_remote (self : Runtime) : M (option bool) :=
  if is_podman (kind self) then mret None
  else
    output ← attempt (run_capture (invoke self (strs ["context"; "show"])));
    match output with
    | Ok output =>
        if success (status output) then
          let context := stdout_text output in
          mret (if nonempty context then Some (negb (context =s? "default")) else None)
        else mret None
    | Err _ => mret None
    end.
Definition details (self : Runtime) : M RuntimeDetails :=
  let format : str := if is_podman (kind self) then "json" else "{{json .}}" in
  output ← run_capture (invoke self (strs ["info"; "--format"] ++ [format]));
  throw_if (negb (success (status output)))
    (HostError.Runtime ("could not query structured " ++ kind_debug (kind self) ++ " engine information: " ++ diagnostic_text output)) ;;
  value ← lift (map_err (fun error => HostError.Runtime (kind_debug (kind self) ++ " returned invalid JSON from `info --format "
                            ++ format ++ "`: " ++ error)) (from_json (stdout output)));
  let rootless := match find_bool_key value "rootless" with
                  | Some b => Some b
                  | None => if contains_string_fragment value "rootless" then Some true else None
                  end in
  remote ← match find_bool_key value "serviceisremote" with
           | Some b => mret (Some b)
           | None => match remote_environment_indicator (kind self) with
                     | Some b => mret (Some b)
                     | None => docker_context_remote self
                     end
           end;
  version ← query_server_version self;
  mret (mkRuntimeDetails version rootless remote).

Definition with_identity (request : RunRequest) (user_namespace user : str) : RunRequest :=
  mkRunRequest (name request) (image request) (entrypoint request) (command request) (workdir request) (env request) (labels request)
    (mounts request) (publish request) (resources request) (network request) (network_alias request) (Some user_namespace)
    (add_hosts request) (tty request) (interactive request) (detach request) (remove request) (read_only request)
    (drop_all_capabilities request) (add_capabilities request) (no_new_privileges request) (Some user) (extra_args request).
(** The request after the call, and the mode. *)
Definition configure_workload_identity (self : Runtime) (request : RunRequest) (workload_user_id workload_group_id : Z)
    : M (RunRequest * WorkloadIdentityMode) :=
  if negb (is_podman (kind self)) then mret (request, EngineDefault)
  else
    details ← details self;
    match rootless details with
    | Some false => mret (request, EngineDefault)
    | None => throw (HostError.Runtime
        "Podman did not report whether its server is rootless; refusing to guess a workspace bind-mount identity mapping")
    | Some true =>
        throw_if (bool_decide (is_Some (user request)) || bool_decide (is_Some (user_namespace request))
                  || existsb identity_option (extra_args request))
          (HostError.Config "rootless Podman reserves --user, --userns, UID/GID-map, and subordinate-ID runtime arguments so codex-start can preserve writable workspace mounts") ;;
        mret (with_identity request ("keep-id:uid=" ++ dec workload_user_id ++ ",gid=" ++ dec workload_group_id) "0:0", RootlessPodmanKeepId)
    end.

(** *** Labels *)

Definition inspect_label (self : Runtime) (resource name template : str) : M (option str) :=
  output ← run_capture (invoke self [resource; "inspect" : str; "--format" : str; template; name]);
  if negb (success (status output)) then mret None
  else
    let value := stdout_text output in
    mret (if nonempty value && negb (value =s? "<no value>") then Some value else None).
(** The template [{{ index <field> <label> }}], the label in quotes. *)
Definition label_template (field label : str) : str := "{{ index " ++ field ++ " " ++ debug_str label ++ " }}".
(** The label, or else its old name. *)
Definition label_of (self : Runtime) (resource field name label : str) : M (option str) :=
  value ← inspect_label self resource name (label_template field label);
  match value with
  | Some value => mret (Some value)
  | None => match legacy_label label with
            | Some legacy => inspect_label self resource name (label_template field legacy)
            | None => mret None
            end
  end.
Definition container_label (self : Runtime) (name label : str) : M (option str) := label_of self "container" ".Config.Labels" name label.
Definition network_label (self : Runtime) (name label : str) : M (option str) := label_of self "network" ".Labels" name label.
Definition volume_label (self : Runtime) (name label : str) : M (option str) := label_of self "volume" ".Labels" name label.

(** *** Containers *)

Definition container_state (self : Runtime) (name : str) : M (option bool) :=
  output ← run_capture (invoke self (strs ["container"; "inspect"; "--format"; "{{.State.Running}}"] ++ [name]));
  mret (if success (status output) then Some (stdout_text output =s? "true") else None).
Definition remove_container (self : Runtime) (name : str) (force : bool) : M unit :=
  state ← container_state self name;
  match state with
  | None => mret tt
  | Some _ => run_checked (invoke self (strs ["container"; "rm"] ++ flag force "--force" ++ [name])) ;; mret tt
  end.
Definition stop_container (self : Runtime) (name : str) : M unit :=
  run_checked (invoke self (strs ["container"; "stop"] ++ [name])) ;; mret tt.
Definition start_container (self : Runtime) (name : str) : M unit :=
  run_checked (invoke self (strs ["container"; "start"] ++ [name])) ;; mret tt.
Definition attach (self : Runtime) (name : str) : M Z :=
  run_interactive (invoke self (strs ["attach"; "--sig-proxy=false"] ++ [name])).
Definition container_exit_code (self : Runtime) (name : str) : M (option Z) :=
  output ← run_capture (invoke self (strs ["container"; "inspect"; "--format"; "{{.State.ExitCode}}"] ++ [name]));
  mret (if success (status output) then
          value ← parse_u16 (stdout_text output); if (value <=? 255)%Z then Some value else None
        else None).
Definition image_exists (self : Runtime) (image : str) : M bool :=
  output ← run_capture (with_io HostCommand.Null (invoke self (strs ["image"; "inspect"] ++ [image])));
  mret (success (status output)).
Definition build (self : Runtime) (request : BuildRequest) : M Z := run_diagnostic (build_command self request).
Definition pull (self : Runtime) (image : str) : M Z := run_diagnostic (pull_command self image).
Definition run (self : Runtime) (request : RunRequest) : M Z :=
  if detach request then output ← run_capture (run_command self request); mret (exit_code (status output))
  else run_interactive (run_command self request).

(** The terminal's hints, those that are not empty. *)
Definition terminal_environment : bmap str :=
  bcollect (omap (fun name => value ← var_os name; if nonempty value then Some (name, value) else None) (strs ["TERM"; "COLORTERM"])).
Definition exec_as_user (self : Runtime) (name : str) (workdir : option str) (argv : list str) (tty : bool) (user : option str) : M Z :=
  run_interactive (invoke self (strs ["exec"; "--interactive"] ++ flag tty "--tty" ++ valued "--user" user ++ valued "--workdir" workdir
    ++ each "--env" assignment terminal_environment ++ name :: argv)).
Definition exec (self : Runtime) (name : str) (workdir : option str) (argv : list str) (tty : bool) : M Z :=
  exec_as_user self name workdir argv tty None.
Definition exec_probe (self : Runtime) (name : str) (argv : list str) : M bool :=
  output ← run_capture (with_io HostCommand.Null (invoke self (("exec" : str) :: name :: argv)));
  mret (success (status output)).
Definition exec_probe_as_user (self : Runtime) (name user : str) (argv : list str) : M bool :=
  output ← run_capture (with_io HostCommand.Null (invoke self (strs ["exec"; "--user"] ++ user :: name :: argv)));
  mret (success (status output)).
Definition logs (self : Runtime) (name : str) (follow : bool) : M Z :=
  run_interactive (invoke self (strs ["logs"] ++ flag follow "--follow" ++ [name])).

(** *** Lists *)

(** [str::lines]: the last line may lack its end, a carriage return before an end goes. *)
Definition without_cr (line : str) : str := default line (strip_suffix [CR] line).
Definition lines (text : str) : list str :=
  let parts := split LF text in
  match last parts with
  | Some [] => map without_cr (removelast parts)
  | Some final => map without_cr (removelast parts) ++ [final]
  | None => []
  end.
Definition output_lines (output : CommandOutput) : list str := List.filter nonempty (lines (stdout_text output)).

(** The name a row is kept under. *)
Definition row_key (line : str) : str :=
  default line (value ← ok (from_json line);
                entry ← (match get "Names" value with Some v => Some v | None => get "Name" value end);
                as_str entry).
Definition merge_output_lines (output legacy : CommandOutput) : CommandOutput :=
  let rows := fold_left (fun rows line => if bcontains (row_key line) rows then rows else binsert (row_key line) line rows)
                (output_lines output ++ output_lines legacy) [] in
  mkCommandOutput (status output) (join [LF] (bvalues rows)) (stderr output).
Definition list_containers (self : Runtime) (label : str) (all : bool) : M CommandOutput :=
  let query label := invoke self (strs ["ps"] ++ flag all "--all" ++ [("--filter" : str); "label=" ++ label] ++ strs ["--format"; "{{json .}}"]) in
  output ← run_checked (query label);
  match legacy_label label with
  | Some legacy => legacy ← run_checked (query legacy); mret (merge_output_lines output legacy)
  | None => mret output
  end.

(** [sort] and [dedup]. *)
Definition sorted_names (names : list str) : list str := bkeys (bcollect (map (fun name => (name, tt)) names)).
Definition list_names (self : Runtime) (resource label : str) : M (list str) :=
  output ← run_checked (invoke self ([resource; "ls" : str; "--filter" : str; "label=" ++ label] ++ strs ["--format"; "{{.Name}}"]));
  mret (output_lines output).
Definition list_resource_names (self : Runtime) (resource label : str) : M (list str) :=
  names ← list_names self resource label;
  names ← match legacy_label label with
          | Some legacy => more ← list_names self resource legacy; mret (names ++ more)
          | None => mret names
          end;
  mret (sorted_names names).
Definition list_network_names (self : Runtime) (label : str) : M (list str) := list_resource_names self "network" label.
Definition list_volume_names (self : Runtime) (label : str) : M (list str) := list_resource_names self "volume" label.

(** The template that prints the state as an object. *)
Definition quoted (s : str) : str := [DQUOTE] ++ s ++ [DQUOTE].
Definition state_template : str :=
  "{" ++ quoted "running" ++ ":{{.State.Running}},"
  ++ quoted "restarting" ++ ":{{.State.Restarting}},"
  ++ quoted "exit_code" ++ ":{{.State.ExitCode}},"
  ++ quoted "restart_count" ++ ":{{.RestartCount}},"
  ++ quoted "oom_killed" ++ ":{{.State.OOMKilled}},"
  ++ quoted "error" ++ ":{{json .State.Error}}}".
Definition container_runtime_state `{StateJson ContainerRuntimeState} (self : Runtime) (name : str) : M (option ContainerRuntimeState) :=
  output ← run_capture (invoke self (strs ["container"; "inspect"; "--format"] ++ [state_template; name]));
  if negb (success (status output)) then mret None
  else
    state ← lift (map_err (fun error => HostError.Runtime ("could not parse state for container " ++ debug_str name ++ ": " ++ error))
                   (parse_state (stdout_text output)));
    mret (Some state).

(** *** Networks and volumes *)

Definition create_network (self : Runtime) (name : str) (internal : bool) (labels : bmap str) : M unit :=
  run_checked (invoke self (strs ["network"; "create"] ++ flag internal "--internal" ++ each "--label" assignment labels ++ [name])) ;; mret tt.
Definition connect_network (self : Runtime) (network container alias : str) : M unit :=
  run_checked (invoke self (strs ["network"; "connect"; "--alias"] ++ [alias; network; container])) ;; mret tt.
Definition remove_network (self : Runtime) (name : str) : M unit :=
  output ← run_capture (invoke self (strs ["network"; "rm"] ++ [name]));
  if success (status output) || contains_str "not found" (from_utf8_lossy (stderr output)) then mret tt
  else require_success (engine_program self) output ;; mret tt.

(** [{:?}] of an optional text. *)
Definition debug_option (value : option str) : str :=
  match value with Some value => "Some(" ++ debug_str value ++ ")" | None => "None" end.
Fixpoint check_labels (self : Runtime) (name : str) (labels : bmap str) : M unit :=
  match labels with
  | [] => mret tt
  | (key, expected) :: labels =>
      actual ← volume_label self name key;
      throw_if (negb (bool_decide (actual = Some expected)))
        (HostError.Runtime ("refusing to reuse volume " ++ debug_str name ++ ": ownership label " ++ debug_str key ++ " is "
           ++ debug_option actual ++ ", expected " ++ debug_str expected)) ;;
      check_labels self name labels
  end.
Definition ensure_volume (self : Runtime) (name : str) (labels : bmap str) : M unit :=
  inspect ← run_capture (invoke self (strs ["volume"; "inspect"] ++ [name]));
  if success (status inspect) then check_labels self name labels
  else run_checked (invoke self (strs ["volume"; "create"] ++ each "--label" assignment labels ++ [name])) ;; mret tt.
Definition volume_in_use (self : Runtime) (name : str) : M bool :=
  output ← run_checked (invoke self (strs ["ps"; "--all"; "--filter"] ++ [("volume=" ++ name : str)] ++ strs ["--format"; "{{.ID}}"]));
  mret (nonempty (stdout_text output)).
Definition remove_volume (self : Runtime) (name : str) (force : bool) : M unit :=
  output ← run_capture (invoke self (strs ["volume"; "rm"] ++ flag force "--force" ++ [name]));
  if success (status output) || contains_str "not found" (from_utf8_lossy (stderr output))
     || contains_str "no such volume" (from_utf8_lossy (stderr output)) then mret tt
  else require_success (engine_program self) output ;; mret tt.

(** *** The deep capability probe *)

Definition capability_error (operation : str) (error : HostError) : HostError :=
  HostError.Runtime ("could not " ++ operation ++ " during runtime capability probe: " ++ to_string error).
(** [map_err] on an operation. *)
Definition with_capability_error {A} (operation : str) (m : M A) : M A :=
  result ← attempt m; lift (map_err (capability_error operation) result).
Definition require_filtered_resource (resource expected : str) (values : list str) : M unit :=
  throw_if (negb (existsb (fun value => value =s? expected) values))
    (HostError.Runtime ("runtime " ++ resource ++ " label filter did not return disposable " ++ resource ++ " " ++ debug_str expected)).
Definition network_is_internal (self : Runtime) (network : str) : M bool :=
  output ← run_capture (invoke self (strs ["network"; "inspect"] ++ [network]));
  throw_if (negb (success (status output)))
    (HostError.Runtime ("could not inspect capability-probe network " ++ debug_str network ++ ": " ++ diagnostic_text output)) ;;
  value ← lift (map_err (fun error => HostError.Runtime ("runtime returned invalid JSON while inspecting network " ++ debug_str network
                            ++ ": " ++ error)) (from_json (stdout output)));
  lift (ok_or (find_bool_key value "internal")
    (HostError.Runtime ("runtime did not report whether capability-probe network " ++ debug_str network ++ " is internal"))).
Definition PROBE_LABEL : str := "cs.fob.wtf.probe".
Definition require_probe_label (self : Runtime) (resource name id : str) : M unit :=
  actual ← inspect_label self resource name ("{{ index .Labels " ++ quoted PROBE_LABEL ++ " }}");
  throw_if (negb (bool_decide (actual = Some id)))
    (HostError.Runtime ("runtime did not preserve the capability-probe label on " ++ resource ++ " " ++ debug_str name
       ++ "; found " ++ debug_option actual)).

Definition probe_labels (id : str) : bmap str := [("cs.fob.wtf.managed" : str, "true" : str); (PROBE_LABEL, id)].
Definition probe_request (self : Runtime) (image network volume container : str) (labels : bmap str) : RunRequest :=
  mkRunRequest container image (Some ("/bin/true" : str)) [] None [] labels
    [mkMountRequest Volume (Some volume) "/tmp/codex-start-runtime-probe" true] [] Limits.ResourceValues_default
    (Some network) (Some ("capability-probe" : str)) None (host_gateway_mapping self)
    false false false true true true [] true None [].
Definition run_deep_capability_probe (self : Runtime) (image id network volume container : str) (labels : bmap str)
    : M DeepCapabilityReport :=
  with_capability_error "create a labelled internal network" (create_network self network true labels) ;;
  internal ← network_is_internal self network;
  throw_if (negb internal)
    (HostError.Runtime ("runtime capability probe network " ++ debug_str network ++ " was not marked internal")) ;;
  require_probe_label self "network" network id ;;
  with_capability_error "create a labelled named volume" (ensure_volume self volume labels) ;;
  require_probe_label self "volume" volume id ;;
  filtered_networks ← list_network_names self ("cs.fob.wtf.probe=" ++ id);
  require_filtered_resource "network" network filtered_networks ;;
  filtered_volumes ← list_volume_names self ("cs.fob.wtf.probe=" ++ id);
  require_filtered_resource "volume" volume filtered_volumes ;;
  configured ← configure_workload_identity self (probe_request self image network volume container labels) 1000 1000;
  status ← with_capability_error "run a hardened disposable container" (run self configured.1);
  throw_if (negb (status =? 0)%Z)
    (HostError.Runtime ("runtime capability probe container exited " ++ dec status ++ "; verify read-only roots, capability dropping, no-new-privileges, mounts, networks, and host-gateway support")) ;;
  mret (mkDeepCapabilityReport (negb (is_podman (kind self))) (bool_decide (configured.2 = RootlessPodmanKeepId))).

(** One resource goes when the engine says it carries the probe's label. *)
Definition cleanup_one (resource name id : str) (label_of_it : M (option str)) (remove_it : M unit) : M (list str) :=
  owner ← attempt label_of_it;
  match owner with
  | Ok owner =>
      if bool_decide (owner = Some id) then
        removed ← attempt remove_it;
        mret match removed with
             | Ok _ => []
             | Err error => [resource ++ " " ++ debug_str name ++ ": " ++ to_string error]
             end
      else mret []
  | Err error => mret [("could not verify " ++ resource ++ " " ++ debug_str name ++ " ownership: " ++ to_string error : str)]
  end.
Definition cleanup_capability_probe (self : Runtime) (id network volume container : str) : M unit :=
  containers ← cleanup_one "container" container id (container_label self container PROBE_LABEL) (remove_container self container true);
  volumes ← cleanup_one "volume" volume id (volume_label self volume PROBE_LABEL) (remove_volume self volume true);
  networks ← cleanup_one "network" network id (network_label self network PROBE_LABEL) (remove_network self network);
  let failures := containers ++ volumes ++ networks in
  throw_if (nonempty failures) (HostError.Runtime ("could not clean disposable runtime probe resources: " ++ join "; " failures)).

(** [id] is a fresh identifier, 32 hexadecimal digits. *)
Definition deep_capability_probe (self : Runtime) (image id : str) : M DeepCapabilityReport :=
  let suffix := take 12 id in
  let network : str := "codex-start-probe-net-" ++ suffix in
  let volume : str := "codex-start-probe-vol-" ++ suffix in
  let container : str := "codex-start-probe-run-" ++ suffix in
  result ← attempt (run_deep_capability_probe self image id network volume container (probe_labels id));
  cleanup ← attempt (cleanup_capability_probe self id network volume container);
  match result, cleanup with
  | Ok report, Ok _ => mret report
  | Err error, Ok _ | Ok _, Err error => throw error
  | Err error, Err cleanup_error =>
      throw (HostError.Runtime (to_string error ++ "; capability-probe cleanup also failed: " ++ to_string cleanup_error))
  end.
End operations.
End Engines.
