(* ===== verification/HostServices.v ===== *)
(** * Host services of a run ([codex-start-host/src/host_services.rs])

    The authenticated bridges between a workload and selected services of the host:
    what the container is told ([HostServicePlan]) and what runs on the host for it
    ([Manager]): listeners, their tasks and one token.  The host's sockets, the end
    of a task and fresh random bytes are interfaces. *)

From S2P Require Export Engines InitSpec Environment Callback.
From S2P Require InitRun.

(** *** The host's sockets *)

Inductive BindError :=
  | AddrInUse
  | BindFailed (source : str).
(** A bound listener: the address asked for, and what [local_addr] says of it. *)
Record Listener := mkListener { asked : Allowlist.SocketAddr; local_addr : result str Allowlist.SocketAddr }.
(** [TcpListener::bind], after the binds before it. *)
Class HostSockets := bind_answer : list Allowlist.SocketAddr -> Allowlist.SocketAddr -> result BindError (result str Allowlist.SocketAddr).
(** [tempfile::Builder::tempdir_in] with a prefix. *)
Class TempDirs := tempdir_in : str -> str -> ST FileSystem.Fs FileSystem.IoError str.

Module HostServices.
Import ConfigTypes IpAddr Allowlist FileSystem HostError HostPaths Engines.
Import InitSpec Environment Handshake.

#[export] Instance SocketAddr_eq_dec : EqDecision SocketAddr.
Proof. solve_decision. Defined.

(** ** Data *)

Definition HOST_ALIAS : str := "codex-start-host".
Definition DEFAULT_EGRESS_PROXY : str := "codex-start-proxy:3128".
Definition CONTAINER_TOKEN_DIRECTORY : str := "/run/codex-start/secrets/host-services".
Definition CONTAINER_TOKEN_FILE : str := "/run/codex-start/secrets/host-services/token".
Definition SSH_AGENT_SOCKET : str := "/home/codex/.local/state/codex-start/ssh-agent.sock".
Definition GPG_AGENT_SOCKET : str := "/home/codex/.gnupg/S.gpg-agent".
Definition LOCALHOST : IpAddr := V4 [127; 0; 0; 1]%Z.
Definition UNSPECIFIED : IpAddr := V4 [0; 0; 0; 0]%Z.
Definition OAUTH_TARGET_HOST : IpAddr := UNSPECIFIED.
Definition DEFAULT_OAUTH_CALLBACK_PORT : Z := 1455.
Definition OLLAMA_PORT : Z := 11434.
Definition LM_STUDIO_PORT : Z := 1234.
Definition HOST_SSH_PROGRAM : str := "/usr/local/bin/codex-start-host-ssh".
Definition INIT_PROGRAM : str := "/usr/local/bin/codex-start-init".
Definition DEFAULT_SSH_RULES : list str := strs ["github.com:22"; "ssh.github.com:443"].
Definition DEFAULT_BROWSER_RULES : list str := strs ["auth.openai.com:443"; "chatgpt.com:443"; "*.openai.com:443"].
Definition SESSION_AGENT_TARGET_ENV : str := "CODEX_START_SESSION_AGENT_TARGET".

Record BrowserOpener := mkBrowserOpener { opener_program : str; opener_args : list str; timeout_seconds : Z }.
(** The default on Linux. *)
Definition BrowserOpener_default : BrowserOpener := mkBrowserOpener "xdg-open" [] 10.
Record HostServiceSettings := mkHostServiceSettings {
  egress_proxy : str;
  egress_proxy_token_file : option str;
  browser_opener : BrowserOpener;
  ssh_program : str;
  oauth_callback_address : SocketAddr;
  oauth_target_address : SocketAddr;
  oauth_callback_url : str }.
Definition local_socket (port : Z) : SocketAddr := mkSocketAddr LOCALHOST port.
Definition HostServiceSettings_default : HostServiceSettings :=
  mkHostServiceSettings DEFAULT_EGRESS_PROXY None BrowserOpener_default "ssh" (local_socket DEFAULT_OAUTH_CALLBACK_PORT)
    (local_socket DEFAULT_OAUTH_CALLBACK_PORT) ("http://127.0.0.1:" ++ dec DEFAULT_OAUTH_CALLBACK_PORT).
Definition from_forwarding (config : ForwardingConfig) : HostServiceSettings :=
  let browser_opener :=
    match ConfigTypes.browser_opener config with
    | program :: arguments => mkBrowserOpener program arguments (timeout_seconds BrowserOpener_default)
    | [] => BrowserOpener_default
    end in
  mkHostServiceSettings (egress_proxy HostServiceSettings_default) (egress_proxy_token_file HostServiceSettings_default)
    browser_opener (host_ssh_program config) (local_socket (oauth_callback_port config)) (local_socket (oauth_callback_port config))
    ("http://127.0.0.1:" ++ dec (oauth_callback_port config)).
Definition set_oauth_callback (self : HostServiceSettings) (callback : Callback.McpOauthCallback) : HostServiceSettings :=
  let socket address := mkSocketAddr (Callback.addr_ip address) (Callback.addr_port address) in
  mkHostServiceSettings (egress_proxy self) (egress_proxy_token_file self) (browser_opener self) (ssh_program self)
    (socket (Callback.listener callback)) (socket (Callback.codex_listener callback)) (Callback.base_url callback).

(** [ForwardingPlan] of [forwarding.rs], without the handles it keeps alive. *)
Record ForwardingPlan := mkForwardingPlan {
  forwarding_mounts : list MountRequest;
  forwarding_env : bmap str;
  forwarding_warnings : list str;
  ssh_agent_relay : option str;
  gpg_agent_relay : option str }.

Record HostServiceOptions := mkHostServiceOptions {
  runtime : Runtime;
  runtime_parent : str;
  network : NetworkMode;
  forwarding_config : ForwardingConfig;
  forwarding : ForwardingPlan;
  proxy : ProxyConfig;
  environment_services : list HostServiceSpec;
  workload_argv : list str;
  browser_allow_hosts : list str;
  allow_ssh_hosts : list str;
  settings : HostServiceSettings }.

Record HostServicePlan := mkHostServicePlan {
  init_services : list InitServiceSpec;
  mounts : list MountRequest;
  env : bmap str;
  publish : list PublishRequest;
  add_hosts : bmap str;
  allow_hosts : list str;
  allow_private : list str;
  ownership_paths : list str;
  warnings : list str }.
Definition HostServicePlan_default : HostServicePlan := mkHostServicePlan [] [] [] [] [] [] [] [] [].

(** ** Local providers *)

Inductive LocalProvider := Ollama | LmStudio.
#[export] Instance LocalProvider_eq_dec : EqDecision LocalProvider.
Proof. solve_decision. Defined.
Definition parse_local_provider (value : str) : option LocalProvider :=
  if eq_ignore_ascii_case value "ollama" then Some Ollama
  else if eq_ignore_ascii_case value "lmstudio" || eq_ignore_ascii_case value "lm-studio" || eq_ignore_ascii_case value "lm_studio"
  then Some LmStudio
  else None.
Fixpoint scan_providers (saw_oss : bool) (explicit : option LocalProvider) (argv : list str) : bool * option LocalProvider :=
  match argv with
  | [] => (saw_oss, explicit)
  | argument :: rest =>
      if argument =s? "--oss" then scan_providers true explicit rest
      else if argument =s? "--local-provider" then
        match rest with
        | value :: rest => scan_providers saw_oss (parse_local_provider value) rest
        | [] => (saw_oss, explicit)
        end
      else match strip_prefix "--local-provider=" argument with
           | Some value => scan_providers saw_oss (parse_local_provider value) rest
           | None => scan_providers saw_oss explicit rest
           end
  end.
(** A set of at most one provider. *)
Definition detect_local_providers (argv : list str) : list LocalProvider :=
  let '(saw_oss, explicit) := scan_providers false None argv in
  match explicit with Some provider => [provider] | None => if saw_oss then [Ollama] else [] end.

(** ** Host tasks *)

Record HostSshConfig := mkHostSshConfig { ssh_allowlist : list AllowRule; ssh_config_program : str; ssh_relay : RelayConfig }.
Record BrowserOpenConfig := mkBrowserOpenConfig {
  browser_allowlist : list AllowRule;
  browser_program : str;
  browser_args : list str;
  browser_relay : RelayConfig;
  opener_timeout : Z }.
Record TcpForwardConfig := mkTcpForwardConfig { forward_to : Authority; forward_relay : RelayConfig }.
(** What a spawned task serves. *)
Inductive HostTask :=
  | AuthenticatedTcp (listener : Listener) (target : RelayTarget) (token : Auth.AuthToken) (config : RelayConfig)
  | HostSsh (listener : Listener) (token : Auth.AuthToken) (config : HostSshConfig)
  | BrowserOpen (listener : Listener) (token : Auth.AuthToken) (config : BrowserOpenConfig)
  | OauthListener (listener : Listener) (remote : str) (token : Auth.AuthToken) (config : RelayConfig)
  | TcpForwarder (listener : Listener) (config : TcpForwardConfig).
Record ServiceTask := mkServiceTask { task_label : str; task : HostTask }.
(** How a task ends: what its service returned, or its join error. *)
Inductive TaskEnd :=
  | Returned (outcome : result str unit)
  | Cancelled
  | Panicked (message : str).
(** [finished] is the end of a task that has one; [joined] the one that is waited for. *)
Class HostTasks := {
  finished : ServiceTask -> option TaskEnd;
  joined : ServiceTask -> TaskEnd }.

Record Manager := mkManager {
  plan : HostServicePlan;
  shutdown_sent : bool;
  tasks : list ServiceTask;
  authentication_directory : option str;
  port_reservations : list Listener }.
Record World := mkWorld { host_fs : Fs; binds : list SocketAddr; manager : Manager }.
Notation M := (ST World HostError) (only parsing).

Definition set_manager (f : Manager -> Manager) (w : World) : World := mkWorld (host_fs w) (binds w) (f (manager w)).
Definition set_plan (f : HostServicePlan -> HostServicePlan) (m : Manager) : Manager :=
  mkManager (f (plan m)) (shutdown_sent m) (tasks m) (authentication_directory m) (port_reservations m).
Definition update_plan (f : HostServicePlan -> HostServicePlan) : M unit := modify (set_manager (set_plan f)).
(** One field of the plan. *)
Definition on_services f p := mkHostServicePlan (f (init_services p)) (mounts p) (env p) (publish p) (add_hosts p) (allow_hosts p) (allow_private p) (ownership_paths p) (warnings p).
Definition on_mounts f p := mkHostServicePlan (init_services p) (f (mounts p)) (env p) (publish p) (add_hosts p) (allow_hosts p) (allow_private p) (ownership_paths p) (warnings p).
Definition on_env f p := mkHostServicePlan (init_services p) (mounts p) (f (env p)) (publish p) (add_hosts p) (allow_hosts p) (allow_private p) (ownership_paths p) (warnings p).
Definition on_publish f p := mkHostServicePlan (init_services p) (mounts p) (env p) (f (publish p)) (add_hosts p) (allow_hosts p) (allow_private p) (ownership_paths p) (warnings p).
Definition on_add_hosts f p := mkHostServicePlan (init_services p) (mounts p) (env p) (publish p) (f (add_hosts p)) (allow_hosts p) (allow_private p) (ownership_paths p) (warnings p).
Definition on_allow_hosts f p := mkHostServicePlan (init_services p) (mounts p) (env p) (publish p) (add_hosts p) (f (allow_hosts p)) (allow_private p) (ownership_paths p) (warnings p).
Definition on_allow_private f p := mkHostServicePlan (init_services p) (mounts p) (env p) (publish p) (add_hosts p) (allow_hosts p) (f (allow_private p)) (ownership_paths p) (warnings p).
Definition on_ownership f p := mkHostServicePlan (init_services p) (mounts p) (env p) (publish p) (add_hosts p) (allow_hosts p) (allow_private p) (f (ownership_paths p)) (warnings p).
Definition on_warnings f p := mkHostServicePlan (init_services p) (mounts p) (env p) (publish p) (add_hosts p) (allow_hosts p) (allow_private p) (ownership_paths p) (f (warnings p)).
Definition push_service (service : InitServiceSpec) : M unit := update_plan (on_services (fun l => l ++ [service])).
Definition set_env (name value : str) : M unit := update_plan (on_env (binsert name value)).
Definition push_warning (warning : str) : M unit := update_plan (on_warnings (fun l => l ++ [warning])).
Definition spawn (label : str) (service : HostTask) : M unit :=
  modify (set_manager (fun m => mkManager (plan m) (shutdown_sent m) (tasks m ++ [mkServiceTask label service])
                                  (authentication_directory m) (port_reservations m))).
(** A call on the host's files. *)
Definition on_host {E A} (m : ST Fs E A) : ST World E A := fun w =>
  match m (host_fs w) with Some (r, fs) => Some (r, mkWorld fs (binds w) (manager w)) | None => None end.
Definition bind `{HostSockets} (address : SocketAddr) : ST World HostError (result BindError Listener) :=
  answer ← gets (fun w => bind_answer (binds w) address);
  modify (fun w => mkWorld (host_fs w) (address :: binds w) (manager w)) ;;
  mret (mkListener address <$> answer).

(** ** Settings *)

Definition config_error (message : str) : HostError := HostError.Config message.
Definition safe_command_word (value : str) : bool :=
  nonempty value && forallb (fun byte => is_alphanumeric byte || is_byte "/" byte || is_byte "." byte || is_byte "_" byte
                                          || is_byte "-" byte || is_byte ":" byte) value.
Definition safe_process_value (value : str) : bool := negb (contains_byte NUL value).
Definition is_ipv4 (ip : IpAddr) : bool := match ip with V4 _ => true | V6 _ => false end.

Section services.
Context {I : Idna} {U : UrlCrate} {H : HostSockets} {T : HostTasks} {D : TempDirs} {V : EnvironmentVariables}.

Definition valid_oauth_callback_settings (settings : HostServiceSettings) : bool :=
  let address := oauth_callback_address settings in
  let target := oauth_target_address settings in
  if negb (ip_is_loopback (socket_ip address)) || (socket_port address =? 0)%Z
     || negb (bool_decide (socket_ip target = LOCALHOST)) || negb (socket_port target =? socket_port address)%Z then false
  else
    match Url_parse (oauth_callback_url settings) with
    | None => false
    | Some url =>
        if negb (url_scheme url =s? "http") || nonempty (url_username url) || bool_decide (is_Some (url_password url))
           || bool_decide (is_Some (url_query url)) || bool_decide (is_Some (url_fragment url))
           || negb (bool_decide (url_port_or_known_default url = Some (socket_port address))) then false
        else
          match url_host url with
          | Some (Host_Domain host) => eq_ignore_ascii_case host "localhost" && is_ipv4 (socket_ip address)
          | Some (Host_Ipv4 ip) => bool_decide (socket_ip address = V4 ip)
          | Some (Host_Ipv6 ip) => bool_decide (socket_ip address = V6 ip)
          | None => false
          end
    end.
Definition validate_settings (settings : HostServiceSettings) : result HostError unit :=
  map_err (fun error => config_error ("invalid host-service egress proxy " ++ egress_proxy settings ++ ": " ++ AllowlistError_to_string error))
    (Authority_parse (egress_proxy settings) None) ;;
  err_if (negb (valid_oauth_callback_settings settings) || (timeout_seconds (browser_opener settings) =? 0)%Z
          || negb (nonempty (opener_program (browser_opener settings))) || negb (nonempty (ssh_program settings)))
    (config_error "host-service ports, timeouts, and executable paths must be non-empty/non-zero") ;;
  err_if (negb (safe_process_value (opener_program (browser_opener settings)))
          || existsb (fun argument => negb (safe_process_value argument)) (opener_args (browser_opener settings))
          || negb (safe_process_value (ssh_program settings)))
    (config_error "host-service executable paths and arguments cannot contain NUL bytes") ;;
  err_if (is_some_and (egress_proxy_token_file settings) (fun path => negb (safe_command_word path)))
    (config_error "egress proxy token path contains characters unsafe for the fixed BROWSER command").

Definition has_requested_host_services (options : HostServiceOptions) : bool :=
  bool_decide (is_Some (ssh_agent_relay (forwarding options))) || bool_decide (is_Some (gpg_agent_relay (forwarding options)))
  || host_ssh (forwarding_config options) || browser (forwarding_config options) || nonempty (environment_services options)
  || (local_providers (forwarding_config options) && nonempty (detect_local_providers (workload_argv options))).

(** ** Targets *)

Definition normalize_host_service_target (host gateway : str) : result HostError (str * bool) :=
  requested ← map_err (fun error => config_error ("invalid host service target " ++ host ++ ": " ++ AllowlistError_to_string error))
                (NormalizedHost_parse host);
  gateway_host ← map_err (fun error => config_error ("invalid runtime host gateway " ++ gateway ++ ": " ++ AllowlistError_to_string error))
                   (NormalizedHost_parse gateway);
  let is_host_loopback :=
    one_of host ["host.containers.internal"; "host.docker.internal"; "codex-start-host"]
    || match requested with Domain domain => domain =s? "localhost" | Ip ip => ip_is_loopback ip end in
  Ok (if is_host_loopback then (authority_name gateway_host, true) else (authority_name requested, false)).
Definition authority (host : str) (port : Z) : result HostError str :=
  err_if (port =? 0)%Z (config_error "host service ports must be non-zero") ;;
  parsed ← map_err (fun error => config_error ("invalid host service target " ++ host ++ ": " ++ AllowlistError_to_string error))
             (NormalizedHost_parse host);
  Ok (authority_name parsed ++ ":" ++ dec port).
Definition validate_container_alias (alias : str) : result HostError unit :=
  match NormalizedHost_parse alias with
  | Ok (Domain _) => Ok tt
  | Ok (Ip ip) =>
      if bool_decide (ip = LOCALHOST) then Ok tt
      else Err (config_error ("container_host " ++ alias ++ " must be a hostname or loopback address"))
  | Err error => Err (config_error ("invalid container_host " ++ alias ++ ": " ++ AllowlistError_to_string error))
  end.
Definition NormalizedHost_eqb (a b : NormalizedHost) : bool :=
  match a, b with
  | Domain a, Domain b => a =s? b
  | Ip a, Ip b => bool_decide (a = b)
  | _, _ => false
  end.
Definition authority_uses_host (value expected : str) : result HostError bool :=
  authority ← map_err (fun error => config_error ("invalid generated authority " ++ value ++ ": " ++ AllowlistError_to_string error))
                (Authority_parse value None);
  expected ← map_err (fun error => config_error ("invalid container-runtime host gateway " ++ expected ++ ": " ++ AllowlistError_to_string error))
               (NormalizedHost_parse expected);
  Ok (NormalizedHost_eqb (auth_host authority) expected).
Definition parse_allowlist (rules : list str) (label : str) : result HostError (list AllowRule) :=
  map_err (fun error => config_error ("invalid " ++ label ++ " host allow-list: " ++ AllowlistError_to_string error)) (AllowList_parse rules).
Definition normalize_ssh_rule (rule : str) : result HostError str :=
  if starts_with "*." rule then Ok (if contains_byte ":" rule then rule else rule ++ ":22")
  else map_err (fun error => config_error ("invalid SSH host rule " ++ rule ++ ": " ++ AllowlistError_to_string error))
         (display_with_port <$> Authority_parse rule (Some 22%Z)).
Definition normalize_ssh_rules (rules : list str) : result HostError (list str) := collect_results normalize_ssh_rule rules.

Definition service_limits (proxy : ProxyConfig) : RelayConfig :=
  mkRelayConfig (Z.to_nat (ConfigTypes.max_connections proxy)) (seconds (ConfigTypes.connect_timeout_seconds proxy))
    (seconds (ConfigTypes.handshake_timeout_seconds proxy)) (seconds (ConfigTypes.idle_timeout_seconds proxy)).
(** The four limits that a service of the container is given. *)
Definition limits_of_proxy (proxy : ProxyConfig) : ServiceLimits :=
  mkServiceLimits (ConfigTypes.max_connections proxy) (ConfigTypes.connect_timeout_seconds proxy)
    (ConfigTypes.handshake_timeout_seconds proxy) (ConfigTypes.idle_timeout_seconds proxy).
Definition network_service_spec (network : NetworkMode) (listen : SocketAddr) (target : str) (proxy : ProxyConfig)
    (settings : HostServiceSettings) : result HostError InitServiceSpec :=
  match network with
  | NetworkMode_Allowlist =>
      Ok (InitSpec.Connect (mkConnectServiceSpec listen (egress_proxy settings) target (egress_proxy_token_file settings) (limits_of_proxy proxy)))
  | NetworkMode_Bridge | NetworkMode_Host =>
      Ok (TcpForward (mkTcpForwardServiceSpec listen target (ConfigTypes.max_connections proxy)
                        (ConfigTypes.connect_timeout_seconds proxy) (ConfigTypes.idle_timeout_seconds proxy)))
  | NetworkMode_Offline => Err (config_error "internal error: attempted to plan a host service in offline mode")
  end.
Definition proxy_for (network : NetworkMode) (settings : HostServiceSettings) : option str :=
  if bool_decide (network = NetworkMode_Allowlist) then Some (egress_proxy settings) else None.
Definition proxy_token_for (network : NetworkMode) (settings : HostServiceSettings) : option str :=
  if bool_decide (network = NetworkMode_Allowlist) then egress_proxy_token_file settings else None.
Definition browser_command (remote : str) (network : NetworkMode) (settings : HostServiceSettings) (proxy : ProxyConfig) : str :=
  INIT_PROGRAM ++ " browser-open --bridge " ++ remote ++ " --token-file " ++ CONTAINER_TOKEN_FILE
  ++ (if bool_decide (network = NetworkMode_Allowlist)
      then " --proxy " ++ egress_proxy settings
           ++ match egress_proxy_token_file settings with Some path => " --proxy-token-file " ++ from_utf8_lossy path | None => [] end
      else [])
  ++ " --max-connections " ++ dec (ConfigTypes.max_connections proxy)
  ++ " --connect-timeout-seconds " ++ dec (ConfigTypes.connect_timeout_seconds proxy)
  ++ " --handshake-timeout-seconds " ++ dec (ConfigTypes.handshake_timeout_seconds proxy)
  ++ " --idle-timeout-seconds " ++ dec (ConfigTypes.idle_timeout_seconds proxy).
Definition host_remote (runtime : Runtime) (address : SocketAddr) : result HostError str :=
  authority (host_gateway_name runtime) (socket_port address).

Fixpoint any_host_loopback (gateway : str) (required : bool) (services : list HostServiceSpec) : result HostError bool :=
  match services with
  | [] => Ok required
  | service :: services =>
      normalized ← normalize_host_service_target (service_host service) gateway;
      any_host_loopback gateway (required || normalized.2) services
  end.
Definition kept_services (options : HostServiceOptions) : list HostServiceSpec :=
  List.filter (fun service => negb (service_remove service)) (environment_services options).
Definition is_network (options : HostServiceOptions) (mode : NetworkMode) : bool := bool_decide (network options = mode).
Definition requires_authentication (options : HostServiceOptions) : result HostError bool :=
  if is_network options NetworkMode_Offline then Ok false
  else if bool_decide (is_Some (ssh_agent_relay (forwarding options))) || bool_decide (is_Some (gpg_agent_relay (forwarding options)))
          || (host_ssh (forwarding_config options) && is_network options NetworkMode_Allowlist) || browser (forwarding_config options)
  then Ok true
  else if is_network options NetworkMode_Host then Ok false
  else if local_providers (forwarding_config options) && nonempty (detect_local_providers (workload_argv options)) then Ok true
  else any_host_loopback (host_gateway_name (runtime options)) false (kept_services options).

(** ** The token *)

Definition write_private_file (path contents : str) : ST Fs HostError unit :=
  key ← with_path path (create_new path (Regular []) 0x180);
  with_path path (write_file key contents) ;;
  with_path path sync_all ;;
  set_private_file path.
(** [token_bytes] are the bytes of two fresh identifiers. *)
Definition create_authentication_bundle (runtime_parent token_bytes : str) : ST Fs HostError (str * Auth.AuthToken) :=
  directory ← with_path runtime_parent (tempdir_in "host-services-" runtime_parent);
  create_private_dir directory ;;
  token ← lift (map_err (fun error => HostError.Runtime ("could not create relay token: " ++ InitRun.InitRun.token_error_text error))
                  (Auth.AuthToken_new token_bytes));
  write_private_file (path_join directory "token") token_bytes ;;
  mret (directory, token).
Definition required_relay_token (token : option Auth.AuthToken) (label : str) : result HostError Auth.AuthToken :=
  ok_or token (HostError.Runtime ("internal error: authenticated host relay " ++ label ++ " has no token")).

(** ** Listeners *)

Definition bind_error_text (error : BindError) : str :=
  match error with AddrInUse => "Address already in use (os error 98)" | BindFailed source => source end.
Definition bind_authenticated_listener (label : str) : M Listener :=
  bound ← bind (mkSocketAddr UNSPECIFIED 0);
  lift (map_err (fun source => HostError.Runtime ("failed to bind " ++ label ++ " relay: " ++ bind_error_text source)) bound).
Definition reserve_ephemeral_port : M Listener :=
  bound ← bind (local_socket 0);
  lift (map_err (fun source => HostError.Runtime ("failed to reserve a loopback port: " ++ bind_error_text source)) bound).
Definition inspected (message : str) (listener : Listener) : M SocketAddr :=
  lift (map_err (fun source => HostError.Runtime (message ++ source)) (local_addr listener)).
Definition listener_remote (options : HostServiceOptions) (message : str) (listener : Listener) : M str :=
  address ← inspected ("failed to inspect " ++ message ++ " relay: ") listener;
  lift (host_remote (runtime options) address).
Definition permit_authenticated_remote (remote : str) : M unit :=
  update_plan (on_allow_hosts (fun l => l ++ [remote])) ;; update_plan (on_allow_private (fun l => l ++ [remote])).

Definition add_container_alias (container_host : option str) : M unit :=
  match container_host with
  | None => mret tt
  | Some alias =>
      lift (validate_container_alias alias) ;;
      if alias =s? "localhost" then mret tt else update_plan (on_add_hosts (binsert alias (ip_to_string LOCALHOST)))
  end.

Definition start_tcp_relay (label : str) (listen : SocketAddr) (target_port : Z) (container_host : option str)
    (token : option Auth.AuthToken) (options : HostServiceOptions) : M unit :=
  add_container_alias container_host ;;
  if is_network options NetworkMode_Host then
    throw_if (negb (socket_port listen =? target_port)%Z)
      (config_error ("host networking cannot remap host loopback port " ++ dec target_port ++ " to " ++ dec (socket_port listen)))
  else
    token ← lift (required_relay_token token label);
    host_listener ← bind_authenticated_listener label;
    remote ← listener_remote options label host_listener;
    permit_authenticated_remote remote ;;
    push_service (TcpBridge (mkTcpBridgeServiceSpec listen remote CONTAINER_TOKEN_FILE (proxy_for (network options) (settings options))
                    (proxy_token_for (network options) (settings options)) (limits_of_proxy (proxy options)))) ;;
    spawn label (AuthenticatedTcp host_listener (Tcp ("127.0.0.1:" ++ dec target_port)) token (service_limits (proxy options))).
Definition add_network_service (listen : SocketAddr) (target : str) (container_host : option str) (allow_private : bool)
    (options : HostServiceOptions) : M unit :=
  add_container_alias container_host ;;
  to_host ← (if is_network options NetworkMode_Host then lift (authority_uses_host target (host_gateway_name (runtime options))) else mret false);
  if (to_host : bool) then
    target_authority ← lift (map_err (fun error => config_error ("invalid generated host service target: " ++ AllowlistError_to_string error))
                               (Authority_parse target None));
    throw_if (negb (socket_port listen =? auth_port target_authority)%Z)
      (config_error ("host networking cannot remap host service " ++ target ++ " to loopback port " ++ dec (socket_port listen)))
  else
    update_plan (on_allow_hosts (fun l => l ++ [target])) ;;
    (if allow_private then update_plan (on_allow_private (fun l => l ++ [target]))
     else
       denied ← (if is_network options NetworkMode_Allowlist && ConfigTypes.block_private_addresses (proxy options)
                 then lift (authority_uses_host target (host_gateway_name (runtime options))) else mret false);
       if (denied : bool) then push_warning ("host service " ++ target ++ " is not marked allow_private and may be denied by private-address policy")
       else mret tt) ;;
    service ← lift (network_service_spec (network options) listen target (proxy options) (settings options));
    push_service service.
Definition start_unix_relay (label socket container_socket env_name : str) (token : Auth.AuthToken) (options : HostServiceOptions) : M unit :=
  listener ← bind_authenticated_listener label;
  remote ← listener_remote options label listener;
  permit_authenticated_remote remote ;;
  push_service (UnixBridge (mkUnixBridgeServiceSpec container_socket remote CONTAINER_TOKEN_FILE (proxy_for (network options) (settings options))
                  (proxy_token_for (network options) (settings options)) (limits_of_proxy (proxy options)))) ;;
  set_env env_name container_socket ;;
  match path_parent container_socket with
  | Some path => update_plan (on_ownership (fun l => if existsb (same_path path) l then l else l ++ [path]))
  | None => mret tt
  end ;;
  let target := if label =s? "SSH agent"
                then match var_os SESSION_AGENT_TARGET_ENV with Some path => UnixTargetFile path | None => Unix socket end
                else Unix socket in
  spawn label (AuthenticatedTcp listener target token (service_limits (proxy options))).

Fixpoint set_envs (entries : list (str * str)) : M unit :=
  match entries with [] => mret tt | (name, value) :: entries => set_env name value ;; set_envs entries end.
Definition start_host_ssh (token : Auth.AuthToken) (options : HostServiceOptions) : M unit :=
  rules ← (if nonempty (allow_ssh_hosts options) then lift (normalize_ssh_rules (allow_ssh_hosts options)) else mret DEFAULT_SSH_RULES);
  allowlist ← lift (parse_allowlist rules "SSH");
  listener ← bind_authenticated_listener "host SSH";
  remote ← listener_remote options "host SSH" listener;
  permit_authenticated_remote remote ;;
  set_envs [("GIT_SSH_COMMAND" : str, HOST_SSH_PROGRAM); ("GIT_SSH_VARIANT" : str, "ssh" : str);
            ("CODEX_START_HOST_SSH_ADDR" : str, remote); ("CODEX_START_HOST_SSH_TOKEN_FILE" : str, CONTAINER_TOKEN_FILE);
            ("CODEX_START_HOST_SSH_CONNECT_TIMEOUT" : str, dec (ConfigTypes.connect_timeout_seconds (proxy options)));
            ("CODEX_START_HOST_SSH_HANDSHAKE_TIMEOUT" : str, dec (ConfigTypes.handshake_timeout_seconds (proxy options)));
            ("CODEX_START_HOST_SSH_IDLE_TIMEOUT" : str, dec (ConfigTypes.idle_timeout_seconds (proxy options)))] ;;
  match proxy_for (network options) (settings options) with
  | Some proxy => set_env "CODEX_START_HOST_SSH_PROXY" proxy
  | None => mret tt
  end ;;
  match proxy_token_for (network options) (settings options) with
  | Some path => set_env "CODEX_START_HOST_SSH_PROXY_TOKEN_FILE" path
  | None => mret tt
  end ;;
  spawn "host SSH" (HostSsh listener token (mkHostSshConfig allowlist (ssh_program (settings options)) (service_limits (proxy options)))).

Definition browser_rules (options : HostServiceOptions) : list str :=
  fold_left (fun rules rule => if existsb (str_eqb rule) rules then rules else rules ++ [rule]) DEFAULT_BROWSER_RULES
    (browser_allow_hosts options).
Definition start_browser (token : Auth.AuthToken) (options : HostServiceOptions) : M unit :=
  allowlist ← lift (parse_allowlist (browser_rules options) "browser");
  listener ← bind_authenticated_listener "browser opener";
  remote ← listener_remote options "browser" listener;
  permit_authenticated_remote remote ;;
  set_envs [("BROWSER" : str, browser_command remote (network options) (settings options) (proxy options));
            ("CODEX_START_BROWSER_ADDR" : str, remote); ("CODEX_START_BROWSER_TOKEN_FILE" : str, CONTAINER_TOKEN_FILE)] ;;
  let opener := browser_opener (settings options) in
  spawn "browser opener" (BrowserOpen listener token (mkBrowserOpenConfig allowlist (opener_program opener) (opener_args opener)
    (service_limits (proxy options)) (seconds (timeout_seconds opener)))).

(** The callback's listener, unless its address is taken. *)
Definition bind_callback (callback : SocketAddr) (what : str) : M (option Listener) :=
  bound ← bind callback;
  match bound with
  | Ok listener => mret (Some listener)
  | Err AddrInUse =>
      push_warning ("Codex OAuth callback " ++ socket_addr_to_string callback
        ++ " is already in use; browser opening remains available but this run cannot own the " ++ what) ;;
      mret None
  | Err (BindFailed source) =>
      throw (HostError.Runtime ("cannot bind Codex OAuth callback " ++ socket_addr_to_string callback ++ ": " ++ source))
  end.
Definition start_host_network_oauth (options : HostServiceOptions) : M unit :=
  let callback := oauth_callback_address (settings options) in
  let target := oauth_target_address (settings options) in
  set_env "CODEX_START_OAUTH_CALLBACK" (oauth_callback_url (settings options)) ;;
  if bool_decide (callback = target) then mret tt
  else
    listener ← bind_callback callback "callback relay";
    match listener with
    | None => mret tt
    | Some listener =>
        target ← lift (map_err (fun error => config_error ("invalid native Codex OAuth callback target: " ++ AllowlistError_to_string error))
                         (Authority_parse (socket_addr_to_string target) None));
        spawn "OAuth callback" (TcpForwarder listener (mkTcpForwardConfig target (service_limits (proxy options))))
    end.
Definition start_oauth (token : Auth.AuthToken) (options : HostServiceOptions) : M unit :=
  if is_network options NetworkMode_Host then start_host_network_oauth options
  else
    listener ← bind_callback (oauth_callback_address (settings options)) "reverse callback";
    match listener with
    | None => mret tt
    | Some listener =>
        host_reservation ← reserve_ephemeral_port;
        host_address ← inspected "failed to inspect reserved port: " host_reservation;
        container_reservation ← reserve_ephemeral_port;
        container_address ← inspected "failed to inspect reserved port: " container_reservation;
        modify (set_manager (fun m => mkManager (plan m) (shutdown_sent m) (tasks m) (authentication_directory m)
                                        (port_reservations m ++ [host_reservation]))) ;;
        let host_port := socket_port host_address in
        let container_port := socket_port container_address in
        push_service (OauthTarget (mkOAuthTargetServiceSpec (mkSocketAddr OAUTH_TARGET_HOST container_port)
          (oauth_target_address (settings options)) CONTAINER_TOKEN_FILE (limits_of_proxy (proxy options)))) ;;
        update_plan (on_publish (fun l => l ++ [mkPublishRequest LOCALHOST host_port container_port "tcp"])) ;;
        set_env "CODEX_START_OAUTH_CALLBACK" (oauth_callback_url (settings options)) ;;
        spawn "OAuth callback" (OauthListener listener (socket_addr_to_string (local_socket host_port)) token (service_limits (proxy options)))
    end.

(** ** The plan of the network services *)

(** [ensure_unique_listener], with the set it has filled. *)
Definition ensure_unique_listener (listeners : list SocketAddr) (listen : SocketAddr) (id : str) : result HostError (list SocketAddr) :=
  if memb listen listeners
  then Err (config_error ("host service " ++ id ++ " duplicates container listener " ++ socket_addr_to_string listen))
  else Ok (listen :: listeners).
Fixpoint plan_declared (listeners : list SocketAddr) (token : option Auth.AuthToken) (options : HostServiceOptions)
    (services : list HostServiceSpec) : M (list SocketAddr) :=
  match services with
  | [] => mret listeners
  | service :: services =>
      '(target_host, host_loopback) ← lift (normalize_host_service_target (service_host service) (host_gateway_name (runtime options)));
      let listen := local_socket (default (service_port service) (service_container_port service)) in
      listeners ← lift (ensure_unique_listener listeners listen (service_id service));
      (if (host_loopback : bool)
       then start_tcp_relay (service_id service) listen (service_port service) (service_container_host service) token options
       else
         target ← lift (authority target_host (service_port service));
         add_network_service listen target (service_container_host service) (service_allow_private service) options) ;;
      plan_declared listeners token options services
  end.
Definition provider_service (provider : LocalProvider) : str * Z :=
  match provider with Ollama => ("automatic Ollama" : str, OLLAMA_PORT) | LmStudio => ("automatic LM Studio" : str, LM_STUDIO_PORT) end.
Fixpoint plan_providers (listeners : list SocketAddr) (token : option Auth.AuthToken) (options : HostServiceOptions)
    (providers : list LocalProvider) : M (list SocketAddr) :=
  match providers with
  | [] => mret listeners
  | provider :: providers =>
      let '(id, port) := provider_service provider in
      let listen := local_socket port in
      listeners ← lift (ensure_unique_listener listeners listen id);
      start_tcp_relay id listen port None token options ;;
      match provider with
      | Ollama => set_env "OLLAMA_HOST" ("http://127.0.0.1:" ++ dec OLLAMA_PORT)
      | LmStudio => set_env "LMSTUDIO_BASE_URL" ("http://127.0.0.1:" ++ dec LM_STUDIO_PORT ++ "/v1")
      end ;;
      plan_providers listeners token options providers
  end.
Definition plan_network_services (options : HostServiceOptions) (token : option Auth.AuthToken) : M unit :=
  listeners ← plan_declared [] token options (kept_services options);
  if local_providers (forwarding_config options)
  then plan_providers listeners token options (detect_local_providers (workload_argv options)) ;; mret tt
  else mret tt.

(** ** Health *)

Definition task_failure (shutting_down : bool) (ended : ServiceTask) (how : TaskEnd) : list str :=
  match how with
  | Returned (Ok _) => if shutting_down then [] else [task_label ended ++ " listener stopped unexpectedly"]
  | Returned (Err error) => [task_label ended ++ ": " ++ error]
  | Panicked error => [task_label ended ++ " task failed: " ++ error]
  | Cancelled => []
  end.
(** [Vec::swap_remove]. *)
Definition swap_remove {A} (index : nat) (l : list A) : list A :=
  match last l with
  | Some final => if (S index =? length l)%nat then removelast l else <[index := final]> (removelast l)
  | None => l
  end.
(** The loop, of at most [steps] rounds: each drops a task or passes one. *)
Fixpoint poll_tasks (steps index : nat) (shutting_down : bool) (running : list ServiceTask) (failures : list str) : list ServiceTask * list str :=
  match steps, running !! index with
  | S steps, Some ended =>
      match finished ended with
      | Some how => poll_tasks steps index shutting_down (swap_remove index running) (failures ++ task_failure shutting_down ended how)
      | None => poll_tasks steps (S index) shutting_down running failures
      end
  | _, _ => (running, failures)
  end.
Definition check_health : M unit :=
  m ← gets manager;
  let '(running, failures) := poll_tasks (length (tasks m)) 0 (shutdown_sent m) (tasks m) [] in
  modify (set_manager (fun m => mkManager (plan m) (shutdown_sent m) running (authentication_directory m) (port_reservations m))) ;;
  throw_if (nonempty failures) (HostError.Runtime ("host service failure: " ++ join "; " failures)).
Definition shutdown_failure (ended : ServiceTask) : list str :=
  match joined ended with
  | Returned (Ok _) | Cancelled => []
  | Returned (Err error) => [task_label ended ++ ": " ++ error]
  | Panicked error => [task_label ended ++ " task failed: " ++ error]
  end.
Definition shutdown : M unit :=
  ended ← gets (fun w => tasks (manager w));
  modify (set_manager (fun m => mkManager (plan m) true [] (authentication_directory m) (port_reservations m))) ;;
  let failures := flat_map shutdown_failure ended in
  throw_if (nonempty failures) (HostError.Runtime ("host service shutdown failed: " ++ join "; " failures)).
Definition release_port_reservations (m : Manager) : Manager :=
  mkManager (plan m) (shutdown_sent m) (tasks m) (authentication_directory m) [].

(** ** The start *)

(** The ownership paths are of the two sockets, whose texts are ordered as they are. *)
Definition sorted_texts (texts : list str) : list str := bkeys (bcollect (map (fun text => (text, tt)) texts)).
Definition normalize_plan (p : HostServicePlan) : HostServicePlan :=
  mkHostServicePlan (init_services p) (mounts p) (env p) (publish p) (add_hosts p) (sorted_texts (allow_hosts p)) (sorted_texts (allow_private p))
    (sorted_texts (ownership_paths p)) (warnings p).
Definition Manager_default : Manager := mkManager HostServicePlan_default false [] None [].
Definition token_mount (directory : str) : MountRequest := mkMountRequest Engines.Bind (Some directory) CONTAINER_TOKEN_DIRECTORY true.

Definition start_agents (token : Auth.AuthToken) (options : HostServiceOptions) : M unit :=
  match ssh_agent_relay (forwarding options) with
  | Some socket => start_unix_relay "SSH agent" socket SSH_AGENT_SOCKET "SSH_AUTH_SOCK" token options
  | None => mret tt
  end ;;
  match gpg_agent_relay (forwarding options) with
  | Some socket => start_unix_relay "GPG agent" socket GPG_AGENT_SOCKET "GPG_AGENT_SOCK" token options
  | None => mret tt
  end ;;
  (if host_ssh (forwarding_config options) && is_network options NetworkMode_Allowlist then start_host_ssh token options else mret tt) ;;
  if browser (forwarding_config options) then start_browser token options ;; start_oauth token options else mret tt.
(** The part of [start] for a workload with a network. *)
Definition start_connected (options : HostServiceOptions) (token_bytes : str) : M unit :=
  update_plan (on_add_hosts (fun _ => host_gateway_mapping (runtime options))) ;;
  authentication_required ← lift (requires_authentication options);
  token ← (if (authentication_required : bool) then
             '(directory, token) ← on_host (create_authentication_bundle (runtime_parent options) token_bytes);
             update_plan (on_mounts (fun l => l ++ [token_mount directory])) ;;
             modify (set_manager (fun m => mkManager (plan m) (shutdown_sent m) (tasks m) (Some directory) (port_reservations m))) ;;
             mret (Some token)
           else mret None);
  plan_network_services options token ;;
  match token with Some token => start_agents token options | None => mret tt end.
(** [HostServiceManager::start], on a world without a manager yet. *)
Definition start (options : HostServiceOptions) (token_bytes : str) : M unit :=
  modify (set_manager (fun _ => Manager_default)) ;;
  lift (validate_settings (settings options)) ;;
  on_host (create_private_dir (runtime_parent options)) ;;
  if is_network options NetworkMode_Offline then
    if has_requested_host_services options
    then push_warning "offline networking disables host agents, host SSH, browser login, OAuth callbacks, and local host services"
    else mret tt
  else
    start_connected options token_bytes ;;
    check_health ;;
    update_plan normalize_plan.
End services.

Lemma elem_of_sorted_texts x l : x ∈ sorted_texts l <-> x ∈ l.
Proof.
  unfold sorted_texts. rewrite <- bget_is_Some. unfold bcollect.
  rewrite (bget_bextend_const _ _ _ tt), map_map, map_id by (by intros [? []] _).
  case_bool_decide as E; [by split; [|eexists]|]. split; [by intros []|done].
Qed.
End HostServices.
