(* ===== verification/HostServicesFacts.v ===== *)
(** * What the host services of a run promise ([codex-start-host/src/host_services.rs])

    Offline runs reach nothing; nothing listens beyond loopback without the token;
    private addresses are permitted for the run's own relays and the services that
    ask for it; and no two services of the container listen at the same place. *)

From S2P Require Export HostServices.

Module HostServicesFacts.
Import ConfigTypes IpAddr Allowlist FileSystem HostError HostPaths Engines.
Import InitSpec Environment Handshake HostServices.

(** ** Values along a run *)

(** [m] only succeeds with a [Q] value. *)
Definition yields {S E A} (m : ST S E A) (Q : A -> Prop) : Prop := forall s a s', m s = Some (Ok a, s') -> Q a.
Lemma rel_bind_yields {S E A B} (R : S -> S -> Prop) `{!PreOrder R} (m : ST S E A) (f : A -> ST S E B) (Q : A -> Prop) :
  rel_m R m -> yields m Q -> (forall a, Q a -> rel_m R (f a)) -> rel_m R (m ≫= f).
Proof.
  intros Hm Hq Hf s r s' H. run_step H r1 s1 H1. trans s1; [by eapply Hm|]. destruct r1 as [a|e]; [|by destruct H as [_ ->]].
  eapply Hf; [|done]. by eapply Hq.
Qed.
Lemma yields_lift {S E A} (r : result E A) (Q : A -> Prop) : (forall a, r = Ok a -> Q a) -> yields (lift r : ST S E A) Q.
Proof. intros H s a s' [-> _]%lift_run_Ok. by apply H. Qed.
Lemma yields_ret {S E A} (a : A) (Q : A -> Prop) : Q a -> yields (mret a : ST S E A) Q.
Proof. by intros H s a' s' [= <- _]. Qed.
Lemma yields_bind {S E A B} (m : ST S E A) (f : A -> ST S E B) (P : A -> Prop) (Q : B -> Prop) :
  yields m P -> (forall a, P a -> yields (f a) Q) -> yields (m ≫= f) Q.
Proof. intros Hm Hf s b s' (a & s1 & H1 & H2)%bind_run_Ok. eapply Hf; [by eapply Hm|done]. Qed.

Section facts.
Context {I : Idna} {U : UrlCrate} {K : HostSockets} {T : HostTasks} {D : TempDirs} {V : EnvironmentVariables}.

(** ** Listeners *)

(** A relay's address: the engine's name of the host and the port of a listener
    that was bound to every interface at a port of the kernel's choice. *)
Definition relay_of (options : HostServiceOptions) (listener : Listener) (remote : str) : Prop :=
  asked listener = mkSocketAddr UNSPECIFIED 0
  /\ exists earlier address, bind_answer earlier (mkSocketAddr UNSPECIFIED 0) = Ok (Ok address)
                             /\ host_remote (runtime options) address = Ok remote.

(** [R] holds across a bind. *)
Section relation.
Context (R : World -> World -> Prop) `{!PreOrder R}.
Context (bind_R : forall w address, R w (mkWorld (host_fs w) (address :: binds w) (manager w))).
Context (fs_R : forall w fs, R w (mkWorld fs (binds w) (manager w))).

Lemma rel_bind_socket address : rel_m R (bind address).
Proof. unfold bind. by st_rel. Qed.
Lemma rel_authenticated label : rel_m R (bind_authenticated_listener label).
Proof. unfold bind_authenticated_listener. st_rel. apply rel_bind_socket. Qed.
Lemma rel_reserve : rel_m R reserve_ephemeral_port.
Proof. unfold reserve_ephemeral_port. st_rel. apply rel_bind_socket. Qed.
Lemma rel_remote options message listener : rel_m R (listener_remote options message listener).
Proof. unfold listener_remote, inspected. st_rel. Qed.
Lemma rel_on_host {A} (m : ST Fs HostError A) : rel_m R (on_host m).
Proof. intros w r w'. unfold on_host. destruct (m (host_fs w)) as [[r0 fs]|]; [|done]. intros [= _ <-]. apply fs_R. Qed.
End relation.

Lemma bind_yields address : yields (bind address) (fun r => forall listener, r = Ok listener ->
  asked listener = address /\ exists earlier, bind_answer earlier address = Ok (local_addr listener)).
Proof.
  intros w r w' H. unfold bind in H. apply bind_run_Ok in H as (answer & w1 & Ha & H). injection Ha as Eb <-.
  apply bind_run_Ok in H as ([] & w2 & _ & [= <- _]). intros listener E.
  destruct answer as [local|e]; [|done]. injection E as <-. split; [done|]. by exists (binds w).
Qed.
Lemma authenticated_yields label : yields (bind_authenticated_listener label) (fun listener =>
  asked listener = mkSocketAddr UNSPECIFIED 0 /\ exists earlier, bind_answer earlier (mkSocketAddr UNSPECIFIED 0) = Ok (local_addr listener)).
Proof.
  unfold bind_authenticated_listener. eapply yields_bind; [apply bind_yields|]. intros r Hr. apply yields_lift.
  intros listener H%map_err_Ok. by apply Hr.
Qed.
Lemma remote_yields options message label :
  yields (listener ← bind_authenticated_listener label; remote ← listener_remote options message listener; mret (listener, remote))
    (fun p => relay_of options p.1 p.2).
Proof.
  eapply yields_bind; [apply authenticated_yields|]. intros listener (Ha & earlier & Hb).
  eapply (yields_bind _ _ (fun remote => relay_of options listener remote)); [|by intros remote Hr; apply yields_ret].
  unfold listener_remote, inspected. eapply (yields_bind _ _ (fun address => local_addr listener = Ok address)).
  - apply yields_lift. intros address H%map_err_Ok. done.
  - intros address Hl. apply yields_lift. intros remote Hr. split; [done|]. exists earlier, address. by rewrite <- Hl.
Qed.
(** The three steps each relay begins with. *)
Lemma rel_relay (R : World -> World -> Prop) `{!PreOrder R} options label message (f : Listener -> str -> ST World HostError unit) :
  (forall w address, R w (mkWorld (host_fs w) (address :: binds w) (manager w))) ->
  (forall listener remote, relay_of options listener remote -> rel_m R (f listener remote)) ->
  rel_m R (listener ← bind_authenticated_listener label; remote ← listener_remote options message listener; f listener remote).
Proof.
  intros Hb Hf w r w' H. run_step H r1 w1 H1. trans w1; [by eapply rel_authenticated|].
  destruct r1 as [listener|e]; [|by destruct H as [_ ->]]. run_step H r2 w2 H2. trans w2; [by eapply rel_remote|].
  destruct r2 as [remote|e]; [|by destruct H as [_ ->]]. eapply Hf; [|done].
  apply (remote_yields options message label w (listener, remote) w2). rewrite run_bind, H1. cbv beta iota. by rewrite run_bind, H2.
Qed.

(** ** The steps of a start *)

Definition task_listener (t : HostTask) : Listener :=
  match t with
  | AuthenticatedTcp l _ _ _ | HostSsh l _ _ | BrowserOpen l _ _ | OauthListener l _ _ _ | TcpForwarder l _ => l
  end.
Definition task_token (t : HostTask) : option Auth.AuthToken :=
  match t with
  | AuthenticatedTcp _ _ token _ | HostSsh _ token _ | BrowserOpen _ token _ | OauthListener _ _ token _ => Some token
  | TcpForwarder _ _ => None
  end.
(** A task answers to the token, or listens at the address of the callback. *)
Definition guarded (options : HostServiceOptions) (token : Auth.AuthToken) (t : HostTask) : Prop :=
  task_token t = Some token \/ asked (task_listener t) = oauth_callback_address (settings options).

(** The authority behind a relay of the container. *)
Definition bridge_remote (service : InitServiceSpec) : option str :=
  match service with TcpBridge s => Some (tcp_remote s) | UnixBridge s => Some (unix_remote s) | _ => None end.
Definition declared_port (service : HostServiceSpec) : Z := default (service_port service) (service_container_port service).
(** The target of a declared service that is not on the host itself. *)
Definition declared_target (options : HostServiceOptions) (service : HostServiceSpec) (target : str) : Prop :=
  service ∈ kept_services options /\ exists target_host,
    normalize_host_service_target (service_host service) (host_gateway_name (runtime options)) = Ok (target_host, false)
    /\ authority target_host (service_port service) = Ok target.
Definition private_target (options : HostServiceOptions) (target : str) : Prop :=
  exists service, declared_target options service target /\ service_allow_private service = true.
(** The ports a run listens at in the container. *)
Definition planned_port (options : HostServiceOptions) (port : Z) : Prop :=
  (exists service, service ∈ kept_services options /\ port = declared_port service) \/ port = OLLAMA_PORT \/ port = LM_STUDIO_PORT.

(** [R] holds across each kind of step; [bridge] and [direct] say what is known
    of a service that is planned. *)
Record closed (options : HostServiceOptions) (token : Auth.AuthToken) (R : World -> World -> Prop)
    (bridge direct : InitServiceSpec -> Prop) : Prop := {
  closed_bind w address : R w (mkWorld (host_fs w) (address :: binds w) (manager w));
  closed_fs w fs : R w (mkWorld fs (binds w) (manager w));
  closed_plan w f : (forall p, init_services (f p) = init_services p /\ allow_private (f p) = allow_private p
                               /\ forall h, h ∈ allow_hosts p -> h ∈ allow_hosts (f p)) ->
    R w (set_manager (set_plan f) w);
  closed_relay w listener remote : relay_of options listener remote ->
    R w (set_manager (set_plan (on_allow_private (fun l => l ++ [remote]))) w);
  closed_private w target : private_target options target ->
    R w (set_manager (set_plan (on_allow_private (fun l => l ++ [target]))) w);
  closed_bridge w listener remote service : relay_of options listener remote -> bridge_remote service = Some remote -> bridge service ->
    R w (set_manager (set_plan (on_services (fun l => l ++ [service])))
           (set_manager (set_plan (on_allow_private (fun l => l ++ [remote])))
              (set_manager (set_plan (on_allow_hosts (fun l => l ++ [remote]))) w)));
  closed_direct w service : direct service -> R w (set_manager (set_plan (on_services (fun l => l ++ [service]))) w);
  closed_spawn w t : guarded options token (task t) ->
    R w (set_manager (fun m => mkManager (plan m) (shutdown_sent m) (tasks m ++ [t]) (authentication_directory m) (port_reservations m)) w);
  closed_other w f : (forall m, plan (f m) = plan m /\ tasks (f m) = tasks m) -> R w (set_manager f w) }.

Section steps.
Context (options : HostServiceOptions) (token : Auth.AuthToken) (R : World -> World -> Prop) `{!PreOrder R}.
Context (bridge direct : InitServiceSpec -> Prop) (HC : closed options token R bridge direct).
Let limits := limits_of_proxy (proxy options).
Let proxy_at := proxy_for (network options) (settings options).
Let proxy_token := proxy_token_for (network options) (settings options).
Context (bridge_tcp : forall listener remote port, relay_of options listener remote -> planned_port options port ->
  bridge (TcpBridge (mkTcpBridgeServiceSpec (local_socket port) remote CONTAINER_TOKEN_FILE proxy_at proxy_token limits))).
Context (bridge_unix : forall listener remote socket, relay_of options listener remote -> socket = SSH_AGENT_SOCKET \/ socket = GPG_AGENT_SOCKET ->
  bridge (UnixBridge (mkUnixBridgeServiceSpec socket remote CONTAINER_TOKEN_FILE proxy_at proxy_token limits))).
Context (direct_network : forall service target spec, declared_target options service target ->
  network_service_spec (network options) (local_socket (declared_port service)) target (proxy options) (settings options) = Ok spec -> direct spec).
Context (direct_oauth : forall listener address, asked listener = local_socket 0 -> local_addr listener = Ok address ->
  (exists earlier, bind_answer earlier (local_socket 0) = Ok (local_addr listener)) ->
  direct (OauthTarget (mkOAuthTargetServiceSpec (mkSocketAddr OAUTH_TARGET_HOST (socket_port address)) (oauth_target_address (settings options))
                         CONTAINER_TOKEN_FILE limits))).

Lemma keep_plan f : (forall p, init_services (f p) = init_services p /\ allow_private (f p) = allow_private p
                               /\ forall h, h ∈ allow_hosts p -> h ∈ allow_hosts (f p)) -> rel_m R (update_plan f).
Proof. intros Hf. unfold update_plan. apply rel_modify. intros w. by apply (closed_plan _ _ _ _ _ HC). Qed.
Lemma keep_env name value : rel_m R (set_env name value).
Proof. by apply keep_plan. Qed.
Lemma keep_warning warning : rel_m R (push_warning warning).
Proof. by apply keep_plan. Qed.
Lemma keep_add_hosts f : rel_m R (update_plan (on_add_hosts f)).
Proof. by apply keep_plan. Qed.
Lemma keep_publish f : rel_m R (update_plan (on_publish f)).
Proof. by apply keep_plan. Qed.
Lemma keep_mounts f : rel_m R (update_plan (on_mounts f)).
Proof. by apply keep_plan. Qed.
Lemma keep_ownership f : rel_m R (update_plan (on_ownership f)).
Proof. by apply keep_plan. Qed.
Lemma keep_allow_hosts target : rel_m R (update_plan (on_allow_hosts (fun l => l ++ [target]))).
Proof. apply keep_plan. intros p. split; [done|]. split; [done|]. intros h Hh. apply elem_of_app. by left. Qed.
Lemma keep_envs entries : rel_m R (set_envs entries).
Proof. induction entries as [|[name value] entries IH]; cbn [set_envs]; st_rel; [apply keep_env|done]. Qed.
Lemma keep_spawn label t : guarded options token t -> rel_m R (spawn label t).
Proof. intros Ht. unfold spawn. apply rel_modify. intros w. by apply (closed_spawn _ _ _ _ _ HC). Qed.
Lemma keep_direct service : direct service -> rel_m R (push_service service).
Proof. intros Hd. unfold push_service, update_plan. apply rel_modify. intros w. by apply (closed_direct _ _ _ _ _ HC). Qed.
Lemma keep_permit listener remote : relay_of options listener remote -> rel_m R (permit_authenticated_remote remote).
Proof.
  intros Hr. unfold permit_authenticated_remote. st_rel; [apply keep_allow_hosts|].
  unfold update_plan. apply rel_modify. intros w. by eapply (closed_relay _ _ _ _ _ HC).
Qed.
Lemma keep_bridge {A} listener remote service (m : ST World HostError A) :
  relay_of options listener remote -> bridge_remote service = Some remote -> bridge service -> rel_m R m ->
  rel_m R (permit_authenticated_remote remote ;; push_service service ;; m).
Proof.
  intros Hr Hs Hb Hm w r w' H. unfold permit_authenticated_remote, push_service, update_plan in H.
  rewrite !run_bind in H. cbv beta iota in H.
  trans (set_manager (set_plan (on_services (fun l => l ++ [service])))
           (set_manager (set_plan (on_allow_private (fun l => l ++ [remote])))
              (set_manager (set_plan (on_allow_hosts (fun l => l ++ [remote]))) w))); [by eapply (closed_bridge _ _ _ _ _ HC)|].
  by eapply Hm.
Qed.

Lemma keep_alias container_host : rel_m R (add_container_alias container_host).
Proof. unfold add_container_alias. st_rel. apply keep_add_hosts. Qed.
Lemma keep_relay label message (f : Listener -> str -> ST World HostError unit) :
  (forall listener remote, relay_of options listener remote -> rel_m R (f listener remote)) ->
  rel_m R (listener ← bind_authenticated_listener label; remote ← listener_remote options message listener; f listener remote).
Proof. apply rel_relay; [done|]. apply (closed_bind _ _ _ _ _ HC). Qed.
Lemma keep_tcp_relay label port target_port container_host held :
  planned_port options port -> (forall t, held = Some t -> t = token) ->
  rel_m R (start_tcp_relay label (local_socket port) target_port container_host held options).
Proof.
  intros Hp Ht. unfold start_tcp_relay. apply (rel_bind R); [apply keep_alias|intros _]. destruct (is_network _ _); [st_rel|].
  apply (rel_bind_yields R _ _ (fun t => t = token)); [st_rel| |].
  { apply yields_lift. intros t H%ok_or_Ok. by apply Ht. }
  intros t ->. apply keep_relay. intros listener remote Hr. apply (keep_bridge listener); [done..|by eapply bridge_tcp|].
  apply keep_spawn. by left.
Qed.
Lemma keep_network_service service target :
  declared_target options service target ->
  rel_m R (add_network_service (local_socket (declared_port service)) target (service_container_host service) (service_allow_private service) options).
Proof.
  intros Hd. unfold add_network_service. apply (rel_bind R); [apply keep_alias|intros _]. apply (rel_bind R); [st_rel|intros [|]]; [st_rel|].
  apply (rel_bind R); [apply keep_allow_hosts|intros _]. apply (rel_bind R); [|intros _].
  - destruct (service_allow_private service) eqn:Ep.
    + unfold update_plan. apply rel_modify. intros w. apply (closed_private _ _ _ _ _ HC). by exists service.
    + st_rel. apply keep_warning.
  - eapply (rel_bind_yields R _ _ (fun spec => direct spec)); [st_rel| |].
    + apply yields_lift. intros spec Hs. by eapply direct_network.
    + apply keep_direct.
Qed.
Lemma keep_unix_relay label socket container_socket env_name :
  container_socket = SSH_AGENT_SOCKET \/ container_socket = GPG_AGENT_SOCKET ->
  rel_m R (start_unix_relay label socket container_socket env_name token options).
Proof.
  intros Hs. unfold start_unix_relay. apply keep_relay. intros listener remote Hr. apply (keep_bridge listener); [done..|by eapply bridge_unix|].
  st_rel; [apply keep_env|apply keep_ownership|]. apply keep_spawn. by left.
Qed.
Lemma keep_host_ssh : rel_m R (start_host_ssh token options).
Proof.
  unfold start_host_ssh. apply (rel_bind R); [st_rel|intros rules]. apply (rel_bind R); [st_rel|intros allowlist].
  apply keep_relay. intros listener remote Hr. apply (rel_bind R); [by eapply keep_permit|intros _].
  st_rel; try apply keep_envs; try apply keep_env. apply keep_spawn. by left.
Qed.
Lemma keep_browser : rel_m R (start_browser token options).
Proof.
  unfold start_browser. apply (rel_bind R); [st_rel|intros allowlist].
  apply keep_relay. intros listener remote Hr. apply (rel_bind R); [by eapply keep_permit|intros _].
  st_rel; [apply keep_envs|]. apply keep_spawn. by left.
Qed.
Lemma keep_bind_callback callback what : rel_m R (bind_callback callback what).
Proof. unfold bind_callback. st_rel; [apply (rel_bind_socket R (closed_bind _ _ _ _ _ HC))|apply keep_warning]. Qed.
Lemma bind_callback_yields callback what :
  yields (bind_callback callback what) (fun r => forall listener, r = Some listener -> asked listener = callback).
Proof.
  unfold bind_callback. eapply yields_bind; [apply bind_yields|]. intros r Hr. destruct r as [listener|[|source]].
  - apply yields_ret. intros l [= <-]. by apply Hr.
  - eapply (yields_bind _ _ (fun _ => True)); [done|]. intros _ _. apply yields_ret. intros l [=].
  - intros s a s' [=].
Qed.
Lemma keep_host_network_oauth : rel_m R (start_host_network_oauth options).
Proof.
  unfold start_host_network_oauth. apply (rel_bind R); [apply keep_env|intros _]. destruct (bool_decide _); [st_rel|].
  eapply (rel_bind_yields R); [apply keep_bind_callback|apply bind_callback_yields|]. intros [listener|] Hl; [|st_rel].
  st_rel. apply keep_spawn. right. by apply Hl.
Qed.
Lemma reserve_yields : yields reserve_ephemeral_port (fun listener =>
  asked listener = local_socket 0 /\ exists earlier, bind_answer earlier (local_socket 0) = Ok (local_addr listener)).
Proof.
  unfold reserve_ephemeral_port. eapply yields_bind; [apply bind_yields|]. intros r Hr. apply yields_lift.
  intros listener H%map_err_Ok. by apply Hr.
Qed.
Lemma keep_oauth : rel_m R (start_oauth token options).
Proof.
  assert (Hb := closed_bind _ _ _ _ _ HC).
  unfold start_oauth. destruct (is_network _ _); [apply keep_host_network_oauth|].
  eapply (rel_bind_yields R); [apply keep_bind_callback|apply bind_callback_yields|]. intros [listener|] Hl; [|st_rel].
  apply (rel_bind R); [by apply rel_reserve|intros host]. apply (rel_bind R); [unfold inspected; st_rel|intros host_address].
  eapply (rel_bind_yields R); [by apply rel_reserve|apply reserve_yields|]. intros container (Ha & He).
  eapply (rel_bind_yields R _ _ (fun address => local_addr container = Ok address)); [unfold inspected; st_rel| |].
  { apply yields_lift. intros address H%map_err_Ok. done. }
  intros address Hc. apply (rel_bind R); [apply rel_modify; intros w; by apply (closed_other _ _ _ _ _ HC)|intros _]. cbv zeta.
  apply (rel_bind R); [apply keep_direct; by eapply direct_oauth|intros _].
  st_rel; [apply keep_publish|apply keep_env|]. apply keep_spawn. by left.
Qed.
Lemma keep_agents : rel_m R (start_agents token options).
Proof.
  unfold start_agents. st_rel; try apply keep_unix_relay; try by (left + right).
  - apply keep_host_ssh.
  - apply keep_browser.
  - apply keep_oauth.
Qed.
Lemma keep_declared listeners held services :
  (forall t, held = Some t -> t = token) -> (forall service, service ∈ services -> service ∈ kept_services options) ->
  rel_m R (plan_declared listeners held options services).
Proof.
  intros Ht. revert listeners. induction services as [|service services IH]; intros listeners Hs; cbn [plan_declared]; [st_rel|].
  assert (Hin : service ∈ kept_services options) by (apply Hs, list_elem_of_here).
  eapply (rel_bind_yields R _ _ (fun p => normalize_host_service_target (service_host service) (host_gateway_name (runtime options)) = Ok p)); [st_rel| |].
  { apply yields_lift. by intros p ->. }
  intros [target_host host_loopback] Hn. cbv zeta. apply (rel_bind R); [st_rel|intros listeners']. apply (rel_bind R); [|intros _].
  - destruct host_loopback.
    + apply keep_tcp_relay; [|done]. left. by exists service.
    + eapply (rel_bind_yields R _ _ (fun target => authority target_host (service_port service) = Ok target)); [st_rel| |].
      { apply yields_lift. by intros target ->. }
      intros target Hta. apply keep_network_service. split; [done|]. by exists target_host.
  - apply IH. intros s Hss. apply Hs. by apply list_elem_of_further.
Qed.
Lemma keep_providers listeners held providers :
  (forall t, held = Some t -> t = token) -> rel_m R (plan_providers listeners held options providers).
Proof.
  intros Ht. revert listeners. induction providers as [|provider providers IH]; intros listeners; cbn [plan_providers]; [st_rel|].
  destruct provider; cbn [provider_service]; st_rel; try apply keep_env; try apply IH;
    (apply keep_tcp_relay; [right; by (left + right)|done]).
Qed.
Lemma keep_network_services held : (forall t, held = Some t -> t = token) -> rel_m R (plan_network_services options held).
Proof.
  intros Ht. unfold plan_network_services. st_rel; [by apply keep_declared|by apply keep_providers].
Qed.
Lemma bundle_yields parent bytes : yields (create_authentication_bundle parent bytes) (fun p => p.2 = bytes).
Proof.
  unfold create_authentication_bundle. eapply (yields_bind _ _ (fun _ => True)); [done|]. intros directory _.
  eapply (yields_bind _ _ (fun _ => True)); [done|]. intros _ _.
  eapply (yields_bind _ _ (fun t => t = bytes)).
  { apply yields_lift. intros t Ht%map_err_Ok. by apply Auth.AuthToken_new_Ok in Ht as [-> _]. }
  intros t ->. eapply (yields_bind _ _ (fun _ => True)); [done|]. intros _ _. by apply yields_ret.
Qed.
Lemma on_host_yields {A} (m : ST Fs HostError A) (Q : A -> Prop) : yields m Q -> yields (on_host m) Q.
Proof. intros Hm w a w'. unfold on_host. destruct (m (host_fs w)) as [[r fs]|] eqn:E; [|done]. intros [= -> _]. by eapply Hm. Qed.
Lemma keep_connected : rel_m R (start_connected options token).
Proof.
  unfold start_connected. apply (rel_bind R); [apply keep_add_hosts|intros _]. apply (rel_bind R); [st_rel|intros required].
  eapply (rel_bind_yields R _ _ (fun held => forall t, held = Some t -> t = token)).
  - destruct required; [|st_rel]. apply (rel_bind R); [apply rel_on_host, (closed_fs _ _ _ _ _ HC)|intros [directory t]].
    st_rel; [apply keep_mounts|]. by apply (closed_other _ _ _ _ _ HC).
  - destruct required; [|by apply yields_ret]. eapply yields_bind; [apply on_host_yields, bundle_yields|]. intros [directory t] Ht. cbn in Ht.
    do 2 (eapply (yields_bind _ _ (fun _ => True)); [done|]; intros _ _). apply yields_ret. by intros ? [= <-].
  - intros held Hh. apply (rel_bind R); [by apply keep_network_services|intros _]. destruct held as [t|]; [|st_rel].
    rewrite (Hh t eq_refl). apply keep_agents.
Qed.
End steps.

Lemma swap_remove_subset {A} index (l : list A) : swap_remove index l ⊆ l.
Proof.
  unfold swap_remove. destruct (last l) as [final|] eqn:El; [|done]. apply last_Some in El as [l' ->].
  rewrite removelast_last. destruct (S index =? _)%nat; [set_solver|].
  intros x Hx. apply elem_of_app.
  apply list_elem_of_lookup_1 in Hx as [i Hi]. apply list_lookup_insert_Some in Hi as [(_ & <- & _)|[_ Hi]].
  - right. apply list_elem_of_here.
  - left. by eapply list_elem_of_lookup_2.
Qed.
Lemma poll_tasks_subset steps index b running failures : (poll_tasks steps index b running failures).1 ⊆ running.
Proof.
  revert index running failures. induction steps as [|steps IH]; intros index running failures; [done|]. cbn [poll_tasks].
  destruct (running !! index) as [ended|]; [|done]. destruct (finished ended); [|apply IH].
  etrans; [apply IH|apply swap_remove_subset].
Qed.
(** A start that succeeds, taken apart. *)
Lemma start_run options token_bytes w w' :
  start options token_bytes w = Some (Ok tt, w') ->
  exists w1, manager w1 = Manager_default /\ binds w1 = binds w /\ validate_settings (settings options) = Ok tt /\
    if is_network options NetworkMode_Offline
    then binds w' = binds w /\ tasks (manager w') = [] /\ authentication_directory (manager w') = None
         /\ exists warning, plan (manager w') = mkHostServicePlan [] [] [] [] [] [] [] [] warning
    else exists w2, start_connected options token_bytes w1 = Some (Ok tt, w2)
         /\ plan (manager w') = normalize_plan (plan (manager w2)) /\ tasks (manager w') ⊆ tasks (manager w2).
Proof.
  unfold start. intros H. apply bind_run_Ok in H as ([] & w0 & [= <-] & H).
  apply bind_run_Ok in H as ([] & w0' & [Hv ->]%lift_run_Ok & H).
  apply bind_run_Ok in H as ([] & w1 & H1 & H). exists w1.
  assert (manager w1 = Manager_default /\ binds w1 = binds w) as [Hm Hb].
  { unfold on_host in H1. destruct (create_private_dir _ _) as [[r fs]|]; [|done]. by injection H1 as -> <-. }
  split; [done|]. split; [done|]. split; [done|]. destruct (is_network options NetworkMode_Offline).
  - destruct (has_requested_host_services options).
    + injection H as <-. cbn. rewrite Hm, Hb. split_and!; try done. by eexists.
    + injection H as <-. rewrite Hm, Hb. split_and!; try done. by eexists.
  - apply bind_run_Ok in H as ([] & w2 & H2 & H). exists w2. split; [done|]. apply bind_run_Ok in H as ([] & w3 & H3 & H).
    injection H as <-. unfold check_health in H3. apply bind_run_Ok in H3 as (m & w4 & [= <- <-] & H3).
    destruct (poll_tasks _ _ _ _ _) as [running failures] eqn:Ep. apply bind_run_Ok in H3 as ([] & w5 & [= <-] & H3).
    apply throw_if_run_Ok in H3 as [_ ->]. cbn. split; [done|].
    replace running with (poll_tasks (length (tasks (manager w2))) 0 (shutdown_sent (manager w2)) (tasks (manager w2)) []).1
      by (by unfold id in Ep; rewrite Ep). apply poll_tasks_subset.
Qed.

(** An offline run reaches nothing of the host and nothing of the host reaches
    it: starting its services binds no socket, spawns no task, makes no token, and
    plans nothing but warnings. *)
Theorem offline_reaches_nothing (options : HostServiceOptions) (token_bytes : str) w w' :
  network options = NetworkMode_Offline -> start options token_bytes w = Some (Ok tt, w') ->
  binds w' = binds w /\ tasks (manager w') = [] /\ authentication_directory (manager w') = None
  /\ exists warning, plan (manager w') = mkHostServicePlan [] [] [] [] [] [] [] [] warning.
Proof.
  intros Hn (w1 & _ & _ & _ & H)%start_run. unfold is_network in H. by rewrite Hn in H.
Qed.

(** *** Who may talk to the host *)

(** The tasks only grow, by guarded ones. *)
Definition tasks_guarded (options : HostServiceOptions) (token : Auth.AuthToken) (w : World) : Prop :=
  Forall (fun t => guarded options token (task t)) (tasks (manager w)).
Lemma tasks_closed options token : closed options token (keeps (tasks_guarded options token)) (fun _ => True) (fun _ => True).
Proof.
  constructor; intros; intros Ht; try exact Ht.
  - apply Forall_app. split; [done|]. by constructor.
  - unfold tasks_guarded, set_manager. cbn [manager]. by rewrite (proj2 (H (manager w))).
Qed.


(** *** Private addresses *)

(** Both lists permit the far end of each relay, and a private address is permitted
    for a relay of this run or a declared service that asks for it. *)
Definition reach_ok (options : HostServiceOptions) (p : HostServicePlan) : Prop :=
  (forall service remote, service ∈ init_services p -> bridge_remote service = Some remote ->
     remote ∈ allow_hosts p /\ remote ∈ allow_private p)
  /\ forall entry, entry ∈ allow_private p -> (exists listener, relay_of options listener entry) \/ private_target options entry.
Lemma reach_closed options token :
  closed options token (keeps (fun w => reach_ok options (plan (manager w)))) (fun _ => True) (fun service => bridge_remote service = None).
Proof.
  constructor; intros; intros [Hs Hp]; try by split.
  - destruct (H (plan (manager w))) as (E1 & E2 & E3). split; cbn [plan set_plan manager set_manager]; rewrite ?E1, ?E2; [|done].
    intros service remote H1 H2. destruct (Hs service remote H1 H2). split; [by apply E3|done].
  - split; cbn.
    + intros service r H1 H2. destruct (Hs service r H1 H2). set_solver.
    + intros entry [He| ->%list_elem_of_singleton]%elem_of_app; [by apply Hp|]. left. by exists listener.
  - split; cbn.
    + intros service r H1 H2. destruct (Hs service r H1 H2). set_solver.
    + intros entry [He| ->%list_elem_of_singleton]%elem_of_app; [by apply Hp|]. by right.
  - split; cbn.
    + intros s r [H3| ->%list_elem_of_singleton]%elem_of_app H4.
      * destruct (Hs s r H3 H4). set_solver.
      * rewrite H0 in H4. injection H4 as <-. set_solver.
    + intros entry [He| ->%list_elem_of_singleton]%elem_of_app; [by apply Hp|]. left. by exists listener.
  - split; cbn; [|done]. intros s r [H1| ->%list_elem_of_singleton]%elem_of_app H2; [by eapply Hs|by rewrite H in H2].
  - unfold set_manager. cbn [manager]. by rewrite (proj1 (H (manager w))).
Qed.
Lemma network_spec_direct mode listen target proxy settings spec :
  network_service_spec mode listen target proxy settings = Ok spec -> bridge_remote spec = None.
Proof. unfold network_service_spec. destruct mode; by intros [= <-]. Qed.

(** C32: The plan permits exactly what its relays need: the far end of each relay is
    permitted by the egress policy, and every address that is exempt from the block
    on private addresses is either the host's end of a listener that this run bound,
    or the target of a declared service that asked for the exemption. *)
Theorem private_reach_exact (options : HostServiceOptions) (token_bytes : str) w w' :
  start options token_bytes w = Some (Ok tt, w') -> reach_ok options (plan (manager w')).
Proof.
  intros (w1 & Hm & _ & _ & H)%start_run. destruct (is_network options NetworkMode_Offline).
  { destruct H as (_ & _ & _ & warning & ->). split; set_solver. }
  destruct H as (w2 & H & Hplan & _).
  assert (Hr : reach_ok options (plan (manager w2))).
  { refine (keep_connected options token_bytes _ _ _ (reach_closed options token_bytes) _ _ _ _ _ _ _ H _); try done.
    - intros. by eapply network_spec_direct.
    - rewrite Hm. split; set_solver. }
  rewrite Hplan. destruct Hr as [H1 H2]. split; cbn.
  - intros service remote Hs Hb. rewrite !elem_of_sorted_texts. by eapply H1.
  - intros entry. rewrite elem_of_sorted_texts. apply H2.
Qed.

(** ** The services of the container *)

(** The listeners a computation adds at the most. *)
Definition same_services (w w' : World) : Prop := init_services (plan (manager w')) = init_services (plan (manager w)).
#[local] Instance same_services_preorder : PreOrder same_services.
Proof. unfold same_services. split; red; congruence. Qed.
Definition adds (keys : list str) {A} (m : ST World HostError A) : Prop := forall w a w', m w = Some (Ok a, w') ->
  exists new, init_services (plan (manager w')) = init_services (plan (manager w)) ++ new /\ map listener_key new `sublist_of` keys.
Lemma adds_none {A} (m : ST World HostError A) : rel_m same_services m -> adds [] m.
Proof. intros H w a w' E. exists []. rewrite (H _ _ _ E), app_nil_r. done. Qed.
Lemma adds_bind k1 k2 {A B} (m : ST World HostError A) (f : A -> ST World HostError B) :
  adds k1 m -> (forall a, adds k2 (f a)) -> adds (k1 ++ k2) (m ≫= f).
Proof.
  intros Hm Hf w b w' (a & w1 & H1 & H2)%bind_run_Ok. apply Hm in H1 as (n1 & E1 & S1). apply Hf in H2 as (n2 & E2 & S2).
  exists (n1 ++ n2). rewrite E2, E1, app_assoc, map_app. split; [done|]. by apply sublist_app.
Qed.
Lemma adds_skip k {A B} (m : ST World HostError A) (f : A -> ST World HostError B) :
  rel_m same_services m -> (forall a, adds k (f a)) -> adds k (m ≫= f).
Proof. intros Hm Hf. apply (adds_bind [] k); [by apply adds_none|done]. Qed.
Lemma adds_push service k {A} (m : ST World HostError A) : adds k m -> adds (listener_key service :: k) (push_service service ;; m).
Proof.
  intros Hm. apply (adds_bind [listener_key service] k); [|done]. intros w a w' [= _ <-]. by exists [service].
Qed.
Lemma adds_weaken k k' {A} (m : ST World HostError A) : k `sublist_of` k' -> adds k m -> adds k' m.
Proof. intros Hs Hm w a w' H. apply Hm in H as (new & E & S). exists new. split; [done|]. by trans k. Qed.

(** A step that plans no service. *)
Ltac same_step :=
  unfold permit_authenticated_remote, listener_remote, inspected, bind_authenticated_listener, reserve_ephemeral_port, bind_callback, bind,
    add_container_alias, set_env, push_warning, spawn, update_plan; st_rel; try done.
Ltac adds_step := apply adds_skip; [by same_step|intros ?].
Lemma same_envs entries : rel_m same_services (set_envs entries).
Proof. induction entries as [|[name value] entries IH]; cbn [set_envs]; same_step. Qed.
Lemma same_on_host {A} (m : ST Fs HostError A) : rel_m same_services (on_host m).
Proof. by apply rel_on_host. Qed.

Lemma adds_tcp_relay label listen port container_host token options :
  adds ["tcp:" ++ socket_addr_to_string listen] (start_tcp_relay label listen port container_host token options).
Proof.
  unfold start_tcp_relay. adds_step. destruct (is_network _ _).
  - eapply adds_weaken; [apply sublist_nil_l|]. apply adds_none. same_step.
  - do 4 adds_step. refine (adds_push (TcpBridge _) [] _ _). apply adds_none. same_step.
Qed.
Lemma network_spec_key mode listen target proxy settings spec :
  network_service_spec mode listen target proxy settings = Ok spec -> listener_key spec = "tcp:" ++ socket_addr_to_string listen.
Proof. unfold network_service_spec. destruct mode; by intros [= <-]. Qed.
Lemma adds_network_service listen target container_host private options :
  adds ["tcp:" ++ socket_addr_to_string listen] (add_network_service listen target container_host private options).
Proof.
  unfold add_network_service. adds_step. adds_step. destruct a0.
  - eapply adds_weaken; [apply sublist_nil_l|]. apply adds_none. same_step.
  - do 2 adds_step. intros w b w' (spec & w1 & [Hs ->]%lift_run_Ok & [= _ <-])%bind_run_Ok. exists [spec]. split; [done|].
    cbn [map]. by rewrite (network_spec_key _ _ _ _ _ _ Hs).
Qed.
Lemma adds_unix_relay label socket container_socket env_name token options :
  adds ["unix:" ++ InitSpec.display container_socket] (start_unix_relay label socket container_socket env_name token options).
Proof.
  unfold start_unix_relay. do 3 adds_step. refine (adds_push (UnixBridge _) [] _ _). apply adds_none. same_step.
Qed.
Lemma adds_host_ssh token options : adds [] (start_host_ssh token options).
Proof.
  unfold start_host_ssh. do 5 adds_step. apply adds_skip; [apply same_envs|intros _]. apply adds_none. same_step.
Qed.
Lemma adds_browser token options : adds [] (start_browser token options).
Proof.
  unfold start_browser. do 4 adds_step. apply adds_skip; [apply same_envs|intros _]. apply adds_none. same_step.
Qed.

Definition tcp_key (listen : SocketAddr) : str := "tcp:" ++ socket_addr_to_string listen.
Definition oauth_key (port : Z) : str := tcp_key (mkSocketAddr OAUTH_TARGET_HOST port).
(** The same, with keys that the run decides on. *)
Definition adds_any (keys : list str -> Prop) {A} (m : ST World HostError A) : Prop := forall w a w', m w = Some (Ok a, w') ->
  exists new, init_services (plan (manager w')) = init_services (plan (manager w)) ++ new /\ keys (map listener_key new).
Lemma adds_any_skip keys {A B} (m : ST World HostError A) (f : A -> ST World HostError B) :
  rel_m same_services m -> (forall a, adds_any keys (f a)) -> adds_any keys (m ≫= f).
Proof.
  intros Hm Hf w b w' (a & w1 & H1 & H2)%bind_run_Ok. apply Hm in H1. apply Hf in H2 as (new & E & Hk). exists new. by rewrite E, H1.
Qed.
Lemma adds_any_of keys k {A} (m : ST World HostError A) : adds k m -> (forall l, l `sublist_of` k -> keys l) -> adds_any keys m.
Proof. intros Hm Hk w a w' H. apply Hm in H as (new & E & S). exists new. split; [done|by apply Hk]. Qed.
Definition at_most_oauth (keys : list str) : Prop := keys = [] \/ exists port, keys = [oauth_key port].
Lemma adds_oauth token options : adds_any at_most_oauth (start_oauth token options).
Proof.
  assert (Hnil : forall l : list str, l `sublist_of` [] -> at_most_oauth l) by (intros l ->%sublist_nil_r; by left).
  unfold start_oauth. destruct (is_network _ _).
  - eapply adds_any_of; [apply adds_none|exact Hnil]. unfold start_host_network_oauth. same_step.
  - apply adds_any_skip; [by same_step|intros [listener|]]; [|eapply adds_any_of; [apply adds_none; by same_step|exact Hnil]].
    do 5 (apply adds_any_skip; [by same_step|intros ?]). cbv zeta.
    eapply adds_any_of; [refine (adds_push (OauthTarget _) [] _ _); apply adds_none; by same_step|].
    intros l Hl. cbn [listener_key listener_text] in Hl. destruct l as [|k l]; [by left|]. right. eexists.
    apply sublist_cons_r in Hl as [Hl|(l' & [= -> ->] & Hl)]; [by apply sublist_nil_r in Hl|]. apply sublist_nil_r in Hl as ->. reflexivity.
Qed.

Lemma adds_declared listeners held options services w listeners' w' :
  plan_declared listeners held options services w = Some (Ok listeners', w') -> NoDup listeners ->
  exists new listens, init_services (plan (manager w')) = init_services (plan (manager w)) ++ new
    /\ map listener_key new `sublist_of` map tcp_key listens /\ Forall (fun listen => socket_ip listen = LOCALHOST) listens
    /\ listeners' ≡ₚ listens ++ listeners /\ NoDup listeners'.
Proof.
  revert listeners w. induction services as [|service services IH]; intros listeners w; cbn [plan_declared].
  { intros [= <- <-] Hd. exists [], []. rewrite app_nil_r. by split_and!. }
  intros H Hd. apply bind_run_Ok in H as ([target_host host_loopback] & w1 & [_ ->]%lift_run_Ok & H). cbv zeta in H.
  set (listen := local_socket _) in H.
  apply bind_run_Ok in H as (l1 & w1 & [Hl ->]%lift_run_Ok & H). unfold ensure_unique_listener, memb in Hl. case_bool_decide as Hin; [done|]. injection Hl as <-.
  apply bind_run_Ok in H as ([] & w1 & H1 & H2).
  assert (Ha : adds [tcp_key listen] (if host_loopback
       then start_tcp_relay (service_id service) listen (service_port service) (service_container_host service) held options
       else
         target ← lift (authority target_host (service_port service));
         add_network_service listen target (service_container_host service) (service_allow_private service) options)).
  { destruct host_loopback; [apply adds_tcp_relay|]. adds_step. apply adds_network_service. }
  apply Ha in H1 as (n1 & E1 & S1). apply IH in H2 as (n2 & listens & E2 & S2 & Hlo & Hp & Hd'); [|by constructor].
  exists (n1 ++ n2), (listen :: listens). rewrite E2, E1, app_assoc, map_app. split; [done|]. split; [by apply (sublist_app _ [_])|].
  split; [by constructor|]. split; [|done]. rewrite Hp. by rewrite <- Permutation_middle.
Qed.
Lemma adds_providers listeners held options providers w listeners' w' :
  plan_providers listeners held options providers w = Some (Ok listeners', w') -> NoDup listeners ->
  exists new listens, init_services (plan (manager w')) = init_services (plan (manager w)) ++ new
    /\ map listener_key new `sublist_of` map tcp_key listens /\ Forall (fun listen => socket_ip listen = LOCALHOST) listens
    /\ listeners' ≡ₚ listens ++ listeners /\ NoDup listeners'.
Proof.
  revert listeners w. induction providers as [|provider providers IH]; intros listeners w; cbn [plan_providers].
  { intros [= <- <-] Hd. exists [], []. rewrite app_nil_r. by split_and!. }
  destruct (provider_service provider) as [id port]. set (listen := local_socket port).
  intros H Hd. apply bind_run_Ok in H as (l1 & w1 & [Hl ->]%lift_run_Ok & H).
  unfold ensure_unique_listener, memb in Hl. case_bool_decide as Hin; [done|]. injection Hl as <-.
  apply bind_run_Ok in H as ([] & w1 & H1 & H). apply bind_run_Ok in H as ([] & w2 & He & H2).
  apply adds_tcp_relay in H1 as (n1 & E1 & S1).
  assert (Es : init_services (plan (manager w2)) = init_services (plan (manager w1))) by (by destruct provider; injection He as <-).
  apply IH in H2 as (n2 & listens & E2 & S2 & Hlo & Hp & Hd'); [|by constructor].
  exists (n1 ++ n2), (listen :: listens). rewrite E2, Es, E1, app_assoc, map_app. split; [done|]. split; [by apply (sublist_app _ [_])|].
  split; [by constructor|]. split; [|done]. rewrite Hp. by rewrite <- Permutation_middle.
Qed.

(** The keys of a run's services are distinct. *)
Lemma tcp_key_local a b : tcp_key (local_socket a) = tcp_key (local_socket b) -> a = b.
Proof. unfold tcp_key, socket_addr_to_string. cbn [socket_ip socket_port]. intros E. do 2 apply (inj (app _)) in E. by apply (inj (app _)), dec_inj in E. Qed.
Lemma local_keys listens :
  Forall (fun listen => socket_ip listen = LOCALHOST) listens -> NoDup listens -> NoDup (map tcp_key listens).
Proof.
  intros Hl. induction 1 as [|listen listens Hn Hd IH]; [constructor|]. apply Forall_cons in Hl as [H1 Hl]. cbn [map]. constructor; [|by apply IH].
  intros (other & E & Hin)%list_elem_of_fmap. rewrite Forall_forall in Hl. specialize (Hl other Hin).
  destruct listen as [ip port], other as [ip' port']. cbn in H1, Hl. subst ip ip'. apply tcp_key_local in E as <-. done.
Qed.
Lemma adds_network_services options held w w' :
  plan_network_services options held w = Some (Ok tt, w') ->
  exists new listens, init_services (plan (manager w')) = init_services (plan (manager w)) ++ new
    /\ map listener_key new `sublist_of` map tcp_key listens /\ Forall (fun listen => socket_ip listen = LOCALHOST) listens /\ NoDup listens.
Proof.
  unfold plan_network_services. intros (l1 & w1 & H1 & H)%bind_run_Ok.
  apply adds_declared in H1 as (n1 & lo1 & E1 & S1 & L1 & P1 & D1); [|constructor]. rewrite app_nil_r in P1.
  destruct (local_providers _).
  - apply bind_run_Ok in H as (l2 & w2 & H2 & [= <-]).
    apply adds_providers in H2 as (n2 & lo2 & E2 & S2 & L2 & P2 & D2); [|done].
    exists (n1 ++ n2), (lo1 ++ lo2). rewrite E2, E1, app_assoc, !map_app. split; [done|]. split; [by apply sublist_app|].
    split; [by apply Forall_app|]. rewrite (Permutation_app_comm lo1 lo2), <- P1, <- P2. done.
  - injection H as <-. exists n1, lo1. split_and!; try done. by rewrite <- P1.
Qed.
Definition ssh_key : str := "unix:" ++ InitSpec.display SSH_AGENT_SOCKET.
Definition gpg_key : str := "unix:" ++ InitSpec.display GPG_AGENT_SOCKET.
Lemma adds_agents token options : adds_any (fun keys => exists last, at_most_oauth last /\ keys `sublist_of` ([ssh_key; gpg_key] ++ last)) (start_agents token options).
Proof.
  intros w [] w' H. unfold start_agents in H. apply bind_run_Ok in H as ([] & w1 & H1 & H).
  assert (H1' : exists new, init_services (plan (manager w1)) = init_services (plan (manager w)) ++ new /\ map listener_key new `sublist_of` [ssh_key]).
  { destruct (ssh_agent_relay _); [exact (adds_unix_relay _ _ _ _ _ _ _ _ _ H1)|]. injection H1 as <-. exists []. rewrite app_nil_r. split; [done|apply sublist_nil_l]. }
  clear H1. destruct H1' as (n1 & E1 & S1). apply bind_run_Ok in H as ([] & w2 & H2 & H).
  assert (H2' : exists new, init_services (plan (manager w2)) = init_services (plan (manager w1)) ++ new /\ map listener_key new `sublist_of` [gpg_key]).
  { destruct (gpg_agent_relay _); [exact (adds_unix_relay _ _ _ _ _ _ _ _ _ H2)|]. injection H2 as <-. exists []. rewrite app_nil_r. split; [done|apply sublist_nil_l]. }
  clear H2. destruct H2' as (n2 & E2 & S2). apply bind_run_Ok in H as ([] & w3 & H3 & H).
  assert (E3 : init_services (plan (manager w3)) = init_services (plan (manager w2))).
  { destruct (_ && _); [|by injection H3 as <-]. apply adds_host_ssh in H3 as (n & -> & S). apply sublist_nil_r in S. destruct n; [by rewrite app_nil_r|done]. }
  assert (H4 : exists new, init_services (plan (manager w')) = init_services (plan (manager w3)) ++ new /\ at_most_oauth (map listener_key new)).
  { destruct (browser _); [|injection H as <-; exists []; rewrite app_nil_r; split; [done|by left]].
    apply bind_run_Ok in H as ([] & w4 & H4 & H). apply adds_browser in H4 as (n & E4 & S). apply sublist_nil_r in S. destruct n; [|done].
    rewrite app_nil_r in E4. apply adds_oauth in H as (new & E & Hk). exists new. by rewrite E, E4. }
  destruct H4 as (n4 & E4 & Hk). exists (n1 ++ n2 ++ n4). rewrite E4, E3, E2, E1, !app_assoc. split; [reflexivity|].
  exists (map listener_key n4). split; [done|]. rewrite <- !app_assoc, !map_app. apply (sublist_app _ [ssh_key]); [exact S1|]. apply (sublist_app _ [gpg_key]); [exact S2|reflexivity].
Qed.
(** A listener of the loopback network, and one of the rest. *)
Definition local_text (key : str) : bool := starts_with "tcp:127" key.
Lemma local_prefix listens key :
  key ∈ map tcp_key listens -> Forall (fun listen => socket_ip listen = LOCALHOST) listens -> local_text key = true.
Proof. intros (listen & -> & Hin)%list_elem_of_fmap Hl. rewrite Forall_forall in Hl. specialize (Hl _ Hin). destruct listen as [ip port]. cbn in Hl. by subst ip. Qed.
Lemma final_prefix last key : at_most_oauth last -> local_text key = true -> key ∉ [ssh_key; gpg_key] ++ last.
Proof.
  intros Hlast Hk Hin. assert (Hf : Forall (fun k => local_text k = false) ([ssh_key; gpg_key] ++ last)).
  { constructor; [vm_compute; reflexivity|]. constructor; [vm_compute; reflexivity|].
    destruct Hlast as [->|[port ->]]; [constructor|]. constructor; [reflexivity|constructor]. }
  rewrite Forall_forall in Hf. rewrite (Hf key Hin) in Hk. discriminate.
Qed.
Lemma final_keys last : at_most_oauth last -> NoDup ([ssh_key; gpg_key] ++ last).
Proof.
  assert (H2 : NoDup [ssh_key; gpg_key]) by (apply (bool_decide_unpack _); vm_compute; exact Logic.I).
  intros [->|[port ->]]; [exact H2|]. apply NoDup_app. split; [exact H2|]. split; [|apply NoDup_singleton].
  intros key Hin E%list_elem_of_singleton. subst key. apply elem_of_cons in Hin as [E|E%list_elem_of_singleton]; discriminate.
Qed.
Lemma connected_keys options token_bytes w w' :
  start_connected options token_bytes w = Some (Ok tt, w') -> init_services (plan (manager w)) = [] ->
  NoDup (map listener_key (init_services (plan (manager w')))).
Proof.
  unfold start_connected. intros H Hnil. apply bind_run_Ok in H as ([] & w1 & [= <-] & H).
  apply bind_run_Ok in H as (required & w1 & [_ ->]%lift_run_Ok & H). apply bind_run_Ok in H as (held & w2 & H2 & H).
  assert (E2 : init_services (plan (manager w2)) = []).
  { destruct required; [|by injection H2 as _ <-]. apply bind_run_Ok in H2 as ([directory t] & w3 & H3 & H2).
    apply same_on_host in H3. injection H2 as _ <-. by rewrite <- Hnil. }
  apply bind_run_Ok in H as ([] & w3 & (n3 & listens & E3 & S3 & L3 & D3)%adds_network_services & H).
  assert (H4 : exists new last, init_services (plan (manager w')) = init_services (plan (manager w3)) ++ new
                 /\ at_most_oauth last /\ map listener_key new `sublist_of` ([ssh_key; gpg_key] ++ last)).
  { destruct held as [t|].
    - apply adds_agents in H as (new & E & last & Hl & S). by exists new, last.
    - injection H as <-. exists [], []. rewrite app_nil_r. split; [done|]. split; [by left|apply sublist_nil_l]. }
  destruct H4 as (n4 & last & E4 & Hlast & S4). rewrite E4, E3, E2, map_app. cbn [app].
  assert (Hkeys : map listener_key n3 ++ map listener_key n4 `sublist_of` map tcp_key listens ++ [ssh_key; gpg_key] ++ last) by by apply sublist_app.
  eapply sublist_NoDup; [|exact Hkeys].
  apply NoDup_app. split; [by apply local_keys|]. split; [|by apply final_keys].
  intros key Hin%local_prefix; [|done]. by apply final_prefix.
Qed.

(** No two services of the container listen at the same place: every service that
    a start plans - declared services, local providers, agent sockets, the callback
    of a login - has a listener key of its own, which is what the init helper asks
    of the services it is given. *)
Theorem planned_listeners_distinct (options : HostServiceOptions) (token_bytes : str) w w' :
  start options token_bytes w = Some (Ok tt, w') -> NoDup (map listener_key (init_services (plan (manager w')))).
Proof.
  intros (w1 & Hm & _ & _ & H)%start_run. destruct (is_network options NetworkMode_Offline).
  { destruct H as (_ & _ & _ & warning & ->). constructor. }
  destruct H as (w2 & H & Hplan & _). rewrite Hplan. eapply connected_keys; [exact H|]. by rewrite Hm.
Qed.
End facts.

(** ** A run that forwards *)

(** A port asked for is free, and port 0 takes the next of 49152 and up. *)
Definition free_sockets : HostSockets := fun earlier address =>
  Ok (Ok (if (socket_port address =? 0)%Z then mkSocketAddr (socket_ip address) (49152 + Z.of_nat (length earlier)) else address)).
Definition busy_tasks : HostTasks := {| finished := fun _ => None; joined := fun _ => Cancelled |}.
Definition named_tempdir : TempDirs := fun prefix parent =>
  let path := path_join parent (prefix ++ "1") in create_dir path ;; mret path.
Definition no_variables : EnvironmentVariables := fun _ => None.
Definition host_disk : Fs := mkFs (list_to_map [([], mkNode Dir 0x1ed (0, 0)%Z 1); (strs ["run"], mkNode Dir 0x1ed (0, 0)%Z 1)]) [] 0x12 (0, 0)%Z [].
Definition idle_world : World := mkWorld host_disk [] Manager_default.
Definition database : HostServiceSpec := mkHostServiceSpec "db" "localhost" 5432 None None false false.
Definition intranet : HostServiceSpec := mkHostServiceSpec "wiki" "10.0.0.7" 80 None (Some 8080)%Z true false.
Definition forwarding_options (mode : NetworkMode) : HostServiceOptions :=
  mkHostServiceOptions (mkRuntime RuntimeKind_Docker "docker") "/run/session" mode ForwardingConfig_default
    (mkForwardingPlan [] [] [] (Some ("/run/agent.sock" : str)) None) ProxyConfig_default [database; intranet] [] [] [] HostServiceSettings_default.
Definition token_text : str := "0123456789abcdef0123456789abcdef0123456789abcdef0123456789abcdef".
Definition started (mode : NetworkMode) : option (result HostError unit * World) :=
  @start plain_idna Callback.small_url free_sockets busy_tasks named_tempdir no_variables (forwarding_options mode) token_text idle_world.

(** The run starts, and then [f] holds. *)
Definition holds_after (mode : NetworkMode) (f : World -> bool) : bool :=
  match started mode with Some (Ok _, w') => f w' | _ => false end.
Lemma offline_reaches_nothing_witness :
  exists w', started NetworkMode_Offline = Some (Ok tt, w') /\ binds w' = [] /\ tasks (manager w') = [].
Proof.
  assert (H : holds_after NetworkMode_Offline (fun w' => true) = true) by (vm_compute; reflexivity).
  unfold holds_after in H. destruct (started NetworkMode_Offline) as [[[[]|e] w']|] eqn:E; [|discriminate H..].
  exists w'. split; [reflexivity|]. destruct (@offline_reaches_nothing plain_idna Callback.small_url free_sockets busy_tasks named_tempdir no_variables
           (forwarding_options NetworkMode_Offline) token_text idle_world w' eq_refl E) as (H1 & H2 & _).
  split; [exact H1|exact H2].
Defined.
Lemma private_reach_exact_witness :
  exists w', started NetworkMode_Allowlist = Some (Ok tt, w') /\ memb ("10.0.0.7:80" : str) (allow_private (plan (manager w'))) = true
    /\ reach_ok (I := plain_idna) (K := free_sockets) (forwarding_options NetworkMode_Allowlist) (plan (manager w')).
Proof.
  assert (H : holds_after NetworkMode_Allowlist (fun w' => memb ("10.0.0.7:80" : str) (allow_private (plan (manager w')))) = true) by (vm_compute; reflexivity).
  unfold holds_after in H. destruct (started NetworkMode_Allowlist) as [[[[]|e] w']|] eqn:E; [|discriminate H..].
  exists w'. split; [reflexivity|]. split; [exact H|].
  exact (@private_reach_exact plain_idna Callback.small_url free_sockets busy_tasks named_tempdir no_variables
           (forwarding_options NetworkMode_Allowlist) token_text idle_world w' E).
Defined.
Lemma planned_listeners_distinct_witness :
  exists w', started NetworkMode_Bridge = Some (Ok tt, w') /\ (length (init_services (plan (manager w'))) =? 4)%nat = true
    /\ NoDup (map listener_key (init_services (plan (manager w')))).
Proof.
  assert (H : holds_after NetworkMode_Bridge (fun w' => (length (init_services (plan (manager w'))) =? 4)%nat) = true) by (vm_compute; reflexivity).
  unfold holds_after in H. destruct (started NetworkMode_Bridge) as [[[[]|e] w']|] eqn:E; [|discriminate H..].
  exists w'. split; [reflexivity|]. split; [exact H|].
  exact (@planned_listeners_distinct plain_idna Callback.small_url free_sockets busy_tasks named_tempdir no_variables
           (forwarding_options NetworkMode_Bridge) token_text idle_world w' E).
Defined.
End HostServicesFacts.
