(* ===== verification/EngineFacts.v ===== *)
(** * The engines read what the host asks for ([codex-start-host/src/runtime.rs])

    The command line of a container run, read the way the engines read their
    options; the mount values, read as the fields of a CSV record; and what the
    sequences of commands of [Engines] keep. *)

From S2P Require Export Engines.

Module EngineFacts.
Import ConfigTypes IpAddr Allowlist HostError HostCommand Json Engines.

(** ** Reading a command line

    Options up to the first word that is none: a flag stands alone, another
    option takes the next word whatever it is. *)

Definition FLAGS : list str := strs ["--rm"; "--detach"; "--tty"; "--interactive"; "--read-only"].
Definition VALUED : list str := strs
  ["--name"; "--network"; "--network-alias"; "--userns"; "--add-host"; "--workdir"; "--entrypoint"; "--user"; "--cap-drop";
   "--cap-add"; "--security-opt"; "--label"; "--env"; "--mount"; "--publish"; "--cpus"; "--cpu-shares"; "--cpuset-cpus";
   "--memory"; "--memory-reservation"; "--memory-swap"; "--pids-limit"; "--shm-size"; "--ulimit"; "--hostname"].
Notation Item := (str * option str)%type (only parsing).
Fixpoint read_words (words : list str) : option (list Item * list str) :=
  match words with
  | [] => Some ([], [])
  | word :: rest =>
      if memb word FLAGS then read ← read_words rest; Some ((word, None) :: read.1, read.2)
      else if memb word VALUED then
        match rest with
        | [] => None
        | value :: rest => read ← read_words rest; Some ((word, Some value) :: read.1, read.2)
        end
      else if starts_with "-" word then None
      else Some ([], words)
  end.
(** The values given to an option, and whether a flag is set. *)
Definition values_of (word : str) (items : list Item) : list str :=
  omap (fun item : Item => if bool_decide (item.1 = word) then item.2 else None) items.
Definition flag_set (word : str) (items : list Item) : bool := existsb (fun item : Item => bool_decide (item = (word, None))) items.

(** What a request says about each option. *)
Definition option_list {A} (value : option A) : list A := match value with Some value => [value] | None => [] end.
Definition given_values (request : RunRequest) : list (str * list str) :=
  let r := resources request in
  [("--name" : str, [name request]);
   ("--network" : str, option_list (network request));
   ("--network-alias" : str, option_list (network_alias request));
   ("--userns" : str, option_list (user_namespace request));
   ("--add-host" : str, map (fun entry : str * str => entry.1 ++ ":" ++ entry.2) (add_hosts request));
   ("--workdir" : str, option_list (workdir request));
   ("--entrypoint" : str, option_list (entrypoint request));
   ("--user" : str, option_list (user request));
   ("--cap-drop" : str, if drop_all_capabilities request then strs ["ALL"] else []);
   ("--cap-add" : str, add_capabilities request);
   ("--security-opt" : str, if no_new_privileges request then strs ["no-new-privileges"] else []);
   ("--label" : str, map assignment (labels request));
   ("--env" : str, map assignment (env request));
   ("--mount" : str, map render_mount (mounts request));
   ("--publish" : str, map (fun publish => format_publish_address (host_ip publish) (host_port publish) (container_port publish)
                                             (protocol publish)) (publish request));
   ("--cpus" : str, option_list (Limits.cpu_value <$> Limits.cpus r));
   ("--cpu-shares" : str, option_list (dec <$> Limits.cpu_shares r));
   ("--cpuset-cpus" : str, option_list (Limits.cpuset_cpus r));
   ("--memory" : str, option_list (Limits.ms_value <$> Limits.memory r));
   ("--memory-reservation" : str, option_list (Limits.ms_value <$> Limits.memory_reservation r));
   ("--memory-swap" : str, option_list (Limits.MemorySwapLimit_as_engine_value <$> Limits.memory_swap r));
   ("--pids-limit" : str, option_list (dec <$> Limits.pids_limit r));
   ("--shm-size" : str, option_list (Limits.ms_value <$> Limits.shm_size r));
   ("--ulimit" : str, map (fun entry => entry.1 ++ "=" ++ Limits.Ulimit_as_engine_value entry.2) (Limits.ulimits r))].
Definition given_flags (request : RunRequest) : list (str * bool) :=
  [("--rm" : str, remove request); ("--detach" : str, detach request); ("--tty" : str, tty request);
   ("--interactive" : str, interactive request); ("--read-only" : str, read_only request)].

(** *** The items of a rendered request *)

Definition words_of (items : list Item) : list str := flat_map (fun item : Item => item.1 :: option_list item.2) items.
Definition flag_item (b : bool) (word : str) : list Item := if b then [(word, None)] else [].
Definition items_at (word : str) (values : list str) : list Item := map (fun value => (word, Some value)) values.

Lemma words_of_app a b : words_of (a ++ b) = words_of a ++ words_of b.
Proof. apply flat_map_app. Qed.
Lemma flag_words b word : flag b word = words_of (flag_item b word).
Proof. by destruct b. Qed.
Lemma valued_words word value : valued word value = words_of (items_at word (option_list value)).
Proof. by destruct value. Qed.
Lemma each_words {A} word (render : A -> str) values : each word render values = words_of (items_at word (map render values)).
Proof. unfold each. induction values as [|value values IH]; [done|]. cbn. by rewrite IH. Qed.

Definition flag_items (request : RunRequest) : list Item :=
  flag_item (remove request) "--rm" ++ flag_item (detach request) "--detach" ++ flag_item (tty request) "--tty"
  ++ flag_item (interactive request) "--interactive".
Definition values_items (given : list (str * list str)) : list Item := flat_map (fun given => items_at given.1 given.2) given.
Definition request_items (request : RunRequest) : list Item :=
  flag_items request ++ values_items (take 8 (given_values request))
  ++ flag_item (read_only request) "--read-only" ++ values_items (drop 8 (given_values request)).

Lemma run_options_items request : run_options request = words_of (request_items request).
Proof.
  unfold request_items, flag_items, values_items. cbn [given_values take drop flat_map fst snd]. rewrite !app_nil_r.
  unfold run_options, resource_args. rewrite !flag_words, !valued_words, !each_words, !words_of_app, <- !app_assoc. cbn [words_of flat_map].
  destruct (drop_all_capabilities request), (no_new_privileges request); rewrite ?map_id; reflexivity.
Qed.

Definition good_item (item : Item) : bool :=
  match item.2 with
  | None => memb item.1 FLAGS
  | Some _ => negb (memb item.1 FLAGS) && memb item.1 VALUED
  end.
Lemma read_words_items items rest :
  forallb good_item items = true ->
  read_words (words_of items ++ rest) = read ← read_words rest; Some (items ++ read.1, read.2).
Proof.
  induction items as [|[word value] items IH]; cbn [forallb]; intros H; [cbn; by destruct (read_words rest) as [[]|]|].
  bool_split. specialize (IH H0). unfold good_item in H. cbn [fst snd] in H.
  replace (words_of ((word, value) :: items) ++ rest) with (word :: option_list value ++ (words_of items ++ rest))
    by (cbn; by rewrite <- app_assoc).
  destruct value as [value|]; cbn [read_words option_list app]; bool_split.
  - rewrite H, H1, IH. by destruct (read_words rest) as [[]|].
  - rewrite H, IH. by destruct (read_words rest) as [[]|].
Qed.
Lemma good_flag b word : memb word FLAGS = true -> forallb good_item (flag_item b word) = true.
Proof. intros H. destruct b; [|done]. cbn [flag_item forallb]. unfold good_item. cbn [fst snd]. by rewrite H. Qed.
Lemma good_items_at word values : negb (memb word FLAGS) && memb word VALUED = true -> forallb good_item (items_at word values) = true.
Proof. intros H. induction values as [|v values IH]; [done|]. cbn [items_at map forallb]. unfold good_item at 1. cbn [fst snd]. by rewrite H. Qed.
Lemma good_request_items request : forallb good_item (request_items request) = true.
Proof.
  unfold request_items, flag_items, values_items. cbn [given_values take drop flat_map fst snd].
  rewrite !forallb_app. rewrite !good_flag, !good_items_at by (vm_compute; reflexivity). reflexivity.
Qed.

Lemma values_of_app word a b : values_of word (a ++ b) = values_of word a ++ values_of word b.
Proof. apply omap_app. Qed.
Lemma values_of_flag word b flag : values_of word (flag_item b flag) = [].
Proof. destruct b; [|done]. cbn. by case_bool_decide. Qed.
Lemma values_of_items word other values : values_of word (items_at other values) = if other =s? word then values else [].
Proof.
  unfold str_eqb. induction values as [|v values IH]; [by case_bool_decide|].
  change (values_of word (items_at other (v :: values)))
    with (match (if bool_decide (other = word) then Some v else None) with
          | Some v => v :: values_of word (items_at other values)
          | None => values_of word (items_at other values)
          end).
  rewrite IH. by case_bool_decide.
Qed.
Lemma flag_set_app word a b : flag_set word (a ++ b) = flag_set word a || flag_set word b.
Proof. apply existsb_app. Qed.
Lemma flag_set_items word other values : flag_set word (items_at other values) = false.
Proof. induction values as [|v values IH]; [done|]. cbn. by rewrite bool_decide_eq_false_2. Qed.
Lemma flag_set_flag word b other : flag_set word (flag_item b other) = b && (other =s? word).
Proof.
  unfold str_eqb. destruct b; [|done]. cbn. rewrite orb_false_r. destruct (decide (other = word)) as [->|H].
  - by rewrite !bool_decide_eq_true_2.
  - rewrite !bool_decide_eq_false_2; congruence.
Qed.

Definition values_at (word : str) (given : list (str * list str)) : list str :=
  flat_map (fun given => if given.1 =s? word then given.2 else []) given.
Lemma values_of_values_items word given : values_of word (values_items given) = values_at word given.
Proof.
  unfold values_items, values_at. induction given as [|g given IH]; [done|]. cbn [flat_map]. by rewrite values_of_app, values_of_items, IH.
Qed.
Lemma values_at_absent word given : word ∉ given.*1 -> values_at word given = [].
Proof.
  unfold values_at. induction given as [|g given IH]; [done|]. cbn. intros [H1 H2]%not_elem_of_cons.
  rewrite (proj2 (str_eqb_neq _ _)) by congruence. by apply IH.
Qed.
Lemma values_at_present given : NoDup given.*1 -> Forall (fun g => values_at g.1 given = g.2) given.
Proof.
  intros H. apply Forall_forall. induction given as [|g given IH]; [by intros x Hx%elem_of_nil|].
  cbn [fmap list_fmap] in H. apply NoDup_cons in H as [Hg H]. intros x [->|Hx]%elem_of_cons; unfold values_at; cbn [flat_map].
  - rewrite (proj2 (str_eqb_eq _ _)) by done. fold (values_at g.1 given). by rewrite values_at_absent, app_nil_r.
  - rewrite (proj2 (str_eqb_neq _ _)) by (intros Heq; apply Hg; rewrite Heq; by apply list_elem_of_fmap_2).
    by apply IH.
Qed.

Lemma request_items_values request :
  Forall (fun given => values_of given.1 (request_items request) = given.2) (given_values request).
Proof.
  eapply Forall_impl; [apply (values_at_present (given_values request))|].
  - apply (bool_decide_unpack _). vm_compute. reflexivity.
  - intros given <-. unfold request_items, flag_items. rewrite !values_of_app, !values_of_flag, !values_of_values_items.
    unfold values_at. cbn [app]. rewrite <- flat_map_app. by rewrite take_drop.
Qed.
Lemma flag_set_values word given : flag_set word (values_items given) = false.
Proof. unfold values_items. induction given as [|g given IH]; [done|]. cbn [flat_map]. by rewrite flag_set_app, flag_set_items. Qed.
Lemma request_items_flags request :
  Forall (fun given => flag_set given.1 (request_items request) = given.2) (given_flags request).
Proof.
  apply Forall_forall. intros given Hgiven. unfold request_items, flag_items. rewrite !flag_set_app, !flag_set_flag, !flag_set_values.
  unfold given_flags in Hgiven. rewrite !elem_of_cons, elem_of_nil in Hgiven. rewrite !orb_false_r.
  destruct Hgiven as [-> | [-> | [-> | [-> | [-> | []]]]]]; cbn [fst snd];
    destruct (remove request), (detach request), (tty request), (interactive request), (read_only request); reflexivity.
Qed.


(** A request whose values look like options. *)
Definition tricky_request : RunRequest :=
  mkRunRequest "--rm" "image" (Some ("--privileged" : str)) (strs ["--network"; "host"]) (Some ("--env" : str))
    [("A" : str, "--volume" : str)] [] [mkMountRequest Bind (Some ("/a" : str)) "/b" true] [] Limits.ResourceValues_default
    (Some ("none" : str)) None None [] false true false true true true [] true (Some ("-u" : str)) [].

(** ** Reading a mount

    The engines read the value of [--mount] as one CSV record of [key=value]
    fields: a quote opens a quoted field at its start only, and ends it before a
    comma or the end; anywhere else it is an error. *)

Inductive Csv := FieldStart | Bare | Quoted | Closed.
Fixpoint csv_fields (state : Csv) (field : str) (text : str) : option (list str) :=
  match text with
  | [] => match state with Quoted => None | _ => Some [field] end
  | c :: text =>
      match state with
      | FieldStart | Bare =>
          if is_byte "," c then fields ← csv_fields FieldStart [] text; Some (field :: fields)
          else if is_byte DQUOTE c then match state with FieldStart => csv_fields Quoted [] text | _ => None end
          else if is_byte LF c then None
          else csv_fields Bare (field ++ [c]) text
      | Quoted => if is_byte DQUOTE c then csv_fields Closed field text else csv_fields Quoted (field ++ [c]) text
      | Closed =>
          if is_byte DQUOTE c then csv_fields Quoted (field ++ [c]) text
          else if is_byte "," c then fields ← csv_fields FieldStart [] text; Some (field :: fields)
          else None
      end
  end.
Definition read_kind (value : str) : option MountKind :=
  if value =s? "bind" then Some Bind else if value =s? "volume" then Some Volume
  else if value =s? "tmpfs" then Some Tmpfs else None.
(** The fields in the order of the host: type, source, target, read-only. *)
Definition read_source (fields : list str) : option (option str * list str) :=
  match fields with
  | field :: rest =>
      match strip_prefix "src=" field with Some source => Some (Some source, rest) | None => Some (None, fields) end
  | [] => None
  end.
Definition read_mount (text : str) : option MountRequest :=
  fields ← csv_fields FieldStart [] text;
  '(first, fields) ← match fields with first :: fields => Some (first, fields) | [] => None end;
  kind ← (kind ← strip_prefix "type=" first; read_kind kind);
  '(source, fields) ← read_source fields;
  match fields with
  | target :: flags =>
      target ← strip_prefix "dst=" target;
      match flags with
      | [] => Some (mkMountRequest kind source target false)
      | [flag] => if flag =s? "readonly" then Some (mkMountRequest kind source target true) else None
      | _ => None
      end
  | [] => None
  end.

(** No byte of its own meaning in a CSV record. *)
Definition csv_plain (c : ascii) : bool := negb (is_byte "," c) && negb (is_byte DQUOTE c) && negb (is_byte LF c).
Lemma append_plain value : forallb csv_plain value = true -> append_mount_value value = value.
Proof.
  intros H. unfold append_mount_value. replace (existsb _ value) with false; [done|]. symmetry.
  induction value as [|c value IH]; [done|]. cbn in *. bool_split. rewrite IH by done.
  unfold csv_plain in H. bool_split. by rewrite H, H2.
Qed.
Lemma csv_plain_run state field value rest :
  (state = FieldStart \/ state = Bare) -> forallb csv_plain value = true -> value <> [] ->
  csv_fields state field (value ++ rest) = csv_fields Bare (field ++ value) rest.
Proof.
  revert state field. induction value as [|c value IH]; intros state field Hs Hv Hn; [done|].
  cbn in Hv. bool_split. assert (Hc := H). unfold csv_plain in Hc. bool_split. cbn [app csv_fields].
  assert (E : csv_fields Bare (field ++ [c]) (value ++ rest) = csv_fields Bare (field ++ c :: value) rest).
  { destruct value as [|d value]; [done|]. rewrite IH by (try done; by right). by rewrite <- app_assoc. }
  destruct Hs as [-> | ->]; by rewrite H1, H2, H3.
Qed.
Lemma csv_field value rest :
  forallb csv_plain value = true -> value <> [] ->
  csv_fields FieldStart [] (value ++ ("," : str) ++ rest) = fields ← csv_fields FieldStart [] rest; Some (value :: fields).
Proof. intros H1 H2. rewrite csv_plain_run by (try done; by left). reflexivity. Qed.
Lemma csv_last value : forallb csv_plain value = true -> value <> [] -> csv_fields FieldStart [] value = Some [value].
Proof. intros H1 H2. rewrite <- (app_nil_r value) at 1. rewrite csv_plain_run by (try done; by left). reflexivity. Qed.

Definition plain_mount (mount : MountRequest) : bool :=
  forallb csv_plain (default [] (mount_source mount)) && forallb csv_plain (mount_target mount).
Lemma mount_fields mount :
  plain_mount mount = true ->
  csv_fields FieldStart [] (render_mount mount)
  = Some (("type=" ++ kind_text (mount_kind mount))
          :: match mount_source mount with Some source => [("src=" ++ source : str)] | None => [] end
          ++ ("dst=" ++ mount_target mount) :: flag (mount_read_only mount) "readonly").
Proof.
  destruct mount as [kind source target read_only]. unfold plain_mount, render_mount. cbn [mount_source mount_target mount_kind mount_read_only].
  intros H. bool_split. rewrite (append_plain target) by done.
  assert (Hk : forallb csv_plain ("type=" ++ kind_text kind) = true) by (by destruct kind).
  assert (Ht : forallb csv_plain ("dst=" ++ target) = true) by (rewrite forallb_app; by rewrite H0).
  assert (Hlast : csv_fields FieldStart [] (("dst=" ++ target) ++ (if read_only then ",readonly" else []))
                  = Some (("dst=" ++ target) :: flag read_only "readonly")).
  { destruct read_only.
    - change (",readonly" : str) with (("," : str) ++ ("readonly" : str)). by rewrite csv_field, csv_last.
    - by rewrite app_nil_r, csv_last. }
  destruct source as [source|].
  - change (forallb csv_plain source = true) in H. rewrite (append_plain source) by done.
    assert (Hs : forallb csv_plain ("src=" ++ source) = true) by (rewrite forallb_app; by rewrite H).
    transitivity (csv_fields FieldStart [] (("type=" ++ kind_text kind) ++ ("," : str) ++ ("src=" ++ source) ++ ("," : str)
                    ++ ("dst=" ++ target) ++ (if read_only then ",readonly" else []))).
    { f_equal. }
    rewrite csv_field by done. rewrite csv_field by done. by rewrite Hlast.
  - transitivity (csv_fields FieldStart [] (("type=" ++ kind_text kind) ++ ("," : str)
                    ++ ("dst=" ++ target) ++ (if read_only then ",readonly" else []))).
    { f_equal. }
    rewrite csv_field by done. by rewrite Hlast.
Qed.

(** A mount without commas, quotes or line feeds in its paths reads back from
    its rendered value as itself: a path cannot add a field, change the kind or
    drop the read-only mark. *)
Theorem mount_read_back (mount : MountRequest) : plain_mount mount = true -> read_mount (render_mount mount) = Some mount.
Proof.
  intros H. unfold read_mount. rewrite (mount_fields mount H).
  destruct mount as [kind [source|] target read_only]; destruct kind, read_only; reflexivity.
Qed.
Definition workspace_mount : MountRequest := mkMountRequest Bind (Some ("/home/me/a=b,readonly" : str)) "/workspaces/a" false.
Lemma mount_read_back_witness :
  read_mount (render_mount (mkMountRequest Bind (Some ("/home/me/a=b" : str)) "/workspaces/a" true))
  = Some (mkMountRequest Bind (Some ("/home/me/a=b" : str)) "/workspaces/a" true).
Proof. apply mount_read_back. vm_compute. reflexivity. Defined.

(** A path with a comma is quoted within its field, where a quote has no place. *)
Example comma_refused : read_mount (render_mount workspace_mount) = None.
Proof. vm_compute. reflexivity. Qed.
End EngineFacts.
