(* ===== verification/EngineRuns.v ===== *)
(** * What the host makes the engines do ([codex-start-host/src/runtime.rs])

    Facts on the histories of commands: what a selected engine has shown, what a
    volume that is reused has shown, and which resources the capability probe
    removes. *)

From S2P Require Export Engines.

Module EngineRuns.
Import ConfigTypes HostError HostCommand Json Engines.

(** [c] has been run after [since], with this answer. *)
Definition answered `{Engine} (since history : list CommandSpec) (c : CommandSpec) (output : CommandOutput) : Prop :=
  exists later earlier, history = later ++ c :: earlier /\ since `suffix_of` earlier /\ answer earlier c = Ok output.
(** The command that reads one label of a resource. *)
Definition label_query `{DebugStr} (self : Runtime) (resource field name label : str) : CommandSpec :=
  invoke self [resource; "inspect" : str; "--format" : str; label_template field label; name].

Section facts.
Context {K : Engine} {D : DebugStr} {O : DebugOsString} {J : SerdeJson} {V : EnvironmentVariables}.

(** The engine has said that a resource carries a label, or its old name, with a value. *)
Definition shows_label (self : Runtime) (since : list CommandSpec) (resource name label value : str) (history : list CommandSpec) : Prop :=
  exists field queried output,
    (queried = label \/ legacy_label label = Some queried)
    /\ answered since history (label_query self resource field name queried) output
    /\ success (status output) = true /\ stdout_text output = value.

Lemma query_later since history new c output : answered since history c output -> answered since (new ++ history) c output.
Proof. intros (later & earlier & -> & H). exists (new ++ later), earlier. by rewrite <- app_assoc. Qed.
Lemma query_now since history c output : since `suffix_of` history -> answer history c = Ok output -> answered since (c :: history) c output.
Proof. intros. by exists [], history. Qed.
Lemma shows_later self since resource name label value history new :
  shows_label self since resource name label value history -> shows_label self since resource name label value (new ++ history).
Proof. intros (field & queried & output & H1 & H2 & H3). exists field, queried, output. split; [done|]. split; [by apply query_later|done]. Qed.

(** *** One command *)

Lemma capture_run c s r s' : run_capture c s = Some (r, s') <-> s' = c :: s /\ r = map_err (CommandIo (program c)) (answer s c).
Proof. unfold run_capture. st_run. naive_solver. Qed.
Lemma capture_Ok c s output s' : run_capture c s = Some (Ok output, s') <-> s' = c :: s /\ answer s c = Ok output.
Proof. rewrite capture_run. split; intros [-> H]; (split; [done|]); [|by rewrite H]. symmetry in H. by apply map_err_Ok in H. Qed.
Lemma require_success_Ok program output s output' s' :
  require_success program output s = Some (Ok output', s') <-> output' = output /\ s' = s /\ success (status output) = true.
Proof.
  unfold require_success. destruct (success (status output)); st_run.
  - naive_solver.
  - unfold or_panic. split; [|by intros (_ & _ & ?)]. destruct (sanitize_stderr _); st_run; naive_solver.
Qed.
Lemma checked_Ok c s output s' :
  run_checked c s = Some (Ok output, s') <-> s' = c :: s /\ answer s c = Ok output /\ success (status output) = true.
Proof.
  unfold run_checked. rewrite bind_run_Ok. setoid_rewrite capture_Ok. setoid_rewrite require_success_Ok. naive_solver.
Qed.

Lemma inspect_label_Ok self resource name template s value s' :
  inspect_label self resource name template s = Some (Ok (Some value), s') ->
  exists output, s' = invoke self [resource; "inspect" : str; "--format" : str; template; name] :: s
    /\ answer s (invoke self [resource; "inspect" : str; "--format" : str; template; name]) = Ok output
    /\ success (status output) = true /\ stdout_text output = value.
Proof.
  unfold inspect_label. rewrite bind_run_Ok. intros (output & s1 & [-> Ha]%capture_Ok & H). revert H.
  destruct (success (status output)) eqn:Es; cbn [negb]; st_run; [|done].
  destruct (_ && _); [|done]. intros [= <- <-]. by exists output.
Qed.
(** *** Operations that remove nothing *)

(** The resource a command removes. *)
Definition removal (c : CommandSpec) : option (str * str) :=
  match args c with
  | resource :: verb :: rest => if verb =s? "rm" then name ← last rest; Some (resource, name) else None
  | _ => None
  end.

(** [R] holds across each command that removes nothing. *)
Section quiet.
Context (R : list CommandSpec -> list CommandSpec -> Prop) `{!PreOrder R}.
Context (quiet_R : forall c h, removal c = None -> R h (c :: h)).

Lemma quiet_capture c : removal c = None -> rel_m R (run_capture c).
Proof. intros H. unfold run_capture. st_rel. by apply quiet_R. Qed.
Lemma quiet_require program output : rel_m R (require_success program output).
Proof. unfold require_success. st_rel. by apply rel_or_panic. Qed.
Lemma quiet_checked c : removal c = None -> rel_m R (run_checked c).
Proof. intros H. unfold run_checked. st_rel; [by apply quiet_capture|apply quiet_require]. Qed.
Lemma quiet_interactive c : removal c = None -> rel_m R (run_interactive c).
Proof. intros H. unfold run_interactive. st_rel. by apply quiet_capture. Qed.
Ltac quiet_step :=
  st_rel; repeat match goal with
  | |- rel_m R (run_capture _) => apply quiet_capture
  | |- rel_m R (run_checked _) => apply quiet_checked
  | |- rel_m R (run_interactive _) => apply quiet_interactive
  | |- removal _ = None => reflexivity
  end.

Lemma quiet_inspect_label self resource name template : rel_m R (inspect_label self resource name template).
Proof. unfold inspect_label. quiet_step. Qed.
Lemma quiet_label_of self resource field name label : rel_m R (label_of self resource field name label).
Proof. unfold label_of. st_rel; apply quiet_inspect_label. Qed.
Lemma quiet_check_labels self name labels : rel_m R (check_labels self name labels).
Proof.
  induction labels as [|[key expected] labels IH]; cbn [check_labels]; st_rel; [|done]. apply quiet_label_of.
Qed.
Lemma quiet_ensure_volume self name labels : rel_m R (ensure_volume self name labels).
Proof. unfold ensure_volume. quiet_step. apply quiet_check_labels. Qed.
Lemma quiet_create_network self name internal labels : rel_m R (create_network self name internal labels).
Proof. unfold create_network. quiet_step. Qed.
Lemma quiet_network_is_internal self network : rel_m R (network_is_internal self network).
Proof. unfold network_is_internal. quiet_step. Qed.
Lemma quiet_list_resource_names self resource label : rel_m R (list_resource_names self resource label).
Proof. unfold list_resource_names, list_names. quiet_step. Qed.
Lemma quiet_container_state self name : rel_m R (container_state self name).
Proof. unfold container_state. quiet_step. Qed.
Lemma quiet_try_templates self templates : rel_m R (try_templates self templates).
Proof. induction templates as [|t ts IH]; cbn [try_templates]; quiet_step. done. Qed.
Lemma quiet_query_server_version self : rel_m R (query_server_version self).
Proof. unfold query_server_version. st_rel. apply quiet_try_templates. Qed.
Lemma quiet_check_capabilities self capabilities n :
  (forall capability, capability ∈ capabilities -> removal (invoke self (help_argv capability)) = None) ->
  rel_m R (check_capabilities self capabilities n).
Proof.
  revert n. induction capabilities as [|c cs IH]; intros n H; cbn [check_capabilities]; st_rel.
  - apply quiet_capture, H. apply list_elem_of_here.
  - apply IH. intros c' Hc. apply H. by apply list_elem_of_further.
Qed.
Lemma quiet_capability_report self : rel_m R (capability_report self).
Proof.
  apply quiet_check_capabilities. intros capability H. unfold HELP_CAPABILITIES in H. rewrite !elem_of_cons, elem_of_nil in H.
  destruct H as [-> | [-> | [-> | [-> | [-> | [-> | []]]]]]]; reflexivity.
Qed.
Lemma quiet_details self : rel_m R (details self).
Proof.
  unfold details, docker_context_remote. quiet_step; apply quiet_query_server_version.
Qed.
Lemma quiet_configure self request uid gid : rel_m R (configure_workload_identity self request uid gid).
Proof. unfold configure_workload_identity. st_rel. apply quiet_details. Qed.
Lemma run_command_quiet self request : removal (run_command self request) = None.
Proof.
  unfold removal, run_command, run_options. cbn [args with_io with_args arg new app].
  destruct (remove request), (detach request), (tty request), (interactive request); reflexivity.
Qed.
Lemma quiet_run self request : rel_m R (run self request).
Proof. unfold run. st_rel; [apply quiet_capture|apply quiet_interactive]; apply run_command_quiet. Qed.
End quiet.

(** Every operation only adds to the history. *)
Lemma label_of_grows self resource field name label s r s' :
  label_of self resource field name label s = Some (r, s') -> s `suffix_of` s'.
Proof. apply (quiet_label_of suffix). intros c h _. by eexists [_]. Qed.
Lemma inspect_label_grows self resource name template s r s' :
  inspect_label self resource name template s = Some (r, s') -> s `suffix_of` s'.
Proof. apply (quiet_inspect_label suffix). intros c h _. by eexists [_]. Qed.

(** *** Labels *)

(** A label that was found was reported. *)
Lemma label_of_shows self resource field name label s value s' :
  label_of self resource field name label s = Some (Ok (Some value), s') -> shows_label self s resource name label value s'.
Proof.
  unfold label_of. rewrite bind_run_Ok. intros ([first|] & s1 & H1 & H).
  - injection H as -> ->. apply inspect_label_Ok in H1 as (output & -> & Ha & Hs). exists field, label, output.
    split; [by left|]. split; [by apply query_now|done].
  - destruct (legacy_label label) as [legacy|] eqn:El; [|done]. apply inspect_label_grows in H1.
    apply inspect_label_Ok in H as (output & -> & Ha & Hs). exists field, legacy, output.
    split; [by right|]. split; [by apply query_now|done].
Qed.
Lemma shows_since self since since' resource name label value history :
  since `suffix_of` since' -> shows_label self since' resource name label value history -> shows_label self since resource name label value history.
Proof.
  intros Hs (field & queried & output & H1 & (later & earlier & H2 & H3 & H4) & H5). exists field, queried, output.
  split; [done|]. split; [|done]. exists later, earlier. split; [done|]. split; [|done]. by trans since'.
Qed.
Lemma shows_grows self since resource name label value history history' :
  history `suffix_of` history' -> shows_label self since resource name label value history ->
  shows_label self since resource name label value history'.
Proof. intros [new ->]. apply shows_later. Qed.

Lemma check_labels_show self name labels s s' :
  check_labels self name labels s = Some (Ok tt, s') ->
  s `suffix_of` s' /\ Forall (fun entry : str * str => shows_label self s "volume" name entry.1 entry.2 s') labels.
Proof.
  revert s. induction labels as [|[key expected] labels IH]; intros s; cbn [check_labels].
  { intros [= <-]. split; [done|constructor]. }
  rewrite bind_run_Ok. intros (actual & s1 & H1 & H). apply bind_run_Ok in H as ([] & s2 & [H2 ->]%throw_if_run_Ok & H).
  bool_split. subst actual. apply IH in H as [H3 H4]. assert (s `suffix_of` s1) by (by eapply label_of_grows).
  split; [by trans s1|]. constructor; cbn [fst snd].
  - eapply shows_grows; [done|]. by apply label_of_shows in H1.
  - eapply Forall_impl; [done|]. intros entry. by apply shows_since.
Qed.

(** When a volume is ready for use, either it was created just now, with exactly
    the labels asked for, or the engine has said of every label that the existing
    volume carries it with the expected value: the volume of another project is
    never reused. *)
Theorem ensure_volume_owned (self : Runtime) (name : str) (labels : bmap str) before after :
  ensure_volume self name labels before = Some (Ok tt, after) ->
  (exists inspect output,
     after = invoke self (strs ["volume"; "create"] ++ each "--label" assignment labels ++ [name]) :: inspect :: before
     /\ answer (inspect :: before) (invoke self (strs ["volume"; "create"] ++ each "--label" assignment labels ++ [name])) = Ok output
     /\ success (status output) = true)
  \/ Forall (fun entry : str * str => shows_label self before "volume" name entry.1 entry.2 after) labels.
Proof.
  unfold ensure_volume. rewrite bind_run_Ok. intros (inspect & s1 & [-> Ha]%capture_Ok & H).
  destruct (success (status inspect)).
  - right. apply check_labels_show in H as [H1 H2]. eapply Forall_impl; [exact H2|]. intros entry. apply shows_since. by eexists [_].
  - left. apply bind_run_Ok in H as (output & s2 & (-> & Hc & Hs)%checked_Ok & H). injection H as <-. by eexists _, output.
Qed.

(** *** The capability probe *)

(** Histories since [before] in which every removal is of a resource that the
    engine has reported to carry the probe's label with [id]. *)
Inductive owned (self : Runtime) (id : str) (before : list CommandSpec) : list CommandSpec -> Prop :=
  | owned_start : owned self id before before
  | owned_quiet c h : owned self id before h -> removal c = None -> owned self id before (c :: h)
  | owned_removal c h resource name :
      owned self id before h -> removal c = Some (resource, name) ->
      shows_label self before resource name PROBE_LABEL id h -> owned self id before (c :: h).

Section probe.
Context (self : Runtime) (id : str) (before : list CommandSpec).
(** While the label of a resource is known, only that resource may go. *)
Definition may_remove (resource name : str) (h : list CommandSpec) : Prop :=
  owned self id before h /\ shows_label self before resource name PROBE_LABEL id h.
Lemma owned_keeps c h : removal c = None -> keeps (owned self id before) h (c :: h).
Proof. intros H Ho. by apply owned_quiet. Qed.
Lemma owned_suffix h : owned self id before h -> before `suffix_of` h.
Proof. induction 1 as [|c h _ IH _|c h r n _ IH _ _]; [done|by apply suffix_cons_r..]. Qed.
Lemma may_remove_keeps resource name c h :
  removal c = None \/ removal c = Some (resource, name) -> keeps (may_remove resource name) h (c :: h).
Proof.
  intros Hc [Ho Hs]. split; [|by apply (shows_later _ _ _ _ _ _ _ [c])].
  destruct Hc as [Hc|Hc]; [by apply owned_quiet|by eapply owned_removal].
Qed.
Lemma may_remove_capture resource name c :
  removal c = None \/ removal c = Some (resource, name) -> rel_m (keeps (may_remove resource name)) (run_capture c).
Proof. intros H. unfold run_capture. st_rel. by apply may_remove_keeps. Qed.
Lemma may_remove_checked resource name c :
  removal c = None \/ removal c = Some (resource, name) -> rel_m (keeps (may_remove resource name)) (run_checked c).
Proof. intros H. unfold run_checked. st_rel; [by apply may_remove_capture|apply (quiet_require _)]. Qed.
Lemma remove_container_keeps name force : rel_m (keeps (may_remove "container" name)) (remove_container self name force).
Proof.
  unfold remove_container. st_rel.
  - apply (quiet_container_state _). intros c h H. apply may_remove_keeps. by left.
  - apply may_remove_checked. right. by destruct force.
Qed.
Lemma remove_volume_keeps name force : rel_m (keeps (may_remove "volume" name)) (remove_volume self name force).
Proof.
  unfold remove_volume. st_rel; [|apply (quiet_require _)]. apply may_remove_capture. right. by destruct force.
Qed.
Lemma remove_network_keeps name : rel_m (keeps (may_remove "network" name)) (remove_network self name).
Proof. unfold remove_network. st_rel; [|apply (quiet_require _)]. apply may_remove_capture. by right. Qed.

Lemma cleanup_one_keeps resource field name remove_it :
  rel_m (keeps (may_remove resource name)) remove_it ->
  rel_m (keeps (owned self id before)) (cleanup_one resource name id (label_of self resource field name PROBE_LABEL) remove_it).
Proof.
  intros Hrem s r s' H Ho. unfold cleanup_one in H. run_step H r1 s1 H1. unfold attempt in H1.
  destruct (label_of self resource field name PROBE_LABEL s) as [[r0 s0]|] eqn:El; [|done]. injection H1 as <- <-.
  assert (Ho0 : owned self id before s0) by (exact (quiet_label_of _ owned_keeps _ _ _ _ _ _ _ _ El Ho)).
  destruct r0 as [owner|e]; [|by injection H as <- <-]. case_bool_decide; [|by injection H as <- <-]. subst owner.
  apply label_of_shows in El. run_step H r2 s2 H2. unfold attempt in H2.
  destruct (remove_it s0) as [[r3 s3]|] eqn:Er; [|done]. injection H2 as <- <-. injection H as <- <-.
  refine (proj1 (Hrem _ _ _ Er _)). split; [done|]. eapply shows_since; [eapply owned_suffix, Ho|done].
Qed.
Lemma cleanup_keeps network volume container :
  rel_m (keeps (owned self id before)) (cleanup_capability_probe self id network volume container).
Proof.
  unfold cleanup_capability_probe, container_label, volume_label, network_label.
  st_rel; apply cleanup_one_keeps; [apply remove_container_keeps|apply remove_volume_keeps|apply remove_network_keeps].
Qed.
Lemma with_error_keeps {A} (R : list CommandSpec -> list CommandSpec -> Prop) `{!PreOrder R} operation (m : ST (list CommandSpec) HostError A) :
  rel_m R m -> rel_m R (with_capability_error operation m).
Proof. intros H. unfold with_capability_error. by st_rel. Qed.
Lemma probe_keeps image network volume container labels :
  rel_m (keeps (owned self id before)) (run_deep_capability_probe self image id network volume container labels).
Proof.
  assert (Q := owned_keeps).
  unfold run_deep_capability_probe, require_probe_label, require_filtered_resource, list_network_names, list_volume_names.
  st_rel; repeat apply with_error_keeps; try apply _.
  - apply (quiet_create_network _ Q).
  - apply (quiet_network_is_internal _ Q).
  - apply (quiet_inspect_label _ Q).
  - apply (quiet_ensure_volume _ Q).
  - apply (quiet_inspect_label _ Q).
  - apply (quiet_list_resource_names _ Q).
  - apply (quiet_list_resource_names _ Q).
  - apply (quiet_configure _ Q).
  - apply (quiet_run _ Q).
Qed.
End probe.

(** C36: Whatever the engine answers and wherever the probe fails, each resource it
    removes was reported by the engine, during the probe, to carry the probe's own
    identifier: cleaning up never touches a resource of the same name that another
    program made. *)
Theorem probe_removes_only_its_own (self : Runtime) (image id : str) before r after :
  deep_capability_probe self image id before = Some (r, after) -> owned self id before after.
Proof.
  intros H. unfold deep_capability_probe in H. revert H. 
  match goal with |- ?m before = _ -> _ => cut (rel_m (keeps (owned self id before)) m) end.
  { intros Hk H. exact (Hk _ _ _ H (owned_start _ _ _)). }
  cbv zeta. st_rel; [apply probe_keeps|apply cleanup_keeps|destruct a; cbv beta; st_rel].
Qed.

(** *** Detection *)

Definition shows_version (self : Runtime) (since history : list CommandSpec) : Prop :=
  exists template output found,
    answered since history (invoke self (strs ["version"; "--format"] ++ [template])) output
    /\ success (status output) = true
    /\ parse_runtime_version (stdout_text output) = Some found
    /\ version_below found (minimum_version (kind self)) = false.
Definition shows_options (self : Runtime) (since history : list CommandSpec) (capability : HelpCapability) : Prop :=
  exists output,
    answered since history (invoke self (help_argv capability)) output
    /\ success (status output) = true
    /\ Forall (fun option => help_has_option (from_utf8_lossy (stdout output)) option = true) (required capability).

Lemma query_since since since' history c output :
  since `suffix_of` since' -> answered since' history c output -> answered since history c output.
Proof. intros Hs (later & earlier & H1 & H2 & H3). exists later, earlier. split; [done|]. split; [by trans since'|done]. Qed.
Lemma query_grows since history history' c output :
  history `suffix_of` history' -> answered since history c output -> answered since history' c output.
Proof. intros [new ->]. apply query_later. Qed.

Lemma try_templates_Ok self templates s value s' :
  try_templates self templates s = Some (Ok (Some value), s') ->
  exists template output, answered s s' (invoke self (strs ["version"; "--format"] ++ [template])) output
    /\ success (status output) = true /\ stdout_text output = value.
Proof.
  revert s. induction templates as [|t ts IH]; intros s; cbn [try_templates]; [done|].
  rewrite bind_run_Ok. intros (output & s1 & [-> Ha]%capture_Ok & H). revert H.
  destruct (success (status output) && _) eqn:E.
  - intros [= <- <-]. bool_split. exists t, output. split; [by apply query_now|done].
  - intros (t' & o' & H1 & H2)%IH. exists t', o'. split; [|done]. eapply query_since; [by eexists [_]|done].
Qed.
Lemma check_capabilities_Ok self capabilities n s r s' :
  check_capabilities self capabilities n s = Some (Ok r, s') ->
  s `suffix_of` s' /\ Forall (shows_options self s s') capabilities.
Proof.
  revert n s. induction capabilities as [|c cs IH]; intros n s; cbn [check_capabilities].
  { intros [= _ <-]. by split. }
  rewrite bind_run_Ok. intros (output & s1 & [-> Ha]%capture_Ok & H).
  apply bind_run_Ok in H as ([] & s2 & [Hs ->]%throw_if_run_Ok & H). cbv zeta in H.
  apply bind_run_Ok in H as ([] & s2 & [Hm ->]%throw_if_run_Ok & H). bool_split.
  apply IH in H as [H1 H2]. split; [trans (invoke self (help_argv c) :: s); [by eexists [_]|done]|]. constructor.
  - exists output. split; [eapply query_grows; [done|]; by apply query_now|]. split; [done|].
    apply List.Forall_forall. intros option Hin. destruct (help_has_option _ option) eqn:E; [done|].
    exfalso. assert (Hf : In option (List.filter (fun o => negb (help_has_option (from_utf8_lossy (stdout output)) o)) (required c)))
      by (apply filter_In; by rewrite E).
    by destruct (List.filter _ _).
  - eapply Forall_impl; [exact H2|]. intros c' (o' & Hc & Hc'). exists o'. split; [|done].
    eapply query_since; [|done]. by eexists [_].
Qed.
Lemma require_healthy_Ok self s s' :
  require_healthy self s = Some (Ok tt, s') ->
  shows_version self s s' /\ Forall (shows_options self s s') HELP_CAPABILITIES.
Proof.
  unfold require_healthy, query_server_version. rewrite bind_run_Ok. intros (version & s1 & Hv & H).
  apply bind_run_Ok in Hv as ([value|] & s2 & Ht & Hv); [|done]. injection Hv as -> ->.
  assert (Hgrow : s `suffix_of` s1).
  { refine (quiet_try_templates suffix _ _ _ _ _ _ Ht). intros c h _. by eexists [_]. }
  apply try_templates_Ok in Ht as (template & output & H1 & H2 & H3).
  apply bind_run_Ok in H as (found & s3 & [Hf%ok_or_Ok ->]%lift_run_Ok & H). cbv zeta in H.
  apply bind_run_Ok in H as ([] & s3 & [Hb ->]%throw_if_run_Ok & H).
  apply bind_run_Ok in H as (n & s3 & H4 & H). injection H as <-.
  apply check_capabilities_Ok in H4 as [H4 H5]. split.
  - exists template, output, found. split; [by eapply query_grows|]. by rewrite H3.
  - eapply Forall_impl; [exact H5|]. intros c (o & Hc & Hc'). exists o. split; [|done]. by eapply query_since.
Qed.
Lemma from_program_Ok kind program s r s' :
  from_program kind program s = Some (Ok r, s') ->
  r = mkRuntime kind program /\ shows_version r s s' /\ Forall (shows_options r s s') HELP_CAPABILITIES.
Proof.
  unfold from_program. rewrite bind_run_Ok. intros ([] & s1 & H1 & [= <- <-]). split; [done|]. by apply require_healthy_Ok.
Qed.
Lemma infer_kind_concrete program : infer_kind program <> RuntimeKind_Auto.
Proof. unfold infer_kind. by destruct (contains_str _ _). Qed.
Lemma attempt_run {A} (m : ST (list CommandSpec) HostError A) s r s' :
  attempt m s = Some (r, s') <-> exists r0, m s = Some (r0, s') /\ r = Ok r0.
Proof. unfold attempt. destruct (m s) as [[r0 s0]|]; naive_solver. Qed.

End facts.

(** ** Engines that answer every command alike *)

Definition done_with (text : str) : CommandOutput := mkCommandOutput (mkExitStatus (Some 0%Z) "exit status: 0") text [].
(** Each command succeeds and prints the same. *)
Definition steady (text : str) : Engine := {|
  answer := fun _ _ => Ok (done_with text);
  diagnose := fun _ _ => Ok (Ok tt, Ok (mkExitStatus (Some 0%Z) "exit status: 0")) |}.
(** The version is asked with [--format], the help texts name every option. *)
Definition healthy_engine : Engine := {|
  answer := fun _ c => Ok (done_with (if memb ("--format" : str) (args c) then "28.1.0" : str
                              else join " " (flat_map required HELP_CAPABILITIES)));
  diagnose := diagnose (Engine := steady []) |}.
Definition no_json : SerdeJson := {| to_json := fun _ => []; from_json := fun _ => Err ("expected value" : str) |}.
Definition same_debug : str -> str := fun s => s.
Definition no_variables : EnvironmentVariables := fun _ => None.

Lemma ensure_volume_owned_witness :
  let K := steady "me" in let D : DebugStr := same_debug in let O : DebugOsString := same_debug in
  Forall (fun entry : str * str => shows_label (mkRuntime RuntimeKind_Docker "docker") [] "volume" "cache" entry.1 entry.2
            [label_query (mkRuntime RuntimeKind_Docker "docker") "volume" ".Labels" "cache" "owner";
             invoke (mkRuntime RuntimeKind_Docker "docker") (strs ["volume"; "inspect"; "cache"])])
    [("owner" : str, "me" : str)].
Proof.
  intros K D O.
  destruct (@ensure_volume_owned K D (mkRuntime RuntimeKind_Docker "docker") "cache" [("owner" : str, "me" : str)] []
              [label_query (mkRuntime RuntimeKind_Docker "docker") "volume" ".Labels" "cache" "owner";
               invoke (mkRuntime RuntimeKind_Docker "docker") (strs ["volume"; "inspect"; "cache"])]) as [(inspect & output & H & _)|H].
  - vm_compute. reflexivity.
  - discriminate H.
  - exact H.
Defined.

Lemma probe_removes_only_its_own_witness :
  let K := steady "0123456789abcdef0123456789abcdef" in let D : DebugStr := same_debug in let O : DebugOsString := same_debug in
  let runtime := mkRuntime RuntimeKind_Docker "docker" in
  exists r after,
    @deep_capability_probe K D O no_json no_variables runtime "image" "0123456789abcdef0123456789abcdef" [] = Some (r, after)
    /\ owned runtime "0123456789abcdef0123456789abcdef" [] after
    /\ omap removal after = [("network" : str, "codex-start-probe-net-0123456789ab" : str);
                             ("volume" : str, "codex-start-probe-vol-0123456789ab" : str);
                             ("container" : str, "codex-start-probe-run-0123456789ab" : str)].
Proof.
  intros K D O runtime.
  destruct (@deep_capability_probe K D O no_json no_variables runtime "image" "0123456789abcdef0123456789abcdef" []) as [[r after]|] eqn:E;
    [|vm_compute in E; discriminate E].
  exists r, after. split; [reflexivity|]. split.
  - exact (@probe_removes_only_its_own K D O no_json no_variables runtime "image" "0123456789abcdef0123456789abcdef" [] r after E).
  - vm_compute in E. injection E as _ <-. reflexivity.
Defined.

End EngineRuns.
