(* ===== verification/LaunchPlan.v ===== *)
(** * Launch plans ([codex-start-host/src/launch_plan.rs], [init_spec.rs])

    The description of a launch that joins the neutral container plan with the
    engine's request: its validation, the request it stands for, and the way back;
    and the specification that the init helper of the container is given. *)

From S2P Require Export HostServices Plan.
From S2P Require InitRun.

Module LaunchPlan.
Import ConfigTypes IpAddr Allowlist FileSystem HostPaths.
Import Environment InitSpec HostServices Plan.

(** ** Errors of the init helper as text *)

Definition InitError_to_string (error : InitError) : str :=
  match error with
  | UnsupportedVersion version => "unsupported init specification version " ++ dec version
  | UidGidPairRequired => "uid and gid must be supplied together"
  | AccountRequiresIdentity => "an account remap requires uid and gid"
  | InvalidAccountName => "invalid workload account name"
  | AccountNotFound account => "workload account `" ++ account ++ "` does not exist in the container account database"
  | DuplicateAccount account => "workload account `" ++ account ++ "` occurs more than once in the container account database"
  | DuplicateGroup account => "group `" ++ account ++ "` occurs more than once in the container group database"
  | UidConflict uid account => "target uid " ++ dec uid ++ " is already assigned to account `" ++ account ++ "`"
  | InvalidAccountDatabase path reason => "invalid account database " ++ display path ++ ": " ++ reason
  | AccountIo path source => "failed to update account database " ++ display path ++ ": " ++ io_text source
  | OwnershipRequiresIdentity => "ownership paths require uid and gid"
  | InvalidOwnershipPath message => "invalid ownership path: " ++ message
  | OwnershipLimit maximum => "ownership traversal exceeded " ++ dec maximum ++ " entries"
  | OwnershipDepth path maximum => "ownership traversal at " ++ display path ++ " exceeded depth " ++ dec maximum
  | OwnershipIo path source => "ownership preparation failed at " ++ display path ++ ": " ++ io_text source
  | InvalidCommand => "final and preparation commands require a non-empty UTF-8 program"
  | InvalidEnvironmentName name => "invalid environment variable name `" ++ name ++ "`"
  | InvalidService message => "invalid CONNECT service: " ++ message
  | InvalidSecretRoot path => "secret root must be an absolute path: " ++ display path
  | InitSpec.Read path source => "failed to read " ++ display path ++ ": " ++ io_text source
  | NotRegularFile path => display path ++ " is not a regular file"
  | FileTooLarge path length maximum => display path ++ " is " ++ dec length ++ " bytes; maximum is " ++ dec maximum
  | InitSpec.InsecurePermissions path mode =>
      display path ++ " has insecure mode " ++ InitRun.InitRun.octal 11 mode ++ "; group/world access is forbidden"
  | ParseSpec path source => "failed to parse init specification " ++ display path ++ ": " ++ source
  | ParseSecretMap path source => "failed to parse secret map " ++ display path ++ ": " ++ source
  | Canonicalize path source => "failed to canonicalize " ++ display path ++ ": " ++ io_text source
  | SecretOutsideRoot name path => "secret mapping `" ++ name ++ "` points outside the configured secret root: " ++ display path
  | SecretContainsNul name => "secret mapping `" ++ name ++ "` contains a NUL byte"
  | UnsafeSshPath path => "unsafe SSH source or destination path: " ++ display path
  | PrepareSsh path source => "failed to prepare SSH configuration at " ++ display path ++ ": " ++ io_text source
  | SpawnPrepare program source => "failed to start preparation command `" ++ program ++ "`: " ++ io_text source
  | PrepareFailed program status => "preparation command `" ++ program ++ "` exited with " ++ status
  | Exec program source => "failed to execute final command `" ++ program ++ "`: " ++ io_text source
  | ParsePrepareArgument source => "invalid JSON argv for preparation command: " ++ source
  | CurrentExecutable source => "failed to locate the init helper executable: " ++ io_text source
  | SpawnService endpoint source => "failed to start helper service " ++ endpoint ++ ": " ++ io_text source
  | ServiceStatus source => "failed to inspect loopback service: " ++ io_text source
  | ServiceExited endpoint status => "helper service " ++ endpoint ++ " exited prematurely with " ++ status
  | ServiceReadinessTimeout endpoint => "helper service " ++ endpoint ++ " did not become ready"
  end.

(** ** Data *)

#[export] Instance UnixArgument_eq_dec : EqDecision UnixArgument.
Proof. solve_decision. Defined.
Definition HOST_LAUNCH_PLAN_SCHEMA_VERSION : Z := 1.

Inductive PlannedSessionKind := Interactive | Job.
Record SessionMetadata := mkSessionMetadata {
  session_enabled : bool;
  session_kind : option PlannedSessionKind;
  reboot_replay : bool;
  refresh_ssh_on_attach : bool;
  session_warnings : list str }.
Definition SessionMetadata_default : SessionMetadata := mkSessionMetadata false None false false [].

Record RuntimePlan := mkRuntimePlan {
  runtime_entrypoint : option UnixArgument;
  runtime_command : list UnixArgument;
  runtime_workdir : option str;
  runtime_env : bmap UnixArgument;
  runtime_network : option str;
  runtime_network_alias : option str;
  runtime_user_namespace : option str;
  runtime_add_hosts : bmap str;
  runtime_detach : bool;
  runtime_extra_args : list UnixArgument }.

(** [secret_environment] is a [BTreeSet]: its names in ascending order. *)
Record InitPlan := mkInitPlan {
  init_enabled : bool;
  init_prepare : list CommandSpec;
  init_plan_services : list InitServiceSpec;
  secret_environment : list str }.
Definition InitPlan_default : InitPlan := mkInitPlan false [] [] [].

Inductive ForwardingTransport := Disabled | BindMount | AuthenticatedRelay.
Inductive PlannedMountKind := PlannedBind | PlannedVolume | PlannedTmpfs.
Record ForwardingMount := mkForwardingMount {
  forwarding_kind : PlannedMountKind;
  forwarding_target : str;
  forwarding_read_only : bool }.
Record ForwardingMetadata := mkForwardingMetadata {
  meta_ssh_agent : ForwardingTransport;
  meta_gpg_agent : ForwardingTransport;
  meta_git_config : bool;
  meta_known_hosts : bool;
  meta_gh_config : bool;
  environment_names : list str;
  meta_mounts : list ForwardingMount;
  meta_warnings : list str }.
Definition ForwardingMetadata_default : ForwardingMetadata := mkForwardingMetadata Disabled Disabled false false false [] [] [].
Record HostServiceMetadata := mkHostServiceMetadata {
  declarations : list HostServiceSpec;
  service_allow_hosts : list str;
  service_private_hosts : list str;
  service_ownership_paths : list str;
  service_warnings : list str }.
Definition HostServiceMetadata_default : HostServiceMetadata := mkHostServiceMetadata [] [] [] [] [].

Record HostLaunchPlan := mkHostLaunchPlan {
  launch_schema_version : Z;
  container : ContainerPlan;
  launch_runtime : RuntimePlan;
  init : InitPlan;
  launch_forwarding : ForwardingMetadata;
  launch_services : HostServiceMetadata;
  session : SessionMetadata }.
Record RunRequestContext := mkRunRequestContext {
  context_project_id : str;
  context_environment : str;
  context_runtime : RuntimeKind;
  context_network : NetworkPlan;
  fallback_workdir : str }.

Inductive LaunchPlanError :=
  | UnsupportedLaunchSchema (found : Z)
  | ContainerError (error : ContainerPlanError)
  | InvalidLaunch (message : str)
  | SecretValueInPlan (name : str)
  | SerializeLaunch (message : str).

(** ** Summaries of what was prepared *)

Definition HostServiceMetadata_from_prepared (declarations : list HostServiceSpec) (plan : HostServicePlan) : HostServiceMetadata :=
  mkHostServiceMetadata declarations (HostServices.allow_hosts plan) (HostServices.allow_private plan)
    (HostServices.ownership_paths plan) (HostServices.warnings plan).
Definition planned_mount_kind (kind : Engines.MountKind) : PlannedMountKind :=
  match kind with Engines.Bind => PlannedBind | Engines.Volume => PlannedVolume | Engines.Tmpfs => PlannedTmpfs end.
Definition ForwardingMetadata_from_prepared (plan : ForwardingPlan) : ForwardingMetadata :=
  let environment_names := bkeys (forwarding_env plan) in
  let has (name : str) := memb name environment_names in
  let transport (relay : option str) (name : str) :=
    if bool_decide (is_Some relay) then AuthenticatedRelay else if has name then BindMount else Disabled in
  mkForwardingMetadata (transport (ssh_agent_relay plan) "SSH_AUTH_SOCK") (transport (gpg_agent_relay plan) "GNUPGHOME")
    (has "GIT_CONFIG_GLOBAL") (has "CODEX_START_KNOWN_HOSTS") (has "GH_CONFIG_DIR") environment_names
    (map (fun mount => mkForwardingMount (planned_mount_kind (Engines.mount_kind mount)) (Engines.mount_target mount)
                         (Engines.mount_read_only mount)) (forwarding_mounts plan))
    (forwarding_warnings plan).

(** ** Small checks *)

(** [UnixArgument::to_str]. *)
Definition to_str (value : str) : option str := if utf8_valid value then Some value else None.
Definition valid_environment_name (value : str) : bool :=
  match value with
  | [] => false
  | first :: rest =>
      (is_byte "_" first || is_alphabetic first) && forallb (fun byte => is_byte "_" byte || is_alphabetic byte || is_digit byte) rest
  end.
Definition valid_runtime_name (value : str) : bool :=
  nonempty value && (length value <=? 128)%nat
  && forallb (fun byte => is_lower byte || is_digit byte || is_byte "-" byte || is_byte "_" byte || is_byte "." byte) value
  && negb (starts_with "-" value || starts_with "." value)
  && negb (ends_with "-" value || ends_with "." value).
Definition has_nul (value : str) : bool := contains_byte NUL value.
Definition argument_contains_nul (value : UnixArgument) : bool := has_nul (as_bytes value).
Definition long_option (argument option_name : str) : bool :=
  (argument =s? option_name) || is_some_and (strip_prefix option_name argument) (starts_with "=").
Definition short_option (argument option_name : str) : bool :=
  (argument =s? option_name)
  || is_some_and (strip_prefix option_name argument) (fun suffix => nonempty suffix && negb (starts_with "-" suffix)).
Definition flattened_invocation (container : ContainerPlan) : option UnixArgument * list UnixArgument :=
  match Plan.entrypoint container with
  | None => (None, Plan.command container)
  | Some entrypoint => (head entrypoint, tail entrypoint ++ Plan.command container)
  end.
Definition workload_argv (container : ContainerPlan) : list str :=
  map as_bytes (default [] (Plan.entrypoint container) ++ Plan.command container).
Definition arguments_from_os (values : list str) : list UnixArgument := map mkUnixArgument values.
Definition arguments_to_os (values : list UnixArgument) : list str := map as_bytes values.

(** ** Conversions *)

Definition mount_to_core (index : nat) (mount : Engines.MountRequest) : result LaunchPlanError MountPlan :=
  let at_index (message : str) := InvalidLaunch message in
  source ← match Engines.mount_kind mount with
           | Engines.Bind =>
               path ← ok_or (Engines.mount_source mount) (at_index ("bind mount " ++ dec (Z.of_nat index) ++ " has no source"));
               Ok (Plan.Bind path)
           | Engines.Volume =>
               source ← ok_or (Engines.mount_source mount) (at_index ("volume mount " ++ dec (Z.of_nat index) ++ " has no source"));
               name ← ok_or (to_str source) (at_index ("volume mount " ++ dec (Z.of_nat index) ++ " name is not UTF-8"));
               Ok (Plan.Volume name)
           | Engines.Tmpfs =>
               err_if (bool_decide (is_Some (Engines.mount_source mount)))
                 (at_index ("tmpfs mount " ++ dec (Z.of_nat index) ++ " cannot have a source")) ;;
               Ok Plan.Tmpfs
           end;
  Ok (mkMountPlan ("runtime-mount-" ++ dec (Z.of_nat index)) source (Engines.mount_target mount) (Engines.mount_read_only mount)).
Definition mount_to_runtime (mount : MountPlan) : Engines.MountRequest :=
  let '(kind, source) :=
    match Plan.source mount with
    | Plan.Bind path => (Engines.Bind, Some path)
    | Plan.Volume name => (Engines.Volume, Some name)
    | Plan.Tmpfs => (Engines.Tmpfs, None)
    end in
  Engines.mkMountRequest kind source (Plan.target mount) (Plan.mount_read_only mount).
Definition protocol_name (protocol : PortProtocol) : str := match protocol with PortProtocol_Tcp => "tcp" | PortProtocol_Udp => "udp" end.

Section plan.
Context {D : DebugStr} {I : Idna}.

Definition port_to_core (index : nat) (port : Engines.PublishRequest) : result LaunchPlanError PublishedPort :=
  protocol ← (if Engines.protocol port =s? "tcp" then Ok PortProtocol_Tcp
              else if Engines.protocol port =s? "udp" then Ok PortProtocol_Udp
              else Err (InvalidLaunch ("unsupported port protocol " ++ debug_str (Engines.protocol port))));
  Ok (mkPublishedPort ("runtime-port-" ++ dec (Z.of_nat index)) (ip_to_string (Engines.host_ip port)) (Engines.host_port port)
        (Engines.container_port port) protocol).
Definition port_to_runtime (port : PublishedPort) : result LaunchPlanError Engines.PublishRequest :=
  ip ← ok_or (parse_ip (Plan.host_ip port)) (InvalidLaunch ("invalid host IP " ++ debug_str (Plan.host_ip port)));
  Ok (Engines.mkPublishRequest ip (Plan.host_port port) (Plan.container_port port) (protocol_name (Plan.protocol port))).
(** [iter().enumerate().map(f).collect()]. *)
Fixpoint enumerate_results {A B} (f : nat -> A -> result LaunchPlanError B) (index : nat) (l : list A) : result LaunchPlanError (list B) :=
  match l with
  | [] => Ok []
  | x :: l => y ← f index x; ys ← enumerate_results f (S index) l; Ok (y :: ys)
  end.
Definition generated_runtime_args (container : ContainerPlan) : list str :=
  match hostname container with Some hostname => [("--hostname" : str); hostname] | None => [] end
  ++ flat_map (fun capability => [("--cap-drop" : str); capability])
       (List.filter (fun capability => negb (capability =s? "ALL")) (cap_drop container))
  ++ flat_map (fun security => [("--security-opt" : str); security])
       (List.filter (fun security => negb (security =s? "no-new-privileges")) (security_opt container)).

(** ** Validation *)

Definition conflicting_ulimit (resources : Limits.ResourceValues) (next : option UnixArgument) (argument : str) : option str :=
  value ← match strip_prefix "--ulimit=" argument with
          | Some value => Some value
          | None => if argument =s? "--ulimit" then next ≫= (fun next => to_str (as_bytes next)) else None
          end;
  let name := match split_once "=" value with Some (name, _) => name | None => value end in
  if bcontains name (Limits.ulimits resources) then Some name else None.
Definition given {A} (limit : option A) : bool := bool_decide (is_Some limit).
Definition conflict (resources : Limits.ResourceValues) (next : option UnixArgument) (argument : str) : option str :=
  if given (Limits.cpus resources) && existsb (long_option argument) (strs ["--cpus"; "--cpu-period"; "--cpu-quota"]) then Some ("cpus" : str)
  else if given (Limits.cpu_shares resources) && (long_option argument "--cpu-shares" || short_option argument "-c") then Some ("cpu_shares" : str)
  else if given (Limits.cpuset_cpus resources) && long_option argument "--cpuset-cpus" then Some ("cpuset_cpus" : str)
  else if given (Limits.memory resources) && (long_option argument "--memory" || short_option argument "-m") then Some ("memory" : str)
  else if given (Limits.memory_reservation resources) && long_option argument "--memory-reservation" then Some ("memory_reservation" : str)
  else if given (Limits.memory_swap resources) && long_option argument "--memory-swap" then Some ("memory_swap" : str)
  else if given (Limits.pids_limit resources) && long_option argument "--pids-limit" then Some ("pids_limit" : str)
  else if given (Limits.shm_size resources) && long_option argument "--shm-size" then Some ("shm_size" : str)
  else conflicting_ulimit resources next argument.
Fixpoint check_resource_args (resources : Limits.ResourceValues) (arguments : list UnixArgument) : result LaunchPlanError unit :=
  match arguments with
  | [] => Ok tt
  | argument :: arguments =>
      match to_str (as_bytes argument) with
      | None => Ok tt
      | Some argument =>
          match conflict resources (arguments !! 0%nat) argument with
          | Some key => Err (InvalidLaunch ("runtime argument `" ++ argument ++ "` conflicts with settings.resources." ++ key))
          | None => Ok tt
          end
      end ;;
      check_resource_args resources arguments
  end.
Definition validate_resource_arg_conflicts (resources : Limits.ResourceValues) (arguments : list UnixArgument) : result LaunchPlanError unit :=
  if Limits.ResourceLimits_is_empty resources then Ok tt else check_resource_args resources arguments.

Definition secret_names (plan : HostLaunchPlan) : list str :=
  sorted_texts (omap environment_name (secrets (container plan)) ++ secret_environment (init plan)).
Definition validate_runtime_environment (plan : HostLaunchPlan) : result LaunchPlanError unit :=
  let runtime_env := runtime_env (launch_runtime plan) in
  for_each (fun entry : str * UnixArgument =>
    err_if (negb (valid_environment_name entry.1) || argument_contains_nul entry.2)
      (InvalidLaunch ("invalid runtime environment entry " ++ debug_str entry.1))) runtime_env ;;
  for_each (fun entry : str * str =>
    runtime_value ← ok_or (bget entry.1 runtime_env)
      (InvalidLaunch ("runtime environment is missing logical variable " ++ debug_str entry.1));
    err_if (negb (bool_decide (to_str (as_bytes runtime_value) = Some entry.2)))
      (InvalidLaunch ("logical and runtime values disagree for environment variable " ++ debug_str entry.1)))
    (Plan.env (container plan)) ;;
  let secret_names := secret_names plan in
  match List.find (fun name => bcontains name runtime_env || bcontains name (Plan.env (container plan))) secret_names with
  | Some name => Err (SecretValueInPlan name)
  | None => Ok tt
  end ;;
  for_each (fun command : CommandSpec =>
    match List.find (fun name => memb name secret_names) (bkeys (InitSpec.env command)) with
    | Some name => Err (SecretValueInPlan name)
    | None => Ok tt
    end) (init_prepare (init plan)).
Definition validate_runtime_network (plan : HostLaunchPlan) : result LaunchPlanError unit :=
  let network := runtime_network (launch_runtime plan) in
  let valid :=
    match Plan.mode (Plan.network (container plan)) with
    | NetworkMode_Bridge => match network with None => true | Some network => network =s? "bridge" end
    | NetworkMode_Host => bool_decide (network = Some ("host" : str))
    | NetworkMode_Offline | NetworkMode_Allowlist => bool_decide (network = Plan.network_name (Plan.network (container plan)))
    end in
  err_if (negb valid) (InvalidLaunch "logical and runtime networks disagree").
Definition validate_clean_map (values : bmap str) (label : str) : result LaunchPlanError unit :=
  match List.find (fun entry : str * str => negb (nonempty entry.1) || has_nul entry.1 || negb (nonempty entry.2) || has_nul entry.2) values with
  | Some (name, value) => Err (InvalidLaunch ("invalid " ++ label ++ " mapping " ++ debug_str name ++ "=" ++ debug_str value))
  | None => Ok tt
  end.
Definition mount_has_nul (mount : MountPlan) : bool :=
  has_nul (Plan.target mount)
  || match Plan.source mount with Plan.Bind path => has_nul path | Plan.Volume name => has_nul name | Plan.Tmpfs => false end.
Definition empty_or_nul (value : str) : bool := negb (nonempty value) || has_nul value.
Definition validate_workdir (plan : HostLaunchPlan) : result LaunchPlanError unit :=
  match runtime_workdir (launch_runtime plan) with
  | None => Ok tt
  | Some workdir =>
      err_if (negb (is_ok (ContainerPath.new workdir)) || has_nul workdir)
        (InvalidLaunch ("runtime workdir must be an absolute NUL-free path: " ++ display workdir)) ;;
      err_if (negb (same_path workdir (Plan.workdir (container plan)))) (InvalidLaunch "logical and runtime workdirs disagree")
  end.
Definition validate_runtime (plan : HostLaunchPlan) : result LaunchPlanError unit :=
  let runtime := launch_runtime plan in
  let container := container plan in
  err_if (is_some_and (runtime_entrypoint runtime) argument_contains_nul || existsb argument_contains_nul (runtime_command runtime)
          || existsb argument_contains_nul (runtime_extra_args runtime)) (InvalidLaunch "runtime argv contains a NUL byte") ;;
  validate_workdir plan ;;
  validate_runtime_environment plan ;;
  validate_runtime_network plan ;;
  validate_resource_arg_conflicts (Plan.resources container) (runtime_extra_args runtime) ;;
  validate_clean_map (runtime_add_hosts runtime) "add-host" ;;
  err_if (is_some_and (runtime_network_alias runtime) empty_or_nul) (InvalidLaunch "network alias must be non-empty and NUL-free") ;;
  err_if (is_some_and (runtime_user_namespace runtime) empty_or_nul) (InvalidLaunch "user namespace must be non-empty and NUL-free") ;;
  for_each (fun mount => err_if (mount_has_nul mount) (InvalidLaunch ("mount " ++ mount_id mount ++ " contains a NUL byte")))
    (Plan.mounts container) ;;
  err_if (has_nul (Plan.image container) || is_some_and (Plan.user container) has_nul || is_some_and (hostname container) has_nul
          || existsb has_nul (cap_drop container ++ cap_add container ++ security_opt container))
    (InvalidLaunch "runtime text option contains a NUL byte") ;;
  if negb (init_enabled (init plan)) then
    let '(expected_entrypoint, expected_command) := flattened_invocation container in
    err_if (negb (bool_decide (runtime_entrypoint runtime = expected_entrypoint))
            || negb (bool_decide (runtime_command runtime = expected_command)))
      (InvalidLaunch "runtime invocation differs from the workload without init enabled")
  else
    err_if (bool_decide (runtime_entrypoint runtime = None) && negb (nonempty (runtime_command runtime)))
      (InvalidLaunch "enabled init requires a runtime wrapper invocation").

Definition workload_spec (plan : HostLaunchPlan) (command : ExecSpec) : InitSpec :=
  mkInitSpec 1 None None None (Some (Plan.workdir (container plan))) false []
    (if nonempty (secret_environment (init plan)) then Some ("/run/secrets/map.json" : str) else None) "/run/secrets" false
    [] None (init_prepare (init plan)) (init_plan_services (init plan)) command.
Definition validate_init (plan : HostLaunchPlan) : result LaunchPlanError unit :=
  if negb (init_enabled (init plan)) then
    err_if (nonempty (init_prepare (init plan)) || nonempty (init_plan_services (init plan)) || nonempty (secret_environment (init plan)))
      (InvalidLaunch "init metadata requires init.enabled = true")
  else
    command ← map_err (fun error => InvalidLaunch ("invalid init workload command: " ++ InitError_to_string error))
                (from_argv (workload_argv (container plan)));
    map_err (fun error => InvalidLaunch ("invalid init metadata: " ++ InitError_to_string error)) (InitSpec.validate_spec (workload_spec plan command)).

Fixpoint validate_declarations (ids : list str) (services : list HostServiceSpec) : result LaunchPlanError unit :=
  match services with
  | [] => Ok tt
  | service :: services =>
      err_if (service_remove service || negb (valid_runtime_name (service_id service)) || memb (service_id service) ids
              || empty_or_nul (service_host service) || (service_port service =? 0)%Z
              || bool_decide (service_container_port service = Some 0%Z)
              || is_some_and (service_container_host service) empty_or_nul)
        (InvalidLaunch ("invalid host service " ++ debug_str (service_id service))) ;;
      validate_declarations (service_id service :: ids) services
  end.
Definition validate_authorities (label : str) (authorities : list str) : result LaunchPlanError unit :=
  match List.find empty_or_nul authorities with
  | Some authority => Err (InvalidLaunch ("invalid " ++ label ++ " authority " ++ debug_str authority))
  | None => Ok tt
  end.
Definition validate_host_services (metadata : HostServiceMetadata) : result LaunchPlanError unit :=
  validate_declarations [] (declarations metadata) ;;
  validate_authorities "host-service allow" (service_allow_hosts metadata) ;;
  validate_authorities "private host-service allow" (service_private_hosts metadata) ;;
  match List.find (fun path => negb (is_ok (ContainerPath.new path)) || has_nul path) (service_ownership_paths metadata) with
  | Some path => Err (InvalidLaunch ("invalid host-service ownership path " ++ display path))
  | None => Ok tt
  end.
Definition validate_launch (plan : HostLaunchPlan) : result LaunchPlanError unit :=
  err_if (negb (launch_schema_version plan =? HOST_LAUNCH_PLAN_SCHEMA_VERSION)%Z) (UnsupportedLaunchSchema (launch_schema_version plan)) ;;
  map_err ContainerError (Plan.validate (container plan)) ;;
  validate_runtime plan ;;
  validate_host_services (launch_services plan) ;;
  validate_init plan.

(** ** Between requests and plans *)

Definition from_parts (container : ContainerPlan) (runtime : RuntimePlan) (init : InitPlan) (forwarding : ForwardingMetadata)
    (host_services : HostServiceMetadata) : result LaunchPlanError HostLaunchPlan :=
  let plan := mkHostLaunchPlan HOST_LAUNCH_PLAN_SCHEMA_VERSION container runtime init forwarding host_services SessionMetadata_default in
  validate_launch plan ;;
  Ok plan.
(** [run_id] is the fresh identifier of [ContainerPlan::new]. *)
Definition container_of_request (run_id : str) (request : Engines.RunRequest) (context : RunRequestContext)
    (mounts : list MountPlan) (ports : list PublishedPort) : ContainerPlan :=
  let runtime_entrypoint := mkUnixArgument <$> Engines.entrypoint request in
  let plan := Plan.new run_id (context_project_id context) (context_environment context) (Engines.name request) (Engines.image request)
                (arguments_from_os (Engines.command request)) (default (fallback_workdir context) (Engines.workdir request))
                (context_network context) in
  mkContainerPlan (Plan.schema_version plan) (Plan.run_id plan) (context_runtime context) (Plan.project_id plan) (Plan.environment plan)
    (Plan.name plan) (Plan.image plan) ((fun value => [value]) <$> runtime_entrypoint) (Plan.command plan) (Plan.workdir plan)
    (List.filter (fun entry : str * str => utf8_valid entry.2) (Engines.env request)) (Engines.labels request) mounts ports
    (Engines.resources request) (Plan.network plan) (Engines.tty request) (Engines.interactive request) (Engines.remove request)
    (Engines.read_only request) (if Engines.drop_all_capabilities request then strs ["ALL"] else []) (Engines.add_capabilities request)
    (if Engines.no_new_privileges request then strs ["no-new-privileges"] else []) (Engines.user request) (Plan.hostname plan)
    (Plan.secrets plan) (Plan.sidecars plan).
Definition runtime_of_request (request : Engines.RunRequest) : RuntimePlan :=
  mkRuntimePlan (mkUnixArgument <$> Engines.entrypoint request) (arguments_from_os (Engines.command request)) (Engines.workdir request)
    (map (fun entry : str * str => (entry.1, mkUnixArgument entry.2)) (Engines.env request)) (Engines.network request)
    (Engines.network_alias request) (Engines.user_namespace request) (Engines.add_hosts request) (Engines.detach request)
    (arguments_from_os (Engines.extra_args request)).
Definition from_run_request (run_id : str) (request : Engines.RunRequest) (context : RunRequestContext) : result LaunchPlanError HostLaunchPlan :=
  mounts ← enumerate_results mount_to_core 0 (Engines.mounts request);
  ports ← enumerate_results port_to_core 0 (Engines.publish request);
  from_parts (container_of_request run_id request context mounts ports) (runtime_of_request request) InitPlan_default
    ForwardingMetadata_default HostServiceMetadata_default.
Definition to_run_request (self : HostLaunchPlan) : result LaunchPlanError Engines.RunRequest :=
  validate_launch self ;;
  let container := container self in
  let runtime := launch_runtime self in
  let '(entrypoint, extra) :=
    match runtime_entrypoint runtime with
    | Some value => match to_str (as_bytes value) with
                    | Some value => (Some value, [])
                    | None => (None, [("--entrypoint" : str); as_bytes value])
                    end
    | None => (None, [])
    end in
  publish ← collect_results port_to_runtime (Plan.ports container);
  Ok (Engines.mkRunRequest (Plan.name container) (Plan.image container) entrypoint (arguments_to_os (runtime_command runtime))
        (runtime_workdir runtime) (map (fun entry : str * UnixArgument => (entry.1, as_bytes entry.2)) (runtime_env runtime))
        (Plan.labels container) (map mount_to_runtime (Plan.mounts container)) publish (Plan.resources container)
        (runtime_network runtime) (runtime_network_alias runtime) (runtime_user_namespace runtime) (runtime_add_hosts runtime)
        (Plan.tty container) (Plan.stdin container) (runtime_detach runtime) (Plan.remove container) (Plan.read_only container)
        (existsb (fun cap => cap =s? "ALL") (cap_drop container)) (cap_add container)
        (existsb (fun option_text => option_text =s? "no-new-privileges") (security_opt container)) (Plan.user container)
        (generated_runtime_args container ++ extra ++ arguments_to_os (runtime_extra_args runtime))).
End plan.
End LaunchPlan.
