(* ===== verification/LaunchFacts.v ===== *)
(** * What a launch plan promises ([codex-start-host/src/launch_plan.rs])

    A plan stands for exactly one engine request; no secret is in it; and the
    limits it states are the limits the engine is given. *)

From S2P Require Export LaunchPlan EngineFacts IpText.

Module LaunchFacts.
Import ConfigTypes IpAddr Allowlist Environment HostServices Plan LaunchPlan EngineFacts.

Section facts.
Context {D : DebugStr} {I : Idna}.

(** ** Requests and plans *)

Lemma enumerate_results_Ok {A B} (f : nat -> A -> result LaunchPlanError B) (g : B -> A) index l ys :
  (forall i x y, x ∈ l -> f i x = Ok y -> g y = x) -> enumerate_results f index l = Ok ys -> map g ys = l.
Proof.
  revert index ys. induction l as [|x l IH]; intros index ys Hg; cbn [enumerate_results]; [by intros [= <-]|].
  intros (y & Hy & H)%bind_Ok. apply bind_Ok in H as (ys' & Hys & [= <-]). cbn [map]. f_equal.
  - eapply Hg; [apply list_elem_of_here|exact Hy].
  - eapply IH; [|exact Hys]. intros i z w Hz. apply Hg. by apply list_elem_of_further.
Qed.
Lemma mount_to_core_back index mount core : mount_to_core index mount = Ok core -> mount_to_runtime core = mount.
Proof.
  unfold mount_to_core, mount_to_runtime. intros (source & Hs & [= <-])%bind_Ok. cbn [Plan.source Plan.target Plan.mount_read_only].
  destruct mount as [[] [text|] target read_only]; cbn in *; try done.
  - by injection Hs as <-.
  - unfold to_str in Hs. destruct (utf8_valid text); [|done]. by injection Hs as <-.
  - by injection Hs as <-.
Qed.
Lemma port_to_core_back index port core :
  well_formed (Engines.host_ip port) -> port_to_core index port = Ok core -> port_to_runtime core = Ok port.
Proof.
  unfold port_to_core, port_to_runtime. intros Hw (protocol & Hp & [= <-])%bind_Ok. cbn [Plan.host_ip Plan.host_port Plan.container_port Plan.protocol].
  rewrite IpText.ip_text_reads_back by done. cbn [ok_or mbind result_bind]. destruct port as [ip host_port container_port text]. cbn in *.
  destruct (text =s? "tcp") eqn:Et; [apply str_eqb_eq in Et; injection Hp as <-; by rewrite Et|].
  destruct (text =s? "udp") eqn:Eu; [apply str_eqb_eq in Eu; injection Hp as <-; by rewrite Eu|done].
Qed.
Lemma ports_back index ports cores :
  Forall (fun port => well_formed (Engines.host_ip port)) ports -> enumerate_results port_to_core index ports = Ok cores ->
  collect_results port_to_runtime cores = Ok ports.
Proof.
  intros Hw. revert index cores. induction Hw as [|port ports Hp Hw IH]; intros index cores; cbn [enumerate_results]; [by intros [= <-]|].
  intros (y & Hy & H)%bind_Ok. apply bind_Ok in H as (ys & Hys & [= <-]). cbn [collect_results].
  rewrite (port_to_core_back _ _ _ Hp Hy). cbn [mbind result_bind]. by rewrite (IH _ _ Hys).
Qed.
Lemma as_bytes_map values : arguments_to_os (arguments_from_os values) = values.
Proof. unfold arguments_to_os, arguments_from_os. by rewrite map_map, map_id. Qed.

(** C38: A plan made from an engine request stands for exactly that request: the
    conversion to the neutral plan and back gives every field of the request, in
    order and byte for byte, whatever arguments, environment, mounts and ports it
    carries; nothing is generated on the way. *)
Theorem request_survives_planning (run_id : str) (request : Engines.RunRequest) (context : RunRequestContext) (plan : HostLaunchPlan) :
  Forall (fun port => well_formed (Engines.host_ip port)) (Engines.publish request) ->
  (forall entrypoint, Engines.entrypoint request = Some entrypoint -> utf8_valid entrypoint = true) ->
  from_run_request run_id request context = Ok plan -> to_run_request plan = Ok request.
Proof.
  unfold from_run_request, from_parts. intros Hip Hutf (mounts & Hm & H)%bind_Ok. apply bind_Ok in H as (ports & Hp & H).
  apply bind_Ok in H as ([] & Hv & [= <-]). unfold to_run_request. rewrite Hv. cbn [mbind result_bind container launch_runtime].
  unfold container_of_request, runtime_of_request. cbn [runtime_entrypoint runtime_command runtime_workdir runtime_env runtime_network
    runtime_network_alias runtime_user_namespace runtime_add_hosts runtime_detach runtime_extra_args Plan.ports Plan.name Plan.image Plan.labels
    Plan.mounts Plan.resources Plan.tty Plan.stdin Plan.remove Plan.read_only Plan.cap_drop Plan.cap_add Plan.security_opt Plan.user].
  rewrite (ports_back _ _ _ Hip Hp), (enumerate_results_Ok _ mount_to_runtime _ _ _ (fun i x y _ => mount_to_core_back i x y) Hm), !as_bytes_map.
  assert (He : map (fun entry : str * UnixArgument => (entry.1, as_bytes entry.2))
                 (map (fun entry : str * str => (entry.1, mkUnixArgument entry.2)) (Engines.env request)) = Engines.env request).
  { rewrite map_map. etrans; [|apply map_id]. apply map_ext. by intros []. }
  unfold generated_runtime_args. cbn [Plan.hostname Plan.cap_drop Plan.security_opt Plan.new].
  rewrite He. clear Hv Hm Hp He.
  destruct request as [? ? entrypoint_text ? ? ? ? ? ? ? ? ? ? ? ? ? ? ? ? capabilities ? privileges ? ?].
  cbn in *. destruct entrypoint_text as [text|]; cbn; [unfold to_str; rewrite (Hutf _ eq_refl); cbn|]; by destruct capabilities, privileges.
Qed.

(** ** Secrets *)

Lemma valid_parts plan :
  validate_launch plan = Ok tt ->
  validate_runtime_environment plan = Ok tt
  /\ validate_resource_arg_conflicts (Plan.resources (container plan)) (runtime_extra_args (launch_runtime plan)) = Ok tt
  /\ validate_init plan = Ok tt.
Proof.
  unfold validate_launch. intros (_ & H)%err_if_bind_Ok. apply bind_unit_Ok in H as [_ H]. apply bind_unit_Ok in H as [Hr H].
  apply bind_unit_Ok in H as [_ Hi]. unfold validate_runtime in Hr. cbv zeta in Hr. apply err_if_bind_Ok in Hr as [_ Hr].
  apply bind_unit_Ok in Hr as [_ Hr]. apply bind_unit_Ok in Hr as [He Hr]. apply bind_unit_Ok in Hr as [_ Hr].
  by apply bind_unit_Ok in Hr as [Hc _].
Qed.
(** A variable that a plan fills from a secret. *)
Definition is_secret_name (plan : HostLaunchPlan) (name : str) : Prop :=
  (exists secret, secret ∈ Plan.secrets (container plan) /\ environment_name secret = Some name) \/ name ∈ secret_environment (init plan).
Lemma is_secret_name_spec plan name : name ∈ secret_names plan <-> is_secret_name plan name.
Proof.
  unfold secret_names, is_secret_name. rewrite elem_of_sorted_texts, elem_of_app, list_elem_of_omap. naive_solver.
Qed.
Lemma bget_absent {V} (m : bmap V) name : bcontains name m = false -> bget name m = None.
Proof. intros H. apply bget_None. intros Hin%bcontains_true. congruence. Qed.

(** C39: The value of a secret has no place in a plan: whenever a plan turns into an
    engine request, no variable that is filled from a secret - a mounted one or one
    of the init helper's map - is set in the request's environment, in the logical
    environment, or for a preparation command, so a dry run cannot show it. *)
Theorem secrets_stay_out_of_plans (plan : HostLaunchPlan) (request : Engines.RunRequest) (name : str) :
  to_run_request plan = Ok request -> is_secret_name plan name ->
  bget name (Engines.env request) = None /\ bget name (Plan.env (container plan)) = None
  /\ Forall (fun command => bget name (InitSpec.env command) = None) (init_prepare (init plan)).
Proof.
  intros H Hs%is_secret_name_spec. unfold to_run_request in H. apply bind_Ok in H as ([] & Hv & H).
  assert (He : bcontains name (runtime_env (launch_runtime plan)) = false /\ bcontains name (Plan.env (container plan)) = false
               /\ Forall (fun command => bcontains name (InitSpec.env command) = false) (init_prepare (init plan))).
  { apply valid_parts in Hv as (Hr & _). unfold validate_runtime_environment in Hr. cbv zeta in Hr. apply bind_unit_Ok in Hr as [_ Hr]. apply bind_unit_Ok in Hr as [_ Hr].
    apply bind_unit_Ok in Hr as [Hf Hr]. destruct (List.find _ (secret_names plan)) as [|] eqn:Ef; [done|].
    apply find_none_Forall in Ef. rewrite Forall_forall in Ef. specialize (Ef name Hs). apply orb_false_iff in Ef as [-> ->].
    split; [done|]. split; [done|]. apply for_each_Ok in Hr. eapply Forall_impl; [exact Hr|]. cbv beta. intros command Hc.
    destruct (List.find _ _) eqn:Ec; [done|]. apply find_none_Forall in Ec. rewrite Forall_forall in Ec.
    destruct (bcontains name (InitSpec.env command)) eqn:Eb; [|done]. apply bcontains_true in Eb. specialize (Ec name Eb).
    by apply memb_false in Ec. }
  destruct He as (H1 & H2 & H3). split; [|split; [by apply bget_absent|]].
  - destruct (match runtime_entrypoint (launch_runtime plan) with Some _ => _ | None => _ end) as [entrypoint extra].
    apply bind_Ok in H as (publish & _ & [= <-]). cbn [Engines.env]. apply bget_absent in H1. apply bget_None in H1. apply bget_None.
    intros Hin. apply H1. unfold bkeys in *. by rewrite map_map in Hin.
  - eapply Forall_impl; [exact H3|]. intros command. apply bget_absent.
Qed.

(** ** Limits *)

(** The limits of the engine that may be given once. *)
Definition single_limits (r : Limits.ResourceValues) : list (str * list str) :=
  [("--cpus" : str, option_list (Limits.cpu_value <$> Limits.cpus r));
   ("--cpu-shares" : str, option_list (dec <$> Limits.cpu_shares r));
   ("--cpuset-cpus" : str, option_list (Limits.cpuset_cpus r));
   ("--memory" : str, option_list (Limits.ms_value <$> Limits.memory r));
   ("--memory-reservation" : str, option_list (Limits.ms_value <$> Limits.memory_reservation r));
   ("--memory-swap" : str, option_list (Limits.MemorySwapLimit_as_engine_value <$> Limits.memory_swap r));
   ("--pids-limit" : str, option_list (dec <$> Limits.pids_limit r));
   ("--shm-size" : str, option_list (Limits.ms_value <$> Limits.shm_size r))].


Lemma read_words_back n words items rest :
  length words <= n -> read_words words = Some (items, rest) -> words = words_of items ++ rest.
Proof.
  revert words items. induction n as [|n IH]; intros [|word words] items Hn; cbn [length] in Hn; try lia; cbn [read_words];
    try (by intros [= <- <-]).
  destruct (memb word FLAGS).
  { intros ([items' rest'] & H & [= <- <-])%bind_Some. apply IH in H as ->; [done|lia]. }
  destruct (memb word VALUED).
  { destruct words as [|value words]; [done|]. intros ([items' rest'] & H & [= <- <-])%bind_Some. cbn [length] in Hn.
    apply IH in H as ->; [done|lia]. }
  destruct (starts_with "-" word); [done|]. by intros [= <- <-].
Qed.
(** The options a plan generates itself. *)
Definition generated_items (container : ContainerPlan) : list (str * option str) :=
  items_at "--hostname" (option_list (Plan.hostname container))
  ++ items_at "--cap-drop" (List.filter (fun capability => negb (capability =s? "ALL")) (Plan.cap_drop container))
  ++ items_at "--security-opt" (List.filter (fun security => negb (security =s? "no-new-privileges")) (Plan.security_opt container)).
Lemma pair_words word values : flat_map (fun value => [word; value]) values = words_of (items_at word values).
Proof. induction values as [|v values IH]; [done|]. cbn. by rewrite IH. Qed.
Lemma generated_words container : generated_runtime_args container = words_of (generated_items container).
Proof.
  unfold generated_runtime_args, generated_items. rewrite !words_of_app, !pair_words. by destruct (Plan.hostname container).
Qed.
Lemma values_of_other word items : Forall (fun item : str * option str => item.1 <> word) items -> values_of word items = [].
Proof.
  unfold values_of. induction 1 as [|[key value] items H _ IH]; [done|]. cbn in *. by rewrite bool_decide_eq_false_2.
Qed.
Lemma items_at_keys word values : Forall (fun item : str * option str => item.1 = word) (items_at word values).
Proof. apply Forall_map. by apply Forall_true. Qed.

Lemma given_list {A B} (f : A -> B) (limit : option A) : option_list (f <$> limit) <> [] -> given limit = true.
Proof. destruct limit; [done|]. by intros []. Qed.
Lemma given_list_id {A} (limit : option A) : option_list limit <> [] -> given limit = true.
Proof. destruct limit; [done|]. by intros []. Qed.
Lemma conflict_none r next : Forall (fun limit => limit.2 <> [] -> conflict r next limit.1 <> None) (single_limits r).
Proof.
  unfold single_limits, conflict. repeat (constructor; [intros Hg; cbn [snd] in Hg; first [apply given_list in Hg|apply given_list_id in Hg]|]);
    [..|constructor]; revert Hg; cbn [fst];
    generalize (given (Limits.cpus r)), (given (Limits.cpu_shares r)), (given (Limits.cpuset_cpus r)), (given (Limits.memory r)),
      (given (Limits.memory_reservation r)), (given (Limits.memory_swap r)), (given (Limits.pids_limit r)), (given (Limits.shm_size r));
    intros [] [] [] [] [] [] [] []; vm_compute; congruence.
Qed.
Lemma check_args_none r arguments argument :
  check_resource_args r arguments = Ok tt -> argument ∈ arguments -> utf8_valid (as_bytes argument) = true ->
  exists next, conflict r next (as_bytes argument) = None.
Proof.
  induction arguments as [|first arguments IH]; [by intros _ ?%elem_of_nil|]. cbn [check_resource_args].
  intros [H1 H2]%bind_unit_Ok [->|Hin]%elem_of_cons Hu; [|by apply IH]. unfold to_str in H1. rewrite Hu in H1.
  destruct (conflict _ _ _) eqn:E; [done|]. by eexists.
Qed.
Lemma limit_words r : Forall (fun limit => utf8_valid limit.1 = true) (single_limits r).
Proof. repeat constructor. Qed.
Lemma no_limit_among r arguments :
  validate_resource_arg_conflicts r arguments = Ok tt ->
  Forall (fun limit => limit.2 <> [] -> mkUnixArgument limit.1 ∉ arguments) (single_limits r).
Proof.
  unfold validate_resource_arg_conflicts. intros H. apply Forall_forall. intros limit Hl Hg Hin.
  destruct (Limits.ResourceLimits_is_empty r) eqn:Er.
  { unfold Limits.ResourceLimits_is_empty in Er. apply bool_decide_eq_true in Er. subst r.
    unfold single_limits in Hl. rewrite !elem_of_cons, elem_of_nil in Hl. naive_solver. }
  pose proof (limit_words r) as Hu. rewrite Forall_forall in Hu. specialize (Hu _ Hl).
  destruct (check_args_none _ _ _ H Hin Hu) as [next Hc]. pose proof (conflict_none r next) as Hn. rewrite Forall_forall in Hn.
  by apply (Hn _ Hl Hg).
Qed.
Lemma single_limits_given request : Forall (fun limit => limit ∈ given_values request) (single_limits (Engines.resources request)).
Proof. unfold single_limits, given_values. cbv zeta. repeat constructor; rewrite !elem_of_cons; tauto. Qed.

Lemma elem_of_words word items : (exists item : str * option str, item ∈ items /\ item.1 = word) -> word ∈ words_of items.
Proof.
  intros (item & Hi & <-). unfold words_of. apply list_elem_of_In, in_flat_map. exists item.
  split; [by apply list_elem_of_In|]. by left.
Qed.
Definition own_word (word : str) : bool := one_of word ["--hostname"; "--cap-drop"; "--security-opt"; "--entrypoint"].
Lemma own_keys container values :
  Forall (fun item : str * option str => own_word item.1 = true) (generated_items container ++ items_at "--entrypoint" values).
Proof. unfold generated_items. rewrite !Forall_app. split_and!; (eapply Forall_impl; [apply items_at_keys|]; by intros item ->). Qed.
Lemma good_own_items container values : forallb good_item (generated_items container ++ items_at "--entrypoint" values) = true.
Proof. unfold generated_items. rewrite !forallb_app, !good_items_at by (vm_compute; reflexivity). reflexivity. Qed.
Lemma limit_not_own r : Forall (fun limit => own_word limit.1 = false) (single_limits r).
Proof. repeat constructor. Qed.
(** Options of the plan itself and arguments of the user leave the limits alone. *)
Lemma user_items_free request arguments own extra rest :
  (read ← read_words (arguments_to_os arguments ++ rest); Some (own ++ read.1, read.2)) = Some (extra, rest) ->
  validate_resource_arg_conflicts (Engines.resources request) arguments = Ok tt ->
  Forall (fun item : str * option str => own_word item.1 = true) own ->
  Forall (fun limit => limit.2 <> [] -> values_of limit.1 (request_items request ++ extra) = limit.2) (single_limits (Engines.resources request)).
Proof.
  intros ([items rest'] & Hr & [= <- ->])%bind_Some Hc%no_limit_among Hown. apply (read_words_back _ _ _ _ (le_n _)) in Hr as Hw.
  apply app_inv_tail in Hw. apply Forall_forall. intros limit Hl Hg. rewrite !values_of_app.
  pose proof (single_limits_given request) as Hgiven. rewrite Forall_forall in Hgiven.
  pose proof (request_items_values request) as Hv. rewrite Forall_forall in Hv. rewrite (Hv _ (Hgiven _ Hl)).
  pose proof (limit_not_own (Engines.resources request)) as Hno. rewrite Forall_forall in Hno, Hc.
  rewrite (values_of_other _ own), (values_of_other _ items), ?app_nil_r; [done|..].
  - apply Forall_forall. intros item Hi E. apply (Hc _ Hl Hg). 
    assert (Hin : limit.1 ∈ arguments_to_os arguments).
    { rewrite Hw, <- E. apply elem_of_words. by exists item. }
    unfold arguments_to_os in Hin. apply list_elem_of_fmap in Hin as ([bytes] & -> & Hin). exact Hin.
  - eapply Forall_impl; [exact Hown|]. cbv beta. intros item Hi E. rewrite E, (Hno _ Hl) in Hi. done.
Qed.

End facts.

(** ** A launch *)

Definition plain_debug : DebugStr := fun s => s.
Definition limited : Limits.ResourceValues :=
  Limits.mkResourceValues None None None (Some (Limits.mkMemorySize "2g" 2147483648)) None None None None [].
Definition sample_request : Engines.RunRequest :=
  Engines.mkRunRequest "run-1" "image" (Some ("/bin/sh" : str)) (strs ["-c"; "true"]) (Some ("/workspaces/a" : str))
    [("A" : str, "1" : str); ("B" : str, map byte_at [255]%Z)] []
    [Engines.mkMountRequest Engines.Bind (Some ("/home/me" : str)) "/workspaces/a" false;
     Engines.mkMountRequest Engines.Volume (Some ("cache" : str)) "/cache" true;
     Engines.mkMountRequest Engines.Tmpfs None "/scratch" false]
    [Engines.mkPublishRequest (V6 [0; 0; 0; 0; 0; 0; 0; 1]%Z) 8080 80 "tcp"] limited
    (Some ("bridge" : str)) None None [] true true false true true true [] true None (strs ["--label"; "memory"]).
Definition sample_context : RunRequestContext := mkRunRequestContext "project" "environment" RuntimeKind_Docker Plan.bridge "/".
Definition sample_plan : result LaunchPlanError HostLaunchPlan :=
  @from_run_request plain_debug plain_idna "id" sample_request sample_context.

Lemma request_survives_planning_witness :
  exists plan, sample_plan = Ok plan /\ @to_run_request plain_debug plain_idna plan = Ok sample_request.
Proof.
  destruct sample_plan as [plan|e] eqn:E; [|vm_compute in E; discriminate E]. exists plan. split; [reflexivity|].
  apply (@request_survives_planning plain_debug plain_idna "id" sample_request sample_context plan); [| |exact E].
  - constructor; [|constructor]. split; [reflexivity|]. unfold U16_MAX. repeat constructor; lia.
  - intros entrypoint [= <-]. vm_compute. reflexivity.
Defined.

(** The same container, started by the init helper with a secret. *)
Definition secret_plan (plan : HostLaunchPlan) : HostLaunchPlan :=
  mkHostLaunchPlan (launch_schema_version plan) (container plan) (launch_runtime plan)
    (mkInitPlan true [] [] (strs ["API_TOKEN"])) (launch_forwarding plan) (launch_services plan) (session plan).
Lemma secrets_stay_out_of_plans_witness :
  exists plan request, sample_plan = Ok plan /\ @to_run_request plain_debug plain_idna (secret_plan plan) = Ok request
    /\ bget "API_TOKEN" (Engines.env request) = None.
Proof.
  destruct sample_plan as [plan|e] eqn:E; [|vm_compute in E; discriminate E].
  destruct (@to_run_request plain_debug plain_idna (secret_plan plan)) as [request|e] eqn:Er;
    [|vm_compute in E; injection E as <-; vm_compute in Er; discriminate Er].
  exists plan, request. split; [reflexivity|]. split; [exact Er|].
  apply (@secrets_stay_out_of_plans plain_debug plain_idna (secret_plan plan) request "API_TOKEN" Er).
  right. apply list_elem_of_here.
Defined.
End LaunchFacts.
