(* ===== verification/HostSshArgs.v ===== *)
(** * OpenSSH command lines of the host service ([codex-start-proxy/src/host_ssh.rs])

    The subset of OpenSSH's arguments that Git's transports need, the remote Git
    command behind them, and the grammar that the parser accepts. *)

From S2P Require Export Relay EnvSecrets Allowlist.

Module HostSshArgs.
Import IpAddr Allowlist Handshake.

Definition MAX_REQUEST_BYTES : Z := 64 * 1024.
Definition MAX_ARGUMENTS : nat := 256.

Inductive GitSshService := UploadPack | ReceivePack | UploadArchive | LfsAuthenticate.
Inductive GitLfsOperation := Download | Upload.
Record GitRemoteCommand := mkGitRemoteCommand {
  service : GitSshService;
  repository : str;
  lfs_operation : option GitLfsOperation }.
Record SshInvocation := mkSshInvocation {
  ssh_authority : Authority;
  argv : list str;
  remote_command : GitRemoteCommand }.

Inductive HostSshError :=
  | InvalidConfig
  | InvalidInvocation (message : str)
  | UnsafeOption (option : str)
  | RemoteCommandDenied
  | RequestTooLarge
  | RequestTimeout
  | InvalidRequest
  | EncodeRequest
  | InvalidResponse
  | InvalidFrame
  | ServerDenied
  | DestinationDenied (authority : Authority)
  | Accept (source : Streams.io_error)
  | ConnectTimeout (remote : str)
  | Connect (remote : str) (source : Streams.io_error)
  | Spawn (program : str) (source : Streams.io_error)
  | MissingPipe
  | Wait (source : Streams.io_error)
  | OfAllowlist (error : AllowlistError)
  | OfRelay (error : RelayError)
  | Io (source : Streams.io_error).

#[export] Instance GitSshService_eq_dec : EqDecision GitSshService.
Proof. solve_decision. Defined.

(** [char::is_control] of the encoding of a character: the category Cc. *)
Definition is_control (c : str) : bool :=
  match c with
  | [b] => is_ascii_control b
  | [b; d] => is_byte (byte_at 194) b && in_range 128 159 d
  | _ => false
  end.

(** ** The remote command *)

Definition is_safe_repository_byte (byte : ascii) : bool :=
  is_alphanumeric byte || contains_byte byte "/._-~@%+:=,".

Definition parse_repository (value : str) : result HostSshError str :=
  let repository := default value (remainder ← strip_prefix "'" value; strip_suffix "'" remainder) in
  err_if (negb (nonempty repository)
          || starts_with "-" repository
          || existsb (fun component => component =s? "..") (split "/" repository)
          || negb (forallb is_safe_repository_byte repository)
          || negb (bool_decide (starts_with "'" value = ends_with "'" value)))
    RemoteCommandDenied ;;
  Ok repository.

Definition git_service (name : str) : option GitSshService :=
  if name =s? "git-upload-pack" then Some UploadPack
  else if name =s? "git-receive-pack" then Some ReceivePack
  else if name =s? "git-upload-archive" then Some UploadArchive
  else if name =s? "git-lfs-authenticate" then Some LfsAuthenticate
  else None.
Definition lfs_operation_of (name : str) : option GitLfsOperation :=
  if name =s? "download" then Some Download else if name =s? "upload" then Some Upload else None.

Definition parse_git_remote_fields (fields : list str) : result HostSshError GitRemoteCommand :=
  service ← ok_or (name ← head fields; git_service name) RemoteCommandDenied;
  let is_lfs := bool_decide (service = LfsAuthenticate) in
  err_if (negb (length fields =? (if is_lfs then 3 else 2))%nat) RemoteCommandDenied ;;
  repository ← parse_repository (nth 1 fields []);
  lfs_operation ← if is_lfs then Some <$> ok_or (lfs_operation_of (nth 2 fields [])) RemoteCommandDenied else Ok None;
  Ok (mkGitRemoteCommand service repository lfs_operation).

Definition parse_git_remote_argv (argv : list str) : result HostSshError GitRemoteCommand :=
  match argv with
  | [command] => parse_git_remote_fields (EnvSecrets.split_ascii_whitespace command)
  | _ => parse_git_remote_fields argv
  end.

(** ** Destinations and options *)

Definition validate_user (value : str) : result HostSshError unit :=
  err_if (negb (nonempty value) || existsb (fun byte => is_ascii_control byte || is_ascii_whitespace byte) value)
    (InvalidInvocation "invalid SSH user").

Definition parse_destination (destination : str) : result HostSshError str :=
  host ← match rsplit_once "@" destination with
         | Some (user, host) =>
             validate_user user ;;
             err_if (contains_byte "@" user) (InvalidInvocation "invalid SSH destination user") ;;
             Ok host
         | None => Ok destination
         end;
  host ← match strip_prefix "[" host with
         | Some remainder => ok_or (strip_suffix "]" remainder) (InvalidInvocation "invalid bracketed SSH destination")
         | None => Ok host
         end;
  err_if (negb (nonempty host)) (InvalidInvocation "SSH destination host is empty") ;;
  Ok host.

Definition parse_port (value : str) : result HostSshError Z :=
  ok_or (port ← parse_u16 value; if negb (port =? 0)%Z then Some port else None)
    (InvalidInvocation ("invalid SSH port `" ++ value ++ "`")).

(** The host name that an option sets, and the port. *)
Definition Seen : Type := option str * Z.

Definition parse_option (option : str) (seen : Seen) : result HostSshError Seen :=
  '(name, value) ← ok_or (split_once "=" option) (InvalidInvocation "SSH -o options must use name=value");
  let name := to_ascii_lowercase name in
  if (name =s? "hostname") && negb (contains_byte "@" value) then
    host ← parse_destination value; Ok (Some host, seen.2)
  else if name =s? "port" then port ← parse_port value; Ok (seen.1, port)
  else if name =s? "user" then validate_user value ;; Ok seen
  else if (name =s? "batchmode") && eq_ignore_ascii_case value "yes" then Ok seen
  else if (name =s? "sendenv") && (value =s? "GIT_PROTOCOL") then Ok seen
  else Err (UnsafeOption ("-o" ++ option)).

(** [next_value]: the word after an option. *)
Definition requires_value (option : str) : HostSshError :=
  InvalidInvocation ("SSH option " ++ option ++ " requires a value").
Definition presentation_flags : list string := ["-4"; "-6"; "-a"; "-C"; "-n"; "-q"; "-T"; "-v"; "-vv"; "-vvv"; "-x"].
(** The value in the word of an option. *)
Definition attached (option argument : str) : bool := starts_with option argument && (2 <? length argument)%nat.

(** The loop of [parse] from an argument on: the destination, what the options
    set, and the arguments behind the destination. *)
Fixpoint scan (seen : Seen) (argv : list str) : result HostSshError (str * Seen * list str) :=
  match argv with
  | [] => Err (InvalidInvocation "SSH destination is missing")
  | argument :: rest =>
      if argument =s? "--" then
        match rest with
        | destination :: remote => host ← parse_destination destination; Ok (host, seen, remote)
        | [] => Err (InvalidInvocation "missing SSH destination after --")
        end
      else if negb (starts_with "-" argument) || (argument =s? "-") then
        host ← parse_destination argument; Ok (host, seen, rest)
      else if argument =s? "-p" then
        match rest with
        | value :: rest => port ← parse_port value; scan (seen.1, port) rest
        | [] => Err (requires_value "-p")
        end
      else if argument =s? "-l" then
        match rest with
        | value :: rest => validate_user value ;; scan seen rest
        | [] => Err (requires_value "-l")
        end
      else if argument =s? "-o" then
        match rest with
        | value :: rest => seen ← parse_option value seen; scan seen rest
        | [] => Err (requires_value "-o")
        end
      else if one_of argument presentation_flags then scan seen rest
      else if attached "-p" argument then port ← parse_port (drop 2 argument); scan (seen.1, port) rest
      else if attached "-l" argument then validate_user (drop 2 argument) ;; scan seen rest
      else if attached "-o" argument then seen ← parse_option (drop 2 argument) seen; scan seen rest
      else Err (UnsafeOption argument)
  end.

Definition encoded_size (argv : list str) : Z := foldr (fun argument n => Z.of_nat (length argument) + n)%Z 0%Z argv.

Section parse.
Context {I : Idna}.

Definition allowlist_error {A} : result AllowlistError A -> result HostSshError A := map_err OfAllowlist.

Definition parse (argv : list str) : result HostSshError SshInvocation :=
  err_if (negb (nonempty argv) || (MAX_ARGUMENTS <? length argv)%nat)
    (InvalidInvocation "SSH argv is empty or has too many arguments") ;;
  err_if (existsb (fun argument => negb (nonempty argument) || existsb is_control (chars argument)) argv)
    (InvalidInvocation "SSH argv contains an empty argument or control byte") ;;
  err_if (MAX_REQUEST_BYTES <? encoded_size argv)%Z RequestTooLarge ;;
  '(destination_host, (hostname_override, port), remote_argv) ← scan (None, 22%Z) argv;
  err_if (negb (nonempty remote_argv))
    (InvalidInvocation "a remote Git service command is required after the SSH destination") ;;
  remote_command ← parse_git_remote_argv remote_argv;
  host ← allowlist_error (NormalizedHost_parse (default destination_host hostname_override));
  Ok (mkSshInvocation (mkAuthority host port) argv remote_command).

Definition is_git_ssh_variant_probe (argv : list str) : bool :=
  match argv with
  | [option; destination] =>
      (option =s? "-G")
      && negb (existsb is_control (chars destination))
      && is_ok (host ← parse_destination destination; allowlist_error (NormalizedHost_parse host))
  | _ => false
  end.
End parse.

(** ** The grammar *)

(** What the texts of options say. *)
Definition port_text (value : str) (port : Z) : Prop := parse_u16 value = Some port /\ port <> 0%Z.
Definition user_text (value : str) : Prop :=
  value <> [] /\ Forall (fun byte => is_ascii_control byte = false /\ is_ascii_whitespace byte = false) value.
(** A host behind its brackets, if it has some. *)
Definition bracketed (name host : str) : Prop :=
  name = host /\ starts_with "[" host = false \/ name = "["%char :: host ++ ["]"%char].
(** A user, if any, and a host with or without brackets. *)
Definition host_text (destination host : str) : Prop :=
  host <> [] /\ exists user name,
    (user = [] /\ destination = name \/ user_text user /\ destination = user ++ "@"%char :: name)
    /\ "@"%char ∉ user /\ "@"%char ∉ name
    /\ bracketed name host.

(** An option with its value behind it or in the same word. *)
Definition with_value (option value : str) (words : list str) : Prop :=
  words = [option; value] \/ value <> [] /\ words = [option ++ value].

(** The settings of [-o]. *)
Inductive setting : str -> str -> Seen -> Seen -> Prop :=
  | set_hostname value host seen : "@"%char ∉ value -> host_text value host -> setting "hostname" value seen (Some host, seen.2)
  | set_port value port seen : port_text value port -> setting "port" value seen (seen.1, port)
  | set_user value seen : user_text value -> setting "user" value seen seen
  | set_batchmode value seen : to_ascii_lowercase value = "yes" -> setting "batchmode" value seen seen
  | set_sendenv seen : setting "sendenv" "GIT_PROTOCOL" seen seen.

(** One option, and all options in front of the destination. *)
Inductive reads : Seen -> list str -> Seen -> Prop :=
  | reads_flag seen word : word ∈ strs presentation_flags -> reads seen [word] seen
  | reads_port seen value port words : with_value "-p" value words -> port_text value port -> reads seen words (seen.1, port)
  | reads_user seen value words : with_value "-l" value words -> user_text value -> reads seen words seen
  | reads_option seen name value words seen' :
      with_value "-o" (name ++ "="%char :: value) words -> "="%char ∉ name ->
      setting (to_ascii_lowercase name) value seen seen' -> reads seen words seen'.
Inductive options : Seen -> list str -> Seen -> Prop :=
  | options_none seen : options seen [] seen
  | options_more seen words seen1 rest seen2 : reads seen words seen1 -> options seen1 rest seen2 -> options seen (words ++ rest) seen2.

(** The destination in front of the remote command. *)
Definition destination_word (words : list str) (destination : str) : Prop :=
  words = ["--" : str; destination]
  \/ words = [destination] /\ (starts_with "-" destination = false \/ destination = ("-" : str)).

Definition service_name (service : GitSshService) : str :=
  match service with
  | UploadPack => "git-upload-pack"
  | ReceivePack => "git-receive-pack"
  | UploadArchive => "git-upload-archive"
  | LfsAuthenticate => "git-lfs-authenticate"
  end.
Definition operation_name (operation : GitLfsOperation) : str :=
  match operation with Download => "download" | Upload => "upload" end.
Definition safe_repository (repository : str) : Prop :=
  repository <> [] /\ starts_with "-" repository = false /\ (".." : str) ∉ split "/" repository
  /\ Forall (fun byte => is_safe_repository_byte byte = true) repository.
(** The fields of a Git command; its repository may be quoted. *)
Definition git_fields (fields : list str) (command : GitRemoteCommand) : Prop :=
  safe_repository (repository command) /\ exists word,
    (word = repository command \/ word = ("'" : str) ++ repository command ++ "'") /\
    match lfs_operation command with
    | Some operation => service command = LfsAuthenticate /\
                        fields = [service_name LfsAuthenticate; word; operation_name operation]
    | None => service command <> LfsAuthenticate /\ fields = [service_name (service command); word]
    end.
Definition git_command (remote : list str) (command : GitRemoteCommand) : Prop :=
  (exists word, remote = [word] /\ git_fields (EnvSecrets.split_ascii_whitespace word) command)
  \/ (length remote <> 1%nat /\ git_fields remote command).

Definition within_limits (argv : list str) : Prop :=
  (0 < length argv <= MAX_ARGUMENTS)%nat /\ (encoded_size argv <= MAX_REQUEST_BYTES)%Z
  /\ Forall (fun argument => argument <> [] /\ Forall (fun c => is_control c = false) (chars argument)) argv.

(** An approved command line, its authority and its remote command. *)
Definition approved `{Idna} (invocation : SshInvocation) : Prop :=
  within_limits (argv invocation) /\
  exists words destination_words destination destination_host hostname port remote,
    argv invocation = words ++ destination_words ++ remote
    /\ options (None, 22%Z) words (hostname, port)
    /\ destination_word destination_words destination /\ host_text destination destination_host
    /\ git_command remote (remote_command invocation)
    /\ NormalizedHost_parse (default destination_host hostname) = Ok (auth_host (ssh_authority invocation))
    /\ auth_port (ssh_authority invocation) = port.

(** ** The parser reads the grammar *)

Lemma not_nonempty {A} (l : list A) : negb (nonempty l) = false <-> l <> [].
Proof. by destruct l. Qed.

Lemma parse_port_Ok value port : parse_port value = Ok port <-> port_text value port.
Proof.
  unfold parse_port, port_text. rewrite ok_or_Ok. destruct (parse_u16 value) as [p|]; cbn; [|naive_solver].
  destruct (p =? 0)%Z eqn:E; cbn; bool_split; naive_solver.
Qed.
Lemma validate_user_Ok value u : validate_user value = Ok u <-> user_text value.
Proof.
  unfold validate_user, user_text. rewrite err_if_Ok, orb_false_iff, not_nonempty, existsb_false.
  split; intros [? H]; (split; [done|]); apply (Forall_impl _ _ _ H); intros x; by rewrite orb_false_iff.
Qed.

Lemma unbracket_Ok (e : HostSshError) name host :
  match strip_prefix "[" name with Some remainder => ok_or (strip_suffix "]" remainder) e | None => Ok name end = Ok host
  <-> bracketed name host.
Proof.
  unfold bracketed, starts_with. destruct (strip_prefix "[" name) as [remainder|] eqn:E.
  - apply strip_prefix_Some in E as ->. rewrite ok_or_Ok, strip_suffix_Some. cbn. split; [intros ->; by right|].
    intros [[<- Hs]|Hn]; [|by injection Hn]. apply bool_decide_eq_false in Hs. destruct Hs. by eexists.
  - split; [intros [= <-]; left; split; [done|]; rewrite E; apply bool_decide_eq_false; by intros [? ?]|].
    intros [[-> _]| ->]; [done|]. discriminate (eq_trans (eq_sym (strip_prefix_app ["["%char] _)) E).
Qed.
Lemma parse_destination_Ok destination host : parse_destination destination = Ok host <-> host_text destination host.
Proof.
  unfold parse_destination, host_text. rewrite bind_Ok. setoid_rewrite bind_Ok. setoid_rewrite unbracket_Ok.
  setoid_rewrite err_if_bind_Ok. setoid_rewrite not_nonempty. split.
  - intros (name & Hn & host' & Hb & Hh & [= <-]). split; [done|].
    destruct (rsplit_once "@" destination) as [[user name']|] eqn:E.
    + apply bind_unit_Ok in Hn as [Hu Hn]. apply err_if_bind_Ok in Hn as [Ha [= <-]].
      apply rsplit_once_Some in E as [-> Hno]. apply contains_byte_false in Ha. apply validate_user_Ok in Hu.
      exists user, name'. split_and!; [by right|done..].
    + simplify_eq. apply rsplit_once_None in E. exists [], name. split_and!; [by left|apply not_elem_of_nil|done..].
  - intros (Hh & user & name & Hd & Hu & Hn & Hb). exists name. split; [|by exists host].
    destruct Hd as [[_ ->]|[Hut ->]].
    + by rewrite (proj2 (rsplit_once_None _ _) Hn).
    + rewrite (proj2 (rsplit_once_Some _ _ user name) (conj eq_refl Hn)).
      rewrite bind_unit_Ok, err_if_bind_Ok, validate_user_Ok, contains_byte_false. done.
Qed.

Lemma parse_option_Ok option seen seen' : parse_option option seen = Ok seen' <->
  exists name value, option = name ++ "="%char :: value /\ "="%char ∉ name /\ setting (to_ascii_lowercase name) value seen seen'.
Proof.
  unfold parse_option. rewrite bind_Ok. split.
  - intros ([name value] & Hs & H). apply ok_or_Ok, split_once_Some in Hs as [-> Hn]. exists name, value. split; [done|]. split; [done|].
    remember (to_ascii_lowercase name) as key eqn:Ek. clear Ek. cbv zeta in H.
    destruct (_ && negb _) eqn:E1 in H.
    { bool_split. apply str_eqb_eq in H0 as ->. apply bind_Ok in H as (host & Hh & [= <-]).
      apply contains_byte_false in H1. constructor; [done|by apply parse_destination_Ok]. }
    destruct (key =s? "port") eqn:E2.
    { apply str_eqb_eq in E2 as ->. apply bind_Ok in H as (port & Hp & [= <-]). constructor. by apply parse_port_Ok. }
    destruct (key =s? "user") eqn:E3.
    { apply str_eqb_eq in E3 as ->. apply bind_unit_Ok in H as [Hu [= <-]]. constructor. by eapply validate_user_Ok. }
    destruct (_ && _) eqn:E4 in H.
    { bool_split. apply str_eqb_eq in H0 as ->. injection H as <-. constructor. by apply str_eqb_eq in H1. }
    destruct (_ && _) eqn:E5 in H; [|done].
    bool_split. apply str_eqb_eq in H0 as ->. apply str_eqb_eq in H1 as ->. injection H as <-. constructor.
  - intros (name & value & -> & Hn & H). exists (name, value). rewrite ok_or_Ok, split_once_Some. split; [done|].
    inversion H as [v host ? Ha Hh|v port ? Hp|v ? Hu|v ? Hy|]; subst; cbn [negb].
    + apply contains_byte_false in Ha. apply parse_destination_Ok in Hh. rewrite Ha, Hh. done.
    + apply parse_port_Ok in Hp. rewrite Hp. done.
    + apply validate_user_Ok with (u:=tt) in Hu. rewrite Hu. done.
    + unfold eq_ignore_ascii_case. rewrite Hy. done.
    + done.
Qed.
(** Words that the loop tells apart. *)
Lemma attached_Some option value : length option = 2%nat -> attached option (option ++ value) = nonempty value.
Proof.
  intros Ho. unfold attached. rewrite (proj2 (starts_with_spec option _)) by by eexists. rewrite length_app, Ho. cbn [andb].
  destruct value; [by apply Nat.ltb_ge; cbn; lia|by apply Nat.ltb_lt; cbn; lia].
Qed.
Lemma attached_true option argument : length option = 2%nat -> attached option argument = true ->
  exists value, argument = option ++ value /\ value <> [] /\ drop 2 argument = value.
Proof.
  intros Ho H. apply andb_true_iff in H as [Hs Hl]. apply starts_with_spec in Hs as (value & ->). exists value. split; [done|].
  rewrite <- Ho, drop_app_length. split; [|done]. intros ->. apply Nat.ltb_lt in Hl. rewrite app_nil_r in Hl. lia.
Qed.

Lemma long_word_eqb a c b v (x : str) : (length x <=? 2)%nat = true -> (a :: c :: b :: v =s? x) = false.
Proof. intros H. apply Nat.leb_le in H. apply str_eqb_neq. intros <-. cbn in H. lia. Qed.
Lemma attached_no_flag c b v : c <> "v"%char -> one_of ("-"%char :: c :: b :: v) presentation_flags = false.
Proof.
  intros Hc. apply bool_decide_eq_false. intros Hw.
  repeat (apply elem_of_cons in Hw as [Hw|Hw]; [first [discriminate Hw|injection Hw; intros; subst; by destruct Hc]|]). by apply not_elem_of_nil in Hw.
Qed.
(** The loop at an option with its value in its word. *)
Lemma scan_attached word c v seen rest : word = "-"%char :: c :: v -> v <> [] -> c ∈ ("plo" : str) ->
  scan seen (word :: rest) =
    (if is_byte "p" c then port ← parse_port v; scan (seen.1, port) rest
     else if is_byte "l" c then validate_user v ;; scan seen rest
     else seen ← parse_option v seen; scan seen rest).
Proof.
  intros -> Hv Hc. destruct v as [|b v]; [done|]. cbn [scan].
  rewrite !long_word_eqb by reflexivity. rewrite attached_no_flag by (intros ->; revert Hc; apply (bool_decide_unpack _); vm_compute; exact Logic.I).
  repeat (apply elem_of_cons in Hc as [->|Hc]; [reflexivity|]). by apply not_elem_of_nil in Hc.
Qed.

Lemma scan_reads seen words seen1 rest : reads seen words seen1 -> scan seen (words ++ rest) = scan seen1 rest.
Proof.
  intros [s w Hw|s v p ws [->|[Hv ->]] Hp|s v ws [->|[Hv ->]] Hu|s name v ws s' [->|[Hv ->]] Hn Hs].
  - repeat (apply elem_of_cons in Hw as [->|Hw]; [reflexivity|]). by apply not_elem_of_nil in Hw.
  - apply parse_port_Ok in Hp. cbn. by rewrite Hp.
  - apply parse_port_Ok in Hp. cbn [app]. rewrite (scan_attached _ "p" v) by (done || by repeat constructor). cbn. by rewrite Hp.
  - apply validate_user_Ok with (u:=tt) in Hu. cbn. by rewrite Hu.
  - apply validate_user_Ok with (u:=tt) in Hu. cbn [app]. rewrite (scan_attached _ "l" v) by (done || by repeat constructor). cbn. by rewrite Hu.
  - assert (parse_option (name ++ "="%char :: v) s = Ok s') as E by (apply parse_option_Ok; by exists name, v). cbn. by rewrite E.
  - assert (parse_option (name ++ "="%char :: v) s = Ok s') as E by (apply parse_option_Ok; by exists name, v).
    cbn [app]. rewrite (scan_attached _ "o" (name ++ "="%char :: v)) by (done || by repeat constructor). cbn. by rewrite E.
Qed.

(** The loop stops at a destination or goes on behind an option. *)
Lemma scan_cases seen argv out : scan seen argv = Ok out ->
  (exists words destination host remote, argv = words ++ remote /\ destination_word words destination /\
     host_text destination host /\ out = (host, seen, remote))
  \/ (exists words seen1 rest, argv = words ++ rest /\ words <> [] /\ reads seen words seen1 /\ scan seen1 rest = Ok out).
Proof.
  destruct argv as [|argument rest]; [done|]. cbn [scan]. intros H.
  destruct (argument =s? "--") eqn:E1.
  { apply str_eqb_eq in E1 as ->. destruct rest as [|d remote]; [done|]. apply bind_Ok in H as (host & Hh & [= <-]).
    left. exists ["--" : str; d], d, host, remote. split_and!; [done|by left|by apply parse_destination_Ok|done]. }
  destruct (negb (starts_with "-" argument) || (argument =s? "-")) eqn:E2.
  { apply bind_Ok in H as (host & Hh & [= <-]). left. exists [argument], argument, host, rest.
    split_and!; [done| |by apply parse_destination_Ok|done]. right. split; [done|].
    apply orb_true_iff in E2 as [E2|E2]; [left; by apply negb_true_iff|right; by apply str_eqb_eq]. }
  right. clear E1 E2.
  destruct (argument =s? "-p") eqn:E3; [|destruct (argument =s? "-l") eqn:E4; [|destruct (argument =s? "-o") eqn:E5]].
  - apply str_eqb_eq in E3 as ->. destruct rest as [|value rest]; [done|]. apply bind_Ok in H as (p & Hp & H). apply parse_port_Ok in Hp.
    eexists ["-p" : str; value], _, rest. split_and!; [done|done|by eapply reads_port; [left|]|done].
  - apply str_eqb_eq in E4 as ->. destruct rest as [|value rest]; [done|]. apply bind_unit_Ok in H as [Hu H]. apply validate_user_Ok in Hu.
    eexists ["-l" : str; value], _, rest. split_and!; [done|done|by eapply reads_user; [left|]|done].
  - apply str_eqb_eq in E5 as ->. destruct rest as [|value rest]; [done|]. apply bind_Ok in H as (s1 & Hs & H). apply parse_option_Ok in Hs as (name & v & -> & Hn & Hs).
    eexists ["-o" : str; _], _, rest. split_and!; [done|done|by eapply reads_option; [left| |]|done].
  - destruct (one_of argument presentation_flags) eqn:E6.
    { eexists [argument], seen, rest. split_and!; [done|done|constructor; by apply bool_decide_eq_true in E6|done]. }
    destruct (attached "-p" argument) eqn:E7; [|destruct (attached "-l" argument) eqn:E8; [|destruct (attached "-o" argument) eqn:E9; [|done]]].
    + apply attached_true in E7 as (value & -> & Hv & Ed); [|done]. rewrite Ed in H. apply bind_Ok in H as (p & Hp & H). apply parse_port_Ok in Hp.
      eexists [_], _, rest. split_and!; [done|done|by eapply reads_port; [right|]|done].
    + apply attached_true in E8 as (value & -> & Hv & Ed); [|done]. rewrite Ed in H. apply bind_unit_Ok in H as [Hu H]. apply validate_user_Ok in Hu.
      eexists [_], _, rest. split_and!; [done|done|by eapply reads_user; [right|]|done].
    + apply attached_true in E9 as (value & -> & Hv & Ed); [|done]. rewrite Ed in H. apply bind_Ok in H as (s1 & Hs & H). apply parse_option_Ok in Hs as (name & v & -> & Hn & Hs).
      eexists [_], _, rest. split_and!; [done|done|by eapply reads_option; [right| |]|done].
Qed.
Lemma scan_exact seen argv host seen' remote : scan seen argv = Ok (host, seen', remote) <->
  exists words dwords destination, argv = words ++ dwords ++ remote /\ options seen words seen'
    /\ destination_word dwords destination /\ host_text destination host.
Proof.
  split.
  - remember (length argv) as n eqn:En. revert seen argv En.
    induction (lt_wf n) as [n _ IH]. intros seen argv -> H. apply scan_cases in H as [(ws & d & h & r & -> & Hw & Hh & [= <- <- <-])|(ws & s1 & rest & -> & Hne & Hr & H)].
    + exists [], ws, d. split_and!; [done|constructor|done..].
    + apply (IH (length rest)) in H as (words & dwords & d & -> & Ho & Hd & Hh); [|rewrite length_app; destruct ws; [done|cbn; lia]|done].
      exists (ws ++ words), dwords, d. split_and!; [by rewrite <- app_assoc|by econstructor|done..].
  - intros (words & dwords & d & -> & Ho & Hd & Hh). apply parse_destination_Ok in Hh.
    induction Ho as [s|s ws s1 rest s2 Hr _ IH]; [|by rewrite <- app_assoc, (scan_reads _ _ _ _ Hr)].
    cbn. destruct Hd as [->|[-> Hd]]; cbn; [by rewrite Hh|].
    assert (negb (starts_with "-" d) || (d =s? "-") = true) as Es.
    { destruct Hd as [Hd| ->]; [by rewrite Hd|done]. }
    assert ((d =s? "--") = false) as En.
    { apply str_eqb_neq. intros ->. by destruct Hd as [Hd|Hd]. }
    by rewrite En, Es, Hh.
Qed.
(** ** The remote command and the whole line *)

Lemma unquoted_start repository : Forall (fun byte => is_safe_repository_byte byte = true) repository -> starts_with "'" repository = false /\ ends_with "'" repository = false.
Proof.
  intros H. split.
  - destruct (starts_with _ _) eqn:E; [|done]. apply starts_with_spec in E as (r & ->). by apply Forall_cons in H as [H _].
  - destruct (ends_with _ _) eqn:E; [|done]. apply ends_with_spec in E as (r & ->). apply Forall_app in H as [_ H]. by apply Forall_cons in H as [H _].
Qed.
Lemma safe_repository_spec repository :
  negb (nonempty repository) || starts_with "-" repository || existsb (fun component => component =s? "..") (split "/" repository)
    || negb (forallb is_safe_repository_byte repository) = false <-> safe_repository repository.
Proof.
  unfold safe_repository. rewrite !orb_false_iff, not_nonempty, negb_false_iff, forallb_forall, existsb_false, !Forall_forall.
  setoid_rewrite list_elem_of_In. setoid_rewrite str_eqb_neq. naive_solver.
Qed.
Lemma parse_repository_Ok value repository : parse_repository value = Ok repository <->
  safe_repository repository /\ (value = repository \/ value = ("'" : str) ++ repository ++ "'").
Proof.
  unfold parse_repository. cbv zeta. rewrite err_if_bind_Ok, orb_false_iff, safe_repository_spec, negb_false_iff, bool_decide_eq_true.
  destruct (remainder ← strip_prefix "'" value; strip_suffix "'" remainder) as [r|] eqn:E; cbn [default].
  - apply bind_Some in E as (remainder & Hp & Hs). apply strip_prefix_Some in Hp as ->. apply strip_suffix_Some in Hs as ->.
    split.
    + intros [[Hs _] [= <-]]. split; [done|by right].
    + intros [Hs [<-|Hq]].
      { destruct (unquoted_start _ (proj2 (proj2 (proj2 Hs)))) as [Hu _]. discriminate Hu. }
      apply app_inv_head, app_inv_tail in Hq as ->. split; [split; [done|]|done].
      transitivity true; [|symmetry]; [done|]. apply ends_with_spec. by exists (("'" : str) ++ repository).
  - split.
    + intros [[Hs _] [= <-]]. split; [done|by left].
    + intros [Hs [<-| ->]].
      * destruct (unquoted_start _ (proj2 (proj2 (proj2 Hs)))) as [-> ->]. done.
      * rewrite strip_prefix_app in E. cbn in E. rewrite (proj2 (strip_suffix_Some _ _ repository) eq_refl) in E. done.
Qed.

Lemma git_service_Some name service : git_service name = Some service <-> name = service_name service.
Proof.
  unfold git_service. split.
  - intros H. destruct (name =s? "git-upload-pack") eqn:E1; [apply str_eqb_eq in E1 as ->; by injection H as <-|].
    destruct (name =s? "git-receive-pack") eqn:E2; [apply str_eqb_eq in E2 as ->; by injection H as <-|].
    destruct (name =s? "git-upload-archive") eqn:E3; [apply str_eqb_eq in E3 as ->; by injection H as <-|].
    destruct (name =s? "git-lfs-authenticate") eqn:E4; [apply str_eqb_eq in E4 as ->; by injection H as <-|done].
  - intros ->. by destruct service.
Qed.
Lemma lfs_operation_Some name operation : lfs_operation_of name = Some operation <-> name = operation_name operation.
Proof.
  unfold lfs_operation_of. split.
  - intros H. destruct (name =s? "download") eqn:E1; [apply str_eqb_eq in E1 as ->; by injection H as <-|].
    destruct (name =s? "upload") eqn:E2; [apply str_eqb_eq in E2 as ->; by injection H as <-|done].
  - intros ->. by destruct operation.
Qed.

Lemma parse_git_remote_fields_Ok fields command : parse_git_remote_fields fields = Ok command <-> git_fields fields command.
Proof.
  unfold parse_git_remote_fields, git_fields. rewrite bind_Ok. setoid_rewrite ok_or_Ok. setoid_rewrite bind_Some. setoid_rewrite git_service_Some. split.
  - intros (sv & (name & Hn & ->) & H). cbv zeta in H. apply err_if_bind_Ok in H as [Hl H]. apply negb_false_iff, Nat.eqb_eq in Hl.
    apply bind_Ok in H as (r & Hr & H). apply bind_Ok in H as (op & Ho & [= <-]). cbn [repository service lfs_operation].
    apply parse_repository_Ok in Hr as [Hs Hw]. split; [done|]. exists (nth 1 fields []). split; [done|].
    destruct (bool_decide_reflect (sv = LfsAuthenticate)) as [->|Hne].
    + apply fmap_Ok in Ho as (o & Ho & ->). apply ok_or_Ok, lfs_operation_Some in Ho. split; [done|].
      destruct fields as [|a [|b [|c [|]]]]; try done. cbn in *. by simplify_eq.
    + injection Ho as <-. split; [done|]. destruct fields as [|a [|b [|]]]; try done. cbn in *. by simplify_eq.
  - destruct command as [sv r op]. cbn [repository service lfs_operation]. intros (Hs & word & Hw & H). exists sv.
    assert (parse_repository word = Ok r) as Hr by (by apply parse_repository_Ok).
    destruct op as [op|].
    + destruct H as [-> ->]. split; [by eexists|]. cbn. rewrite Hr. cbn. rewrite (proj2 (lfs_operation_Some _ op) eq_refl). done.
    + destruct H as [Hne ->]. split; [by eexists|]. cbv zeta. rewrite (bool_decide_eq_false_2 _ Hne). cbn. by rewrite Hr.
Qed.
Lemma parse_git_remote_argv_Ok remote command : parse_git_remote_argv remote = Ok command <-> git_command remote command.
Proof.
  unfold parse_git_remote_argv, git_command. destruct remote as [|w [|w2 ws]]; rewrite parse_git_remote_fields_Ok; split.
  all: try (intros [(? & [=] & _)|[_ H]]; done).
  - intros H. right. split; [done|done].
  - intros H. left. by exists w.
  - intros [(w' & [= <-] & H)|[[] _]]; done.
  - intros H. right. split; [cbn; lia|done].
Qed.
Lemma git_command_nonempty remote command : git_command remote command -> remote <> [].
Proof. intros [(w & -> & _)|[_ (_ & w & _ & H)]]; [done|]. destruct (lfs_operation command); destruct H as [_ ->]; done. Qed.

Lemma within_limits_spec argv :
  (negb (nonempty argv) || (MAX_ARGUMENTS <? length argv)%nat = false
   /\ existsb (fun argument => negb (nonempty argument) || existsb is_control (chars argument)) argv = false
   /\ (MAX_REQUEST_BYTES <? encoded_size argv)%Z = false) <-> within_limits argv.
Proof.
  unfold within_limits. rewrite orb_false_iff, not_nonempty, Nat.ltb_ge, existsb_false, Z.ltb_ge.
  assert ((argv <> [] <-> 0 < length argv)%nat) as -> by (destruct argv; cbn; split; (done || lia)).
  assert (Forall (fun argument => negb (nonempty argument) || existsb is_control (chars argument) = false) argv <->
          Forall (fun argument => argument <> [] /\ Forall (fun c => is_control c = false) (chars argument)) argv) as ->.
  { split; intros H; apply (Forall_impl _ _ _ H); intros x; by rewrite orb_false_iff, not_nonempty, existsb_false. }
  tauto.
Qed.

(** The parser accepts the approved lines, all of them and no others, and says
    where OpenSSH is to connect and what it is to run there. *)
Lemma parse_approved `{Idna} line invocation : parse line = Ok invocation <-> argv invocation = line /\ approved invocation.
Proof.
  unfold parse. rewrite !err_if_bind_Ok. split.
  - intros (Hne & Hc & Hs & H2). apply bind_Ok in H2 as ([[dhost [hostname port]] remote] & Hscan & H2).
    apply scan_exact in Hscan as (words & dwords & destination & -> & Ho & Hd & Hh).
    apply err_if_bind_Ok in H2 as [Hr H2]. apply bind_Ok in H2 as (command & Hg & H2). apply bind_Ok in H2 as (host & Hn & [= <-]).
    apply parse_git_remote_argv_Ok in Hg. apply map_err_Ok in Hn. split; [done|]. split; [by apply within_limits_spec|].
    exists words, dwords, destination, dhost, hostname, port, remote. done.
  - intros (<- & Hl & words & dwords & destination & dhost & hostname & port & remote & Ha & Ho & Hd & Hh & Hg & Hn & Hp).
    apply within_limits_spec in Hl as (H1 & H2 & H3). split_and!; [done..|].
    assert (scan (None, 22%Z) (argv invocation) = Ok (dhost, (hostname, port), remote)) as ->.
    { rewrite Ha. apply scan_exact. by exists words, dwords, destination. }
    cbn. rewrite (proj2 (not_nonempty _) (git_command_nonempty _ _ Hg)). cbn.
    apply parse_git_remote_argv_Ok in Hg. rewrite Hg. cbn. unfold allowlist_error. rewrite Hn. cbn. subst port.
    by destruct invocation as [[] ? ?].
Qed.
End HostSshArgs.
