(* ===== verification/HostSsh.v ===== *)
(** * The host's OpenSSH service ([codex-start-proxy/src/host_ssh.rs])

    A request of the container is read behind its token, checked against the
    grammar of HostSshArgs.v and the allow-list, and run by the host's OpenSSH; the
    output, the errors and the exit code of the child come back in frames.  The
    tasks of a relay run interleaved: what they wait for is a list of events. *)

From S2P Require Export HostSshArgs HostServices.

(** [serde_json::to_vec] of a request. *)
Class SshRequestJson := request_to_vec : list str -> option str.
(** The start of a child process. *)
Class HostProcesses := spawn_process : str -> list str -> result Streams.io_error unit.

Module HostSsh.
Import HostServices(HostSshConfig, ssh_allowlist, ssh_config_program, ssh_relay).
Import Streams Auth Handshake Relay Allowlist HostSshArgs.

Definition MAX_RESPONSE_LINE : nat := 1024.
Definition OUTPUT_CHUNK_BYTES : nat := Z.to_nat (16 * 1024).
Arguments OUTPUT_CHUNK_BYTES : simpl never.
Definition FRAME_STDOUT : ascii := byte_at 1.
Definition FRAME_STDERR : ascii := byte_at 2.
Definition FRAME_EXIT : ascii := byte_at 3.

(** ** The relays of both ends

    One direction copies input as [pump] does; the other is a machine of its own,
    which ends the relay when it has its result: input that is still buffered gets
    50 ms. *)

Definition pump_input (self : Pump) (event : Completion) : option (result RelayError (Pump * bool)) :=
  match event with
  | ReadReturned bytes => if (OUTPUT_CHUNK_BYTES <? length bytes)%nat then None else pump self event
  | _ => pump self event
  end.

Section transfer.
Context {B Ev E A : Type}.

Record Session := mkSession { input : Pump; output : B; now : Z; last_activity : Z; draining : option Z }.
Inductive SessionEvent :=
  | Input (event : Completion)
  | Output (event : Ev)
  | Passed (nanoseconds : Z).
Inductive SessionTurn :=
  | Going (self : Session)
  | Gone (self : Session) (outcome : result E A).
Definition session_of (t : SessionTurn) : Session := match t with Going s | Gone s _ => s end.

Context (step : B -> Ev -> option (result E (B * bool))) (result_of : B -> option A) (of_relay : RelayError -> E).

Definition set_input (p : Pump) (active : bool) (self : Session) : Session :=
  mkSession p (output self) (now self) (if active then now self else last_activity self) (draining self).
Definition set_output (b : B) (active : bool) (self : Session) : Session :=
  mkSession (input self) b (now self) (if active then now self else last_activity self) (draining self).
Definition at_time (later : Z) (self : Session) : Session :=
  mkSession (input self) (output self) later (last_activity self) (draining self).

Definition wait_until_idle (idle_timeout : Z) (self : Session) : SessionTurn :=
  if (last_activity self + idle_timeout <=? now self)%Z then Gone self (Err (of_relay IdleTimeout)) else Going self.

Definition transfer (idle_timeout : Z) (self : Session) (event : SessionEvent) : option SessionTurn :=
  match event with
  | Output event =>
      r ← step (output self) event;
      Some (match r with
            | Ok (b, active) =>
                let next := set_output b active self in
                match result_of b with
                | Some a =>
                    if Relay.finished (input self) then Gone next (Ok a)
                    else Going (mkSession (input next) b (now next) (last_activity next) (Some (now next + DRAIN)%Z))
                | None => Going next
                end
            | Err e => Gone self (Err e)
            end)
  | Input event =>
      r ← pump_input (input self) event;
      Some (match r with
            | Ok (p, active) =>
                let next := set_input p active self in
                match result_of (output self) with
                | Some a => if Relay.finished p then Gone next (Ok a) else Going next
                | None => Going next
                end
            | Err e => Gone self (Err (of_relay e))
            end)
  | Passed nanoseconds =>
      let later := at_time (now self + nanoseconds) self in
      if negb (0 <? nanoseconds)%Z then None
      else match draining self, result_of (output self) with
           | Some deadline, Some a =>
               if (deadline <=? now later)%Z && (deadline <=? last_activity self + idle_timeout)%Z then Some (Gone later (Ok a))
               else Some (wait_until_idle idle_timeout later)
           | _, _ => Some (wait_until_idle idle_timeout later)
           end
  end.

Fixpoint run_session (idle_timeout : Z) (self : Session) (events : list SessionEvent) : option SessionTurn :=
  match events with
  | [] => Some (Going self)
  | event :: events =>
      match transfer idle_timeout self event with
      | Some (Going self) => run_session idle_timeout self events
      | Some turn => match events with [] => Some turn | _ => None end
      | None => None
      end
  end.
Definition relay_session (idle_timeout : Z) (start : B) (events : list SessionEvent) : option SessionTurn :=
  let self := mkSession pump_start start 0 0 None in
  match refuse_zero idle_timeout with
  | Ok _ => run_session idle_timeout self events
  | Err e => Some (Gone self (Err (of_relay e)))
  end.
End transfer.
Arguments Session : clear implicits.
Arguments SessionEvent : clear implicits.
Arguments SessionTurn : clear implicits.

(** ** Frames *)

Definition u32_bytes (n : Z) : str := map byte_at [n / 2 ^ 24 mod 256; n / 2 ^ 16 mod 256; n / 2 ^ 8 mod 256; n mod 256]%Z.
(** [read_u32] of four bytes. *)
Definition u32_value (bytes : str) : Z := foldl (fun acc b => acc * 256 + code b)%Z 0%Z bytes.

(** The [write_all] of a result that is used with [?]. *)
Definition write (bytes : str) : ST Conn io_error unit := fun c => Some (write_all bytes c).
Definition write_frame (kind : ascii) (payload : str) : ST Conn io_error unit :=
  write [kind] ;;
  throw_if (U32_MAX <? Z.of_nat (length payload))%Z ("host SSH frame is too large" : str) ;;
  write (u32_bytes (Z.of_nat (length payload))) ;;
  write payload.

(** ** The output of the child *)

Inductive Channel := Stdout | Stderr.
#[export] Instance Channel_eq_dec : EqDecision Channel.
Proof. solve_decision. Defined.
Definition frame_kind (channel : Channel) : ascii := match channel with Stdout => FRAME_STDOUT | Stderr => FRAME_STDERR end.

(** What [multiplex_child_output] waits for: the next bytes of a pipe that is
    open, or the rest of a frame, a [write_all] at a time. *)
Inductive MuxPhase :=
  | Selecting
  | Framing (segments : list str)
  | MuxFinished.
(** [taken] are the chunks read so far, [sent] the bytes written. *)
Record Mux := mkMux {
  mux_phase : MuxPhase;
  stdout_open : bool;
  stderr_open : bool;
  taken : list (Channel * str);
  sent : str }.
Definition mux_start : Mux := mkMux Selecting true true [] [].

Inductive MuxEvent :=
  | ChildRead (channel : Channel) (bytes : str)
  | ChildReadFailed (channel : Channel) (error : io_error)
  | FrameWrote (count : nat)
  | FrameWriteFailed (error : io_error).

Definition is_open (self : Mux) (channel : Channel) : bool :=
  match channel with Stdout => stdout_open self | Stderr => stderr_open self end.
Definition close_channel (self : Mux) (channel : Channel) : Mux :=
  let stdout := match channel with Stdout => false | Stderr => stdout_open self end in
  let stderr := match channel with Stdout => stderr_open self | Stderr => false end in
  mkMux (if stdout || stderr then Selecting else MuxFinished) stdout stderr (taken self) (sent self).
(** The writes of [write_frame]. *)
Definition frame_segments (kind : ascii) (payload : str) : list str := [[kind]; u32_bytes (Z.of_nat (length payload)); payload].

Definition multiplex_child_output (self : Mux) (event : MuxEvent) : option (result RelayError (Mux * bool)) :=
  match mux_phase self, event with
  | Selecting, ChildRead channel bytes =>
      if negb (is_open self channel) || (OUTPUT_CHUNK_BYTES <? length bytes)%nat then None
      else match bytes with
           | [] => Some (Ok (close_channel self channel, false))
           | _ => Some (Ok (mkMux (Framing (frame_segments (frame_kind channel) bytes)) (stdout_open self) (stderr_open self)
                              (taken self ++ [(channel, bytes)]) (sent self), false))
           end
  | Selecting, ChildReadFailed channel error => if is_open self channel then Some (Err (Handshake.Io error)) else None
  | Framing (segment :: segments), FrameWrote n =>
      if (n =? 0)%nat then Some (Err (Handshake.Io "failed to write whole buffer"))
      else if (length segment <? n)%nat then None
      else
        let next phase := mkMux phase (stdout_open self) (stderr_open self) (taken self) (sent self ++ take n segment) in
        match drop n segment, segments with
        | [], [] => Some (Ok (next Selecting, true))
        | [], _ => Some (Ok (next (Framing segments), false))
        | rest, _ => Some (Ok (next (Framing (rest :: segments)), false))
        end
  | Framing _, FrameWriteFailed error => Some (Err (Handshake.Io error))
  | _, _ => None
  end.
Definition mux_result (self : Mux) : option unit := match mux_phase self with MuxFinished => Some tt | _ => None end.

Definition transfer_child_streams := transfer multiplex_child_output mux_result id.
Definition relay_child_streams (idle_timeout : Z) (events : list (SessionEvent MuxEvent)) : option (SessionTurn Mux RelayError unit) :=
  relay_session multiplex_child_output mux_result id idle_timeout mux_start events.

(** ** What the client receives *)

(** What [receive_output_frames] waits for. *)
Inductive RecvPhase :=
  | KindWanted
  | LengthWanted (kind : ascii) (got : str)
  | PayloadWanted (channel : Channel) (wanted : nat) (got : str)
  | PayloadWriting (channel : Channel) (pending : str)
  | ExitWanted
  | FlushingOutput (code : ascii)
  | FlushingError (code : ascii)
  | Exited (code : ascii).
(** [consumed] are the bytes read from the socket. *)
Record Recv := mkRecv { recv_phase : RecvPhase; consumed : str; to_stdout : str; to_stderr : str }.
Definition recv_start : Recv := mkRecv KindWanted [] [] [].
Inductive RecvEvent :=
  | SocketRead (bytes : str)
  | SocketReadFailed (error : io_error)
  | OutputWrote (count : nat)
  | OutputWriteFailed (error : io_error)
  | Flushed
  | FlushFailed (error : io_error).

Definition channel_of (kind : ascii) : option Channel :=
  if is_byte kind FRAME_STDOUT then Some Stdout else if is_byte kind FRAME_STDERR then Some Stderr else None.
(** The phase after a header. *)
Definition header (kind : ascii) (length : Z) : result HostSshError RecvPhase :=
  match channel_of kind with
  | Some channel =>
      if (1 <=? length)%Z && (length <=? Z.of_nat OUTPUT_CHUNK_BYTES)%Z then Ok (PayloadWanted channel (Z.to_nat length) [])
      else Err InvalidFrame
  | None => if is_byte kind FRAME_EXIT && (length =? 1)%Z then Ok ExitWanted else Err InvalidFrame
  end.
(** The bytes that a phase may read at once. *)
Definition wanted_bytes (phase : RecvPhase) : nat :=
  match phase with
  | KindWanted | ExitWanted => 1
  | LengthWanted _ got => 4 - length got
  | PayloadWanted _ wanted got => wanted - length got
  | _ => 0
  end.
(** The phase after a read. *)
Definition read_bytes (phase : RecvPhase) (bytes : str) : result HostSshError RecvPhase :=
  match phase, bytes with
  | KindWanted, [kind] => Ok (LengthWanted kind [])
  | ExitWanted, [code] => Ok (FlushingOutput code)
  | LengthWanted kind got, _ =>
      if (length (got ++ bytes) <? 4)%nat then Ok (LengthWanted kind (got ++ bytes)) else header kind (u32_value (got ++ bytes))
  | PayloadWanted channel wanted got, _ =>
      if (length (got ++ bytes) <? wanted)%nat then Ok (PayloadWanted channel wanted (got ++ bytes))
      else Ok (PayloadWriting channel (got ++ bytes))
  | _, _ => Ok phase
  end.
Definition eof_text (phase : RecvPhase) : io_error :=
  match phase with PayloadWanted _ _ _ => "early eof" | _ => "unexpected end of file" end.

Definition set_recv (phase : RecvPhase) (self : Recv) : Recv := mkRecv phase (consumed self) (to_stdout self) (to_stderr self).
Definition wrote (channel : Channel) (bytes : str) (phase : RecvPhase) (self : Recv) : Recv :=
  match channel with
  | Stdout => mkRecv phase (consumed self) (to_stdout self ++ bytes) (to_stderr self)
  | Stderr => mkRecv phase (consumed self) (to_stdout self) (to_stderr self ++ bytes)
  end.

Definition receive_output_frames (self : Recv) (event : RecvEvent) : option (result HostSshError (Recv * bool)) :=
  match event with
  | SocketRead bytes =>
      if (wanted_bytes (recv_phase self) =? 0)%nat || (wanted_bytes (recv_phase self) <? length bytes)%nat then None
      else match bytes with
           | [] => Some (Err (Io (eof_text (recv_phase self))))
           | _ => Some (match read_bytes (recv_phase self) bytes with
                        | Ok phase => Ok (mkRecv phase (consumed self ++ bytes) (to_stdout self) (to_stderr self), false)
                        | Err e => Err e
                        end)
           end
  | SocketReadFailed error => if (wanted_bytes (recv_phase self) =? 0)%nat then None else Some (Err (Io error))
  | OutputWrote n =>
      match recv_phase self with
      | PayloadWriting channel pending =>
          if (n =? 0)%nat then Some (Err (Io "failed to write whole buffer"))
          else if (length pending <? n)%nat then None
          else match drop n pending with
               | [] => Some (Ok (wrote channel (take n pending) KindWanted self, true))
               | rest => Some (Ok (wrote channel (take n pending) (PayloadWriting channel rest) self, false))
               end
      | _ => None
      end
  | OutputWriteFailed error => match recv_phase self with PayloadWriting _ _ => Some (Err (Io error)) | _ => None end
  | Flushed =>
      match recv_phase self with
      | FlushingOutput code => Some (Ok (set_recv (FlushingError code) self, false))
      | FlushingError code => Some (Ok (set_recv (Exited code) self, false))
      | _ => None
      end
  | FlushFailed error =>
      match recv_phase self with FlushingOutput _ | FlushingError _ => Some (Err (Io error)) | _ => None end
  end.
Definition recv_result (self : Recv) : option ascii := match recv_phase self with Exited code => Some code | _ => None end.

(** An error of an input pump as the client reports it. *)
Definition client_error (e : RelayError) : HostSshError :=
  match e with Handshake.Io source => Io source | e => OfRelay e end.
Definition transfer_client_streams := transfer receive_output_frames recv_result client_error.
Definition relay_client_streams (idle_timeout : Z) (events : list (SessionEvent RecvEvent)) : option (SessionTurn Recv HostSshError ascii) :=
  relay_session receive_output_frames recv_result client_error idle_timeout recv_start events.

(** ** The protocol *)

Notation M := (ST Conn HostSshError) (only parsing).
Definition of_errors {E A} (f : E -> HostSshError) (m : ST Conn E A) : M A := fun c =>
  '(r, c) ← m c; Some (map_err f r, c).
(** An operation under the time limit of a request. *)
Definition request_error (e : RelayError) : HostSshError :=
  match e with HandshakeTimeout => RequestTimeout | Handshake.Io source => Io source | e => OfRelay e end.
Definition within_timeout {A} : ST Conn RelayError A -> M A := of_errors request_error.

Definition read_u32 : ST Conn RelayError Z :=
  bytes ← read_exact_loop 4 4 [] "unexpected end of file"; mret (u32_value bytes).

(** The derived [Deserialize] of a request, which refuses unknown fields. *)
Definition string_content (c : JsonContent) : option str := match c with ContentString value => Some value | _ => None end.
Definition ssh_request (c : JsonContent) : option (list str) :=
  match c with
  | ContentMap [(key, ContentSeq values)] => if key =s? "argv" then mapM string_content values else None
  | ContentSeq [ContentSeq values] => mapM string_content values
  | _ => None
  end.

Definition read_request `{ContentJson} : M (list str) :=
  length ← within_timeout read_u32;
  throw_if ((length =? 0) || (MAX_REQUEST_BYTES <? length))%Z RequestTooLarge ;;
  bytes ← within_timeout (read_exact (Z.to_nat length));
  lift (ok_or (c ← content_from_slice bytes; ssh_request c) InvalidRequest).

Definition OK_LINE : str := "OK" ++ [LF].
Definition DENIED_LINE : str := "ERR request denied" ++ [LF].
(** What fails here is ignored. *)
Definition send_denied : M unit := fun c =>
  let '(_, c) := write_all DENIED_LINE c in
  let '(_, c) := shutdown c in
  Some (Ok tt, c).

(** A checked request: its invocation, or an error behind a denial. *)
Definition admit_request `{Idna, ContentJson} (config : HostSshConfig) : M SshInvocation :=
  request ← attempt read_request;
  match request with
  | Err error => send_denied ;; throw error
  | Ok argv =>
      match parse argv with
      | Ok invocation =>
          if allows (ssh_allowlist config) (ssh_authority invocation) then mret invocation
          else send_denied ;; throw (DestinationDenied (ssh_authority invocation))
      | Err error => send_denied ;; throw error
      end
  end.

(** What a request comes to: its error, the connection, the child it spawned and
    the relay. *)
Record Served := mkServed {
  outcome : result HostSshError unit;
  stream_after : Conn;
  spawned : option (str * list str);
  child_relay : option (Session Mux);
  killed : bool }.

(** [ExitStatus::code] is [None] for a child ended by a signal. *)
Definition conventional_exit_code (code : option Z) : Z :=
  default 255%Z (code ← code; if (0 <=? code)%Z && (code <=? 255)%Z then Some code else None).
Definition ssh_arguments (invocation : SshInvocation) : list str := strs ["-T"; "-o"; "BatchMode=yes"] ++ argv invocation.

(** The end of a request whose child is [exit]ing: the frame of its exit code. *)
Definition finish_child (exit : result Interruption (option Z)) : M unit :=
  match exit with
  | Err Elapsed => throw (OfRelay IdleTimeout)
  | Err (IoFailed source) => throw (Wait source)
  | Ok status =>
      of_errors Io (write_frame FRAME_EXIT [byte_at (conventional_exit_code status)]) ;;
      of_errors Io (fun c => Some (shutdown c))
  end.

(** The whole request: [events] are those of the relay, [exit] is the end of
    [child.wait]. *)
Definition handle_server_request `{Sha256, Idna, ContentJson, HostProcesses} (stream : Conn) (token : AuthToken) (config : HostSshConfig)
    (events : list (SessionEvent MuxEvent)) (exit : result Interruption (option Z)) : option Served :=
  match (of_errors OfRelay (authenticate_server token) ;; admit_request config) stream with
  | None => None
  | Some (Err error, stream) => Some (mkServed (Err error) stream None None false)
  | Some (Ok invocation, stream) =>
      let program := ssh_config_program config in
      let arguments := ssh_arguments invocation in
      match spawn_process program arguments with
      | Err source => Some (mkServed (Err (Spawn program source)) stream None None false)
      | Ok _ =>
          let child := Some (program, arguments) in
          match write_all OK_LINE stream with
          | (Err source, stream) => Some (mkServed (Err (Io source)) stream child None true)
          | (Ok _, stream) =>
              match relay_child_streams (idle_timeout (ssh_relay config)) events with
              | Some (Gone session (Err error)) =>
                  Some (mkServed (Err (OfRelay error)) (append (sent (output session)) (write_faults stream) stream) child (Some session) true)
              | Some (Gone session (Ok _)) =>
                  '(r, stream) ← finish_child exit (append (sent (output session)) (write_faults stream) stream);
                  Some (mkServed r stream child (Some session) (negb (is_ok exit)))
              | _ => None
              end
          end
      end
  end.

(** The accept loop, over what the runtime delivers. *)
Definition accept_error (e : RelayError) : HostSshError :=
  match e with Handshake.Accept source => Accept source | e => OfRelay e end.
Definition serve_host_ssh (config : HostSshConfig) (events : list ServeEvent) : option (Accepting + result HostSshError unit) :=
  let relay := ssh_relay config in
  if (max_connections relay =? 0)%nat || (handshake_timeout relay =? 0)%Z || (idle_timeout relay =? 0)%Z then Some (inr (Err InvalidConfig))
  else match serve_loop relay (mkAccepting 0 0) events with
       | Some (inl self) => Some (inl self)
       | Some (inr r) => Some (inr (map_err accept_error r))
       | None => None
       end.

(** ** The client *)

(** [pop] of a carriage return at the end of a line. *)
Definition without_cr (line : str) : str := default line (strip_suffix [CR] line).
Fixpoint response_line (fuel : nat) (line : str) : ST Conn HostSshError str :=
  match fuel with
  | O => diverge
  | S fuel =>
      byte ← within_timeout read_u8;
      if is_byte byte LF then mret (without_cr line)
      else if (MAX_RESPONSE_LINE <=? length line)%nat then throw InvalidResponse
      else response_line fuel (line ++ [byte])
  end.
Definition read_response_line : M str := response_line (S MAX_RESPONSE_LINE) [].

(** The request on the wire. *)
Definition send_request `{SshRequestJson} (argv : list str) : M unit :=
  request ← lift (ok_or (request_to_vec argv) EncodeRequest);
  throw_if (MAX_REQUEST_BYTES <? Z.of_nat (length request))%Z RequestTooLarge ;;
  of_errors Io (write (u32_bytes (Z.of_nat (length request)))) ;;
  of_errors Io (write request).

Definition client_hello `{Idna, SshRequestJson} (token : AuthToken) (argv : list str) : M unit :=
  lift (parse argv) ;;
  of_errors OfRelay (authenticate_client token) ;;
  send_request argv ;;
  response ← read_response_line;
  throw_if (negb (response =s? "OK")) ServerDenied.

Definition host_ssh_client_stream `{Idna, SshRequestJson} (stream : Conn) (token : AuthToken) (argv : list str) (config : RelayConfig)
    (events : list (SessionEvent RecvEvent)) : option (result HostSshError ascii * Conn * option (Session Recv)) :=
  match client_hello token argv stream with
  | None => None
  | Some (Err error, stream) => Some (Err error, stream, None)
  | Some (Ok _, stream) =>
      match relay_client_streams (idle_timeout config) events with
      | Some (Gone session outcome) => Some (outcome, stream, Some session)
      | _ => None
      end
  end.
Definition run_host_ssh_client `{Idna, SshRequestJson, RelayNetwork} (remote : str) (stream : Conn) (token : AuthToken) (argv : list str)
    (config : RelayConfig) (events : list (SessionEvent RecvEvent)) : option (result HostSshError ascii * Conn * option (Session Recv)) :=
  match connect_tcp remote with
  | Err Elapsed => Some (Err (ConnectTimeout remote), stream, None)
  | Err (IoFailed source) => Some (Err (Connect remote source), stream, None)
  | Ok _ => host_ssh_client_stream stream token argv config events
  end.
End HostSsh.
