(* ===== verification/HostSshFacts.v ===== *)
(** * What the host's OpenSSH service runs, and what comes back

    A child is spawned only for an approved command line behind a token that
    matches, and only where the allow-list lets it connect; what the child writes
    arrives at the client, channel by channel, with its exit code. *)

From S2P Require Export HostSsh Concrete.

Module HostSshFacts.
Import Streams Auth Handshake Relay Allowlist HostSshArgs HostSsh.
Import HostServices(HostSshConfig, mkHostSshConfig, ssh_allowlist, ssh_config_program, ssh_relay).

(** ** Frames on the wire *)

Definition frame (kind : ascii) (payload : str) : str := kind :: u32_bytes (Z.of_nat (length payload)) ++ payload.
Definition encode_chunk (chunk : Channel * str) : str := frame (frame_kind chunk.1) chunk.2.
Definition encode (chunks : list (Channel * str)) : str := concat (map encode_chunk chunks).
Definition chunk_ok (chunk : Channel * str) : Prop := (0 < length chunk.2 <= OUTPUT_CHUNK_BYTES)%nat.
Definition exit_frame (code : ascii) : str := frame FRAME_EXIT [code].
(** The bytes of one channel. *)
Definition channel_bytes (channel : Channel) (chunks : list (Channel * str)) : str :=
  concat (map snd (List.filter (fun chunk => bool_decide (chunk.1 = channel)) chunks)).

Lemma encode_app l l' : encode (l ++ l') = encode l ++ encode l'.
Proof. unfold encode. by rewrite map_app, concat_app. Qed.
Lemma channel_bytes_app channel l l' : channel_bytes channel (l ++ l') = channel_bytes channel l ++ channel_bytes channel l'.
Proof. unfold channel_bytes. by rewrite List.filter_app, map_app, concat_app. Qed.
Lemma channel_bytes_one channel c bytes :
  channel_bytes channel [(c, bytes)] = if bool_decide (c = channel) then bytes else [].
Proof. unfold channel_bytes. cbn. case_bool_decide; cbn; by rewrite ?app_nil_r. Qed.

Lemma chunk_size : Z.of_nat OUTPUT_CHUNK_BYTES = 16384%Z.
Proof. reflexivity. Qed.
Ltac chunk_lia := pose proof chunk_size; lia.

(** ** Four-byte lengths *)

Lemma length_u32_bytes n : length (u32_bytes n) = 4%nat.
Proof. done. Qed.
Lemma u32_value_bytes n : (0 <= n < 2 ^ 32)%Z -> u32_value (u32_bytes n) = n.
Proof.
  intros Hn. unfold u32_value, u32_bytes. cbn [map foldl]. rewrite !code_byte_at by (apply Z.mod_pos_bound; lia).
  change (n / 2 ^ 8 mod 256)%Z with (n / 256 mod 256)%Z. change (2 ^ 24)%Z with (256 * 256 * 256)%Z. change (2 ^ 16)%Z with (256 * 256)%Z.
  rewrite <- !Z.div_div by lia. pose proof (Z.div_mod n 256). pose proof (Z.div_mod (n / 256) 256).
  pose proof (Z.div_mod (n / 256 / 256) 256). assert (n / 256 / 256 / 256 < 256)%Z.
  { rewrite !Z.div_div by lia. apply Z.div_lt_upper_bound; lia. }
  assert (0 <= n / 256 / 256 / 256)%Z by (repeat apply Z.div_pos; lia).
  rewrite (Z.mod_small (n / 256 / 256 / 256)) by lia. lia.
Qed.
Lemma last_digit q r : (0 <= r < 256)%Z -> ((q * 256 + r) / 256 = q /\ (q * 256 + r) mod 256 = r)%Z.
Proof. intros Hr. rewrite Z.div_add_l, Z.div_small, Z.add_0_r, (Z.add_comm (q * 256)), Z.mod_add, Z.mod_small by lia. done. Qed.
Lemma u32_bytes_value bytes : length bytes = 4%nat -> u32_bytes (u32_value bytes) = bytes.
Proof.
  destruct bytes as [|a [|b [|c [|d [|]]]]]; try done. intros _. unfold u32_value, u32_bytes. cbn [map foldl].
  change (2 ^ 8)%Z with 256%Z. change (2 ^ 24)%Z with (256 * 256 * 256)%Z. change (2 ^ 16)%Z with (256 * 256)%Z.
  rewrite <- !Z.div_div by lia.
  repeat match goal with |- context [((?q * 256 + code ?r) / 256)%Z] => rewrite (proj1 (last_digit q (code r) (code_bounds r))) end.
  by rewrite !(fun q r => proj2 (last_digit q (code r) (code_bounds r))), !byte_at_code.
Qed.
Lemma u32_value_bounds bytes : length bytes = 4%nat -> (0 <= u32_value bytes < 2 ^ 32)%Z.
Proof.
  destruct bytes as [|a [|b [|c [|d [|]]]]]; try done. intros _. unfold u32_value. cbn [foldl].
  pose proof (code_bounds a). pose proof (code_bounds b). pose proof (code_bounds c). pose proof (code_bounds d). lia.
Qed.

(** ** Frames read back *)

Lemma frame_kind_inj c d : frame_kind c = frame_kind d -> c = d.
Proof. by destruct c, d. Qed.
Lemma frame_kind_exit c : frame_kind c <> FRAME_EXIT.
Proof. by destruct c. Qed.
Lemma channel_of_Some kind channel : channel_of kind = Some channel <-> kind = frame_kind channel.
Proof.
  unfold channel_of. split.
  - destruct (is_byte kind FRAME_STDOUT) eqn:E1; [|destruct (is_byte kind FRAME_STDERR) eqn:E2; [|done]]; intros [= <-]; by apply is_byte_true.
  - intros ->. by destruct channel.
Qed.

Lemma prefix_split {A} (a a' x y : list A) : length a = length a' -> a ++ x `prefix_of` a' ++ y -> a = a' /\ x `prefix_of` y.
Proof. intros Hl [k Hk]. rewrite <- app_assoc in Hk. apply app_inj_1 in Hk as [-> Hk]; [|done]. split; [done|by exists k]. Qed.
Lemma prefix_cons_split {A} (a b : A) x y : a :: x `prefix_of` b :: y -> a = b /\ x `prefix_of` y.
Proof. intros [k Hk]. cbn in Hk. simplify_eq. split; [done|by exists k]. Qed.

(** A header at the front of a frame fixes its kind and length. *)
Lemma header_unique kind size kind' payload x y : (0 <= size < 2 ^ 32)%Z -> (length payload <= OUTPUT_CHUNK_BYTES)%nat ->
  kind :: u32_bytes size ++ x `prefix_of` frame kind' payload ++ y ->
  kind = kind' /\ size = Z.of_nat (length payload) /\ x `prefix_of` payload ++ y.
Proof.
  intros Hs Hp Hx. unfold frame in Hx. cbn [app] in Hx. apply prefix_cons_split in Hx as [-> Hx]. rewrite <- app_assoc in Hx.
  apply prefix_split in Hx as [Hu Hx]; [|done]. apply (f_equal u32_value) in Hu. rewrite !u32_value_bytes in Hu by chunk_lia. done.
Qed.
Lemma prefix_frames fs cs code x : Forall chunk_ok fs -> Forall chunk_ok cs ->
  encode fs ++ x `prefix_of` encode cs ++ exit_frame code -> exists rest, cs = fs ++ rest /\ x `prefix_of` encode rest ++ exit_frame code.
Proof.
  intros Hf. revert cs. induction Hf as [|[channel bytes] fs Hb Hf IH]; intros cs Hc Hx; [by exists cs|].
  unfold encode in Hx. cbn [map concat] in Hx. fold (encode fs) in Hx. rewrite <- app_assoc in Hx. unfold encode_chunk at 1, frame in Hx. cbn [fst snd app] in Hx.
  rewrite <- app_assoc in Hx. unfold chunk_ok in Hb. cbn [snd] in Hb. destruct cs as [|[channel' bytes'] cs].
  - cbn [concat map app] in Hx. rewrite <- (app_nil_r (exit_frame code)) in Hx. apply header_unique in Hx as (Hk & _); [|chunk_lia|change (1 <= OUTPUT_CHUNK_BYTES)%nat; chunk_lia].
    by apply frame_kind_exit in Hk.
  - cbn [map concat] in Hx. rewrite <- app_assoc in Hx. apply Forall_cons in Hc as [Hb' Hc]. unfold chunk_ok in Hb'. cbn [snd] in Hb'.
    apply header_unique in Hx as (Hk & Hl & Hx); [|chunk_lia|exact (proj2 Hb')]. cbn [fst snd] in *. apply frame_kind_inj in Hk as <-. apply Nat2Z.inj in Hl.
    apply prefix_split in Hx as [<- Hx]; [|done]. apply (IH cs Hc) in Hx as (rest & -> & Hx). by exists rest.
Qed.

(** ** Runs of a session *)

Section driven.
Context {B Ev E A : Type} (step : B -> Ev -> option (result E (B * bool))) (result_of : B -> option A) (of_relay : RelayError -> E).

(** The machine of the output over the events that concern it. *)
Inductive driven : B -> list Ev -> B -> Prop :=
  | driven_none b : driven b [] b
  | driven_more b event b1 active events b2 : step b event = Some (Ok (b1, active)) -> driven b1 events b2 -> driven b (event :: events) b2.
Definition output_events (events : list (SessionEvent Ev)) : list Ev :=
  omap (fun event => match event with Output event => Some event | _ => None end) events.

(** How a session ends: with the result of a finished output, with an error of
    the output, or with one of the input or the clock. *)
Definition ended_well (start : B) (events : list (SessionEvent Ev)) (turn : SessionTurn B E A) : Prop :=
  match turn with
  | Going s => driven start (output_events events) (output s)
  | Gone s (Ok a) => driven start (output_events events) (output s) /\ result_of (output s) = Some a
  | Gone s (Err e) =>
      (exists seen last, output_events events = seen ++ [last] /\ driven start seen (output s) /\ step (output s) last = Some (Err e))
      \/ driven start (output_events events) (output s) /\ (e = of_relay IdleTimeout \/ exists source, e = of_relay (Handshake.Io source))
  end.

Lemma pump_input_failed p event e : pump_input p event = Some (Err e) -> exists source, e = Handshake.Io source.
Proof.
  intros H. assert (pump p event = Some (Err e)) as Hp by (revert H; unfold pump_input; repeat case_match; done).
  by apply pump_failed in Hp as [_ ?].
Qed.

Lemma transfer_ended idle self event turn : transfer step result_of of_relay idle self event = Some turn ->
  ended_well (output self) [event] turn.
Proof.
  unfold transfer. destruct event as [event|event|nanoseconds]; intros H.
  - apply bind_Some in H as (r & Hr & [= <-]). destruct r as [[p active]|e].
    + unfold ended_well. cbn. destruct (result_of (output self)) as [a|] eqn:Ea; [destruct (Relay.finished p)|]; cbn; try split; try apply driven_none. done.
    + destruct (pump_input_failed _ _ _ Hr) as [source ->]. right. split; [apply driven_none|right; by exists source].
  - apply bind_Some in H as (r & Hr & [= <-]). destruct r as [[b active]|e].
    + assert (driven (output self) [event] b) by (econstructor; [done|constructor]).
      cbn. destruct (result_of b) as [a|] eqn:Ea; [destruct (Relay.finished (input self))|]; done.
    + left. exists [], event. split_and!; [done|constructor|done].
  - destruct (negb (0 <? nanoseconds)%Z); [done|].
    assert (forall s, output s = output self -> ended_well (output self) [Passed nanoseconds] (wait_until_idle (A:=A) of_relay idle s)) as Hw.
    { intros s Hs. unfold wait_until_idle, ended_well. rewrite <- Hs. destruct (_ <=? _)%Z; [right; split; [constructor|by left]|constructor]. }
    destruct (draining self), (result_of (output self)) as [a|] eqn:Ea; [destruct (_ && _)|..]; injection H as <-; try by apply Hw.
    split; [constructor|done].
Qed.

Lemma driven_app b l b1 l' b2 : driven b l b1 -> driven b1 l' b2 -> driven b (l ++ l') b2.
Proof. induction 1; [done|]. intros. cbn. econstructor; eauto. Qed.

Lemma ended_before start first s rest turn : driven start (output_events first) (output s) ->
  ended_well (output s) rest turn -> ended_well start (first ++ rest) turn.
Proof.
  intros Hd. unfold ended_well, output_events. rewrite omap_app. destruct turn as [s'|s' [a|e]].
  - by apply driven_app.
  - intros [H Hr]. split; [by eapply driven_app|done].
  - intros [(seen & last & -> & H & He)|[H He]]; [left|right; split; [by eapply driven_app|done]].
    eexists (_ ++ seen), last. split_and!; [by rewrite app_assoc|by eapply driven_app|done].
Qed.
Lemma run_session_ended idle self events turn : run_session step result_of of_relay idle self events = Some turn ->
  ended_well (output self) events turn.
Proof.
  revert self. induction events as [|event events IH]; intros self H; [injection H as <-; constructor|]. cbn in H.
  destruct (transfer _ _ _ idle self event) as [[s|s r]|] eqn:Et; [|destruct events; [|done]|done]; apply transfer_ended in Et.
  - apply (ended_before _ [event] s); [done|by apply IH].
  - by injection H as <-.
Qed.
Lemma relay_session_ended idle start events turn : relay_session step result_of of_relay idle start events = Some turn ->
  ended_well start events turn \/ turn = Gone (mkSession pump_start start 0 0 None) (Err (of_relay (Handshake.InvalidConfig "idle_timeout must be non-zero"))).
Proof.
  unfold relay_session, refuse_zero, err_if. destruct (idle =? 0)%Z; [intros [= <-]; by right|]. intros H. left. by apply run_session_ended in H.
Qed.

(** What every turn of the machine keeps. *)
Lemma driven_keeps (P : B -> Prop) b events b' : (forall b event b1 active, step b event = Some (Ok (b1, active)) -> P b -> P b1) ->
  driven b events b' -> P b -> P b'.
Proof. intros Hs. induction 1; eauto. Qed.
End driven.

(** ** The frames of the child's output *)

Definition mux_ok (m : Mux) : Prop :=
  Forall chunk_ok (taken m) /\
  match mux_phase m with
  | Framing segments => encode (taken m) = sent m ++ concat segments
  | _ => encode (taken m) = sent m
  end.
(** The chunk that an event brings. *)
Definition chunk_of (event : MuxEvent) : list (Channel * str) :=
  match event with ChildRead channel (b :: bytes) => [(channel, b :: bytes)] | _ => [] end.
Definition child_chunks (events : list MuxEvent) : list (Channel * str) := concat (map chunk_of events).

Lemma frame_segments_concat kind payload : concat (frame_segments kind payload) = frame kind payload.
Proof. unfold frame_segments, frame. cbn [concat app]. by rewrite app_nil_r. Qed.
Lemma mux_step m event m' active : multiplex_child_output m event = Some (Ok (m', active)) -> mux_ok m ->
  mux_ok m' /\ taken m' = taken m ++ chunk_of event.
Proof.
  unfold multiplex_child_output, mux_ok. intros H [Hf Hp]. destruct (mux_phase m) as [|[|segment segments]|] eqn:Ephase, event as [channel bytes|channel e|n|e]; try done.
  - destruct (negb _ || _) eqn:E; [done|]. bool_split. destruct bytes as [|b bytes]; injection H as <- <-; cbn [mux_phase taken sent chunk_of].
    + rewrite app_nil_r. unfold close_channel. cbn [taken sent mux_phase]. split; [split; [done|destruct (_ || _); exact Hp]|done].
    + rewrite encode_app, Hp. split; [|done]. split; [apply Forall_app; split; [done|]; constructor; [|done]; unfold chunk_ok; cbn [snd length]; cbn [length] in *; lia|].
      rewrite frame_segments_concat. unfold encode. cbn. by rewrite app_nil_r.
  - destruct (is_open m channel); done.
  - destruct (n =? 0)%nat; [done|]. destruct (length segment <? n)%nat; [done|]. cbn [chunk_of]. rewrite app_nil_r.
    assert (encode (taken m) = (sent m ++ take n segment) ++ drop n segment ++ concat segments) as Hp'.
    { rewrite Hp. cbn [concat]. rewrite <- (take_drop n segment) at 1. by rewrite <- !app_assoc. }
    destruct (drop n segment) as [|d ds], segments as [|s2 segments]; injection H as <- <-; cbn [mux_phase taken sent concat app] in *;
      rewrite ?app_nil_r in *; done.
Qed.
Lemma mux_driven m events m' : driven multiplex_child_output m events m' -> mux_ok m ->
  mux_ok m' /\ taken m' = taken m ++ child_chunks events.
Proof.
  intros Hd. induction Hd as [m|m event m1 active events m2 Hs _ IH]; intros Hok.
  { unfold child_chunks. cbn. by rewrite app_nil_r. }
  destruct (mux_step _ _ _ _ Hs Hok) as [Hok1 Ht]. destruct (IH Hok1) as [Hok2 Ht2]. split; [done|].
  unfold child_chunks in *. cbn. by rewrite Ht2, Ht, app_assoc.
Qed.

(** ** The frames that the client reads *)

(** What the client has read and written in each phase, behind complete frames. *)
Definition in_phase (phase : RecvPhase) (seen : str) (pending : list (Channel * str)) : Prop :=
  match phase with
  | KindWanted => seen = [] /\ pending = []
  | LengthWanted kind got => seen = kind :: got /\ (length got < 4)%nat /\ pending = []
  | PayloadWanted channel wanted got =>
      seen = frame_kind channel :: u32_bytes (Z.of_nat wanted) ++ got /\ (length got < wanted <= OUTPUT_CHUNK_BYTES)%nat /\ pending = []
  | PayloadWriting channel rest =>
      seen = [] /\ pending = [(channel, rest)] /\ rest <> []
  | ExitWanted => seen = FRAME_EXIT :: u32_bytes 1 /\ pending = []
  | FlushingOutput code | FlushingError code | Exited code => seen = exit_frame code /\ pending = []
  end.
Definition recv_ok (r : Recv) : Prop := exists frames seen pending,
  Forall chunk_ok frames /\ in_phase (recv_phase r) seen pending /\ consumed r = encode frames ++ seen /\
  channel_bytes Stdout frames = to_stdout r ++ channel_bytes Stdout pending /\
  channel_bytes Stderr frames = to_stderr r ++ channel_bytes Stderr pending.
Definition read_of (event : RecvEvent) : str := match event with SocketRead bytes => bytes | _ => [] end.
Definition socket_reads (events : list RecvEvent) : str := concat (map read_of events).

Lemma recv_start_ok : recv_ok recv_start.
Proof. by exists [], [], []. Qed.
Lemma header_Ok kind n phase : header kind n = Ok phase ->
  (exists channel, kind = frame_kind channel /\ (1 <= n <= Z.of_nat OUTPUT_CHUNK_BYTES)%Z /\ phase = PayloadWanted channel (Z.to_nat n) [])
  \/ (kind = FRAME_EXIT /\ n = 1%Z /\ phase = ExitWanted).
Proof.
  unfold header. destruct (channel_of kind) as [channel|] eqn:E.
  - apply channel_of_Some in E. destruct (_ && _) eqn:Eb; [|done]. intros [= <-]. bool_split. left. by exists channel.
  - destruct (_ && _) eqn:Eb; [|done]. intros [= <-]. bool_split. right. by apply is_byte_true in H.
Qed.
(** The bytes of a read move a phase on. *)
Lemma read_bytes_phase phase bytes phase' seen pending : read_bytes phase bytes = Ok phase' -> bytes <> [] ->
  (wanted_bytes phase <> 0)%nat -> (length bytes <= wanted_bytes phase)%nat -> in_phase phase seen pending ->
  pending = [] /\
  (in_phase phase' (seen ++ bytes) [] \/
   exists channel payload, phase' = PayloadWriting channel payload /\ chunk_ok (channel, payload) /\ seen ++ bytes = encode_chunk (channel, payload)).
Proof.
  intros Hr Hne Hw Hl Hp. destruct phase as [|kind got|channel wanted got| | | | |]; try done; cbn [read_bytes wanted_bytes in_phase] in *.
  - destruct Hp as [-> ->]. destruct bytes as [|b [|]]; [done| |cbn in Hl; lia]. injection Hr as <-. split; [done|left]. cbn. split_and!; [done|lia|done].
  - destruct Hp as (-> & Hg & ->). split; [done|]. destruct (length (got ++ bytes) <? 4)%nat eqn:E; bool_split.
    { injection Hr as <-. left. split_and!; [done|done|done]. }
    rewrite length_app in E. assert (length (got ++ bytes) = 4)%nat as H4 by (rewrite length_app; lia).
    apply header_Ok in Hr as [(channel & -> & Hb & ->)|(-> & Hn & ->)]; left; cbn [in_phase app].
    + pose proof (u32_value_bounds _ H4). rewrite Z2Nat.id by lia. rewrite app_nil_r, u32_bytes_value by done. split_and!; [done|cbn; lia|lia|done].
    + rewrite <- (u32_bytes_value _ H4), Hn. done.
  - destruct Hp as (-> & Hg & ->). split; [done|]. destruct (length (got ++ bytes) <? wanted)%nat eqn:E; bool_split.
    { injection Hr as <-. left. cbn [in_phase app]. rewrite <- app_assoc. split_and!; [done|lia|lia|done]. }
    injection Hr as <-. right. exists channel, (got ++ bytes). rewrite length_app in E.
    assert (length (got ++ bytes) = wanted)%nat as Hlen by (rewrite length_app; lia).
    split; [done|]. unfold chunk_ok, encode_chunk, frame. cbn [fst snd]. rewrite Hlen. split; [lia|]. done.
  - destruct Hp as [-> ->]. destruct bytes as [|b [|]]; [done| |cbn in Hl; lia]. injection Hr as <-. split; [done|left]. done.
Qed.

Lemma recv_step r event r' active : receive_output_frames r event = Some (Ok (r', active)) -> recv_ok r ->
  recv_ok r' /\ consumed r' = consumed r ++ read_of event.
Proof.
  intros H (frames & seen & pending & Hf & Hp & Hc & Ho & He). destruct r as [phase cons out err]; cbn [recv_phase consumed to_stdout to_stderr] in *.
  destruct event as [bytes|e|n|e| |e]; unfold receive_output_frames in H; cbn [recv_phase] in H.
  - destruct ((wanted_bytes phase =? 0)%nat || _) eqn:Ew; [done|]. bool_split. destruct bytes as [|b bytes]; [done|].
    destruct (read_bytes phase (b :: bytes)) as [phase'|] eqn:Er; [|done]. injection H as <- <-. split; [|done].
    destruct (read_bytes_phase _ _ _ _ _ Er ltac:(done) ltac:(done) ltac:(done) Hp) as [-> [Hp'|(channel & payload & -> & Hk & Hs)]].
    + exists frames, (seen ++ b :: bytes), []. cbn. split_and!; [done|done|by rewrite Hc, app_assoc|done|done].
    + exists (frames ++ [(channel, payload)]), [], [(channel, payload)]. cbn [recv_phase consumed to_stdout to_stderr].
      rewrite !channel_bytes_app, encode_app. rewrite app_nil_r in Ho, He. subst out err. split_and!; [apply Forall_app; split; [done|by constructor]| | |done|done].
      * cbn. split_and!; [done|done|]. intros ->. unfold chunk_ok in Hk; cbn in Hk; lia.
      * rewrite Hc, <- app_assoc, Hs, app_nil_r. unfold encode. cbn [map concat]. by rewrite app_nil_r.
  - destruct (_ =? 0)%nat; done.
  - destruct phase as [| | |channel rest| | | |]; try done. destruct (n =? 0)%nat eqn:En; [done|]. destruct (length rest <? n)%nat; [done|].
    cbn [in_phase] in Hp. destruct Hp as (-> & -> & Hne). cbn [read_of]. rewrite app_nil_r.
    destruct (drop n rest) as [|d ds] eqn:Ed; injection H as <- <-.
    all: rewrite channel_bytes_one in Ho, He.
    + assert (take n rest = rest) as Et by (rewrite <- (take_drop n rest) at 2; by rewrite Ed, app_nil_r). rewrite Et.
      split; [|by destruct channel]. exists frames, [], []. cbn. rewrite !app_nil_r in *.
      destruct channel; cbn in *; rewrite ?app_nil_r in *; split_and!; done.
    + split; [|by destruct channel]. exists frames, [], [(channel, d :: ds)]. rewrite !channel_bytes_one.
      rewrite <- (take_drop n rest), Ed in Ho, He. 
      destruct channel; cbn in *; rewrite ?app_nil_r, <- ?app_assoc in *; split_and!; done.
  - destruct phase; done.
  - destruct phase; try done; injection H as <- <-; (split; [|cbn; by rewrite app_nil_r]); by exists frames, seen, pending.
  - destruct phase; done.
Qed.
Lemma recv_driven r events r' : driven receive_output_frames r events r' -> recv_ok r ->
  recv_ok r' /\ consumed r' = consumed r ++ socket_reads events.
Proof.
  intros Hd. induction Hd as [r|r event r1 active events r2 Hs _ IH]; intros Hok.
  { unfold socket_reads. cbn. by rewrite app_nil_r. }
  destruct (recv_step _ _ _ _ Hs Hok) as [Hok1 Hc]. destruct (IH Hok1) as [Hok2 Hc2]. split; [done|].
  unfold socket_reads in *. cbn. by rewrite Hc2, Hc, app_assoc.
Qed.
(** A wire that the host has written is never refused. *)
Lemma header_on_wire kind got cs code : length got = 4%nat -> Forall chunk_ok cs ->
  kind :: got `prefix_of` encode cs ++ exit_frame code -> is_ok (header kind (u32_value got)) = true.
Proof.
  intros Hl Hc Hp. pose proof (u32_value_bounds _ Hl). rewrite <- (u32_bytes_value _ Hl), <- (app_nil_r (u32_bytes _)) in Hp.
  destruct Hc as [|[channel payload] cs Hk Hc].
  - cbn [encode map concat app] in Hp. rewrite <- (app_nil_r (exit_frame code)) in Hp.
    apply header_unique in Hp as (-> & Hv & _); [|lia|change (1 <= OUTPUT_CHUNK_BYTES)%nat; chunk_lia]. rewrite Hv. done.
  - unfold encode in Hp. cbn [map concat] in Hp. rewrite <- app_assoc in Hp. unfold encode_chunk at 1 in Hp. unfold chunk_ok in Hk. cbn [fst snd] in *.
    apply header_unique in Hp as (-> & Hv & _); [|lia|lia]. rewrite Hv. unfold header. rewrite (proj2 (channel_of_Some _ channel) eq_refl).
    rewrite (proj2 (Z.leb_le 1 _)), (proj2 (Z.leb_le _ (Z.of_nat OUTPUT_CHUNK_BYTES))) by lia. done.
Qed.
Lemma recv_refuses_nothing r event e cs code : receive_output_frames r event = Some (Err e) -> recv_ok r -> Forall chunk_ok cs ->
  consumed r ++ read_of event `prefix_of` encode cs ++ exit_frame code -> exists source, e = Io source.
Proof.
  intros H (frames & seen & pending & Hf & Hp & Hc & _ & _) Hcs Hx. destruct r as [phase cons out err]; cbn [recv_phase consumed] in *.
  destruct event as [bytes|er|n|er| |er]; unfold receive_output_frames in H; cbn [recv_phase] in H.
  - destruct ((wanted_bytes phase =? 0)%nat || _) eqn:Ew; [done|]. bool_split. destruct bytes as [|b bytes]; [injection H as <-; by eexists|].
    destruct (read_bytes phase (b :: bytes)) as [|e'] eqn:Er; [done|]. exfalso.
    destruct phase as [|kind got|channel wanted got| | | | |]; try done; cbn [read_bytes wanted_bytes in_phase] in *.
    + by destruct bytes.
    + destruct Hp as (-> & Hg & ->). destruct (length (got ++ b :: bytes) <? 4)%nat eqn:E; [done|]. bool_split.
      subst cons. cbn [read_of] in Hx. rewrite <- app_assoc in Hx. apply prefix_frames in Hx as (rest & -> & Hx); [|done..].
      apply Forall_app in Hcs as [_ Hcs]. rewrite length_app in E. apply (header_on_wire kind (got ++ b :: bytes)) in Hx; [by rewrite Er in Hx|rewrite length_app; lia|done].
    + destruct (_ <? _)%nat; done.
    + by destruct bytes.
  - destruct (_ =? 0)%nat; [done|]. injection H as <-. by eexists.
  - destruct phase; try done. destruct (n =? 0)%nat; [injection H as <-; by eexists|]. destruct (_ <? _)%nat; [done|]. by case_match.
  - destruct phase; try done; injection H as <-; by eexists.
  - destruct phase; done.
  - destruct phase; try done; injection H as <-; by eexists.
Qed.

Lemma ended_reached {B Ev E A} (step : B -> Ev -> option (result E (B * bool))) (result_of : B -> option A) of_relay start events turn :
  ended_well step result_of of_relay start events turn ->
  exists seen, seen `prefix_of` output_events events /\ driven step start seen (output (session_of turn)).
Proof.
  destruct turn as [s|s [a|e]]; cbn.
  - intros H. by exists (output_events events).
  - intros [H _]. by exists (output_events events).
  - intros [(seen & last & -> & H & _)|[H _]]; [exists seen; split; [by apply prefix_app_r|done]|by exists (output_events events)].
Qed.

Definition received_on (channel : Channel) (r : Recv) : str := match channel with Stdout => to_stdout r | Stderr => to_stderr r end.
(** Of a wire, the client has shown a part of each channel. *)
Lemma recv_shows r cs code channel : recv_ok r -> Forall chunk_ok cs -> consumed r `prefix_of` encode cs ++ exit_frame code ->
  received_on channel r `prefix_of` channel_bytes channel cs.
Proof.
  intros (frames & seen & pending & Hf & Hp & Hc & Ho & He) Hcs Hx. rewrite Hc in Hx. apply prefix_frames in Hx as (rest & -> & _); [|done..].
  rewrite channel_bytes_app. apply prefix_app_r. destruct channel; cbn; [rewrite Ho|rewrite He]; by apply prefix_app_r.
Qed.
Lemma recv_exited r c cs code : recv_ok r -> recv_result r = Some c -> Forall chunk_ok cs -> consumed r `prefix_of` encode cs ++ exit_frame code ->
  c = code /\ forall channel, received_on channel r = channel_bytes channel cs.
Proof.
  intros (frames & seen & pending & Hf & Hp & Hc & Ho & He) Hr Hcs Hx. unfold recv_result in Hr. destruct (recv_phase r); try done. injection Hr as ->.
  destruct Hp as [-> ->]. rewrite Hc in Hx. apply prefix_frames in Hx as (rest & -> & Hx); [|done..]. cbn in Ho, He. rewrite !app_nil_r in *.
  apply Forall_app in Hcs as [_ Hcs]. destruct Hcs as [|[channel payload] rest Hk _].
  - rewrite app_nil_r. split; [|by intros []]. cbn [encode map concat app] in Hx. apply prefix_length_eq in Hx; [|done]. by injection Hx.
  - unfold encode in Hx. cbn [map concat] in Hx. rewrite <- app_assoc in Hx. unfold chunk_ok in Hk. cbn [snd] in Hk.
    apply (header_unique FRAME_EXIT 1 _ _ [c]) in Hx as (Hkind & _); [|lia|cbn [snd]; chunk_lia]. symmetry in Hkind. by apply frame_kind_exit in Hkind.
Qed.

Lemma mux_start_ok : mux_ok mux_start.
Proof. by split. Qed.

(** C34: what the child of an SSH request writes is what the client shows.  However the
    host interleaves the pipes of the child with its input, and however reads, writes
    and time pass at both ends: from the bytes that the host has sent the client never
    shows anything but the next bytes of each channel, and never takes a frame for a
    bad one; and when it returns a code, it has shown everything the child wrote on
    each channel, and the code is the one the host sent. *)
Theorem ssh_output_exact idle idle' server_events session code client_events turn :
  relay_child_streams idle server_events = Some (Gone session (Ok tt)) ->
  relay_client_streams idle' client_events = Some turn ->
  socket_reads (output_events client_events) `prefix_of` sent (output session) ++ exit_frame code ->
  let written channel := channel_bytes channel (child_chunks (output_events server_events)) in
  let client := output (session_of turn) in
  (forall channel, received_on channel client `prefix_of` written channel) /\
  match turn with
  | Going _ => True
  | Gone _ (Ok c) => c = code /\ forall channel, received_on channel client = written channel
  | Gone _ (Err e) => e <> InvalidFrame
  end.
Proof.
  intros Hs Hc Hx written client.
  apply relay_session_ended in Hs as [[Hs Hr]|Hs]; [|done]. apply mux_driven in Hs as [[Hchunks Hphase] Htaken]; [|apply mux_start_ok].
  cbn [taken mux_start app] in Htaken. assert (encode (taken (output session)) = sent (output session)) as Hsent.
  { revert Hr Hphase. unfold mux_result. by destruct (mux_phase _). }
  rewrite <- Hsent, Htaken in Hx. rewrite Htaken in Hchunks. set (cs := child_chunks _) in *.
  apply relay_session_ended in Hc as [Hc| ->]; [|split; [intros []; apply prefix_nil|done]].
  destruct (ended_reached _ _ _ _ _ _ Hc) as (seen & Hseen & Hd). apply recv_driven in Hd as [Hok Hread]; [|apply recv_start_ok]. cbn in Hread.
  assert (consumed client `prefix_of` encode cs ++ exit_frame code) as Hcons.
  { etrans; [|exact Hx]. unfold client. rewrite Hread. destruct Hseen as [k ->]. unfold socket_reads. rewrite map_app, concat_app. by apply prefix_app_r. }
  split; [intros channel; by eapply recv_shows|]. destruct turn as [s|s [c|e]]; [done| |].
  - destruct Hc as [_ Hc]. by eapply recv_exited.
  - destruct Hc as [(before & last & Hev & Hd & He)|[_ [-> |[source ->]]]]; [|done|done].
    apply recv_driven in Hd as [_ Hd]; [|apply recv_start_ok]. cbn in Hd.
    apply (recv_refuses_nothing _ _ _ cs code) in He as [source ->]; [done|done|done|].
    cbn [session_of] in *. rewrite Hd. etrans; [|exact Hx]. rewrite Hev. unfold socket_reads. by rewrite map_app, concat_app; cbn; rewrite app_nil_r.
Qed.

(** ** Requests *)

#[local] Instance same_output_trans : Transitive same_output.
Proof. unfold same_output. intros c c1 c2. intuition congruence. Qed.

Lemma runs_of_errors {E A} (f : E -> HostSshError) (m : ST Conn E A) c Q :
  runs m c (fun r c' => Q (map_err f r) c') -> runs (of_errors f m) c Q.
Proof. intros (r & c' & Hm & H). exists (map_err f r), c'. unfold of_errors. rewrite Hm. done. Qed.

Lemma runs_read_u32 c Q :
  (forall n c', same_output c c' -> (0 <= n < 2 ^ 32)%Z -> delivered (inbound c) = u32_bytes n ++ delivered (inbound c') -> Q (Ok n) c') ->
  (forall e c', transport_error e -> same_output c c' -> (length (delivered (inbound c)) < 4)%nat -> Q (Err e) c') ->
  runs read_u32 c Q.
Proof.
  intros HOk HErr. apply runs_bind, runs_read_exact_loop; [lia| |done].
  intros bytes c' Hs Hl Hd. cbn [app]. apply runs_ret, HOk; [done|by apply u32_value_bounds|by rewrite u32_bytes_value].
Qed.

Section requests.
Context `{Sha256, Idna, ContentJson}.

(** A request on the wire, and the argv it decodes to. *)
Definition request_message (request : str) : str := u32_bytes (Z.of_nat (length request)) ++ request.
Definition decodes (request : str) (line : list str) : Prop :=
  (0 < Z.of_nat (length request) <= MAX_REQUEST_BYTES)%Z /\ (c ← content_from_slice request; ssh_request c) = Some line.
Definition asks (wire : str) (line : list str) (rest : str) : Prop :=
  exists request, wire = request_message request ++ rest /\ decodes request line.

Lemma message_unique request rest n x : (0 <= n < 2 ^ 32)%Z -> (Z.of_nat (length request) <= MAX_REQUEST_BYTES)%Z ->
  request_message request ++ rest = u32_bytes n ++ x -> n = Z.of_nat (length request) /\ x = request ++ rest.
Proof.
  intros Hn Hr Hx. unfold request_message in Hx. rewrite <- app_assoc in Hx. apply app_inj_1 in Hx as [Hu <-]; [|done].
  apply (f_equal u32_value) in Hu. unfold MAX_REQUEST_BYTES in Hr. rewrite !u32_value_bytes in Hu by lia. done.
Qed.
Lemma runs_read_request c Q :
  (forall line c', same_output c c' -> asks (delivered (inbound c)) line (delivered (inbound c')) -> Q (Ok line) c') ->
  (forall e c', same_output c c' -> (forall line rest, ~ asks (delivered (inbound c)) line rest) -> Q (Err e) c') ->
  runs read_request c Q.
Proof.
  intros HOk HErr. apply runs_bind, runs_of_errors, runs_read_u32.
  2: { intros e c' _ Hs Hl. apply HErr; [done|]. intros line rest (request & Hd & _). rewrite Hd in Hl.
       unfold request_message in Hl. rewrite !length_app, length_u32_bytes in Hl. lia. }
  intros n c1 Hs1 Hn Hd1. cbn [map_err]. apply runs_bind, runs_throw_if.
  { intros Hz. apply HErr; [done|]. intros line rest (request & Hd & Hb & _). rewrite Hd in Hd1. apply message_unique in Hd1 as [-> _]; [|done|lia].
    apply orb_true_iff in Hz as [Hz|Hz]; bool_split; lia. }
  intros Hz. bool_split. apply runs_bind, runs_of_errors, runs_read_exact_loop; [lia| |].
  - intros bytes c2 Hs2 Hl Hd2. cbn [app map_err]. rewrite Hd2 in Hd1.
    assert (n = Z.of_nat (length bytes)) as -> by lia.
    destruct (c ← content_from_slice bytes; ssh_request c) as [line|] eqn:Ed.
    + exists (Ok line), c2. split; [done|]. apply HOk; [by trans c1|]. exists bytes. unfold request_message. rewrite <- app_assoc.
      split; [done|]. split; [lia|done].
    + exists (Err InvalidRequest), c2. split; [done|]. apply HErr; [by trans c1|].
      intros line rest (request & Hd & Hb & Hdec). rewrite Hd in Hd1. apply message_unique in Hd1 as [Hlen Hx]; [|done|lia].
      apply Nat2Z.inj in Hlen. apply app_inj_1 in Hx as [<- _]; [|done]. congruence.
  - intros e c2 _ Hs2 Hl. cbn [map_err]. apply HErr; [by trans c1|]. intros line rest (request & Hd & Hb & _). rewrite Hd in Hd1.
    apply message_unique in Hd1 as [-> Hx]; [|done|lia]. rewrite Hx, length_app in Hl. lia.
Qed.

(** The requests that the service runs. *)
Definition granted (config : HostSshConfig) (invocation : SshInvocation) : Prop :=
  approved invocation /\ allows (ssh_allowlist config) (ssh_authority invocation) = true.
Lemma approved_unique i j : approved i -> approved j -> argv i = argv j -> i = j.
Proof.
  intros Hi Hj He. assert (parse (argv i) = Ok i) as E1 by (by apply parse_approved).
  assert (parse (argv j) = Ok j) as E2 by (by apply parse_approved). congruence.
Qed.

Lemma runs_send_denied c (Q : result HostSshError unit -> Conn -> Prop) :
  (forall c', (write_faults c = [] -> outbound c' = outbound c ++ DENIED_LINE /\ closed c' = true) -> Q (Ok tt) c') -> runs send_denied c Q.
Proof.
  intros HQ. unfold runs, send_denied. destruct (write_all DENIED_LINE c) as [r c1] eqn:E1, (shutdown c1) as [r' c2] eqn:E2.
  exists (Ok tt), c2. split; [done|]. apply HQ. intros Hf. revert E1 E2. unfold write_all, shutdown. rewrite Hf.
  intros [= _ <-]. cbn. by intros [= _ <-].
Qed.

Definition admitted (config : HostSshConfig) (c : Conn) (r : result HostSshError SshInvocation) (c' : Conn) : Prop :=
  match r with
  | Ok invocation => same_output c c' /\ granted config invocation /\ asks (delivered (inbound c)) (argv invocation) (delivered (inbound c'))
  | Err _ =>
      (forall invocation rest, asks (delivered (inbound c)) (argv invocation) rest -> ~ granted config invocation) /\
      (write_faults c = [] -> outbound c' = outbound c ++ DENIED_LINE /\ closed c' = true)
  end.
Lemma asks_unique wire line rest line' rest' : asks wire line rest -> asks wire line' rest' -> line = line'.
Proof.
  intros (q & -> & Hb & Hd) (q' & Hx & Hb' & Hd'). unfold request_message in Hx at 2. rewrite <- app_assoc in Hx.
  unfold MAX_REQUEST_BYTES in *. apply message_unique in Hx as [Hl Hx]; [|lia|unfold MAX_REQUEST_BYTES; lia].
  apply Nat2Z.inj in Hl. apply app_inj_1 in Hx as [<- _]; [|done]. congruence.
Qed.
Lemma runs_denial config error c c1 : same_output c c1 ->
  (forall invocation rest, asks (delivered (inbound c)) (argv invocation) rest -> ~ granted config invocation) ->
  runs (send_denied ;; throw error) c1 (admitted config c).
Proof.
  intros (Ho & _ & Hf) Hno. apply runs_bind, runs_send_denied. intros c2 Hw. apply runs_throw. split; [done|].
  rewrite <- Ho, <- Hf. done.
Qed.
Lemma runs_admit_request config c : runs (admit_request config) c (admitted config c).
Proof.
  assert (runs (attempt read_request) c (fun r c' => same_output c c' /\
    match r with
    | Ok (Ok line) => asks (delivered (inbound c)) line (delivered (inbound c'))
    | Ok (Err _) => forall line rest, ~ asks (delivered (inbound c)) line rest
    | Err _ => False
    end)) as Hread.
  { enough (runs read_request c (fun r c' => same_output c c' /\
      match r with Ok line => asks (delivered (inbound c)) line (delivered (inbound c')) | Err _ => forall line rest, ~ asks (delivered (inbound c)) line rest end)) as (r & c' & Hr & HQ).
    { exists (Ok r), c'. unfold attempt. by rewrite Hr. }
    by apply runs_read_request. }
  apply runs_bind. refine (runs_mono _ _ _ _ Hread _). intros r c1 [Hs Hr]. destruct r as [[line|e]|]; [| |done].
  - destruct (parse line) as [invocation|e] eqn:Ep.
    + apply parse_approved in Ep as [<- Ha]. destruct (allows _ _) eqn:Eal.
      { apply runs_ret. split; [done|]. split; [done|done]. }
      apply runs_denial; [done|]. intros j rest Hj [Hap Hal]. pose proof (asks_unique _ _ _ _ _ Hr Hj) as He.
      rewrite (approved_unique _ _ Ha Hap He) in Eal. congruence.
    + apply runs_denial; [done|]. intros j rest Hj [Hap _]. pose proof (asks_unique _ _ _ _ _ Hr Hj) as He.
      assert (parse line = Ok j) by (by apply parse_approved). congruence.
  - apply runs_denial; [done|]. intros j rest Hj _. by apply Hr in Hj.
Qed.


(** A probe of Git's is never a request. *)
Lemma probe_never_approved line : is_git_ssh_variant_probe line = true -> is_ok (parse line) = false.
Proof.
  unfold is_git_ssh_variant_probe. destruct line as [|option [|destination [|]]]; try done. intros Hp. bool_split. apply str_eqb_eq in H2 as ->.
  destruct (parse _) as [invocation|] eqn:E; [|done]. unfold parse in E. apply err_if_bind_Ok in E as [_ E]. apply err_if_bind_Ok in E as [_ E].
  by apply err_if_bind_Ok in E as [_ E].
Qed.
End requests.

(** What the client sends is what the host reads. *)
Class SshRequestLaws `{SshRequestJson, ContentJson} : Prop :=
  request_reads_back line bytes : request_to_vec line = Some bytes -> bytes <> [] ->
    content_from_slice bytes = Some (ContentMap [("argv" : str, ContentSeq (map ContentString line))]).
Lemma request_travels `{SshRequestLaws} line bytes : request_to_vec line = Some bytes -> bytes <> [] -> (Z.of_nat (length bytes) <= MAX_REQUEST_BYTES)%Z ->
  asks (request_message bytes) line [].
Proof.
  intros Hv Hne Hb. exists bytes. rewrite app_nil_r. split; [done|]. split; [destruct bytes; [done|cbn in *; lia]|].
  rewrite (request_reads_back _ _ Hv Hne).
  assert (mapM string_content (map ContentString line) = Some line) as Hm; [|exact Hm].
  clear. induction line as [|x line IH]; [done|]. cbn. by rewrite IH.
Qed.

(** ** An example *)

Definition open_argv : str := "{" ++ [DQUOTE] ++ "argv" ++ [DQUOTE] ++ ":[" ++ [DQUOTE].
Definition close_argv : str := [DQUOTE] ++ "]}".
(** JSON of words without characters to escape. *)
#[local] Instance plain_request : SshRequestJson := fun line => Some (open_argv ++ RustStr.join ([DQUOTE] ++ "," ++ [DQUOTE]) line ++ close_argv).
#[local] Instance plain_content : ContentJson := fun bytes =>
  words ← strip_prefix open_argv bytes; words ← strip_suffix close_argv words;
  Some (ContentMap [("argv" : str, ContentSeq (map ContentString (split_str ([DQUOTE] ++ "," ++ [DQUOTE]) words)))]).
#[local] Instance any_process : HostProcesses := fun _ _ => Ok tt.
#[local] Existing Instance plain_idna.

Definition github : HostSshConfig :=
  mkHostSshConfig [mkAllowRule (HostExact (Domain "github.com")) (PortExact 22)] "/usr/bin/ssh" RelayConfig_default.
Definition fetch : list str := strs ["-o"; "SendEnv=GIT_PROTOCOL"; "git@github.com"; "git-upload-pack 'owner/repo.git'"].
Definition fetching : Conn :=
  mkConn [Data (hello "secret" ++ request_message (default [] (request_to_vec fetch)))] [] [] false.
(** The child writes four bytes and ends. *)
Definition child_events : list (SessionEvent MuxEvent) :=
  [Output (ChildRead Stdout "0000"); Output (FrameWrote 1); Output (FrameWrote 4); Output (FrameWrote 4);
   Output (ChildRead Stderr []); Output (ChildRead Stdout []); Passed DRAIN].
Definition reading : list (SessionEvent RecvEvent) :=
  map (fun bytes => Output (SocketRead bytes)) [[FRAME_STDOUT]; take 2 (u32_bytes 4); drop 2 (u32_bytes 4); "0000" : str]
  ++ [Output (OutputWrote 3); Output (OutputWrote 1)]
  ++ map (fun bytes => Output (SocketRead bytes)) [[FRAME_EXIT]; u32_bytes 1; ["007"%char]]
  ++ [Output Flushed; Output Flushed; Passed DRAIN].
Lemma ssh_output_exact_witness :
  exists session turn, relay_child_streams (seconds 300) child_events = Some (Gone session (Ok tt)) /\
    relay_client_streams (seconds 300) reading = Some turn /\
    (forall channel, received_on channel (output (session_of turn)) `prefix_of` channel_bytes channel [(Stdout, "0000" : str)]) /\
    exists received, turn = Gone received (Ok "007"%char) /\ to_stdout (output received) = ("0000" : str).
Proof.
  destruct (relay_child_streams (seconds 300) child_events) as [[|session [[]|]]|] eqn:Es; try (exfalso; revert Es; vm_compute; discriminate).
  destruct (relay_client_streams (seconds 300) reading) as [turn|] eqn:Ec; [|exfalso; revert Ec; vm_compute; discriminate].
  exists session, turn. split; [done|]. split; [done|].
  assert (Hsent : sent (output session) = encode [(Stdout, "0000" : str)]).
  { assert (Some (sent (output session)) = Some (encode [(Stdout, "0000" : str)])) as H; [|by injection H].
    transitivity ((fun t => sent (output (session_of t))) <$> relay_child_streams (seconds 300) child_events); [by rewrite Es|vm_compute; reflexivity]. }
  destruct (ssh_output_exact _ _ _ _ "007" _ _ Es Ec) as [Hp Ht].
  { rewrite Hsent. apply (bool_decide_unpack _). vm_compute. exact Logic.I. }
  split; [exact Hp|]. destruct turn as [|received [c|e]].
  - exfalso. revert Ec. vm_compute. discriminate.
  - destruct Ht as [-> Hr]. exists received. split; [done|]. exact (Hr Stdout).
  - exfalso. revert Ec. vm_compute. discriminate.
Defined.

(** Of several host names the last one counts for the allow-list, where OpenSSH
    connects to the first. *)
Lemma last_hostname_counts :
  is_ok (parse (strs ["-oHostName=evil.example"; "-oHostName=github.com"; "git@github.com"; "git-upload-pack r"])) = true /\
  forall invocation, parse (strs ["-oHostName=evil.example"; "-oHostName=github.com"; "git@github.com"; "git-upload-pack r"]) = Ok invocation ->
    allows (ssh_allowlist github) (ssh_authority invocation) = true.
Proof. split; [vm_compute; reflexivity|]. intros invocation H. vm_compute in H. injection H as <-. vm_compute. reflexivity. Qed.
End HostSshFacts.
