(* ===== verification/Connect.v ===== *)
(** * Clients of the egress proxy ([codex-start-proxy/src/connect.rs])

    Bridges of the container: a local HTTP proxy that puts the token of the egress
    proxy into each request, tunnels through CONNECT for a fixed target, with a
    relay's greeting inside or not, and direct forwards. *)

From S2P Require Export Http Relay HostServices.

(** [TcpStream::connect] of a host and a port under a time limit. *)
Class HostNetwork := connect_host : str -> Z -> result Streams.Interruption unit.

Module Connect.
Import HostServices(TcpForwardConfig, forward_to, forward_relay).
Import Streams Auth Handshake Relay Allowlist Http.

Definition MAX_CONNECT_RESPONSE_BYTES : nat := Z.to_nat (16 * 1024).
Definition MIN_PROXY_HEADER_BYTES : nat := 1024.
Arguments MAX_CONNECT_RESPONSE_BYTES : simpl never.

Record ConnectBridgeConfig := mkConnectBridgeConfig {
  bridge_proxy : str;
  bridge_target : Authority;
  bridge_token : option AuthToken;
  bridge_relay : RelayConfig }.
Record HttpProxyBridgeConfig := mkHttpProxyBridgeConfig {
  proxy : str;
  auth_token : AuthToken;
  relay : RelayConfig;
  max_header_bytes : nat }.

Inductive ConnectError :=
  | InvalidConfig (message : str)
  | InvalidAuthToken
  | InvalidProxyRequest
  | RequestHeaderTooLarge (maximum : nat)
  | HandshakeTimeout
  | UnexpectedEof
  | ResponseTooLarge
  | InvalidResponse
  | ProxyDenied (status : Z)
  | UnexpectedEarlyData
  | Accept (source : io_error)
  | ProxyConnectTimeout (proxy : str)
  | ProxyConnect (proxy : str) (source : io_error)
  | TargetConnectTimeout (target : Authority)
  | TargetConnect (target : Authority) (source : io_error)
  | OfRelay (error : Handshake.RelayError)
  | Io (source : io_error).

(** ** The head of a request *)

Definition printable_token (token : AuthToken) : result ConnectError str :=
  ok_or (if utf8_valid token then (if forallb is_graphic token then Some token else None) else None) InvalidAuthToken.

(** One line behind the request line: whether it goes on. *)
Definition bridged_line (line : str) : result ConnectError bool :=
  err_if (negb (nonempty line)
          || match line with byte :: _ => is_blank_byte byte | [] => false end
          || existsb (fun byte => is_ascii_control byte && negb (is_byte TAB byte)) line)
    InvalidProxyRequest ;;
  '(name, _) ← ok_or (split_once ":" line) InvalidProxyRequest;
  err_if (negb (nonempty name) || negb (trim name =s? name) || negb (forallb is_http_token_byte name)) InvalidProxyRequest ;;
  Ok (negb (eq_ignore_ascii_case name "proxy-authorization")).
Fixpoint bridged_lines (lines : list str) : result ConnectError str :=
  match lines with
  | [] => Ok []
  | line :: lines =>
      kept ← bridged_line line;
      rest ← bridged_lines lines;
      Ok (if (kept : bool) then line ++ CRLF ++ rest else rest)
  end.

Definition authenticated_request_head (head : str) (token : AuthToken) : result ConnectError str :=
  err_if (negb (utf8_valid head)) InvalidProxyRequest ;;
  text ← ok_or (strip_suffix HEADER_END head) InvalidProxyRequest;
  let lines := split_str CRLF text in
  request_line ← ok_or (List.hd_error lines) InvalidProxyRequest;
  let parts := EnvSecrets.split_ascii_whitespace request_line in
  let method := default [] (parts !! 0) in
  let target := default [] (parts !! 1) in
  let version := default [] (parts !! 2) in
  err_if (negb (nonempty method) || negb (nonempty target) || negb (one_of version ["HTTP/1.0"; "HTTP/1.1"])
          || bool_decide (is_Some (parts !! 3)) || negb (forallb is_http_token_byte method))
    InvalidProxyRequest ;;
  token ← printable_token token;
  kept ← bridged_lines (tail lines);
  Ok (request_line ++ CRLF ++ kept ++ "Proxy-Authorization: Bearer " ++ token ++ HEADER_END).

(** ** The CONNECT exchange *)

Notation M := (ST Conn ConnectError) (only parsing).
Definition interrupted (i : Interruption) : ConnectError := match i with Elapsed => HandshakeTimeout | IoFailed source => Io source end.
Definition read_some (limit : nat) : M str := fun s => let '(r, s) := read limit s in Some (map_err interrupted r, s).
Definition write_within (bytes : str) : M unit := fun s =>
  let '(r, s) := write_all_within bytes s in Some (map_err interrupted r, s).
(** The [write_all] of a result that is used with [?]. *)
Definition write (bytes : str) : M unit := fun s => let '(r, s) := write_all bytes s in Some (map_err Io r, s).

(** Reading a head of at most [maximum] bytes, with what came behind it. *)
Fixpoint read_head_loop (fuel limit maximum : nat) (too_large : ConnectError) (received : str) : M (str * str) :=
  match fuel with
  | O => diverge
  | S fuel =>
      bytes ← read_some limit;
      if negb (nonempty bytes) then throw UnexpectedEof
      else
        let received := received ++ bytes in
        match find_header_end received with
        | Some end_ =>
            if (maximum <? end_)%nat then throw too_large else mret (take end_ received, drop end_ received)
        | None =>
            if (maximum <? length received)%nat then throw too_large
            else read_head_loop fuel limit maximum too_large received
        end
  end.
Definition read_head (limit maximum : nat) (too_large : ConnectError) : M (str * str) := fun c =>
  read_head_loop (S (volume (inbound c))) limit maximum too_large [] c.
Definition read_client_request_head (maximum : nat) : M (str * str) :=
  read_head (Z.to_nat 4096) maximum (RequestHeaderTooLarge maximum).

Definition validate_response_head (head : str) : result ConnectError unit :=
  err_if (negb (utf8_valid head)) InvalidResponse ;;
  status_line ← ok_or (List.hd_error (split_str CRLF head)) InvalidResponse;
  let '(version, status, _) := splitn3 status_line in
  err_if (negb (one_of version ["HTTP/1.0"; "HTTP/1.1"]) || negb (length status =? 3)%nat || negb (forallb is_digit status))
    InvalidResponse ;;
  status ← ok_or (parse_u16 status) InvalidResponse;
  err_if (negb (status =? 200)%Z) (ProxyDenied status).

Definition connect_request (target : Authority) (auth_token : option AuthToken) : result ConnectError str :=
  let request := "CONNECT " ++ display_with_port target ++ " HTTP/1.1" ++ CRLF
                 ++ "Host: " ++ display_with_port target ++ CRLF ++ "Proxy-Connection: close" ++ CRLF in
  request ← match auth_token with
            | Some token =>
                token ← printable_token token;
                Ok (request ++ "Proxy-Authorization: Bearer " ++ token ++ CRLF)
            | None => Ok request
            end;
  Ok (request ++ CRLF).

Definition establish_connect (target : Authority) (auth_token : option AuthToken) (handshake_timeout : Z) : M str :=
  throw_if (handshake_timeout =? 0)%Z (InvalidConfig "handshake timeout must be non-zero") ;;
  request ← lift (connect_request target auth_token);
  write_within request ;;
  '(head, rest) ← read_head 1024 MAX_CONNECT_RESPONSE_BYTES ResponseTooLarge;
  lift (validate_response_head head) ;;
  mret rest.

(** ** Handlers *)

(** Where a handler connected. *)
Inductive Dialled := DialledProxy (address : str) | DialledTarget (host : str) (port : Z).
(** How a handler ends, both connections as it leaves them, where it connected
    and what it relayed. *)
Record Bridged := mkBridged {
  outcome : result ConnectError unit;
  local_after : Conn;
  remote_after : Conn;
  dialled : option Dialled;
  transfer : option Relay.Relay }.

Definition dial_proxy `{RelayNetwork} (address : str) : result ConnectError unit :=
  map_err (fun i => match i with Elapsed => ProxyConnectTimeout address | IoFailed source => ProxyConnect address source end)
    (connect_tcp address).
Definition dial_target `{HostNetwork} (target : Authority) : result ConnectError unit :=
  map_err (fun i => match i with Elapsed => TargetConnectTimeout target | IoFailed source => TargetConnect target source end)
    (connect_host (lookup_name (auth_host target)) (auth_port target)).
(** The relay that ends a handler, over the events that come. *)
Definition relayed (turn : option Turn) (local remote : Conn) (dialled : option Dialled) : option Bridged :=
  match turn with
  | Some (Ended r outcome) => Some (mkBridged (map_err OfRelay (_ ← outcome; Ok tt)) local remote dialled (Some r))
  | _ => None
  end.
Definition failed (error : ConnectError) (local remote : Conn) (dialled : option Dialled) : option Bridged :=
  Some (mkBridged (Err error) local remote dialled None).

(** [remote] is the connection that a handler gets. *)
Definition handle_http_proxy_bridge `{RelayNetwork} (local remote : Conn) (config : HttpProxyBridgeConfig) (events : list Event) : option Bridged :=
  match ('(head, rest) ← read_client_request_head (max_header_bytes config);
         authenticated ← lift (authenticated_request_head head (auth_token config)); mret (authenticated, rest)) local with
  | None => None
  | Some (Err error, local) => failed error local remote None
  | Some (Ok (authenticated, rest), local) =>
      let at_ := Some (DialledProxy (proxy config)) in
      match dial_proxy (proxy config) with
      | Err error => failed error local remote at_
      | Ok _ =>
          match (write authenticated ;; if nonempty rest then write rest else mret tt) remote with
          | Some (Ok _, remote) => relayed (relay_bidirectional (idle_timeout (relay config)) events) local remote at_
          | Some (Err error, remote) => failed error local remote at_
          | None => None
          end
      end
  end.

Definition handle_tcp_forward `{HostNetwork} (local remote : Conn) (config : TcpForwardConfig) (events : list Event) : option Bridged :=
  let target := forward_to config in
  let at_ := Some (DialledTarget (lookup_name (auth_host target)) (auth_port target)) in
  match dial_target target with
  | Err error => failed error local remote at_
  | Ok _ => relayed (relay_bidirectional (idle_timeout (forward_relay config)) events) local remote at_
  end.

(** A tunnel through the proxy, with what the proxy sent behind its answer. *)
Definition open_connect_tunnel_with_remainder `{RelayNetwork} (proxy_address : str) (target : Authority) (auth_token : option AuthToken)
    (config : RelayConfig) : M str :=
  lift (dial_proxy proxy_address) ;; establish_connect target auth_token (handshake_timeout config).
Definition no_early_data (rest : str) : M unit := throw_if (nonempty rest) UnexpectedEarlyData.
Definition open_connect_tunnel `{RelayNetwork} (proxy_address : str) (target : Authority) (auth_token : option AuthToken) (config : RelayConfig) : M unit :=
  rest ← open_connect_tunnel_with_remainder proxy_address target auth_token config; no_early_data rest.

Definition handle_bridge `{RelayNetwork} (local remote : Conn) (config : ConnectBridgeConfig) (events : list Event) : option Bridged :=
  let at_ := Some (DialledProxy (bridge_proxy config)) in
  match open_connect_tunnel_with_remainder (bridge_proxy config) (bridge_target config) (bridge_token config) (bridge_relay config) remote with
  | None => None
  | Some (Err error, remote) => failed error local remote at_
  | Some (Ok rest, remote) =>
      match (if nonempty rest then write rest else mret tt) local with
      | Some (Ok _, local) => relayed (relay_bidirectional (idle_timeout (bridge_relay config)) events) local remote at_
      | Some (Err error, local) => failed error local remote at_
      | None => None
      end
  end.

Definition relay_greeting (token : AuthToken) : M unit := fun c => '(r, c) ← authenticate_client token c; Some (map_err OfRelay r, c).
Definition handle_authenticated_bridge `{RelayNetwork} (local remote : Conn) (proxy_address : str) (target : Authority)
    (proxy_token : option AuthToken) (relay_token : AuthToken) (config : RelayConfig) (events : list Event) : option Bridged :=
  let at_ := Some (DialledProxy proxy_address) in
  match (open_connect_tunnel proxy_address target proxy_token config ;; relay_greeting relay_token) remote with
  | None => None
  | Some (Err error, remote) => failed error local remote at_
  | Some (Ok _, remote) => relayed (relay_bidirectional (idle_timeout config) events) local remote at_
  end.

(** [local] is the process's standard input and output. *)
Definition connect_streams (local remote : Conn) (target : Authority) (auth_token : option AuthToken) (config : RelayConfig)
    (at_ : option Dialled) (events : list Event) : option Bridged :=
  match establish_connect target auth_token (handshake_timeout config) remote with
  | None => None
  | Some (Err error, remote) => failed error local remote at_
  | Some (Ok rest, remote) =>
      match (if nonempty rest then write rest else mret tt) local with
      | Some (Ok _, local) => relayed (relay_stdio (idle_timeout config) events) local remote at_
      | Some (Err error, local) => failed error local remote at_
      | None => None
      end
  end.
Definition connect_stdio `{RelayNetwork} (local remote : Conn) (proxy_address : str) (target : Authority) (auth_token : option AuthToken)
    (config : RelayConfig) (events : list Event) : option Bridged :=
  let at_ := Some (DialledProxy proxy_address) in
  match dial_proxy proxy_address with
  | Err error => failed error local remote at_
  | Ok _ => connect_streams local remote target auth_token config at_ events
  end.

(** ** The accept loops *)

Definition zero_limits (config : RelayConfig) : bool :=
  (max_connections config =? 0)%nat || (connect_timeout config =? 0)%Z || (handshake_timeout config =? 0)%Z || (idle_timeout config =? 0)%Z.
Definition NON_ZERO : ConnectError := InvalidConfig "connection limits and timeouts must be non-zero".
Definition validate_http_proxy_bridge (config : HttpProxyBridgeConfig) : result ConnectError unit :=
  err_if (negb (nonempty (proxy config)) || zero_limits (relay config) || (max_header_bytes config <? MIN_PROXY_HEADER_BYTES)%nat)
    (InvalidConfig "proxy address, limits, timeouts, and a header limit of at least 1024 are required") ;;
  printable_token (auth_token config) ;; Ok tt.
Definition validate_authenticated_bridge_config (config : RelayConfig) : result ConnectError unit := err_if (zero_limits config) NON_ZERO.

Definition serve_error (e : Handshake.RelayError) : ConnectError :=
  match e with Handshake.Accept source => Accept source | e => OfRelay e end.
(** The loop that all listeners share, behind the check of their configuration. *)
Definition serve_checked (check : result ConnectError unit) (config : RelayConfig) (events : list ServeEvent)
    : option (Accepting + result ConnectError unit) :=
  match check with
  | Err e => Some (inr (Err e))
  | Ok _ =>
      match serve_loop config (mkAccepting 0 0) events with
      | Some (inl self) => Some (inl self)
      | Some (inr r) => Some (inr (map_err serve_error r))
      | None => None
      end
  end.
Definition serve_http_proxy_bridge (config : HttpProxyBridgeConfig) := serve_checked (validate_http_proxy_bridge config) (relay config).
Definition serve_connect_bridge (config : ConnectBridgeConfig) := serve_checked (err_if (zero_limits (bridge_relay config)) NON_ZERO) (bridge_relay config).
Definition serve_tcp_forward (config : TcpForwardConfig) :=
  let relay := forward_relay config in
  serve_checked (err_if ((max_connections relay =? 0)%nat || (connect_timeout relay =? 0)%Z || (idle_timeout relay =? 0)%Z) NON_ZERO) relay.
Definition serve_tcp_authenticated_connect_bridge (config : RelayConfig) := serve_checked (validate_authenticated_bridge_config config) config.
Definition serve_unix_authenticated_connect_bridge (config : RelayConfig) := serve_checked (validate_authenticated_bridge_config config) config.
End Connect.
