(* ===== verification/ConnectFacts.v ===== *)
(** * What the bridges say to the egress proxy

    An authority parses back from its text; the head that the bridge of the
    container sends is the client's with the token of the egress proxy, and the
    proxy takes it for authorised; a CONNECT request reads back as the tunnel it
    asks for, and the answer decides. *)

From S2P Require Export Connect IpText Transfer Concrete.

Module ConnectFacts.
Import IpAddr Streams Auth Handshake Allowlist Http Connect.

(** ** Texts of authorities *)

Definition colons (s : str) : nat := length (List.filter (is_byte ":") s).
Lemma colons_app s t : colons (s ++ t) = (colons s + colons t)%nat.
Proof. unfold colons. by rewrite List.filter_app, length_app. Qed.
Lemma colons_none s : ":"%char ∉ s -> colons s = 0%nat.
Proof.
  induction s as [|c s IH]; [done|]. intros [Hc Hs]%not_elem_of_cons. unfold colons. cbn [List.filter].
  rewrite (proj2 (is_byte_false _ _) Hc). by apply IH.
Qed.

Lemma colons_cons s : colons (":"%char :: s) = S (colons s).
Proof. reflexivity. Qed.

Lemma embed_v4_length octets : (length (embed_v4 octets) <= 2)%nat.
Proof. destruct octets as [|? [|? [|? [|? [|]]]]]; cbn; lia. Qed.
Lemma at_foreign : foreign "@".
Proof. split_and!; (reflexivity || discriminate). Qed.
Lemma separator_colons {A} i (inner : reader A) s a r : avoids "@" inner -> read_separator ":" i inner s = Some (a, r) ->
  exists p, s = p ++ r /\ (match i with O => 0 | _ => 1 end <= colons p)%nat.
Proof.
  intros Hi. destruct i; cbn [read_separator].
  - intros H. destruct (Hi _ _ _ H) as (p & -> & _). exists p. split; [done|lia].
  - intros H. apply bind_Some in H as ([u s'] & ->%read_given_char_Some & H). destruct (Hi _ _ _ H) as (p & -> & _).
    exists (":"%char :: p). split; [done|]. rewrite colons_cons. lia.
Qed.
Lemma read_groups_colons slots i s l v r : read_groups slots i s = (l, v, r) ->
  exists p, s = p ++ r /\ (length l <= colons p + match i with O => 1 | _ => 0 end + if v then 1 else 0)%nat.
Proof.
  revert i s l v r. induction slots as [|n IH]; intros i s l v r; cbn [read_groups].
  { intros [= <- <- <-]. exists []. split; [done|cbn; lia]. }
  case_match eqn:H1.
  - destruct p as [o s']. intros [= <- <- <-]. destruct (1 <? S n)%nat; [|done].
    apply separator_colons in H1 as (p & -> & Hp); [|apply avoids_octets, at_foreign]. exists p. split; [done|].
    pose proof (embed_v4_length o). destruct i; lia.
  - clear H1. case_match eqn:H2.
    + destruct p as [g s']. destruct (read_groups n (S i) s') as [[gs v'] r'] eqn:E. intros [= <- <- <-].
      apply separator_colons in H2 as (p & -> & Hp); [|by apply avoids_number].
      apply IH in E as (q & -> & Hq). exists (p ++ q). rewrite <- app_assoc, colons_app. split; [done|]. cbn [length]. destruct i, v'; lia.
    + intros [= <- <- <-]. exists []. split; [done|cbn; lia].
Qed.
(** An IPv6 address has two colons. *)
Lemma parse_ipv6_colons s g : parse_ipv6 s = Some g -> (2 <= colons s)%nat.
Proof.
  unfold parse_ipv6, parse_with. destruct (read_ipv6_addr s) as [[l r]|] eqn:E; [|done]. destruct r; [|done]. intros _.
  unfold read_ipv6_addr in E. destruct (read_groups 8 0 s) as [[h v] s1] eqn:E1. apply read_groups_colons in E1 as (p & -> & Hp).
  rewrite colons_app. destruct (length h =? 8)%nat eqn:E8; bool_split; [destruct v; lia|]. destruct v; [done|].
  apply bind_Some in E as ([u s2] & ->%read_given_char_Some & E). apply bind_Some in E as ([u' s3] & ->%read_given_char_Some & E).
  rewrite !colons_cons. lia.
Qed.

(** The bytes of domains and IPv4 addresses. *)
Definition tame (c : ascii) : bool := is_alphanumeric c || is_byte "-" c || is_byte "." c.
Lemma tame_excludes c d s : tame c = false -> Forall (fun d => tame d = true) s -> d = c -> d ∉ s.
Proof. intros Hc Hs -> Hin. rewrite Forall_forall in Hs. apply Hs in Hin. congruence. Qed.
Lemma tame_domain domain : validate_ascii_domain domain = true -> Forall (fun d => tame d = true) domain.
Proof.
  intros [_ H]%andb_true_iff. rewrite forallb_Forall, Forall_forall in H. apply Forall_forall. intros c Hc.
  destruct (decide (c = "."%char)) as [->|Hdot]; [done|]. destruct (elem_of_split _ _ _ Hc Hdot) as (w & Hw & Hcw).
  specialize (H w Hw). apply andb_true_iff in H as [_ H]. rewrite forallb_Forall, Forall_forall in H. unfold tame. by rewrite (H c Hcw).
Qed.
Lemma tame_join ws : Forall (Forall (fun d => tame d = true)) ws -> Forall (fun d => tame d = true) (RustStr.join "." ws).
Proof.
  induction ws as [|w [|w2 ws] IH]; intros H; cbn [RustStr.join]; [done|by apply Forall_cons in H as [? _]|].
  apply Forall_cons in H as [Hw H]. apply Forall_app; split; [done|]. apply Forall_app; split; [by repeat constructor|]. by apply IH.
Qed.
Lemma tame_dec n : Forall (fun d => tame d = true) (dec n).
Proof. eapply Forall_impl; [apply dec_bytes|]. intros c [H| ->]; [|done]. unfold tame, is_alphanumeric. rewrite H. by rewrite orb_true_r. Qed.
Lemma tame_ipv4 octets : Forall (fun d => tame d = true) (ipv4_to_string octets).
Proof. apply tame_join, Forall_map, Forall_true. intros n. apply tame_dec. Qed.

Section authorities.
Context `{Idna}.

(** A normalised host and a port. *)
Definition normal_host (host : NormalizedHost) : Prop :=
  match host with Ip ip => well_formed ip | Domain domain => NormalizedHost_parse domain = Ok (Domain domain) end.
Definition normal (authority : Authority) : Prop :=
  normal_host (auth_host authority) /\ (0 < auth_port authority <= U16_MAX)%Z.

Lemma domain_tame domain : NormalizedHost_parse domain = Ok (Domain domain) -> Forall (fun d => tame d = true) domain /\ domain <> [].
Proof.
  unfold NormalizedHost_parse. intros Hd. apply err_if_bind_Ok in Hd as [Hne Hd]. apply err_if_bind_Ok in Hd as [_ Hd].
  split; [|by destruct domain]. destruct (parse_ip domain); [done|]. cbv zeta in Hd. apply err_if_bind_Ok in Hd as [_ Hd].
  apply bind_Ok in Hd as (a & _ & Hd). cbv zeta in Hd. destruct (validate_ascii_domain _) eqn:E; [|done]. injection Hd as Hd. rewrite Hd in E.
  by apply tame_domain.
Qed.
Lemma ip_text_parses ip : well_formed ip -> NormalizedHost_parse (ip_to_string ip) = Ok (Ip ip).
Proof.
  intros Hw. pose proof (IpText.ip_text_reads_back ip Hw) as Hp. unfold NormalizedHost_parse. rewrite Hp.
  assert (forall c, foreign c -> c ∉ ip_to_string ip) as Hf by (intros c Hc; by apply (parse_ip_avoids c _ ip)).
  assert (nonempty (ip_to_string ip) = true) as -> by (destruct (ip_to_string ip); [by vm_compute in Hp|done]).
  assert (starts_with "[" (ip_to_string ip) = false) as ->.
  { destruct (starts_with _ _) eqn:E; [|done]. apply starts_with_spec in E as (r & E). exfalso. apply (Hf "["%char); [split_and!; (reflexivity || discriminate)|].
    rewrite E. apply list_elem_of_here. }
  assert (ends_with "]" (ip_to_string ip) = false) as ->.
  { destruct (ends_with _ _) eqn:E; [|done]. apply ends_with_spec in E as (r & E). exfalso. apply (Hf "]"%char); [split_and!; (reflexivity || discriminate)|].
    rewrite E. apply elem_of_app. right. apply list_elem_of_here. }
  done.
Qed.

Lemma normal_host_parses host : normal_host host -> NormalizedHost_parse (lookup_name host) = Ok host.
Proof. destruct host as [domain|ip]; [done|]. apply ip_text_parses. Qed.
Lemma graphic_clean s : graphic s -> existsb (fun byte => is_ascii_whitespace byte || is_ascii_control byte) s = false.
Proof.
  intros Hg. apply existsb_false, (Forall_impl _ _ _ Hg). intros c. destruct c as [[] [] [] [] [] [] [] []]; vm_compute; done.
Qed.
Lemma parse_port_dec port : (0 < port <= U16_MAX)%Z -> Allowlist.parse_port (dec port) = Ok port.
Proof.
  intros Hp. unfold Allowlist.parse_port, parse_u16. destruct (proj1 (andb_true_iff _ _) (all_digits_dec port ltac:(lia))) as [-> ->].
  cbn [negb orb err_if mbind result_bind]. rewrite parse_uint_dec by lia. cbn. by rewrite (proj2 (Z.eqb_neq port 0)) by lia.
Qed.

Lemma authority_reads_back authority default_port : normal authority -> Authority_parse (display_with_port authority) default_port = Ok authority.
Proof.
  destruct authority as [host port]. intros [Hh Hp]. cbn [auth_host auth_port] in *. pose proof (normal_host_parses _ Hh) as Hparse.
  unfold Authority_parse, display_with_port. cbn [auth_host auth_port].
  assert (graphic (authority_name host ++ ":" ++ dec port)) as Hg by (apply graphic_authority with (port:=port); by eapply graphic_host).
  assert ("@"%char ∉ authority_name host) as Hat.
  { destruct host as [domain|[o|g]]; cbn [authority_name].
    - eapply (tame_excludes "@" _ _ eq_refl); [apply domain_tame, Hh|done].
    - eapply (tame_excludes "@" _ _ eq_refl); [apply tame_ipv4|done].
    - intros [Hin|[Hin|Hin]%elem_of_app]%elem_of_app.
      + by apply list_elem_of_singleton in Hin.
      + revert Hin. apply (parse_ip_avoids "@" _ (V6 g) at_foreign). exact (IpText.ip_text_reads_back (V6 g) Hh).
      + by apply list_elem_of_singleton in Hin. }
  assert (forall c, tame c = false -> c ∉ dec port) as Hdec by (intros c Hc; by eapply tame_excludes; [|apply tame_dec|]).
  unfold validate_clean_input. rewrite (graphic_clean _ Hg).
  rewrite (proj2 (contains_byte_false "@" _)).
  2: { rewrite !not_elem_of_app. split; [done|]. split; [by intros ?%list_elem_of_singleton|by apply Hdec]. }
  assert (nonempty (authority_name host ++ ":" ++ dec port) = true) as -> by (by destruct (authority_name host)).
  cbn [negb err_if mbind result_bind].
  assert (split_authority (authority_name host ++ ":" ++ dec port) default_port = Ok (lookup_name host, port)) as ->.
  2: { cbn [mbind result_bind]. by rewrite Hparse. }
  pose proof (parse_port_dec _ Hp) as Hport.
  assert (forall name, Forall (fun d => tame d = true) name -> split_authority (name ++ ":" ++ dec port) default_port = Ok (name, port)) as Htame.
  { intros name Hn. assert (forall c, tame c = false -> c ∉ name) as Hno by (intros c Hc; by eapply tame_excludes).
    assert (forall c, tame c = false -> c <> ":"%char -> c ∉ name ++ ":" ++ dec port) as Hall.
    { intros c Hc Hne. rewrite !not_elem_of_app. split; [by apply Hno|]. split; [by intros ?%list_elem_of_singleton|by apply Hdec]. }
    unfold split_authority. assert (strip_prefix "[" (name ++ ":" ++ dec port) = None) as ->.
    { destruct (strip_prefix _ _) eqn:E; [|done]. apply strip_prefix_Some in E. exfalso. apply (Hall "["%char); [done..|].
      rewrite E. apply list_elem_of_here. }
    rewrite bool_decide_eq_false_2.
    2: { intros [g Hv6%parse_ipv6_colons]. rewrite colons_app in Hv6. change (":" ++ dec port) with (":"%char :: dec port) in Hv6.
         rewrite colons_cons, !colons_none in Hv6 by (by apply Hno || by apply Hdec). lia. }
    rewrite !(proj2 (contains_byte_false _ _)) by (by apply Hall). cbn [orb err_if mbind result_bind].
    rewrite (proj2 (rsplit_once_Some ":" _ name (dec port))) by (split; [done|by apply Hdec]).
    rewrite (proj2 (contains_byte_false ":" _)) by (by apply Hno). cbn [err_if mbind result_bind]. by rewrite Hport. }
  destruct host as [domain|[o|g]]; cbn [authority_name lookup_name ip_to_string].
  - apply Htame, domain_tame, Hh.
  - apply Htame, tame_ipv4.
  - unfold split_authority. rewrite <- !app_assoc. rewrite strip_prefix_app. 
    rewrite (proj2 (split_once_Some "]" _ (ipv6_to_string g) (":" ++ dec port))).
    2: { split; [done|]. apply (parse_ip_avoids "]" _ (V6 g)); [split_and!; (reflexivity || discriminate)|]. exact (IpText.ip_text_reads_back (V6 g) Hh). }
    cbn [ok_or mbind result_bind]. unfold parse_colon_port. change (nonempty (":" ++ dec port)) with true. cbv iota.
    rewrite strip_prefix_app. cbn [ok_or mbind result_bind]. rewrite Hport. cbn [mbind result_bind].
    change (ipv6_to_string g) with (ip_to_string (V6 g)). by rewrite (IpText.ip_text_reads_back (V6 g) Hh).
Qed.
End authorities.

(** ** The bridge's head *)

(** What is in front of a delimiter holds none. *)
Lemma split_once_str_front pat s a b : pat <> [] -> split_once_str pat s = Some (a, b) -> split_once_str pat a = None.
Proof.
  intros Hpat. revert a. induction s as [|c s IH]; intros a H; cbn [split_once_str] in H; (destruct (strip_prefix pat _) as [r|] eqn:E; [injection H as <- <-|]).
  1, 3: destruct pat; [done|reflexivity].
  - done.
  - apply bind_Some in H as ([a' b'] & H & [= <- <-]). pose proof (split_once_str_sound _ _ _ _ H) as Hs. cbn [split_once_str].
    destruct (strip_prefix pat (c :: a')) as [r|] eqn:E'; [exfalso|by rewrite (IH _ H)].
    apply strip_prefix_Some in E'. rewrite Hs in E. assert (c :: a' ++ pat ++ b' = pat ++ r ++ pat ++ b') as Ec.
    { change (c :: a' ++ pat ++ b') with ((c :: a') ++ pat ++ b'). by rewrite E', <- app_assoc. }
    rewrite Ec, strip_prefix_app in E. done.
Qed.
Lemma split_str_first s line lines : split_str CRLF s = line :: lines -> split_once_str CRLF line = None.
Proof.
  unfold split_str. destruct s as [|c s]; [by intros [= <- _]|]. cbn [length split_str_fuel].
  destruct (split_once_str CRLF (c :: s)) as [[w rest]|] eqn:E; intros [= <- _]; [by eapply split_once_str_front|done].
Qed.

Definition authorization (token : str) : Header := mkHeader "proxy-authorization" ("Bearer " ++ token).
Definition authorization_line (token : str) : str := field_line "Proxy-Authorization" (authorization token).
Definition is_authorization : Header -> bool := named "proxy-authorization".

Lemma bridged_line_Ok line kept : bridged_line line = Ok kept -> line <> [] /\ proper_line line /\
  exists h, parse_header_line request_header_errors line = Ok h /\ kept = negb (is_authorization h).
Proof.
  intros H. apply err_if_bind_Ok in H as [Hb H]. apply bind_Ok in H as ([name value] & Hs & H). apply ok_or_Ok in Hs.
  apply err_if_bind_Ok in H as [Hn [= <-]]. rewrite !orb_false_iff, !negb_false_iff in Hb, Hn.
  destruct Hb as [[Hne Hblank] Hctl], Hn as [[Hname _] Htok]. destruct line as [|c line]; [done|].
  pose proof Hs as Hsp. apply split_once_Some in Hsp as [Hline _]. apply existsb_value_byte in Hctl. rewrite forallb_Forall in Hctl.
  split; [done|]. split.
  - split; [|exists c, line; split; [done|]].
    + intros Hin. rewrite Forall_forall in Hctl. by apply Hctl, value_byte_lf in Hin.
    + apply Forall_cons in Hctl as [Hc _]. by intros ->.
  - exists (mkHeader (to_ascii_lowercase name) (trim_matches is_blank_byte value)). split; [|done].
    unfold parse_header_line. rewrite Hblank, Hs. cbn [err_if mbind result_bind ok_or]. rewrite Hname, Htok. cbn [negb orb err_if mbind result_bind].
    rewrite (proj2 (existsb_value_byte _)); [done|]. rewrite forallb_Forall. apply Forall_forall. intros b Hin.
    rewrite Forall_forall in Hctl. apply Hctl. rewrite Hline. apply elem_of_app. right. apply elem_of_cons. right. by apply trim_matches_subset in Hin.
Qed.
Lemma bridged_lines_Ok lines kept : bridged_lines lines = Ok kept ->
  exists ks hs, kept = concat (map (fun line => line ++ CRLF) ks) /\ Forall proper_line ks /\ Forall lf_free lines /\
    parse_header_lines request_header_errors lines = Ok hs /\
    parse_header_lines request_header_errors ks = Ok (List.filter (fun h => negb (is_authorization h)) hs).
Proof.
  revert kept. induction lines as [|line lines IH]; intros kept H.
  { injection H as <-. by exists [], []. }
  cbn in H. apply bind_Ok in H as (k & Hk & H). apply bind_Ok in H as (rest & Hr & [= <-]).
  destruct (bridged_line_Ok _ _ Hk) as (Hne & Hp & h & Hh & ->). destruct (IH _ Hr) as (ks & hs & -> & Hps & Hlf & Hhs & Hks).
  exists (if negb (is_authorization h) then line :: ks else ks), (h :: hs). cbn [List.filter].
  split_and!; [|destruct (negb _); [by constructor|done]|constructor; [apply Hp|done]|by apply parse_header_lines_cons|].
  - destruct (negb _); [|done]. cbn [map concat]. by rewrite <- app_assoc.
  - destruct (negb _); [by apply parse_header_lines_cons|done].
Qed.

Lemma printable_token_Ok token t : printable_token token = Ok t <-> t = token /\ graphic token.
Proof.
  unfold printable_token, graphic. rewrite ok_or_Ok. split.
  - destruct (utf8_valid token); [|done]. destruct (forallb is_graphic token) eqn:E; [|done]. intros [= <-]. split; [done|by apply forallb_Forall].
  - intros [-> Hg]. rewrite utf8_valid_ascii; [by rewrite (proj2 (forallb_Forall _ _))|].
    apply (Forall_impl _ _ _ Hg). intros c. destruct c as [[] [] [] [] [] [] [] []]; vm_compute; done.
Qed.
Lemma good_authorization token : graphic token -> token <> [] -> good_header (authorization token).
Proof.
  intros Hg Hne. unfold authorization. constructor; cbn [header_name header_value]; [done..| |].
  - unfold trim_matches. rewrite (trim_start_by_id _ (("Bearer " : str) ++ token)) by (intros c r [= <- _]; reflexivity).
    apply trim_end_by_id. intros c r Hc. destruct token as [|t token _] using rev_ind; [done|].
    rewrite app_assoc in Hc. apply app_inj_tail in Hc as [_ ->]. apply graphic_not_blank. apply Forall_app in Hg as [_ Hg]. by apply Forall_cons in Hg as [? _].
  - rewrite forallb_Forall. apply Forall_app. split; [by repeat constructor|]. rewrite <- forallb_Forall. by apply graphic_value.
Qed.
Lemma authorized_by_token `{Sha256} r token hs : graphic token -> headers r = List.filter (fun h => negb (is_authorization h)) hs ++ [authorization token] ->
  is_authorized r (Some token) = true.
Proof.
  intros Hg Hh. unfold is_authorized, unique_header. rewrite Hh, List.filter_app.
  assert (List.filter (named "proxy-authorization") (List.filter (fun h => negb (is_authorization h)) hs) = []) as ->.
  { clear. induction hs as [|h hs IH]; [done|]. cbn [List.filter]. destruct (is_authorization h) eqn:E; [exact IH|]. cbn [negb List.filter].
    unfold is_authorization in E. by rewrite E. }
  change ([] ++ List.filter (named "proxy-authorization") [authorization token]) with [authorization token]. cbv iota.
  assert (Forall (fun c => is_ascii c = true) (header_value (authorization token))) as Ha.
  { apply Forall_app. split; [by repeat constructor|]. apply (Forall_impl _ _ _ Hg). intros c. destruct c as [[] [] [] [] [] [] [] []]; vm_compute; done. }
  rewrite (utf8_valid_ascii _ Ha). change (split_once " " (header_value (authorization token))) with (Some ("Bearer" : str, token)).
  cbv iota. apply andb_true_iff. split; [reflexivity|]. by apply token_matches_spec.
Qed.
Lemma authenticated_head_shape head token out : authenticated_request_head head token = Ok out ->
  graphic token /\ exists line lines ks hs,
    head_lines head = (line, lines) /\ split_once_str CRLF line = None /\
    out = RustStr.join CRLF (line :: ks ++ [authorization_line token]) ++ HEADER_END /\
    Forall proper_line ks /\ parse_header_lines request_header_errors lines = Ok hs /\
    parse_header_lines request_header_errors ks = Ok (List.filter (fun h => negb (is_authorization h)) hs).
Proof.
  unfold authenticated_request_head. intros H. apply err_if_bind_Ok in H as [_ H]. apply bind_Ok in H as (text & Ht & H).
  apply ok_or_Ok, strip_suffix_Some in Ht as ->. cbv zeta in H. apply bind_Ok in H as (line & Hl & H). apply ok_or_Ok in Hl.
  apply err_if_bind_Ok in H as [_ H]. apply bind_Ok in H as (t & Htok & H). apply printable_token_Ok in Htok as [-> Hg].
  apply bind_Ok in H as (kept & Hk & [= <-]). destruct (split_str CRLF text) as [|line' lines] eqn:Es; [done|]. injection Hl as ->.
  cbn [tail] in Hk. apply bridged_lines_Ok in Hk as (ks & hs & -> & Hps & _ & Hhs & Hks).
  split; [done|]. exists line, lines, ks, hs. split_and!; [|by eapply split_str_first| |done..].
  - unfold head_lines. rewrite (proj2 (strip_suffix_Some HEADER_END (text ++ HEADER_END) text) eq_refl). cbn [default from_option]. unfold id. by rewrite Es.
  - rewrite join_cons_cons by (by destruct ks). rewrite <- concat_lines. rewrite <- !app_assoc. reflexivity.
Qed.

Lemma split_str_lf p : exists w ws, split_str CRLF (LF :: p) = (LF :: w) :: ws.
Proof.
  unfold split_str. cbn. rewrite (bool_decide_eq_false_2 (CR = LF)) by done.
  destruct (split_once_str CRLF p) as [[x y]|]; cbn; eauto.
Qed.
(** The pieces of a request that the proxy accepts. *)
Lemma parsed_request_pieces `{Idna, HttpUrlCrate} pre r : ParsedRequest_parse (pre ++ HEADER_END) = Ok r ->
  bare_lf (pre ++ HEADER_END) = false /\ (forall p, pre <> LF :: p) /\
  exists line lines, head_lines (pre ++ HEADER_END) = (line, lines) /\ parse_header_lines request_header_errors lines = Ok (headers r).
Proof.
  unfold ParsedRequest_parse. intros [_ Hr]%err_if_bind_Ok. apply err_if_bind_Ok in Hr as [_ Hr].
  apply err_if_bind_Ok in Hr as [Hlf%head_no_bare_lf Hr].
  destruct (head_lines (pre ++ HEADER_END)) as [line lines] eqn:Hl. cbv zeta in Hr.
  apply err_if_bind_Ok in Hr as [Hline Hr]. apply bind_Ok in Hr as (hs & Hhs & Hr). apply bind_Ok in Hr as (f & _ & Hr).
  apply err_if_bind_Ok in Hr as [_ Hr]. apply err_if_bind_Ok in Hr as [_ Hr]. apply bind_Ok in Hr as (host & _ & Hr).
  apply bind_Ok in Hr as (t & _ & Hr). apply err_if_bind_Ok in Hr as [_ [= <-]].
  split; [done|]. split; [|by exists line, lines]. intros p ->. repeat rewrite orb_false_iff in Hline. destruct Hline as (_ & Htok).
  unfold head_lines in Hl. rewrite (proj2 (strip_suffix_Some HEADER_END ((LF :: p) ++ HEADER_END) (LF :: p)) eq_refl) in Hl. cbn [default from_option] in Hl. unfold id in Hl.
  destruct (split_str_lf p) as (w & ws & E). rewrite E in Hl. injection Hl as <- <-. destruct (split_first_lf w) as (w' & ws' & E'). by rewrite E' in Htok.
Qed.

(** The bridge of the container puts the token of the egress proxy into a request and
    changes nothing else.  A head that it sends is one head with the client's request
    line and, when the proxy accepts it, the fields that the client sent other than
    its credentials, in their order, with the token's field behind them: the proxy
    takes the request for authorised. *)
Theorem bridge_authenticates `{Idna, HttpUrlCrate, Sha256} bytes token head out r :
  AuthToken_new bytes = Ok token -> authenticated_request_head head token = Ok out -> ParsedRequest_parse out = Ok r ->
  is_authorized r (Some token) = true /\ find_header_end out = Some (length out) /\
  exists line lines lines' hs,
    head_lines head = (line, lines) /\ head_lines out = (line, lines') /\
    parse_header_lines request_header_errors lines = Ok hs /\
    headers r = List.filter (fun h => negb (is_authorization h)) hs ++ [authorization token].
Proof.
  intros (Et & Hnt & _)%AuthToken_new_Ok Ho Hr. rewrite <- Et in Hnt.
  destruct (authenticated_head_shape _ _ _ Ho) as (Hg & line & lines & ks & hs & Hhead & Hcrlf & -> & Hps & Hhs & Hks).
  set (rest := ks ++ [authorization_line token]) in *. pose proof (good_authorization _ Hg Hnt) as Hgood.
  assert (Forall proper_line rest) as Hrest by (apply Forall_app; split; [done|]; constructor; [by apply proper_field|done]).
  destruct (parsed_request_pieces _ _ Hr) as (Hbare & Hfirst & l & ls & Hl & Hparse).
  assert (rest <> []) as Hrne by (unfold rest; by destruct ks).
  assert (lf_free line) as Hline.
  { apply lf_after_cr_none; [done|]. intros a b E. pose proof (bare_lf_false _ Hbare a) as Hb. rewrite join_cons_cons in Hb by done.
    rewrite E in Hb. destruct (Hb (b ++ CRLF ++ RustStr.join CRLF rest ++ HEADER_END)) as [->|Ha]; [by rewrite <- !app_assoc| |done].
    exfalso. apply (Hfirst (b ++ CRLF ++ RustStr.join CRLF rest)). rewrite join_cons_cons by done. by rewrite E. }
  assert (head_lines (RustStr.join CRLF (line :: rest) ++ HEADER_END) = (line, rest)) as Hout.
  { apply head_lines_join; [done|]. constructor; [done|]. apply (Forall_impl _ _ _ Hrest). by intros w [? _]. }
  rewrite Hout in Hl. injection Hl as <- <-.
  assert (headers r = List.filter (fun h => negb (is_authorization h)) hs ++ [authorization token]) as Hheaders.
  { assert (parse_header_lines request_header_errors rest = Ok (List.filter (fun h => negb (is_authorization h)) hs ++ [authorization token])) as E.
    { apply parse_header_lines_app; [done|]. apply parse_header_lines_cons; [done|by apply parse_field_line|done]. }
    rewrite Hparse in E. by injection E. }
  split; [by eapply authorized_by_token|]. split; [|by exists line, lines, rest, hs].
  unfold find_header_end. rewrite split_header_end; [cbn [mbind option_bind]; by rewrite length_app|done|done|done].
Qed.

(** ** The request for a tunnel *)

Definition tunnel_fields (target : Authority) (token : option str) : list Header :=
  [mkHeader "host" (display_with_port target); mkHeader "proxy-connection" "close"]
  ++ match token with Some token => [authorization token] | None => [] end.
Definition tunnel_lines (target : Authority) (token : option str) : list str :=
  [field_line "Host" (mkHeader "host" (display_with_port target)); field_line "Proxy-Connection" (mkHeader "proxy-connection" "close")]
  ++ match token with Some token => [authorization_line token] | None => [] end.
Definition tunnel_line (target : Authority) : str := "CONNECT " ++ display_with_port target ++ " HTTP/1.1".

Lemma Ok_inj {E A} (a b : A) : @Ok E A a = Ok b -> b = a.
Proof. congruence. Qed.
Lemma connect_request_lines target token request : connect_request target token = Ok request ->
  match token with Some token => graphic token | None => True end /\
  request = RustStr.join CRLF (tunnel_line target :: tunnel_lines target token) ++ HEADER_END.
Proof.
  unfold connect_request, tunnel_line, tunnel_lines, HEADER_END. cbv zeta. intros H. apply bind_Ok in H as (q & Hq & ->%Ok_inj). destruct token as [token|].
  - apply bind_Ok in Hq as (t & Ht & ->%Ok_inj). apply printable_token_Ok in Ht as [-> Hg].
    split; [done|]. change ([?a; ?b] ++ [?c]) with [a; b; c]. rewrite !join_cons_cons by done. rewrite <- !app_assoc. reflexivity.
  - apply Ok_inj in Hq as ->. split; [done|]. rewrite app_nil_r, !join_cons_cons by done. rewrite <- !app_assoc. reflexivity.
Qed.
Lemma lf_after_cr_app s t : lf_after_cr s -> lf_after_cr t -> lf_after_cr (s ++ t).
Proof.
  intros Hs Ht a b E. apply app_eq_inv in E as [(k & -> & E)|(k & -> & E)].
  - destruct k as [|c k]; cbn in E; [subst t; by destruct (Ht [] b eq_refl) as [[|? ?] ?]|]. injection E as <- ->. by apply (Hs a k).
  - destruct (Ht k b E) as [k' ->]. exists (s ++ k'). by rewrite app_assoc.
Qed.
Lemma lf_free_after_cr s : lf_free s -> lf_after_cr s.
Proof. intros Hs a b ->. exfalso. apply Hs. apply elem_of_app. right. apply list_elem_of_here. Qed.
Lemma lf_after_cr_crlf : lf_after_cr CRLF.
Proof. intros [|c [|d a]] b E; [done| |]; injection E; intros; subst; [by exists []|by destruct a]. Qed.
Lemma lf_after_cr_join ws : Forall lf_free ws -> lf_after_cr (RustStr.join CRLF ws).
Proof.
  induction 1 as [|w ws Hw Hws IH]; [by intros [|? ?] ? ?|]. destruct ws as [|w2 ws]; [by apply lf_free_after_cr|].
  rewrite join_cons_cons by done. apply lf_after_cr_app; [by apply lf_free_after_cr|]. apply lf_after_cr_app; [apply lf_after_cr_crlf|done].
Qed.
Lemma after_cr_not_bare s : lf_after_cr s -> bare_lf s = false.
Proof.
  intros Hs. assert (forall a b, s = a ++ LF :: b -> a = [] \/ exists a', a = a' ++ [CR]) as H by (intros a b E; right; by eapply Hs). clear Hs.
  unfold bare_lf. induction s as [|x [|y s] IH]; [done..|]. cbn [windows2_any]. apply orb_false_iff. split.
  - apply andb_false_iff. destruct (is_byte LF y) eqn:Ey; [right|by left]. apply is_byte_true in Ey as <-. apply negb_false_iff, is_byte_true.
    destruct (H [x] s eq_refl) as [|[[|? a] Ha]]; [done| |]; [by injection Ha|]. injection Ha. by destruct a.
  - apply IH. intros a b E. destruct (H (x :: a) b) as [|[[|c a'] Ha]]; [by rewrite E|done| |].
    + injection Ha as _ ->. by left.
    + injection Ha as _ ->. right. by exists a'.
Qed.

(** Text that a head can carry. *)
Definition plain_byte (c : ascii) : bool := is_graphic c || contains_byte c (" "%char :: CRLF).
Lemma plain_head s : Forall (fun c => plain_byte c = true) s -> contains_byte NUL s = false /\ utf8_valid s = true.
Proof.
  intros Hs. split.
  - apply contains_byte_false. intros Hin. rewrite Forall_forall in Hs. apply Hs in Hin. done.
  - apply utf8_valid_ascii. apply (Forall_impl _ _ _ Hs). intros c. destruct c as [[] [] [] [] [] [] [] []]; vm_compute; done.
Qed.
Lemma plain_graphic s : graphic s -> Forall (fun c => plain_byte c = true) s.
Proof. intros Hs. apply (Forall_impl _ _ _ Hs). intros c Hc. unfold plain_byte. by rewrite Hc. Qed.
Lemma plain_join ws : Forall (Forall (fun c => plain_byte c = true)) ws -> Forall (fun c => plain_byte c = true) (RustStr.join CRLF ws).
Proof.
  induction 1 as [|w ws Hw Hws IH]; [done|]. destruct ws as [|w2 ws]; [done|]. rewrite join_cons_cons by done.
  apply Forall_app; split; [done|]. apply Forall_app; split; [by repeat constructor|done].
Qed.
Section tunnels.
Context `{Idna, HttpUrlCrate}.

Lemma normal_graphic target : normal target -> graphic (display_with_port target).
Proof.
  destruct target as [host port]. intros [Hh _]. cbn [auth_host] in Hh. apply graphic_authority. eapply graphic_host. by apply normal_host_parses.
Qed.
Lemma tunnel_fields_good target token : normal target -> match token with Some token => graphic token /\ token <> [] | None => True end ->
  Forall good_header (tunnel_fields target token).
Proof.
  intros Hn Ht. unfold tunnel_fields. apply Forall_app. split.
  - constructor; [apply good_graphic_header; [done..|by apply normal_graphic]|]. constructor; [|done].
    apply good_graphic_header; try done. by repeat constructor.
  - destruct token as [token|]; [|done]. constructor; [|done]. destruct Ht. by apply good_authorization.
Qed.
Lemma tunnel_fields_read target token : Forall good_header (tunnel_fields target token) ->
  parse_header_lines request_header_errors (tunnel_lines target token) = Ok (tunnel_fields target token)
  /\ Forall proper_line (tunnel_lines target token).
Proof.
  intros HF. unfold tunnel_fields, tunnel_lines in *. apply Forall_app in HF as [H12 H3]. apply Forall_cons in H12 as [H1' H2']. apply Forall_cons in H2' as [H2' _].
  destruct token as [token|].
  - apply Forall_cons in H3 as [H3 _]. split.
    + cbn [app]. apply parse_header_lines_cons; [done|by apply parse_field_line|]. apply parse_header_lines_cons; [done|by apply parse_field_line|].
      apply parse_header_lines_cons; [done|by apply parse_field_line|done].
    + repeat constructor; by apply proper_field.
  - split.
    + cbn [app]. apply parse_header_lines_cons; [done|by apply parse_field_line|]. by apply parse_header_lines_cons; [done|by apply parse_field_line|].
    + repeat constructor; by apply proper_field.
Qed.

(** A request for a tunnel is one head, and the egress proxy reads it as the tunnel
    to that target, without a body, authorised by the token. *)
Theorem connect_request_reads_back `{Sha256} target token request : normal target -> token <> Some [] ->
  connect_request target token = Ok request ->
  find_header_end request = Some (length request) /\
  exists r, ParsedRequest_parse request = Ok r /\ Http.target r = Http.TargetConnect target /\ framing r = FramingNone /\
    headers r = tunnel_fields target token /\ is_authorized r token = true.
Proof.
  intros Hn Hne Hr. apply connect_request_lines in Hr as [Ht ->]. pose proof (normal_graphic _ Hn) as Hg.
  assert (Forall good_header (tunnel_fields target token)) as Hgood by (apply tunnel_fields_good; [done|destruct token; [split; [done|congruence]|done]]).
  destruct (tunnel_fields_read _ _ Hgood) as [Hfields Hproper]. set (line := tunnel_line target) in *.
  assert (Forall (fun c => plain_byte c = true) line) as Hplain.
  { unfold line, tunnel_line. apply Forall_app; split; [by repeat constructor|]. apply Forall_app; split; [by apply plain_graphic|by repeat constructor]. }
  assert (lf_free line) as Hline.
  { unfold line, tunnel_line. rewrite !lf_free_app. split; [apply (bool_decide_unpack _); vm_compute; exact Logic.I|].
    split; [by apply graphic_lf_free|apply (bool_decide_unpack _); vm_compute; exact Logic.I]. }
  split.
  { unfold find_header_end. rewrite split_header_end; [cbn [mbind option_bind]; by rewrite length_app|done|done|done]. }
  assert (Forall (Forall (fun c => plain_byte c = true)) (tunnel_lines target token)) as Hplains.
  { assert (Forall (fun c => plain_byte c = true) (display_with_port target)) as Hd by (by apply plain_graphic).
    unfold tunnel_lines. apply Forall_app. split; [constructor; [|constructor; [|done]]|]; unfold field_line; cbn [header_value].
    - apply Forall_app; split; [by repeat constructor|]. apply Forall_app; split; [by repeat constructor|done].
    - apply (bool_decide_unpack _). vm_compute. exact Logic.I.
    - destruct token as [token|]; [|done]. constructor; [|done]. unfold authorization_line, field_line, authorization. cbn [header_value].
      apply Forall_app; split; [by repeat constructor|]. apply Forall_app; split; [by repeat constructor|]. apply Forall_app; split; [by repeat constructor|by apply plain_graphic]. }
  set (ws := line :: tunnel_lines target token) in *. set (bytes := RustStr.join CRLF ws ++ HEADER_END).
  assert (Forall lf_free ws) as Hws by (constructor; [done|]; apply (Forall_impl _ _ _ Hproper); by intros w [? _]).
  destruct (plain_head bytes) as [Hnul Hutf].
  { apply Forall_app; split; [apply plain_join; by constructor|by repeat constructor]. }
  assert (bare_lf bytes = false) as Hbare.
  { apply after_cr_not_bare, lf_after_cr_app; [by apply lf_after_cr_join|]. apply lf_after_cr_app; apply lf_after_cr_crlf. }
  assert (split " " line = [("CONNECT" : str); display_with_port target; "HTTP/1.1" : str]) as Hsplit.
  { change line with (RustStr.join [" "%char] [("CONNECT" : str); display_with_port target; "HTTP/1.1" : str]). apply split_join; [done|].
    repeat constructor; try (apply (bool_decide_unpack _); vm_compute; exact Logic.I).
    intros Hin. unfold graphic in Hg. rewrite Forall_forall in Hg. by apply Hg in Hin. }
  assert (utf8_valid (display_with_port target) = true) as Hutf'.
  { apply utf8_valid_ascii, (Forall_impl _ _ _ Hg). intros c. destruct c as [[] [] [] [] [] [] [] []]; vm_compute; done. }
  unfold ParsedRequest_parse. rewrite Hnul, Hutf, Hbare, andb_false_r. cbn [negb err_if mbind result_bind].
  change (head_lines bytes) with (head_lines (RustStr.join CRLF ws ++ HEADER_END)). rewrite (head_lines_join ws line (tunnel_lines target token) eq_refl Hws), Hsplit. cbv zeta.
  change (default [] ([("CONNECT" : str); display_with_port target; "HTTP/1.1" : str] !! 0)) with ("CONNECT" : str).
  change (default [] ([("CONNECT" : str); display_with_port target; "HTTP/1.1" : str] !! 1)) with (display_with_port target).
  change (default [] ([("CONNECT" : str); display_with_port target; "HTTP/1.1" : str] !! 2)) with ("HTTP/1.1" : str).
  assert (nonempty (display_with_port target) = true) as -> by (unfold display_with_port; by destruct (authority_name _)).
  match goal with |- context [err_if ?b _] => change b with false end. cbn [err_if mbind result_bind].
  rewrite Hfields. cbn [mbind result_bind].
  assert (validate_framing (tunnel_fields target token) = Ok FramingNone) as -> by (by destruct token).
  assert (existsb (named "expect") (tunnel_fields target token) = false) as -> by (by destruct token).
  assert (unique_header (tunnel_fields target token) "host" = Ok (Some (display_with_port target))) as ->.
  { unfold unique_header. assert (List.filter (named "host") (tunnel_fields target token) = [mkHeader "host" (display_with_port target)]) as -> by (by destruct token).
    cbn [header_value]. by rewrite Hutf'. }
  assert (parse_request_target "CONNECT" (display_with_port target) (Some (display_with_port target)) = Ok (Http.TargetConnect target)) as Htarget.
  { unfold parse_request_target, authority_of. change (eq_ignore_ascii_case "CONNECT" "CONNECT") with true. cbv iota.
    rewrite authority_reads_back by done. cbn [map_err mbind result_bind]. rewrite authority_reads_back by done. cbn [map_err mbind result_bind].
    by rewrite bool_decide_eq_true_2. }
  cbn [err_if mbind result_bind]. rewrite Htarget. cbn [mbind result_bind is_connect]. change (bool_decide (FramingNone = FramingNone)) with true.
  eexists. split; [reflexivity|]. split_and!; [done..|]. destruct token as [token|]; [|done].
  apply (authorized_by_token _ token [mkHeader "host" (display_with_port target); mkHeader "proxy-connection" "close"]); done.
Qed.
End tunnels.

(** ** The answer of the proxy *)

#[local] Instance same_output_trans : Transitive same_output.
Proof. unfold same_output. intros c c1 c2. intuition congruence. Qed.

Lemma header_end_cut s n : find_header_end s = Some n -> find_header_end (take n s) = Some (length (take n s)).
Proof.
  unfold find_header_end. intros H. apply bind_Some in H as ([a b] & Hs & [= <-]). pose proof (split_once_str_sound _ _ _ _ Hs) as ->.
  assert (take (length a + 4) (a ++ HEADER_END ++ b) = a ++ HEADER_END) as ->.
  { rewrite app_assoc. replace (length a + 4)%nat with (length (a ++ HEADER_END)) by (by rewrite length_app). apply take_app_length. }
  rewrite (Transfer.Transfer.split_once_str_cut _ _ _ _ Hs). cbn [mbind option_bind]. by rewrite length_app.
Qed.

Lemma runs_connect_read limit c Q : (0 < limit)%nat ->
  (forall bytes c', same_output c c' -> bytes <> [] -> delivered (inbound c) = bytes ++ delivered (inbound c') -> (volume (inbound c') < volume (inbound c))%nat -> Q (Ok bytes) c') ->
  (forall c', same_output c c' -> Q (Ok []) c') ->
  (forall e c', same_output c c' -> Q (Err e) c') ->
  runs (read_some limit) c Q.
Proof.
  intros Hl HOk HEnd HErr. unfold runs, read_some. destruct (read limit c) as [[bytes|e] c'] eqn:E; eexists _, _; (split; [reflexivity|]).
  - destruct (read_Ok _ _ _ _ E) as (Ho & Hc & Hf & _ & _ & Hne). destruct bytes as [|b bytes]; [by apply HEnd|].
    destruct (Hne ltac:(done)) as [Hd Hv]. by apply HOk.
  - destruct (read_Err _ _ _ _ E) as (Ho & Hc & Hf & _). by apply HErr.
Qed.
Definition head_read (maximum : nat) (input : str) (c c' : Conn) (r : result ConnectError (str * str)) : Prop :=
  same_output c c' /\
  match r with
  | Ok (head, rest) => input = head ++ rest ++ delivered (inbound c') /\ find_header_end head = Some (length head) /\ (length head <= maximum)%nat
  | Err _ => True
  end.
Lemma runs_read_head_loop fuel limit maximum e received c : (0 < limit)%nat -> (volume (inbound c) < fuel)%nat ->
  runs (read_head_loop fuel limit maximum e received) c (fun r c' => head_read maximum (received ++ delivered (inbound c)) c c' r).
Proof.
  intros Hl. revert received c. induction fuel as [|fuel IH]; intros received c Hv; [lia|]. cbn [read_head_loop].
  apply runs_bind, runs_connect_read; [done|..].
  2, 3: intros; by first [apply runs_throw|idtac].
  intros bytes c1 Hs Hne Hd Hvol. assert (negb (nonempty bytes) = false) as -> by (by destruct bytes). cbv zeta.
  destruct (find_header_end (received ++ bytes)) as [n|] eqn:En.
  - destruct (maximum <? n)%nat eqn:Em; [by apply runs_throw|]. apply runs_ret. split; [done|]. bool_split.
    split; [by rewrite (app_assoc (take _ _)), take_drop, Hd, app_assoc|]. split; [by apply header_end_cut|]. rewrite length_take. lia.
  - destruct (_ <? _)%nat; [by apply runs_throw|]. refine (runs_mono _ _ _ _ (IH (received ++ bytes) c1 ltac:(lia)) _).
    intros r c2 [Hs2 Hr]. split; [by trans c1|]. destruct r as [[head rest]|]; [|done]. by rewrite Hd, app_assoc.
Qed.
Lemma runs_read_head limit maximum e c : (0 < limit)%nat -> runs (read_head limit maximum e) c (fun r c' => head_read maximum (delivered (inbound c)) c c' r).
Proof. intros Hl. by apply (runs_read_head_loop _ _ _ _ []); [|lia]. Qed.

Lemma runs_write_within bytes c Q :
  (forall c', inbound c' = inbound c -> outbound c' = outbound c ++ bytes -> Q (Ok tt) c') ->
  (forall e c' w, inbound c' = inbound c -> outbound c' = outbound c ++ w -> w `prefix_of` bytes -> Q (Err e) c') ->
  runs (write_within bytes) c Q.
Proof.
  intros HOk HErr. unfold runs, write_within. destruct (write_all_within bytes c) as [r c'] eqn:E. eexists _, _. split; [reflexivity|].
  destruct (write_all_within_spec _ _ _ _ E) as (Hi & _ & w & Ho & Hp & Hw). destruct r as [[]|e]; [|by apply (HErr _ _ w)].
  rewrite (Hw eq_refl) in Ho. by apply HOk.
Qed.

(** A tunnel that the proxy has answered: the request was sent whole, and a head
    of at most 16 KiB with status 200 came back. *)
Definition tunnelled (target : Authority) (token : option str) (request head : str) : Prop :=
  connect_request target token = Ok request /\ find_header_end head = Some (length head) /\
  (length head <= MAX_CONNECT_RESPONSE_BYTES)%nat /\ validate_response_head head = Ok tt.
Definition asked (target : Authority) (token : option str) (w : str) : Prop :=
  forall request, connect_request target token = Ok request -> w `prefix_of` request.

Lemma runs_establish_connect target token timeout c :
  runs (establish_connect target token timeout) c (fun r c' => exists w, outbound c' = outbound c ++ w /\
    match r with
    | Ok rest => exists head, delivered (inbound c) = head ++ rest ++ delivered (inbound c') /\ tunnelled target token w head
    | Err _ => (w = [] \/ exists request, connect_request target token = Ok request) /\ asked target token w
    end).
Proof.
  unfold establish_connect. apply runs_bind, runs_throw_if.
  { intros _. exists []. rewrite app_nil_r. split; [done|]. split; [by left|]. intros request _. apply prefix_nil. }
  intros _. apply runs_bind. destruct (connect_request target token) as [request|e] eqn:Er.
  2: { eexists _, _. split; [reflexivity|]. exists []. rewrite app_nil_r. split; [done|]. split; [by left|]. intros request _. apply prefix_nil. }
  eexists _, _. split; [reflexivity|]. apply runs_bind, runs_write_within.
  2: { intros e c1 w Hi Ho Hp. exists w. split; [done|]. split; [right; by exists request|]. intros q Hq. rewrite Er in Hq. by injection Hq as <-. }
  intros c1 Hi Ho. apply runs_bind. refine (runs_mono _ _ _ _ (runs_read_head 1024 _ _ _ _) _); [lia|].
  intros r c2 [(Ho2 & _) Hr]. assert (asked target token request) as Hasked by (intros q Hq; rewrite Er in Hq; injection Hq as <-; done).
  assert (outbound c2 = outbound c ++ request) as Hout by congruence.
  destruct r as [[head rest]|e].
  2: { exists request. split; [done|]. split; [right; by exists request|done]. }
  rewrite Hi in Hr. destruct Hr as (Hd & Hh & Hm). apply runs_bind. destruct (validate_response_head head) as [[]|e] eqn:Ev.
  - eexists _, _. split; [reflexivity|]. apply runs_ret. exists request. split; [done|]. exists head. split; [done|]. done.
  - eexists _, _. split; [reflexivity|]. exists request. split; [done|]. split; [right; by exists request|done].
Qed.

(** ** The greeting inside a tunnel *)

Lemma prefix_of_piece (a w b : str) : w `prefix_of` b -> (a ++ w) `prefix_of` (a ++ b).
Proof. intros [k ->]. exists k. by rewrite app_assoc. Qed.

(** What a client has said of a greeting when it stops: a part of it, the whole
    when the server has let it in. *)
Definition greeted (token : str) (c c' : Conn) (r : result Handshake.RelayError unit) : Prop :=
  exists v, outbound c' = outbound c ++ v /\ v `prefix_of` hello token /\
    (r = Ok tt -> v = hello token /\ delivered (inbound c) = AUTH_OK :: delivered (inbound c')).
Lemma runs_greeting_piece {A} token bytes (k : unit -> ST Conn Handshake.RelayError A) c c1 said Q :
  outbound c1 = outbound c ++ said -> inbound c1 = inbound c -> (said ++ bytes) `prefix_of` hello token ->
  (forall e c', greeted token c c' (Err e) -> Q (Err e) c') ->
  (forall c', inbound c' = inbound c -> outbound c' = outbound c ++ said ++ bytes -> runs (k tt) c' Q) ->
  runs (write_bytes bytes ≫= k) c1 Q.
Proof.
  intros Ho Hi Hp HErr HOk. apply runs_bind, runs_write_bytes.
  - intros c2 Hi2 Ho2 _. apply HOk; [congruence|]. by rewrite Ho2, Ho, <- app_assoc.
  - intros e c2 w Hi2 Ho2 Hw _. apply HErr. exists (said ++ w). rewrite Ho2, Ho, <- app_assoc. split; [done|]. split; [|done].
    trans (said ++ bytes); [by apply prefix_of_piece|done].
Qed.
Lemma runs_greeted token c : runs (authenticate_client token) c (fun r c' => greeted token c c' r).
Proof.
  apply runs_bind, runs_throw_if.
  { intros _. exists []. rewrite app_nil_r. split; [done|]. split; [apply prefix_nil|done]. }
  intros _. apply (runs_greeting_piece token HANDSHAKE_MAGIC _ c c []); [by rewrite app_nil_r|done|by eexists|done|]. intros c1 Hi1 Ho1.
  apply (runs_greeting_piece token (u16_bytes (length token)) _ c c1 HANDSHAKE_MAGIC); [done..| |done|].
  { exists token. unfold hello. by rewrite <- app_assoc. }
  intros c2 Hi2 Ho2. apply (runs_greeting_piece token token _ c c2 (HANDSHAKE_MAGIC ++ u16_bytes (length token))); [by rewrite Ho2|done| |done|].
  { exists []. by rewrite app_nil_r, <- app_assoc. }
  intros c3 Hi3 Ho3. assert (outbound c3 = outbound c ++ hello token) as Ho by (rewrite Ho3; unfold hello; by rewrite <- !app_assoc).
  clear - Hi3 Ho. apply runs_bind, runs_bind, runs_read_exact_loop; [lia| |].
  2: { intros e c4 _ (Ho4 & _) _. exists (hello token). split; [congruence|]. done. }
  intros [|b [|]] c4 (Ho4 & _) Hlen Hd; try done. rewrite Hi3 in Hd. cbn [app]. apply runs_ret.
  assert (forall r, (r = Ok tt -> b = AUTH_OK) -> greeted token c c4 r) as Hg.
  { intros r Hr. exists (hello token). split; [congruence|]. split; [done|]. intros ->. by rewrite Hd, Hr. }
  destruct (is_byte b AUTH_OK) eqn:E1; [|destruct (is_byte b AUTH_DENIED) eqn:E2].
  - apply is_byte_true in E1 as ->. apply runs_ret. by apply Hg.
  - apply runs_throw. by apply Hg.
  - apply runs_throw. by apply Hg.
Qed.

Section bridge.
Context `{RelayNetwork}.
Variables (proxy_address : str) (target : Authority) (proxy_token : option AuthToken) (relay_token : AuthToken) (config : RelayConfig).

(** What has been said to the proxy when the bridge relays or gives up: [w] to the
    proxy itself and [v] behind its answer. *)
Definition bridged (c : Conn) (r : result ConnectError unit) (c' : Conn) (w v : str) : Prop :=
  outbound c' = outbound c ++ w ++ v /\ asked target proxy_token w /\ v `prefix_of` hello relay_token /\
  (v <> [] \/ r = Ok tt -> exists head, tunnelled target proxy_token w head /\
    exists rest, delivered (inbound c) = head ++ rest /\ (r = Ok tt -> v = hello relay_token /\ rest = AUTH_OK :: delivered (inbound c'))).

Lemma runs_bridged c : runs (open_connect_tunnel proxy_address target proxy_token config ;; relay_greeting relay_token) c
  (fun r c' => exists w v, bridged c r c' w v).
Proof.
  assert (forall e c' w, outbound c' = outbound c ++ w -> asked target proxy_token w -> exists w v, bridged c (Err e) c' w v) as Hfail.
  { intros e c' w Ho Hw. exists w, []. unfold bridged. rewrite app_nil_r. split; [done|]. split; [done|]. split; [apply prefix_nil|]. by intros [|]. }
  apply runs_bind, runs_bind, runs_bind. destruct (dial_proxy proxy_address) as [[]|e].
  2: { eexists _, _. split; [reflexivity|]. apply (Hfail _ _ []); [by rewrite app_nil_r|]. intros request _. apply prefix_nil. }
  eexists _, _. split; [reflexivity|]. refine (runs_mono _ _ _ _ (runs_establish_connect _ _ _ _) _). intros r c1 (w & Ho & Hr).
  destruct r as [rest|e]; [|by apply (Hfail _ _ w); [|destruct Hr]]. destruct Hr as (head & Hd & Ht). pose proof Ht as (Hreq & _).
  assert (asked target proxy_token w) as Hw by (intros q Hq; rewrite Hreq in Hq; injection Hq as <-; done).
  apply runs_throw_if; [intros _; by apply (Hfail _ _ w)|]. intros Hrest. destruct rest; [|done]. cbn [app] in Hd.
  destruct (runs_greeted relay_token c1) as (r2 & c2 & Hrun & v & Ho2 & Hv & Hok). unfold runs, relay_greeting. rewrite Hrun.
  cbn [mbind option_bind]. eexists _, _. split; [reflexivity|]. exists w, v. unfold bridged. rewrite Ho2, Ho, <- app_assoc.
  split; [done|]. split; [done|]. split; [done|]. intros _. exists head. split; [done|]. exists (delivered (inbound c1)). split; [done|].
  destruct r2 as [[]|]; [|done]. intros _. by apply Hok.
Qed.

(** A relay's token travels only inside a tunnel.  Whatever the egress proxy
    answers, the bridge ends its greeting; it has sent a part of one CONNECT request
    for the configured target, and bytes of the greeting with the relay's token only
    when the whole request went out and a head with status 200 came back; and it
    relays exactly when the far end then accepted the token, with nothing lost that
    came behind its answer. *)
Theorem relay_token_inside_tunnel local remote events : exists r remote' w v,
  bridged remote r remote' w v /\
  handle_authenticated_bridge local remote proxy_address target proxy_token relay_token config events =
    match r with
    | Ok _ => relayed (Relay.Relay.relay_bidirectional (idle_timeout config) events) local remote' (Some (DialledProxy proxy_address))
    | Err error => failed error local remote' (Some (DialledProxy proxy_address))
    end.
Proof.
  destruct (runs_bridged remote) as (r & remote' & Hrun & w & v & Hb). exists r, remote', w, v. split; [done|].
  unfold handle_authenticated_bridge. rewrite Hrun. by destruct r as [[]|].
Qed.
End bridge.

(** ** An exchange *)

(** A client's request with credentials of its own. *)
Definition client_head : str :=
  lines ["GET http://example.com/a HTTP/1.1"; "Host: example.com"; "proxy-authorization: Basic Zm9v"; "Accept: */*"] ++ CRLF.
Definition sent_head : str :=
  lines ["GET http://example.com/a HTTP/1.1"; "Host: example.com"; "Accept: */*"; "Proxy-Authorization: Bearer secret"] ++ CRLF.
Example bridged_head : authenticated_request_head client_head "secret" = Ok sent_head.
Proof. vm_compute. reflexivity. Qed.
Example refused_head : authenticated_request_head (lines ["GET / HTTP/1.1"; "Host: h"; " folded"] ++ CRLF) "secret" = Err InvalidProxyRequest.
Proof. vm_compute. reflexivity. Qed.
Lemma bridge_authenticates_witness : exists r,
  ParsedRequest_parse (I := plain_idna) (U := plain_url) sent_head = Ok r /\
  is_authorized (H := Concrete.plain_sha) r (Some ("secret" : str)) = true /\ find_header_end sent_head = Some (length sent_head).
Proof.
  destruct (ParsedRequest_parse (I := plain_idna) (U := plain_url) sent_head) as [r|] eqn:E.
  2: { exfalso. assert (is_ok (ParsedRequest_parse (I := plain_idna) (U := plain_url) sent_head) = true) as H by (vm_compute; reflexivity).
       rewrite E in H. discriminate H. }
  exists r. split; [reflexivity|].
  destruct (@bridge_authenticates plain_idna plain_url Concrete.plain_sha ("secret" : str) ("secret" : str) client_head sent_head r) as (Ha & Hl & _).
  - vm_compute. reflexivity.
  - exact bridged_head.
  - exact E.
  - split; [exact Ha|exact Hl].
Defined.

Lemma connect_request_reads_back_witness :
  let target := mkAuthority (Domain "example.com") 443 in
  exists request, connect_request target (Some ("secret" : str)) = Ok request /\ find_header_end request = Some (length request).
Proof.
  intros target. destruct (connect_request target (Some ("secret" : str))) as [request|] eqn:E.
  2: { exfalso. assert (is_ok (connect_request target (Some ("secret" : str))) = true) as H by (vm_compute; reflexivity). rewrite E in H. discriminate H. }
  exists request. split; [reflexivity|].
  destruct (@connect_request_reads_back plain_idna plain_url Concrete.plain_sha target (Some ("secret" : str)) request) as [Hl _].
  - split; [vm_compute; reflexivity|]. split; vm_compute; congruence.
  - discriminate.
  - exact E.
  - exact Hl.
Defined.

(** A proxy that answers, then a relay that lets the bridge in; and a proxy that
    refuses, to which the relay's token is not said. *)
#[local] Instance any_proxy : RelayNetwork := {| connect_tcp := fun _ => Ok tt; connect_unix := fun _ => Ok tt |}.
Definition short_limits : RelayConfig := Handshake.mkRelayConfig 4 1000 1000 1000.
Definition behind (answer : str) : Conn := mkConn [Data answer] [] [] false.
Definition bridge_to (answer : str) : option (result ConnectError unit * str) :=
  (fun '(r, c) => (r, outbound c)) <$>
  (open_connect_tunnel "proxy:3128" (mkAuthority (Domain "example.com") 443) None short_limits ;; relay_greeting "relay") (behind answer).
Definition tunnel_text : str := lines ["CONNECT example.com:443 HTTP/1.1"; "Host: example.com:443"; "Proxy-Connection: close"] ++ CRLF.
Example refused_tunnel : bridge_to (lines ["HTTP/1.1 403 Forbidden"] ++ CRLF) = Some (Err (ProxyDenied 403), tunnel_text).
Proof. vm_compute. reflexivity. Qed.
Example early_data : bridge_to (lines ["HTTP/1.1 200 OK"] ++ CRLF ++ [AUTH_OK]) = Some (Err UnexpectedEarlyData, tunnel_text).
Proof. vm_compute. reflexivity. Qed.
End ConnectFacts.
